(* ===== verification/_CoqProject ===== *)
-Q . S2P
Prelude.v
Errors.v
Parcel.v
ParcelInv.v
ParcelTyped.v
ParcelString.v
ParcelVector.v
ParcelObject.v
ParcelMessage.v
ParcelUse.v
ParcelProps.v
RefBase.v
RefInv.v
SmartPtr.v
SmartInv.v
RefProps.v
Unicode.v
UnicodeSpec.v
UnicodeDec.v
UnicodeProps.v
StringEx.v
StringInv.v
StringProps.v
SortedVector.v
SortedProps.v
RWLock.v
RWLockInv.v
RWLockProps.v
Monitor.v
BlockQueue.v
BlockQueueProps.v
Semaphore.v
ThreadPool.v
ThreadPoolInv.v
ThreadPoolProps.v
IOEvent.v
IOEventInv.v
IOEventOps.v
IOEventCalls.v
IOEventLoop.v
IOEventProps.v
MappedFile.v
MappedInv.v
MappedProps.v
EventReactor.v
EventReactorInv.v
EventReactorCalls.v
EventReactorLoop.v
Timer.v
TimerRegistry.v
TimerInv.v
TimerCalls.v
TimerLoop.v
TimerProps.v
Thread.v
UniqueFd.v
Ashmem.v
AshmemProps.v
DirectoryEx.v
DirectoryInv.v
DirectoryWalk.v
DirectoryRemove.v
DirectoryEmpty.v
DirectoryProps.v
DirectoryDemo.v
FileEx.v
FileProps.v
SafeQueue.v
SafeMap.v
Observer.v
Singleton.v
DateTime.v
RefRace.v
RefRaceInv.v
RefRaceSteps.v
RefRacePromote.v
RefRaceProps.v
RefTracker.v
SmartCast.v
RustWrappers.v
