(* ===== verification/Prelude.v ===== *)
(** * c_utils: a verification library for the OpenHarmony C++ utility classes

    The program is a library of small C++ components under [src/base]: a
    serialization buffer, reference counting, strings, containers, locks and
    queues, a thread pool, event loops and timers, and wrappers of what the
    kernel offers (files, mappings, shared memory, threads). Each component is
    a header under [base/include] with, mostly, one source under [base/src].

    ** How the code is modelled

    A method is a function that carries its name. One that changes an object
    is a state passing function, in the monad [ST S] of this file or in a
    monad of the same shape ([PM] for parcels, [SM] for pointer stores):
    [None] is undefined behaviour, so that a theorem that a run is [Some]
    says that no access is out of bounds, no deleted object is used and no
    signed addition overflows. A [w]-bit integer is a [Z] with the wrap-around
    written out. Buffers, strings and vectors are lists; objects that are
    shared or point to each other live in stores or heaps, by address.

    Concurrent components are transition systems: a step is what a thread does
    between two points at which another thread may come in, and a run is a
    list of events ([run_steps]); a theorem about every list of events is one
    about every schedule. [Monitor] gives the components with a mutex and
    condition variables their threads, with notified and spurious wake-ups;
    in [RWLock], [Singleton] and [RefRace] every access to a shared field is
    a step.

    What is not in [src] is a class whose laws are the documented behaviour
    ([LibcOk], [DirLaws], the laws of epoll, mmap and timerfd, ...). Every
    property that uses laws is applied, in a witness, to an instance that
    satisfies them.

    ** The parts

    - Serialization ([parcel.cpp], [parcel.h]). [Parcel] has the fields, the
      memory and the raw operations, [ParcelTyped], [ParcelString],
      [ParcelVector] and [ParcelObject] the methods on top of them. [ParcelInv]
      has the invariant. [ParcelProps]: any sequence of calls is memory safe
      and keeps the invariant, messages round-trip, failed writes are undone,
      capacities are bounded, a read never touches the offsets of objects. Two
      calls are outside of the safety theorem, because they are not safe:
      [SetDataSize], and objects that write remote objects while they are
      written as one. The examples [SetDataSize_overrun] and
      [WriteRemoteObject_overrun] show why.
    - Reference counting ([refbase.cpp], [refbase.h]). [RefBase] has the
      counters and objects on a heap, [SmartPtr] the variables of [sptr] and
      [wptr]; [RefInv], [SmartInv]: the counters are the numbers of
      references. [RefProps]: programs never touch a deleted object and never
      leak one, and a promotion succeeds exactly when the object is alive,
      for classes whose [CanPromote] does not refuse ([refused_promotion_leaks]
      shows what happens when it does).
      [RefRace] has the same methods access by access, for any number of
      threads that share an object; its counters are 32-bit integers that wrap
      around, and a client begins a call only while fewer than 2^28 references
      exist or are being made ([has_room]). [RefRaceInv], [RefRaceSteps] and
      [RefRacePromote] show that each access keeps the sums that the counters
      hold, and [RefRaceProps] that no schedule touches what is deleted or
      leaves anything behind. [SmartCast]: pointers to related classes, which
      need not be at the same address, and programs over variables of several
      classes, which refine those of [SmartPtr]. [RefTracker]: the debug build.
    - Text. [Unicode] ([unicode_ex.cpp]) against the encodings and the
      reference decoders of [UnicodeSpec] and [UnicodeDec]; [StringEx]
      ([string_ex.cpp]) with [StringInv] and [StringProps].
    - [Errors] ([errors.h], [common_*_errors.h]): the layout of the error codes,
      from which subsystem, module and code can be read back.
    - Containers. [SortedVector] ([sorted_vector.h]); [SafeMap],
      [SafeQueue] ([safe_map.h], [safe_queue.h]): the operations of a finite
      map, of a queue and of a stack.
    - Locks and queues. [RWLock] ([rwlock.cpp]) refines the contract of a
      read-write lock, for threads that do not nest write guards
      ([nested_write_guards] shows what nesting does); [BlockQueue] ([safe_block_queue.h]), [Semaphore]
      ([semaphore_ex.cpp]), [ThreadPool] ([thread_pool.cpp]), [Thread]
      ([thread_ex.cpp]), [Observer] ([observer.cpp]), [Singleton]
      ([singleton.h]): bounds, order, no lost wake-up, mutual exclusion,
      the end of threads. The limit of a [ThreadPool] may change at any time,
      and its tasks may be empty.
    - I/O events ([io_event_reactor.cpp], [io_event_handler.cpp],
      [io_event_epoll.cpp]). [IOEvent] has the handlers on a heap of linked
      nodes, the table and the epoll backend; the other files with this prefix
      lead to [IOEventProps]: the linked structure refines a table of lists,
      for clients that call [Clean] with a descriptor of the table or with -1;
      for any other the source reads outside of it ([Clean_out_of_bounds]).
    - Timers. [EventReactor] ([event_reactor.cpp], [event_demultiplexer.cpp],
      [event_handler.cpp], [timer_event_handler.cpp]) is the event loop, whose
      promises [EventReactorCalls] states; [Timer] ([timer.cpp]) uses it and is
      proved against them. [Setup] and [Shutdown] are each split where the
      source takes or leaves its mutex. [TimerProps]: the tables, the handlers,
      the settings of the kernel's timers and what epoll watches agree under
      any interleaving of clients and loop, expired timers are served and
      unregistered ones are silent under any interleaving, descriptors are
      closed. The code only logs an [epoll_ctl] that fails, so what epoll
      watches is stated for kernels that do not refuse ([willing]).
    - The kernel's objects. [MappedFile] ([mapped_file.cpp]), [Ashmem]
      ([ashmem.cpp]), [UniqueFd] ([unique_fd.h]): each owns exactly the pages
      and descriptors it should; the next segment of a [MappedFile] is where
      the old one ends, in the region or in the call of mmap, and memory is
      read only through mappings whose protection permits it. [DirectoryEx]
      ([directory_ex.cpp]): listing and measuring are computed from the tree,
      creation is the relation [mkdir_p] on the prefixes of the path,
      removal stays below its root whatever fails, because of the flags that
      the code passes to [openat], and empties it when nothing does. [FileEx] ([file_ex.cpp]): what is saved is loaded, and counting is
      maximal. [RustWrappers]: the versions of both for Rust, which convert
      strings.
    - [DateTime] ([datetime_ex.cpp]): differences, tick counts and zones.

    A file [X] has the definitions of a component, [XInv] and files between
    its invariant and lemmas, [XProps] the theorems for its users with their
    witnesses, [XDemo] an environment that satisfies the laws. Examples that
    end a file show behaviour that its users may not expect.

    ** Fuel

    A loop that is not structural carries fuel. Where the function fixes it,
    it is one more than a length that the loop shortens ([StringEx],
    [CountStrInStr], [ForceCreateDirectory]), the number of records that it
    deletes ([PrintTracker]), or the number of identifiers that [Register]
    tries ([MAX_TIMERS]), and the theorems say that it is not exhausted. Where the loop ends with a stream or a directory, the fuel is
    an argument, and the theorems give an amount that is enough: the entries
    of the tree for the directories, the bytes for the files. Safety theorems
    about such a loop hold for every amount.

    ** What is not modelled

    Macros and logging; the declarations for Rust under [src/rust], which have
    no code of their own; the destructors that only free memory. The memory
    model is sequentially consistent everywhere: the orders that the counters
    of [RefRace] pass to their atomics are not told apart. There a client lets
    go of a variable only when no other thread reads it, and an object is asked
    the default [CanPromote]; the methods [AttemptAcquire] and
    [AttemptIncStrong] are in [RefBase] only. Names of threads, scheduling
    priorities and the argument that observers are passed have no effect on
    what is modelled and are left out of the transition systems. *)

From stdpp Require Export prelude gmap strings list fin_maps relations.
From Stdlib Require Export ZArith Lia.

Open Scope Z_scope.

(** ** Machine integers

    A w-bit integer is a [Z]; the wrap-around of an unsigned or two's
    complement conversion is written out. *)

Definition wrapU (w z : Z) : Z := z mod 2 ^ w.
Definition wrapS (w z : Z) : Z := (z + 2 ^ (w - 1)) mod 2 ^ w - 2 ^ (w - 1).

Definition u8 (z : Z) : Z := wrapU 8 z.
Definition u16 (z : Z) : Z := wrapU 16 z.
Definition u32 (z : Z) : Z := wrapU 32 z.
Definition u64 (z : Z) : Z := wrapU 64 z.
Definition i8 (z : Z) : Z := wrapS 8 z.
Definition i16 (z : Z) : Z := wrapS 16 z.
Definition i32 (z : Z) : Z := wrapS 32 z.
Definition i64 (z : Z) : Z := wrapS 64 z.

Definition INT32_MAX : Z := 2 ^ 31 - 1.
Definition INT_MAX : Z := 2 ^ 31 - 1.
Definition INT_MIN : Z := - 2 ^ 31.
Definition SIZE_MAX : Z := 2 ^ 64 - 1.

Lemma wrapU_small w z : 0 <= z < 2 ^ w -> wrapU w z = z.
Proof. intros H. unfold wrapU. by apply Z.mod_small. Qed.

Lemma wrapU_range w z : 0 <= w -> 0 <= wrapU w z < 2 ^ w.
Proof. intros H. unfold wrapU. apply Z.mod_pos_bound. lia. Qed.

Lemma wrapS_small w z : 0 < w -> - 2 ^ (w - 1) <= z < 2 ^ (w - 1) -> wrapS w z = z.
Proof.
  intros Hw H. unfold wrapS.
  assert (2 ^ w = 2 * 2 ^ (w - 1)) as E.
  { rewrite <- Z.pow_succ_r by lia. f_equal. lia. }
  rewrite Z.mod_small; lia.
Qed.

Lemma wrapS_range w z : 0 < w -> - 2 ^ (w - 1) <= wrapS w z < 2 ^ (w - 1).
Proof.
  intros Hw. unfold wrapS.
  assert (2 ^ w = 2 * 2 ^ (w - 1)) as E.
  { rewrite <- Z.pow_succ_r by lia. f_equal. lia. }
  pose proof (Z.mod_pos_bound (z + 2 ^ (w - 1)) (2 ^ w)). lia.
Qed.

Lemma wrapS_wrapU w z : 0 <= w -> wrapS w (wrapU w z) = wrapS w z.
Proof.
  intros Hw. unfold wrapS, wrapU. f_equal.
  rewrite Zplus_mod_idemp_l. done.
Qed.

Lemma wrapU_wrapU w z : wrapU w (wrapU w z) = wrapU w z.
Proof. unfold wrapU. apply Zmod_mod. Qed.

(** ** Bits *)

Lemma lor_shift a b k : 0 <= k -> 0 <= b < 2 ^ k -> Z.lor (Z.shiftl a k) b = a * 2 ^ k + b.
Proof.
  intros Hk Hb. rewrite <- (Z.shiftl_mul_pow2 a k Hk).
  assert (Z.land (Z.shiftl a k) b = 0) as Hz.
  { apply Z.bits_inj'. intros n Hn. rewrite Z.land_spec, Z.bits_0, Z.shiftl_spec by done.
    destruct (Z.ltb_spec n k) as [Hlt|Hge]; [by rewrite (Z.testbit_neg_r a) by lia|].
    apply andb_false_iff; right. rewrite <- (Z.mod_small b (2 ^ k)) by done.
    apply Z.mod_pow2_bits_high. lia. }
  by rewrite Z.add_nocarry_lxor, Z.lxor_lor.
Qed.

Lemma land_ones_mod a k : 0 <= k -> Z.land a (2 ^ k - 1) = a mod 2 ^ k.
Proof. intros. rewrite <- Z.land_ones by done. by rewrite Z.ones_equiv, Z.sub_1_r. Qed.

(** ** Lists indexed by [Z]

    Buffers are lists; offsets and lengths are [size_t] values, that is [Z]. *)

Section zlist.
Context {A : Type}.
Implicit Types l k : list A.

Definition zlen l : Z := Z.of_nat (length l).
Definition ztake (n : Z) l : list A := take (Z.to_nat n) l.
Definition zdrop (n : Z) l : list A := drop (Z.to_nat n) l.
Definition znth (l : list A) (i : Z) : option A :=
  if i <? 0 then None else l !! Z.to_nat i.
Definition zset (l : list A) (i : Z) (x : A) : option (list A) :=
  if (0 <=? i) && (i <? zlen l) then Some (<[Z.to_nat i := x]> l) else None.

Lemma zlen_nonneg l : 0 <= zlen l.
Proof. unfold zlen. lia. Qed.
Lemma zlen_nil : zlen [] = 0.
Proof. done. Qed.
Lemma zlen_nil_inv l : zlen l <= 0 -> l = [].
Proof. destruct l; [done|]. unfold zlen. simpl length. lia. Qed.
Lemma zlen_cons x l : zlen (x :: l) = 1 + zlen l.
Proof. unfold zlen. simpl length. lia. Qed.
Lemma zlen_app l k : zlen (l ++ k) = zlen l + zlen k.
Proof. unfold zlen. rewrite length_app. lia. Qed.
Lemma zlen_take n l : 0 <= n <= zlen l -> zlen (ztake n l) = n.
Proof. unfold zlen, ztake. intros. rewrite length_take. lia. Qed.
Lemma zlen_drop n l : 0 <= n <= zlen l -> zlen (zdrop n l) = zlen l - n.
Proof. unfold zlen, zdrop. intros. rewrite length_drop. lia. Qed.
Lemma ztake_drop n l : ztake n l ++ zdrop n l = l.
Proof. unfold ztake, zdrop. apply take_drop. Qed.
Lemma ztake_ge n l : zlen l <= n -> ztake n l = l.
Proof. unfold zlen, ztake. intros. apply take_ge. lia. Qed.
Lemma zdrop_ge n l : zlen l <= n -> zdrop n l = [].
Proof. unfold zlen, zdrop. intros. apply drop_ge. lia. Qed.
Lemma ztake_0 n l : n <= 0 -> ztake n l = [].
Proof. unfold ztake. intros. replace (Z.to_nat n) with 0%nat by lia. done. Qed.
Lemma zdrop_0 n l : n <= 0 -> zdrop n l = l.
Proof. unfold zdrop. intros. replace (Z.to_nat n) with 0%nat by lia. done. Qed.
Lemma ztake_app_l n l k : n <= zlen l -> ztake n (l ++ k) = ztake n l.
Proof. unfold zlen, ztake. intros. apply take_app_le. lia. Qed.
Lemma ztake_app_exact l k : ztake (zlen l) (l ++ k) = l.
Proof. rewrite ztake_app_l by lia. apply ztake_ge. lia. Qed.
Lemma zdrop_app_exact l k : zdrop (zlen l) (l ++ k) = k.
Proof. unfold zdrop, zlen. rewrite Nat2Z.id. by rewrite drop_app_length. Qed.
Lemma ztake_app_r n l k :
  zlen l <= n -> ztake n (l ++ k) = l ++ ztake (n - zlen l) k.
Proof.
  unfold zlen, ztake. intros. rewrite take_app_ge by lia. f_equal. f_equal. lia.
Qed.
Lemma zdrop_app_r n l k :
  zlen l <= n -> zdrop n (l ++ k) = zdrop (n - zlen l) k.
Proof. unfold zlen, zdrop. intros. rewrite drop_app_ge by lia. f_equal. lia. Qed.
Lemma zdrop_app_l n l k :
  n <= zlen l -> zdrop n (l ++ k) = zdrop n l ++ k.
Proof. unfold zlen, zdrop. intros. by rewrite drop_app_le by lia. Qed.
Lemma ztake_ztake n m l : ztake n (ztake m l) = ztake (Z.min n m) l.
Proof. unfold ztake. rewrite take_take. f_equal. lia. Qed.
Lemma zdrop_zdrop n m l : 0 <= n -> 0 <= m -> zdrop n (zdrop m l) = zdrop (m + n) l.
Proof. unfold zdrop. intros. rewrite drop_drop. f_equal. lia. Qed.
Lemma ztake_zdrop_comm n m l :
  0 <= n -> 0 <= m -> ztake n (zdrop m l) = zdrop m (ztake (m + n) l).
Proof.
  unfold ztake, zdrop. intros. rewrite take_drop_commute. f_equal. f_equal. lia.
Qed.
Lemma ztake_add a b l :
  0 <= a -> 0 <= b -> ztake (a + b) l = ztake a l ++ ztake b (zdrop a l).
Proof.
  unfold ztake, zdrop. intros. rewrite Z2Nat.inj_add by lia.
  by rewrite take_take_drop.
Qed.
Lemma ztake_splice l k m n :
  n <= zlen l -> ztake n (ztake (zlen l) (l ++ k) ++ m) = ztake n l.
Proof. intros. by rewrite ztake_app_exact, ztake_app_l. Qed.
Lemma Forall_ztake (P : A -> Prop) n l : Forall P l -> Forall P (ztake n l).
Proof. apply Forall_take. Qed.
Lemma Forall_zdrop (P : A -> Prop) n l : Forall P l -> Forall P (zdrop n l).
Proof. apply Forall_drop. Qed.

Lemma znth_lookup l i x : znth l i = Some x -> 0 <= i < zlen l /\ l !! Z.to_nat i = Some x.
Proof.
  unfold znth, zlen. destruct (Z.ltb_spec i 0); [done|].
  intros E. split; [|done]. apply lookup_lt_Some in E. lia.
Qed.
Lemma znth_is_Some l i : 0 <= i < zlen l -> is_Some (znth l i).
Proof.
  unfold znth, zlen. intros. destruct (Z.ltb_spec i 0); [lia|].
  apply lookup_lt_is_Some. lia.
Qed.
Lemma zset_is_Some l i x : 0 <= i < zlen l -> is_Some (zset l i x).
Proof.
  intros Hi. unfold zset. destruct (Z.leb_spec 0 i), (Z.ltb_spec i (zlen l)); try lia. by eexists.
Qed.

Lemma znth_zset l l' i x : zset l i x = Some l' ->
  zlen l' = zlen l /\ forall j, znth l' j = if j =? i then Some x else znth l j.
Proof.
  unfold zset. destruct (Z.leb_spec 0 i), (Z.ltb_spec i (zlen l)); try done. cbn. intros [= <-].
  split; [unfold zlen; by rewrite length_insert|]. intros j. unfold znth.
  destruct (Z.ltb_spec j 0), (Z.eqb_spec j i); try lia; [done| |].
  - subst. rewrite list_lookup_insert_eq; [done|]. unfold zlen in *. lia.
  - rewrite list_lookup_insert_ne; [done|lia].
Qed.

Lemma zset_Some l i x l' :
  zset l i x = Some l' -> 0 <= i < zlen l /\ zlen l' = zlen l.
Proof.
  unfold zset. destruct (Z.leb_spec 0 i), (Z.ltb_spec i (zlen l)); simpl; try done.
  intros [= <-]. split; [lia|]. unfold zlen. by rewrite length_insert.
Qed.
End zlist.

#[global] Arguments zlen : simpl never.
#[global] Arguments ztake : simpl never.
#[global] Arguments zdrop : simpl never.

Create HintDb zlist.
#[export] Hint Rewrite @zlen_app @zlen_cons @zlen_nil : zlist.
#[export] Hint Resolve Forall_ztake Forall_zdrop zlen_nonneg : zlist.

(** ** Bytes and little-endian words

    The platform modelled is little-endian LP64. A byte is a [Z] in
    [0, 256); a word of [n] bytes is read and written low byte first. *)

Definition is_byte (b : Z) : Prop := 0 <= b < 256.
#[export] Instance is_byte_dec b : Decision (is_byte b).
Proof. unfold is_byte. apply _. Defined.

Fixpoint le_bytes (n : nat) (z : Z) : list Z :=
  match n with
  | O => []
  | S n' => z mod 256 :: le_bytes n' (z / 256)
  end.

Fixpoint le_val (l : list Z) : Z :=
  match l with
  | [] => 0
  | b :: l' => b + 256 * le_val l'
  end.

Lemma length_le_bytes n z : length (le_bytes n z) = n.
Proof. revert z. induction n; intros; simpl; auto. Qed.

Lemma zlen_le_bytes n z : zlen (le_bytes n z) = Z.of_nat n.
Proof. unfold zlen. by rewrite length_le_bytes. Qed.

Lemma le_bytes_byte n z : Forall is_byte (le_bytes n z).
Proof.
  revert z. induction n; intros; simpl; constructor; auto.
  apply Z.mod_pos_bound. lia.
Qed.

Lemma pow256_succ n : 256 ^ Z.of_nat (S n) = 256 * 256 ^ Z.of_nat n.
Proof. rewrite Nat2Z.inj_succ, Z.pow_succ_r by lia. done. Qed.

Lemma le_val_le_bytes n z : le_val (le_bytes n z) = z mod 256 ^ Z.of_nat n.
Proof.
  revert z. induction n as [|n IH]; intros z.
  - simpl. by rewrite Z.mod_1_r.
  - cbn [le_bytes le_val]. rewrite IH, pow256_succ.
    rewrite Z.rem_mul_r by lia. done.
Qed.

Lemma le_val_range l : Forall is_byte l -> 0 <= le_val l < 256 ^ zlen l.
Proof.
  unfold zlen. induction 1 as [|b l Hb Hl IH]; [done|].
  cbn [length le_val]. rewrite pow256_succ. unfold is_byte in Hb. lia.
Qed.

Lemma le_bytes_le_val l : Forall is_byte l -> le_bytes (length l) (le_val l) = l.
Proof.
  induction 1 as [|b l Hb Hl IH]; [done|]. cbn [length le_bytes le_val].
  unfold is_byte in Hb.
  replace ((b + 256 * le_val l) mod 256) with b by (rewrite Z.mul_comm, Z.mod_add, Z.mod_small; lia).
  replace ((b + 256 * le_val l) / 256) with (le_val l)
    by (rewrite Z.mul_comm, Z.div_add, Z.div_small; lia).
  by rewrite IH.
Qed.

Lemma le_bytes_mod n z : le_bytes n (z mod 256 ^ Z.of_nat n) = le_bytes n z.
Proof.
  rewrite <- le_val_le_bytes.
  rewrite <- (length_le_bytes n z) at 1.
  apply le_bytes_le_val, le_bytes_byte.
Qed.

Lemma le_val_app l k : le_val (l ++ k) = le_val l + 256 ^ zlen l * le_val k.
Proof.
  unfold zlen. induction l as [|b l IH]; [simpl; lia|].
  cbn [app le_val length]. rewrite IH, pow256_succ. lia.
Qed.

Lemma le_val_zeros n : le_val (replicate n 0) = 0.
Proof. induction n; simpl; lia. Qed.

Lemma le_val_ztake n l :
  Forall is_byte l -> 0 <= n <= zlen l -> le_val l mod 256 ^ n = le_val (ztake n l).
Proof.
  intros Hl Hn. rewrite <- (ztake_drop n l) at 1. rewrite le_val_app, zlen_take by lia.
  rewrite Z.mul_comm, Z.mod_add by (apply Z.pow_nonzero; lia).
  apply Z.mod_small. pose proof (le_val_range (ztake n l)) as Hr.
  rewrite zlen_take in Hr by lia. by apply Hr, Forall_ztake.
Qed.

#[global] Arguments le_bytes : simpl never.
#[global] Arguments le_val : simpl never.

(** ** Blocks of memory

    A block is the list of its cells; an access outside of it is undefined
    behaviour and yields [None]. *)

Section memory.
Context {A : Type}.
Implicit Types d bs : list A.

Definition mem_store d (off : Z) bs : option (list A) :=
  if (0 <=? off) && (off + zlen bs <=? zlen d)
  then Some (ztake off d ++ bs ++ zdrop (off + zlen bs) d) else None.

Definition mem_load d (off n : Z) : option (list A) :=
  if (0 <=? off) && (0 <=? n) && (off + n <=? zlen d)
  then Some (ztake n (zdrop off d)) else None.

Lemma mem_store_ok d off bs :
  0 <= off -> off + zlen bs <= zlen d ->
  mem_store d off bs = Some (ztake off d ++ bs ++ zdrop (off + zlen bs) d).
Proof.
  intros. unfold mem_store.
  destruct (Z.leb_spec 0 off), (Z.leb_spec (off + zlen bs) (zlen d)); simpl; try lia. done.
Qed.

Lemma mem_store_zlen d off bs :
  0 <= off -> off + zlen bs <= zlen d ->
  zlen (ztake off d ++ bs ++ zdrop (off + zlen bs) d) = zlen d.
Proof.
  intros. pose proof (zlen_nonneg bs).
  rewrite !zlen_app, zlen_take, zlen_drop by lia. lia.
Qed.

Lemma mem_load_ok d off n :
  0 <= off -> 0 <= n -> off + n <= zlen d ->
  mem_load d off n = Some (ztake n (zdrop off d)).
Proof.
  intros. unfold mem_load.
  destruct (Z.leb_spec 0 off), (Z.leb_spec 0 n), (Z.leb_spec (off + n) (zlen d)); simpl; try lia. done.
Qed.

Lemma mem_load_zlen d off n bs : mem_load d off n = Some bs -> zlen bs = n.
Proof.
  unfold mem_load.
  destruct (Z.leb_spec 0 off), (Z.leb_spec 0 n), (Z.leb_spec (off + n) (zlen d)); simpl; try done.
  intros [= <-]. rewrite zlen_take; [done|]. rewrite zlen_drop by lia. lia.
Qed.
End memory.

(** The C heap: [malloc] and [realloc] succeed up to [heap_limit] and the
    cells they add hold arbitrary bytes. *)

Class Libc := {
  heap_limit : Z;
  heap_junk : nat -> Z;
}.

Class LibcOk `{Libc} := {
  heap_junk_byte : forall i, is_byte (heap_junk i);
  heap_limit_range : 0 <= heap_limit < 2 ^ 63;
}.

Section libc.
Context `{Libc}.

Definition resize_block (d : list Z) (n : Z) : list Z :=
  ztake n d ++ (heap_junk <$> seq (length d) (Z.to_nat n - length d)).

Definition libc_realloc (data : option (list Z)) (cell n : Z) : option (list Z) :=
  if n * cell <=? heap_limit then Some (resize_block (default [] data) n) else None.

Definition libc_malloc (n : Z) : option (list Z) := libc_realloc None 1 n.

Lemma resize_block_zlen d n : 0 <= n -> zlen (resize_block d n) = n.
Proof.
  intros. unfold resize_block, zlen, ztake.
  rewrite length_app, length_take, length_fmap, length_seq. lia.
Qed.

Lemma resize_block_prefix d n k :
  0 <= k <= n -> k <= zlen d -> ztake k (resize_block d n) = ztake k d.
Proof.
  intros. unfold resize_block.
  rewrite ztake_app_l by (unfold zlen, ztake in *; rewrite length_take; lia).
  rewrite ztake_ztake. f_equal. lia.
Qed.

Lemma resize_block_byte `{!LibcOk} d n : Forall is_byte d -> Forall is_byte (resize_block d n).
Proof.
  intros Hd. unfold resize_block. apply Forall_app. split; [by apply Forall_ztake|].
  apply Forall_fmap, Forall_forall. intros i _. apply heap_junk_byte.
Qed.
End libc.

(** A concrete heap, for the witnesses. *)
#[export] Instance demo_libc : Libc := {| heap_limit := 2 ^ 20; heap_junk := fun _ => 171 |}.
#[export] Instance demo_libc_ok : LibcOk.
Proof. split; intros; unfold is_byte; simpl; lia. Qed.

(** ** Counting the values of a map *)

Section mcount.
Context {V : Type} (P : V -> Prop) `{!forall v, Decision (P v)}.
Implicit Types m : gmap Z V.

Definition mcount m : Z := Z.of_nat (size (filter (fun kv => P kv.2) m)).
Definition hit (v : V) : Z := if decide (P v) then 1 else 0.

Lemma hit_range v : 0 <= hit v <= 1.
Proof. unfold hit. case_decide; lia. Qed.

Lemma mcount_nonneg m : 0 <= mcount m.
Proof. unfold mcount. lia. Qed.

Lemma mcount_empty : mcount ∅ = 0.
Proof. unfold mcount. by rewrite map_filter_empty, map_size_empty. Qed.

Lemma mcount_insert_new m k v : m !! k = None -> mcount (<[k := v]> m) = mcount m + hit v.
Proof.
  intros Hk. unfold mcount, hit. case_decide as Hv.
  - rewrite map_filter_insert_True by done. rewrite map_size_insert_None; [lia|].
    by apply map_lookup_filter_None_2; left.
  - rewrite map_filter_insert_False by done. rewrite delete_id by done. lia.
Qed.

Lemma mcount_delete m k v : m !! k = Some v -> mcount (delete k m) = mcount m - hit v.
Proof.
  intros Hk. rewrite <- (insert_delete_id m k v Hk) at 2.
  rewrite mcount_insert_new by apply lookup_delete_eq. lia.
Qed.

Lemma mcount_insert m k v v' :
  m !! k = Some v -> mcount (<[k := v']> m) = mcount m - hit v + hit v'.
Proof.
  intros Hk. rewrite <- insert_delete_eq. rewrite mcount_insert_new by apply lookup_delete_eq.
  by rewrite (mcount_delete m k v).
Qed.

Lemma mcount_pos m k v : m !! k = Some v -> P v -> 0 < mcount m.
Proof.
  intros Hk Hv. pose proof (mcount_delete m k v Hk) as E. pose proof (mcount_nonneg (delete k m)).
  unfold hit in E. rewrite decide_True in E by done. lia.
Qed.

Lemma mcount_zero m : (forall k v, m !! k = Some v -> ~ P v) -> mcount m = 0.
Proof.
  intros Hm. unfold mcount. enough (filter (fun kv => P kv.2) m = ∅) as -> by by rewrite map_size_empty.
  apply map_empty. intros k. apply map_lookup_filter_None_2. destruct (m !! k) as [v|] eqn:Hk; [right|by left].
  intros v0 [= <-]. by apply (Hm k v).
Qed.
End mcount.

(** ** Summing over the values of a map *)

Section msum.
Context {V : Type} (f : V -> Z).
Implicit Types m : gmap Z V.

Definition msum m : Z := map_fold (fun _ v acc => f v + acc) 0 m.

Lemma msum_empty : msum ∅ = 0.
Proof. apply map_fold_empty. Qed.

Lemma msum_insert_new m k v : m !! k = None -> msum (<[k := v]> m) = f v + msum m.
Proof.
  intros Hk. unfold msum. rewrite map_fold_insert_L; [done| |done].
  intros. lia.
Qed.

Lemma msum_delete m k v : m !! k = Some v -> msum m = f v + msum (delete k m).
Proof.
  intros Hk. rewrite <- (insert_delete_id m k v Hk) at 1.
  by rewrite msum_insert_new by apply lookup_delete_eq.
Qed.

Lemma msum_insert m k v v' : m !! k = Some v -> msum (<[k := v']> m) = msum m - f v + f v'.
Proof.
  intros Hk. rewrite <- insert_delete_eq, msum_insert_new by apply lookup_delete_eq.
  rewrite (msum_delete m k v Hk). lia.
Qed.

Lemma msum_nonneg m : (forall v, 0 <= f v) -> 0 <= msum m.
Proof.
  intros Hf. induction m as [|k v m Hk IH] using map_ind; [by rewrite msum_empty|].
  rewrite msum_insert_new by done. specialize (Hf v). lia.
Qed.

Lemma msum_ge m k v : (forall v, 0 <= f v) -> m !! k = Some v -> f v <= msum m.
Proof.
  intros Hf Hk. rewrite (msum_delete m k v Hk). pose proof (msum_nonneg (delete k m) Hf). lia.
Qed.

Lemma msum_zero m : (forall k v, m !! k = Some v -> f v = 0) -> msum m = 0.
Proof.
  induction m as [|k v m Hk IH] using map_ind; intros Hm; [apply msum_empty|].
  rewrite msum_insert_new by done. rewrite (Hm k v) by apply lookup_insert_eq. rewrite IH; [done|].
  intros k' v' Hk'. apply (Hm k'). rewrite lookup_insert_ne; [done|]. by intros ->; simplify_eq.
Qed.

Lemma msum_nonzero m : msum m <> 0 -> exists k v, m !! k = Some v /\ f v <> 0.
Proof.
  induction m as [|k v m Hk IH] using map_ind; [by rewrite msum_empty|].
  rewrite msum_insert_new by done. intros Hs. destruct (Z.eq_dec (f v) 0) as [E|Hv].
  - destruct IH as (k' & v' & Hk' & Hv'); [lia|]. exists k', v'. split; [|done].
    rewrite lookup_insert_ne; [done|]. intros ->. congruence.
  - exists k, v. by rewrite lookup_insert_eq.
Qed.
End msum.

(** ** Transition systems *)

Lemma rtc_invariant {S} (R : relation S) (I : S -> Prop) :
  (forall x y, I x -> R x y -> I y) -> forall x y, rtc R x y -> I x -> I y.
Proof. intros Hstep x y Hxy. induction Hxy; eauto. Qed.

(** A program that reacts to events: [None] where an event cannot happen. *)
Section traces.
Context {S E : Type} (step : S -> E -> option S).

Fixpoint run_steps (s : S) (evs : list E) : option S :=
  match evs with
  | [] => Some s
  | ev :: evs => s' ← step s ev; run_steps s' evs
  end.

Lemma run_steps_cons s ev evs s' :
  run_steps s (ev :: evs) = Some s' -> exists s1, step s ev = Some s1 /\ run_steps s1 evs = Some s'.
Proof. cbn. destruct (step s ev) as [s1|]; [|done]. by exists s1. Qed.

Lemma run_steps_app s evs1 evs2 : run_steps s (evs1 ++ evs2) = s' ← run_steps s evs1; run_steps s' evs2.
Proof.
  revert s. induction evs1 as [|ev evs1 IH]; intros s; [done|]. cbn. destruct (step s ev) as [s1|]; [apply IH|done].
Qed.

Lemma run_steps_inv (I : S -> Prop) s evs s' :
  (forall s ev s', I s -> step s ev = Some s' -> I s') -> I s -> run_steps s evs = Some s' -> I s'.
Proof.
  intros Hstep. revert s. induction evs as [|ev evs IH]; intros s Hs; [by intros [= <-]|].
  intros (s1 & E1 & Hr)%run_steps_cons. eauto.
Qed.
End traces.

(** ** Fresh numbers *)

(** A number above those in use. *)
Definition above (s : gset Z) : Z := 1 + foldr Z.max 2 (elements s).

Lemma above_fresh s : above s ∉ s /\ 0 <= above s.
Proof.
  unfold above. assert (forall l x, x ∈ l -> x <= foldr Z.max 2 l) as Hm.
  { induction l as [|y l IH]; intros x; [by intros ?%elem_of_nil|]. intros [->|Hx]%elem_of_cons; cbn; [lia|].
    specialize (IH x Hx). lia. }
  assert (forall l, 2 <= foldr Z.max 2 l) as H2 by (induction l; cbn; lia). split; [|specialize (H2 (elements s)); lia].
  intros Hs%elem_of_elements%Hm. lia.
Qed.

(** ** Filters *)

Section filters.
Context {A : Type} (P : A -> Prop) `{forall x, Decision (P x)}.

Lemma filter_all (l : list A) : Forall P l -> filter P l = l.
Proof. induction 1 as [|x l Hx Hl IH]; [done|]. by rewrite filter_cons_True, IH. Qed.
Lemma filter_none (l : list A) : Forall (fun x => ~ P x) l -> filter P l = [].
Proof. induction 1 as [|x l Hx Hl IH]; [done|]. by rewrite filter_cons_False, IH. Qed.
End filters.

(** ** State with undefined behaviour

    [ST S A] reads and changes a state of type [S]; [None] is undefined
    behaviour. *)
Definition ST (S A : Type) : Type := S -> option (A * S).

#[export] Instance st_ret {S} : MRet (ST S) := fun A a s => Some (a, s).
#[export] Instance st_bind {S} : MBind (ST S) := fun A B f m s =>
  match m s with
  | Some (a, s') => f a s'
  | None => None
  end.
Definition st_get {S A} (f : S -> A) : ST S A := fun s => Some (f s, s).
Definition st_put {S} (f : S -> S) : ST S unit := fun s => Some (tt, f s).
(** An access that may be undefined. *)
Definition st_access {S A} (f : S -> option A) : ST S A := fun s =>
  match f s with Some a => Some (a, s) | None => None end.
(** A call to an environment that is the state. *)
Definition st_call {S A} (g : S -> A * S) : ST S A := fun s => Some (g s).

Lemma st_bind_eq {S A B} (m : ST S A) (f : A -> ST S B) s a s' :
  m s = Some (a, s') -> (m ≫= f) s = f a s'.
Proof. unfold mbind, st_bind. by intros ->. Qed.
Lemma st_call_eq {S A} (g : S -> A * S) s a s' : g s = (a, s') -> st_call g s = Some (a, s').
Proof. unfold st_call. by intros ->. Qed.
Lemma st_get_eq {S A} (g : S -> A) s a : g s = a -> st_get g s = Some (a, s).
Proof. unfold st_get. by intros ->. Qed.
Lemma st_bind_Some {S A B} (m : ST S A) (f : A -> ST S B) s r :
  (m ≫= f) s = Some r -> exists a s', m s = Some (a, s') /\ f a s' = Some r.
Proof. unfold mbind, st_bind. destruct (m s) as [[a s']|]; [|done]. by exists a, s'. Qed.

(** [wp m Q s]: run from [s], [m] is defined and ends with [Q]. *)
Definition wp {S A} (m : ST S A) (Q : A -> S -> Prop) (s : S) : Prop :=
  match m s with Some (a, s') => Q a s' | None => False end.

Lemma wp_bind {S A B} (m : ST S A) (f : A -> ST S B) Q s :
  wp m (fun a s' => wp (f a) Q s') s -> wp (m ≫= f) Q s.
Proof. unfold wp, mbind, st_bind. by destruct (m s) as [[a s']|]. Qed.
Lemma wp_ret {S A} (a : A) (Q : A -> S -> Prop) s : Q a s -> wp (mret a) Q s.
Proof. done. Qed.
Lemma wp_get {S A} (f : S -> A) (Q : A -> S -> Prop) s : Q (f s) s -> wp (st_get f) Q s.
Proof. done. Qed.
Lemma wp_put {S} (f : S -> S) (Q : unit -> S -> Prop) s : Q tt (f s) -> wp (st_put f) Q s.
Proof. done. Qed.
Lemma wp_access {S A} (f : S -> option A) a (Q : A -> S -> Prop) s : f s = Some a -> Q a s -> wp (st_access f) Q s.
Proof. unfold wp, st_access. by intros ->. Qed.
Lemma wp_st_call {S A} (g : S -> A * S) (Q : A -> S -> Prop) s :
  (forall a s', g s = (a, s') -> Q a s') -> wp (st_call g) Q s.
Proof. unfold wp, st_call. destruct (g s) as [a s']. auto. Qed.
Lemma wp_mono {S A} (m : ST S A) (P Q : A -> S -> Prop) s :
  wp m P s -> (forall a s', P a s' -> Q a s') -> wp m Q s.
Proof. unfold wp. destruct (m s) as [[a s']|]; auto. Qed.
Lemma wp_eq {S A} (m m' : ST S A) (Q : A -> S -> Prop) s : m s = m' s -> wp m' Q s -> wp m Q s.
Proof. unfold wp. by intros ->. Qed.
Lemma wp_run {S A} (m : ST S A) a s' (Q : A -> S -> Prop) s : m s = Some (a, s') -> Q a s' -> wp m Q s.
Proof. unfold wp. by intros ->. Qed.
Lemma wp_eval {S A} (m : ST S A) (Q : A -> S -> Prop) s a s' : wp m Q s -> m s = Some (a, s') -> Q a s'.
Proof. unfold wp. intros Hw E. by rewrite E in Hw. Qed.
Lemma wp_elim {S A} (m : ST S A) (Q : A -> S -> Prop) s :
  wp m Q s <-> exists a s', m s = Some (a, s') /\ Q a s'.
Proof.
  unfold wp. destruct (m s) as [[a s']|]; [|naive_solver]. split; [by exists a, s'|].
  intros (a' & s'' & [= -> ->] & Hq). done.
Qed.

(** [wlp m Q s]: if the fuel is enough, [m] ends with [Q]. *)
Definition wlp {S A} (m : ST S A) (Q : A -> S -> Prop) (s : S) : Prop :=
  match m s with Some (a, s') => Q a s' | None => True end.

Lemma wlp_of_wp {S A} (m : ST S A) (Q : A -> S -> Prop) s : wp m Q s -> wlp m Q s.
Proof. unfold wp, wlp. by destruct (m s) as [[a s']|]. Qed.
Lemma wlp_bind {S A B} (m : ST S A) (f : A -> ST S B) Q s :
  wlp m (fun a s' => wlp (f a) Q s') s -> wlp (m ≫= f) Q s.
Proof. unfold wlp, mbind, st_bind. by destruct (m s) as [[a s']|]. Qed.
Lemma wlp_mono {S A} (m : ST S A) (P Q : A -> S -> Prop) s :
  wlp m P s -> (forall a s', P a s' -> Q a s') -> wlp m Q s.
Proof. unfold wlp. destruct (m s) as [[a s']|]; auto. Qed.
Lemma wlp_step {S A B} (m : ST S A) (f : A -> ST S B) P Q s :
  wp m P s -> (forall a s', P a s' -> wlp (f a) Q s') -> wlp (m ≫= f) Q s.
Proof. intros Hm Hf. apply wlp_bind. eapply wlp_mono; [by apply wlp_of_wp|done]. Qed.
Lemma wlp_get {S A B} (g : S -> A) (f : A -> ST S B) Q s : wlp (f (g s)) Q s -> wlp (st_get g ≫= f) Q s.
Proof. done. Qed.
Lemma wlp_put {S B} (g : S -> S) (f : unit -> ST S B) Q s : wlp (f tt) Q (g s) -> wlp (st_put g ≫= f) Q s.
Proof. done. Qed.
Lemma wlp_ret {S A} (a : A) (Q : A -> S -> Prop) s : Q a s -> wlp (mret a) Q s.
Proof. done. Qed.

(** ** Tactics *)

(** [wps] steps through the binds, reads and writes of a program. *)
Ltac wps :=
  cbn beta iota zeta delta [negb];
  repeat (match goal with
          | |- wp (mbind _ _) _ _ => apply wp_bind
          | |- wp (mret _) _ _ => apply wp_ret
          | |- wp (st_get _) _ _ => apply wp_get
          | |- wp (st_put _) _ _ => apply wp_put
          end; cbn beta iota zeta delta [negb]).

(** [case_bool] decides the integer comparisons that guard the code. *)
Ltac case_bool :=
  match goal with
  | |- context [ ?a =? ?b ] => destruct (Z.eqb_spec a b)
  | |- context [ ?a <? ?b ] => destruct (Z.ltb_spec a b)
  | |- context [ ?a <=? ?b ] => destruct (Z.leb_spec a b)
  | |- context [ Z.gtb ?a ?b ] => rewrite (Z.gtb_ltb a b)
  | |- context [ Z.geb ?a ?b ] => rewrite (Z.geb_leb a b)
  | H : context [ ?a =? ?b ] |- _ => destruct (Z.eqb_spec a b)
  | H : context [ ?a <? ?b ] |- _ => destruct (Z.ltb_spec a b)
  | H : context [ ?a <=? ?b ] |- _ => destruct (Z.leb_spec a b)
  | H : context [ Z.gtb ?a ?b ] |- _ => rewrite (Z.gtb_ltb a b) in H
  | H : context [ Z.geb ?a ?b ] |- _ => rewrite (Z.geb_leb a b) in H
  end; simpl in *; try lia; try done.

(** [zb] turns the boolean tests of the context into their meaning. *)
Ltac zb :=
  repeat match goal with
  | H : (?a =? ?b) = true |- _ => apply Z.eqb_eq in H
  | H : (?a =? ?b) = false |- _ => apply Z.eqb_neq in H
  | H : (?a <? ?b) = true |- _ => apply Z.ltb_lt in H
  | H : (?a <? ?b) = false |- _ => apply Z.ltb_ge in H
  | H : (?a <=? ?b) = true |- _ => apply Z.leb_le in H
  | H : (?a <=? ?b) = false |- _ => apply Z.leb_gt in H
  | H : negb _ = true |- _ => apply negb_true_iff in H
  | H : negb _ = false |- _ => apply negb_false_iff in H
  | H : _ && _ = true |- _ => apply andb_true_iff in H; destruct H
  | H : _ || _ = false |- _ => apply orb_false_iff in H; destruct H
  end.

(** [run_call E]and [run_get E] run the next call of a program whose result is known. *)
Ltac run_call E := rewrite (st_bind_eq _ _ _ _ _ (st_call_eq _ _ _ _ E)).
Ltac run_get E := rewrite (st_bind_eq _ _ _ _ _ (st_get_eq _ _ _ E)).

(** [opt] runs the binds of the option monad. *)
Ltac opt := cbn beta iota zeta delta [mbind option_bind].
