(* ===== verification/Errors.v ===== *)
(** * Error codes ([base/include/errors.h] and [common_*_errors.h])

    An [ErrCode] packs a subsystem, a module and a code in an [int]. The
    [errno] values are those of Linux. *)

From S2P Require Import Prelude.

(** The subsystems, in the order of the enumeration. *)
Inductive subsystem :=
| SUBSYS_COMMON | SUBSYS_AAFWK | SUBSYS_ACCOUNT | SUBSYS_AI | SUBSYS_APPEXECFWK
| SUBSYS_APPLICATIONS | SUBSYS_ARVR | SUBSYS_ARVRHARDWARE | SUBSYS_BARRIERFREE
| SUBSYS_BIOMETRICS | SUBSYS_CCRUNTIME | SUBSYS_COMMUNICATION | SUBSYS_DFX
| SUBSYS_DISTRIBUTEDDATAMNG | SUBSYS_DISTRIBUTEDSCHEDULE | SUBSYS_DRIVERS
| SUBSYS_GLOBAL | SUBSYS_GRAPHIC | SUBSYS_HBS | SUBSYS_IAWARE | SUBSYS_IDE
| SUBSYS_INTELLIACCESSORIES | SUBSYS_INTELLISPEAKER | SUBSYS_INTELLITV | SUBSYS_IOT
| SUBSYS_IOTHARDWARE | SUBSYS_IVIHARDWARE | SUBSYS_KERNEL | SUBSYS_LOCATION
| SUBSYS_MSDP | SUBSYS_MULTIMEDIA | SUBSYS_MULTIMODAINPUT | SUBSYS_NOTIFICATION
| SUBSYS_POWERMNG | SUBSYS_ROUTER | SUBSYS_SECURITY | SUBSYS_SENSORS
| SUBSYS_SMALLSERVICES | SUBSYS_SOURCECODETRANSFORMER | SUBSYS_STARTUP
| SUBSYS_TELEPONY | SUBSYS_UPDATE | SUBSYS_USB | SUBSYS_WEARABLE
| SUBSYS_WEARABLEHARDWARE | SUBSYS_IVI | SUBSYS_DISTRIBUTEDHARDWARE
| SUBSYS_DEVICEPROFILE | SUBSYS_CUSTOMIZATION | SUBSYS_FILEMANAGEMENT.

Definition subsystems : list subsystem :=
  [SUBSYS_COMMON; SUBSYS_AAFWK; SUBSYS_ACCOUNT; SUBSYS_AI; SUBSYS_APPEXECFWK;
   SUBSYS_APPLICATIONS; SUBSYS_ARVR; SUBSYS_ARVRHARDWARE; SUBSYS_BARRIERFREE;
   SUBSYS_BIOMETRICS; SUBSYS_CCRUNTIME; SUBSYS_COMMUNICATION; SUBSYS_DFX;
   SUBSYS_DISTRIBUTEDDATAMNG; SUBSYS_DISTRIBUTEDSCHEDULE; SUBSYS_DRIVERS;
   SUBSYS_GLOBAL; SUBSYS_GRAPHIC; SUBSYS_HBS; SUBSYS_IAWARE; SUBSYS_IDE;
   SUBSYS_INTELLIACCESSORIES; SUBSYS_INTELLISPEAKER; SUBSYS_INTELLITV; SUBSYS_IOT;
   SUBSYS_IOTHARDWARE; SUBSYS_IVIHARDWARE; SUBSYS_KERNEL; SUBSYS_LOCATION;
   SUBSYS_MSDP; SUBSYS_MULTIMEDIA; SUBSYS_MULTIMODAINPUT; SUBSYS_NOTIFICATION;
   SUBSYS_POWERMNG; SUBSYS_ROUTER; SUBSYS_SECURITY; SUBSYS_SENSORS;
   SUBSYS_SMALLSERVICES; SUBSYS_SOURCECODETRANSFORMER; SUBSYS_STARTUP;
   SUBSYS_TELEPONY; SUBSYS_UPDATE; SUBSYS_USB; SUBSYS_WEARABLE;
   SUBSYS_WEARABLEHARDWARE; SUBSYS_IVI; SUBSYS_DISTRIBUTEDHARDWARE;
   SUBSYS_DEVICEPROFILE; SUBSYS_CUSTOMIZATION; SUBSYS_FILEMANAGEMENT].

#[export] Instance subsystem_eq_dec : EqDecision subsystem.
Proof. solve_decision. Defined.

(** The value of the enumerator is its place. *)
Definition subsystem_value (s : subsystem) : Z :=
  match list_find (eq s) subsystems with Some (i, _) => Z.of_nat i | None => 0 end.

Inductive module := MODULE_DEFAULT | MODULE_TIMER | MODULE_MAPPED_FILE | MODULE_EVENT_SYS.
#[export] Instance module_eq_dec : EqDecision module.
Proof. solve_decision. Defined.
Definition module_value (m : module) : Z :=
  match m with MODULE_DEFAULT => 0 | MODULE_TIMER => 1 | MODULE_MAPPED_FILE => 2 | MODULE_EVENT_SYS => 3 end.

Definition SUBSYSTEM_BIT_NUM : Z := 21.
Definition MODULE_BIT_NUM : Z := 16.

(** [unsigned int] arithmetic, converted to [int]. *)
Definition ErrCodeOffset (subsystem module : Z) : Z :=
  i32 (Z.lor (u32 (Z.shiftl subsystem SUBSYSTEM_BIT_NUM)) (u32 (Z.shiftl module MODULE_BIT_NUM))).

Definition BASE_ERR_OFFSET : Z := ErrCodeOffset (subsystem_value SUBSYS_COMMON) 0.

(** [errno] *)
Definition EPERM : Z := 1.
Definition ENOENT : Z := 2.
Definition EBADF : Z := 9.
Definition EAGAIN : Z := 11.
Definition ENOMEM : Z := 12.
Definition EEXIST : Z := 17.
Definition ENODEV : Z := 19.
Definition EINVAL : Z := 22.
Definition EPIPE : Z := 32.
Definition ENOSYS : Z := 38.
Definition ENODATA : Z := 61.
Definition EOVERFLOW : Z := 75.
Definition ETIMEDOUT : Z := 110.

Definition ERR_OK : Z := 0.
Definition ERR_NO_MEMORY : Z := BASE_ERR_OFFSET + ENOMEM.
Definition ERR_INVALID_OPERATION : Z := BASE_ERR_OFFSET + ENOSYS.
Definition ERR_INVALID_VALUE : Z := BASE_ERR_OFFSET + EINVAL.
Definition ERR_NAME_NOT_FOUND : Z := BASE_ERR_OFFSET + ENOENT.
Definition ERR_PERMISSION_DENIED : Z := BASE_ERR_OFFSET + EPERM.
Definition ERR_NO_INIT : Z := BASE_ERR_OFFSET + ENODEV.
Definition ERR_ALREADY_EXISTS : Z := BASE_ERR_OFFSET + EEXIST.
Definition ERR_DEAD_OBJECT : Z := BASE_ERR_OFFSET + EPIPE.
Definition ERR_OVERFLOW : Z := BASE_ERR_OFFSET + EOVERFLOW.
Definition ERR_ENOUGH_DATA : Z := BASE_ERR_OFFSET + ENODATA.
Definition ERR_WOULD_BLOCK : Z := BASE_ERR_OFFSET + EAGAIN.
Definition ERR_TIMED_OUT : Z := BASE_ERR_OFFSET + ETIMEDOUT.

Definition module_offset (m : module) : Z :=
  ErrCodeOffset (subsystem_value SUBSYS_COMMON) (module_value m).

Definition COMMON_TIMER_ERR_OFFSET : Z := module_offset MODULE_TIMER.
Definition TIMER_ERR_OK : Z := 0.
Definition TIMER_ERR_DEAL_FAILED : Z := COMMON_TIMER_ERR_OFFSET + EAGAIN.
Definition TIMER_ERR_BADF : Z := COMMON_TIMER_ERR_OFFSET + EBADF.
Definition TIMER_ERR_INVALID_VALUE : Z := COMMON_TIMER_ERR_OFFSET + EINVAL.

Definition COMMON_EVENT_SYS_ERR_OFFSET : Z := module_offset MODULE_EVENT_SYS.
Definition EVENT_SYS_ERR_OK : Z := COMMON_EVENT_SYS_ERR_OFFSET + 0.
Definition EVENT_SYS_ERR_FAILED : Z := COMMON_EVENT_SYS_ERR_OFFSET + 1.
Definition EVENT_SYS_ERR_ALREADY_STARTED : Z := COMMON_EVENT_SYS_ERR_OFFSET + 2.
Definition EVENT_SYS_ERR_NOT_FOUND : Z := COMMON_EVENT_SYS_ERR_OFFSET + 3.
Definition EVENT_SYS_ERR_BADF : Z := COMMON_EVENT_SYS_ERR_OFFSET + 4.
Definition EVENT_SYS_ERR_BADEVENT : Z := COMMON_EVENT_SYS_ERR_OFFSET + 5.
Definition EVENT_SYS_ERR_NOEVENT : Z := COMMON_EVENT_SYS_ERR_OFFSET + 6.

Definition COMMON_MAPPED_FILE_ERR_OFFSET : Z := module_offset MODULE_MAPPED_FILE.
Definition MAPPED_FILE_ERR_OK : Z := COMMON_MAPPED_FILE_ERR_OFFSET + 0.
Definition MAPPED_FILE_ERR_FAILED : Z := COMMON_MAPPED_FILE_ERR_OFFSET + 1.

(** The packing loses nothing: for a subsystem of 8 bits, a module of 5 bits
    and a code of 16 bits, each of the three fields can be read back from its
    bits, so codes of different subsystems or modules never collide, and the
    code is a positive int. *)
Theorem ErrCode_fields (subsystem module code : Z) :
  0 <= subsystem < 256 -> 0 <= module < 32 -> 0 <= code < 65536 ->
  let e := ErrCodeOffset subsystem module + code in
  Z.shiftr e SUBSYSTEM_BIT_NUM = subsystem /\
  Z.land (Z.shiftr e MODULE_BIT_NUM) 31 = module /\ Z.land e 65535 = code /\ 0 <= e <= INT_MAX.
Proof.
  intros Hs Hm Hc e.
  assert (ErrCodeOffset subsystem module = subsystem * 2 ^ 21 + module * 2 ^ 16) as E.
  { unfold ErrCodeOffset, SUBSYSTEM_BIT_NUM, MODULE_BIT_NUM, i32, u32.
    rewrite !(wrapU_small 32) by (rewrite Z.shiftl_mul_pow2 by lia; lia).
    rewrite (Z.shiftl_mul_pow2 module 16), lor_shift by lia. apply wrapS_small; lia. }
  unfold e. rewrite E. unfold SUBSYSTEM_BIT_NUM, MODULE_BIT_NUM.
  rewrite !Z.shiftr_div_pow2 by lia. change 31 with (2 ^ 5 - 1). change 65535 with (2 ^ 16 - 1).
  rewrite !land_ones_mod by lia. split_and!; [..|lia|unfold INT_MAX; lia].
  - symmetry. apply (Z.div_unique _ _ _ (module * 2 ^ 16 + code)); lia.
  - replace ((subsystem * 2 ^ 21 + module * 2 ^ 16 + code) / 2 ^ 16) with (module + subsystem * 2 ^ 5)
      by (apply (Z.div_unique _ _ _ code); lia).
    rewrite Z.mod_add by lia. apply Z.mod_small. lia.
  - symmetry. apply (Z.mod_unique _ _ (subsystem * 2 ^ 5 + module)); lia.
Qed.

Lemma ErrCode_fields_witness :
  let e := ErrCodeOffset 49 3 + 6 in
  e = 0x6230006 /\ Z.shiftr e SUBSYSTEM_BIT_NUM = 49 /\
  Z.land (Z.shiftr e MODULE_BIT_NUM) 31 = 3 /\ Z.land e 65535 = 6 /\ 0 <= e <= INT_MAX.
Proof. split; [vm_compute; reflexivity|]. apply (ErrCode_fields 49 3 6); lia. Defined.

Example subsystems_fit : forall s, 0 <= subsystem_value s < 256.
Proof. intros []; vm_compute; split; congruence || reflexivity. Qed.
