(* ===== verification/Parcel.v ===== *)
(** * Parcel: the serialization buffer, its state and its memory

    Models the storage layer of [class Parcel] (base/src/parcel.cpp,
    base/include/parcel.h): the record of its fields, the allocator interface,
    capacity management, the raw write and read primitives and the table of
    binder-object offsets.  The typed operations built on it are in
    ParcelTyped.v, ParcelString.v, ParcelVector.v and ParcelObject.v.

    An operation is a function [PM A = Parcel -> option (A * Parcel)]: [None]
    is undefined behaviour (an access outside a block or through a null
    pointer); the C++ return value is the [A]. *)

From S2P Require Import Prelude.
Open Scope Z_scope.

(** ** Interfaces of the code the parcel calls *)

(** [class Allocator]: a block is the list of its bytes, a failed request is
    [None]; [alloc_id] is the identity of the C++ object. *)
Record Allocator := mkAllocator {
  alloc_id : Z;
  Alloc : Z -> option (list Z);
  Realloc : option (list Z) -> Z -> option (list Z);
}.

(** What an allocator promises the parcel; [alloc_limit] is a size up to which
    it does not fail. *)
Class AllocatorOk (a : Allocator) (alloc_limit : Z) := {
  realloc_spec : forall d n d', Realloc a d n = Some d' -> 0 <= n ->
    zlen d' = n /\ n < 2 ^ 63 /\
    ztake (Z.min n (zlen (default [] d))) d' = ztake (Z.min n (zlen (default [] d))) (default [] d) /\
    (Forall is_byte (default [] d) -> Forall is_byte d');
  realloc_succeeds : forall d n, 0 < n <= alloc_limit -> is_Some (Realloc a d n);
  alloc_spec : forall n d', Alloc a n = Some d' -> 0 <= n ->
    zlen d' = n /\ n < 2 ^ 63 /\ Forall is_byte d';
}.

(** [memcpy_s] of the bounds-checking library: the destination region of
    [destMax] bytes, the source bytes and their count give the error code and
    the region afterwards. *)
Class Securec := memcpy_s : list Z -> Z -> list Z -> Z -> Z * list Z.

Definition EOK : Z := 0.
Definition SECUREC_MEM_MAX_LEN : Z := 2 ^ 31 - 1.

Class SecurecOk `{Securec} := {
  memcpy_s_zlen : forall dest destMax src count e dest',
    memcpy_s dest destMax src count = (e, dest') -> zlen dest = destMax -> zlen dest' = destMax;
  memcpy_s_byte : forall dest destMax src count e dest',
    memcpy_s dest destMax src count = (e, dest') ->
    Forall is_byte dest -> Forall is_byte src -> Forall is_byte dest';
  memcpy_s_eok : forall dest destMax src count dest',
    memcpy_s dest destMax src count = (EOK, dest') -> zlen dest = destMax ->
    count <= destMax /\ (zlen src = count -> dest' = src ++ zdrop count dest);
  memcpy_s_copies : forall dest destMax src count,
    0 < destMax <= SECUREC_MEM_MAX_LEN -> 0 <= count <= destMax ->
    zlen dest = destMax -> zlen src = count ->
    (memcpy_s dest destMax src count).1 = EOK;
}.

(** The build option that compiles the binder-object checks in. *)
Class ParcelConfig := { PARCEL_OBJECT_CHECK : bool }.

(** ** The fields of [Parcel] *)

Record Parcel := mkParcel {
  data_ : option (list Z);
  readCursor_ : Z;
  writeCursor_ : Z;
  dataSize_ : Z;
  dataCapacity_ : Z;
  maxDataCapacity_ : Z;
  objectOffsets_ : option (list Z);
  nextObjectIdx_ : Z;
  objectCursor_ : Z;
  objectsCapacity_ : Z;
  allocator_ : option Allocator;
  objectHolder_ : list (option Z);
  writable_ : bool;
}.

Definition set_data (p : Parcel) (d : option (list Z)) (cap : Z) : Parcel :=
  mkParcel d (readCursor_ p) (writeCursor_ p) (dataSize_ p) cap (maxDataCapacity_ p)
    (objectOffsets_ p) (nextObjectIdx_ p) (objectCursor_ p) (objectsCapacity_ p)
    (allocator_ p) (objectHolder_ p) (writable_ p).

Definition set_read (p : Parcel) (rc : Z) : Parcel :=
  mkParcel (data_ p) rc (writeCursor_ p) (dataSize_ p) (dataCapacity_ p) (maxDataCapacity_ p)
    (objectOffsets_ p) (nextObjectIdx_ p) (objectCursor_ p) (objectsCapacity_ p)
    (allocator_ p) (objectHolder_ p) (writable_ p).

Definition set_write (p : Parcel) (wc ds : Z) : Parcel :=
  mkParcel (data_ p) (readCursor_ p) wc ds (dataCapacity_ p) (maxDataCapacity_ p)
    (objectOffsets_ p) (nextObjectIdx_ p) (objectCursor_ p) (objectsCapacity_ p)
    (allocator_ p) (objectHolder_ p) (writable_ p).

Definition set_objects (p : Parcel) (o : option (list Z)) (next cur cap : Z) : Parcel :=
  mkParcel (data_ p) (readCursor_ p) (writeCursor_ p) (dataSize_ p) (dataCapacity_ p)
    (maxDataCapacity_ p) o next cur cap (allocator_ p) (objectHolder_ p) (writable_ p).

Definition set_max (p : Parcel) (m : Z) : Parcel :=
  mkParcel (data_ p) (readCursor_ p) (writeCursor_ p) (dataSize_ p) (dataCapacity_ p) m
    (objectOffsets_ p) (nextObjectIdx_ p) (objectCursor_ p) (objectsCapacity_ p)
    (allocator_ p) (objectHolder_ p) (writable_ p).

Definition set_allocator (p : Parcel) (a : option Allocator) : Parcel :=
  mkParcel (data_ p) (readCursor_ p) (writeCursor_ p) (dataSize_ p) (dataCapacity_ p)
    (maxDataCapacity_ p) (objectOffsets_ p) (nextObjectIdx_ p) (objectCursor_ p)
    (objectsCapacity_ p) a (objectHolder_ p) (writable_ p).

Definition set_holder (p : Parcel) (h : list (option Z)) : Parcel :=
  mkParcel (data_ p) (readCursor_ p) (writeCursor_ p) (dataSize_ p) (dataCapacity_ p)
    (maxDataCapacity_ p) (objectOffsets_ p) (nextObjectIdx_ p) (objectCursor_ p)
    (objectsCapacity_ p) (allocator_ p) h (writable_ p).

Definition set_readonly (p : Parcel) : Parcel :=
  mkParcel (data_ p) (readCursor_ p) (writeCursor_ p) (dataSize_ p) (dataCapacity_ p)
    (maxDataCapacity_ p) (objectOffsets_ p) (nextObjectIdx_ p) (objectCursor_ p)
    (objectsCapacity_ p) (allocator_ p) (objectHolder_ p) false.

(** ** The monad of parcel operations *)

Definition PM (A : Type) : Type := Parcel -> option (A * Parcel).

#[export] Instance pm_ret : MRet PM := fun A a p => Some (a, p).
#[export] Instance pm_bind : MBind PM := fun A B f m p =>
  match m p with
  | Some (a, p') => f a p'
  | None => None
  end.

Definition pm_get {A} (f : Parcel -> A) : PM A := fun p => Some (f p, p).
Definition pm_put (f : Parcel -> Parcel) : PM unit := fun p => Some (tt, f p).
(** A memory access: [None] is undefined behaviour. *)
Definition pm_access {A} (f : Parcel -> option A) : PM A := fun p =>
  match f p with Some a => Some (a, p) | None => None end.

Lemma pm_bind_eq {A B} (m : PM A) (f : A -> PM B) p a p' :
  m p = Some (a, p') -> (x ← m; f x) p = f a p'.
Proof. intros E. unfold mbind, pm_bind. by rewrite E. Qed.

Lemma pm_bind_get {A B} (f : Parcel -> A) (k : A -> PM B) p :
  (x ← pm_get f; k x) p = k (f p) p.
Proof. done. Qed.

Lemma pm_bind_access {A B} (f : Parcel -> option A) (k : A -> PM B) p a :
  f p = Some a -> (x ← pm_access f; k x) p = k a p.
Proof. intros E. unfold mbind, pm_bind, pm_access. by rewrite E. Qed.

(** ** Sizes and capacity *)

Definition DEFAULT_CPACITY : Z := 204800.
Definition CAPACITY_THRESHOLD : Z := 4096.

(** [sizeof(parcel_flat_binder_object)]: header, flags, binder or handle, cookie. *)
Definition sizeof_flat_binder : Z := 24.

Definition GetPadSize (size : Z) : Z := u64 (Z.land (u64 (size + 3)) (2 ^ 64 - 1 - 3) - size).

Definition GetWritableBytes (p : Parcel) : Z :=
  if writeCursor_ p <? dataCapacity_ p then dataCapacity_ p - writeCursor_ p else 0.

Definition GetReadableBytes (p : Parcel) : Z :=
  if readCursor_ p <? dataSize_ p then dataSize_ p - readCursor_ p else 0.

(** The doubling loop of [CalcNewCapacity]; [None] would be a loop that did not end. *)
Fixpoint double_until (fuel : nat) (newCapacity minNewCapacity : Z) : option Z :=
  if newCapacity <? minNewCapacity then
    match fuel with
    | O => None
    | S fuel' => double_until fuel' (u64 (newCapacity * 2)) minNewCapacity
    end
  else Some newCapacity.

(** 64 doubled six times is the threshold. *)
Definition CalcNewCapacity (maxCapacity minNewCapacity : Z) : option Z :=
  let threshold := CAPACITY_THRESHOLD in
  if minNewCapacity =? threshold then Some threshold
  else if threshold <? minNewCapacity then
    let newCapacity := minNewCapacity / threshold * threshold in
    if (0 <? maxCapacity) && (u64 (maxCapacity - threshold) <? newCapacity)
    then Some maxCapacity
    else Some (u64 (newCapacity + threshold))
  else
    newCapacity ← double_until 6 64 minNewCapacity;
    if (0 <? maxCapacity) && (maxCapacity <? newCapacity)
    then Some maxCapacity else Some newCapacity.

Definition EnsureWritableCapacity (desireCapacity : Z) : PM bool := fun p =>
  if negb (writable_ p) then Some (false, p)
  else if desireCapacity <=? GetWritableBytes p then
    match data_ p with
    | None => Some (false, p)
    | Some _ => Some (true, p)
    end
  else
    let minNewCapacity := u64 (desireCapacity + writeCursor_ p) in
    match CalcNewCapacity (maxDataCapacity_ p) minNewCapacity with
    | None => None
    | Some newCapacity =>
      if (newCapacity <=? dataCapacity_ p) || (newCapacity <? minNewCapacity)
      then Some (false, p)
      else
        match allocator_ p with
        | None => Some (false, p)
        | Some a =>
          match Realloc a (data_ p) newCapacity with
          | Some newData => Some (true, set_data p (Some newData) newCapacity)
          | None => Some (false, p)
          end
        end
    end.

(** ** Raw writes *)

Section raw.
Context `{Libc} `{Securec} `{ParcelConfig}.

(** Both write cursors move together, in [size_t] arithmetic. *)
Definition advance_write (n : Z) (p : Parcel) : Parcel :=
  set_write p (u64 (writeCursor_ p + n)) (u64 (dataSize_ p + n)).

(** The destination is the writable tail of the block; the caller's block
    [data] must hold the [size] bytes that are copied. *)
Definition WriteDataBytes (data : list Z) (size : Z) : PM bool := fun p =>
  match data_ p with
  | None => None
  | Some d =>
    let writableBytes := GetWritableBytes p in
    if zlen d <? writeCursor_ p + writableBytes then None
    else if (size <=? writableBytes) && (zlen data <? size) then None
    else
      let dest := ztake writableBytes (zdrop (writeCursor_ p) d) in
      let '(e, dest') := memcpy_s dest writableBytes (ztake size data) size in
      let d' := ztake (writeCursor_ p) d ++ dest' ++ zdrop (writeCursor_ p + writableBytes) d in
      let p' := set_data p (Some d') (dataCapacity_ p) in
      if e =? EOK then Some (true, advance_write size p') else Some (false, p')
  end.

(** The little-endian row of the mask table. *)
Definition pad_mask (padSize : Z) : option Z :=
  znth [0xFFFFFFFF; 0x00ffffff; 0x0000ffff; 0x000000ff] padSize.

(** One masked 32-bit access that ends where the padding ends. *)
Definition WritePadBytes (padSize : Z) : PM unit := fun p =>
  d ← data_ p;
  mask ← pad_mask padSize;
  let off := writeCursor_ p + padSize - 4 in
  w ← mem_load d off 4;
  d' ← mem_store d off (le_bytes 4 (Z.land (le_val w) mask));
  Some (tt, advance_write padSize (set_data p (Some d') (dataCapacity_ p))).

Definition WriteBuffer (data : option (list Z)) (size : Z) : PM bool :=
  match data with
  | None => mret false
  | Some bytes =>
    if size =? 0 then mret false
    else
      let padSize := GetPadSize size in
      let desireCapacity := u64 (size + padSize) in
      if (desireCapacity <? size) || (desireCapacity <? padSize) then mret false
      else
        ok ← EnsureWritableCapacity desireCapacity;
        if (ok : bool) then
          done ← WriteDataBytes bytes size;
          if (done : bool) then WritePadBytes padSize;; mret true else mret false
        else mret false
  end.

Definition WriteUnpadBuffer (data : option (list Z)) (size : Z) : PM bool :=
  WriteBuffer data size.

Definition WriteBufferAddTerminator (data : option (list Z)) (size typeSize : Z) : PM bool :=
  match data with
  | None => mret false
  | Some bytes =>
    if (typeSize =? 0) || (size <? typeSize) then mret false
    else
      let padSize := GetPadSize size in
      let desireCapacity := u64 (size + padSize) in
      if (desireCapacity <? size) || (desireCapacity <? padSize) then mret false
      else
        ok ← EnsureWritableCapacity desireCapacity;
        if (ok : bool) then
          done ← WriteDataBytes bytes (size - typeSize);
          if (done : bool) then
            if 4 <? typeSize then mret false
            else
              done' ← WriteDataBytes [0; 0; 0; 0] typeSize;
              if (done' : bool) then WritePadBytes padSize;; mret true else mret false
          else mret false
        else mret false
  end.

(** The body of [Write<T>] for a value of [size] bytes: an unchecked store
    at the write cursor. *)
Definition store_word (bytes : list Z) : PM bool := fun p =>
  d ← data_ p;
  d' ← mem_store d (writeCursor_ p) bytes;
  Some (true, advance_write (zlen bytes) (set_data p (Some d') (dataCapacity_ p))).

Definition write_word (bytes : list Z) : PM bool :=
  ok ← EnsureWritableCapacity (zlen bytes);
  if (ok : bool) then store_word bytes else mret false.

(** ** Binder-object offsets *)

Definition EnsureObjectsCapacity : PM bool := fun p =>
  if 1 <=? u64 (objectsCapacity_ p - objectCursor_ p) then Some (true, p)
  else
    match allocator_ p with
    | None => Some (false, p)
    | Some _ =>
      let newCapacity := u64 ((objectsCapacity_ p + 2) * 3) / 2 in
      match libc_realloc (objectOffsets_ p) 8 newCapacity with
      | None => Some (false, p)
      | Some o =>
        Some (true, set_objects p (Some o) (nextObjectIdx_ p) (objectCursor_ p) newCapacity)
      end
    end.

(** The first [objectCursor_] slots of the offset array. *)
Definition objects (p : Parcel) : list Z :=
  ztake (objectCursor_ p) (default [] (objectOffsets_ p)).

Definition WriteObjectOffset (offset : Z) : PM bool := fun p =>
  if dataSize_ p <? offset then Some (false, p)
  else if existsb (Z.eqb offset) (objects p) then Some (false, p)
  else
    o ← objectOffsets_ p;
    o' ← zset o (objectCursor_ p) offset;
    Some (true, set_objects p (Some o') (nextObjectIdx_ p) (u64 (objectCursor_ p + 1))
                  (objectsCapacity_ p)).

Definition ClearObjects (p : Parcel) : Parcel :=
  set_objects (set_holder p []) None 0 0 0.

Fixpoint inject (newOffsets : list Z) : PM unit :=
  match newOffsets with
  | [] => mret tt
  | off :: rest =>
    ok ← EnsureObjectsCapacity;
    (if (ok : bool) then WriteObjectOffset off else mret false);;
    inject rest
  end.

(** [offsets] is null or points to at least [offsetSize] entries. *)
Definition InjectOffsets (offsets : option (list Z)) (offsetSize : Z) : PM unit :=
  match offsets with
  | None => mret tt
  | Some offs =>
    if offsetSize <=? 0 then mret tt
    else if zlen offs <? offsetSize then (fun _ => None)
    else inject (ztake offsetSize offs)
  end.

(** The do-while loop of [ValidateReadData] over the objects that start
    below [upperBound]: [None] if the read overlaps one, else the number of
    objects passed. *)
Fixpoint pass_objects (readPos upperBound : Z) (objs : list Z) : option Z :=
  match objs with
  | [] => Some 0
  | off :: rest =>
    if off <? upperBound then
      if readPos <? u64 (off + sizeof_flat_binder) then None
      else n ← pass_objects readPos upperBound rest; Some (n + 1)
    else Some 0
  end.

Definition ValidateReadData (upperBound : Z) : PM bool := fun p =>
  if PARCEL_OBJECT_CHECK then
    match objectOffsets_ p with
    | None => Some (true, p)
    | Some _ =>
      if objectCursor_ p =? 0 then Some (true, p)
      else
        match pass_objects (readCursor_ p) upperBound (zdrop (nextObjectIdx_ p) (objects p)) with
        | None => Some (false, p)
        | Some n =>
          Some (true, set_objects p (objectOffsets_ p) (nextObjectIdx_ p + n)
                        (objectCursor_ p) (objectsCapacity_ p))
        end
    end
  else Some (true, p).

Definition CheckOffsets (p : Parcel) : bool :=
  let readPos := readCursor_ p in
  if dataSize_ p <? u64 (readPos + sizeof_flat_binder) then false
  else existsb (fun o => o =? readPos) (objects p).

(** ** Raw reads

    A returned pointer into the buffer is its offset from [data_]. *)

Definition move_read (n : Z) : PM unit := pm_put (fun p => set_read p (u64 (readCursor_ p + n))).

Definition ReadBuffer_validate (length : Z) (isValidate : bool) : PM (option Z) :=
  p ← pm_get id;
  if length <=? GetReadableBytes p then
    let buffer := readCursor_ p in
    valid ← (if PARCEL_OBJECT_CHECK && isValidate
             then ValidateReadData (u64 (readCursor_ p + length)) else mret true);
    if (valid : bool) then move_read length;; mret (Some buffer) else mret None
  else mret None.

Definition ReadBuffer (length : Z) : PM (option Z) :=
  p ← pm_get id;
  if length <=? GetReadableBytes p then
    let buffer := readCursor_ p in
    valid ← ValidateReadData (u64 (readCursor_ p + length));
    if (valid : bool) then move_read length;; mret (Some buffer) else mret None
  else mret None.

(** Without the object checks this function only returns null. *)
Definition BasicReadBuffer (length : Z) : PM (option Z) :=
  p ← pm_get id;
  if PARCEL_OBJECT_CHECK && (length <=? GetReadableBytes p) then
    let buffer := readCursor_ p in
    valid ← ValidateReadData (u64 (readCursor_ p + length));
    move_read length;;
    if (valid : bool) then mret (Some buffer) else mret None
  else mret None.

Definition SkipBytes (bytes : Z) : PM unit := fun p =>
  if bytes <=? GetReadableBytes p then Some (tt, set_read p (u64 (readCursor_ p + bytes)))
  else if readCursor_ p <? dataCapacity_ p then Some (tt, set_read p (dataCapacity_ p))
  else Some (tt, p).

Definition ReadUnpadBuffer (length : Z) : PM (option Z) :=
  p ← pm_get id;
  if length <=? GetReadableBytes p then
    let buffer := readCursor_ p in
    valid ← ValidateReadData (u64 (readCursor_ p + length));
    if (valid : bool) then
      move_read length;; SkipBytes (GetPadSize length);; mret (Some buffer)
    else mret None
  else mret None.

(** The body of [Read<T>(T &value)]: the bytes of the value, [None] when the
    call returns false and leaves [value] alone. *)
Definition read_word (size : Z) : PM (option (list Z)) :=
  p ← pm_get id;
  if size <=? GetReadableBytes p then
    valid ← ValidateReadData (u64 (readCursor_ p + size));
    if (valid : bool) then
      move_read size;;
      bytes ← pm_access (fun q => d ← data_ q; mem_load d (readCursor_ p) size);
      mret (Some bytes)
    else move_read size;; mret None
  else mret None.

(** ** Construction, settings and positions *)

Definition newParcel (allocator : Allocator) : Parcel :=
  mkParcel None 0 0 0 0 DEFAULT_CPACITY None 0 0 0 (Some allocator) [] true.

(** [DefaultAllocator] calls the C heap. *)
Definition DefaultAllocator (id : Z) : Allocator :=
  mkAllocator id (fun size => libc_malloc size) (fun data newSize => libc_realloc data 1 newSize).

(** The constructor with an allocator pointer: a null argument means a default allocator. *)
Definition Parcel_ctor (allocator : option Allocator) (fresh_id : Z) : Parcel :=
  newParcel (default (DefaultAllocator fresh_id) allocator).

Definition SetMaxCapacity (maxCapacity : Z) : PM bool := fun p =>
  if maxDataCapacity_ p <? maxCapacity then Some (true, set_max p maxCapacity)
  else Some (false, p).

Definition SetDataCapacity (newCapacity : Z) : PM bool := fun p =>
  match allocator_ p with
  | None => Some (false, p)
  | Some a =>
    if newCapacity <=? dataSize_ p then Some (false, p)
    else
      match Realloc a (data_ p) newCapacity with
      | Some newData => Some (true, set_data p (Some newData) newCapacity)
      | None => Some (false, p)
      end
  end.

Definition SetDataSize (dataSize : Z) : PM bool := fun p =>
  if dataCapacity_ p <? dataSize then Some (false, p)
  else Some (true, set_write p (writeCursor_ p) dataSize).

Definition SetAllocator (allocator : option Allocator) : PM bool := fun p =>
  match allocator with
  | None => Some (false, p)
  | Some a =>
    if match allocator_ p with Some a0 => alloc_id a0 =? alloc_id a | None => false end
    then Some (false, p)
    else
      match data_ p with
      | Some d =>
        if 0 <? dataSize_ p then
          match allocator_ p with
          | None => Some (false, p)
          | Some _ =>
            match Alloc a (dataSize_ p) with
            | None => Some (false, p)
            | Some newData =>
              if zlen d <? dataSize_ p then None
              else
                let '(e, newData') :=
                  memcpy_s newData (dataSize_ p) (ztake (dataSize_ p) d) (dataSize_ p) in
                if e =? EOK
                then Some (true, set_allocator (set_data p (Some newData') (dataSize_ p)) (Some a))
                else Some (false, p)
            end
          end
        else Some (true, set_allocator p (Some a))
      | None => Some (true, set_allocator p (Some a))
      end
  end.

Definition FlushBuffer : PM unit := fun p =>
  match allocator_ p with
  | None => Some (tt, p)
  | Some _ =>
    let p1 := match data_ p with
              | Some _ => set_data (set_read (set_write p 0 0) 0) None 0
              | None => p
              end in
    Some (tt, match objectOffsets_ p1 with Some _ => ClearObjects p1 | None => p1 end)
  end.

(** [data] is the block the driver hands over, null or [size] bytes long. *)
Definition ParseFrom (data : option (list Z)) (size : Z) : PM bool := fun p =>
  match data_ p with
  | Some _ => Some (false, p)
  | None =>
    let p1 := set_readonly (set_write (set_data p data size) (writeCursor_ p) size) in
    Some (true,
      if PARCEL_OBJECT_CHECK
      then match objectOffsets_ p1 with Some _ => ClearObjects p1 | None => p1 end
      else p1)
  end.

Definition GetReadPosition (p : Parcel) : Z := readCursor_ p.
Definition GetWritePosition (p : Parcel) : Z := writeCursor_ p.

Definition RewindRead (newPosition : Z) : PM bool := fun p =>
  if dataSize_ p <? newPosition then Some (false, p)
  else
    let p1 := set_read p newPosition in
    Some (true, set_objects p1 (objectOffsets_ p) 0 (objectCursor_ p) (objectsCapacity_ p)).

(** How many leading objects end at or before [newPosition], dropping from
    the end as the loop of [RewindWrite] does. *)
Fixpoint keep_objects (newPosition : Z) (rev_objs : list Z) : list Z :=
  match rev_objs with
  | [] => []
  | off :: rest =>
    if u64 (off + sizeof_flat_binder) <=? newPosition then rev_objs
    else keep_objects newPosition rest
  end.

Definition resize_holder (h : list (option Z)) (n : Z) : list (option Z) :=
  ztake n h ++ replicate (Z.to_nat n - length h) None.

Definition RewindWrite (newPosition : Z) : PM bool := fun p =>
  if dataSize_ p <? newPosition then Some (false, p)
  else
    let p1 := set_write p newPosition newPosition in
    if PARCEL_OBJECT_CHECK then
      match objectOffsets_ p1 with
      | None => Some (true, p1)
      | Some o =>
        if objectCursor_ p1 =? 0 then Some (true, p1)
        else
          last ← znth o (objectCursor_ p1 - 1);
          if newPosition <? u64 (last + sizeof_flat_binder) then
            let objectSize := zlen (keep_objects newPosition (reverse (objects p1))) in
            if objectSize =? 0 then Some (true, ClearObjects p1)
            else
              match libc_realloc (Some o) 8 objectSize with
              | None => Some (false, p1)
              | Some o' =>
                Some (true, set_holder (set_objects p1 (Some o') 0 objectSize objectSize)
                              (resize_holder (objectHolder_ p1) objectSize))
              end
          else Some (true, p1)
      end
    else Some (true, p1).
End raw.

Arguments WriteBuffer : simpl never.
Arguments WriteBufferAddTerminator : simpl never.
Arguments write_word : simpl never.
Arguments read_word : simpl never.
Arguments WriteDataBytes : simpl never.
Arguments WritePadBytes : simpl never.
Arguments EnsureWritableCapacity : simpl never.
Arguments ValidateReadData : simpl never.
