(* ===== verification/ParcelInv.v ===== *)
(** * ParcelInv: the invariant of a parcel and its raw operations

    [parcel_wf] relates the fields of a parcel to the blocks they describe.
    The lemmas below say that the raw operations of Parcel.v stay inside
    those blocks, and what they append or consume; every theorem about the
    typed operations is proved from them. *)

From S2P Require Import Prelude Parcel.
Open Scope Z_scope.

(** ** Concrete instances of the interfaces *)

(** The bounds-checking library as documented: out-of-range requests reset
    the destination. *)
#[export] Instance demo_securec : Securec := fun dest destMax src count =>
  if (destMax <=? 0) || (SECUREC_MEM_MAX_LEN <? destMax) then (34, dest)
  else if negb (zlen src =? count) || (destMax <? count) then (162, replicate (length dest) 0)
  else (EOK, src ++ zdrop count dest).

Lemma is_byte_0 : is_byte 0.
Proof. unfold is_byte. lia. Qed.

#[export] Instance demo_securec_ok : SecurecOk.
Proof.
  assert (forall dest destMax src count e dest',
    memcpy_s dest destMax src count = (e, dest') ->
    (e = 34 /\ dest' = dest) \/ (e = 162 /\ dest' = replicate (length dest) 0) \/
    (e = EOK /\ dest' = src ++ zdrop count dest /\ zlen src = count /\ count <= destMax)) as Hcases.
  { unfold memcpy_s, demo_securec. intros. repeat case_match; zb; simplify_eq; auto 7. }
  split.
  - intros dest destMax src count e dest' E <-.
    destruct (Hcases _ _ _ _ _ _ E) as [[_ ->]|[[_ ->]|(_ & -> & <- & Hc)]]; [done| |].
    + unfold zlen. by rewrite length_replicate.
    + rewrite zlen_app, zlen_drop; [lia|]. pose proof (zlen_nonneg src). lia.
  - intros dest destMax src count e dest' E Hd Hs.
    destruct (Hcases _ _ _ _ _ _ E) as [[_ ->]|[[_ ->]|(_ & -> & _)]]; [done| |].
    + apply Forall_replicate, is_byte_0.
    + apply Forall_app. auto with zlist.
  - intros dest destMax src count dest' E Hz.
    destruct (Hcases _ _ _ _ _ _ E) as [[? _]|[[? _]|(_ & -> & <- & Hc)]]; done.
  - intros dest destMax src count [H1 H2] [H3 H4] Hd Hs. unfold memcpy_s, demo_securec.
    replace (destMax <=? 0) with false by (symmetry; zb; apply Z.leb_gt; lia).
    replace (SECUREC_MEM_MAX_LEN <? destMax) with false by (symmetry; apply Z.ltb_ge; lia).
    rewrite (proj2 (Z.eqb_eq (zlen src) count) Hs).
    replace (destMax <? count) with false by (symmetry; apply Z.ltb_ge; lia). done.
Qed.

(** The default allocator keeps the promises of the interface up to the
    limit of the heap. *)
#[export] Instance default_allocator_ok `{LibcOk} id : AllocatorOk (DefaultAllocator id) heap_limit.
Proof.
  pose proof heap_limit_range.
  split; simpl; unfold libc_malloc, libc_realloc; intros.
  - destruct (Z.leb_spec (n * 1) heap_limit); simplify_eq.
    pose proof (zlen_nonneg (default [] d)).
    rewrite resize_block_zlen by lia. rewrite resize_block_prefix by lia.
    split_and!; [lia..|done|]. intros. by apply resize_block_byte.
  - destruct (Z.leb_spec (n * 1) heap_limit); [by eexists|lia].
  - destruct (Z.leb_spec (n * 1) heap_limit); simplify_eq.
    rewrite resize_block_zlen by lia. split_and!; [lia..|]. by apply resize_block_byte.
Qed.

(** ** Padding and capacity *)

Lemma land_clear_low2 x : 0 <= x < 2 ^ 64 -> Z.land x (2 ^ 64 - 1 - 3) = x - x mod 4.
Proof.
  intros Hx.
  transitivity (Z.shiftl (Z.shiftr x 2) 2).
  - replace (2 ^ 64 - 1 - 3) with (Z.shiftl (Z.ones 62) 2) by done.
    apply Z.bits_inj'. intros n Hn.
    rewrite Z.land_spec, !Z.shiftl_spec by lia.
    destruct (Z.ltb_spec n 2).
    { rewrite !(Z.testbit_neg_r _ (n - 2)) by lia. apply andb_false_r. }
    rewrite Z.shiftr_spec by lia. replace (n - 2 + 2) with n by lia.
    rewrite Z.testbit_ones by lia.
    destruct (Z.ltb_spec (n - 2) 62), (Z.leb_spec 0 (n - 2)); simpl; try lia.
    + apply andb_true_r.
    + rewrite andb_false_r. symmetry.
      rewrite <- (Z.mod_small x (2 ^ 64)) by lia. apply Z.mod_pow2_bits_high. lia.
  - rewrite Z.shiftl_mul_pow2, Z.shiftr_div_pow2 by lia. change (2 ^ 2) with 4.
    pose proof (Z.div_mod x 4). lia.
Qed.

Lemma GetPadSize_eq size : 0 <= size < 2 ^ 64 -> GetPadSize size = (- size) mod 4.
Proof.
  intros Hs. unfold GetPadSize, u64.
  pose proof (wrapU_range 64 (size + 3)) as Hr.
  rewrite land_clear_low2 by lia. unfold wrapU in *.
  assert (((size + 3) mod 2 ^ 64) mod 4 = (size + 3) mod 4) as ->.
  { symmetry. apply Znumtheory.Zmod_div_mod; [lia..|]. by exists (2 ^ 62). }
  set (a := (size + 3) mod 4).
  assert ((size + 3) mod 2 ^ 64 - a - size = (size + 3) mod 2 ^ 64 - (size + 3) + (3 - a)) as -> by lia.
  assert (Ha : 3 - a = (- size) mod 4) by (unfold a; pose proof (Z.div_mod size 4); Z.to_euclidean_division_equations; lia).
  rewrite Ha.
  pose proof (Z.mod_pos_bound (- size) 4).
  destruct (Z.ltb_spec (size + 3) (2 ^ 64)).
  - rewrite (Z.mod_small (size + 3)) by lia. rewrite Z.mod_small; lia.
  - assert ((size + 3) mod 2 ^ 64 = size + 3 - 2 ^ 64) as ->.
    { symmetry. apply (Z.mod_unique _ _ 1); lia. }
    symmetry. apply (Z.mod_unique _ _ (-1)); lia.
Qed.

Lemma GetPadSize_range size : 0 <= size < 2 ^ 64 -> 0 <= GetPadSize size < 4.
Proof. intros. rewrite GetPadSize_eq by done. apply Z.mod_pos_bound. lia. Qed.

Lemma GetPadSize_aligned size : 0 <= size < 2 ^ 64 -> (size + GetPadSize size) mod 4 = 0.
Proof. intros. rewrite GetPadSize_eq by done. Z.to_euclidean_division_equations; lia. Qed.

Lemma double_until_spec fuel c m :
  0 < c -> c * 2 ^ Z.of_nat fuel < 2 ^ 64 -> m <= c * 2 ^ Z.of_nat fuel ->
  exists c', double_until fuel c m = Some c' /\ m <= c' /\ c <= c' <= c * 2 ^ Z.of_nat fuel.
Proof.
  revert c. induction fuel as [|fuel IH]; intros c Hc Hb Hm.
  - change (2 ^ Z.of_nat 0) with 1 in *. simpl.
    destruct (Z.ltb_spec c m); [lia|]. exists c. split_and!; done || lia.
  - rewrite Nat2Z.inj_succ, Z.pow_succ_r in * by lia.
    assert (0 < 2 ^ Z.of_nat fuel) by (apply Z.pow_pos_nonneg; lia). cbn [double_until].
    destruct (Z.ltb_spec c m); [|exists c; split_and!; done || nia].
    assert (u64 (c * 2) = c * 2) as -> by (apply wrapU_small; nia).
    destruct (IH (c * 2)) as (c' & -> & ? & ?); [nia..|]. exists c'. split_and!; done || nia.
Qed.

Lemma CalcNewCapacity_spec max m :
  DEFAULT_CPACITY <= max < 2 ^ 64 -> 0 <= m < 2 ^ 64 ->
  exists c, CalcNewCapacity max m = Some c /\ 0 < c <= max /\ (m <= max -> m <= c).
Proof.
  unfold CalcNewCapacity, CAPACITY_THRESHOLD, DEFAULT_CPACITY. intros Hmax Hm.
  destruct (Z.eqb_spec m 4096); [exists 4096; split_and!; done || lia|].
  destruct (Z.ltb_spec 4096 m).
  - assert (u64 (max - 4096) = max - 4096) as -> by (apply wrapU_small; lia).
    destruct (Z.ltb_spec 0 max); [|lia].
    assert (m / 4096 * 4096 <= m < m / 4096 * 4096 + 4096)
      by (Z.to_euclidean_division_equations; lia).
    destruct (Z.ltb_spec (max - 4096) (m / 4096 * 4096)); simpl.
    + exists max. split_and!; done || lia.
    + assert (u64 (m / 4096 * 4096 + 4096) = m / 4096 * 4096 + 4096) as ->.
      { apply wrapU_small. Z.to_euclidean_division_equations; lia. }
      eexists. split_and!; [done|Z.to_euclidean_division_equations; lia..].
  - destruct (double_until_spec 6 64 m) as (c & -> & ? & ?); [simpl; lia..|].
    change (2 ^ Z.of_nat 6) with 64 in *. simpl.
    destruct (Z.ltb_spec 0 max), (Z.ltb_spec max c); simpl; try lia.
    exists c. split_and!; done || lia.
Qed.

(** The doubling loop stops below twice the request. *)
Lemma double_until_waste fuel c m c' :
  0 < c -> c * 2 ^ Z.of_nat fuel < 2 ^ 64 -> double_until fuel c m = Some c' -> c' = c \/ c' < 2 * m.
Proof.
  revert c. induction fuel as [|fuel IH]; intros c Hc Hb.
  - simpl. case_match; [done|]. intros [= <-]. by left.
  - rewrite Nat2Z.inj_succ, Z.pow_succ_r in Hb by lia.
    assert (0 < 2 ^ Z.of_nat fuel) by (apply Z.pow_pos_nonneg; lia). cbn [double_until].
    destruct (Z.ltb_spec c m); [|intros [= <-]; by left].
    assert (u64 (c * 2) = c * 2) as -> by (apply wrapU_small; nia).
    intros E. apply IH in E; [|nia..]. lia.
Qed.

Lemma CalcNewCapacity_waste max m c :
  DEFAULT_CPACITY <= max < 2 ^ 64 -> 0 <= m < 2 ^ 64 -> CalcNewCapacity max m = Some c ->
  c <= Z.max 64 (Z.max (2 * m) (m + CAPACITY_THRESHOLD)).
Proof.
  unfold CalcNewCapacity, CAPACITY_THRESHOLD, DEFAULT_CPACITY. intros Hmax Hm.
  destruct (Z.eqb_spec m 4096); [intros [= <-]; lia|].
  destruct (Z.ltb_spec 4096 m).
  - assert (u64 (max - 4096) = max - 4096) as -> by (apply wrapU_small; lia).
    assert (m / 4096 * 4096 <= m < m / 4096 * 4096 + 4096)
      by (Z.to_euclidean_division_equations; lia).
    destruct (Z.ltb_spec 0 max), (Z.ltb_spec (max - 4096) (m / 4096 * 4096)); simpl; intros [= <-]; try lia.
    pose proof (wrapU_range 64 (m / 4096 * 4096 + 4096)).
    unfold u64, wrapU. pose proof (Z.mod_le (m / 4096 * 4096 + 4096) (2 ^ 64)). lia.
  - destruct (double_until 6 64 m) as [c'|] eqn:E; [|done].
    apply double_until_waste in E; [|done..]. simpl. case_match; intros [= <-]; zb; lia.
Qed.

(** ** The invariant *)

Record parcel_wf (alimit : Z) (p : Parcel) : Prop := mk_parcel_wf {
  wf_read : 0 <= readCursor_ p < 2 ^ 64;
  wf_write : 0 <= writeCursor_ p < 2 ^ 64;
  wf_size : 0 <= dataSize_ p <= dataCapacity_ p;
  wf_cap : dataCapacity_ p < 2 ^ 63;
  wf_data : match data_ p with
            | Some d => zlen d = dataCapacity_ p /\ Forall is_byte d
            | None => dataCapacity_ p = 0
            end;
  wf_sync : writable_ p = true -> writeCursor_ p = dataSize_ p;
  wf_max : DEFAULT_CPACITY <= maxDataCapacity_ p < 2 ^ 64;
  wf_objs : zlen (default [] (objectOffsets_ p)) = objectsCapacity_ p;
  wf_objcur : 0 <= objectCursor_ p <= objectsCapacity_ p /\ objectsCapacity_ p < 2 ^ 60;
  wf_next : 0 <= nextObjectIdx_ p <= objectCursor_ p;
  wf_offs : Forall (fun o => 0 <= o < 2 ^ 63) (objects p);
  wf_alloc : exists a, allocator_ p = Some a /\ AllocatorOk a alimit;
}.

(** The bytes written so far. *)
Definition content (p : Parcel) : list Z := ztake (dataSize_ p) (default [] (data_ p)).

(** What the write operations leave alone. *)
Definition env (p : Parcel) :=
  (readCursor_ p, maxDataCapacity_ p, objectOffsets_ p, nextObjectIdx_ p, objectCursor_ p,
   objectsCapacity_ p, allocator_ p, objectHolder_ p, writable_ p).

(** [appended p p' bs]: a write took [p] to [p'] and added exactly [bs]. *)
Record appended (alimit : Z) (p p' : Parcel) (bs : list Z) : Prop := {
  app_wf : parcel_wf alimit p';
  app_content : content p' = content p ++ bs;
  app_env : env p' = env p;
  app_size : dataSize_ p' = dataSize_ p + zlen bs;
  app_cap : dataCapacity_ p' <= Z.max (dataCapacity_ p) (maxDataCapacity_ p);
  app_data : is_Some (data_ p) -> is_Some (data_ p');
}.

(** [room p n]: [n] more bytes fit under every limit. *)
Definition room (alimit : Z) (p : Parcel) (n : Z) : Prop :=
  dataSize_ p + n <= maxDataCapacity_ p /\ maxDataCapacity_ p <= alimit /\
  maxDataCapacity_ p <= SECUREC_MEM_MAX_LEN /\ dataCapacity_ p <= SECUREC_MEM_MAX_LEN.

(** A write operation that appends [bs] whenever they fit. *)
Definition writes (alimit : Z) (m : PM bool) (bs : list Z) : Prop :=
  forall p, parcel_wf alimit p -> writable_ p = true -> room alimit p (zlen bs) ->
    exists p', m p = Some (true, p') /\ appended alimit p p' bs.

(** A write operation that, on every outcome, only appends, and appends exactly
    [bs] when it returns true. *)
Definition extends (alimit : Z) (m : PM bool) (bs : list Z) : Prop :=
  forall p, parcel_wf alimit p ->
    exists ok p' bs', m p = Some (ok, p') /\ appended alimit p p' bs' /\ (ok = true -> bs' = bs).

Record emits (alimit : Z) (m : PM bool) (bs : list Z) : Prop := {
  emits_extends : extends alimit m bs;
  emits_writes : writes alimit m bs;
}.

(** An operation without undefined behaviour that keeps the invariant. *)
Definition safe {A} (alimit : Z) (m : PM A) : Prop :=
  forall p, parcel_wf alimit p -> exists a p', m p = Some (a, p') /\ parcel_wf alimit p'.

Create HintDb parcel.

Section inv.
Context `{LibcOk} `{SecurecOk} `{ParcelConfig} (alimit : Z).
Implicit Types p q : Parcel.

Lemma appended_nil p : parcel_wf alimit p -> appended alimit p p [].
Proof.
  intros Hwf. split; [done|by rewrite app_nil_r|done|rewrite zlen_nil; lia|lia|done].
Qed.

Lemma appended_trans p p1 p2 b1 b2 :
  appended alimit p p1 b1 -> appended alimit p1 p2 b2 -> appended alimit p p2 (b1 ++ b2).
Proof.
  intros [Hw1 Hc1 He1 Hs1 Hm1 Hd1] [Hw2 Hc2 He2 Hs2 Hm2 Hd2].
  assert (maxDataCapacity_ p1 = maxDataCapacity_ p) as Em by (unfold env in *; congruence).
  split; [done| |congruence|rewrite zlen_app; lia|rewrite Em in *; lia|auto].
  by rewrite Hc2, Hc1, app_assoc.
Qed.

Lemma appended_writable p p' bs : appended alimit p p' bs -> writable_ p' = writable_ p.
Proof. intros [_ _ He _ _ _]. unfold env in He. congruence. Qed.

Lemma appended_room p p' bs n :
  appended alimit p p' bs -> room alimit p (zlen bs + n) -> room alimit p' n.
Proof.
  intros [_ _ He Hs Hm _] (R1 & R2 & R3 & R4). unfold env in He.
  assert (maxDataCapacity_ p' = maxDataCapacity_ p) as Em by congruence.
  unfold room. rewrite Em. split_and!; lia.
Qed.

Lemma room_le p n m : room alimit p n -> m <= n -> room alimit p m.
Proof. unfold room. intros (?&?&?&?) ?. split_and!; lia. Qed.

(** Writes in sequence append in sequence. *)
Lemma writes_bind m1 m2 b1 b2 :
  writes alimit m1 b1 -> writes alimit m2 b2 ->
  writes alimit (ok ← m1; if (ok : bool) then m2 else mret false) (b1 ++ b2).
Proof.
  intros Hm1 Hm2 p Hwf Hw Hroom. rewrite zlen_app in Hroom.
  destruct (Hm1 p) as (p1 & E1 & A1); [done..|eapply room_le; [done|]; pose proof (zlen_nonneg b2); lia|].
  destruct (Hm2 p1) as (p2 & E2 & A2); [apply A1|by rewrite (appended_writable _ _ _ A1)|by eapply appended_room|].
  exists p2. split; [by rewrite (pm_bind_eq _ _ _ _ _ E1)|by eapply appended_trans].
Qed.

Lemma extends_bind m1 m2 b1 b2 :
  extends alimit m1 b1 -> extends alimit m2 b2 ->
  extends alimit (ok ← m1; if (ok : bool) then m2 else mret false) (b1 ++ b2).
Proof.
  intros Hm1 Hm2 p Hwf. destruct (Hm1 p Hwf) as (ok1 & p1 & c1 & E1 & A1 & Hok1).
  destruct ok1.
  - destruct (Hm2 p1 (app_wf _ _ _ _ A1)) as (ok2 & p2 & c2 & E2 & A2 & Hok2).
    exists ok2, p2, (c1 ++ c2). rewrite (pm_bind_eq _ _ _ _ _ E1). split_and!; [done| |].
    + by eapply appended_trans.
    + intros ->. by rewrite Hok1, Hok2.
  - exists false, p1, c1. by rewrite (pm_bind_eq _ _ _ _ _ E1).
Qed.

Lemma emits_bind m1 m2 b1 b2 :
  emits alimit m1 b1 -> emits alimit m2 b2 ->
  emits alimit (ok ← m1; if (ok : bool) then m2 else mret false) (b1 ++ b2).
Proof. intros [] []. split; [by apply extends_bind|by apply writes_bind]. Qed.

Lemma emits_true : emits alimit (mret true) [].
Proof.
  split; intros p Hp; intros; eexists.
  - exists p, []. eauto using appended_nil.
  - eauto using appended_nil.
Qed.

Lemma extends_false bs : extends alimit (mret false) bs.
Proof. intros p Hp. exists false, p, []. split_and!; [done|by apply appended_nil|done]. Qed.

Lemma extends_safe m bs : extends alimit m bs -> safe alimit m.
Proof. intros Hm p Hp. destruct (Hm p Hp) as (ok & p' & bs' & E & A & _). exists ok, p'. split; [done|apply A]. Qed.

Lemma safe_ret {A} (a : A) : safe alimit (mret a : PM A).
Proof. intros p Hp. by exists a, p. Qed.

Lemma safe_bind {A B} (m : PM A) (f : A -> PM B) :
  safe alimit m -> (forall a, safe alimit (f a)) -> safe alimit (x ← m; f x).
Proof.
  intros Hm Hf p Hp. destruct (Hm p Hp) as (a & p1 & E & Hp1).
  destruct (Hf a p1 Hp1) as (b & p2 & E2 & Hp2).
  exists b, p2. split; [by rewrite (pm_bind_eq _ _ _ _ _ E)|done].
Qed.

Lemma safe_if {A} (b : bool) (m1 m2 : PM A) :
  (b = true -> safe alimit m1) -> (b = false -> safe alimit m2) ->
  safe alimit (if b then m1 else m2).
Proof. destruct b; auto. Qed.

Lemma wf_block p :
  parcel_wf alimit p -> zlen (default [] (data_ p)) = dataCapacity_ p /\
  Forall is_byte (default [] (data_ p)).
Proof. intros Hp. pose proof (wf_data _ _ Hp) as Hd. destruct (data_ p); simpl; [done|]. by rewrite Hd. Qed.

Lemma wf_set_data p d c :
  parcel_wf alimit p -> zlen d = c -> c < 2 ^ 63 -> Forall is_byte d -> dataSize_ p <= c ->
  parcel_wf alimit (set_data p (Some d) c).
Proof. intros [] ????. split; simpl; try done. lia. Qed.

Lemma GetWritableBytes_eq p :
  GetWritableBytes p = Z.max 0 (dataCapacity_ p - writeCursor_ p).
Proof. unfold GetWritableBytes. case_bool. Qed.

Lemma GetReadableBytes_eq p : GetReadableBytes p = Z.max 0 (dataSize_ p - readCursor_ p).
Proof. unfold GetReadableBytes. case_bool. Qed.

(** What a call of [EnsureWritableCapacity] for [n] bytes leaves behind. *)
Record ensured (p : Parcel) (n : Z) (ok : bool) (p' : Parcel) : Prop := {
  ens_wf : parcel_wf alimit p';
  ens_content : content p' = content p;
  ens_frame : p' = set_data p (data_ p') (dataCapacity_ p');
  ens_cap : dataCapacity_ p' <= Z.max (dataCapacity_ p) (maxDataCapacity_ p);
  ens_data : is_Some (data_ p) -> is_Some (data_ p');
  ens_ok : ok = true -> writable_ p = true /\ is_Some (data_ p') /\
    (writeCursor_ p + n < 2 ^ 64 -> writeCursor_ p + n <= dataCapacity_ p');
}.

Lemma set_data_same p : set_data p (data_ p) (dataCapacity_ p) = p.
Proof. by destruct p. Qed.

Lemma ensured_false p n : parcel_wf alimit p -> ensured p n false p.
Proof. intros Hp. split; try done; [by rewrite set_data_same|lia]. Qed.

Lemma ensured_realloc p a n c d' :
  parcel_wf alimit p -> AllocatorOk a alimit -> Realloc a (data_ p) c = Some d' ->
  dataCapacity_ p < c -> c <= maxDataCapacity_ p -> u64 (n + writeCursor_ p) <= c ->
  0 <= n -> writable_ p = true ->
  ensured p n true (set_data p (Some d') c).
Proof.
  intros Hp Ha Er Hc Hm Hu Hn Hw.
  pose proof (wf_size _ _ Hp). pose proof (wf_write _ _ Hp).
  destruct (wf_block p Hp) as [Hz Hb].
  destruct (realloc_spec _ _ _ Er) as (Hz' & Hlt & Hpre & Hb'); [lia|].
  split; simpl; try done; [apply wf_set_data; auto; lia| |lia|].
  - unfold content. simpl. rewrite Hz in Hpre.
    transitivity (ztake (dataSize_ p) (ztake (Z.min c (dataCapacity_ p)) d')).
    + rewrite ztake_ztake. f_equal. lia.
    + rewrite Hpre, ztake_ztake. f_equal. lia.
  - intros _. split_and!; [done..|]. intros Hlt2. unfold u64 in Hu.
    rewrite wrapU_small in Hu by lia. lia.
Qed.

(** [EnsureWritableCapacity] never faults and keeps what was written; when
    it returns true the bytes asked for are available, unless their sum
    with the write cursor wraps. *)
Lemma Ensure_spec p n :
  parcel_wf alimit p -> 0 <= n < 2 ^ 64 ->
  exists ok p', EnsureWritableCapacity n p = Some (ok, p') /\ ensured p n ok p'.
Proof.
  intros Hp Hn. pose proof (wf_write _ _ Hp). pose proof (wf_max _ _ Hp).
  pose proof (ensured_false p n Hp) as Hfalse.
  unfold EnsureWritableCapacity. rewrite GetWritableBytes_eq.
  destruct (writable_ p) eqn:Ew; simpl; [|by exists false, p].
  pose proof (wf_sync _ _ Hp Ew). pose proof (wf_size _ _ Hp).
  destruct (Z.leb_spec n (Z.max 0 (dataCapacity_ p - writeCursor_ p))).
  { destruct (data_ p) as [d|] eqn:Ed; [|by exists false, p]. exists true, p. split; [done|].
    destruct Hfalse. split; try done. rewrite Ed. intros _. split_and!; done || lia. }
  destruct (CalcNewCapacity_spec (maxDataCapacity_ p) (u64 (n + writeCursor_ p)))
    as (c & -> & Hc & _); [done|by apply wrapU_range|].
  destruct (_ || _) eqn:Ec; [by exists false, p|]. zb.
  destruct (wf_alloc _ _ Hp) as (a & -> & Ha).
  destruct (Realloc a (data_ p) c) as [d'|] eqn:Er; [|by exists false, p].
  exists true, (set_data p (Some d') c). split; [done|]. eapply ensured_realloc; eauto; lia.
Qed.

(** It does return true when the bytes fit under the limits. *)
Lemma Ensure_true p n :
  parcel_wf alimit p -> writable_ p = true -> 0 <= n -> room alimit p n ->
  0 < n \/ is_Some (data_ p) ->
  exists p', EnsureWritableCapacity n p = Some (true, p') /\ ensured p n true p'.
Proof.
  intros Hp Hw Hn (R1 & R2 & R3 & R4) Hpos. unfold SECUREC_MEM_MAX_LEN in *.
  pose proof (wf_write _ _ Hp). pose proof (wf_max _ _ Hp).
  pose proof (wf_sync _ _ Hp Hw). pose proof (wf_size _ _ Hp).
  destruct (Ensure_spec p n Hp) as (ok & p' & E & Hens); [lia|].
  destruct ok; [by exists p'|]. exfalso. revert E. unfold EnsureWritableCapacity.
  rewrite GetWritableBytes_eq, Hw. simpl.
  destruct (Z.leb_spec n (Z.max 0 (dataCapacity_ p - writeCursor_ p))).
  { pose proof (wf_data _ _ Hp) as Hd. destruct (data_ p) as [d|] eqn:Ed; [done|].
    destruct Hpos as [?|[? ?]]; [lia|done]. }
  assert (u64 (n + writeCursor_ p) = n + writeCursor_ p) as -> by (apply wrapU_small; lia).
  destruct (CalcNewCapacity_spec (maxDataCapacity_ p) (n + writeCursor_ p))
    as (c & -> & Hc & Hge); [done|lia|].
  destruct (_ || _) eqn:Ec; [apply orb_true_iff in Ec as [Ec|Ec]; zb; lia|].
  destruct (wf_alloc _ _ Hp) as (a & -> & Ha).
  destruct (realloc_succeeds (a := a) (data_ p) c) as [? ->]; [lia|done].
Qed.

(** A block that keeps its first [dataSize_] bytes and continues with [bs]. *)
Lemma appended_store p d d' bs :
  parcel_wf alimit p -> writable_ p = true -> data_ p = Some d ->
  zlen d' = zlen d -> Forall is_byte d' ->
  ztake (dataSize_ p) d' = ztake (dataSize_ p) d ->
  ztake (zlen bs) (zdrop (dataSize_ p) d') = bs ->
  dataSize_ p + zlen bs <= dataCapacity_ p ->
  appended alimit p (advance_write (zlen bs) (set_data p (Some d') (dataCapacity_ p))) bs.
Proof.
  intros Hp Hw Ed Hz Hb Hpre Hmid Hfit. pose proof (zlen_nonneg bs).
  pose proof (wf_sync _ _ Hp Hw). pose proof (wf_size _ _ Hp). pose proof (wf_cap _ _ Hp).
  pose proof (wf_data _ _ Hp) as Hd. rewrite Ed in Hd.
  unfold advance_write. simpl. unfold u64. rewrite !wrapU_small by lia.
  split; simpl; try done || lia; [|].
  - destruct Hp. split; simpl; try done || lia. split; [lia|done].
  - unfold content. simpl. rewrite Ed. simpl. rewrite ztake_add by lia. by rewrite Hpre, Hmid.
Qed.

Lemma store_word_spec p bs :
  parcel_wf alimit p -> writable_ p = true -> is_Some (data_ p) -> Forall is_byte bs ->
  writeCursor_ p + zlen bs <= dataCapacity_ p ->
  exists p', store_word bs p = Some (true, p') /\ appended alimit p p' bs.
Proof.
  intros Hp Hw [d Ed] Hbs Hfit.
  pose proof (wf_sync _ _ Hp Hw). pose proof (wf_size _ _ Hp).
  pose proof (wf_data _ _ Hp) as Hd. rewrite Ed in Hd. destruct Hd as [Hz Hb].
  unfold store_word. rewrite Ed. simpl. rewrite mem_store_ok by lia. simpl.
  eexists. split; [done|]. pose proof (zlen_nonneg bs).
  eapply appended_store; try done; try lia.
  - by apply mem_store_zlen; lia.
  - rewrite !Forall_app. auto with zlist.
  - rewrite ztake_app_l by (rewrite zlen_take; lia). rewrite ztake_ztake. f_equal. lia.
  - rewrite zdrop_app_r by (rewrite zlen_take; lia).
    rewrite zlen_take by lia. rewrite zdrop_0 by lia. apply ztake_app_exact.
Qed.

(** [memcpy_s] into the writable tail. *)
Lemma WriteDataBytes_spec p data size :
  parcel_wf alimit p -> writable_ p = true -> is_Some (data_ p) -> Forall is_byte data ->
  0 <= size <= zlen data ->
  exists ok p', WriteDataBytes data size p = Some (ok, p') /\
    (if ok : bool then size <= dataCapacity_ p - writeCursor_ p /\ appended alimit p p' (ztake size data)
     else appended alimit p p' []) /\
    dataCapacity_ p' = dataCapacity_ p /\
    (0 < dataCapacity_ p - writeCursor_ p <= SECUREC_MEM_MAX_LEN ->
     size <= dataCapacity_ p - writeCursor_ p -> ok = true).
Proof.
  intros Hp Hw [d Ed] Hdata Hsize.
  pose proof (wf_sync _ _ Hp Hw) as Hsync. pose proof (wf_size _ _ Hp).
  pose proof (wf_write _ _ Hp). pose proof (wf_cap _ _ Hp).
  pose proof (wf_data _ _ Hp) as Hd. rewrite Ed in Hd. destruct Hd as [Hz Hb].
  unfold WriteDataBytes. rewrite Ed, GetWritableBytes_eq.
  set (w := Z.max 0 (dataCapacity_ p - writeCursor_ p)). assert (Hwr : w = dataCapacity_ p - writeCursor_ p) by lia.
  destruct (Z.ltb_spec (zlen d) (writeCursor_ p + w)); [lia|].
  destruct (Z.ltb_spec (zlen data) size); [lia|]. rewrite andb_false_r.
  assert (zlen (ztake w (zdrop (writeCursor_ p) d)) = w) as Hzd.
  { rewrite zlen_take; [done|]. rewrite zlen_drop; lia. }
  assert (zlen (ztake size data) = size) as Hzs by (apply zlen_take; lia).
  destruct (memcpy_s (ztake w (zdrop (writeCursor_ p) d)) w (ztake size data) size)
    as [e dest'] eqn:Em.
  pose proof (memcpy_s_zlen _ _ _ _ _ _ Em Hzd) as Hz'.
  assert (Forall is_byte dest') as Hb' by (eapply memcpy_s_byte; eauto with zlist).
  set (d' := ztake (writeCursor_ p) d ++ dest' ++ zdrop (writeCursor_ p + w) d).
  assert (zlen d' = zlen d) as Hzd'.
  { unfold d'. rewrite !zlen_app, zlen_take, zlen_drop by lia. lia. }
  assert (Forall is_byte d') as Hbd' by (unfold d'; rewrite !Forall_app; auto with zlist).
  assert (ztake (dataSize_ p) d' = ztake (dataSize_ p) d) as Hpre.
  { unfold d'. rewrite ztake_app_l by (rewrite zlen_take; lia). rewrite ztake_ztake. f_equal. lia. }
  assert (zdrop (dataSize_ p) d' = dest' ++ zdrop (writeCursor_ p + w) d) as Hdrop.
  { unfold d'. rewrite zdrop_app_r by (rewrite zlen_take; lia). rewrite zlen_take by lia.
    by rewrite zdrop_0 by lia. }
  destruct (Z.eqb_spec e EOK) as [->|Hne].
  - destruct (memcpy_s_eok _ _ _ _ _ Em Hzd) as [Hle Hcopy]. specialize (Hcopy Hzs).
    eexists true, _. split; [done|]. split_and!; [lia| |done|done].
    rewrite <- Hzs at 1. apply (appended_store p d d'); try done; [|lia].
    rewrite Hdrop, Hcopy, <- app_assoc. apply ztake_app_exact.
  - eexists false, _. split; [done|]. split_and!; [|done|].
    + split; simpl; try done; rewrite ?zlen_nil; try lia; [apply wf_set_data; try done; try lia|].
      unfold content. simpl. rewrite Ed. simpl. by rewrite app_nil_r.
    + intros Hpos Hfit. exfalso. apply Hne.
      pose proof (memcpy_s_copies _ w (ztake size data) size ltac:(lia) ltac:(lia) Hzd Hzs) as Hok.
      by rewrite Em in Hok.
Qed.

Lemma pad_mask_eq pad : 0 <= pad < 4 -> pad_mask pad = Some (Z.ones (8 * (4 - pad))).
Proof.
  intros. assert (pad = 0 \/ pad = 1 \/ pad = 2 \/ pad = 3) as [->|[->|[->| ->]]] by lia; done.
Qed.

(** Masking a word clears its last [pad] bytes. *)
Lemma mask_word l pad :
  Forall is_byte l -> zlen l = 4 -> 0 <= pad < 4 ->
  le_bytes 4 (Z.land (le_val l) (Z.ones (8 * (4 - pad)))) =
    ztake (4 - pad) l ++ replicate (Z.to_nat pad) 0.
Proof.
  intros Hl Hz Hp. rewrite Z.land_ones by lia.
  rewrite Z.pow_mul_r by lia. change (2 ^ 8) with 256. rewrite le_val_ztake by (done || lia).
  set (l' := ztake (4 - pad) l ++ replicate (Z.to_nat pad) 0).
  assert (le_val (ztake (4 - pad) l) = le_val l') as ->.
  { unfold l'. rewrite le_val_app, le_val_zeros. lia. }
  assert (length l' = 4%nat) as <-.
  { unfold l', zlen, ztake in *. rewrite length_app, length_take, length_replicate. lia. }
  apply le_bytes_le_val. apply Forall_app. split; [by apply Forall_ztake|].
  apply Forall_replicate, is_byte_0.
Qed.

(** The padding zeroes exactly the [pad] bytes after the write cursor, with
    a 32-bit access that stays in the block. *)
Lemma WritePadBytes_spec p pad :
  parcel_wf alimit p -> writable_ p = true -> is_Some (data_ p) ->
  0 <= pad < 4 -> 4 <= writeCursor_ p + pad -> writeCursor_ p + pad <= dataCapacity_ p ->
  exists p', WritePadBytes pad p = Some (tt, p') /\
    appended alimit p p' (replicate (Z.to_nat pad) 0).
Proof.
  intros Hp Hw [d Ed] Hpad Hlo Hfit.
  pose proof (wf_sync _ _ Hp Hw) as Hsync. pose proof (wf_size _ _ Hp).
  pose proof (wf_data _ _ Hp) as Hd. rewrite Ed in Hd. destruct Hd as [Hz Hb].
  unfold WritePadBytes. rewrite Ed, pad_mask_eq by done. simpl.
  set (off := writeCursor_ p + pad - 4).
  rewrite mem_load_ok by (unfold off; lia). simpl.
  set (l := ztake 4 (zdrop off d)).
  assert (zlen l = 4) as Hl by (unfold l; rewrite zlen_take; [done|rewrite zlen_drop; unfold off; lia]).
  assert (Forall is_byte l) as Hbl by (unfold l; auto with zlist).
  rewrite mask_word by done.
  set (l' := ztake (4 - pad) l ++ replicate (Z.to_nat pad) 0).
  assert (zlen (ztake (4 - pad) l) = 4 - pad) as Hlt by (apply zlen_take; lia).
  assert (zlen (replicate (Z.to_nat pad) 0) = pad) as Hrep by (unfold zlen; rewrite length_replicate; lia).
  assert (zlen l' = 4) as Hl' by (unfold l'; rewrite zlen_app; lia).
  rewrite mem_store_ok by (unfold off; lia). simpl.
  eexists. split; [done|]. rewrite <- Hrep at 1.
  assert (ztake off d ++ l' ++ zdrop (off + zlen l') d =
          ztake (dataSize_ p) d ++ replicate (Z.to_nat pad) 0 ++ zdrop (off + zlen l') d) as ->.
  { replace (dataSize_ p) with (off + (4 - pad)) by (unfold off; lia).
    rewrite ztake_add by (unfold off; lia). unfold l', l. rewrite ztake_ztake, Z.min_l by lia.
    by rewrite !app_assoc. }
  assert (zlen (ztake (dataSize_ p) d) = dataSize_ p) as Hds by (apply zlen_take; lia).
  apply (appended_store p d); try done.
  - rewrite !zlen_app, zlen_drop by (unfold off; lia). rewrite Hds, Hrep. unfold off. lia.
  - rewrite !Forall_app. split_and!; auto with zlist. apply Forall_replicate, is_byte_0.
  - rewrite ztake_app_l by lia. rewrite ztake_ztake. f_equal. lia.
  - rewrite zdrop_app_r, zdrop_0 by lia. apply ztake_app_exact.
  - lia.
Qed.

Lemma ensured_appended p n ok p' : ensured p n ok p' -> appended alimit p p' [].
Proof.
  intros [Hwf Hc Hf Hcap Hd _]. split; try done.
  - by rewrite Hc, app_nil_r.
  - by rewrite Hf.
  - rewrite Hf, zlen_nil. simpl. lia.
Qed.

Lemma ensured_cursor p n ok p' :
  ensured p n ok p' -> writeCursor_ p' = writeCursor_ p /\ writable_ p' = writable_ p.
Proof. intros [_ _ Hf _ _ _]. by rewrite Hf. Qed.

Lemma appended_cursor p p' bs :
  writable_ p = true -> parcel_wf alimit p -> appended alimit p p' bs ->
  writeCursor_ p' = writeCursor_ p + zlen bs.
Proof.
  intros Hw Hp A. rewrite (wf_sync _ _ (app_wf _ _ _ _ A)) by by rewrite (appended_writable _ _ _ A).
  rewrite (wf_sync _ _ Hp Hw). apply A.
Qed.

(** A parcel in which [n] more bytes have been ensured. *)
Record ready (p : Parcel) (n : Z) : Prop := {
  rdy_wf : parcel_wf alimit p;
  rdy_writable : writable_ p = true;
  rdy_data : is_Some (data_ p);
  rdy_fit : writeCursor_ p + n <= dataCapacity_ p;
}.

Lemma ensured_ready p n p' :
  parcel_wf alimit p -> 0 <= n < 2 ^ 63 -> ensured p n true p' -> ready p' n.
Proof.
  intros Hp Hn Hens. destruct (ens_ok _ _ _ _ Hens eq_refl) as (Hw & Hd & Hfit).
  destruct (ensured_cursor _ _ _ _ Hens) as [Ec Ew].
  pose proof (wf_sync _ _ Hp Hw). pose proof (wf_size _ _ Hp). pose proof (wf_cap _ _ Hp).
  split; [apply Hens|congruence|done|rewrite Ec; lia].
Qed.

Lemma ready_appended p p' bs n :
  ready p (zlen bs + n) -> appended alimit p p' bs -> dataCapacity_ p <= dataCapacity_ p' ->
  ready p' n.
Proof.
  intros [Hp Hw Hd Hf] A Hc. split; [apply A|by rewrite (appended_writable _ _ _ A)|by apply A|].
  rewrite (appended_cursor p p' bs) by done. lia.
Qed.

(** A body that appends [bs] to a ready parcel, and cannot fail below the
    limit of [memcpy_s]. *)
Definition fills (m : PM bool) (bs : list Z) : Prop :=
  forall p, ready p (zlen bs) ->
    exists ok p' bs', m p = Some (ok, p') /\ appended alimit p p' bs' /\
      (ok = true -> bs' = bs) /\ (dataCapacity_ p <= SECUREC_MEM_MAX_LEN -> ok = true).

(** The shape all buffer writes share: ensure the capacity, then fill it. *)
Lemma ensure_emits n m bs :
  zlen bs = n -> 0 < n < 2 ^ 63 -> fills m bs ->
  emits alimit (ok ← EnsureWritableCapacity n; if (ok : bool) then m else mret false) bs.
Proof.
  intros Hz Hn Hm. split.
  - intros p Hp. destruct (Ensure_spec p n Hp) as (ok & p1 & E & Hens); [lia|].
    rewrite (pm_bind_eq _ _ _ _ _ E). pose proof (ensured_appended _ _ _ _ Hens) as A1.
    destruct ok; [|exists false, p1, []; done].
    destruct (Hm p1) as (ok & p2 & bs' & E2 & A2 & Hok & _).
    { rewrite Hz. eapply ensured_ready; eauto. lia. }
    exists ok, p2, bs'. split_and!; [done| |done]. by apply (appended_trans p p1 p2 []).
  - intros p Hp Hw Hroom. rewrite Hz in Hroom.
    destruct (Ensure_true p n Hp Hw) as (p1 & E & Hens); [lia|done|lia|].
    rewrite (pm_bind_eq _ _ _ _ _ E). pose proof (ensured_appended _ _ _ _ Hens) as A1.
    destruct (Hm p1) as (ok & p2 & bs' & E2 & A2 & Hok & Htrue).
    { rewrite Hz. eapply ensured_ready; eauto. lia. }
    destruct Hroom as (_ & _ & R3 & R4). pose proof (ens_cap _ _ _ _ Hens).
    rewrite Htrue in * by lia. rewrite Hok in A2 by done.
    exists p2. split; [done|]. by apply (appended_trans p p1 p2 []).
Qed.

(** Typed writes: [Write<T>] is all or nothing. *)
Lemma write_word_emits bs :
  Forall is_byte bs -> 0 < zlen bs < 2 ^ 63 -> emits alimit (write_word bs) bs.
Proof.
  intros Hb Hz. apply ensure_emits; [done..|]. intros p [Hp Hw Hd Hf].
  destruct (store_word_spec p bs) as (p2 & E2 & A2); try done.
  exists true, p2, bs. done.
Qed.

Definition zeros (n : Z) : list Z := replicate (Z.to_nat n) 0.

Lemma zlen_zeros n : 0 <= n -> zlen (zeros n) = n.
Proof. intros. unfold zeros, zlen. rewrite length_replicate. lia. Qed.

Lemma zeros_byte n : Forall is_byte (zeros n).
Proof. apply Forall_replicate, is_byte_0. Qed.

(** The padding step after [pre] bytes were written. *)
Lemma pad_step p pad :
  ready p pad -> 0 <= pad < 4 -> 4 <= writeCursor_ p + pad ->
  exists p', (WritePadBytes pad;; mret true) p = Some (true, p') /\ appended alimit p p' (zeros pad).
Proof.
  intros [Hp Hw Hd Hf] Hpad Hlo. destruct (WritePadBytes_spec p pad) as (p' & E & A); try done.
  exists p'. by rewrite (pm_bind_eq _ _ _ _ _ E).
Qed.

(** Copying [size] bytes of [data] into a ready parcel. *)
Lemma data_step p data size n :
  ready p (size + n) -> Forall is_byte data -> 0 <= size <= zlen data -> 0 <= n -> 0 < size + n ->
  exists ok p', WriteDataBytes data size p = Some (ok, p') /\
    (if ok : bool then ready p' n /\ appended alimit p p' (ztake size data)
     else appended alimit p p' []) /\
    dataCapacity_ p' = dataCapacity_ p /\
    (dataCapacity_ p <= SECUREC_MEM_MAX_LEN -> ok = true).
Proof.
  intros Hr Hb Hs Hn Hpos. pose proof Hr as [Hp Hw Hd Hf].
  destruct (WriteDataBytes_spec p data size) as (ok & p' & E & Hres & Hc & Hok); try done.
  pose proof (wf_write _ _ Hp).
  exists ok, p'. split_and!; [done| |done|intros; apply Hok; lia].
  destruct ok; [|done]. destruct Hres as [Hfit A]. split; [|done].
  eapply ready_appended; [|done|lia]. by rewrite zlen_take by lia.
Qed.

Lemma WriteBuffer_emits data size :
  Forall is_byte data -> 0 < size <= zlen data -> zlen data < 2 ^ 62 ->
  emits alimit (WriteBuffer (Some data) size) (ztake size data ++ zeros (GetPadSize size)).
Proof.
  intros Hb Hs Hz. pose proof (GetPadSize_range size) as Hpad. pose proof (GetPadSize_aligned size) as Hal.
  assert (u64 (size + GetPadSize size) = size + GetPadSize size) as Hu by (apply wrapU_small; lia).
  unfold WriteBuffer. destruct (Z.eqb_spec size 0); [lia|]. rewrite Hu.
  destruct (Z.ltb_spec (size + GetPadSize size) size); [lia|].
  destruct (Z.ltb_spec (size + GetPadSize size) (GetPadSize size)); [lia|]. simpl.
  assert (zlen (ztake size data ++ zeros (GetPadSize size)) = size + GetPadSize size) as Hzl.
  { rewrite zlen_app, zlen_take, zlen_zeros by lia. done. }
  apply ensure_emits; [done|lia|]. intros p Hr. rewrite Hzl in Hr.
  destruct (data_step p data size (GetPadSize size)) as (ok & p1 & E & Hres & Hc & Hok); try done; try lia.
  rewrite (pm_bind_eq _ _ _ _ _ E). destruct ok; [|by exists false, p1, []; eauto].
  destruct Hres as [Hr1 A1].
  destruct (pad_step p1 (GetPadSize size)) as (p2 & E2 & A2); [done|lia| |].
  { rewrite (appended_cursor p p1 (ztake size data)) by (done || apply Hr). rewrite zlen_take by lia.
    pose proof (wf_write _ _ (rdy_wf _ _ Hr)). Z.to_euclidean_division_equations; lia. }
  exists true, p2, (ztake size data ++ zeros (GetPadSize size)).
  split_and!; [done|by eapply appended_trans|done|done].
Qed.

Lemma terminator_take typeSize :
  0 <= typeSize <= 4 -> ztake typeSize [0; 0; 0; 0] = zeros typeSize.
Proof.
  intros. assert (typeSize = 0 \/ typeSize = 1 \/ typeSize = 2 \/ typeSize = 3 \/ typeSize = 4)
    as [->|[->|[->|[->| ->]]]] by lia; done.
Qed.

Lemma WriteBufferAddTerminator_emits data size typeSize :
  Forall is_byte data -> 0 < typeSize <= 4 -> typeSize <= size -> size - typeSize <= zlen data ->
  zlen data < 2 ^ 62 ->
  emits alimit (WriteBufferAddTerminator (Some data) size typeSize)
    (ztake (size - typeSize) data ++ zeros typeSize ++ zeros (GetPadSize size)).
Proof.
  intros Hb Ht Hs Hd Hz. pose proof (GetPadSize_range size) as Hpad. pose proof (GetPadSize_aligned size) as Hal.
  assert (u64 (size + GetPadSize size) = size + GetPadSize size) as Hu by (apply wrapU_small; lia).
  unfold WriteBufferAddTerminator. destruct (Z.eqb_spec typeSize 0); [lia|].
  destruct (Z.ltb_spec size typeSize); [lia|]. simpl. rewrite Hu.
  destruct (Z.ltb_spec (size + GetPadSize size) size); [lia|].
  destruct (Z.ltb_spec (size + GetPadSize size) (GetPadSize size)); [lia|]. simpl.
  destruct (Z.ltb_spec 4 typeSize); [lia|].
  set (b1 := ztake (size - typeSize) data).
  assert (zlen b1 = size - typeSize) as Hz1 by (apply zlen_take; lia).
  assert (zlen (b1 ++ zeros typeSize ++ zeros (GetPadSize size)) = size + GetPadSize size) as Hzl.
  { rewrite !zlen_app, !zlen_zeros by lia. lia. }
  apply ensure_emits; [done|lia|]. intros p Hr. rewrite Hzl in Hr.
  pose proof (wf_write _ _ (rdy_wf _ _ Hr)) as Hwr.
  destruct (data_step p data (size - typeSize) (typeSize + GetPadSize size))
    as (ok & p1 & E & Hres & Hc & Hok); try done; try lia.
  { by replace (size - typeSize + (typeSize + GetPadSize size)) with (size + GetPadSize size) by lia. }
  rewrite (pm_bind_eq _ _ _ _ _ E). destruct ok; [|by exists false, p1, []; eauto].
  destruct Hres as [Hr1 A1].
  destruct (data_step p1 [0; 0; 0; 0] typeSize (GetPadSize size))
    as (ok & p2 & E2 & Hres & Hc2 & Hok2); try done; try lia.
  { repeat constructor; apply is_byte_0. }
  { unfold zlen. simpl. lia. }
  rewrite (pm_bind_eq _ _ _ _ _ E2). rewrite Hc in Hok2.
  destruct ok; [|exists false, p2, (b1 ++ []); split_and!; [done|by eapply appended_trans|done|auto]].
  destruct Hres as [Hr2 A2]. rewrite terminator_take in A2 by lia.
  destruct (pad_step p2 (GetPadSize size)) as (p3 & E3 & A3); [done|lia| |].
  { rewrite (appended_cursor p1 p2 (zeros typeSize)) by (done || apply Hr1).
    rewrite (appended_cursor p p1 b1) by (done || apply Hr). rewrite zlen_zeros by lia.
    fold b1 in A1. Z.to_euclidean_division_equations; lia. }
  exists true, p3, (b1 ++ zeros typeSize ++ zeros (GetPadSize size)).
  split_and!; [done| |done|done].
  eapply appended_trans; [done|]. by eapply appended_trans.
Qed.

(** ** Object offsets *)

Lemma EnsureObjectsCapacity_spec p :
  parcel_wf alimit p ->
  exists ok p', EnsureObjectsCapacity p = Some (ok, p') /\ parcel_wf alimit p' /\
    (ok = true -> objectCursor_ p' < objectsCapacity_ p') /\
    objects p' = objects p /\ dataSize_ p' = dataSize_ p /\ writable_ p' = writable_ p.
Proof.
  intros Hp. pose proof (wf_objcur _ _ Hp) as Hoc. pose proof (wf_objs _ _ Hp) as Hob.
  pose proof heap_limit_range as Hheap.
  unfold EnsureObjectsCapacity.
  assert (u64 (objectsCapacity_ p - objectCursor_ p) = objectsCapacity_ p - objectCursor_ p) as ->
    by (apply wrapU_small; lia).
  destruct (Z.leb_spec 1 (objectsCapacity_ p - objectCursor_ p)).
  { exists true, p. split_and!; try done. lia. }
  destruct (wf_alloc _ _ Hp) as (a & -> & _).
  assert (u64 ((objectsCapacity_ p + 2) * 3) = (objectsCapacity_ p + 2) * 3) as ->
    by (apply wrapU_small; lia).
  set (nc := (objectsCapacity_ p + 2) * 3 / 2).
  assert (objectsCapacity_ p < nc) by (unfold nc; Z.to_euclidean_division_equations; lia).
  unfold libc_realloc. destruct (Z.leb_spec (nc * 8) heap_limit).
  2:{ exists false, p. done. }
  assert (objects (set_objects p (Some (resize_block (default [] (objectOffsets_ p)) nc))
                     (nextObjectIdx_ p) (objectCursor_ p) nc) = objects p) as Hobj.
  { unfold objects. simpl. rewrite resize_block_prefix; [done|lia|lia]. }
  eexists true, _. split; [done|]. simpl. split_and!; try done; [|lia].
  pose proof Hp as []. split; try done; simpl; try (rewrite Hobj; done); [|lia].
  rewrite resize_block_zlen; [done|lia].
Qed.

Lemma ztake_zset (o o' : list Z) i x :
  zset o i x = Some o' -> ztake (i + 1) o' = ztake i o ++ [x].
Proof.
  unfold zset. destruct (Z.leb_spec 0 i), (Z.ltb_spec i (zlen o)); simpl; try done.
  intros [= <-]. unfold ztake, zlen in *.
  rewrite Z2Nat.inj_add by lia. change (Z.to_nat 1) with 1%nat. rewrite Nat.add_1_r.
  rewrite (take_S_r _ _ x) by (apply list_lookup_insert_eq; lia).
  f_equal. by rewrite take_insert_ge by lia.
Qed.

Lemma WriteObjectOffset_spec p off :
  parcel_wf alimit p -> 0 <= off < 2 ^ 64 -> objectCursor_ p < objectsCapacity_ p ->
  exists ok p', WriteObjectOffset off p = Some (ok, p') /\ parcel_wf alimit p' /\
    objects p' = (if ok : bool then objects p ++ [off] else objects p).
Proof.
  intros Hp Ho Hroom. pose proof (wf_objcur _ _ Hp) as Hoc. pose proof (wf_objs _ _ Hp) as Hob.
  pose proof (wf_size _ _ Hp). pose proof (wf_cap _ _ Hp).
  unfold WriteObjectOffset. destruct (Z.ltb_spec (dataSize_ p) off); [by exists false, p|].
  destruct (existsb (Z.eqb off) (objects p)); [by exists false, p|].
  destruct (objectOffsets_ p) as [o|] eqn:Eo; simpl in Hob; [|rewrite zlen_nil in Hob; lia].
  simpl. destruct (zset o (objectCursor_ p) off) as [o'|] eqn:Ez.
  2:{ exfalso. revert Ez. unfold zset. destruct (Z.leb_spec 0 (objectCursor_ p)), (Z.ltb_spec (objectCursor_ p) (zlen o)); simpl; done || lia. }
  pose proof (ztake_zset _ _ _ _ Ez) as Htk. apply zset_Some in Ez as [_ Ez].
  simpl. assert (u64 (objectCursor_ p + 1) = objectCursor_ p + 1) as -> by (apply wrapU_small; lia).
  assert (objects (set_objects p (Some o') (nextObjectIdx_ p) (objectCursor_ p + 1) (objectsCapacity_ p))
          = objects p ++ [off]) as Hobj.
  { unfold objects. simpl. by rewrite Eo, Htk. }
  eexists true, _. split; [done|]. split; [|done].
  pose proof Hp as []. split; try done; simpl; try lia.
  rewrite Hobj. apply Forall_app. split; [done|]. constructor; [lia|done].
Qed.

Lemma InjectOffsets_safe offsets n :
  match offsets with
  | Some o => n <= zlen o /\ Forall (fun x => 0 <= x < 2 ^ 64) o
  | None => True
  end -> safe alimit (InjectOffsets offsets n).
Proof.
  intros Ho. unfold InjectOffsets. destruct offsets as [o|]; [|apply safe_ret].
  destruct Ho as [Hn Ho]. destruct (Z.leb_spec n 0); [apply safe_ret|].
  destruct (Z.ltb_spec (zlen o) n); [lia|].
  assert (Forall (fun x => 0 <= x < 2 ^ 64) (ztake n o)) as Hl by auto with zlist.
  induction Hl as [|off l Hoff Hl IH]; [apply safe_ret|]. intros p Hp.
  destruct (EnsureObjectsCapacity_spec p Hp) as (ok & p1 & E1 & Hp1 & Hroom & _).
  simpl. rewrite (pm_bind_eq _ _ _ _ _ E1). destruct ok.
  - destruct (WriteObjectOffset_spec p1 off Hp1) as (ok & p2 & E2 & Hp2 & _); [done|auto|].
    rewrite (pm_bind_eq _ _ _ _ _ E2). by apply IH.
  - by apply IH.
Qed.

Lemma ClearObjects_wf p : parcel_wf alimit p -> parcel_wf alimit (ClearObjects p).
Proof. intros []. split; simpl; done || lia. Qed.

(** ** Reads *)

Lemma pass_objects_bound rp ub l n : pass_objects rp ub l = Some n -> 0 <= n <= zlen l.
Proof.
  revert n. induction l as [|off l IH]; intros n; simpl.
  - intros [= <-]. pose proof (zlen_nonneg (@nil Z)). lia.
  - rewrite zlen_cons. pose proof (zlen_nonneg l). repeat case_match; try done.
    + destruct (pass_objects rp ub l); simpl; [|done]. intros [= <-]. specialize (IH _ eq_refl). lia.
    + intros [= <-]. lia.
Qed.

Lemma zlen_objects p : parcel_wf alimit p -> zlen (objects p) = objectCursor_ p.
Proof.
  intros Hp. pose proof (wf_objcur _ _ Hp). pose proof (wf_objs _ _ Hp).
  unfold objects. apply zlen_take. lia.
Qed.

Definition set_next (p : Parcel) (n : Z) : Parcel :=
  set_objects p (objectOffsets_ p) n (objectCursor_ p) (objectsCapacity_ p).

Lemma set_next_wf p n :
  parcel_wf alimit p -> 0 <= n <= objectCursor_ p -> parcel_wf alimit (set_next p n).
Proof. intros [] Hn. by split. Qed.

Lemma set_next_same p : set_next p (nextObjectIdx_ p) = p.
Proof. by destruct p. Qed.

Lemma set_read_wf p n : parcel_wf alimit p -> 0 <= n < 2 ^ 64 -> parcel_wf alimit (set_read p n).
Proof. intros [] Hn. by split. Qed.

(** The object check changes nothing but the index of the next object. *)
Lemma ValidateReadData_spec p ub :
  parcel_wf alimit p ->
  exists ok n, ValidateReadData ub p = Some (ok, set_next p n) /\ parcel_wf alimit (set_next p n).
Proof.
  intros Hp. pose proof (wf_next _ _ Hp) as Hn.
  assert (forall ok : bool, exists (ok' : bool) n, Some (ok, p) = Some (ok', set_next p n) /\ parcel_wf alimit (set_next p n)) as Hstay.
  { intros ok. exists ok, (nextObjectIdx_ p). by rewrite set_next_same. }
  unfold ValidateReadData. destruct PARCEL_OBJECT_CHECK; [|apply Hstay].
  destruct (objectOffsets_ p) eqn:Eo; [|apply Hstay].
  destruct (objectCursor_ p =? 0); [apply Hstay|].
  destruct (pass_objects _ _ _) as [n|] eqn:En; [|apply Hstay].
  apply pass_objects_bound in En. rewrite zlen_drop in En by (rewrite zlen_objects by done; lia).
  rewrite zlen_objects in En by done.
  exists true, (nextObjectIdx_ p + n). unfold set_next at 1. rewrite Eo. split; [done|].
  apply set_next_wf; [done|lia].
Qed.

Definition no_objects (p : Parcel) : Prop :=
  PARCEL_OBJECT_CHECK = true -> objectCursor_ p = 0.

Lemma ValidateReadData_none p ub : no_objects p -> ValidateReadData ub p = Some (true, p).
Proof.
  unfold no_objects, ValidateReadData. intros Hn. destruct PARCEL_OBJECT_CHECK; [|done].
  rewrite Hn by done. by destruct (objectOffsets_ p).
Qed.

(** The bytes between the read cursor and the end of the data. *)
Definition unread (p : Parcel) : list Z := zdrop (readCursor_ p) (content p).

Lemma zlen_content p : parcel_wf alimit p -> zlen (content p) = dataSize_ p.
Proof.
  intros Hp. destruct (wf_block p Hp) as [Hz _]. pose proof (wf_size _ _ Hp).
  unfold content. apply zlen_take. lia.
Qed.

Lemma zlen_unread p : parcel_wf alimit p -> zlen (unread p) = GetReadableBytes p.
Proof.
  intros Hp. rewrite GetReadableBytes_eq. unfold unread.
  pose proof (zlen_content p Hp) as Hz. pose proof (wf_read _ _ Hp).
  destruct (Z.le_gt_cases (readCursor_ p) (dataSize_ p)).
  - rewrite zlen_drop by lia. lia.
  - rewrite zdrop_ge by lia. rewrite zlen_nil. lia.
Qed.

Lemma unread_advance p n :
  parcel_wf alimit p -> 0 <= n -> unread (set_read p (readCursor_ p + n)) = zdrop n (unread p).
Proof.
  intros Hp Hn. pose proof (wf_read _ _ Hp). unfold unread, content. simpl.
  by rewrite zdrop_zdrop by lia.
Qed.

Lemma load_unread p size :
  parcel_wf alimit p -> 0 <= size <= GetReadableBytes p -> 0 < size \/ is_Some (data_ p) ->
  (d ← data_ p; mem_load d (readCursor_ p) size) = Some (ztake size (unread p)) \/
  (size = 0 /\ dataSize_ p < readCursor_ p).
Proof.
  intros Hp Hs Hpos. rewrite GetReadableBytes_eq in Hs.
  pose proof (wf_size _ _ Hp). pose proof (wf_read _ _ Hp). pose proof (wf_data _ _ Hp) as Hd.
  destruct (Z.le_gt_cases (readCursor_ p) (dataSize_ p)); [left|right; lia].
  unfold unread, content. destruct (data_ p) as [d|].
  - simpl. destruct Hd as [Hz _]. rewrite mem_load_ok by lia. f_equal.
    rewrite !ztake_zdrop_comm by lia. rewrite ztake_ztake. f_equal. f_equal. lia.
  - destruct Hpos as [?|[? ?]]; [lia|done].
Qed.

(** [reads m bs a]: on a parcel whose unread bytes start with [bs], [m]
    returns [a], moves the read cursor past them and changes nothing else. *)
Definition reads {A} (m : PM A) (bs : list Z) (a : A) : Prop :=
  forall p rest, parcel_wf alimit p -> no_objects p -> unread p = bs ++ rest ->
    m p = Some (a, set_read p (readCursor_ p + zlen bs)).

Lemma reads_cursor p bs rest :
  parcel_wf alimit p -> unread p = bs ++ rest ->
  0 <= readCursor_ p + zlen bs < 2 ^ 64 /\ zlen bs <= GetReadableBytes p.
Proof.
  intros Hp Hu. rewrite <- zlen_unread by done. rewrite Hu, zlen_app.
  pose proof (zlen_nonneg bs). pose proof (zlen_nonneg rest).
  pose proof (zlen_unread p Hp) as Hz. rewrite Hu, zlen_app, GetReadableBytes_eq in Hz.
  pose proof (wf_read _ _ Hp). pose proof (wf_size _ _ Hp). pose proof (wf_cap _ _ Hp). lia.
Qed.

Lemma reads_state p bs rest :
  parcel_wf alimit p -> no_objects p -> unread p = bs ++ rest ->
  let p' := set_read p (readCursor_ p + zlen bs) in
  parcel_wf alimit p' /\ no_objects p' /\ unread p' = rest.
Proof.
  intros Hp Hn Hu p'. destruct (reads_cursor p bs rest Hp Hu).
  split_and!; [by apply set_read_wf|done|]. unfold p'.
  rewrite unread_advance by (done || apply zlen_nonneg). rewrite Hu. apply zdrop_app_exact.
Qed.

Lemma reads_ret {A} (a : A) : reads (mret a) [] a.
Proof. intros p rest _ _ _. rewrite zlen_nil, Z.add_0_r. by destruct p. Qed.

Lemma reads_bind {A B} (m : PM A) (f : A -> PM B) b1 b2 a b :
  reads m b1 a -> reads (f a) b2 b -> reads (x ← m; f x) (b1 ++ b2) b.
Proof.
  intros Hm Hf p rest Hp Hn Hu. rewrite <- app_assoc in Hu.
  rewrite (pm_bind_eq _ _ _ _ _ (Hm p _ Hp Hn Hu)).
  destruct (reads_state p b1 _ Hp Hn Hu) as (Hp1 & Hn1 & Hu1).
  rewrite (Hf _ _ Hp1 Hn1 Hu1). rewrite zlen_app. simpl. by rewrite Z.add_assoc.
Qed.

(** A pure function of the result. *)
Lemma reads_map {A B} (m : PM A) (f : A -> B) bs a :
  reads m bs a -> reads (x ← m; mret (f x)) bs (f a).
Proof.
  intros Hm. rewrite <- (app_nil_r bs).
  apply (reads_bind m (fun x => mret (f x)) _ _ a); [done|apply reads_ret].
Qed.

Lemma SkipBytes_reads bs : reads (SkipBytes (zlen bs)) bs tt.
Proof.
  intros p rest Hp Hn Hu. destruct (reads_cursor p bs rest Hp Hu) as [Hc Hr].
  unfold SkipBytes. destruct (Z.leb_spec (zlen bs) (GetReadableBytes p)); [|lia].
  unfold u64. by rewrite wrapU_small by lia.
Qed.

Lemma SkipBytes_safe n : 0 <= n -> safe alimit (SkipBytes n).
Proof.
  intros Hn p Hp. pose proof (wf_cap _ _ Hp). pose proof (wf_size _ _ Hp). unfold SkipBytes.
  destruct (_ <=? _); [|destruct (_ <? _)]; eexists _, _; (split; [done|]); [|..|done];
    apply set_read_wf; try done; [apply wrapU_range|]; lia.
Qed.

Lemma move_read_safe n : safe alimit (move_read n).
Proof.
  intros p Hp. eexists _, _. split; [done|]. apply set_read_wf; [done|]. by apply wrapU_range.
Qed.

Lemma ValidateReadData_safe ub : safe alimit (ValidateReadData ub).
Proof. intros p Hp. destruct (ValidateReadData_spec p ub Hp) as (ok & n & E & Hp'). by exists ok, (set_next p n). Qed.

Lemma read_word_reads bs : 0 < zlen bs -> reads (read_word (zlen bs)) bs (Some bs).
Proof.
  intros Hz p rest Hp Hn Hu. destruct (reads_cursor p bs rest Hp Hu) as [Hc Hr].
  unfold read_word. rewrite (pm_bind_eq _ _ p p p) by done.
  destruct (Z.leb_spec (zlen bs) (GetReadableBytes p)); [|lia].
  rewrite (pm_bind_eq _ _ _ _ _ (ValidateReadData_none p _ Hn)).
  unfold move_read, pm_put, mbind, pm_bind, u64. rewrite wrapU_small by lia.
  unfold pm_access. simpl.
  destruct (load_unread p (zlen bs) Hp) as [E|[? _]]; [pose proof (zlen_nonneg bs); lia|auto| |lia].
  unfold mbind in E. rewrite E. unfold mret, pm_ret.
  by rewrite Hu, ztake_app_exact.
Qed.

(** A typed read never leaves the block, whatever the cursors are. *)
Lemma read_word_safe size : 0 < size -> safe alimit (read_word size).
Proof.
  intros Hs p Hp. unfold read_word. rewrite (pm_bind_eq _ _ p p p) by done.
  destruct (Z.leb_spec size (GetReadableBytes p)); [|by exists None, p].
  destruct (ValidateReadData_spec p (u64 (readCursor_ p + size)) Hp) as (ok & n & E & Hp').
  rewrite (pm_bind_eq _ _ _ _ _ E). destruct ok.
  - unfold move_read, pm_put, mbind, pm_bind, pm_access. simpl.
    destruct (load_unread p size Hp) as [E'|[? _]]; [lia|auto| |lia].
    unfold mbind in E'. rewrite E'. eexists _, _. split; [done|].
    apply set_read_wf; [done|]. by apply wrapU_range.
  - apply (safe_bind (move_read size) (fun _ => mret None)); [apply move_read_safe|intros; apply safe_ret|done].
Qed.

(** A buffer read returns null or the read cursor, and then the whole
    buffer is readable. *)
Definition buffer_read (m : PM (option Z)) (length : Z) : Prop :=
  forall p, parcel_wf alimit p -> exists r p', m p = Some (r, p') /\ parcel_wf alimit p' /\
    data_ p' = data_ p /\
    match r with Some off => off = readCursor_ p /\ length <= GetReadableBytes p | None => True end.

Lemma move_read_wf p n :
  parcel_wf alimit p -> parcel_wf alimit (set_read p (u64 (readCursor_ p + n))).
Proof. intros Hp. apply set_read_wf; [done|]. by apply wrapU_range. Qed.

Ltac buffer_case p ub Hp :=
  let ok := fresh "ok" in let n := fresh "n" in let E := fresh "E" in let Hp' := fresh "Hp" in
  destruct (ValidateReadData_spec p ub Hp) as (ok & n & E & Hp');
  rewrite (pm_bind_eq _ _ _ _ _ E);
  destruct ok; eexists _, _; (split; [done|]); split_and!; try done; by apply move_read_wf.

Lemma ReadBuffer_spec n : buffer_read (ReadBuffer n) n.
Proof.
  intros p Hp. unfold ReadBuffer. rewrite (pm_bind_eq _ _ p p p) by done.
  destruct (Z.leb_spec n (GetReadableBytes p)); [|by exists None, p].
  buffer_case p (u64 (readCursor_ p + n)) Hp.
Qed.

Lemma BasicReadBuffer_spec n : buffer_read (BasicReadBuffer n) n.
Proof.
  intros p Hp. unfold BasicReadBuffer. rewrite (pm_bind_eq _ _ p p p) by done.
  destruct PARCEL_OBJECT_CHECK; simpl; [|by exists None, p].
  destruct (Z.leb_spec n (GetReadableBytes p)); [|by exists None, p].
  buffer_case p (u64 (readCursor_ p + n)) Hp.
Qed.

Lemma ReadBuffer_validate_spec n v : buffer_read (ReadBuffer_validate n v) n.
Proof.
  intros p Hp. unfold ReadBuffer_validate. rewrite (pm_bind_eq _ _ p p p) by done.
  destruct (Z.leb_spec n (GetReadableBytes p)); [|by exists None, p].
  destruct (PARCEL_OBJECT_CHECK && v); [buffer_case p (u64 (readCursor_ p + n)) Hp|].
  eexists _, _. split; [done|]. split_and!; try done. by apply move_read_wf.
Qed.

Lemma buffer_read_safe m n : buffer_read m n -> safe alimit m.
Proof. intros Hm p Hp. destruct (Hm p Hp) as (r & p' & E & Hp' & _). by exists r, p'. Qed.

Lemma ReadUnpadBuffer_spec n : 0 <= n < 2 ^ 64 -> buffer_read (ReadUnpadBuffer n) n.
Proof.
  intros Hn p Hp. unfold ReadUnpadBuffer. rewrite (pm_bind_eq _ _ p p p) by done.
  destruct (Z.leb_spec n (GetReadableBytes p)); [|by exists None, p].
  destruct (ValidateReadData_spec p (u64 (readCursor_ p + n)) Hp) as (ok & k & E & Hp1).
  rewrite (pm_bind_eq _ _ _ _ _ E). destruct ok; [|by eexists None, _].
  pose proof (move_read_wf _ n Hp1) as Hp2.
  unfold move_read, pm_put. rewrite (pm_bind_eq _ _ _ tt _ eq_refl).
  destruct (SkipBytes_safe (GetPadSize n) (proj1 (GetPadSize_range n Hn)) _ Hp2) as ([] & p3 & E3 & Hp3).
  rewrite (pm_bind_eq _ _ _ _ _ E3). eexists _, _. split; [done|]. split_and!; try done.
  unfold SkipBytes in E3. repeat case_match; by simplify_eq.
Qed.

Lemma get_safe {A} (f : Parcel -> A) : safe alimit (pm_get f).
Proof. intros p Hp. by exists (f p), p. Qed.
End inv.

#[export] Hint Resolve safe_ret safe_bind SkipBytes_safe move_read_safe ValidateReadData_safe
  get_safe : parcel.

(** [psafe] proves that an operation built from safe ones is safe. *)
Ltac psafe :=
  repeat match goal with
  | |- safe _ (mbind _ _) => apply safe_bind; [|intros ?]
  | |- safe _ (if ?b then _ else _) => apply safe_if; intros ?
  | |- safe _ (match ?x with Some _ => _ | None => _ end) => destruct x
  | |- safe _ (mret _) => apply safe_ret
  end; eauto with parcel.
