(* ===== verification/ParcelTyped.v ===== *)
(** * ParcelTyped: the typed reads and writes of a parcel

    Models the primitive-type methods of [class Parcel] (base/src/parcel.cpp):
    the templates [Write<T>], [Read<T>] and [ReadPadded<T>] and every method
    that instantiates them.  A value of a C++ type is the integer it denotes;
    a [float] or [double] is its bit pattern. *)

From S2P Require Import Prelude Parcel ParcelInv.
Open Scope Z_scope.

(** ** C++ scalar types *)

Inductive ctype :=
  | CBool | CInt8 | CInt16 | CInt32 | CInt64
  | CUint8 | CUint16 | CUint32 | CUint64 | CFloat | CDouble.

#[export] Instance ctype_eq_dec : EqDecision ctype.
Proof. solve_decision. Defined.

(** [sizeof] *)
Definition csize (t : ctype) : nat :=
  match t with
  | CBool | CInt8 | CUint8 => 1
  | CInt16 | CUint16 => 2
  | CInt32 | CUint32 | CFloat => 4
  | CInt64 | CUint64 | CDouble => 8
  end.

(** [static_cast<T>] from an integer. *)
Definition cast (t : ctype) (z : Z) : Z :=
  match t with
  | CBool => if z =? 0 then 0 else 1
  | CInt8 => i8 z | CInt16 => i16 z | CInt32 => i32 z | CInt64 => i64 z
  | CUint8 => u8 z | CUint16 => u16 z | CUint32 | CFloat => u32 z | CUint64 | CDouble => u64 z
  end.

(** The values of a type. *)
Definition has_ctype (t : ctype) (v : Z) : Prop := cast t v = v.
#[export] Instance has_ctype_dec t v : Decision (has_ctype t v).
Proof. unfold has_ctype. apply _. Defined.

(** The object representation of a value and the value it denotes. *)
Definition cbytes (t : ctype) (v : Z) : list Z := le_bytes (csize t) v.
Definition cval (t : ctype) (bytes : list Z) : Z := cast t (le_val bytes).

Section typed.
Context `{Libc} `{Securec} `{ParcelConfig}.

(** ** The templates *)

Definition Write (t : ctype) (value : Z) : PM bool := write_word (cbytes t value).

(** [bool Read(T &value)]: [None] is a false result with [value] untouched. *)
Definition Read_ref (t : ctype) : PM (option Z) :=
  bytes ← read_word (Z.of_nat (csize t));
  mret (cval t <$> bytes).

(** [T Read()] *)
Definition Read (t : ctype) : PM Z :=
  r ← Read_ref t;
  mret (default 0 r).

Definition ReadPadded (t : ctype) : PM (option Z) :=
  r ← Read_ref CInt32;
  mret (cast t <$> r).

(** ** Writes *)

Definition WriteBool (value : Z) : PM bool := Write CInt32 (cast CInt32 value).
Definition WriteBoolUnaligned (value : Z) : PM bool := Write CBool value.
Definition WriteInt8 (value : Z) : PM bool := Write CInt32 (cast CInt32 value).
Definition WriteInt8Unaligned (value : Z) : PM bool := Write CInt8 value.
Definition WriteInt16 (value : Z) : PM bool := Write CInt32 (cast CInt32 value).
Definition WriteInt16Unaligned (value : Z) : PM bool := Write CInt16 value.
Definition WriteInt32 (value : Z) : PM bool := Write CInt32 value.
Definition WriteInt64 (value : Z) : PM bool := Write CInt64 value.
Definition WriteUint8 (value : Z) : PM bool := Write CUint32 (cast CUint32 value).
Definition WriteUint8Unaligned (value : Z) : PM bool := Write CUint8 value.
Definition WriteUint16 (value : Z) : PM bool := Write CUint32 (cast CUint32 value).
Definition WriteUint16Unaligned (value : Z) : PM bool := Write CUint16 value.
Definition WriteUint32 (value : Z) : PM bool := Write CUint32 value.
Definition WriteUint64 (value : Z) : PM bool := Write CUint64 value.
Definition WriteFloat (value : Z) : PM bool := Write CFloat value.
Definition WriteDouble (value : Z) : PM bool := Write CDouble value.
Definition WritePointer (value : Z) : PM bool := Write CUint64 value.

(** ** Reads that return the value *)

Definition ReadBool : PM Z :=
  temp ← Read CInt32; mret (if temp =? 0 then 0 else 1).
Definition ReadBoolUnaligned : PM Z := Read CBool.
Definition ReadInt8 : PM Z := temp ← Read CInt32; mret (cast CInt8 temp).
Definition ReadInt16 : PM Z := temp ← Read CInt32; mret (cast CInt16 temp).
Definition ReadInt32 : PM Z := Read CInt32.
Definition ReadInt64 : PM Z := Read CInt64.
Definition ReadUint8 : PM Z := temp ← Read CUint32; mret (cast CUint8 temp).
Definition ReadUint16 : PM Z := temp ← Read CUint32; mret (cast CUint16 temp).
Definition ReadUint32 : PM Z := Read CUint32.
Definition ReadUint64 : PM Z := Read CUint64.
Definition ReadFloat : PM Z := Read CFloat.
Definition ReadDouble : PM Z := Read CDouble.
Definition ReadPointer : PM Z := Read CUint64.

(** ** Reads into a reference *)

Definition ReadBool_ref : PM (option Z) := ReadPadded CBool.
Definition ReadInt8_ref : PM (option Z) := ReadPadded CInt8.
Definition ReadInt8Unaligned : PM (option Z) := Read_ref CInt8.
Definition ReadInt16_ref : PM (option Z) := ReadPadded CInt16.
Definition ReadInt16Unaligned : PM (option Z) := Read_ref CInt16.
Definition ReadInt32_ref : PM (option Z) := Read_ref CInt32.
Definition ReadInt64_ref : PM (option Z) := Read_ref CInt64.
Definition ReadUint8_ref : PM (option Z) := ReadPadded CUint8.
Definition ReadUint8Unaligned : PM (option Z) := Read_ref CUint8.
Definition ReadUint16_ref : PM (option Z) := ReadPadded CUint16.
Definition ReadUint16Unaligned : PM (option Z) := Read_ref CUint16.
Definition ReadUint32_ref : PM (option Z) := Read_ref CUint32.
Definition ReadUint64_ref : PM (option Z) := Read_ref CUint64.
Definition ReadFloat_ref : PM (option Z) := Read_ref CFloat.
Definition ReadDouble_ref : PM (option Z) := Read_ref CDouble.
End typed.

(** ** Representation lemmas *)

Lemma csize_pos t : 0 < Z.of_nat (csize t) < 2 ^ 63.
Proof. destruct t; simpl; lia. Qed.

Lemma zlen_cbytes t v : zlen (cbytes t v) = Z.of_nat (csize t).
Proof. apply zlen_le_bytes. Qed.

Lemma cbytes_byte t v : Forall is_byte (cbytes t v).
Proof. apply le_bytes_byte. Qed.

Lemma pow256_pow2 n : 256 ^ Z.of_nat n = 2 ^ (8 * Z.of_nat n).
Proof. rewrite Z.pow_mul_r by lia. done. Qed.

(** Reading back the representation of a value of a type gives the value. *)
Lemma cval_cbytes t v : has_ctype t v -> cval t (cbytes t v) = v.
Proof.
  unfold has_ctype, cval, cbytes. intros Hv. rewrite le_val_le_bytes, pow256_pow2.
  assert (Hs : forall w, 0 <= w -> wrapS w (v mod 2 ^ w) = wrapS w v) by (intros; by apply wrapS_wrapU).
  assert (Hu : forall w, wrapU w (v mod 2 ^ w) = wrapU w v) by (intros; apply wrapU_wrapU).
  destruct t; simpl in Hv |- *; try (rewrite <- Hv at 2; apply Hs; lia);
    try (rewrite <- Hv at 2; apply Hu).
  case_match; zb; [by subst v|by rewrite <- Hv].
Qed.

Lemma has_ctype_cast t v : has_ctype t (cast t v).
Proof.
  unfold has_ctype. destruct t; simpl; try apply wrapU_wrapU; try (by destruct (v =? 0));
    apply wrapS_small; try lia; by apply wrapS_range.
Qed.

(** Widening to the 32-bit slot of a narrow type and back is lossless. *)
Lemma cast_narrow t v :
  t = CBool \/ t = CInt8 \/ t = CInt16 -> has_ctype t v -> has_ctype CInt32 v.
Proof.
  unfold has_ctype. intros Ht Hv. rewrite <- Hv.
  destruct Ht as [->|[->| ->]]; simpl cast; apply wrapS_small; try lia.
  - case_match; lia.
  - pose proof (wrapS_range 8 v). unfold i8. lia.
  - pose proof (wrapS_range 16 v). unfold i16. lia.
Qed.

Lemma cast_narrow_unsigned t v :
  t = CUint8 \/ t = CUint16 -> has_ctype t v -> has_ctype CUint32 v.
Proof.
  unfold has_ctype. intros Ht Hv. rewrite <- Hv.
  destruct Ht as [->| ->]; simpl cast; apply wrapU_small.
  - pose proof (wrapU_range 8 v). unfold u8. lia.
  - pose proof (wrapU_range 16 v). unfold u16. lia.
Qed.

Section typed_facts.
Context `{LibcOk} `{SecurecOk} `{ParcelConfig} (alimit : Z).

Lemma Write_emits t v : emits alimit (Write t v) (cbytes t v).
Proof.
  apply write_word_emits; [apply cbytes_byte|]. rewrite zlen_cbytes. apply csize_pos.
Qed.

Lemma Read_ref_reads t v : has_ctype t v -> reads alimit (Read_ref t) (cbytes t v) (Some v).
Proof.
  intros Hv. rewrite <- (app_nil_r (cbytes t v)).
  apply (reads_bind _ _ _ _ _ (Some (cbytes t v))).
  - rewrite <- (zlen_cbytes t v). apply read_word_reads. rewrite zlen_cbytes. apply csize_pos.
  - simpl. rewrite (cval_cbytes t v Hv). apply reads_ret.
Qed.

Lemma Read_reads t v : has_ctype t v -> reads alimit (Read t) (cbytes t v) v.
Proof.
  intros Hv. rewrite <- (app_nil_r (cbytes t v)).
  eapply reads_bind; [by apply Read_ref_reads|apply reads_ret].
Qed.

(** A narrow value travels in a 32-bit slot. *)
Lemma ReadPadded_reads t v w :
  has_ctype CInt32 w -> cast t w = v -> reads alimit (ReadPadded t) (cbytes CInt32 w) (Some v).
Proof.
  intros Hw <-. rewrite <- (app_nil_r (cbytes CInt32 w)).
  eapply reads_bind; [by apply Read_ref_reads|apply reads_ret].
Qed.

Lemma Read_ref_safe t : safe alimit (Read_ref t).
Proof.
  apply safe_bind; [apply read_word_safe, csize_pos|]. intros. apply safe_ret.
Qed.

Lemma Read_safe t : safe alimit (Read t).
Proof. apply safe_bind; [apply Read_ref_safe|]. intros. apply safe_ret. Qed.

Lemma ReadPadded_safe t : safe alimit (ReadPadded t).
Proof. apply safe_bind; [apply Read_ref_safe|]. intros. apply safe_ret. Qed.

Lemma Write_safe t v : safe alimit (Write t v).
Proof. eapply extends_safe, Write_emits. Qed.
End typed_facts.

#[export] Hint Resolve Read_ref_safe Read_safe ReadPadded_safe Write_safe Write_emits : parcel.
