(* ===== verification/ParcelString.v ===== *)
(** * ParcelString: strings in a parcel

    Models the string methods of [class Parcel] (base/src/parcel.cpp).  A
    [std::string] is the list of its bytes, a [std::u16string] the list of its
    16-bit units; [None] is a string whose [data()] is null.  A C pointer
    argument is the block it points to. *)

From S2P Require Import Prelude Parcel ParcelInv ParcelTyped.
Open Scope Z_scope.

(** ** Characters in memory *)

(** Position of the first zero byte: [strlen] and [memchr(_, 0, n)]. *)
Fixpoint index0 (l : list Z) : option Z :=
  match l with
  | [] => None
  | b :: l' => if b =? 0 then Some 0 else n ← index0 l'; Some (n + 1)
  end.

Definition encode16 (units : list Z) : list Z := units ≫= le_bytes 2.

Fixpoint decode16 (bytes : list Z) : list Z :=
  match bytes with
  | a :: b :: rest => (a + 256 * b) :: decode16 rest
  | _ => []
  end.

Section strings.
Context `{Libc} `{Securec} `{ParcelConfig}.

(** ** Writes *)

Definition WriteCString (value : option (list Z)) : PM bool :=
  match value with
  | None => mret false
  | Some mem =>
    match index0 mem with
    | None => fun _ => None
    | Some len =>
      let dataLength := i32 len in
      if (dataLength <? 0) || (INT32_MAX <=? dataLength) then mret false
      else WriteBuffer (Some mem) ((dataLength + 1) * 1)
    end
  end.

(** [value.data()] points to the characters and a terminating zero. *)
Definition WriteString (value : option (list Z)) : PM bool :=
  match value with
  | None => WriteInt32 (-1)
  | Some s =>
    let dataLength := i32 (zlen s) in
    if (dataLength <? 0) || (INT32_MAX <=? dataLength) then mret false
    else
      let typeSize := 1 in
      let desireCapacity := dataLength + typeSize in
      ok ← Write CInt32 dataLength;
      if (ok : bool) then WriteBufferAddTerminator (Some (s ++ [0])) desireCapacity typeSize
      else mret false
  end.

Definition WriteString16 (value : option (list Z)) : PM bool :=
  match value with
  | None => WriteInt32 (-1)
  | Some s =>
    let dataLength := i32 (zlen s) in
    let typeSize := 2 in
    if (dataLength <? 0) || (INT32_MAX / typeSize - 1 <? dataLength) then mret false
    else
      let desireCapacity := (dataLength + 1) * typeSize in
      ok ← Write CInt32 dataLength;
      if (ok : bool)
      then WriteBufferAddTerminator (Some (encode16 (s ++ [0]))) desireCapacity typeSize
      else mret false
  end.

(** [value] points to at least [len] units, which are copied first. *)
Definition WriteString16WithLength (value : option (list Z)) (len : Z) : PM bool :=
  match value with
  | None => WriteInt32 (-1)
  | Some mem =>
    let dataLength := i32 len in
    let typeSize := 2 in
    if (dataLength <? 0) || (INT32_MAX / typeSize - 1 <? dataLength) then mret false
    else
      let desireCapacity := (dataLength + 1) * typeSize in
      if zlen mem <? len then (fun _ => None)
      else
        let u16str := ztake len mem in
        ok ← Write CInt32 dataLength;
        if (ok : bool)
        then WriteBufferAddTerminator (Some (encode16 (u16str ++ [0]))) desireCapacity typeSize
        else mret false
  end.

Definition WriteString8WithLength (value : option (list Z)) (len : Z) : PM bool :=
  match value with
  | None => WriteInt32 (-1)
  | Some mem =>
    let dataLength := i32 len in
    if (dataLength <? 0) || (INT32_MAX <=? dataLength) then mret false
    else
      let typeSize := 1 in
      let desireCapacity := (dataLength + 1) * typeSize in
      ok ← Write CInt32 dataLength;
      if (ok : bool) then WriteBufferAddTerminator (Some mem) desireCapacity typeSize
      else mret false
  end.

(** ** Reads *)

(** The readable bytes, as [memchr] scans them. *)
Definition readable (p : Parcel) : option (list Z) :=
  if GetReadableBytes p =? 0 then Some []
  else d ← data_ p; mem_load d (readCursor_ p) (GetReadableBytes p).

Definition ReadCString : PM (option Z) :=
  p ← pm_get id;
  cstr ← pm_access readable;
  match index0 cstr with
  | Some dataLength =>
    valid ← ValidateReadData (u64 (readCursor_ p + dataLength + 1));
    if (valid : bool) then
      move_read (dataLength + 1);;
      SkipBytes (GetPadSize (dataLength + 1));;
      mret (Some (readCursor_ p))
    else mret None
  | None => mret None
  end.

(** The block all string readers share once the length is known: the
    characters if they are readable, unguarded by objects and terminated. *)
Definition read_payload (width : Z) (decode : list Z -> list Z) (dataLength : Z)
    : PM (option (list Z)) :=
  p ← pm_get id;
  let readCapacity := u64 ((dataLength + 1) * width) in
  if (dataLength <? readCapacity) && (readCapacity <=? GetReadableBytes p) then
    dest ← (if PARCEL_OBJECT_CHECK then BasicReadBuffer readCapacity else ReadBuffer readCapacity);
    match dest with
    | Some str =>
      SkipBytes (GetPadSize readCapacity);;
      bytes ← pm_access (fun q => d ← data_ q; mem_load d str readCapacity);
      let chars := decode bytes in
      terminator ← pm_access (fun _ => znth chars dataLength);
      if terminator =? 0 then mret (Some (ztake dataLength chars)) else mret None
    | None => mret None
    end
  else mret None.

Definition restore_read (oldCursor : Z) : PM unit := pm_put (fun p => set_read p oldCursor).

(** The common frame: a length that cannot be read or is out of range
    leaves the cursor after it, a bad payload restores the cursor. *)
Definition read_string {A} (width : Z) (decode : list Z -> list Z)
    (no_length : A) (bad_length : Z -> A) (bad : A) (good : Z -> list Z -> A) : PM A :=
  oldCursor ← pm_get readCursor_;
  len ← Read_ref CInt32;
  match len with
  | None => mret no_length
  | Some dataLength =>
    if (dataLength <? 0) || (INT32_MAX <=? dataLength) then mret (bad_length dataLength)
    else
      r ← read_payload width decode dataLength;
      match r with
      | Some s => mret (good dataLength s)
      | None => restore_read oldCursor;; mret bad
      end
  end.

Definition ReadString : PM (list Z) :=
  read_string 1 id [] (fun _ => []) [] (fun _ s => s).

(** The result and the new [value]. *)
Definition ReadString_ref : PM (bool * list Z) :=
  read_string 1 id (false, []) (fun _ => (false, [])) (false, []) (fun _ s => (true, s)).

Definition ReadString16 : PM (list Z) :=
  read_string 2 decode16 [] (fun _ => []) [] (fun _ s => s).

Definition ReadString16_ref : PM (bool * list Z) :=
  read_string 2 decode16 (false, []) (fun _ => (false, [])) (false, []) (fun _ s => (true, s)).

(** The string and what is stored in [readLength], if anything. *)
Definition ReadString16WithLength : PM (list Z * option Z) :=
  read_string 2 decode16 ([], None) (fun n => ([], Some n)) ([], None) (fun n s => (s, Some n)).

Definition ReadString8WithLength : PM (list Z * option Z) :=
  read_string 1 id ([], None) (fun n => ([], Some n)) ([], None) (fun n s => (s, Some n)).
End strings.

(** ** Encodings *)

(** The bytes of a string of [n] characters: length, characters, terminator
    and padding. *)
Definition string_bytes (width : Z) (n : Z) (chars : list Z) : list Z :=
  cbytes CInt32 n ++ chars ++ zeros width ++ zeros (GetPadSize ((n + 1) * width)).

Definition is_u16 (u : Z) : Prop := 0 <= u < 65536.

Lemma encode16_byte s : Forall is_byte (encode16 s).
Proof.
  unfold encode16. induction s as [|u s IH]; [constructor|]. rewrite bind_cons.
  apply Forall_app. split; [apply le_bytes_byte|done].
Qed.

Lemma zlen_encode16 s : zlen (encode16 s) = zlen s * 2.
Proof.
  unfold encode16. induction s as [|u s IH]; [done|].
  rewrite bind_cons, zlen_app, zlen_le_bytes, IH, zlen_cons. lia.
Qed.

Lemma encode16_app s k : encode16 (s ++ k) = encode16 s ++ encode16 k.
Proof. unfold encode16. by rewrite bind_app. Qed.

Lemma decode16_encode16 s : Forall is_u16 s -> decode16 (encode16 s) = s.
Proof.
  unfold encode16, is_u16. induction 1 as [|u s Hu Hs IH]; [done|].
  rewrite bind_cons. change (le_bytes 2 u) with [u mod 256; (u / 256) mod 256].
  cbn [app decode16]. rewrite IH. f_equal.
  Z.to_euclidean_division_equations; lia.
Qed.

Lemma index0_app s rest : Forall (fun b => b <> 0) s -> index0 (s ++ 0 :: rest) = Some (zlen s).
Proof.
  induction 1 as [|b s Hb Hs IH]; [done|]. simpl. rewrite (proj2 (Z.eqb_neq b 0)) by done.
  rewrite IH. simpl. rewrite zlen_cons. f_equal. lia.
Qed.

Lemma index0_bound l n : index0 l = Some n -> 0 <= n < zlen l.
Proof.
  revert n. induction l as [|b l IH]; simpl; intros n; [done|]. rewrite zlen_cons.
  pose proof (zlen_nonneg l). case_match; [intros [= <-]; lia|].
  destruct (index0 l); simpl; [|done]. intros [= <-]. specialize (IH _ eq_refl). lia.
Qed.

Section string_facts.
Context `{LibcOk} `{SecurecOk} `{ParcelConfig} (alimit : Z).

Lemma i32_small z : 0 <= z <= INT32_MAX -> i32 z = z.
Proof. unfold INT32_MAX. intros. apply wrapS_small; lia. Qed.

Lemma has_int32 z : 0 <= z <= INT32_MAX -> has_ctype CInt32 z.
Proof. apply i32_small. Qed.

(** Writing a length and a terminated character block. *)
Lemma length_block_emits width n mem chars :
  0 < width <= 4 -> 0 <= n < 2 ^ 31 -> Forall is_byte mem -> zlen mem < 2 ^ 62 ->
  n * width <= zlen mem -> ztake (n * width) mem = chars ->
  emits alimit (ok ← Write CInt32 n; if (ok : bool)
                then WriteBufferAddTerminator (Some mem) ((n + 1) * width) width
                else mret false) (string_bytes width n chars).
Proof.
  intros Hw Hn Hb Hz Hfit <-. apply emits_bind; [apply Write_emits|].
  replace (n * width) with ((n + 1) * width - width) by lia.
  apply WriteBufferAddTerminator_emits; try done; nia.
Qed.

Lemma WriteString_emits s :
  Forall is_byte s -> zlen s < INT32_MAX ->
  emits alimit (WriteString (Some s)) (string_bytes 1 (zlen s) s).
Proof.
  intros Hb Hz. unfold INT32_MAX in *. pose proof (zlen_nonneg s).
  unfold WriteString. rewrite i32_small by (unfold INT32_MAX; lia).
  destruct (Z.ltb_spec (zlen s) 0); [lia|]. unfold INT32_MAX.
  destruct (Z.leb_spec (2 ^ 31 - 1) (zlen s)); [lia|]. simpl.
  replace (zlen s + 1) with ((zlen s + 1) * 1) by lia.
  apply length_block_emits; try lia.
  - apply Forall_app. split; [done|]. repeat constructor; lia.
  - rewrite zlen_app, zlen_cons, zlen_nil. lia.
  - rewrite zlen_app, zlen_cons, zlen_nil. lia.
  - rewrite Z.mul_1_r. apply ztake_app_exact.
Qed.

Lemma WriteString16_emits s :
  zlen s <= INT32_MAX / 2 - 1 ->
  emits alimit (WriteString16 (Some s)) (string_bytes 2 (zlen s) (encode16 s)).
Proof.
  intros Hz. change (INT32_MAX / 2 - 1) with 1073741822 in Hz. pose proof (zlen_nonneg s).
  unfold WriteString16. rewrite i32_small by (unfold INT32_MAX; lia).
  change (INT32_MAX / 2 - 1) with 1073741822.
  destruct (Z.ltb_spec (zlen s) 0); [lia|].
  destruct (Z.ltb_spec 1073741822 (zlen s)); [lia|]. simpl.
  assert (zlen (encode16 (s ++ [0])) = zlen s * 2 + 2) as Hze.
  { rewrite zlen_encode16, zlen_app, zlen_cons, zlen_nil. lia. }
  apply length_block_emits; try lia.
  - apply encode16_byte.
  - rewrite encode16_app, <- zlen_encode16. apply ztake_app_exact.
Qed.

(** Reading a terminated payload. *)
Lemma read_payload_reads width decode n chars units :
  0 < width <= 4 -> 0 <= n < 2 ^ 31 -> zlen chars = n * width ->
  decode (chars ++ zeros width) = units ++ [0] -> zlen units = n ->
  reads alimit (read_payload width decode n)
    (chars ++ zeros width ++ zeros (GetPadSize ((n + 1) * width))) (Some units).
Proof.
  intros Hw Hn Hz Hdec Hu p rest Hp Hno Hun.
  set (rc := (n + 1) * width). assert (0 < rc < 2 ^ 34) as Hrc by (unfold rc; nia).
  set (pad := zeros (GetPadSize rc)).
  assert (zlen pad = GetPadSize rc) as Hpad.
  { apply zlen_zeros. pose proof (GetPadSize_range rc). lia. }
  set (blk := chars ++ zeros width).
  assert (zlen blk = rc) as Hblk by (unfold blk, rc; rewrite zlen_app, zlen_zeros by lia; nia).
  assert (unread p = blk ++ pad ++ rest) as Hun' by (unfold blk; by rewrite Hun, <- !app_assoc).
  unfold read_payload. rewrite (pm_bind_eq _ _ p p p) by done. fold rc.
  assert (u64 rc = rc) as -> by (apply wrapU_small; lia).
  destruct (reads_cursor _ _ _ _ Hp Hun') as [Hc Hr]. rewrite Hblk in *.
  destruct (Z.ltb_spec n rc); [|unfold rc in *; nia].
  destruct (Z.leb_spec rc (GetReadableBytes p)); [|lia]. simpl.
  set (p1 := set_read p (readCursor_ p + rc)).
  destruct (reads_state _ _ _ _ Hp Hno Hun') as (Hp1 & Hno1 & Hun1). rewrite Hblk in *. fold p1 in Hp1, Hno1, Hun1.
  assert ((if PARCEL_OBJECT_CHECK then BasicReadBuffer rc else ReadBuffer rc) p
          = Some (Some (readCursor_ p), p1)) as E1.
  { unfold BasicReadBuffer, ReadBuffer.
    destruct PARCEL_OBJECT_CHECK eqn:Ecfg; rewrite (pm_bind_eq _ _ p p p) by done; simpl;
      destruct (Z.leb_spec rc (GetReadableBytes p)); try lia;
      rewrite (pm_bind_eq _ _ _ _ _ (ValidateReadData_none p _ Hno));
      unfold move_read, pm_put, mbind, pm_bind, u64; rewrite wrapU_small by lia; done. }
  rewrite (pm_bind_eq _ _ _ _ _ E1).
  rewrite <- Hpad. rewrite (pm_bind_eq _ _ _ _ _ (SkipBytes_reads _ _ p1 rest Hp1 Hno1 Hun1)).
  assert (pm_access (fun q => d ← data_ q; mem_load d (readCursor_ p) rc)
            (set_read p1 (readCursor_ p1 + zlen pad)) =
          Some (blk, set_read p1 (readCursor_ p1 + zlen pad))) as E2.
  { unfold pm_access. simpl.
    destruct (load_unread _ p rc Hp) as [E|[? _]]; [lia|lia| |lia].
    rewrite E. by rewrite Hun', <- Hblk, ztake_app_exact. }
  rewrite (pm_bind_eq _ _ _ _ _ E2). fold blk in Hdec. rewrite Hdec.
  assert (znth (units ++ [0]) n = Some 0) as E3.
  { unfold znth. destruct (Z.ltb_spec n 0); [lia|].
    rewrite lookup_app_r by (unfold zlen in *; lia).
    replace (Z.to_nat n - length units)%nat with 0%nat by (unfold zlen in *; lia). done. }
  unfold pm_access at 1, mbind at 1, pm_bind at 1. rewrite E3. simpl.
  rewrite <- Hu, ztake_app_exact. unfold mret, pm_ret. f_equal. f_equal.
  rewrite app_assoc. fold blk. rewrite zlen_app, Hblk. unfold p1. simpl. by rewrite Z.add_assoc.
Qed.

Lemma read_string_reads {A} width decode (nl : A) bl bad good n chars units :
  0 < width <= 4 -> 0 <= n < INT32_MAX -> zlen chars = n * width ->
  decode (chars ++ zeros width) = units ++ [0] -> zlen units = n ->
  reads alimit (read_string width decode nl bl bad good) (string_bytes width n chars) (good n units).
Proof.
  intros Hw Hn Hz Hdec Hu p rest Hp Hno Hun. unfold read_string.
  rewrite (pm_bind_eq _ _ p (readCursor_ p) p) by done.
  assert (reads alimit (len ← Read_ref CInt32;
            match len with
            | None => mret nl
            | Some dataLength =>
              if (dataLength <? 0) || (INT32_MAX <=? dataLength) then mret (bl dataLength)
              else
                r ← read_payload width decode dataLength;
                match r with
                | Some s => mret (good dataLength s)
                | None => restore_read (readCursor_ p);; mret bad
                end
            end) (string_bytes width n chars) (good n units)) as Hr; [|by eapply Hr].
  unfold string_bytes. eapply reads_bind.
  { apply Read_ref_reads, has_int32. lia. }
  simpl. destruct (Z.ltb_spec n 0); [lia|]. destruct (Z.leb_spec INT32_MAX n); [lia|]. simpl.
  rewrite <- (app_nil_r (chars ++ _)).
  eapply reads_bind; [apply (read_payload_reads width decode n chars units); try done|apply reads_ret].
  unfold INT32_MAX in *. lia.
Qed.

Lemma ReadString_reads s :
  zlen s < INT32_MAX -> reads alimit ReadString (string_bytes 1 (zlen s) s) s.
Proof.
  intros Hz. pose proof (zlen_nonneg s).
  apply (read_string_reads 1 id [] (fun _ => []) [] (fun _ s => s)); done || lia.
Qed.

Lemma ReadString16_reads s :
  Forall is_u16 s -> zlen s < INT32_MAX ->
  reads alimit ReadString16 (string_bytes 2 (zlen s) (encode16 s)) s.
Proof.
  intros Hu Hz. pose proof (zlen_nonneg s).
  apply (read_string_reads 2 decode16 [] (fun _ => []) [] (fun _ s => s)); try (done || lia).
  - apply zlen_encode16.
  - change (zeros 2) with (encode16 [0]). rewrite <- encode16_app.
    apply decode16_encode16, Forall_app. split; [done|]. by repeat constructor.
Qed.

(** ** C strings *)

Lemma WriteCString_emits s rest :
  Forall is_byte s -> Forall (fun b => b <> 0) s -> Forall is_byte rest ->
  zlen s < INT32_MAX -> zlen (s ++ 0 :: rest) < 2 ^ 62 ->
  emits alimit (WriteCString (Some (s ++ 0 :: rest)))
    (s ++ [0] ++ zeros (GetPadSize (zlen s + 1))).
Proof.
  intros Hb Hnz Hrest Hz Hlen. pose proof (zlen_nonneg s). pose proof (zlen_nonneg rest).
  unfold WriteCString. rewrite index0_app by done. rewrite i32_small by lia.
  destruct (Z.ltb_spec (zlen s) 0); [lia|]. destruct (Z.leb_spec INT32_MAX (zlen s)); [lia|]. cbn [orb].
  rewrite Z.mul_1_r, app_assoc.
  assert (s ++ [0] = ztake (zlen s + 1) (s ++ 0 :: rest)) as ->.
  { rewrite ztake_add by lia. rewrite ztake_app_exact, zdrop_app_exact. done. }
  apply WriteBuffer_emits; [|rewrite zlen_app, zlen_cons; lia|done].
  apply Forall_app. split; [done|]. constructor; [apply is_byte_0|done].
Qed.

Lemma readable_eq p : parcel_wf alimit p -> readable p = Some (unread p).
Proof.
  intros Hp. unfold readable. pose proof (zlen_unread alimit p Hp) as Hz.
  assert (0 <= GetReadableBytes p) by (rewrite <- Hz; apply zlen_nonneg).
  destruct (Z.eqb_spec (GetReadableBytes p) 0) as [E|].
  - rewrite E in Hz. destruct (unread p); [done|]. rewrite zlen_cons in Hz. pose proof (zlen_nonneg l). lia.
  - destruct (load_unread alimit p (GetReadableBytes p) Hp) as [E|]; [lia|lia| |lia].
    by rewrite E, ztake_ge by lia.
Qed.

(** [ReadCString] returns the address of the string and skips it with its padding. *)
Lemma ReadCString_reads p s rest :
  parcel_wf alimit p -> no_objects p -> Forall (fun b => b <> 0) s -> zlen s < INT32_MAX ->
  unread p = (s ++ [0] ++ zeros (GetPadSize (zlen s + 1))) ++ rest ->
  ReadCString p = Some (Some (readCursor_ p),
    set_read p (readCursor_ p + zlen (s ++ [0] ++ zeros (GetPadSize (zlen s + 1))))).
Proof.
  intros Hp Hn Hnz Hz Hu. pose proof (zlen_nonneg s). unfold INT32_MAX in *.
  unfold ReadCString. rewrite (pm_bind_eq _ _ p p p) by done.
  erewrite pm_bind_access by by apply readable_eq.
  rewrite Hu, <- !app_assoc. simpl. rewrite index0_app by done.
  rewrite (pm_bind_eq _ _ _ _ _ (ValidateReadData_none p _ Hn)).
  set (pad := zeros (GetPadSize (zlen s + 1))) in *.
  assert (zlen pad = GetPadSize (zlen s + 1)) as Hpad.
  { apply zlen_zeros. pose proof (GetPadSize_range (zlen s + 1)). lia. }
  assert (unread p = (s ++ [0]) ++ pad ++ rest) as Hu1 by (by rewrite Hu, <- !app_assoc).
  assert (zlen (s ++ [0]) = zlen s + 1) as Hz1 by (rewrite zlen_app, zlen_cons, zlen_nil; lia).
  destruct (reads_cursor _ _ _ _ Hp Hu1) as [Hc1 _].
  destruct (reads_state _ _ _ _ Hp Hn Hu1) as (Hp1 & Hn1 & Hu2). rewrite Hz1 in *.
  unfold move_read, pm_put. rewrite (pm_bind_eq _ _ p tt (set_read p (readCursor_ p + (zlen s + 1)))).
  2:{ unfold u64. by rewrite wrapU_small by lia. }
  rewrite <- Hpad. rewrite (pm_bind_eq _ _ _ _ _ (SkipBytes_reads _ _ _ rest Hp1 Hn1 Hu2)).
  unfold mret, pm_ret. do 2 f_equal. simpl. f_equal.
  change (0 :: pad) with ([0] ++ pad). rewrite app_assoc, (zlen_app (s ++ [0])), Hz1. lia.
Qed.

(** ** Memory safety *)

Lemma ReadCString_safe : safe alimit ReadCString.
Proof.
  intros p Hp. unfold ReadCString. rewrite (pm_bind_eq _ _ p p p) by done.
  erewrite pm_bind_access by by apply readable_eq.
  destruct (index0 (unread p)) as [n|] eqn:En; [|by eexists None, _].
  apply index0_bound in En. rewrite (zlen_unread alimit) in En by done.
  pose proof (wf_size _ _ Hp). pose proof (wf_cap _ _ Hp). pose proof (wf_read _ _ Hp).
  rewrite GetReadableBytes_eq in En.
  assert (0 <= GetPadSize (n + 1)) by (pose proof (GetPadSize_range (n + 1)); lia).
  enough (safe alimit (valid ← ValidateReadData (u64 (readCursor_ p + n + 1));
     if (valid : bool)
     then move_read (n + 1);; SkipBytes (GetPadSize (n + 1));; mret (Some (readCursor_ p))
     else mret None)) as Hs by (by apply Hs).
  psafe.
Qed.

Definition decodes (width : Z) (decode : list Z -> list Z) : Prop :=
  forall n bytes, 0 <= n -> zlen bytes = n * width -> zlen (decode bytes) = n.

Lemma id_decodes : decodes 1 id.
Proof. intros n bytes _. unfold id. lia. Qed.

Lemma decode16_decodes : decodes 2 decode16.
Proof.
  intros n bytes Hn. replace n with (Z.of_nat (Z.to_nat n)) by lia.
  generalize (Z.to_nat n). clear n Hn. intros n. revert bytes.
  induction n as [|n IH]; intros bytes Hz.
  - destruct bytes; [done|]. rewrite zlen_cons in Hz. pose proof (zlen_nonneg bytes). lia.
  - destruct bytes as [|a [|b rest]]; rewrite ?zlen_cons, ?zlen_nil in Hz; try lia.
    simpl. rewrite zlen_cons, IH; lia.
Qed.

Lemma read_payload_safe width decode n :
  0 < width <= 4 -> 0 <= n < INT32_MAX -> decodes width decode ->
  safe alimit (read_payload width decode n).
Proof.
  intros Hw Hn Hdec p Hp. unfold INT32_MAX in *.
  unfold read_payload. rewrite (pm_bind_eq _ _ p p p) by done.
  set (rc := (n + 1) * width). assert (0 < rc < 2 ^ 34) as Hrc by (unfold rc; nia).
  assert (u64 rc = rc) as -> by (apply wrapU_small; lia).
  destruct ((n <? rc) && (rc <=? GetReadableBytes p)); [|by eexists None, _].
  assert (buffer_read alimit (if PARCEL_OBJECT_CHECK then BasicReadBuffer rc else ReadBuffer rc) rc) as Hbr.
  { destruct PARCEL_OBJECT_CHECK; [apply BasicReadBuffer_spec|apply ReadBuffer_spec]. }
  destruct (Hbr p Hp) as (r & p1 & E1 & Hp1 & Hd & Hr). rewrite (pm_bind_eq _ _ _ _ _ E1).
  destruct r as [off|]; [|by eexists None, _]. destruct Hr as [-> Hr].
  destruct (SkipBytes_safe alimit (GetPadSize rc)) with (p := p1) as ([] & p2 & E2 & Hp2);
    [pose proof (GetPadSize_range rc); lia|done|].
  rewrite (pm_bind_eq _ _ _ _ _ E2).
  assert (data_ p2 = data_ p) as Hd2.
  { rewrite <- Hd. unfold SkipBytes in E2. repeat case_match; by simplify_eq. }
  destruct (load_unread alimit p rc Hp) as [E|[? _]]; [lia|lia| |lia].
  assert (zlen (ztake rc (unread p)) = rc) as Hz.
  { apply zlen_take. rewrite (zlen_unread alimit) by done. lia. }
  erewrite pm_bind_access by (rewrite Hd2; exact E).
  destruct (znth_is_Some (decode (ztake rc (unread p))) n) as [c Ec].
  { rewrite (Hdec (n + 1)); [lia|lia|done]. }
  erewrite pm_bind_access by exact Ec.
  destruct (c =? 0); by eexists _, p2.
Qed.

Lemma read_string_safe {A} width decode (nl : A) bl bad good :
  0 < width <= 4 -> decodes width decode -> safe alimit (read_string width decode nl bl bad good).
Proof.
  intros Hw Hdec p Hp. unfold read_string. rewrite (pm_bind_eq _ _ p (readCursor_ p) p) by done.
  destruct (Read_ref_safe alimit CInt32 p Hp) as (r & p1 & E1 & Hp1).
  rewrite (pm_bind_eq _ _ _ _ _ E1). destruct r as [n|]; [|by eexists _, _].
  destruct ((n <? 0) || (INT32_MAX <=? n)) eqn:En; [by eexists _, _|]. zb.
  destruct (read_payload_safe width decode n Hw) with (p := p1) as (r & p2 & E2 & Hp2);
    [lia|done|done|].
  rewrite (pm_bind_eq _ _ _ _ _ E2). destruct r; [by eexists _, _|].
  eexists _, _. split; [done|]. apply set_read_wf; [done|]. apply (wf_read _ _ Hp).
Qed.
End string_facts.
