(* ===== verification/ParcelVector.v ===== *)
(** * ParcelVector: vectors in a parcel

    Models the vector methods of [class Parcel] (base/src/parcel.cpp): the
    four templates and every method that instantiates them.  A
    [std::vector<T>] is the list of its elements; [None] is a null pointer to
    one.  A reader returns its result and the vector it leaves behind. *)

From S2P Require Import Prelude Parcel ParcelInv ParcelTyped ParcelString.
Open Scope Z_scope.

(** [sizeof(std::string)] and of [std::u16string] in libc++. *)
Definition sizeof_string : Z := 24.

(** [std::vector<T>::max_size()] and [resize]. *)
Definition vec_max_size (sizeofT : Z) : Z := (2 ^ 63 - 1) / sizeofT.

Definition vec_resize {A} (dflt : A) (v : list A) (n : Z) : list A :=
  ztake n v ++ replicate (Z.to_nat n - length v) dflt.

Section vectors.
Context `{Libc} `{Securec} `{ParcelConfig}.

(** ** Writes *)

Fixpoint write_elems {A} (Wr : A -> PM bool) (val : list A) : PM bool :=
  match val with
  | [] => mret true
  | v :: rest => ok ← Wr v; if (ok : bool) then write_elems Wr rest else mret false
  end.

Definition write_tail (padSize : Z) : PM bool :=
  ok ← EnsureWritableCapacity padSize;
  if (ok : bool) then WritePadBytes padSize;; mret true else mret false.

Definition WriteVector {A} (sizeofT1 : Z) (Wr : A -> PM bool) (val : list A) : PM bool :=
  if INT_MAX <? zlen val then mret false
  else
    ok ← WriteInt32 (i32 (zlen val));
    if (ok : bool) then
      ok' ← write_elems Wr val;
      if (ok' : bool) then write_tail (GetPadSize (u64 (zlen val * sizeofT1))) else mret false
    else mret false.

(** The padding is computed from the size each element takes in the parcel. *)
Definition WriteFixedAlignVector {A} (sizeofType : Z) (SpecialWrite : A -> PM bool)
    (originVal : list A) : PM bool :=
  if INT_MAX <? zlen originVal then mret false
  else
    ok ← WriteInt32 (i32 (zlen originVal));
    if (ok : bool) then
      ok' ← write_elems SpecialWrite originVal;
      if (ok' : bool) then write_tail (GetPadSize (u64 (zlen originVal * sizeofType)))
      else mret false
    else mret false.

Definition WriteBoolVector := WriteFixedAlignVector 4 WriteBool.
Definition WriteInt8Vector := WriteVector 1 WriteInt8Unaligned.
Definition WriteInt16Vector := WriteFixedAlignVector 4 WriteInt16.
Definition WriteInt32Vector := WriteVector 4 WriteInt32.
Definition WriteInt64Vector := WriteVector 8 WriteInt64.
Definition WriteUInt8Vector := WriteVector 1 WriteUint8Unaligned.
Definition WriteUInt16Vector := WriteVector 2 WriteUint16Unaligned.
Definition WriteUInt32Vector := WriteVector 4 WriteUint32.
Definition WriteUInt64Vector := WriteVector 8 WriteUint64.
Definition WriteFloatVector := WriteVector 4 WriteFloat.
Definition WriteDoubleVector := WriteVector 8 WriteDouble.
Definition WriteStringVector := WriteVector sizeof_string (fun s => WriteString (Some s)).
Definition WriteString16Vector := WriteVector sizeof_string (fun s => WriteString16 (Some s)).

(** ** Reads *)

(** The loop over the elements: a failed read keeps the old element and stops. *)
Fixpoint read_elems {A} (Rd : PM (option A)) (v : list A) : PM (bool * list A) :=
  match v with
  | [] => mret (true, [])
  | old :: rest =>
    r ← Rd;
    match r with
    | None => mret (false, old :: rest)
    | Some x => res ← read_elems Rd rest; mret (res.1, x :: res.2)
    end
  end.

Definition ReadVector {A} (sizeofT : Z) (dflt : A) (Rd : PM (option A)) (val : option (list A))
    : PM (bool * option (list A)) :=
  match val with
  | None => mret (false, None)
  | Some v =>
    len ← ReadInt32;
    if len <? 0 then mret (false, Some v)
    else
      readAbleSize ← pm_get (fun p => GetReadableBytes p / sizeofT);
      if (readAbleSize <? len) || (vec_max_size sizeofT <? len) then mret (false, Some v)
      else
        res ← read_elems Rd (vec_resize dflt v len);
        if (res.1 : bool) then
          SkipBytes (GetPadSize (u64 (len * sizeofT)));; mret (true, Some res.2)
        else mret (false, Some res.2)
  end.

Definition ReadFixedAlignVector {A} (sizeofType sizeofT1 : Z) (dflt : A)
    (SpecialRead : PM (option A)) (val : option (list A)) : PM (bool * option (list A)) :=
  match val with
  | None => mret (false, None)
  | Some v =>
    len ← ReadInt32;
    if len <? 0 then mret (false, Some v)
    else
      readAbleSize ← pm_get (fun p => GetReadableBytes p / sizeofType);
      if (readAbleSize <? len) || (vec_max_size sizeofT1 <? len) then mret (false, Some v)
      else
        res ← read_elems SpecialRead (vec_resize dflt v len);
        if (res.1 : bool) then
          SkipBytes (GetPadSize (u64 (len * sizeofType)));; mret (true, Some res.2)
        else mret (false, Some res.2)
  end.

Definition ReadBoolVector := ReadFixedAlignVector 4 1 0 ReadBool_ref.
Definition ReadInt8Vector := ReadVector 1 0 ReadInt8Unaligned.
Definition ReadInt16Vector := ReadFixedAlignVector 4 2 0 ReadInt16_ref.
Definition ReadInt32Vector := ReadVector 4 0 ReadInt32_ref.
Definition ReadInt64Vector := ReadVector 8 0 ReadInt64_ref.
Definition ReadUInt8Vector := ReadVector 1 0 ReadUint8Unaligned.
Definition ReadUInt16Vector := ReadVector 2 0 ReadUint16Unaligned.
Definition ReadUInt32Vector := ReadVector 4 0 ReadUint32_ref.
Definition ReadUInt64Vector := ReadVector 8 0 ReadUint64_ref.
Definition ReadFloatVector := ReadVector 4 0 ReadFloat_ref.
Definition ReadDoubleVector := ReadVector 8 0 ReadDouble_ref.

(** The string vectors assign every element the result of a string read,
    without a check, and skip no padding. *)
Fixpoint assign_elems (Rd : PM (list Z)) (v : list (list Z)) : PM (list (list Z)) :=
  match v with
  | [] => mret []
  | _ :: rest => x ← Rd; xs ← assign_elems Rd rest; mret (x :: xs)
  end.

Definition read_string_vector (Rd : PM (list Z)) (val : option (list (list Z)))
    : PM (bool * option (list (list Z))) :=
  match val with
  | None => mret (false, None)
  | Some v =>
    len ← ReadInt32;
    if len <? 0 then mret (false, Some v)
    else
      readAbleSize ← pm_get GetReadableBytes;
      if (readAbleSize <? len) || (vec_max_size sizeof_string <? len) then mret (false, Some v)
      else
        v' ← assign_elems Rd (vec_resize [] v len);
        mret (true, Some v')
  end.

Definition ReadStringVector := read_string_vector ReadString.
Definition ReadString16Vector := read_string_vector ReadString16.
End vectors.

(** ** Facts *)

(** The bytes of a vector: length, elements, padding. *)
Definition vector_bytes {A} (sizeofT : Z) (enc : A -> list Z) (val : list A) : list Z :=
  cbytes CInt32 (zlen val) ++ (val ≫= enc) ++ zeros (GetPadSize (zlen val * sizeofT)).

Section vector_facts.
Context `{LibcOk} `{SecurecOk} `{ParcelConfig} (alimit : Z).

Lemma zlen_replicate {A} (x : A) n : zlen (replicate n x) = Z.of_nat n.
Proof. unfold zlen. by rewrite length_replicate. Qed.

Lemma zlen_vec_resize {A} (dflt : A) v n : 0 <= n -> zlen (vec_resize dflt v n) = n.
Proof.
  intros. unfold vec_resize, zlen, ztake. rewrite length_app, length_take, length_replicate. lia.
Qed.

(** A tail that needs the four bytes of a length before it. *)
Definition emits_after (m : PM bool) (bs : list Z) : Prop :=
  (forall p, parcel_wf alimit p -> 4 <= dataSize_ p ->
     exists ok p' bs', m p = Some (ok, p') /\ appended alimit p p' bs' /\ (ok = true -> bs' = bs)) /\
  (forall p, parcel_wf alimit p -> 4 <= dataSize_ p -> writable_ p = true -> room alimit p (zlen bs) ->
     exists p', m p = Some (true, p') /\ appended alimit p p' bs).

Lemma emits_emits_after m bs : emits alimit m bs -> emits_after m bs.
Proof. intros [He Hw]. split; intros; auto. Qed.

Lemma emits_after_bind m1 m2 b1 b2 :
  emits_after m1 b1 -> emits_after m2 b2 ->
  emits_after (ok ← m1; if (ok : bool) then m2 else mret false) (b1 ++ b2).
Proof.
  intros [Ex1 Wr1] [Ex2 Wr2]. split; intros p Hp Hsz.
  - destruct (Ex1 p Hp Hsz) as (ok & p1 & c1 & E1 & A1 & Hok1). rewrite (pm_bind_eq _ _ _ _ _ E1).
    destruct ok; [|by exists false, p1, c1].
    destruct (Ex2 p1) as (ok & p2 & c2 & E2 & A2 & Hok2); [apply A1| |].
    { rewrite (app_size _ _ _ _ A1). pose proof (zlen_nonneg c1). lia. }
    exists ok, p2, (c1 ++ c2). split_and!; [done|by eapply appended_trans|].
    intros ->. by rewrite Hok1, Hok2.
  - intros Hw Hroom. rewrite zlen_app in Hroom. pose proof (zlen_nonneg b2). pose proof (zlen_nonneg b1).
    destruct (Wr1 p) as (p1 & E1 & A1); [done..|eapply room_le; [done|lia]|].
    rewrite (pm_bind_eq _ _ _ _ _ E1).
    destruct (Wr2 p1) as (p2 & E2 & A2); [apply A1| | |by eapply appended_room|].
    { rewrite (app_size _ _ _ _ A1). lia. }
    { by rewrite (appended_writable _ _ _ _ A1). }
    exists p2. split; [done|by eapply appended_trans].
Qed.

Lemma emits_bind_after m1 m2 b1 b2 :
  emits alimit m1 b1 -> 4 <= zlen b1 -> emits_after m2 b2 ->
  emits alimit (ok ← m1; if (ok : bool) then m2 else mret false) (b1 ++ b2).
Proof.
  intros [Ex1 Wr1] Hz [Ex2 Wr2]. split; intros p Hp; pose proof (wf_size _ _ Hp).
  - destruct (Ex1 p Hp) as (ok & p1 & c1 & E1 & A1 & Hok1). rewrite (pm_bind_eq _ _ _ _ _ E1).
    destruct ok; [|by exists false, p1, c1]. rewrite Hok1 in A1 by done.
    destruct (Ex2 p1) as (ok & p2 & c2 & E2 & A2 & Hok2); [apply A1| |].
    { rewrite (app_size _ _ _ _ A1). lia. }
    exists ok, p2, (b1 ++ c2). split_and!; [done|by eapply appended_trans|].
    intros ->. by rewrite Hok2.
  - intros Hw Hroom. rewrite zlen_app in Hroom. pose proof (zlen_nonneg b2).
    destruct (Wr1 p) as (p1 & E1 & A1); [done..|eapply room_le; [done|lia]|].
    rewrite (pm_bind_eq _ _ _ _ _ E1).
    destruct (Wr2 p1) as (p2 & E2 & A2); [apply A1| | |by eapply appended_room|].
    { rewrite (app_size _ _ _ _ A1). lia. }
    { by rewrite (appended_writable _ _ _ _ A1). }
    exists p2. split; [done|by eapply appended_trans].
Qed.

Lemma wf_nonnull p : parcel_wf alimit p -> 4 <= dataSize_ p -> is_Some (data_ p).
Proof.
  intros Hp Hs. pose proof (wf_data _ _ Hp) as Hd. pose proof (wf_size _ _ Hp).
  destruct (data_ p); [done|lia].
Qed.

Lemma write_tail_emits pad : 0 <= pad < 4 -> emits_after (write_tail pad) (zeros pad).
Proof.
  intros Hpad. unfold write_tail. split; intros p Hp Hs.
  - destruct (Ensure_spec alimit p pad Hp) as (ok & p1 & E & Hens); [lia|].
    rewrite (pm_bind_eq _ _ _ _ _ E). pose proof (ensured_appended _ _ _ _ _ Hens) as A1.
    destruct ok; [|by exists false, p1, []].
    destruct (ensured_ready alimit p pad p1 Hp) as [Hp1 Hw1 Hd1 Hf1]; [lia|done|].
    destruct (ensured_cursor _ _ _ _ _ Hens) as [Ec Ew].
    destruct (pad_step alimit p1 pad) as (p2 & E2 & A2); [done|done| |].
    { rewrite Ec, (wf_sync _ _ Hp) by congruence. lia. }
    exists true, p2, (zeros pad). split_and!; [done| |done]. by apply (appended_trans _ p p1 p2 []).
  - intros Hw Hroom. rewrite zlen_zeros in Hroom by lia.
    destruct (Ensure_true alimit p pad Hp Hw) as (p1 & E & Hens);
      [lia|done|right; by apply wf_nonnull|].
    rewrite (pm_bind_eq _ _ _ _ _ E). pose proof (ensured_appended _ _ _ _ _ Hens) as A1.
    destruct (ensured_ready alimit p pad p1 Hp) as [Hp1 Hw1 Hd1 Hf1]; [lia|done|].
    destruct (ensured_cursor _ _ _ _ _ Hens) as [Ec Ew].
    destruct (pad_step alimit p1 pad) as (p2 & E2 & A2); [done|done| |].
    { rewrite Ec, (wf_sync _ _ Hp) by done. lia. }
    exists p2. split; [done|]. by apply (appended_trans _ p p1 p2 []).
Qed.

Lemma write_elems_emits {A} (Wr : A -> PM bool) enc val :
  Forall (fun v => emits alimit (Wr v) (enc v)) val ->
  emits alimit (write_elems Wr val) (val ≫= enc).
Proof.
  induction 1 as [|v val Hv Hval IH]; [apply emits_true|].
  rewrite bind_cons. by apply emits_bind.
Qed.

Lemma WriteVector_emits {A} sizeofT (Wr : A -> PM bool) enc val :
  0 < sizeofT < 2 ^ 32 -> zlen val <= INT_MAX ->
  Forall (fun v => emits alimit (Wr v) (enc v)) val ->
  emits alimit (WriteVector sizeofT Wr val) (vector_bytes sizeofT enc val).
Proof.
  intros Hs Hz Hval. unfold INT_MAX in *. pose proof (zlen_nonneg val).
  unfold WriteVector, vector_bytes. destruct (Z.ltb_spec INT_MAX (zlen val)); [unfold INT_MAX in *; lia|].
  rewrite i32_small by (unfold INT32_MAX; lia).
  assert (u64 (zlen val * sizeofT) = zlen val * sizeofT) as -> by (apply wrapU_small; nia).
  apply emits_bind_after; [apply Write_emits|by rewrite zlen_cbytes|].
  apply emits_after_bind; [by apply emits_emits_after, write_elems_emits|].
  apply write_tail_emits, GetPadSize_range. nia.
Qed.

Lemma WriteFixedAlignVector_emits {A} sizeofT (Wr : A -> PM bool) enc val :
  0 < sizeofT < 2 ^ 32 -> zlen val <= INT_MAX ->
  Forall (fun v => emits alimit (Wr v) (enc v)) val ->
  emits alimit (WriteFixedAlignVector sizeofT Wr val) (vector_bytes sizeofT enc val).
Proof. apply WriteVector_emits. Qed.

(** ** Reading back *)

Lemma read_elems_reads {A} (Rd : PM (option A)) enc val :
  Forall (fun v => reads alimit Rd (enc v) (Some v)) val ->
  forall old, length old = length val ->
  reads alimit (read_elems Rd old) (val ≫= enc) (true, val).
Proof.
  induction 1 as [|v val Hv Hval IH]; intros [|o old] Hl; try done; [apply reads_ret|].
  rewrite bind_cons. simpl. eapply reads_bind; [done|]. simpl.
  rewrite <- (app_nil_r (val ≫= enc)). eapply reads_bind; [apply IH; simpl in Hl; lia|apply reads_ret].
Qed.

(** Reading the length and then checking the size of what is left. *)
Lemma reads_length {A} (f : Z -> PM A) n bs a :
  0 <= n <= INT32_MAX ->
  (forall p rest, parcel_wf alimit p -> no_objects p -> unread p = bs ++ rest ->
     zlen bs <= GetReadableBytes p -> f n p = Some (a, set_read p (readCursor_ p + zlen bs))) ->
  reads alimit (len ← ReadInt32; f len) (cbytes CInt32 n ++ bs) a.
Proof.
  intros Hn Hf. eapply reads_bind; [apply Read_reads, has_int32; lia|].
  intros p rest Hp Hno Hu. apply (Hf p rest Hp Hno Hu). by apply (reads_cursor _ _ _ _ Hp Hu).
Qed.

Lemma ReadFixedAlignVector_reads {A} sizeofType sizeofT1 (dflt : A) Rd enc val old :
  0 < sizeofType < 2 ^ 31 -> 0 < sizeofT1 < 2 ^ 31 -> zlen val <= INT_MAX ->
  Forall (fun v => reads alimit Rd (enc v) (Some v)) val ->
  zlen val * sizeofType <= zlen (val ≫= enc) ->
  reads alimit (ReadFixedAlignVector sizeofType sizeofT1 dflt Rd (Some old))
    (vector_bytes sizeofType enc val) (true, Some val).
Proof.
  intros Hs Hs1 Hz Hval Hfit. pose proof (zlen_nonneg val). unfold INT_MAX in Hz.
  unfold ReadFixedAlignVector, vector_bytes. apply reads_length; [unfold INT32_MAX; lia|].
  intros p rest Hp Hno Hu Hr.
  destruct (Z.ltb_spec (zlen val) 0); [lia|]. rewrite pm_bind_get.
  assert (0 <= GetPadSize (zlen val * sizeofType) < 4) as Hpad by (apply GetPadSize_range; nia).
  rewrite zlen_app, zlen_zeros in Hr by lia.
  destruct (Z.ltb_spec (GetReadableBytes p / sizeofType) (zlen val)) as [Hlt|].
  { pose proof (Z.div_le_lower_bound (GetReadableBytes p) sizeofType (zlen val)). lia. }
  unfold vec_max_size. destruct (Z.ltb_spec ((2 ^ 63 - 1) / sizeofT1) (zlen val)).
  { pose proof (Z.div_le_lower_bound (2 ^ 63 - 1) sizeofT1 (zlen val)). nia. }
  cbn [orb]. assert (u64 (zlen val * sizeofType) = zlen val * sizeofType) as -> by (apply wrapU_small; nia).
  refine (_ p rest Hp Hno Hu). eapply reads_bind.
  { apply read_elems_reads; [done|]. apply Nat2Z.inj. change (zlen (vec_resize dflt old (zlen val)) = zlen val).
    apply zlen_vec_resize. lia. }
  simpl. rewrite <- (app_nil_r (zeros _)). eapply reads_bind; [|apply reads_ret].
  rewrite <- (zlen_zeros (GetPadSize (zlen val * sizeofType))) at 1 by lia. apply SkipBytes_reads.
Qed.

Lemma ReadVector_reads {A} sizeofT (dflt : A) Rd enc val old :
  0 < sizeofT < 2 ^ 31 -> zlen val <= INT_MAX ->
  Forall (fun v => reads alimit Rd (enc v) (Some v)) val ->
  zlen val * sizeofT <= zlen (val ≫= enc) ->
  reads alimit (ReadVector sizeofT dflt Rd (Some old)) (vector_bytes sizeofT enc val) (true, Some val).
Proof. intros Hs. by apply ReadFixedAlignVector_reads. Qed.

(** Elements of one size fill the block the size check asks for. *)
Lemma zlen_bind_const {A} (enc : A -> list Z) n val :
  (forall v, zlen (enc v) = n) -> zlen (val ≫= enc) = zlen val * n.
Proof.
  intros He. induction val as [|v val IH]; [done|]. rewrite bind_cons, zlen_app, IH, He, zlen_cons. lia.
Qed.

Lemma assign_elems_reads (Rd : PM (list Z)) enc val :
  Forall (fun v => reads alimit Rd (enc v) v) val ->
  forall old, length old = length val -> reads alimit (assign_elems Rd old) (val ≫= enc) val.
Proof.
  induction 1 as [|v val Hv Hval IH]; intros [|o old] Hl; try done; [apply reads_ret|].
  rewrite bind_cons. simpl. eapply reads_bind; [done|].
  rewrite <- (app_nil_r (val ≫= enc)). eapply reads_bind; [apply IH; simpl in Hl; lia|apply reads_ret].
Qed.

(** The string readers consume the length and the strings, and leave the
    padding of the vector unread. *)
Lemma read_string_vector_reads (Rd : PM (list Z)) enc val old :
  zlen val <= INT_MAX -> Forall (fun v => reads alimit Rd (enc v) v) val ->
  zlen val <= zlen (val ≫= enc) -> zlen val <= vec_max_size sizeof_string ->
  reads alimit (read_string_vector Rd (Some old))
    (cbytes CInt32 (zlen val) ++ (val ≫= enc)) (true, Some val).
Proof.
  intros Hz Hval Hfit Hmax. pose proof (zlen_nonneg val). unfold INT_MAX in Hz.
  apply reads_length; [unfold INT32_MAX; lia|]. intros p rest Hp Hno Hu Hr.
  destruct (Z.ltb_spec (zlen val) 0); [lia|]. rewrite pm_bind_get.
  destruct (Z.ltb_spec (GetReadableBytes p) (zlen val)); [lia|].
  destruct (Z.ltb_spec (vec_max_size sizeof_string) (zlen val)); [lia|]. cbn [orb].
  refine (_ p rest Hp Hno Hu). rewrite <- (app_nil_r (val ≫= enc)).
  eapply reads_bind; [|apply reads_ret]. apply assign_elems_reads; [done|].
  apply Nat2Z.inj. change (zlen (vec_resize [] old (zlen val)) = zlen val). apply zlen_vec_resize. lia.
Qed.

(** ** Memory safety *)

Lemma read_elems_safe {A} (Rd : PM (option A)) v : safe alimit Rd -> safe alimit (read_elems Rd v).
Proof. intros HR. induction v as [|x v IH]; simpl; psafe. Qed.

Lemma assign_elems_safe (Rd : PM (list Z)) v : safe alimit Rd -> safe alimit (assign_elems Rd v).
Proof. intros HR. induction v as [|x v IH]; simpl; psafe. Qed.

Lemma ReadFixedAlignVector_safe {A} sizeofType sizeofT1 (dflt : A) Rd val :
  safe alimit Rd -> safe alimit (ReadFixedAlignVector sizeofType sizeofT1 dflt Rd val).
Proof.
  intros HR. unfold ReadFixedAlignVector. destruct val as [v|]; [|apply safe_ret].
  apply safe_bind; [apply Read_safe|]. intros len.
  apply safe_if; intros Hl; [apply safe_ret|]. psafe; [by apply read_elems_safe|].
  apply SkipBytes_safe. unfold GetPadSize. by apply wrapU_range.
Qed.

Lemma ReadVector_safe {A} sizeofT (dflt : A) Rd val :
  safe alimit Rd -> safe alimit (ReadVector sizeofT dflt Rd val).
Proof. apply ReadFixedAlignVector_safe. Qed.

Lemma read_string_vector_safe Rd val : safe alimit Rd -> safe alimit (read_string_vector Rd val).
Proof.
  intros HR. unfold read_string_vector. psafe. by apply assign_elems_safe.
Qed.

Lemma write_elems_safe {A} (Wr : A -> PM bool) val :
  (forall v, safe alimit (Wr v)) -> safe alimit (write_elems Wr val).
Proof. intros HW. induction val as [|x v IH]; simpl; psafe. Qed.
End vector_facts.
