(* ===== verification/ParcelObject.v ===== *)
(** * ParcelObject: parcelable and remote objects

    Models [class Parcelable] and the object methods of [class Parcel]
    (base/include/parcel.h, base/src/parcel.cpp).  [Marshalling] and
    [Unmarshalling] belong to the classes of the callers and are parameters;
    a call may change the parcel in any way its hypotheses allow. *)

From S2P Require Import Prelude Parcel ParcelInv ParcelTyped.
From stdpp Require Import sorting.
Open Scope Z_scope.

(** [obj_id] is the identity of the C++ object. *)
Record Parcelable := mkParcelable {
  obj_id : Z;
  asRemote_ : bool;
  behavior_ : Z;
}.

Inductive BehaviorFlag := IPC | RPC | HOLD_OBJECT.

Definition flag_bits (b : BehaviorFlag) : Z :=
  match b with IPC => 0x01 | RPC => 0x02 | HOLD_OBJECT => 0x10 end.

Definition Parcelable_ctor (id : Z) (asRemote : bool) : Parcelable := mkParcelable id asRemote 0.

Definition SetBehavior (b : BehaviorFlag) (o : Parcelable) : Parcelable :=
  mkParcelable (obj_id o) (asRemote_ o) (u8 (Z.lor (behavior_ o) (u8 (flag_bits b)))).

Definition ClearBehavior (b : BehaviorFlag) (o : Parcelable) : Parcelable :=
  mkParcelable (obj_id o) (asRemote_ o) (u8 (Z.land (behavior_ o) (u8 (Z.lnot (flag_bits b))))).

Definition TestBehavior (b : BehaviorFlag) (o : Parcelable) : bool :=
  negb (Z.land (behavior_ o) (u8 (flag_bits b)) =? 0).

Section objects.
Context `{Libc} `{Securec} `{ParcelConfig}.
(** [object->Marshalling(parcel)] *)
Variable Marshalling : Parcelable -> PM bool.

(** The result of [WriteObjectOffset] is ignored. *)
Definition WriteRemoteObject (object : option Parcelable) : PM bool :=
  placeholder ← pm_get writeCursor_;
  match object with
  | None => mret false
  | Some o =>
    if negb (asRemote_ o) then mret false
    else
      ok ← EnsureObjectsCapacity;
      if (ok : bool) then
        ok' ← Marshalling o;
        if (ok' : bool) then
          WriteObjectOffset placeholder;;
          (if TestBehavior HOLD_OBJECT o
           then pm_put (fun p => set_holder p (objectHolder_ p ++ [Some (obj_id o)]))
           else mret tt);;
          mret true
        else mret false
      else mret false
  end.

Definition WriteParcelable (object : option Parcelable) : PM bool :=
  placeholder ← pm_get writeCursor_;
  restorSize ← pm_get dataSize_;
  match object with
  | None => WriteInt32 0
  | Some o =>
    if negb (asRemote_ o) then
      ok ← WriteInt32 1;
      if (ok : bool) then Marshalling o else mret false
    else
      ok ← WriteInt32 1;
      if (ok : bool) then
        done ← WriteRemoteObject (Some o);
        if (done : bool) then mret true
        else
          pm_put (fun p => set_write p placeholder restorSize);;
          mret false
      else mret false
  end.

(** The flag is set on the shared object, which the caller keeps. *)
Definition WriteStrongParcelable (object : option Parcelable) : PM (bool * option Parcelable) :=
  match object with
  | None => WriteInt32 0;; mret (true, None)
  | Some o =>
    let o' := SetBehavior HOLD_OBJECT o in
    ok ← WriteParcelable (Some o');
    mret (ok, Some o')
  end.

(** [T::Marshalling(parcel, nullptr)] is a static function of [T]. *)
Definition WriteObject (MarshallingNull : PM bool) (object : option Parcelable) : PM bool :=
  match object with
  | None => MarshallingNull
  | Some _ => WriteRemoteObject object
  end.

Context {T : Type}.
(** [T::Unmarshalling(parcel)] *)
Variable Unmarshalling : PM (option T).

Definition ReadObject : PM (option T) :=
  ok ← pm_get CheckOffsets;
  if (ok : bool) then Unmarshalling else mret None.

Definition ReadParcelable : PM (option T) :=
  size ← ReadInt32;
  if size =? 0 then mret None else Unmarshalling.

Definition ReadStrongParcelable : PM (option T) :=
  size ← ReadInt32;
  if size =? 0 then mret None else Unmarshalling.
End objects.

(** ** Behaviour flags *)

(** A property of all 8-bit masks is decided by listing them. *)
Lemma all_u8 (P : Z -> bool) :
  forallb P (seqZ 0 256) = true -> forall k, 0 <= k < 256 -> P k = true.
Proof.
  intros Hall k Hk. rewrite forallb_forall in Hall. apply Hall, list_elem_of_In, elem_of_seqZ. lia.
Qed.

#[export] Instance flag_eq_dec : EqDecision BehaviorFlag.
Proof. solve_decision. Defined.

Definition flags : list BehaviorFlag := [IPC; RPC; HOLD_OBJECT].

Lemma flags_complete b : In b flags.
Proof. destruct b; simpl; auto. Qed.

(** Setting or clearing a flag gives it that value and leaves the others alone. *)
Definition flag_laws (k : Z) : bool :=
  forallb (fun b => forallb (fun b' =>
    let o := mkParcelable 0 false k in
    eqb (TestBehavior b (SetBehavior b' o)) (bool_decide (b = b') || TestBehavior b o) &&
    eqb (TestBehavior b (ClearBehavior b' o)) (negb (bool_decide (b = b')) && TestBehavior b o)) flags) flags.

Lemma flag_laws_hold k b b' :
  0 <= k < 256 ->
  let o := mkParcelable 0 false k in
  TestBehavior b (SetBehavior b' o) = bool_decide (b = b') || TestBehavior b o /\
  TestBehavior b (ClearBehavior b' o) = negb (bool_decide (b = b')) && TestBehavior b o.
Proof.
  intros Hk o. assert (flag_laws k = true) as Hl by (revert k Hk o; apply all_u8; by vm_compute).
  unfold flag_laws in Hl. rewrite forallb_forall in Hl. specialize (Hl b (flags_complete b)).
  rewrite forallb_forall in Hl. specialize (Hl b' (flags_complete b')).
  apply andb_true_iff in Hl as [H1 H2]. split; by apply eqb_prop.
Qed.

(** ** Facts *)

Section object_facts.
Context `{LibcOk} `{SecurecOk} `{ParcelConfig} (alimit : Z).
Implicit Types p q : Parcel.

(** Growing the offset table keeps the bytes and the listed offsets. *)
Lemma EnsureObjectsCapacity_env p ok p' :
  EnsureObjectsCapacity p = Some (ok, p') ->
  content p' = content p /\ dataSize_ p' = dataSize_ p /\ writeCursor_ p' = writeCursor_ p /\
  objectHolder_ p' = objectHolder_ p /\ writable_ p' = writable_ p.
Proof. unfold EnsureObjectsCapacity. intros E. repeat case_match; by simplify_eq. Qed.

Lemma WriteObjectOffset_env p off ok p' :
  WriteObjectOffset off p = Some (ok, p') ->
  content p' = content p /\ dataSize_ p' = dataSize_ p /\ writeCursor_ p' = writeCursor_ p /\
  objectHolder_ p' = objectHolder_ p /\ writable_ p' = writable_ p.
Proof.
  unfold WriteObjectOffset, mbind, option_bind. intros E. repeat case_match; by simplify_eq.
Qed.

Lemma WriteObjectOffset_true p off p' :
  WriteObjectOffset off p = Some (true, p') -> off <= dataSize_ p /\ ~ In off (objects p).
Proof.
  unfold WriteObjectOffset. destruct (Z.ltb_spec (dataSize_ p) off); [done|].
  destruct (existsb (Z.eqb off) (objects p)) eqn:Ex; [done|]. intros _. split; [done|].
  intros Hin. assert (existsb (Z.eqb off) (objects p) = true); [|congruence].
  apply existsb_exists. exists off. split; [done|apply Z.eqb_refl].
Qed.

Lemma WriteObjectOffset_new p off p' ok :
  WriteObjectOffset off p = Some (ok, p') -> off <= dataSize_ p -> ~ In off (objects p) -> ok = true.
Proof.
  unfold WriteObjectOffset, mbind, option_bind. intros E Ho Hin.
  destruct (Z.ltb_spec (dataSize_ p) off); [lia|].
  destruct (existsb (Z.eqb off) (objects p)) eqn:Ex; [|repeat case_match; by simplify_eq].
  apply existsb_exists in Ex as (x & Hx & ->%Z.eqb_eq). done.
Qed.

Lemma set_holder_wf p h : parcel_wf alimit p -> parcel_wf alimit (set_holder p h).
Proof. by intros []. Qed.

(** What a successful write of a remote object leaves: its bytes, its
    offset in the table, and a reference if the object asks for one. *)
Definition remote_written (p p' : Parcel) (o : Parcelable) (bs : list Z) : Prop :=
  content p' = content p ++ bs /\ objects p' = objects p ++ [writeCursor_ p] /\
  objectHolder_ p' = objectHolder_ p ++ (if TestBehavior HOLD_OBJECT o then [Some (obj_id o)] else []).

Lemma env_fields p q : env p = env q ->
  objects p = objects q /\ objectCursor_ p = objectCursor_ q /\
  objectsCapacity_ p = objectsCapacity_ q /\ objectHolder_ p = objectHolder_ q /\
  writable_ p = writable_ q /\ readCursor_ p = readCursor_ q.
Proof. unfold env, objects. intros [=]. split_and!; congruence. Qed.

Lemma WriteRemoteObject_spec Marshalling o bs p :
  parcel_wf alimit p -> emits alimit (Marshalling o) bs -> asRemote_ o = true ->
  writable_ p = true -> Forall (fun x => x < dataSize_ p) (objects p) ->
  exists ok p', WriteRemoteObject Marshalling (Some o) p = Some (ok, p') /\ parcel_wf alimit p' /\
    (ok = true -> remote_written p p' o bs).
Proof.
  intros Hp [Hext _] Hr Hw Hlt. unfold WriteRemoteObject. rewrite pm_bind_get, Hr. cbn [negb].
  destruct (EnsureObjectsCapacity_spec alimit p Hp) as (ok & p1 & E1 & Hp1 & Hroom & Ho1 & Hs1 & Hw1).
  destruct (EnsureObjectsCapacity_env _ _ _ E1) as (Hc1 & _ & Hwc1 & Hh1 & _).
  rewrite (pm_bind_eq _ _ _ _ _ E1). destruct ok; [|by exists false, p1].
  destruct (Hext p1 Hp1) as (ok & p2 & bs' & E2 & A2 & Hbs).
  rewrite (pm_bind_eq _ _ _ _ _ E2). pose proof (app_wf _ _ _ _ A2) as Hp2.
  destruct ok; [|by exists false, p2]. rewrite Hbs in A2 by done.
  destruct (env_fields _ _ (app_env _ _ _ _ A2)) as (He1 & He2 & He3 & He4 & _).
  assert (objectCursor_ p2 < objectsCapacity_ p2) as Hroom2 by (rewrite He2, He3; auto).
  destruct (WriteObjectOffset_spec alimit p2 (writeCursor_ p)) as (ok & p3 & E3 & Hp3 & Ho3);
    [done|apply (wf_write _ _ Hp)|done|].
  rewrite (pm_bind_eq _ _ _ _ _ E3).
  destruct (WriteObjectOffset_env _ _ _ _ E3) as (Hc3 & _ & _ & Hh3 & _).
  assert (ok = true) as ->.
  { apply (WriteObjectOffset_new _ _ _ _ E3).
    - rewrite (app_size _ _ _ _ A2), Hs1, (wf_sync _ _ Hp Hw). pose proof (zlen_nonneg bs). lia.
    - rewrite He1, Ho1, (wf_sync _ _ Hp Hw). rewrite Forall_forall in Hlt.
      intros Hin%list_elem_of_In. specialize (Hlt _ Hin). simpl in Hlt. lia. }
  assert (content p3 = content p ++ bs) as Hc by (by rewrite Hc3, (app_content _ _ _ _ A2), Hc1).
  assert (objects p3 = objects p ++ [writeCursor_ p]) as Ho by (by rewrite Ho3, He1, Ho1).
  assert (objectHolder_ p3 = objectHolder_ p) as Hh by congruence.
  destruct (TestBehavior HOLD_OBJECT o) eqn:Et.
  - rewrite (pm_bind_eq _ _ _ tt _ eq_refl). eexists true, _. split; [done|].
    split; [by apply set_holder_wf|]. intros _. split_and!; [done|done|].
    rewrite Et. simpl. by rewrite Hh.
  - rewrite (pm_bind_eq _ _ _ tt p3 eq_refl). exists true, p3. split; [done|]. split; [done|].
    intros _. split_and!; [done|done|]. by rewrite Et, Hh, app_nil_r.
Qed.

(** A written object is found again at its offset. *)
Lemma CheckOffsets_written p p' o bs :
  parcel_wf alimit p -> writable_ p = true -> remote_written p p' o bs -> parcel_wf alimit p' ->
  sizeof_flat_binder <= zlen bs ->
  exists q, RewindRead (writeCursor_ p) p' = Some (true, q) /\ CheckOffsets q = true.
Proof.
  intros Hp Hw (Hc & Ho & _) Hp' Hz. unfold sizeof_flat_binder in Hz.
  assert (dataSize_ p' = dataSize_ p + zlen bs) as Hs.
  { rewrite <- !(zlen_content alimit) by done. by rewrite Hc, zlen_app. }
  pose proof (wf_sync _ _ Hp Hw). pose proof (wf_size _ _ Hp'). pose proof (wf_cap _ _ Hp').
  pose proof (wf_write _ _ Hp).
  unfold RewindRead. destruct (Z.ltb_spec (dataSize_ p') (writeCursor_ p)); [lia|].
  eexists. split; [done|]. unfold CheckOffsets, sizeof_flat_binder. simpl.
  assert (u64 (writeCursor_ p + 24) = writeCursor_ p + 24) as -> by (apply wrapU_small; lia).
  destruct (Z.ltb_spec (dataSize_ p') (writeCursor_ p + 24)); [lia|].
  apply existsb_exists. exists (writeCursor_ p). split; [|apply Z.eqb_refl].
  change (In (writeCursor_ p) (objects p')). rewrite Ho. apply in_app_iff. simpl. auto.
Qed.

(** A [Marshalling] that only appends bytes to the parcel, whatever it returns. *)
Definition extending (m : PM bool) : Prop :=
  forall p, parcel_wf alimit p -> exists ok p' bs, m p = Some (ok, p') /\ appended alimit p p' bs.

Lemma extends_extending m bs : extends alimit m bs -> extending m.
Proof. intros He p Hp. destruct (He p Hp) as (ok & p' & bs' & E & A & _). by exists ok, p', bs'. Qed.

Lemma extending_safe m : extending m -> safe alimit m.
Proof. intros He p Hp. destruct (He p Hp) as (ok & p' & bs & E & A). exists ok, p'. split; [done|apply A]. Qed.

(** Whatever the outcome, bytes are only appended. *)
Lemma WriteRemoteObject_grows Marshalling o p :
  parcel_wf alimit p -> extending (Marshalling o) ->
  exists ok p' bs', WriteRemoteObject Marshalling (Some o) p = Some (ok, p') /\
    parcel_wf alimit p' /\ content p' = content p ++ bs' /\ writable_ p' = writable_ p.
Proof.
  intros Hp Hext. unfold WriteRemoteObject. rewrite pm_bind_get.
  destruct (asRemote_ o); cbn [negb]; [|exists false, p, []; by rewrite app_nil_r].
  destruct (EnsureObjectsCapacity_spec alimit p Hp) as (ok & p1 & E1 & Hp1 & Hroom & _).
  destruct (EnsureObjectsCapacity_env _ _ _ E1) as (Hc1 & _ & _ & _ & Hw1).
  rewrite (pm_bind_eq _ _ _ _ _ E1). destruct ok; [|exists false, p1, []; by rewrite Hc1, app_nil_r].
  destruct (Hext p1 Hp1) as (ok & p2 & bs' & E2 & A2). rewrite (pm_bind_eq _ _ _ _ _ E2).
  assert (content p2 = content p ++ bs') as Hc2 by (by rewrite (app_content _ _ _ _ A2), Hc1).
  destruct (env_fields _ _ (app_env _ _ _ _ A2)) as (_ & He2 & He3 & _ & Hw2 & _). rewrite Hw1 in Hw2.
  pose proof (app_wf _ _ _ _ A2) as Hp2. destruct ok; [|by exists false, p2, bs'].
  destruct (WriteObjectOffset_spec alimit p2 (writeCursor_ p)) as (ok & p3 & E3 & Hp3 & _);
    [done|apply (wf_write _ _ Hp)|rewrite He2, He3; auto|].
  destruct (WriteObjectOffset_env _ _ _ _ E3) as (Hc3 & _ & _ & _ & Hw3).
  rewrite (pm_bind_eq _ _ _ _ _ E3).
  destruct (TestBehavior HOLD_OBJECT o); rewrite (pm_bind_eq _ _ _ tt _ eq_refl);
    eexists true, _, bs'; (split; [done|]);
    (split; [first [by apply set_holder_wf|done]|split; [change (content p3 = content p ++ bs')|change (writable_ p3 = writable_ p)]; congruence]).
Qed.

(** The same for a [Marshalling] that may write remote objects itself, when the
    call fails. *)
Definition appends (m : PM bool) : Prop :=
  forall p ok p', parcel_wf alimit p -> m p = Some (ok, p') ->
    parcel_wf alimit p' /\ exists bs, content p' = content p ++ bs.

Lemma extending_appends m : extending m -> appends m.
Proof.
  intros He p ok p' Hp E. destruct (He p Hp) as (ok' & q & bs & E' & A). rewrite E in E'. simplify_eq.
  split; [apply A|]. exists bs. apply A.
Qed.

Lemma WriteRemoteObject_false Marshalling o p p' :
  parcel_wf alimit p -> appends (Marshalling o) -> WriteRemoteObject Marshalling (Some o) p = Some (false, p') ->
  parcel_wf alimit p' /\ exists bs, content p' = content p ++ bs.
Proof.
  intros Hp Happ. unfold WriteRemoteObject. rewrite pm_bind_get.
  destruct (asRemote_ o); cbn [negb]; [|intros [= <-]; split; [done|]; exists []; by rewrite app_nil_r].
  destruct (EnsureObjectsCapacity_spec alimit p Hp) as (ok & p1 & E1 & Hp1 & _).
  destruct (EnsureObjectsCapacity_env _ _ _ E1) as (Hc1 & _).
  rewrite (pm_bind_eq _ _ _ _ _ E1). destruct ok; [|intros [= <-]; split; [done|]; exists []; by rewrite Hc1, app_nil_r].
  destruct (Marshalling o p1) as [[ok p2]|] eqn:E2; [|unfold mbind at 1, pm_bind at 1; by rewrite E2].
  rewrite (pm_bind_eq _ _ _ _ _ E2). destruct (Happ p1 ok p2 Hp1 E2) as [Hp2 [bs Hc2]].
  destruct ok; [|intros [= <-]; split; [done|]; exists bs; by rewrite Hc2, Hc1].
  unfold mbind, pm_bind, mret, pm_ret. intros E. by repeat case_match.
Qed.

Lemma Write_false t v p p' :
  parcel_wf alimit p -> Write t v p = Some (false, p') ->
  content p' = content p /\ writeCursor_ p' = writeCursor_ p /\ dataSize_ p' = dataSize_ p.
Proof.
  intros Hp. unfold Write, write_word. pose proof (csize_pos t). rewrite zlen_cbytes.
  destruct (Ensure_spec alimit p (Z.of_nat (csize t)) Hp) as (ok & p1 & E & Hens); [lia|].
  rewrite (pm_bind_eq _ _ _ _ _ E). destruct ok.
  - unfold store_word, mbind, option_bind. intros E'. repeat case_match; by simplify_eq.
  - intros [= <-]. split; [apply Hens|]. by rewrite (ens_frame _ _ _ _ _ Hens).
Qed.

(** Going back to where the bytes of [p] ended. *)
Lemma rolled_back p p' bs :
  parcel_wf alimit p -> parcel_wf alimit p' -> content p' = content p ++ bs -> writable_ p' = writable_ p ->
  parcel_wf alimit (set_write p' (writeCursor_ p) (dataSize_ p)).
Proof.
  intros Hp Hp' Hc Hw. pose proof (zlen_content alimit p Hp) as Hz. pose proof (zlen_content alimit p' Hp') as Hz'.
  rewrite Hc, zlen_app in Hz'. pose proof (zlen_nonneg bs). pose proof (wf_sync _ _ Hp) as Hs. pose proof Hp as []. pose proof Hp' as [].
  split; simpl; try done; [lia|]. rewrite Hw. done.
Qed.

Lemma content_rolled_back p p' bs :
  parcel_wf alimit p -> parcel_wf alimit p' -> content p' = content p ++ bs ->
  content (set_write p' (writeCursor_ p) (dataSize_ p)) = content p.
Proof.
  intros Hp Hp' Hc. pose proof (zlen_content alimit p Hp) as Hz. pose proof (zlen_content alimit p' Hp') as Hz'.
  rewrite Hc, zlen_app in Hz'. pose proof (zlen_nonneg bs). transitivity (ztake (dataSize_ p) (content p')).
  - unfold content. simpl. rewrite ztake_ztake. f_equal. lia.
  - rewrite Hc, <- Hz. apply ztake_app_exact.
Qed.

(** A failed write of a remote object leaves the parcel's bytes as they were. *)
Lemma WriteParcelable_rollback Marshalling o p p' :
  parcel_wf alimit p -> appends (Marshalling o) -> asRemote_ o = true ->
  WriteParcelable Marshalling (Some o) p = Some (false, p') ->
  content p' = content p /\ writeCursor_ p' = writeCursor_ p /\ dataSize_ p' = dataSize_ p.
Proof.
  intros Hp Happ Hr. unfold WriteParcelable. rewrite !pm_bind_get, Hr. cbn [negb].
  destruct (Write_emits alimit CInt32 1) as [Hw _].
  destruct (Hw p Hp) as (ok & p1 & b1 & E1 & A1 & _). rewrite (pm_bind_eq _ _ _ _ _ E1).
  destruct ok; [|intros [= <-]; by eapply Write_false].
  destruct (WriteRemoteObject Marshalling (Some o) p1) as [[ok p2]|] eqn:E2; [|unfold mbind at 1, pm_bind at 1; by rewrite E2].
  rewrite (pm_bind_eq _ _ _ _ _ E2). destruct ok; [done|]. intros [= <-].
  destruct (WriteRemoteObject_false Marshalling o p1 p2) as [Hp2 [b2 Hc2]]; [apply A1|done|done|].
  split_and!; [|done|done]. apply (content_rolled_back p p2 (b1 ++ b2) Hp Hp2).
  by rewrite Hc2, (app_content _ _ _ _ A1), app_assoc.
Qed.

(** ** The object methods keep the invariant *)

Lemma WriteRemoteObject_safe Marshalling object :
  (forall o, object = Some o -> extending (Marshalling o)) -> safe alimit (WriteRemoteObject Marshalling object).
Proof.
  intros Ho p Hp. destruct object as [o|]; [|by exists false, p].
  destruct (WriteRemoteObject_grows Marshalling o p Hp (Ho o eq_refl)) as (ok & p' & bs & E & Hp' & _). by exists ok, p'.
Qed.

Lemma WriteParcelable_safe Marshalling object :
  (forall o, object = Some o -> extending (Marshalling o)) -> safe alimit (WriteParcelable Marshalling object).
Proof.
  intros Ho p Hp. unfold WriteParcelable. rewrite !pm_bind_get. destruct object as [o|]; [|by apply Write_safe].
  specialize (Ho o eq_refl). destruct (Write_emits alimit CInt32 1) as [Hw _].
  destruct (Hw p Hp) as (ok & p1 & b1 & E1 & A1 & _). pose proof (app_wf _ _ _ _ A1) as Hp1.
  destruct (asRemote_ o) eqn:Hr; cbn [negb]; rewrite (pm_bind_eq _ _ _ _ _ E1);
    (destruct ok; [|by exists false, p1]); [|by apply extending_safe].
  destruct (WriteRemoteObject_grows Marshalling o p1 Hp1 Ho) as (ok & p2 & b2 & E2 & Hp2 & Hc2 & Hw2).
  rewrite (pm_bind_eq _ _ _ _ _ E2). destruct ok; [by exists true, p2|].
  eexists false, _. split; [done|]. destruct (env_fields _ _ (app_env _ _ _ _ A1)) as (_ & _ & _ & _ & Hw1 & _).
  apply (rolled_back p p2 (b1 ++ b2) Hp Hp2); [by rewrite Hc2, (app_content _ _ _ _ A1), app_assoc|congruence].
Qed.

Lemma WriteStrongParcelable_safe Marshalling object :
  (forall o, object = Some o -> extending (Marshalling (SetBehavior HOLD_OBJECT o))) ->
  safe alimit (WriteStrongParcelable Marshalling object).
Proof.
  intros Ho. destruct object as [o|]; (apply safe_bind; [|intros; apply safe_ret]); [|by apply Write_safe].
  apply WriteParcelable_safe. intros o' [= <-]. by apply Ho.
Qed.

Lemma WriteObject_safe Marshalling MarshallingNull object :
  (forall o, object = Some o -> extending (Marshalling o)) -> safe alimit MarshallingNull ->
  safe alimit (WriteObject Marshalling MarshallingNull object).
Proof. intros Ho Hn. destruct object as [o|]; [by apply WriteRemoteObject_safe|done]. Qed.

Lemma ReadObject_safe {T} (Unmarshalling : PM (option T)) : safe alimit Unmarshalling -> safe alimit (ReadObject Unmarshalling).
Proof. intros Hu p Hp. unfold ReadObject. rewrite pm_bind_get. destruct (CheckOffsets p); [by apply Hu|by exists None, p]. Qed.

Lemma ReadParcelable_safe {T} (Unmarshalling : PM (option T)) : safe alimit Unmarshalling -> safe alimit (ReadParcelable Unmarshalling).
Proof.
  intros Hu. apply safe_bind; [apply Read_safe|]. intros size. destruct (size =? 0); [apply safe_ret|done].
Qed.
End object_facts.

(** ** Protection of the objects in the buffer *)

Section protection.
Context `{LibcOk} `{SecurecOk} `{ParcelConfig} (alimit : Z).
Implicit Types p q : Parcel.

(** The objects the read cursor has passed lie behind it. *)
Definition passed (p : Parcel) : Prop :=
  Forall (fun o => o + sizeof_flat_binder <= readCursor_ p) (ztake (nextObjectIdx_ p) (objects p)).

(** The bytes from [rp] to [ub] miss every object. *)
Definition misses (rp ub : Z) (objs : list Z) : Prop :=
  Forall (fun o => o + sizeof_flat_binder <= rp \/ ub <= o) objs.

Lemma pass_objects_some rp ub l n :
  StronglySorted Z.le l -> Forall (fun o => 0 <= o < 2 ^ 63) l -> pass_objects rp ub l = Some n ->
  Forall (fun o => o + sizeof_flat_binder <= rp) (ztake n l) /\ Forall (Z.le ub) (zdrop n l).
Proof.
  intros Hs. revert n. induction Hs as [|o l Hs IH Hle]; intros n Hb; simpl.
  { intros [= <-]. split; constructor. }
  inversion_clear Hb as [|? ? Ho Hb'].
  destruct (Z.ltb_spec o ub).
  - destruct (Z.ltb_spec rp (u64 (o + sizeof_flat_binder))) as [|Hrp]; [done|].
    destruct (pass_objects rp ub l) as [m|] eqn:Em; [|done]. simpl. intros [= <-].
    destruct (IH m Hb' eq_refl) as [I1 I2]. apply pass_objects_bound in Em as Hm.
    unfold ztake, zdrop in *. rewrite Z2Nat.inj_add by lia. change (Z.to_nat 1) with 1%nat.
    rewrite Nat.add_1_r. simpl. split; [constructor; [|done]|done].
    unfold u64, sizeof_flat_binder in *. rewrite wrapU_small in Hrp by lia. lia.
  - intros [= <-]. split; [constructor|]. constructor; [lia|].
    eapply Forall_impl; [exact Hle|]. simpl. lia.
Qed.

Lemma pass_objects_none rp ub l :
  Forall (fun o => 0 <= o < 2 ^ 63) l -> pass_objects rp ub l = None ->
  exists o, In o l /\ o < ub /\ rp < o + sizeof_flat_binder.
Proof.
  induction 1 as [|o l Ho Hl IH]; simpl; [done|].
  destruct (Z.ltb_spec o ub); [|done].
  destruct (Z.ltb_spec rp (u64 (o + sizeof_flat_binder))) as [Hrp|].
  - intros _. exists o. unfold u64, sizeof_flat_binder in *. rewrite wrapU_small in Hrp by lia. auto.
  - destruct (pass_objects rp ub l); simpl; [done|]. intros _.
    destruct IH as (x & ? & ?); [done|]. exists x. auto.
Qed.

(** The check accepts a range exactly when it misses every object, and keeps
    the invariant it relies on. *)
Lemma ValidateReadData_exact p ub ok p' :
  PARCEL_OBJECT_CHECK = true -> parcel_wf alimit p -> StronglySorted Z.le (objects p) -> passed p ->
  ValidateReadData ub p = Some (ok, p') ->
  (ok = true -> misses (readCursor_ p) ub (objects p)) /\
  (ok = false -> ~ misses (readCursor_ p) ub (objects p)) /\
  passed p' /\ objects p' = objects p /\ readCursor_ p' = readCursor_ p.
Proof.
  intros Hcfg Hp Hs Hpass. unfold ValidateReadData. rewrite Hcfg.
  pose proof (zlen_objects alimit p Hp) as Hz. pose proof (wf_next _ _ Hp) as Hn.
  assert (Hsplit : objects p = ztake (nextObjectIdx_ p) (objects p) ++ zdrop (nextObjectIdx_ p) (objects p))
    by (symmetry; apply ztake_drop).
  assert (objects p = [] -> forall b : bool, Some (true, p) = Some (b, p') ->
    (b = true -> misses (readCursor_ p) ub (objects p)) /\
    (b = false -> ~ misses (readCursor_ p) ub (objects p)) /\
    passed p' /\ objects p' = objects p /\ readCursor_ p' = readCursor_ p) as Hnone.
  { intros E b [= <- <-]. split_and!; try done. intros _. rewrite E. constructor. }
  destruct (objectOffsets_ p) as [o|] eqn:Eo.
  2:{ apply Hnone. unfold objects, ztake. rewrite Eo. apply take_nil. }
  destruct (Z.eqb_spec (objectCursor_ p) 0) as [E0|].
  { apply Hnone. unfold objects. by rewrite E0. }
  pose proof (wf_offs _ _ Hp) as Hoff. rewrite Hsplit in Hs, Hoff.
  apply Forall_app in Hoff as [_ Hoff]. apply StronglySorted_app in Hs as (_ & _ & Hs).
  destruct (pass_objects _ _ _) as [k|] eqn:Ek; intros [= <- <-].
  - destruct (pass_objects_some _ _ _ _ Hs Hoff Ek) as [I1 I2].
    split_and!; [intros _|done| |unfold objects; simpl; by rewrite Eo|done].
    + unfold misses. rewrite Hsplit. apply Forall_app. split.
      { eapply Forall_impl; [exact Hpass|]. auto. }
      rewrite <- (ztake_drop k (zdrop _ _)). apply Forall_app.
      split; (eapply Forall_impl; [eassumption|]); auto.
    + apply pass_objects_bound in Ek. unfold passed. simpl. rewrite ztake_add by lia.
      apply Forall_app. assert (objects (set_objects p (Some o) (nextObjectIdx_ p + k) (objectCursor_ p) (objectsCapacity_ p))
              = objects p) as -> by (unfold objects; simpl; by rewrite Eo). done.
  - split_and!; try done. intros _ Hm.
    destruct (pass_objects_none _ _ _ Hoff Ek) as (x & Hx & ? & ?).
    unfold misses in Hm. rewrite Hsplit, Forall_app in Hm. destruct Hm as [_ Hm].
    rewrite Forall_forall in Hm. apply list_elem_of_In in Hx. specialize (Hm _ Hx). simpl in Hm. lia.
Qed.

Lemma passed_move p n :
  passed p -> 0 <= readCursor_ p -> 0 <= n -> readCursor_ p + n < 2 ^ 64 ->
  passed (set_read p (u64 (readCursor_ p + n))).
Proof.
  intros Hp Hr Hn Hb. unfold u64. rewrite wrapU_small by lia. unfold passed, objects in *. simpl.
  eapply Forall_impl; [exact Hp|]. simpl. lia.
Qed.

(** A typed read returns a value exactly when its bytes are data outside
    every object. *)
Lemma Read_ref_protected p t r p' :
  PARCEL_OBJECT_CHECK = true -> parcel_wf alimit p -> StronglySorted Z.le (objects p) -> passed p ->
  Read_ref t p = Some (r, p') ->
  let ub := readCursor_ p + Z.of_nat (csize t) in
  passed p' /\ objects p' = objects p /\
  (is_Some r <-> Z.of_nat (csize t) <= GetReadableBytes p /\ misses (readCursor_ p) ub (objects p)).
Proof.
  intros Hcfg Hp Hs Hpass. unfold Read_ref, read_word. set (n := Z.of_nat (csize t)).
  pose proof (csize_pos t) as Hn. fold n in Hn. intros E. set (ub := readCursor_ p + n).
  destruct (Z.leb_spec n (GetReadableBytes p)) as [Hle|Hlt].
  2:{ unfold mbind, pm_bind, pm_get, mret, pm_ret, id in E.
      destruct (Z.leb_spec n (GetReadableBytes p)); [lia|]. simplify_eq/=.
      split_and!; [done|done|]. split; [by intros []|lia]. }
  rewrite GetReadableBytes_eq in Hle. pose proof (wf_read _ _ Hp). pose proof (wf_size _ _ Hp).
  pose proof (wf_cap _ _ Hp).
  destruct (ValidateReadData_spec alimit p (u64 (readCursor_ p + n)) Hp) as (ok & k & Ev & Hp1).
  destruct (ValidateReadData_exact p _ ok _ Hcfg Hp Hs Hpass Ev) as (Hyes & Hno & Hpass1 & Ho1 & Hr1).
  assert (u64 (readCursor_ p + n) = ub) as Hub by (unfold u64; rewrite wrapU_small by lia; done).
  rewrite Hub in *.
  unfold mbind, pm_bind, pm_get, id in E.
  destruct (Z.leb_spec n (GetReadableBytes p)) as [Hle'|Hgt];
    [|rewrite GetReadableBytes_eq in Hgt; lia].
  rewrite Hub, Ev in E. fold n in E.
  pose proof (passed_move (set_next p k) n Hpass1) as Hmove. simpl in Hmove.
  destruct ok; unfold move_read, pm_put, pm_access in E; simpl in E.
  - destruct (load_unread alimit p n Hp) as [El|[? _]]; [lia|lia| |lia].
    unfold mbind, option_bind in El, E. rewrite El in E. unfold mret, pm_ret in E. simplify_eq/=.
    split_and!; [apply Hmove; lia|done|]. split; [auto|by eexists].
  - unfold mret, pm_ret in E. simplify_eq/=.
    split_and!; [apply Hmove; lia|done|]. split; [by intros []|]. intros [_ Hm]. by destruct (Hno eq_refl).
Qed.
End protection.
