(* ===== verification/ParcelMessage.v ===== *)
(** * ParcelMessage: whole messages in a parcel

    A message is a list of items of the types the parcel can carry, written
    item by item as a caller would and read back by the matching methods. *)

From S2P Require Import Prelude Parcel ParcelInv ParcelTyped ParcelString ParcelVector.
Open Scope Z_scope.

(** ** Items *)

(** The narrow types with an unaligned form. *)
Inductive narrow := NBool | NInt8 | NInt16 | NUint8 | NUint16.

Definition narrow_ctype (t : narrow) : ctype :=
  match t with
  | NBool => CBool | NInt8 => CInt8 | NInt16 => CInt16 | NUint8 => CUint8 | NUint16 => CUint16
  end.

Inductive shape :=
  | SScalar (t : ctype) | SUnaligned (t : narrow) | SString | SString16
  | SVector (t : ctype) | SStringVector | SString16Vector.

Inductive item :=
  | IScalar (t : ctype) (v : Z)
  | IUnaligned (t : narrow) (v : Z)
  | IString (s : list Z)
  | IString16 (s : list Z)
  | IVector (t : ctype) (v : list Z)
  | IStringVector (v : list (list Z))
  | IString16Vector (v : list (list Z)).

Definition shape_of (i : item) : shape :=
  match i with
  | IScalar t _ => SScalar t
  | IUnaligned t _ => SUnaligned t
  | IString _ => SString
  | IString16 _ => SString16
  | IVector t _ => SVector t
  | IStringVector _ => SStringVector
  | IString16Vector _ => SString16Vector
  end.

(** The values the C++ type system and the length limits admit. *)
Definition string_ok (s : list Z) : Prop := Forall is_byte s /\ zlen s < INT32_MAX.
Definition string16_ok (s : list Z) : Prop := Forall is_u16 s /\ zlen s <= INT32_MAX / 2 - 1.

Definition item_ok (i : item) : Prop :=
  match i with
  | IScalar t v => has_ctype t v
  | IUnaligned t v => has_ctype (narrow_ctype t) v
  | IString s => string_ok s
  | IString16 s => string16_ok s
  | IVector t v => zlen v <= INT_MAX /\ Forall (has_ctype t) v
  | IStringVector v => zlen v <= INT_MAX /\ Forall string_ok v
  | IString16Vector v => zlen v <= INT_MAX /\ Forall string16_ok v
  end.

Section messages.
Context `{Libc} `{Securec} `{ParcelConfig}.

Definition write_scalar (t : ctype) : Z -> PM bool :=
  match t with
  | CBool => WriteBool | CInt8 => WriteInt8 | CInt16 => WriteInt16 | CInt32 => WriteInt32
  | CInt64 => WriteInt64 | CUint8 => WriteUint8 | CUint16 => WriteUint16
  | CUint32 => WriteUint32 | CUint64 => WriteUint64 | CFloat => WriteFloat | CDouble => WriteDouble
  end.

Definition read_scalar (t : ctype) : PM (option Z) :=
  match t with
  | CBool => ReadBool_ref | CInt8 => ReadInt8_ref | CInt16 => ReadInt16_ref
  | CInt32 => ReadInt32_ref | CInt64 => ReadInt64_ref | CUint8 => ReadUint8_ref
  | CUint16 => ReadUint16_ref | CUint32 => ReadUint32_ref | CUint64 => ReadUint64_ref
  | CFloat => ReadFloat_ref | CDouble => ReadDouble_ref
  end.

(** The readers that return the value itself. *)
Definition get_scalar (t : ctype) : PM Z :=
  match t with
  | CBool => ReadBool | CInt8 => ReadInt8 | CInt16 => ReadInt16 | CInt32 => ReadInt32
  | CInt64 => ReadInt64 | CUint8 => ReadUint8 | CUint16 => ReadUint16 | CUint32 => ReadUint32
  | CUint64 => ReadUint64 | CFloat => ReadFloat | CDouble => ReadDouble
  end.

Definition write_unaligned (t : narrow) : Z -> PM bool :=
  match t with
  | NBool => WriteBoolUnaligned | NInt8 => WriteInt8Unaligned | NInt16 => WriteInt16Unaligned
  | NUint8 => WriteUint8Unaligned | NUint16 => WriteUint16Unaligned
  end.

Definition read_unaligned (t : narrow) : PM (option Z) :=
  match t with
  | NBool => b ← ReadBoolUnaligned; mret (Some b)
  | NInt8 => ReadInt8Unaligned | NInt16 => ReadInt16Unaligned
  | NUint8 => ReadUint8Unaligned | NUint16 => ReadUint16Unaligned
  end.

Definition write_vector (t : ctype) : list Z -> PM bool :=
  match t with
  | CBool => WriteBoolVector | CInt8 => WriteInt8Vector | CInt16 => WriteInt16Vector
  | CInt32 => WriteInt32Vector | CInt64 => WriteInt64Vector | CUint8 => WriteUInt8Vector
  | CUint16 => WriteUInt16Vector | CUint32 => WriteUInt32Vector | CUint64 => WriteUInt64Vector
  | CFloat => WriteFloatVector | CDouble => WriteDoubleVector
  end.

Definition read_vector (t : ctype) : option (list Z) -> PM (bool * option (list Z)) :=
  match t with
  | CBool => ReadBoolVector | CInt8 => ReadInt8Vector | CInt16 => ReadInt16Vector
  | CInt32 => ReadInt32Vector | CInt64 => ReadInt64Vector | CUint8 => ReadUInt8Vector
  | CUint16 => ReadUInt16Vector | CUint32 => ReadUInt32Vector | CUint64 => ReadUInt64Vector
  | CFloat => ReadFloatVector | CDouble => ReadDoubleVector
  end.

Definition write_item (i : item) : PM bool :=
  match i with
  | IScalar t v => write_scalar t v
  | IUnaligned t v => write_unaligned t v
  | IString s => WriteString (Some s)
  | IString16 s => WriteString16 (Some s)
  | IVector t v => write_vector t v
  | IStringVector v => WriteStringVector v
  | IString16Vector v => WriteString16Vector v
  end.

Definition as_vector {A} (mk : A -> item) (r : bool * option A) : option item :=
  match r with (true, Some v) => Some (mk v) | _ => None end.

Definition read_item (s : shape) : PM (option item) :=
  match s with
  | SScalar t => v ← read_scalar t; mret (IScalar t <$> v)
  | SUnaligned t => v ← read_unaligned t; mret (IUnaligned t <$> v)
  | SString => s ← ReadString; mret (Some (IString s))
  | SString16 => s ← ReadString16; mret (Some (IString16 s))
  | SVector t => r ← read_vector t (Some []); mret (as_vector (IVector t) r)
  | SStringVector => r ← ReadStringVector (Some []); mret (as_vector IStringVector r)
  | SString16Vector => r ← ReadString16Vector (Some []); mret (as_vector IString16Vector r)
  end.

Fixpoint write_message (m : list item) : PM bool :=
  match m with
  | [] => mret true
  | i :: m' => ok ← write_item i; if (ok : bool) then write_message m' else mret false
  end.

Fixpoint read_message (l : list shape) : PM (option (list item)) :=
  match l with
  | [] => mret (Some [])
  | s :: l' =>
    r ← read_item s;
    match r with
    | None => mret None
    | Some i => rest ← read_message l'; mret (cons i <$> rest)
    end
  end.
End messages.

(** ** The bytes of a message *)

Definition slot (t : ctype) : ctype :=
  match t with CBool | CInt8 | CInt16 => CInt32 | CUint8 | CUint16 => CUint32 | _ => t end.

(** The type an element of a vector travels as. *)
Definition elem_slot (t : ctype) : ctype := match t with CBool | CInt16 => CInt32 | _ => t end.

Definition item_bytes (i : item) : list Z :=
  match i with
  | IScalar t v => cbytes (slot t) v
  | IUnaligned t v => cbytes (narrow_ctype t) v
  | IString s => string_bytes 1 (zlen s) s
  | IString16 s => string_bytes 2 (zlen s) (encode16 s)
  | IVector t v => vector_bytes (Z.of_nat (csize (elem_slot t))) (cbytes (elem_slot t)) v
  | IStringVector v => vector_bytes sizeof_string (fun s => string_bytes 1 (zlen s) s) v
  | IString16Vector v => vector_bytes sizeof_string (fun s => string_bytes 2 (zlen s) (encode16 s)) v
  end.

Definition message_bytes (m : list item) : list Z := m ≫= item_bytes.

Section message_facts.
Context `{LibcOk} `{SecurecOk} `{ParcelConfig} (alimit : Z).

Lemma cbytes_wrap t v w : has_ctype t v -> has_ctype w v -> cast w v = v.
Proof. done. Qed.

Lemma slot_ok t v : has_ctype t v -> has_ctype (slot t) v.
Proof.
  destruct t; simpl; intros Hv; try done;
    first [by (eapply cast_narrow; [|exact Hv]; auto)|by (eapply cast_narrow_unsigned; [|exact Hv]; auto)].
Qed.

Lemma elem_slot_ok t v : has_ctype t v -> has_ctype (elem_slot t) v.
Proof. destruct t; simpl; intros Hv; try done; (eapply cast_narrow; [|exact Hv]; auto). Qed.

Lemma write_scalar_emits t v : has_ctype t v -> emits alimit (write_scalar t v) (cbytes (slot t) v).
Proof.
  intros Hv. pose proof (slot_ok t v Hv) as Hs. unfold has_ctype in Hs.
  destruct t; cbn [write_scalar slot] in *; unfold WriteBool, WriteInt8, WriteInt16, WriteUint8, WriteUint16;
    rewrite ?Hs; apply Write_emits.
Qed.

Lemma u16_int32 v : has_ctype CUint16 v -> has_ctype CInt32 v.
Proof.
  unfold has_ctype. intros <-. simpl. pose proof (wrapU_range 16 v). apply wrapS_small; unfold u16; lia.
Qed.

Lemma u8_int32 v : has_ctype CUint8 v -> has_ctype CInt32 v.
Proof.
  unfold has_ctype. intros <-. simpl. pose proof (wrapU_range 8 v). apply wrapS_small; unfold u8; lia.
Qed.

Lemma read_scalar_reads t v :
  has_ctype t v -> reads alimit (read_scalar t) (cbytes (slot t) v) (Some v).
Proof.
  intros Hv. destruct t; simpl; try (by apply Read_ref_reads);
    (apply ReadPadded_reads; [|done]); first
    [ by (eapply cast_narrow; [|exact Hv]; auto) | by apply u8_int32 | by apply u16_int32 ].
Qed.

Lemma read_unaligned_reads t v :
  has_ctype (narrow_ctype t) v ->
  reads alimit (read_unaligned t) (cbytes (narrow_ctype t) v) (Some v).
Proof.
  intros Hv. destruct t; simpl; try (by apply Read_ref_reads).
  rewrite <- (app_nil_r (cbytes CBool v)).
  eapply reads_bind; [by apply Read_reads|apply reads_ret].
Qed.

Lemma write_vector_emits t v :
  zlen v <= INT_MAX -> Forall (has_ctype t) v ->
  emits alimit (write_vector t v) (item_bytes (IVector t v)).
Proof.
  intros Hz Hv.
  assert (Forall (fun x => has_ctype (elem_slot t) x) v) as Hs.
  { eapply Forall_impl; [exact Hv|]. apply elem_slot_ok. }
  destruct t; simpl; (apply WriteVector_emits || apply WriteFixedAlignVector_emits);
    try done; (eapply Forall_impl; [exact Hs|]); intros x Hx; cbn [elem_slot] in Hx;
    unfold WriteBool, WriteInt16; unfold has_ctype in Hx; try rewrite Hx; apply Write_emits.
Qed.

Lemma read_vector_reads t v :
  zlen v <= INT_MAX -> Forall (has_ctype t) v ->
  reads alimit (read_vector t (Some [])) (item_bytes (IVector t v)) (true, Some v).
Proof.
  intros Hz Hv.
  assert (zlen v * Z.of_nat (csize (elem_slot t)) <= zlen (v ≫= cbytes (elem_slot t))) as Hfit.
  { rewrite (zlen_bind_const _ (Z.of_nat (csize (elem_slot t)))); [lia|]. intros. apply zlen_cbytes. }
  destruct t; simpl in *; (apply ReadVector_reads || apply ReadFixedAlignVector_reads);
    try done; (eapply Forall_impl; [exact Hv|]); intros x Hx;
    (by apply Read_ref_reads) || (apply ReadPadded_reads; [eapply cast_narrow; [|exact Hx]; auto|done]).
Qed.

Lemma write_item_emits i : item_ok i -> emits alimit (write_item i) (item_bytes i).
Proof.
  destruct i; simpl; intros Hi.
  - by apply write_scalar_emits.
  - destruct t; apply Write_emits.
  - destruct Hi. by apply WriteString_emits.
  - destruct Hi. by apply WriteString16_emits.
  - destruct Hi. by apply write_vector_emits.
  - destruct Hi as [Hz Hi]. apply WriteVector_emits; [unfold sizeof_string; lia|done|].
    eapply Forall_impl; [exact Hi|]. intros s []. by apply WriteString_emits.
  - destruct Hi as [Hz Hi]. apply WriteVector_emits; [unfold sizeof_string; lia|done|].
    eapply Forall_impl; [exact Hi|]. intros s []. by apply WriteString16_emits.
Qed.

(** The padding of a vector of strings is empty. *)
Lemma string_vector_bytes (enc : list Z -> list Z) (v : list (list Z)) :
  zlen v <= INT_MAX ->
  vector_bytes sizeof_string enc v = cbytes CInt32 (zlen v) ++ (v ≫= enc).
Proof.
  intros Hz. unfold vector_bytes, sizeof_string. unfold INT_MAX in Hz. pose proof (zlen_nonneg v).
  rewrite GetPadSize_eq by lia.
  replace ((- (zlen v * 24)) mod 4) with 0; [by rewrite app_nil_r|].
  symmetry. apply Z.mod_divide; [lia|]. exists (- (zlen v * 6)). lia.
Qed.

Lemma string_vector_fits (enc : list Z -> list Z) (v : list (list Z)) :
  (forall s, 1 <= zlen (enc s)) -> zlen v <= zlen (v ≫= enc).
Proof.
  intros He. induction v as [|s v IH]; [done|].
  rewrite bind_cons, zlen_app, zlen_cons. specialize (He s). lia.
Qed.

Lemma string_bytes_pos width n s : 1 <= zlen (string_bytes width n s).
Proof.
  unfold string_bytes. rewrite zlen_app, zlen_cbytes.
  match goal with |- context [_ + zlen ?l] => pose proof (zlen_nonneg l) end. simpl. lia.
Qed.

Lemma string16_reads s :
  string16_ok s -> reads alimit ReadString16 (string_bytes 2 (zlen s) (encode16 s)) s.
Proof.
  intros [Hu Hz]. apply ReadString16_reads; [done|].
  change (INT32_MAX / 2 - 1) with 1073741822 in Hz. unfold INT32_MAX. lia.
Qed.

Lemma read_item_reads i : item_ok i -> reads alimit (read_item (shape_of i)) (item_bytes i) (Some i).
Proof.
  assert (forall z, 0 <= z -> z <= INT_MAX -> z <= vec_max_size sizeof_string) as Hmax.
  { intros z _ Hz. transitivity INT_MAX; [done|]. by vm_compute. }
  intros Hi.
  destruct i as [t v|t v|s|s|t v|v|v]; cbn [item_ok read_item shape_of item_bytes] in Hi |- *.
  - refine (reads_map _ _ (fmap (IScalar t)) _ (Some v) _). by apply read_scalar_reads.
  - refine (reads_map _ _ (fmap (IUnaligned t)) _ (Some v) _). by apply read_unaligned_reads.
  - destruct Hi. refine (reads_map _ _ (fun s => Some (IString s)) _ _ _). by apply ReadString_reads.
  - refine (reads_map _ _ (fun s => Some (IString16 s)) _ _ _). by apply string16_reads.
  - destruct Hi. refine (reads_map _ _ (as_vector (IVector t)) _ (true, Some v) _). by apply read_vector_reads.
  - destruct Hi as [Hz Hi]. pose proof (zlen_nonneg v). rewrite string_vector_bytes by done.
    refine (reads_map _ _ (as_vector IStringVector) _ (true, Some v) _).
    apply read_string_vector_reads; [done| |apply string_vector_fits; intros; apply string_bytes_pos|auto].
    eapply Forall_impl; [exact Hi|]. intros s []. by apply ReadString_reads.
  - destruct Hi as [Hz Hi]. pose proof (zlen_nonneg v). rewrite string_vector_bytes by done.
    refine (reads_map _ _ (as_vector IString16Vector) _ (true, Some v) _).
    apply read_string_vector_reads; [done| |apply string_vector_fits; intros; apply string_bytes_pos|auto].
    eapply Forall_impl; [exact Hi|]. by apply string16_reads.
Qed.

Lemma write_message_emits m :
  Forall item_ok m -> emits alimit (write_message m) (message_bytes m).
Proof.
  unfold message_bytes. induction 1 as [|i m Hi Hm IH]; [apply emits_true|].
  rewrite bind_cons. apply emits_bind; [by apply write_item_emits|done].
Qed.

Lemma read_message_reads m :
  Forall item_ok m -> reads alimit (read_message (shape_of <$> m)) (message_bytes m) (Some m).
Proof.
  unfold message_bytes. induction 1 as [|i m Hi Hm IH]; [apply reads_ret|].
  rewrite bind_cons. simpl. eapply reads_bind; [by apply read_item_reads|]. simpl.
  rewrite <- (app_nil_r (m ≫= item_bytes)). eapply reads_bind; [done|apply reads_ret].
Qed.
End message_facts.

(** ** Fresh parcels *)

Lemma newParcel_wf a alimit : AllocatorOk a alimit -> parcel_wf alimit (newParcel a).
Proof.
  intros Ha. split; simpl; unfold DEFAULT_CPACITY, sizeof_flat_binder in *; try done; try lia.
  by exists a.
Qed.

Lemma newParcel_room a alimit n :
  n <= DEFAULT_CPACITY -> DEFAULT_CPACITY <= alimit -> room alimit (newParcel a) n.
Proof. unfold room, newParcel, DEFAULT_CPACITY, SECUREC_MEM_MAX_LEN; simpl. lia. Qed.

(** A message that fits is written whole and read back. *)
Lemma message_fits `{LibcOk} `{SecurecOk} `{ParcelConfig} (m : list item) (id : Z) :
  Forall item_ok m -> zlen (message_bytes m) <= DEFAULT_CPACITY -> DEFAULT_CPACITY <= heap_limit ->
  exists p q, write_message m (Parcel_ctor None id) = Some (true, p) /\
    content p = message_bytes m /\
    read_message (shape_of <$> m) p = Some (Some m, q) /\
    GetReadableBytes q = 0 /\ content q = content p.
Proof.
  intros Hm Hfit Hheap.
  pose proof (newParcel_wf (DefaultAllocator id) heap_limit _) as Hp0.
  destruct (emits_writes _ _ _ (write_message_emits heap_limit m Hm) _ Hp0)
    as (p & E & A); [done|by apply newParcel_room|].
  assert (content p = message_bytes m) as Hc by apply (app_content _ _ _ _ A).
  pose proof (app_env _ _ _ _ A) as Henv. unfold env in Henv. simpl in Henv. simplify_eq.
  pose proof (app_wf _ _ _ _ A) as Hp.
  assert (unread p = message_bytes m ++ []) as Hu.
  { rewrite app_nil_r, <- Hc. unfold unread.
    assert (readCursor_ p = 0) as -> by congruence. done. }
  assert (no_objects p) as Hno by (intros _; congruence).
  eexists p, _. split_and!; [done|done| | |].
  - apply (read_message_reads heap_limit m Hm p [] Hp Hno Hu).
  - destruct (reads_state _ _ _ _ Hp Hno Hu) as (Hq & _ & Huq).
    by rewrite <- (zlen_unread heap_limit), Huq.
  - done.
Qed.
