(* ===== verification/ParcelUse.v ===== *)
(** * ParcelUse: arbitrary sequences of operations on a parcel

    The public methods of [class Parcel] as commands with the arguments a
    caller may pass; [run] executes a sequence of them. *)

From S2P Require Import Prelude Parcel ParcelInv ParcelTyped ParcelString ParcelVector ParcelObject ParcelMessage.
From stdpp Require Import sorting.
Open Scope Z_scope.

(** ** The settings keep the invariant *)

Section settings.
Context `{LibcOk} `{SecurecOk} `{ParcelConfig} (alimit : Z).
Implicit Types p q : Parcel.

Lemma SetMaxCapacity_safe m : m < 2 ^ 64 -> safe alimit (SetMaxCapacity m).
Proof.
  intros Hm p Hp. unfold SetMaxCapacity. destruct (Z.ltb_spec (maxDataCapacity_ p) m).
  - eexists _, _. split; [done|]. destruct Hp. split; simpl; done || lia.
  - by exists false, p.
Qed.

Lemma SetDataCapacity_safe n : safe alimit (SetDataCapacity n).
Proof.
  intros p Hp. unfold SetDataCapacity. destruct (wf_alloc _ _ Hp) as (a & -> & Ha).
  pose proof (wf_size _ _ Hp).
  destruct (Z.leb_spec n (dataSize_ p)); [by exists false, p|].
  destruct (Realloc a (data_ p) n) as [d|] eqn:E; [|by exists false, p].
  eexists _, _. split; [done|]. apply realloc_spec in E as (Hz & Hn & _ & Hb); [|lia].
  apply wf_set_data; try done; [|lia]. apply Hb, (wf_block alimit p Hp).
Qed.

Lemma FlushBuffer_safe : safe alimit FlushBuffer.
Proof.
  intros p Hp. unfold FlushBuffer. destruct (wf_alloc _ _ Hp) as (a & -> & Ha).
  set (p1 := match data_ p with Some _ => _ | None => p end).
  assert (parcel_wf alimit p1) as Hp1.
  { unfold p1. destruct (data_ p); [|done]. destruct Hp. split; simpl; done || lia. }
  eexists _, _. split; [done|]. destruct (objectOffsets_ p1); [by apply ClearObjects_wf|done].
Qed.

Lemma ParseFrom_safe data size :
  match data with
  | Some d => zlen d = size /\ size < 2 ^ 63 /\ Forall is_byte d
  | None => size = 0
  end -> safe alimit (ParseFrom data size).
Proof.
  intros Hd p Hp. unfold ParseFrom. destruct (data_ p); [by exists false, p|].
  set (p1 := set_readonly _). assert (parcel_wf alimit p1) as Hp1.
  { assert (0 <= size < 2 ^ 63).
    { destruct data as [d|]; [|lia]. destruct Hd as [<- ?]. pose proof (zlen_nonneg d). lia. }
    pose proof Hp as []. split; simpl; try done; try lia. destruct data; [|done]. by destruct Hd as (? & ? & ?). }
  eexists _, _. split; [done|].
  destruct PARCEL_OBJECT_CHECK; [|done]. destruct (objectOffsets_ p1); [by apply ClearObjects_wf|done].
Qed.

Lemma set_allocator_wf p a :
  parcel_wf alimit p -> AllocatorOk a alimit -> parcel_wf alimit (set_allocator p (Some a)).
Proof. intros [] Ha. split; simpl; try done. by exists a. Qed.

Lemma SetAllocator_safe a :
  match a with Some a => AllocatorOk a alimit | None => True end -> safe alimit (SetAllocator a).
Proof.
  intros Ha p Hp. unfold SetAllocator. destruct a as [a|]; [|by exists false, p].
  destruct (wf_alloc _ _ Hp) as (a0 & -> & _).
  destruct (alloc_id a0 =? alloc_id a); [by exists false, p|].
  pose proof (wf_data _ _ Hp) as Hd. pose proof (wf_size _ _ Hp).
  destruct (data_ p) as [d|] eqn:Ed; [|eexists _, _; split; [done|]; by apply set_allocator_wf].
  destruct Hd as [Hz Hb].
  destruct (Z.ltb_spec 0 (dataSize_ p)); [|eexists _, _; split; [done|]; by apply set_allocator_wf].
  destruct (Alloc a (dataSize_ p)) as [d'|] eqn:E; [|by exists false, p].
  apply alloc_spec in E as (Hz' & Hn & Hb'); [|lia].
  destruct (Z.ltb_spec (zlen d) (dataSize_ p)); [lia|].
  destruct (memcpy_s _ _ _ _) as [e d''] eqn:Em.
  destruct (e =? EOK); [|by exists false, p].
  eexists _, _. split; [done|]. apply set_allocator_wf; [|done].
  apply wf_set_data; try done; [by eapply memcpy_s_zlen|].
  by eapply memcpy_s_byte; eauto with zlist.
Qed.

Lemma RewindRead_safe n : 0 <= n -> safe alimit (RewindRead n).
Proof.
  intros Hn p Hp. unfold RewindRead. destruct (Z.ltb_spec (dataSize_ p) n); [by exists false, p|].
  eexists _, _. split; [done|]. pose proof (wf_cap _ _ Hp). pose proof Hp as [].
  split; simpl; try done; lia.
Qed.

Lemma keep_objects_prefix n l : exists k, (k <= length l)%nat /\ reverse (keep_objects n (reverse l)) = take k l.
Proof.
  induction l as [|x l IH] using rev_ind; [by exists 0%nat|].
  rewrite reverse_app. simpl. destruct (_ <=? n).
  - exists (length (l ++ [x])). split; [done|]. rewrite firstn_all.
    change (x :: reverse l) with (reverse [x] ++ reverse l). by rewrite <- reverse_app, reverse_involutive.
  - destruct IH as (k & Hk & E). exists k. rewrite length_app. split; [lia|].
    by rewrite E, take_app_le by lia.
Qed.

Lemma keep_objects_zlen n l : 0 <= zlen (keep_objects n (reverse l)) <= zlen l.
Proof.
  destruct (keep_objects_prefix n l) as (k & Hk & E). unfold zlen.
  assert (length (keep_objects n (reverse l)) = k) as ->; [|lia].
  rewrite <- length_reverse, E, length_take. lia.
Qed.

Lemma RewindWrite_safe n : 0 <= n -> safe alimit (RewindWrite n).
Proof.
  intros Hn p Hp. unfold RewindWrite. destruct (Z.ltb_spec (dataSize_ p) n); [by exists false, p|].
  set (p1 := set_write p n n). pose proof (wf_cap _ _ Hp). pose proof (wf_size _ _ Hp).
  assert (parcel_wf alimit p1) as Hp1.
  { pose proof Hp as []. split; simpl; try done; lia. }
  destruct PARCEL_OBJECT_CHECK; [|by exists true, p1].
  destruct (objectOffsets_ p1) as [o|] eqn:Eo; [|by exists true, p1].
  pose proof (wf_objcur _ _ Hp1) as Hoc. pose proof (wf_objs _ _ Hp1) as Hob. rewrite Eo in Hob. simpl in Hob.
  destruct (Z.eqb_spec (objectCursor_ p1) 0); [by exists true, p1|].
  destruct (znth_is_Some o (objectCursor_ p1 - 1)) as [last ->]; [simpl in *; lia|]. cbn [mbind option_bind].
  destruct (n <? u64 (last + sizeof_flat_binder)); [|by exists true, p1].
  pose proof (keep_objects_zlen n (objects p1)) as Hk. rewrite (zlen_objects alimit) in Hk by done.
  set (k := zlen (keep_objects n (reverse (objects p1)))) in *.
  destruct (Z.eqb_spec k 0); [eexists _, _; split; [done|]; by apply ClearObjects_wf|].
  unfold libc_realloc. destruct (_ <=? heap_limit); [|by exists false, p1].
  eexists _, _. split; [done|]. pose proof Hp1 as []. split; simpl in *; try done; try lia.
  - by rewrite resize_block_zlen by lia.
  - unfold objects. simpl. rewrite resize_block_prefix by lia.
    assert (ztake k o = ztake k (objects p1)) as ->; [|by apply Forall_ztake].
    unfold objects. change (objectOffsets_ p1) with (objectOffsets_ p). rewrite Eo. simpl.
    rewrite ztake_ztake. f_equal. lia.
Qed.

(** What the trimming loop keeps of a table of offsets. *)
Lemma keep_objects_spec n l :
  Forall (fun o => 0 <= o < 2 ^ 63) l -> StronglySorted Z.le l ->
  exists k, zlen (keep_objects n (reverse l)) = k /\ 0 <= k <= zlen l /\
    Forall (fun o => o + sizeof_flat_binder <= n) (ztake k l) /\
    Forall (fun o => n < o + sizeof_flat_binder) (zdrop k l).
Proof.
  unfold sizeof_flat_binder. induction l as [|x l IH] using rev_ind; intros Hb Hs.
  { exists 0. split_and!; try done; constructor. }
  apply Forall_app in Hb as [Hb Hx]. inversion_clear Hx as [|? ? Hx0 _].
  apply StronglySorted_app in Hs as (Hle & Hs & _).
  rewrite reverse_app. simpl. unfold sizeof_flat_binder at 1.
  assert (u64 (x + 24) = x + 24) as -> by (apply wrapU_small; lia).
  pose proof (zlen_nonneg l) as Hl.
  destruct (Z.leb_spec (x + 24) n).
  - exists (zlen (l ++ [x])). split_and!; [|apply zlen_nonneg|lia| |].
    + rewrite zlen_cons, zlen_app. unfold zlen. rewrite length_reverse. simpl. lia.
    + rewrite ztake_ge by done. apply Forall_app. split; [|by repeat constructor].
      apply Forall_forall. intros y Hy. specialize (Hle y x Hy ltac:(by left)). lia.
    + rewrite zdrop_ge by lia. constructor.
  - destruct (IH Hb Hs) as (k & E & Hk & Ht & Hd). exists k.
    assert (zlen (l ++ [x]) = zlen l + 1) as Hz by (by rewrite zlen_app).
    split_and!; [done|lia|lia|by rewrite ztake_app_l by lia|].
    rewrite zdrop_app_l by lia. apply Forall_app. split; [done|by repeat constructor].
Qed.

(** Rewinding the write position drops the bytes after it and exactly the
    objects that no longer fit. *)
Lemma RewindWrite_trims n p p' :
  PARCEL_OBJECT_CHECK = true -> parcel_wf alimit p -> StronglySorted Z.le (objects p) -> 0 <= n ->
  RewindWrite n p = Some (true, p') ->
  content p' = ztake n (content p) /\ dataSize_ p' = n /\
  exists k, objects p' = ztake k (objects p) /\ 0 <= k <= objectCursor_ p /\
    Forall (fun o => o + sizeof_flat_binder <= n) (ztake k (objects p)) /\
    Forall (fun o => n < o + sizeof_flat_binder) (zdrop k (objects p)).
Proof.
  intros Hcfg Hp Hs Hn. unfold RewindWrite. destruct (Z.ltb_spec (dataSize_ p) n); [done|].
  assert (forall q, data_ q = data_ p -> dataSize_ q = n -> content q = ztake n (content p)) as Hc.
  { intros q Ed Es. unfold content. rewrite Ed, Es, ztake_ztake. f_equal. lia. }
  pose proof (zlen_objects alimit p Hp) as Hz. pose proof (wf_objcur _ _ Hp) as Hoc.
  pose proof (wf_objs _ _ Hp) as Hob. pose proof (wf_offs _ _ Hp) as Hoff.
  destruct (keep_objects_spec n (objects p) Hoff Hs) as (k & Ek & Hk & Ht & Hd).
  rewrite Hz in Hk.
  assert (objectCursor_ p = 0 -> k = 0) as Hk0 by lia.
  rewrite Hcfg. simpl. destruct (objectOffsets_ p) as [o|] eqn:Eo.
  2:{ intros [= <-]. split_and!; [by apply Hc|done|]. exists k. split_and!; try done; try lia.
      change (objects (set_write p n n)) with (objects p). unfold objects. rewrite Eo. unfold ztake.
      simpl. by rewrite !take_nil. }
  destruct (Z.eqb_spec (objectCursor_ p) 0) as [E0|].
  { intros [= <-]. split_and!; [by apply Hc|done|]. exists k. split_and!; try done; try lia.
    rewrite (Hk0 E0). change (objects (set_write p n n)) with (objects p).
    unfold objects. rewrite E0. rewrite ztake_ztake. done. }
  destruct (znth o (objectCursor_ p - 1)) as [last|] eqn:El; [|done]. cbn [mbind option_bind].
  change (objects (set_write p n n)) with (objects p). rewrite Ek.
  assert (objects p = ztake (objectCursor_ p) o) as Hobj by (unfold objects; by rewrite Eo).
  assert (last ∈ zdrop (objectCursor_ p - 1) (objects p)) as Hlast.
  { apply list_elem_of_lookup_2 with (i := 0%nat). unfold zdrop. rewrite lookup_drop, Nat.add_0_r.
    rewrite Hobj. unfold znth in El. destruct (Z.ltb_spec (objectCursor_ p - 1) 0); [done|].
    unfold ztake. rewrite lookup_take_lt by lia. done. }
  destruct (Z.ltb_spec n (u64 (last + sizeof_flat_binder))) as [Hlt|Hge].
  - destruct (Z.eqb_spec k 0) as [->|].
    + intros [= <-]. split_and!; [by apply Hc|done|]. exists 0. split_and!; try done; try lia.
    + unfold libc_realloc. destruct (_ <=? heap_limit); [|done]. intros [= <-].
      split_and!; [by apply Hc|done|]. exists k. split_and!; try done; try lia.
      simpl in Hob. unfold objects at 1. simpl. rewrite resize_block_prefix by lia.
      rewrite Hobj, ztake_ztake. f_equal. lia.
  - intros [= <-]. split_and!; [by apply Hc|done|]. exists k. split_and!; try done; try lia.
    change (objects (set_write p n n)) with (objects p).
    rewrite ztake_ge; [done|]. destruct (Z.le_gt_cases (objectCursor_ p) k); [lia|]. exfalso.
    assert (last ∈ zdrop k (objects p)) as Hin.
    { unfold zdrop in *. apply list_elem_of_lookup in Hlast as (i & Hi).
      rewrite lookup_drop in Hi. apply list_elem_of_lookup_2 with (i := (Z.to_nat (objectCursor_ p - 1) + i - Z.to_nat k)%nat).
      rewrite lookup_drop. rewrite <- Hi. f_equal. lia. }
    rewrite Forall_forall in Hd. specialize (Hd _ Hin).
    assert (0 <= last < 2 ^ 63) as Hlb.
    { rewrite Forall_forall in Hoff. apply Hoff. rewrite <- (ztake_drop k). apply elem_of_app. by right. }
    unfold u64, sizeof_flat_binder in *. rewrite wrapU_small in Hge by lia. lia.
Qed.
End settings.

(** ** Commands *)

Inductive cmd :=
  | CWrite (i : item)
  | CRead (s : shape)
  | CGet (t : ctype)
  | CReadVectorInto (t : ctype) (v : option (list Z))
  | CWriteCString (mem : option (list Z))
  | CReadCString
  | CWriteString16WithLength (mem : option (list Z)) (len : Z)
  | CWriteString8WithLength (mem : option (list Z)) (len : Z)
  | CReadString16WithLength
  | CReadString8WithLength
  | CReadString_ref
  | CReadString16_ref
  | CWriteBuffer (data : option (list Z)) (size : Z)
  | CWriteUnpadBuffer (data : option (list Z)) (size : Z)
  | CWriteBufferAddTerminator (data : option (list Z)) (size typeSize : Z)
  | CReadBuffer (length : Z)
  | CReadBuffer_validate (length : Z) (isValidate : bool)
  | CReadUnpadBuffer (length : Z)
  | CSkipBytes (bytes : Z)
  | CInjectOffsets (offsets : option (list Z)) (offsetSize : Z)
  | CSetMaxCapacity (m : Z)
  | CSetDataCapacity (n : Z)
  | CSetAllocator (a : option Allocator)
  | CFlushBuffer
  | CParseFrom (data : option (list Z)) (size : Z)
  | CRewindRead (n : Z)
  | CRewindWrite (n : Z)
  | CWriteRemoteObject (Marshalling : Parcelable -> PM bool) (object : option Parcelable)
  | CWriteParcelable (Marshalling : Parcelable -> PM bool) (object : option Parcelable)
  | CWriteStrongParcelable (Marshalling : Parcelable -> PM bool) (object : option Parcelable)
  | CWriteObject (Marshalling : Parcelable -> PM bool) (MarshallingNull : PM bool) (object : option Parcelable)
  | CReadObject (Unmarshalling : PM (option Z))
  | CReadParcelable (Unmarshalling : PM (option Z))
  | CReadStrongParcelable (Unmarshalling : PM (option Z)).

(** A pointer argument is null or points to enough memory, a size is a [size_t]. *)
Definition block_ok (data : option (list Z)) (size : Z) : Prop :=
  match data with
  | Some d => Forall is_byte d /\ 0 <= size <= zlen d /\ zlen d < 2 ^ 62
  | None => True
  end.

Definition cstring_ok (mem : option (list Z)) : Prop :=
  match mem with
  | Some m => exists s rest, m = s ++ 0 :: rest /\ Forall is_byte s /\ Forall (fun b => b <> 0) s /\
                Forall is_byte rest /\ zlen s < INT32_MAX /\ zlen m < 2 ^ 62
  | None => True
  end.

Definition units_ok (mem : option (list Z)) (len : Z) : Prop :=
  match mem with Some m => 0 <= len <= zlen m /\ len <= INT32_MAX | None => True end.

(** The methods of the caller's classes that the parcel calls back: a
    [Marshalling] only appends bytes, an [Unmarshalling] may do anything that
    keeps the parcel valid. *)
Definition object_ok (alimit : Z) (Marshalling : Parcelable -> PM bool) (object : option Parcelable) : Prop :=
  forall o, object = Some o -> extending alimit (Marshalling o).

Definition cmd_ok (alimit : Z) (c : cmd) : Prop :=
  match c with
  | CWrite i => item_ok i
  | CWriteCString mem => cstring_ok mem
  | CWriteString16WithLength mem len => units_ok mem len
  | CWriteString8WithLength mem len => units_ok mem len /\ block_ok mem 0
  | CWriteBuffer data size | CWriteUnpadBuffer data size => block_ok data size
  | CWriteBufferAddTerminator data size typeSize =>
    block_ok data (size - typeSize) /\ 0 <= typeSize /\ 0 <= size < 2 ^ 62
  | CReadUnpadBuffer n => 0 <= n < 2 ^ 64
  | CSkipBytes n => 0 <= n
  | CInjectOffsets (Some o) n => n <= zlen o /\ Forall (fun x => 0 <= x < 2 ^ 64) o
  | CSetMaxCapacity m => m < 2 ^ 64
  | CSetAllocator (Some a) => AllocatorOk a alimit
  | CParseFrom (Some d) size => zlen d = size /\ size < 2 ^ 63 /\ Forall is_byte d
  | CParseFrom None size => size = 0
  | CRewindRead n | CRewindWrite n => 0 <= n
  | CWriteRemoteObject m o | CWriteParcelable m o => object_ok alimit m o
  | CWriteStrongParcelable m o => object_ok alimit m (SetBehavior HOLD_OBJECT <$> o)
  | CWriteObject m null o => object_ok alimit m o /\ safe alimit null
  | CReadObject u | CReadParcelable u | CReadStrongParcelable u => safe alimit u
  | _ => True
  end.

Section commands.
Context `{Libc} `{Securec} `{ParcelConfig}.

Definition ignore {A} (m : PM A) : PM unit := m;; mret tt.

Definition exec (c : cmd) : PM unit :=
  match c with
  | CWrite i => ignore (write_item i)
  | CRead s => ignore (read_item s)
  | CGet t => ignore (get_scalar t)
  | CReadVectorInto t v => ignore (read_vector t v)
  | CWriteCString mem => ignore (WriteCString mem)
  | CReadCString => ignore ReadCString
  | CWriteString16WithLength mem len => ignore (WriteString16WithLength mem len)
  | CWriteString8WithLength mem len => ignore (WriteString8WithLength mem len)
  | CReadString16WithLength => ignore ReadString16WithLength
  | CReadString8WithLength => ignore ReadString8WithLength
  | CReadString_ref => ignore ReadString_ref
  | CReadString16_ref => ignore ReadString16_ref
  | CWriteBuffer data size => ignore (WriteBuffer data size)
  | CWriteUnpadBuffer data size => ignore (WriteUnpadBuffer data size)
  | CWriteBufferAddTerminator data size typeSize => ignore (WriteBufferAddTerminator data size typeSize)
  | CReadBuffer n => ignore (ReadBuffer n)
  | CReadBuffer_validate n v => ignore (ReadBuffer_validate n v)
  | CReadUnpadBuffer n => ignore (ReadUnpadBuffer n)
  | CSkipBytes n => SkipBytes n
  | CInjectOffsets o n => InjectOffsets o n
  | CSetMaxCapacity m => ignore (SetMaxCapacity m)
  | CSetDataCapacity n => ignore (SetDataCapacity n)
  | CSetAllocator a => ignore (SetAllocator a)
  | CFlushBuffer => FlushBuffer
  | CParseFrom d n => ignore (ParseFrom d n)
  | CRewindRead n => ignore (RewindRead n)
  | CRewindWrite n => ignore (RewindWrite n)
  | CWriteRemoteObject m o => ignore (WriteRemoteObject m o)
  | CWriteParcelable m o => ignore (WriteParcelable m o)
  | CWriteStrongParcelable m o => ignore (WriteStrongParcelable m o)
  | CWriteObject m null o => ignore (WriteObject m null o)
  | CReadObject u => ignore (ReadObject u)
  | CReadParcelable u => ignore (ReadParcelable u)
  | CReadStrongParcelable u => ignore (ReadStrongParcelable u)
  end.

Fixpoint run (cs : list cmd) : PM unit :=
  match cs with
  | [] => mret tt
  | c :: cs' => exec c;; run cs'
  end.
End commands.

Section command_facts.
Context `{LibcOk} `{SecurecOk} `{ParcelConfig} (alimit : Z).

Lemma ignore_safe {A} (m : PM A) : safe alimit m -> safe alimit (ignore m).
Proof. intros Hm. apply safe_bind; [done|]. intros _. apply safe_ret. Qed.

Lemma WriteBuffer_safe data size : block_ok data size -> safe alimit (WriteBuffer data size).
Proof.
  destruct data as [d|]; simpl; [|intros _; apply safe_ret]. intros (Hb & Hs & Hz).
  destruct (Z.eq_dec size 0) as [->|].
  - unfold WriteBuffer. apply safe_ret.
  - eapply extends_safe, WriteBuffer_emits; try done. lia.
Qed.

Lemma WriteBufferAddTerminator_safe data size typeSize :
  block_ok data (size - typeSize) -> 0 <= typeSize -> 0 <= size < 2 ^ 62 ->
  safe alimit (WriteBufferAddTerminator data size typeSize).
Proof.
  destruct data as [d|]; simpl; [|intros; apply safe_ret]. intros (Hb & Hs & Hz) Ht Hsz.
  destruct (Z.eq_dec typeSize 0) as [->|].
  { unfold WriteBufferAddTerminator. apply safe_ret. }
  destruct (Z.le_gt_cases typeSize 4).
  { eapply extends_safe, WriteBufferAddTerminator_emits; try done; lia. }
  intros p Hp. unfold WriteBufferAddTerminator.
  destruct (Z.eqb_spec typeSize 0); [lia|]. destruct (Z.ltb_spec size typeSize); [lia|]. cbn [orb].
  pose proof (GetPadSize_range size) as Hpad.
  assert (u64 (size + GetPadSize size) = size + GetPadSize size) as -> by (apply wrapU_small; lia).
  destruct (Z.ltb_spec (size + GetPadSize size) size); [lia|].
  destruct (Z.ltb_spec (size + GetPadSize size) (GetPadSize size)); [lia|]. cbn [orb].
  destruct (Ensure_spec alimit p (size + GetPadSize size) Hp) as (ok & p1 & E & Hens); [lia|].
  rewrite (pm_bind_eq _ _ _ _ _ E). pose proof (ens_wf _ _ _ _ _ Hens) as Hp1.
  destruct ok; [|by exists false, p1].
  destruct (ensured_ready alimit p (size + GetPadSize size) p1 Hp) as [_ Hw1 Hd1 Hf1]; [lia|done|].
  destruct (WriteDataBytes_spec alimit p1 d (size - typeSize)) as (ok & p2 & E2 & A2 & _); try done; try lia.
  rewrite (pm_bind_eq _ _ _ _ _ E2). destruct (Z.ltb_spec 4 typeSize); [|lia].
  destruct ok; exists false, p2; (split; [done|]); apply A2.
Qed.

Lemma WriteCString_safe mem : cstring_ok mem -> safe alimit (WriteCString mem).
Proof.
  destruct mem as [m|]; [|intros _; apply safe_ret].
  intros (s & rest & -> & Hs & Hnz & Hrest & Hz & Hm). eapply extends_safe.
  by apply WriteCString_emits.
Qed.

Lemma WriteString16WithLength_safe mem len :
  units_ok mem len -> safe alimit (WriteString16WithLength mem len).
Proof.
  destruct mem as [m|]; simpl; [|intros; apply Write_safe]. intros [Hl Hmax].
  unfold WriteString16WithLength. rewrite i32_small by lia.
  destruct (Z.ltb_spec len 0); [lia|]. change (INT32_MAX / 2 - 1) with 1073741822.
  destruct (Z.ltb_spec 1073741822 len); [apply safe_ret|]. cbn [orb].
  destruct (Z.ltb_spec (zlen m) len); [lia|].
  assert (zlen (encode16 (ztake len m ++ [0])) = len * 2 + 2) as Hz.
  { rewrite zlen_encode16, zlen_app, zlen_take, zlen_cons, zlen_nil by lia. lia. }
  eapply extends_safe, (length_block_emits alimit 2 len _ _); try lia; [apply encode16_byte|done].
Qed.

Lemma WriteString8WithLength_safe mem len :
  units_ok mem len -> block_ok mem 0 -> safe alimit (WriteString8WithLength mem len).
Proof.
  destruct mem as [m|]; simpl; [|intros; apply Write_safe]. intros [Hl Hmax] (Hb & _ & Hz).
  unfold WriteString8WithLength. rewrite i32_small by lia.
  destruct (Z.ltb_spec len 0); [lia|]. destruct (Z.leb_spec INT32_MAX len); [apply safe_ret|]. cbn [orb].
  unfold INT32_MAX in *.
  eapply extends_safe, (length_block_emits alimit 1 len _ _); try done; lia.
Qed.

Lemma read_scalar_safe t : safe alimit (read_scalar t).
Proof. destruct t; apply Read_ref_safe || apply ReadPadded_safe. Qed.

Lemma get_scalar_safe t : safe alimit (get_scalar t).
Proof. destruct t; simpl; apply Read_safe || (apply safe_bind; [apply Read_safe|intros; apply safe_ret]). Qed.

Lemma read_vector_safe t v : safe alimit (read_vector t v).
Proof.
  destruct t; (apply ReadVector_safe || apply ReadFixedAlignVector_safe);
    apply Read_ref_safe || apply ReadPadded_safe.
Qed.

Lemma read_item_safe s : safe alimit (read_item s).
Proof.
  destruct s as [t|t| | |t| |]; simpl; (apply safe_bind; [|intros; apply safe_ret]).
  - apply read_scalar_safe.
  - destruct t; simpl; try apply Read_ref_safe.
    apply safe_bind; [apply Read_safe|intros; apply safe_ret].
  - apply read_string_safe; [lia|apply id_decodes].
  - apply read_string_safe; [lia|apply decode16_decodes].
  - apply read_vector_safe.
  - apply (read_string_vector_safe alimit ReadString (Some [])), read_string_safe; [lia|apply id_decodes].
  - apply (read_string_vector_safe alimit ReadString16 (Some [])), read_string_safe; [lia|apply decode16_decodes].
Qed.

Lemma exec_safe c : cmd_ok alimit c -> safe alimit (exec c).
Proof.
  destruct c; simpl; intros Hc; try apply ignore_safe.
  - eapply extends_safe. by apply write_item_emits.
  - apply read_item_safe.
  - apply get_scalar_safe.
  - apply read_vector_safe.
  - by apply WriteCString_safe.
  - apply ReadCString_safe.
  - by apply WriteString16WithLength_safe.
  - destruct Hc. by apply WriteString8WithLength_safe.
  - apply read_string_safe; [lia|apply decode16_decodes].
  - apply read_string_safe; [lia|apply id_decodes].
  - apply read_string_safe; [lia|apply id_decodes].
  - apply read_string_safe; [lia|apply decode16_decodes].
  - by apply WriteBuffer_safe.
  - by apply WriteBuffer_safe.
  - destruct Hc as (? & ? & ?). by apply WriteBufferAddTerminator_safe.
  - eapply buffer_read_safe, ReadBuffer_spec.
  - eapply buffer_read_safe, ReadBuffer_validate_spec.
  - eapply buffer_read_safe. by apply ReadUnpadBuffer_spec.
  - by apply SkipBytes_safe.
  - by apply InjectOffsets_safe.
  - by apply SetMaxCapacity_safe.
  - apply SetDataCapacity_safe.
  - by apply SetAllocator_safe.
  - apply FlushBuffer_safe.
  - apply ParseFrom_safe. destruct data; done.
  - by apply RewindRead_safe.
  - by apply RewindWrite_safe.
  - by apply WriteRemoteObject_safe.
  - by apply WriteParcelable_safe.
  - apply WriteStrongParcelable_safe. intros o ->. by apply Hc.
  - destruct Hc. by apply WriteObject_safe.
  - by apply ReadObject_safe.
  - by apply ReadParcelable_safe.
  - by apply ReadParcelable_safe.
Qed.

Lemma run_safe cs : Forall (cmd_ok alimit) cs -> safe alimit (run cs).
Proof.
  induction 1 as [|c cs Hc Hcs IH]; [apply safe_ret|].
  apply safe_bind; [by apply exec_safe|done].
Qed.
End command_facts.
