(* ===== verification/ParcelProps.v ===== *)
(** * ParcelProps: the properties of the parcel

    The theorems a client of [class Parcel] relies on, with an instance of
    each at a concrete input, and the behaviours that modelling found to break
    them. *)

From S2P Require Import Prelude Parcel ParcelInv ParcelTyped ParcelString ParcelVector.
From S2P Require Import ParcelObject ParcelMessage ParcelUse.
From stdpp Require Import sorting.
Open Scope Z_scope.

#[local] Instance check_on : ParcelConfig := {| PARCEL_OBJECT_CHECK := true |}.

(** The invariant of a concrete fresh parcel. *)
Lemma fresh_wf id : parcel_wf heap_limit (Parcel_ctor None id).
Proof. apply newParcel_wf, default_allocator_ok. Defined.

(** A call that returns, and one that returns true, found by evaluation. *)
Definition returns {A} (r : option (A * Parcel)) (test : A -> bool) : bool :=
  match r with Some (a, _) => test a | None => false end.

Lemma returns_true (r : option (bool * Parcel)) : returns r id = true -> exists p, r = Some (true, p).
Proof. destruct r as [[[] p]|]; [by exists p|done..]. Defined.

Lemma returns_false (r : option (bool * Parcel)) : returns r negb = true -> exists p, r = Some (false, p).
Proof. destruct r as [[[] p]|]; [done|by exists p|done]. Defined.

Lemma returns_some {A} (r : option (A * Parcel)) :
  returns r (fun _ => true) = true -> exists a p, r = Some (a, p).
Proof. destruct r as [[a p]|]; [by exists a, p|done]. Defined.

(** C1: every message of scalars, strings and vectors that fits into the
    default capacity can be written to a fresh parcel, occupies exactly the
    bytes of its items, and the matching reads give the same message back and
    leave nothing unread. *)
Theorem message_roundtrip `{LibcOk} `{SecurecOk} `{ParcelConfig} (m : list item) (id : Z) :
  Forall item_ok m -> zlen (message_bytes m) <= DEFAULT_CPACITY -> DEFAULT_CPACITY <= heap_limit ->
  exists p q, write_message m (Parcel_ctor None id) = Some (true, p) /\
    content p = message_bytes m /\
    read_message (shape_of <$> m) p = Some (Some m, q) /\
    GetReadableBytes q = 0 /\ content q = content p.
Proof. apply message_fits. Qed.

Definition demo_message : list item :=
  [IScalar CInt32 (-7); IString [104; 105]; IVector CBool [1; 0; 1]; IUnaligned NUint16 65535;
   IStringVector [[97]; []]; IString16 [8364]; IScalar CDouble (2 ^ 62)].

Lemma message_roundtrip_witness :
  exists p q, write_message demo_message (Parcel_ctor None 0) = Some (true, p) /\
    content p = message_bytes demo_message /\
    read_message (shape_of <$> demo_message) p = Some (Some demo_message, q) /\
    GetReadableBytes q = 0 /\ content q = content p.
Proof.
  apply (message_roundtrip demo_message 0); [|by vm_compute|by vm_compute].
  repeat constructor; try (by vm_compute); unfold is_byte; lia.
Defined.

(** C4: no sequence of calls of the public methods other than [SetDataSize], in
    which pointer arguments are null or point to as much memory as the call
    says, allocators keep their contract, [Marshalling] functions only append
    bytes and [Unmarshalling] functions leave a valid parcel ([cmd_ok]), reads or
    writes outside the parcel's blocks, and after every sequence the cursors and
    sizes describe the block that is there. [SetDataSize], and a [Marshalling]
    that writes remote objects of its own, can overrun the block: see
    [SetDataSize_overrun] and [WriteRemoteObject_overrun]. *)
Theorem use_is_memory_safe `{LibcOk} `{SecurecOk} `{ParcelConfig} (cs : list cmd) (id : Z) :
  Forall (cmd_ok heap_limit) cs ->
  exists p, run cs (Parcel_ctor None id) = Some (tt, p) /\ parcel_wf heap_limit p.
Proof.
  intros Hcs. destruct (run_safe heap_limit cs Hcs (Parcel_ctor None id)) as ([] & p & E & Hp).
  - apply newParcel_wf, default_allocator_ok.
  - by exists p.
Qed.

(** A class whose objects are six 32-bit words. *)
Definition demo_marshalling `{Libc} `{Securec} (o : Parcelable) : PM bool :=
  write_message (replicate 6 (IScalar CInt32 (obj_id o))).

Definition demo_object : Parcelable := SetBehavior HOLD_OBJECT (Parcelable_ctor 7 true).

Lemma demo_marshalling_emits :
  emits heap_limit (demo_marshalling demo_object) (message_bytes (replicate 6 (IScalar CInt32 7))).
Proof. apply write_message_emits, Forall_replicate. by vm_compute. Defined.

Definition demo_use : list cmd :=
  [CWrite (IScalar CInt64 5); CInjectOffsets (Some [0; 8]) 2; CRead SString; CRewindRead 0;
   CGet CInt8; CReadBuffer 100; CRewindWrite 4; CSkipBytes 50; CReadCString; CFlushBuffer].
Definition demo_object_use : list cmd :=
  [CWriteParcelable demo_marshalling (Some demo_object); CWriteStrongParcelable demo_marshalling None; CReadParcelable (mret (Some 7))].

Lemma use_is_memory_safe_witness :
  exists p, run (demo_object_use ++ demo_use) (Parcel_ctor None 0) = Some (tt, p) /\ parcel_wf heap_limit p.
Proof.
  apply (use_is_memory_safe (demo_object_use ++ demo_use) 0). apply Forall_app. split; [|repeat constructor; simpl; try done; lia].
  repeat apply Forall_cons_2; [| | |apply Forall_nil_2].
  - intros o [= <-]. eapply extends_extending, demo_marshalling_emits.
  - intros o [=].
  - apply safe_ret.
Defined.

(** C8: writing an item never disturbs what is already in the parcel: bytes are
    only appended, the reading side and the limits stay, the block never grows
    past the larger of its old capacity and the maximum, and the call returns
    true exactly with the item's bytes, which it does whenever they fit. *)
Theorem write_item_outcome `{LibcOk} `{SecurecOk} `{ParcelConfig} alimit (i : item) p :
  parcel_wf alimit p -> item_ok i ->
  exists ok p' bs, write_item i p = Some (ok, p') /\ parcel_wf alimit p' /\
    content p' = content p ++ bs /\ env p' = env p /\
    dataCapacity_ p' <= Z.max (dataCapacity_ p) (maxDataCapacity_ p) /\
    (ok = true -> bs = item_bytes i) /\
    (writable_ p = true -> room alimit p (zlen (item_bytes i)) -> ok = true).
Proof.
  intros Hp Hi. destruct (write_item_emits alimit i Hi) as [Hext Hwr].
  destruct (Hext p Hp) as (ok & p' & bs & E & A & Hok).
  exists ok, p', bs. split_and!; try apply A; try done.
  intros Hw Hr. destruct (Hwr p Hp Hw Hr) as (q & E' & _). congruence.
Qed.

Lemma write_item_outcome_witness :
  let p := Parcel_ctor None 0 in let i := IVector CInt8 [1; -2; 3; 4; 5] in
  exists ok p' bs, write_item i p = Some (ok, p') /\ parcel_wf heap_limit p' /\
    content p' = content p ++ bs /\ env p' = env p /\
    dataCapacity_ p' <= Z.max (dataCapacity_ p) (maxDataCapacity_ p) /\
    (ok = true -> bs = item_bytes i) /\
    (writable_ p = true -> room heap_limit p (zlen (item_bytes i)) -> ok = true).
Proof.
  intros p i. apply (write_item_outcome heap_limit i p); [apply fresh_wf|].
  split; [by vm_compute|]. repeat constructor.
Defined.

(** C10: the capacity computed for a request is positive, never above the
    maximum, holds every request the maximum admits, and wastes at most a page
    or as much again as was asked for. *)
Theorem CalcNewCapacity_bounds maxCapacity minNewCapacity :
  DEFAULT_CPACITY <= maxCapacity < 2 ^ 64 -> 0 <= minNewCapacity < 2 ^ 64 ->
  exists c, CalcNewCapacity maxCapacity minNewCapacity = Some c /\ 0 < c <= maxCapacity /\
    (minNewCapacity <= maxCapacity -> minNewCapacity <= c) /\
    c <= Z.max 64 (Z.max (2 * minNewCapacity) (minNewCapacity + CAPACITY_THRESHOLD)).
Proof.
  intros Hmax Hmin. destruct (CalcNewCapacity_spec maxCapacity minNewCapacity) as (c & E & Hc & Hfit); [done..|].
  exists c. do 3 (split; [done|]). by eapply CalcNewCapacity_waste.
Qed.

Lemma CalcNewCapacity_bounds_witness :
  exists c, CalcNewCapacity 204800 5000 = Some c /\ 0 < c <= 204800 /\
    (5000 <= 204800 -> 5000 <= c) /\ c <= Z.max 64 (Z.max (2 * 5000) (5000 + CAPACITY_THRESHOLD)).
Proof. apply (CalcNewCapacity_bounds 204800 5000); unfold DEFAULT_CPACITY; lia. Defined.

(** a buffer write stores the buffer, zeroes its padding and keeps an
    aligned parcel aligned to four bytes. *)
Theorem WriteBuffer_pads `{LibcOk} `{SecurecOk} `{ParcelConfig} alimit p p' data size :
  parcel_wf alimit p -> Forall is_byte data -> 0 < size <= zlen data -> zlen data < 2 ^ 62 ->
  WriteBuffer (Some data) size p = Some (true, p') ->
  content p' = content p ++ ztake size data ++ zeros (GetPadSize size) /\
  (dataSize_ p mod 4 = 0 -> dataSize_ p' mod 4 = 0).
Proof.
  intros Hp Hb Hs Hz E. destruct (WriteBuffer_emits alimit data size Hb Hs Hz) as [Hext _].
  destruct (Hext p Hp) as (ok & q & bs & E' & A & Hok). rewrite E in E'. simplify_eq.
  rewrite (Hok eq_refl) in A. split; [apply A|]. intros Hal.
  rewrite (app_size _ _ _ _ A), zlen_app, zlen_take by lia.
  pose proof (GetPadSize_range size). rewrite zlen_zeros by lia.
  rewrite Z.add_mod, Hal, GetPadSize_aligned by lia. done.
Qed.

Lemma WriteBuffer_pads_witness :
  let p := Parcel_ctor None 0 in
  exists p', WriteBuffer (Some [1; 2; 3; 4; 5; 6]) 5 p = Some (true, p') /\
    content p' = content p ++ ztake 5 [1; 2; 3; 4; 5; 6] ++ zeros (GetPadSize 5) /\
    (dataSize_ p mod 4 = 0 -> dataSize_ p' mod 4 = 0).
Proof.
  intros p. destruct (returns_true (WriteBuffer (Some [1; 2; 3; 4; 5; 6]) 5 p)) as [p' E]; [by vm_compute|].
  exists p'. split; [done|].
  apply (WriteBuffer_pads heap_limit p _ [1; 2; 3; 4; 5; 6] 5);
    [apply fresh_wf|repeat constructor; lia|unfold zlen; simpl; lia|unfold zlen; simpl; lia|done].
Defined.

(** with the object check compiled in, a typed read returns a value only
    from bytes that belong to no binder object, and is refused only when it
    would touch one or run past the data. *)
Theorem read_never_touches_objects `{LibcOk} `{SecurecOk} `{ParcelConfig} alimit p t r p' :
  PARCEL_OBJECT_CHECK = true -> parcel_wf alimit p -> StronglySorted Z.le (objects p) -> passed p ->
  Read_ref t p = Some (r, p') ->
  let ub := readCursor_ p + Z.of_nat (csize t) in
  passed p' /\ objects p' = objects p /\
  (is_Some r <-> Z.of_nat (csize t) <= GetReadableBytes p /\ misses (readCursor_ p) ub (objects p)).
Proof.
  intros Hcfg Hp Hs Hpass E ub. by apply (Read_ref_protected alimit p t r p').
Qed.

(** A parcel with one object at offset 8 and 40 bytes of data. *)
Definition demo_object_parcel : Parcel :=
  default (Parcel_ctor None 0) (snd <$> run (replicate 10 (CWrite (IScalar CInt32 1)) ++ [CInjectOffsets (Some [8]) 1])
                                        (Parcel_ctor None 0)).

Lemma demo_object_parcel_wf : parcel_wf heap_limit demo_object_parcel.
Proof.
  destruct (run_safe heap_limit (replicate 10 (CWrite (IScalar CInt32 1)) ++ [CInjectOffsets (Some [8]) 1]))
    with (p := Parcel_ctor None 0) as (a & p & E & Hp).
  - apply Forall_app. split; [apply Forall_replicate; by vm_compute|].
    repeat constructor; simpl; try done; lia.
  - apply fresh_wf.
  - unfold demo_object_parcel. by rewrite E.
Defined.

Lemma read_never_touches_objects_witness :
  let p := demo_object_parcel in
  exists r p', Read_ref CInt32 p = Some (r, p') /\ passed p' /\ objects p' = objects p /\
  (is_Some r <-> 4 <= GetReadableBytes p /\ misses 0 4 (objects p)).
Proof.
  intros p. destruct (returns_some (Read_ref CInt32 p)) as (r & p' & E); [by vm_compute|].
  exists r, p'. split; [done|].
  apply (read_never_touches_objects heap_limit p CInt32);
    [done|apply demo_object_parcel_wf|vm_compute; repeat constructor|vm_compute; constructor|done].
Defined.

(** a remote object that is written successfully is in the parcel: its
    bytes, its offset at the end of the offset table and, if it asks to be held,
    a reference to it; and rewinding to where it was written makes the offset
    check of [ReadObject] find it. *)
Theorem remote_object_found `{LibcOk} `{SecurecOk} `{ParcelConfig} alimit Marshalling o bs p p' :
  parcel_wf alimit p -> emits alimit (Marshalling o) bs -> asRemote_ o = true ->
  sizeof_flat_binder <= zlen bs -> writable_ p = true ->
  Forall (fun x => x < dataSize_ p) (objects p) ->
  WriteRemoteObject Marshalling (Some o) p = Some (true, p') ->
  remote_written p p' o bs /\
  exists q, RewindRead (writeCursor_ p) p' = Some (true, q) /\ CheckOffsets q = true.
Proof.
  intros Hp Hm Hr Hz Hw Hlt E.
  destruct (WriteRemoteObject_spec alimit Marshalling o bs p) as (ok & q & E' & Hq & Hwr); try done.
  rewrite E in E'. simplify_eq. specialize (Hwr eq_refl). split; [done|].
  by eapply CheckOffsets_written.
Qed.

Lemma remote_object_found_witness :
  let p := Parcel_ctor None 0 in
  exists p', WriteRemoteObject demo_marshalling (Some demo_object) p = Some (true, p') /\
  remote_written p p' demo_object (message_bytes (replicate 6 (IScalar CInt32 7))) /\
  exists q, RewindRead (writeCursor_ p) p' = Some (true, q) /\ CheckOffsets q = true.
Proof.
  intros p. destruct (returns_true (WriteRemoteObject demo_marshalling (Some demo_object) p)) as [p' E];
    [by vm_compute|].
  exists p'. split; [done|]. 
  apply (remote_object_found heap_limit demo_marshalling _ _ p p' (fresh_wf 0) demo_marshalling_emits);
    [reflexivity|by vm_compute|reflexivity|constructor|exact E].
Defined.

(** C9: a remote [WriteParcelable] that returns false rolls the bytes, the write
    cursor and the size back to where they were, whatever bytes and remote
    objects the object's [Marshalling] had appended before ([appends]: it leaves
    what the parcel held as it was). *)
Theorem WriteParcelable_rolls_back `{LibcOk} `{SecurecOk} `{ParcelConfig} alimit Marshalling o p p' :
  parcel_wf alimit p -> appends alimit (Marshalling o) -> asRemote_ o = true ->
  WriteParcelable Marshalling (Some o) p = Some (false, p') ->
  content p' = content p /\ writeCursor_ p' = writeCursor_ p /\ dataSize_ p' = dataSize_ p.
Proof. apply WriteParcelable_rollback. Qed.

(** An object that writes a remote object and a word and then refuses. *)
Definition failing_marshalling `{Libc} `{Securec} `{ParcelConfig} (o : Parcelable) : PM bool :=
  WriteRemoteObject demo_marshalling (Some demo_object);; WriteInt32 (obj_id o);; mret false.

Lemma failing_appends : appends heap_limit (failing_marshalling demo_object).
Proof.
  intros p ok p' Hp. unfold failing_marshalling.
  destruct (WriteRemoteObject_grows heap_limit demo_marshalling demo_object p Hp
              (extends_extending _ _ _ (emits_extends _ _ _ demo_marshalling_emits))) as (ok1 & p1 & b1 & E1 & Hp1 & Hc1 & _).
  rewrite (pm_bind_eq _ _ _ _ _ E1).
  destruct (emits_extends _ _ _ (Write_emits heap_limit CInt32 (obj_id demo_object)) p1 Hp1) as (ok2 & p2 & b2 & E2 & A2 & _).
  unfold WriteInt32. rewrite (pm_bind_eq _ _ _ _ _ E2). intros [= <- <-]. split; [apply A2|]. exists (b1 ++ b2).
  by rewrite (app_content _ _ _ _ A2), Hc1, app_assoc.
Defined.

Lemma WriteParcelable_rolls_back_witness :
  let p := Parcel_ctor None 0 in
  exists p', WriteParcelable failing_marshalling (Some demo_object) p = Some (false, p') /\
  content p' = content p /\ writeCursor_ p' = writeCursor_ p /\ dataSize_ p' = dataSize_ p.
Proof.
  intros p. destruct (returns_false (WriteParcelable failing_marshalling (Some demo_object) p)) as [p' E];
    [by vm_compute|].
  exists p'. split; [done|]. 
  apply (WriteParcelable_rolls_back heap_limit failing_marshalling demo_object p p' (fresh_wf 0) failing_appends);
    [reflexivity|exact E].
Defined.

(** Its bytes are rolled back, not the offset of the object in them. *)
Example rollback_keeps_the_offset :
  (fun r => (r.1, content r.2, objects r.2)) <$> WriteParcelable failing_marshalling (Some demo_object) (Parcel_ctor None 0) =
  Some (false, [], [4]).
Proof. by vm_compute. Qed.

(** rewinding the write position cuts the bytes there and forgets exactly
    the objects that no longer fit in front of it. *)
Theorem RewindWrite_cuts `{LibcOk} `{SecurecOk} `{ParcelConfig} alimit n p p' :
  PARCEL_OBJECT_CHECK = true -> parcel_wf alimit p -> StronglySorted Z.le (objects p) -> 0 <= n ->
  RewindWrite n p = Some (true, p') ->
  content p' = ztake n (content p) /\ dataSize_ p' = n /\
  exists k, objects p' = ztake k (objects p) /\ 0 <= k <= objectCursor_ p /\
    Forall (fun o => o + sizeof_flat_binder <= n) (ztake k (objects p)) /\
    Forall (fun o => n < o + sizeof_flat_binder) (zdrop k (objects p)).
Proof. apply RewindWrite_trims. Qed.

Lemma RewindWrite_cuts_witness :
  let p := demo_object_parcel in
  exists p', RewindWrite 20 p = Some (true, p') /\
  content p' = ztake 20 (content p) /\ dataSize_ p' = 20 /\
  exists k, objects p' = ztake k (objects p) /\ 0 <= k <= objectCursor_ p /\
    Forall (fun o => o + sizeof_flat_binder <= 20) (ztake k (objects p)) /\
    Forall (fun o => 20 < o + sizeof_flat_binder) (zdrop k (objects p)).
Proof.
  intros p. destruct (returns_true (RewindWrite 20 p)) as [p' E]; [by vm_compute|].
  exists p'. split; [done|]. 
  apply (RewindWrite_cuts heap_limit 20 p p');
    [reflexivity|apply demo_object_parcel_wf|vm_compute; repeat constructor|lia|exact E].
Defined.

(** ** Behaviours the modelling found *)

(** [SetDataSize] moves the end of the data but not the write cursor, and the
    next write moves the end past the block: a read then leaves the block. *)
Definition bad_size : PM Z :=
  WriteInt32 1;; SetDataSize 64;; WriteInt32 2;; SkipBytes 64;; ReadInt32.

Example SetDataSize_overrun : bad_size (Parcel_ctor None 0) = None.
Proof. by vm_compute. Qed.

(** The room for an object's offset is ensured before [Marshalling]: an object
    that writes a word and three remote objects itself uses it up, and its own offset is
    stored past the table. *)
Definition nesting_marshalling `{Libc} `{Securec} `{ParcelConfig} (o : Parcelable) : PM bool :=
  if obj_id o =? 0 then
    let inner := WriteRemoteObject demo_marshalling (Some (Parcelable_ctor 1 true)) in
    WriteInt32 0;; inner;; inner;; inner
  else demo_marshalling o.

Example WriteRemoteObject_overrun :
  WriteRemoteObject nesting_marshalling (Some (Parcelable_ctor 0 true)) (Parcel_ctor None 0) = None.
Proof. by vm_compute. Qed.

(** Writing a null strong parcelable reports success even when the parcel
    refused the marker. *)
Example WriteStrongParcelable_null_ignores_failure :
  (fun r => (r.1.1, content r.2)) <$>
    WriteStrongParcelable demo_marshalling None (set_readonly (Parcel_ctor None 0)) = Some (true, []).
Proof. by vm_compute. Qed.
