(* ===== verification/RefBase.v ===== *)
(** * RefBase: reference counters, reference-counted objects and their heap

    Models base/src/refbase.cpp: [RefCounter], [WeakRefCounter] and [RefBase]
    on a heap that holds the three kinds of objects by address.  A method is a
    function on the heap; [None] is undefined behaviour: a method called on an
    object that was never created or is already deleted.  Each atomic
    operation is one access; the methods run without interference. *)

From S2P Require Import Prelude.
Open Scope Z_scope.

Definition INITIAL_PRIMARY_VALUE : Z := 0x10000000.
Definition FLAG_EXTEND_LIFE_TIME : Z := 2.

Record RefCounter := mkRefCounter {
  atomicStrong_ : Z;
  atomicWeak_ : Z;
  atomicRefCount_ : Z;
  atomicFlags_ : Z;
  atomicAttempt_ : Z;
  callback_ : option Z;    (* the object that [RefPtrCallback] deletes *)
  canPromote_ : option Z;  (* the object whose [CanPromote] is asked *)
}.

Record WeakRefCounter := mkWeakRefCounter {
  weakCount_ : Z;          (* [WeakRefCounter::atomicWeak_] *)
  refCounter_ : option Z;
  cookie_ : option Z;
}.

(** The virtual methods a subclass may use to observe its life. *)
Inductive event := OnFirstStrongRef (o : Z) | OnLastStrongRef (o : Z) | Deleted (o : Z).

Record Heap := mkHeap {
  counters : gmap Z RefCounter;
  objects : gmap Z (option Z);          (* [RefBase::refs_] *)
  weaks : gmap Z WeakRefCounter;
  next_address : Z;
  events : list event;
}.

Definition set_counters (h : Heap) m := mkHeap m (objects h) (weaks h) (next_address h) (events h).
Definition set_objects (h : Heap) m := mkHeap (counters h) m (weaks h) (next_address h) (events h).
Definition set_weaks (h : Heap) m := mkHeap (counters h) (objects h) m (next_address h) (events h).
Definition log (h : Heap) e := mkHeap (counters h) (objects h) (weaks h) (next_address h) (events h ++ [e]).
Definition bump (h : Heap) := mkHeap (counters h) (objects h) (weaks h) (next_address h + 1) (events h).

Definition HM (A : Type) : Type := Heap -> option (A * Heap).

#[export] Instance hm_ret : MRet HM := fun A a h => Some (a, h).
#[export] Instance hm_bind : MBind HM := fun A B f m h =>
  match m h with
  | Some (a, h') => f a h'
  | None => None
  end.

Definition load_counter (c : Z) : HM RefCounter := fun h =>
  match counters h !! c with Some rc => Some (rc, h) | None => None end.
(** A store to a counter that is alive. *)
Definition store_counter (c : Z) (rc : RefCounter) : HM unit := fun h =>
  match counters h !! c with Some _ => Some (tt, set_counters h (<[c := rc]> (counters h))) | None => None end.
Definition free_counter (c : Z) : HM unit := fun h =>
  match counters h !! c with Some _ => Some (tt, set_counters h (delete c (counters h))) | None => None end.

Definition load_object (o : Z) : HM (option Z) := fun h =>
  match objects h !! o with Some r => Some (r, h) | None => None end.
Definition store_object (o : Z) (r : option Z) : HM unit := fun h =>
  match objects h !! o with Some _ => Some (tt, set_objects h (<[o := r]> (objects h))) | None => None end.
Definition free_object (o : Z) : HM unit := fun h =>
  match objects h !! o with Some _ => Some (tt, set_objects h (delete o (objects h))) | None => None end.

Definition load_weak (w : Z) : HM WeakRefCounter := fun h =>
  match weaks h !! w with Some wr => Some (wr, h) | None => None end.
Definition store_weak (w : Z) (wr : WeakRefCounter) : HM unit := fun h =>
  match weaks h !! w with Some _ => Some (tt, set_weaks h (<[w := wr]> (weaks h))) | None => None end.
Definition free_weak (w : Z) : HM unit := fun h =>
  match weaks h !! w with Some _ => Some (tt, set_weaks h (delete w (weaks h))) | None => None end.

Definition emit (e : event) : HM unit := fun h => Some (tt, log h e).

(** [new]: a fresh address. *)
Definition new_counter (rc : RefCounter) : HM Z := fun h =>
  Some (next_address h, bump (set_counters h (<[next_address h := rc]> (counters h)))).
Definition new_object (r : option Z) : HM Z := fun h =>
  Some (next_address h, bump (set_objects h (<[next_address h := r]> (objects h)))).
Definition new_weak (wr : WeakRefCounter) : HM Z := fun h =>
  Some (next_address h, bump (set_weaks h (<[next_address h := wr]> (weaks h)))).

(** Dereferencing a null pointer is undefined. *)
Definition deref {A} (p : option A) : HM A := fun h =>
  match p with Some a => Some (a, h) | None => None end.

(** The build option of the platform, and the answer of [CanPromote]. *)
Class RefConfig := { OHOS_PLATFORM : bool; CanPromote : Z -> bool }.

(** ** Fields of a counter *)

Definition set_strong (rc : RefCounter) v := mkRefCounter v (atomicWeak_ rc) (atomicRefCount_ rc)
  (atomicFlags_ rc) (atomicAttempt_ rc) (callback_ rc) (canPromote_ rc).
Definition set_weak (rc : RefCounter) v := mkRefCounter (atomicStrong_ rc) v (atomicRefCount_ rc)
  (atomicFlags_ rc) (atomicAttempt_ rc) (callback_ rc) (canPromote_ rc).
Definition set_ref (rc : RefCounter) v := mkRefCounter (atomicStrong_ rc) (atomicWeak_ rc) v
  (atomicFlags_ rc) (atomicAttempt_ rc) (callback_ rc) (canPromote_ rc).
Definition set_flags (rc : RefCounter) v := mkRefCounter (atomicStrong_ rc) (atomicWeak_ rc)
  (atomicRefCount_ rc) v (atomicAttempt_ rc) (callback_ rc) (canPromote_ rc).
Definition set_attempt (rc : RefCounter) v := mkRefCounter (atomicStrong_ rc) (atomicWeak_ rc)
  (atomicRefCount_ rc) (atomicFlags_ rc) v (callback_ rc) (canPromote_ rc).
Definition set_callback (rc : RefCounter) v := mkRefCounter (atomicStrong_ rc) (atomicWeak_ rc)
  (atomicRefCount_ rc) (atomicFlags_ rc) (atomicAttempt_ rc) v (canPromote_ rc).
Definition set_canPromote (rc : RefCounter) v := mkRefCounter (atomicStrong_ rc) (atomicWeak_ rc)
  (atomicRefCount_ rc) (atomicFlags_ rc) (atomicAttempt_ rc) (callback_ rc) v.

Definition lifetime_extended (rc : RefCounter) : bool :=
  negb (Z.land (atomicFlags_ rc) FLAG_EXTEND_LIFE_TIME =? 0).

(** The atomic read-modify-write operations, on a [std::atomic<int>]: the old
    value is returned. *)
Definition fetch_add_strong (c : Z) (d : Z) : HM Z :=
  rc ← load_counter c;
  store_counter c (set_strong rc (i32 (atomicStrong_ rc + d)));;
  mret (atomicStrong_ rc).
Definition fetch_add_weak (c : Z) (d : Z) : HM Z :=
  rc ← load_counter c;
  store_counter c (set_weak rc (i32 (atomicWeak_ rc + d)));;
  mret (atomicWeak_ rc).
Definition fetch_add_ref (c : Z) (d : Z) : HM Z :=
  rc ← load_counter c;
  store_counter c (set_ref rc (i32 (atomicRefCount_ rc + d)));;
  mret (atomicRefCount_ rc).
Definition fetch_add_attempt (c : Z) (d : Z) : HM Z :=
  rc ← load_counter c;
  store_counter c (set_attempt rc (i32 (atomicAttempt_ rc + d)));;
  mret (atomicAttempt_ rc).

Section refbase.
Context `{RefConfig}.

(** ** [RefCounter] *)

Definition RefCounter_ctor : HM Z :=
  new_counter (mkRefCounter INITIAL_PRIMARY_VALUE 0 0 0 0 None None).

Definition GetRefCount (c : Z) : HM Z := rc ← load_counter c; mret (atomicRefCount_ rc).
Definition IncRefCount (c : Z) : HM unit := fetch_add_ref c 1;; mret tt.

Definition DecRefCount (c : Z) : HM unit :=
  rc ← load_counter c;
  if 0 <? atomicRefCount_ rc then
    curCount ← fetch_add_ref c (-1);
    if curCount =? 1 then free_counter c else mret tt
  else mret tt.

Definition SetCallback (c : Z) (callback : option Z) : HM unit :=
  rc ← load_counter c; store_counter c (set_callback rc callback).
Definition RemoveCallback (c : Z) : HM unit :=
  rc ← load_counter c; store_counter c (set_callback rc None).
Definition IsRefPtrValid (c : Z) : HM bool :=
  rc ← load_counter c; mret (bool_decide (is_Some (callback_ rc))).

Definition SetCanPromote (c : Z) (canPromote : option Z) : HM unit :=
  rc ← load_counter c; store_counter c (set_canPromote rc canPromote).
Definition RemoveCanPromote (c : Z) : HM unit :=
  rc ← load_counter c; store_counter c (set_canPromote rc None).
Definition IsCanPromoteValid (c : Z) : HM bool :=
  rc ← load_counter c; mret (bool_decide (is_Some (canPromote_ rc))).

Definition GetStrongRefCount (c : Z) : HM Z := rc ← load_counter c; mret (atomicStrong_ rc).
Definition GetWeakRefCount (c : Z) : HM Z := rc ← load_counter c; mret (atomicWeak_ rc).
Definition GetAttemptAcquire (c : Z) : HM Z := rc ← load_counter c; mret (atomicAttempt_ rc).
Definition SetAttemptAcquire (c : Z) : HM unit := fetch_add_attempt c 1;; mret tt.
Definition IsAttemptAcquireSet (c : Z) : HM bool :=
  rc ← load_counter c; mret (0 <? atomicAttempt_ rc).
Definition ClearAttemptAcquire (c : Z) : HM unit := fetch_add_attempt c (-1);; mret tt.
Definition ExtendObjectLifetime (c : Z) : HM unit :=
  rc ← load_counter c;
  store_counter c (set_flags rc (Z.lor (atomicFlags_ rc) FLAG_EXTEND_LIFE_TIME)).
Definition IsLifeTimeExtended (c : Z) : HM bool :=
  rc ← load_counter c; mret (lifetime_extended rc).

Definition IncStrongRefCount (c : Z) : HM Z :=
  curCount ← GetStrongRefCount c;
  if 0 <=? curCount then
    curCount ← fetch_add_strong c 1;
    (if curCount =? INITIAL_PRIMARY_VALUE
     then fetch_add_strong c (- INITIAL_PRIMARY_VALUE);; mret tt else mret tt);;
    mret curCount
  else mret curCount.

Definition DecStrongRefCount (c : Z) : HM Z :=
  curCount ← GetStrongRefCount c;
  if curCount =? INITIAL_PRIMARY_VALUE then mret curCount
  else if 0 <? curCount then fetch_add_strong c (-1)
  else mret curCount.

Definition IncWeakRefCount (c : Z) : HM Z := fetch_add_weak c 1.

(** ** Deleting an object: [~RefBase] *)

Definition RefBase_dtor (o : Z) : HM unit :=
  refs ← load_object o;
  match refs with
  | None => mret tt
  | Some c =>
    RemoveCallback c;;
    extended ← IsLifeTimeExtended c;
    weak ← GetWeakRefCount c;
    strong ← GetStrongRefCount c;
    (if (extended && (weak =? 0)) || (strong =? INITIAL_PRIMARY_VALUE)
     then DecRefCount c else mret tt);;
    store_object o None
  end.

(** [RefBase::RefPtrCallback]: [delete this]. *)
Definition RefPtrCallback (o : Z) : HM unit :=
  RefBase_dtor o;; free_object o;; emit (Deleted o).

Definition call_callback (c : Z) : HM unit :=
  rc ← load_counter c;
  match callback_ rc with
  | Some o => RefPtrCallback o
  | None => mret tt
  end.

Definition DecWeakRefCount (c : Z) : HM Z :=
  curCount ← GetWeakRefCount c;
  curCount ← (if 0 <? curCount then fetch_add_weak c (-1) else mret curCount);
  if negb (curCount =? 1) then mret curCount
  else
    extended ← IsLifeTimeExtended c;
    (if (extended : bool) then call_callback c
     else
       strong ← GetStrongRefCount c;
       if strong =? INITIAL_PRIMARY_VALUE then call_callback c else DecRefCount c);;
    mret curCount.

(** The tail of [AttemptIncStrongRef], after [ATTEMPT_SUCCESS]: the result
    and what is stored in [outCount], if anything. *)
Definition attempt_success (c : Z) (curCount : Z) : HM (bool * option Z) :=
  if curCount =? INITIAL_PRIMARY_VALUE then
    fetch_add_strong c (- INITIAL_PRIMARY_VALUE);;
    mret (true, Some curCount)
  else
    extended ← IsLifeTimeExtended c;
    if (curCount <? 0) || (negb extended && (curCount =? 0)) then
      DecWeakRefCount c;; mret (false, None)
    else mret (true, None).

(** A compare-and-exchange loop without interference succeeds on the value
    it loaded. *)
Definition AttemptIncStrongRef (c : Z) : HM (bool * option Z) :=
  curCount ← GetStrongRefCount c;
  IncWeakRefCount c;;
  extended ← IsLifeTimeExtended c;
  if (0 <? curCount) && negb (curCount =? INITIAL_PRIMARY_VALUE) then
    fetch_add_strong c 1;; attempt_success c curCount
  else if (curCount =? INITIAL_PRIMARY_VALUE) && negb extended then
    fetch_add_strong c 1;; attempt_success c curCount
  else if (extended : bool) then
    rc ← load_counter c;
    if OHOS_PLATFORM && negb (match canPromote_ rc with Some o => CanPromote o | None => false end)
    then mret (false, None)
    else curCount ← fetch_add_strong c 1; attempt_success c curCount
  else attempt_success c curCount.

Definition AttemptIncStrong (c : Z) : HM bool :=
  IncWeakRefCount c;;
  curCount ← GetStrongRefCount c;
  if 0 <? curCount then fetch_add_strong c 1;; mret true
  else DecWeakRefCount c;; mret false.

(** ** [WeakRefCounter] *)

Definition WeakRefCounter_ctor (counter cookie : option Z) : HM Z :=
  w ← new_weak (mkWeakRefCounter 0 counter cookie);
  match counter with
  | Some c => IncRefCount c;; mret w
  | None => mret w
  end.

Definition WeakRefCounter_delete (w : Z) : HM unit :=
  wr ← load_weak w;
  (match refCounter_ wr with Some c => DecRefCount c | None => mret tt end);;
  free_weak w.

Definition WeakRefCounter_GetWeakRefCount (w : Z) : HM Z := wr ← load_weak w; mret (weakCount_ wr).

(** The pointer is forgotten once the object is gone. *)
Definition WeakRefCounter_GetRefPtr (w : Z) : HM (option Z) :=
  wr ← load_weak w;
  match cookie_ wr with
  | None => mret None
  | Some o =>
    c ← deref (refCounter_ wr);
    valid ← IsRefPtrValid c;
    if (valid : bool) then mret (Some o)
    else store_weak w (mkWeakRefCounter (weakCount_ wr) (refCounter_ wr) None);; mret None
  end.

Definition fetch_add_weakCount (w : Z) (d : Z) : HM Z :=
  wr ← load_weak w;
  store_weak w (mkWeakRefCounter (i32 (weakCount_ wr + d)) (refCounter_ wr) (cookie_ wr));;
  mret (weakCount_ wr).

Definition WeakRefCounter_IncWeakRefCount (w : Z) : HM unit :=
  old ← fetch_add_weakCount w 1;
  if old =? 0 then
    wr ← load_weak w; c ← deref (refCounter_ wr); IncWeakRefCount c;; mret tt
  else mret tt.

Definition WeakRefCounter_DecWeakRefCount (w : Z) : HM unit :=
  old ← fetch_add_weakCount w (-1);
  if old =? 1 then
    wr ← load_weak w; c ← deref (refCounter_ wr);
    DecWeakRefCount c;; WeakRefCounter_delete w
  else mret tt.

Definition WeakRefCounter_AttemptIncStrongRef (w : Z) : HM bool :=
  wr ← load_weak w;
  c ← deref (refCounter_ wr);
  r ← AttemptIncStrongRef c;
  mret r.1.

(** ** [RefBase] *)

(** The counter of a new object; [attach] is the part all constructors share. *)
Definition attach (o : Z) : HM Z :=
  c ← RefCounter_ctor;
  IncRefCount c;;
  SetCallback c (Some o);;
  (if OHOS_PLATFORM then SetCanPromote c (Some o) else mret tt);;
  mret c.

Definition RefBase_ctor : HM Z :=
  o ← new_object None;
  c ← attach o;
  store_object o (Some c);;
  mret o.

(** The copy constructor shares nothing with the object it copies. *)
Definition RefBase_copy (other : Z) : HM Z :=
  load_object other;; RefBase_ctor.

(** The old counter is given up by both assignments. *)
Definition drop_counter (o : Z) : HM unit :=
  refs ← load_object o;
  match refs with
  | Some c => RemoveCallback c;; DecRefCount c
  | None => mret tt
  end.

Definition RefBase_assign (o other : Z) : HM unit :=
  drop_counter o;;
  c ← attach o;
  store_object o (Some c).

Definition RefBase_move (other : Z) : HM Z :=
  refs ← load_object other;
  o ← new_object refs;
  store_object other None;;
  mret o.

Definition RefBase_move_assign (o other : Z) : HM unit :=
  refs ← load_object o;
  refs' ← load_object other;
  if decide (refs = refs') then mret tt
  else
    drop_counter o;;
    refs'' ← load_object other;
    store_object o refs'';;
    store_object other None.

(** Methods that do nothing on an object without a counter. *)
Definition with_refs {A} (o : Z) (dflt : A) (f : Z -> HM A) : HM A :=
  refs ← load_object o;
  match refs with
  | Some c => f c
  | None => mret dflt
  end.

Definition RefBase_ExtendObjectLifetime (o : Z) : HM unit :=
  refs ← load_object o; c ← deref refs; ExtendObjectLifetime c.

Definition IncWeakRef (o : Z) : HM unit := with_refs o tt (fun c => IncWeakRefCount c;; mret tt).
Definition DecWeakRef (o : Z) : HM unit := with_refs o tt (fun c => DecWeakRefCount c;; mret tt).

Definition IncStrongRef (o : Z) : HM unit :=
  with_refs o tt (fun c =>
    IncWeakRef o;;
    curCount ← IncStrongRefCount c;
    IsLifeTimeExtended c;;
    if curCount =? INITIAL_PRIMARY_VALUE then emit (OnFirstStrongRef o) else mret tt).

Definition CheckIsAttemptAcquireSet (o : Z) : HM unit :=
  refs ← load_object o;
  c ← deref refs;
  isSet ← IsAttemptAcquireSet c;
  if (isSet : bool) then
    ClearAttemptAcquire c;;
    GetAttemptAcquire c;;
    DecStrongRefCount c;;
    DecWeakRefCount c;;
    mret tt
  else mret tt.

Definition DecStrongRef (o : Z) : HM unit :=
  with_refs o tt (fun c =>
    curCount ← DecStrongRefCount c;
    (if curCount =? 1 then
       emit (OnLastStrongRef o);;
       extended ← IsLifeTimeExtended c;
       if (extended : bool) then mret tt else call_callback c
     else mret tt);;
    DecWeakRefCount c;;
    mret tt).

Definition GetSptrRefCount (o : Z) : HM Z := with_refs o 0 GetStrongRefCount.
Definition GetWptrRefCount (o : Z) : HM Z := with_refs o 0 GetWeakRefCount.

Definition CreateWeakRef (o : Z) (cookie : option Z) : HM (option Z) :=
  with_refs o None (fun c => w ← WeakRefCounter_ctor (Some c) cookie; mret (Some w)).

Definition AttemptAcquire (o : Z) : HM bool :=
  with_refs o false (fun c =>
    r ← AttemptIncStrongRef c;
    if (r.1 : bool) then
      SetAttemptAcquire c;;
      (if bool_decide (r.2 = Some INITIAL_PRIMARY_VALUE) then emit (OnFirstStrongRef o) else mret tt);;
      mret true
    else mret false).

(** [OnAttemptPromoted] of the base class accepts. *)
Definition RefBase_AttemptIncStrongRef (o : Z) : HM bool :=
  with_refs o false (fun c =>
    r ← AttemptIncStrongRef c;
    (if bool_decide (r.2 = Some INITIAL_PRIMARY_VALUE) then emit (OnFirstStrongRef o) else mret tt);;
    mret r.1).

Definition RefBase_AttemptIncStrong (o : Z) : HM bool :=
  with_refs o false (fun c =>
    r ← AttemptIncStrong c;
    if (r : bool) then SetAttemptAcquire c;; mret true else mret false).

Definition RefBase_IsAttemptAcquireSet (o : Z) : HM bool := with_refs o false IsAttemptAcquireSet.
Definition IsExtendLifeTimeSet (o : Z) : HM bool := with_refs o false IsLifeTimeExtended.
End refbase.
