(* ===== verification/RefInv.v ===== *)
(** * RefInv: the invariant of reference counting

    [inv N S W h] says that the counters of the heap [h] agree with the
    references that exist: [S o] strong references to the object [o] and
    [W w] weak pointers on the weak counter [w], all of them at most [N].  Each
    lemma says how a method moves these numbers. *)

From S2P Require Import Prelude RefBase.
From stdpp Require Import functions.
Open Scope Z_scope.

Definition upd (h : Heap) (c : Z) (rc : RefCounter) : Heap :=
  set_counters h (<[c := rc]> (counters h)).

Lemma hm_bind_eq {A B} (m : HM A) (f : A -> HM B) h a h' :
  m h = Some (a, h') -> (x ← m; f x) h = f a h'.
Proof. intros E. unfold mbind, hm_bind. by rewrite E. Qed.

Lemma upd_upd h c a b : upd (upd h c a) c b = upd h c b.
Proof. unfold upd, set_counters. simpl. by rewrite insert_insert_eq. Qed.

Lemma lookup_upd h c a : counters (upd h c a) !! c = Some a.
Proof. apply lookup_insert_eq. Qed.

(** ** Methods of a counter that is alive *)

Section accesses.
Context (h : Heap) (c : Z) (rc : RefCounter) (Hc : counters h !! c = Some rc).

Lemma load_counter_eq : load_counter c h = Some (rc, h).
Proof using Hc. unfold load_counter. by rewrite Hc. Qed.
Lemma store_counter_eq rc' : store_counter c rc' h = Some (tt, upd h c rc').
Proof using Hc. unfold store_counter. by rewrite Hc. Qed.
Lemma get_strong_eq : GetStrongRefCount c h = Some (atomicStrong_ rc, h).
Proof using Hc. unfold GetStrongRefCount. by rewrite (hm_bind_eq _ _ _ _ _ load_counter_eq). Qed.
Lemma get_weak_eq : GetWeakRefCount c h = Some (atomicWeak_ rc, h).
Proof using Hc. unfold GetWeakRefCount. by rewrite (hm_bind_eq _ _ _ _ _ load_counter_eq). Qed.
Lemma extended_eq : IsLifeTimeExtended c h = Some (lifetime_extended rc, h).
Proof using Hc. unfold IsLifeTimeExtended. by rewrite (hm_bind_eq _ _ _ _ _ load_counter_eq). Qed.
Lemma attempt_set_eq : IsAttemptAcquireSet c h = Some (0 <? atomicAttempt_ rc, h).
Proof using Hc. unfold IsAttemptAcquireSet. by rewrite (hm_bind_eq _ _ _ _ _ load_counter_eq). Qed.
Lemma get_attempt_eq : GetAttemptAcquire c h = Some (atomicAttempt_ rc, h).
Proof using Hc. unfold GetAttemptAcquire. by rewrite (hm_bind_eq _ _ _ _ _ load_counter_eq). Qed.
Lemma valid_eq : IsRefPtrValid c h = Some (bool_decide (is_Some (callback_ rc)), h).
Proof using Hc. unfold IsRefPtrValid. by rewrite (hm_bind_eq _ _ _ _ _ load_counter_eq). Qed.
Lemma remove_callback_eq : RemoveCallback c h = Some (tt, upd h c (set_callback rc None)).
Proof using Hc.
  unfold RemoveCallback. rewrite (hm_bind_eq _ _ _ _ _ load_counter_eq). apply store_counter_eq.
Qed.
Lemma add_strong_eq d :
  fetch_add_strong c d h = Some (atomicStrong_ rc, upd h c (set_strong rc (i32 (atomicStrong_ rc + d)))).
Proof using Hc.
  unfold fetch_add_strong. rewrite (hm_bind_eq _ _ _ _ _ load_counter_eq).
  by rewrite (hm_bind_eq _ _ _ _ _ (store_counter_eq _)).
Qed.
Lemma add_weak_eq d :
  fetch_add_weak c d h = Some (atomicWeak_ rc, upd h c (set_weak rc (i32 (atomicWeak_ rc + d)))).
Proof using Hc.
  unfold fetch_add_weak. rewrite (hm_bind_eq _ _ _ _ _ load_counter_eq).
  by rewrite (hm_bind_eq _ _ _ _ _ (store_counter_eq _)).
Qed.
Lemma add_ref_eq d :
  fetch_add_ref c d h = Some (atomicRefCount_ rc, upd h c (set_ref rc (i32 (atomicRefCount_ rc + d)))).
Proof using Hc.
  unfold fetch_add_ref. rewrite (hm_bind_eq _ _ _ _ _ load_counter_eq).
  by rewrite (hm_bind_eq _ _ _ _ _ (store_counter_eq _)).
Qed.
Lemma add_attempt_eq d :
  fetch_add_attempt c d h =
  Some (atomicAttempt_ rc, upd h c (set_attempt rc (i32 (atomicAttempt_ rc + d)))).
Proof using Hc.
  unfold fetch_add_attempt. rewrite (hm_bind_eq _ _ _ _ _ load_counter_eq).
  by rewrite (hm_bind_eq _ _ _ _ _ (store_counter_eq _)).
Qed.
Lemma extend_eq :
  ExtendObjectLifetime c h = Some (tt, upd h c (set_flags rc (Z.lor (atomicFlags_ rc) FLAG_EXTEND_LIFE_TIME))).
Proof using Hc.
  unfold ExtendObjectLifetime. rewrite (hm_bind_eq _ _ _ _ _ load_counter_eq). apply store_counter_eq.
Qed.

(** Giving up one of several references to the counter, and the last one. *)
Lemma DecRefCount_eq :
  0 < atomicRefCount_ rc < 2 ^ 31 ->
  DecRefCount c h =
  Some (tt, if atomicRefCount_ rc =? 1 then set_counters h (delete c (counters h))
            else upd h c (set_ref rc (atomicRefCount_ rc - 1))).
Proof using Hc.
  intros Hr. unfold DecRefCount. rewrite (hm_bind_eq _ _ _ _ _ load_counter_eq).
  destruct (Z.ltb_spec 0 (atomicRefCount_ rc)); [|lia].
  rewrite (hm_bind_eq _ _ _ _ _ (add_ref_eq _)).
  assert (i32 (atomicRefCount_ rc + -1) = atomicRefCount_ rc - 1) as ->.
  { unfold i32. rewrite wrapS_small; lia. }
  destruct (atomicRefCount_ rc =? 1); [|done].
  unfold free_counter. rewrite lookup_upd. unfold upd, set_counters. simpl.
  by rewrite delete_insert_eq.
Qed.
End accesses.

Lemma load_object_eq h o r : objects h !! o = Some r -> load_object o h = Some (r, h).
Proof. intros E. unfold load_object. by rewrite E. Qed.

Lemma load_weak_eq h w wr : weaks h !! w = Some wr -> load_weak w h = Some (wr, h).
Proof. intros E. unfold load_weak. by rewrite E. Qed.

Definition upd_weak (h : Heap) (w : Z) (wr : WeakRefCounter) : Heap :=
  set_weaks h (<[w := wr]> (weaks h)).

Lemma store_weak_eq h w wr wr' : weaks h !! w = Some wr -> store_weak w wr' h = Some (tt, upd_weak h w wr').
Proof. intros E. unfold store_weak. by rewrite E. Qed.

(** ** The invariant *)

(** The number of weak counters of a counter. *)
Definition points_to (c : Z) (wr : WeakRefCounter) : Prop := refCounter_ wr = Some c.
#[export] Instance points_to_dec c wr : Decision (points_to c wr).
Proof. unfold points_to. apply _. Defined.
Definition nweak (h : Heap) (c : Z) : Z := mcount (points_to c) (weaks h).

(** The object that has just been created with [new], if it is not yet held. *)
Class Unheld := unheld : option Z.

(** A counter with [n] weak counters: its fields are the numbers of the
    comments in refbase.h. *)
Record counter_ok `{RefConfig} `{Unheld} (S : Z -> Z) (n : Z) (rc : RefCounter) : Prop := {
  ok_attempt : atomicAttempt_ rc = 0;
  ok_ref : atomicRefCount_ rc = n + 1;
  ok_promote : OHOS_PLATFORM = true -> is_Some (canPromote_ rc);
  ok_state :
    match callback_ rc with
    | Some o =>
      let k := S o + atomicAttempt_ rc in
      0 <= S o /\ atomicWeak_ rc = k + n /\
      ((atomicStrong_ rc = INITIAL_PRIMARY_VALUE /\ k = 0 /\ (0 < n \/ unheld = Some o)) \/
       (atomicStrong_ rc = k /\ (0 < k \/ lifetime_extended rc = true /\ 0 < n)))
    | None =>
      lifetime_extended rc = false /\ atomicStrong_ rc = 0 /\ atomicWeak_ rc = n /\ 0 < n /\
      atomicAttempt_ rc = 0
    end;
}.

(** The bound on the numbers of references: far from the widths of the counters. *)
Definition MAX_REFS : Z := 2 ^ 26.

Record inv `{RefConfig} `{Unheld} (N : Z) (S W : Z -> Z) (h : Heap) : Prop := {
  inv_counters : forall c rc, counters h !! c = Some rc ->
    counter_ok S (nweak h c) rc /\ nweak h c <= N /\ atomicAttempt_ rc <= N;
  inv_objects : forall o r, objects h !! o = Some r ->
    S o <= N /\ exists c rc, r = Some c /\ counters h !! c = Some rc /\ callback_ rc = Some o;
  inv_back : forall c rc o, counters h !! c = Some rc -> callback_ rc = Some o ->
    objects h !! o = Some (Some c);
  inv_weaks : forall w wr, weaks h !! w = Some wr ->
    0 < W w <= N /\ weakCount_ wr = W w /\
    exists c rc, refCounter_ wr = Some c /\ counters h !! c = Some rc /\
      (is_Some (callback_ rc) -> cookie_ wr = callback_ rc);
  inv_S : forall o, objects h !! o = None -> S o = 0;
  inv_W : forall w, weaks h !! w = None -> W w = 0;
  inv_fresh : forall a, next_address h <= a ->
    counters h !! a = None /\ objects h !! a = None /\ weaks h !! a = None;
}.

Section refinv.
Context `{RefConfig} `{Unheld}.
Implicit Types (S W : Z -> Z) (h : Heap).

Lemma inv_le N N' S W h : inv N S W h -> N <= N' -> inv N' S W h.
Proof.
  intros [] Hle. split; try done.
  - intros c rc Hc. destruct (inv_counters0 c rc Hc) as (? & ? & ?). split_and!; try done; lia.
  - intros o r Ho. destruct (inv_objects0 o r Ho) as (? & ?). split; [lia|done].
  - intros w wr Hw. destruct (inv_weaks0 w wr Hw) as ([? ?] & ? & ?). split_and!; try done; lia.
Qed.

(** Only the values of the two functions matter. *)
Lemma inv_ext N S S' W W' h :
  (forall o, S' o = S o) -> (forall w, W' w = W w) -> inv N S W h -> inv N S' W' h.
Proof.
  intros HS HW []. split; try done.
  - intros c rc Hc. destruct (inv_counters0 c rc Hc) as ([? ? ? Hst] & ? & ?). split_and!; try done.
    split; try done. destruct (callback_ rc); [|done]. by rewrite HS.
  - intros o r Ho. rewrite HS. by apply inv_objects0.
  - intros w wr Hw. rewrite HW. by apply inv_weaks0.
  - intros o Ho. rewrite HS. by apply inv_S0.
  - intros w Hw. rewrite HW. by apply inv_W0.
Qed.

#[export] Instance inv_proper :
  Proper (eq ==> pointwise_relation Z eq ==> pointwise_relation Z eq ==> eq ==> iff) inv.
Proof. intros N ? <- S S' HS W W' HW h ? <-. split; apply inv_ext; intros; done. Qed.

(** The counter of an object that is alive. *)
Lemma inv_alive N S W h o r :
  inv N S W h -> objects h !! o = Some r ->
  exists c rc, r = Some c /\ counters h !! c = Some rc /\ callback_ rc = Some o /\
    counter_ok S (nweak h c) rc /\ 0 <= nweak h c <= N /\ 0 <= atomicAttempt_ rc <= N /\ 0 <= S o <= N.
Proof.
  intros Hi Ho. destruct (inv_objects _ _ _ _ Hi o r Ho) as (HN & c & rc & -> & Hc & Hcb).
  destruct (inv_counters _ _ _ _ Hi c rc Hc) as (Hok & Hn & Ha).
  exists c, rc. pose proof (ok_attempt _ _ _ Hok). pose proof (ok_state _ _ _ Hok) as Hst.
  rewrite Hcb in Hst. destruct Hst as [HS _]. split_and!; try done; [apply mcount_nonneg|lia].
Qed.

(** Another counter does not notice a change of one object's references. *)
Lemma counter_ok_frame S S' n rc :
  counter_ok S n rc -> (forall o, callback_ rc = Some o -> S' o = S o) -> counter_ok S' n rc.
Proof.
  intros [Ha Hr Hp Hs] HS. split; try done. destruct (callback_ rc) as [o|]; [|done].
  by rewrite (HS o eq_refl).
Qed.

(** The change of one counter while its object stays. *)
Lemma inv_update N N' S S' W h c rc rc' :
  inv N S W h -> counters h !! c = Some rc -> callback_ rc' = callback_ rc ->
  counter_ok S' (nweak h c) rc' -> N <= N' -> atomicAttempt_ rc' <= N' ->
  (forall o, callback_ rc = Some o -> S' o <= N') ->
  (forall o, callback_ rc <> Some o -> S' o = S o) ->
  inv N' S' W (upd h c rc').
Proof.
  intros Hi Hc Hcb Hok HN Ha HSN HS. apply (inv_le _ N') in Hi; [|done].
  pose proof Hi as [I1 I2 I3 I4 I5 I6 I7]. split; simpl.
  - intros c1 rc1. destruct (decide (c1 = c)) as [->|Hne].
    + rewrite lookup_insert_eq. intros [= <-]. split_and!; [done|by apply (I1 c rc)|done].
    + rewrite lookup_insert_ne by done. intros Hc1. destruct (I1 c1 rc1 Hc1) as (Hok1 & ? & ?).
      split_and!; [|done|done]. eapply counter_ok_frame; [exact Hok1|]. intros o Ho.
      apply HS. intros Ho'. pose proof (I3 _ _ _ Hc1 Ho). pose proof (I3 _ _ _ Hc Ho'). congruence.
  - intros o r Ho. destruct (I2 o r Ho) as (Hle & c1 & rc1 & -> & Hc1 & Hcb1).
    destruct (decide (c1 = c)) as [->|Hne].
    + assert (rc1 = rc) as -> by congruence. split; [by apply HSN|].
      exists c, rc'. rewrite lookup_insert_eq. by rewrite Hcb.
    + assert (callback_ rc <> Some o) as Hno.
      { intros Ho'. pose proof (I3 _ _ _ Hc Ho'). congruence. }
      split; [rewrite HS by done; lia|]. exists c1, rc1. by rewrite lookup_insert_ne by done.
  - intros c1 rc1 o. destruct (decide (c1 = c)) as [->|Hne].
    + rewrite lookup_insert_eq. intros [= <-]. rewrite Hcb. by apply I3.
    + rewrite lookup_insert_ne by done. apply I3.
  - intros w wr Hw. destruct (I4 w wr Hw) as (HW & Hwc & c1 & rc1 & Hr & Hc1 & Hck).
    split_and!; [lia..|done|]. exists c1. destruct (decide (c1 = c)) as [->|Hne].
    + exists rc'. rewrite lookup_insert_eq, Hcb. assert (rc1 = rc) as -> by congruence. done.
    + exists rc1. by rewrite lookup_insert_ne by done.
  - intros o Ho. rewrite HS; [by apply I5|]. intros Ho'. pose proof (I3 _ _ _ Hc Ho'). congruence.
  - done.
  - intros a Hle. destruct (I7 a Hle) as (F1 & F2 & F3). split_and!; try done.
    rewrite lookup_insert_ne; [done|]. intros ->. congruence.
Qed.

(** The end of a weak counter, of the object, or of the counter itself. *)
Definition without_weak (h : Heap) (ow : option Z) : gmap Z WeakRefCounter :=
  match ow with Some w => delete w (weaks h) | None => weaks h end.

Definition nweak_left (h : Heap) (c : Z) (ow : option Z) : Z := mcount (points_to c) (without_weak h ow).

Lemma nweak_left_eq h c w wr :
  weaks h !! w = Some wr -> refCounter_ wr = Some c ->
  nweak_left h c (Some w) = nweak h c - 1.
Proof.
  intros Hw Hr. unfold nweak_left, without_weak, nweak.
  rewrite (mcount_delete _ _ _ _ Hw). unfold hit. by rewrite decide_True.
Qed.

Lemma nweak_left_other h c c1 w wr :
  weaks h !! w = Some wr -> refCounter_ wr = Some c -> c1 <> c ->
  nweak_left h c1 (Some w) = nweak h c1.
Proof.
  intros Hw Hr Hne. unfold nweak_left, without_weak, nweak.
  rewrite (mcount_delete _ _ _ _ Hw). unfold hit. rewrite decide_False; [lia|].
  unfold points_to. congruence.
Qed.

Definition left_weak (W W' : Z -> Z) (h : Heap) (c : Z) (ow : option Z) : Prop :=
  match ow with
  | Some w => W' = <[w := 0]> W /\ exists wr, weaks h !! w = Some wr /\ refCounter_ wr = Some c
  | None => W' = W
  end.

Lemma left_weak_lookup W W' h c ow w1 wr1 :
  left_weak W W' h c ow -> without_weak h ow !! w1 = Some wr1 ->
  weaks h !! w1 = Some wr1 /\ W' w1 = W w1.
Proof.
  destruct ow as [w|]; simpl; [|by intros ->]. intros [-> _] Hw1.
  destruct (decide (w1 = w)) as [->|Hne]; [by rewrite lookup_delete_eq in Hw1|].
  rewrite lookup_delete_ne in Hw1 by done. split; [done|]. by rewrite fn_lookup_insert_ne.
Qed.

Lemma left_weak_other W W' h c ow c1 :
  left_weak W W' h c ow -> c1 <> c -> nweak_left h c1 ow = nweak h c1.
Proof.
  destruct ow as [w|]; simpl; [|done]. intros (_ & wr & Hw & Hr) Hne.
  by apply (nweak_left_other h c c1 w wr).
Qed.

(** What becomes of the counter and of its object. *)
Definition counter_after (h : Heap) (c : Z) (orc : option RefCounter) : gmap Z RefCounter :=
  match orc with Some rc' => <[c := rc']> (counters h) | None => delete c (counters h) end.

Definition object_after (h : Heap) (rc : RefCounter) (orc : option RefCounter) : gmap Z (option Z) :=
  match callback_ rc, orc ≫= callback_ with
  | Some o, None => delete o (objects h)
  | _, _ => objects h
  end.

Lemma counter_after_lookup h c orc c1 rc1 :
  counter_after h c orc !! c1 = Some rc1 ->
  (c1 = c /\ orc = Some rc1) \/ (c1 <> c /\ counters h !! c1 = Some rc1).
Proof.
  destruct (decide (c1 = c)) as [->|Hne]; destruct orc as [rc'|]; simpl;
    rewrite ?lookup_insert_eq, ?lookup_delete_eq, ?lookup_insert_ne, ?lookup_delete_ne by done;
    try done; naive_solver.
Qed.

Lemma counter_after_ne h c orc c1 :
  c1 <> c -> counter_after h c orc !! c1 = counters h !! c1.
Proof.
  intros Hne. destruct orc; simpl; [by rewrite lookup_insert_ne|by rewrite lookup_delete_ne].
Qed.

Lemma inv_shrink N S S' W W' h h' c rc orc ow :
  inv N S W h -> counters h !! c = Some rc -> left_weak W W' h c ow ->
  counters h' = counter_after h c orc -> weaks h' = without_weak h ow ->
  objects h' = object_after h rc orc -> next_address h' = next_address h ->
  match orc with
  | Some rc' => (callback_ rc' = callback_ rc \/ callback_ rc' = None) /\
                counter_ok S' (nweak_left h c ow) rc' /\ atomicAttempt_ rc' <= N
  | None => nweak_left h c ow = 0
  end ->
  (forall o, callback_ rc = Some o -> S' o <= N /\ (orc ≫= callback_ = None -> S' o = 0)) ->
  (forall o, callback_ rc <> Some o -> S' o = S o) ->
  inv N S' W' h'.
Proof.
  intros Hi Hc Hlw Ec Ew Eo En Horc HSo HS. pose proof Hi as [I1 I2 I3 I4 I5 I6 I7].
  assert (forall c1 rc1 o, c1 <> c -> counters h !! c1 = Some rc1 -> callback_ rc1 = Some o ->
            callback_ rc <> Some o) as Hsep.
  { intros c1 rc1 o Hne Hc1 Ho Ho'. pose proof (I3 _ _ _ Hc1 Ho). pose proof (I3 _ _ _ Hc Ho'). congruence. }
  assert (forall o, callback_ rc <> Some o -> objects h' !! o = objects h !! o) as Hobj.
  { intros o Hno. rewrite Eo. unfold object_after. destruct (callback_ rc) as [o'|]; [|done].
    destruct (orc ≫= callback_); [done|]. rewrite lookup_delete_ne; [done|congruence]. }
  assert (nweak h' c = nweak_left h c ow) as Enw by (unfold nweak, nweak_left; by rewrite Ew).
  split.
  - intros c1 rc1 Hc1. rewrite Ec in Hc1.
    apply counter_after_lookup in Hc1 as [[-> ->]|[Hne Hc1]].
    + destruct Horc as (_ & Hok & Ha). rewrite Enw. split_and!; try done.
      destruct (I1 c rc Hc) as (_ & Hn & _). unfold nweak_left, without_weak.
      destruct ow as [w|]; [|done]. destruct Hlw as (_ & wr & Hw & Hr).
      pose proof (nweak_left_eq h c w wr Hw Hr) as E. unfold nweak_left, without_weak in E. lia.
    + destruct (I1 c1 rc1 Hc1) as (Hok & Hn & Ha).
      assert (nweak h' c1 = nweak h c1) as ->.
      { unfold nweak at 1. rewrite Ew. by apply (left_weak_other W W' h c ow). }
      split_and!; try done. eapply counter_ok_frame; [exact Hok|]. intros o Ho.
      apply HS. by eapply Hsep.
  - intros o r Ho. destruct (decide (callback_ rc = Some o)) as [Hcb|Hcb].
    + rewrite Eo in Ho. unfold object_after in Ho. rewrite Hcb in Ho.
      destruct orc as [rc'|]; simpl in Ho; [|by rewrite lookup_delete_eq in Ho].
      destruct (callback_ rc') as [o'|] eqn:Hcb'; [|by rewrite lookup_delete_eq in Ho].
      split; [by apply HSo|]. destruct Horc as [[Hk|Hk] _]; [|congruence].
      destruct (I2 o r Ho) as (_ & c1 & rc1 & -> & Hc1 & Hcb1).
      assert (c1 = c) as -> by (destruct (decide (c1 = c)); [done|by destruct (Hsep c1 rc1 o)]).
      exists c, rc'. rewrite Ec. simpl. rewrite lookup_insert_eq. split_and!; congruence.
    + rewrite Hobj in Ho by done. destruct (I2 o r Ho) as (Hle & c1 & rc1 & -> & Hc1 & Hcb1).
      split; [by rewrite HS|]. exists c1, rc1. split_and!; try done.
      rewrite Ec, counter_after_ne; [done|]. intros ->. congruence.
  - intros c1 rc1 o Hc1 Hcb1. rewrite Ec in Hc1.
    apply counter_after_lookup in Hc1 as [[-> ->]|[Hne Hc1]].
    + destruct Horc as [[Hk|Hk] _]; [|congruence]. rewrite Eo. unfold object_after. simpl.
      rewrite Hcb1. rewrite Hk in Hcb1. rewrite Hcb1. by apply (I3 c rc).
    + rewrite Hobj; [by apply (I3 c1 rc1)|]. by eapply Hsep.
  - intros w wr Hw. rewrite Ew in Hw. destruct (left_weak_lookup _ _ _ _ _ _ _ Hlw Hw) as [Hw0 ->].
    destruct (I4 w wr Hw0) as (HW & Hwc & c1 & rc1 & Hr & Hc1 & Hck).
    split; [done|]. split; [done|]. exists c1. destruct (decide (c1 = c)) as [->|Hne].
    + destruct orc as [rc'|].
      * exists rc'. rewrite Ec. simpl. rewrite lookup_insert_eq. split_and!; try done.
        intros Hs. assert (rc1 = rc) as -> by congruence.
        destruct Horc as [[Hk|Hk] _]; [|rewrite Hk in Hs; by destruct Hs].
        rewrite Hk in Hs |- *. by apply Hck.
      * exfalso. unfold nweak_left in Horc.
        pose proof (mcount_pos (points_to c) (without_weak h ow) w wr Hw Hr). lia.
    + exists rc1. by rewrite Ec, counter_after_ne.
  - intros o Ho. destruct (decide (callback_ rc = Some o)) as [Hcb|Hcb].
    + apply HSo; [done|]. rewrite Eo in Ho. unfold object_after in Ho. rewrite Hcb in Ho.
      destruct (orc ≫= callback_); [|done]. rewrite (I3 _ _ _ Hc Hcb) in Ho. done.
    + rewrite HS by done. apply I5. by rewrite <- Hobj.
  - intros w Hw. rewrite Ew in Hw. destruct ow as [w1|]; simpl in *; [|rewrite Hlw; by apply I6].
    destruct Hlw as [-> _]. destruct (decide (w = w1)) as [->|Hne]; [by rewrite fn_lookup_insert|].
    rewrite fn_lookup_insert_ne by done. apply I6. by rewrite lookup_delete_ne in Hw.
  - intros a Hle. rewrite En in Hle. destruct (I7 a Hle) as (F1 & F2 & F3).
    assert (a <> c) by (intros ->; congruence). split_and!.
    + by rewrite Ec, counter_after_ne.
    + rewrite Eo. unfold object_after. destruct (callback_ rc), (orc ≫= callback_); try done.
      by apply lookup_delete_None; right.
    + rewrite Ew. destruct ow; simpl; [|done]. by apply lookup_delete_None; right.
Qed.
End refinv.

(** ** The methods *)

Ltac hstep lem := rewrite (hm_bind_eq _ _ _ _ _ lem).

Lemma i32_id z : - 2 ^ 31 <= z < 2 ^ 31 -> i32 z = z.
Proof. intros. apply wrapS_small; lia. Qed.

Lemma inv_log `{RefConfig} `{Unheld} N S W h e : inv N S W h -> inv N S W (log h e).
Proof. intros []. by split. Qed.

Section methods.
Context `{RefConfig} `{Unheld}.
Implicit Types (S W : Z -> Z) (h : Heap).

Lemma IncStrongRefCount_eq h c rc :
  counters h !! c = Some rc -> 0 <= atomicStrong_ rc < 2 ^ 30 ->
  IncStrongRefCount c h =
  Some (atomicStrong_ rc, upd h c (set_strong rc
    (if atomicStrong_ rc =? INITIAL_PRIMARY_VALUE then 1 else atomicStrong_ rc + 1))).
Proof.
  intros Hc Hs. unfold IncStrongRefCount. hstep (get_strong_eq h c rc Hc).
  destruct (Z.leb_spec 0 (atomicStrong_ rc)); [|lia].
  hstep (add_strong_eq h c rc Hc 1). rewrite i32_id by lia.
  destruct (Z.eqb_spec (atomicStrong_ rc) INITIAL_PRIMARY_VALUE) as [E|].
  - set (rc1 := set_strong rc (atomicStrong_ rc + 1)).
    rewrite (hm_bind_eq _ _ _ tt (upd h c (set_strong rc 1))); [done|].
    hstep (add_strong_eq _ c rc1 (lookup_upd h c rc1) (- INITIAL_PRIMARY_VALUE)).
    rewrite upd_upd. unfold rc1. simpl. by rewrite E.
  - done.
Qed.

Lemma DecStrongRefCount_eq h c rc :
  counters h !! c = Some rc -> 0 < atomicStrong_ rc < 2 ^ 30 ->
  atomicStrong_ rc <> INITIAL_PRIMARY_VALUE ->
  DecStrongRefCount c h = Some (atomicStrong_ rc, upd h c (set_strong rc (atomicStrong_ rc - 1))).
Proof.
  intros Hc Hs Hne. unfold DecStrongRefCount. hstep (get_strong_eq h c rc Hc).
  destruct (Z.eqb_spec (atomicStrong_ rc) INITIAL_PRIMARY_VALUE); [done|].
  destruct (Z.ltb_spec 0 (atomicStrong_ rc)); [|lia].
  rewrite (add_strong_eq h c rc Hc). by rewrite i32_id by lia.
Qed.

Lemma with_refs_eq {A} o (d : A) f h c :
  objects h !! o = Some (Some c) -> with_refs o d f h = f c h.
Proof. intros Ho. unfold with_refs. by hstep (load_object_eq h o _ Ho). Qed.

(** What a new strong reference does to the counter. *)
Definition gained (rc : RefCounter) : RefCounter :=
  set_strong (set_weak rc (atomicWeak_ rc + 1))
    (if atomicStrong_ rc =? INITIAL_PRIMARY_VALUE then 1 else atomicStrong_ rc + 1).

Lemma gained_ok N S n rc o :
  counter_ok S n rc -> callback_ rc = Some o -> S o <= N -> atomicAttempt_ rc <= N -> N < MAX_REFS ->
  counter_ok (<[o := S o + 1]> S) n (gained rc).
Proof.
  intros [Ha Hr Hp Hst] Hcb HS HA HN. unfold MAX_REFS in HN. split; try done. simpl.
  rewrite Hcb in Hst |- *. rewrite fn_lookup_insert. destruct Hst as (Hnn & Hw & Hst).
  split_and!; [lia|lia|]. right.
  destruct Hst as [[Hs Hk]|[Hs Hk]].
  - rewrite Hs. rewrite Z.eqb_refl. lia.
  - destruct (Z.eqb_spec (atomicStrong_ rc) INITIAL_PRIMARY_VALUE) as [E|]; [|lia].
    unfold INITIAL_PRIMARY_VALUE in E. lia.
Qed.

(** The bounds that keep every atomic operation from wrapping. *)
Lemma counter_bounds N S n rc o :
  counter_ok S n rc -> callback_ rc = Some o -> S o <= N -> atomicAttempt_ rc <= N -> 0 <= n <= N ->
  N <= MAX_REFS ->
  0 <= atomicStrong_ rc < 2 ^ 30 /\ 0 <= atomicWeak_ rc < 2 ^ 30 /\ 0 < atomicRefCount_ rc < 2 ^ 30.
Proof.
  intros [Ha Hr Hp Hst] Hcb HS HA Hn HN. unfold MAX_REFS in HN. rewrite Hcb in Hst.
  destruct Hst as (Hnn & Hw & [[Hs Hk]|[Hs Hk]]); rewrite ?Hs; unfold INITIAL_PRIMARY_VALUE; lia.
Qed.

Lemma IncStrongRef_spec N S W h o r :
  inv N S W h -> N < MAX_REFS -> objects h !! o = Some r ->
  exists h', IncStrongRef o h = Some (tt, h') /\ inv (N + 1) (<[o := S o + 1]> S) W h' /\
    objects h' = objects h /\ weaks h' = weaks h.
Proof.
  intros Hi HN Ho.
  destruct (inv_alive N S W h o r Hi Ho) as (c & rc & -> & Hc & Hcb & Hok & Hn & Ha & HS).
  destruct (counter_bounds N S _ rc o Hok Hcb) as (Bs & Bw & Br); try lia.
  assert (inv (N + 1) (<[o := S o + 1]> S) W (upd h c (gained rc))) as Hi'.
  { apply (inv_update N _ S _ W h c rc); try done; try lia.
    - eapply gained_ok; eauto; lia.
    - simpl. lia.
    - intros o' E. rewrite Hcb in E. simplify_eq. rewrite fn_lookup_insert. lia.
    - intros o' E. rewrite fn_lookup_insert_ne; [done|congruence]. }
  unfold IncStrongRef. rewrite (with_refs_eq o tt _ h c Ho). unfold IncWeakRef.
  set (rc1 := set_weak rc (atomicWeak_ rc + 1)).
  rewrite (hm_bind_eq _ _ h tt (upd h c rc1)).
  2:{ rewrite (with_refs_eq o tt _ h c Ho). unfold IncWeakRefCount.
      hstep (add_weak_eq h c rc Hc 1). by rewrite i32_id by lia. }
  assert (counters (upd h c rc1) !! c = Some rc1) as Hc1 by apply lookup_upd.
  hstep (IncStrongRefCount_eq _ c rc1 Hc1 Bs). rewrite upd_upd. fold (gained rc).
  hstep (extended_eq _ c _ (lookup_upd h c (gained rc))).
  destruct (atomicStrong_ rc1 =? INITIAL_PRIMARY_VALUE).
  - exists (log (upd h c (gained rc)) (OnFirstStrongRef o)). split; [done|]. by split; [apply inv_log|].
  - exists (upd h c (gained rc)). done.
Qed.

(** ** Letting go *)

(** The counter after one reference to it is dropped, after its object is
    deleted, and after a weak reference is dropped. *)
Definition drop_ref (rc : RefCounter) : option RefCounter :=
  if atomicRefCount_ rc =? 1 then None else Some (set_ref rc (atomicRefCount_ rc - 1)).

Definition without_object (rc : RefCounter) : option RefCounter :=
  let rc1 := set_callback rc None in
  if (lifetime_extended rc && (atomicWeak_ rc =? 0)) || (atomicStrong_ rc =? INITIAL_PRIMARY_VALUE)
  then drop_ref rc1 else Some rc1.

Definition after_last (rc : RefCounter) : option RefCounter :=
  if lifetime_extended rc || (atomicStrong_ rc =? INITIAL_PRIMARY_VALUE)
  then match callback_ rc with Some _ => without_object rc | None => Some rc end
  else drop_ref rc.

Definition released (rc : RefCounter) : option RefCounter :=
  let rc1 := set_weak rc (atomicWeak_ rc - 1) in
  if atomicWeak_ rc =? 1 then after_last rc1 else Some rc1.

(** [became h h' c orc om]: only the counter [c] and the objects changed. *)
Definition became (h h' : Heap) (c : Z) (orc : option RefCounter) (om : gmap Z (option Z)) : Prop :=
  counters h' = counter_after h c orc /\ objects h' = om /\ weaks h' = weaks h /\
  next_address h' = next_address h.

Lemma counter_after_upd h c rc orc : counter_after (upd h c rc) c orc = counter_after h c orc.
Proof.
  unfold counter_after, upd. simpl. destruct orc; [apply insert_insert_eq|apply delete_insert_eq].
Qed.

Lemma DecRefCount_became h c rc :
  counters h !! c = Some rc -> 0 < atomicRefCount_ rc < 2 ^ 30 ->
  exists h', DecRefCount c h = Some (tt, h') /\ became h h' c (drop_ref rc) (objects h).
Proof.
  intros Hc Hr. rewrite (DecRefCount_eq h c rc Hc) by lia. eexists. split; [done|].
  unfold became, drop_ref. by destruct (atomicRefCount_ rc =? 1).
Qed.

Lemma RefPtrCallback_became h c rc o :
  counters h !! c = Some rc -> objects h !! o = Some (Some c) -> 0 < atomicRefCount_ rc < 2 ^ 30 ->
  exists h', RefPtrCallback o h = Some (tt, h') /\
    became h h' c (without_object rc) (delete o (objects h)).
Proof.
  intros Hc Ho Hr. unfold RefPtrCallback, RefBase_dtor.
  set (rc1 := set_callback rc None). set (h1 := upd h c rc1).
  assert (counters h1 !! c = Some rc1) as Hc1 by apply lookup_upd.
  assert (exists h2, (if (lifetime_extended rc && (atomicWeak_ rc =? 0)) ||
                         (atomicStrong_ rc =? INITIAL_PRIMARY_VALUE)
                      then DecRefCount c else mret tt) h1 = Some (tt, h2) /\
            became h h2 c (without_object rc) (objects h)) as (h2 & E2 & B2).
  { unfold without_object. fold rc1. destruct (_ || _).
    - destruct (DecRefCount_became h1 c rc1 Hc1 Hr) as (h2 & E2 & Ec & Eo & Ew & En).
      exists h2. split; [done|]. unfold h1 in Ec. rewrite counter_after_upd in Ec. done.
    - exists h1. done. }
  destruct B2 as (Ec & Eo & Ew & En).
  set (h3 := set_objects h2 (<[o := None]> (objects h2))).
  rewrite (hm_bind_eq _ _ h tt h3).
  2:{ hstep (load_object_eq h o _ Ho). hstep (remove_callback_eq h c rc Hc). fold rc1 h1.
      hstep (extended_eq h1 c rc1 Hc1). hstep (get_weak_eq h1 c rc1 Hc1).
      hstep (get_strong_eq h1 c rc1 Hc1). change (lifetime_extended rc1) with (lifetime_extended rc).
      simpl (atomicWeak_ rc1). simpl (atomicStrong_ rc1).
      hstep E2. unfold store_object.
      assert (objects h2 !! o = Some (Some c)) as -> by (by rewrite Eo). done. }
  eexists. split.
  - unfold free_object, mbind, hm_bind, emit. simpl. rewrite lookup_insert_eq. done.
  - split_and!; try done. simpl. by rewrite delete_insert_eq, Eo.
Qed.

Lemma call_callback_became h c rc o :
  counters h !! c = Some rc -> callback_ rc = Some o -> objects h !! o = Some (Some c) ->
  0 < atomicRefCount_ rc < 2 ^ 30 ->
  exists h', call_callback c h = Some (tt, h') /\
    became h h' c (without_object rc) (delete o (objects h)).
Proof.
  intros Hc Hcb Ho Hr. unfold call_callback. hstep (load_counter_eq h c rc Hc). rewrite Hcb.
  by apply RefPtrCallback_became.
Qed.

Lemma without_object_callback rc : without_object rc ≫= callback_ = None.
Proof. unfold without_object, drop_ref. repeat case_match; simplify_eq; done. Qed.

Lemma last_weak_became h c rc :
  counters h !! c = Some rc -> 0 < atomicRefCount_ rc < 2 ^ 30 ->
  (forall o, callback_ rc = Some o -> objects h !! o = Some (Some c) /\
     lifetime_extended rc || (atomicStrong_ rc =? INITIAL_PRIMARY_VALUE) = true) ->
  exists h', (if lifetime_extended rc then call_callback c
              else strong ← GetStrongRefCount c;
                   if strong =? INITIAL_PRIMARY_VALUE then call_callback c else DecRefCount c) h
             = Some (tt, h') /\
    became h h' c (after_last rc) (object_after h rc (after_last rc)).
Proof.
  intros Hc Hr Ho. unfold after_last.
  assert (lifetime_extended rc || (atomicStrong_ rc =? INITIAL_PRIMARY_VALUE) = true ->
    exists h', call_callback c h = Some (tt, h') /\
      became h h' c (match callback_ rc with Some _ => without_object rc | None => Some rc end)
        (object_after h rc (match callback_ rc with Some _ => without_object rc | None => Some rc end))) as Hcall.
  { intros _. unfold object_after. destruct (callback_ rc) as [o|] eqn:Hcb.
    - rewrite without_object_callback. by apply (call_callback_became h c rc o); try apply Ho.
    - exists h. unfold call_callback. hstep (load_counter_eq h c rc Hc). rewrite Hcb.
      split; [done|]. split_and!; try done. simpl. by rewrite insert_id. }
  destruct (lifetime_extended rc); [by apply Hcall|].
  hstep (get_strong_eq h c rc Hc). simpl in *.
  destruct (atomicStrong_ rc =? INITIAL_PRIMARY_VALUE); [by apply Hcall|].
  destruct (DecRefCount_became h c rc Hc Hr) as (h' & E & Ec & Eo & Ew & En).
  exists h'. split; [done|]. split_and!; try done. rewrite Eo. unfold object_after.
  destruct (callback_ rc) as [o|]; [|done]. by destruct (Ho o eq_refl).
Qed.

(** A dropped weak reference, when the object is not kept by strong ones alone. *)
Lemma DecWeakRefCount_became h c rc :
  counters h !! c = Some rc -> 0 < atomicWeak_ rc < 2 ^ 30 -> 0 < atomicRefCount_ rc < 2 ^ 30 ->
  (forall o, callback_ rc = Some o -> objects h !! o = Some (Some c) /\
     (atomicWeak_ rc = 1 -> lifetime_extended rc || (atomicStrong_ rc =? INITIAL_PRIMARY_VALUE) = true)) ->
  exists h', DecWeakRefCount c h = Some (atomicWeak_ rc, h') /\
    became h h' c (released rc) (object_after h rc (released rc)).
Proof.
  intros Hc Hw Hr Ho. unfold DecWeakRefCount. hstep (get_weak_eq h c rc Hc).
  destruct (Z.ltb_spec 0 (atomicWeak_ rc)); [|lia].
  hstep (add_weak_eq h c rc Hc (-1)). rewrite i32_id by lia.
  replace (atomicWeak_ rc + -1) with (atomicWeak_ rc - 1) by lia. unfold released.
  set (rc1 := set_weak rc (atomicWeak_ rc - 1)). set (h1 := upd h c rc1).
  assert (counters h1 !! c = Some rc1) as Hc1 by apply lookup_upd.
  destruct (Z.eqb_spec (atomicWeak_ rc) 1) as [E|E]; cbn [negb].
  - hstep (extended_eq h1 c rc1 Hc1).
    destruct (last_weak_became h1 c rc1 Hc1 Hr) as (h' & E' & Ec & Eo & Ew & En).
    { intros o Hcb. destruct (Ho o Hcb) as [? Hl]. split; [done|]. by apply Hl. }
    hstep E'. exists h'. split; [done|]. unfold h1 in Ec. rewrite counter_after_upd in Ec. done.
  - exists h1. split; [done|]. unfold became, object_after. cbn [mbind option_bind].
    change (callback_ rc1) with (callback_ rc). by destruct (callback_ rc).
Qed.

Lemma counter_after_became h h1 c rc1 om orc :
  became h h1 c (Some rc1) om -> counter_after h1 c orc = counter_after h c orc.
Proof.
  intros (Ec & _). unfold counter_after in *. rewrite Ec.
  destruct orc; [apply insert_insert_eq|apply delete_insert_eq].
Qed.

Lemma became_lookup h h1 c rc1 om : became h h1 c (Some rc1) om -> counters h1 !! c = Some rc1.
Proof. intros (Ec & _). rewrite Ec. apply lookup_insert_eq. Qed.

(** A counter that lost a strong reference, before its weak count follows. *)
Definition lost (rc : RefCounter) : RefCounter := set_strong rc (atomicStrong_ rc - 1).

Lemma lost_alive_ok N S n rc o :
  counter_ok S n rc -> callback_ rc = Some o -> 0 < S o <= N -> 0 <= n <= N -> N <= MAX_REFS ->
  atomicAttempt_ rc <= N -> atomicStrong_ rc <> 1 \/ lifetime_extended rc = true ->
  match released (lost rc) with
  | Some rc' => callback_ rc' = Some o /\ counter_ok (<[o := S o - 1]> S) n rc' /\
                atomicAttempt_ rc' = atomicAttempt_ rc
  | None => n = 0 /\ S o = 1
  end.
Proof.
  intros [Ha Hr Hp Hst] Hcb HS Hn HN HA Hlast. rewrite Hcb in Hst.
  destruct Hst as (_ & Hw & Hst). unfold MAX_REFS, INITIAL_PRIMARY_VALUE in *.
  unfold released, lost. simpl. destruct (Z.eqb_spec (atomicWeak_ rc) 1) as [E|E].
  - unfold after_last, without_object, drop_ref. cbn -[Z.eqb]. rewrite Hcb.
    change (lifetime_extended (set_weak _ _)) with (lifetime_extended rc).
    destruct Hlast as [?| ->]; [lia|]. cbn -[Z.eqb].
    replace (atomicWeak_ rc - 1) with 0 by lia. cbn -[Z.sub].
    destruct (Z.eqb_spec (atomicRefCount_ rc) 1); [|lia]. lia.
  - split; [done|]. split; [|done]. split; try done. cbn -[Z.eqb]. rewrite Hcb, fn_lookup_insert.
    split_and!; [lia|lia|]. right. split; [lia|].
    destruct (Z.eq_dec (S o + atomicAttempt_ rc) 1); [right|left; lia].
    split; [|lia]. change (lifetime_extended (set_weak _ _)) with (lifetime_extended rc).
    destruct Hlast; [lia|done].
Qed.

Lemma lost_dead_ok N S n rc o :
  counter_ok S n rc -> callback_ rc = Some o -> 0 < S o <= N -> 0 <= n <= N -> N <= MAX_REFS ->
  atomicAttempt_ rc <= N -> atomicStrong_ rc = 1 -> lifetime_extended rc = false ->
  without_object (lost rc) = Some (set_callback (lost rc) None) /\ S o = 1 /\
  match released (set_callback (lost rc) None) with
  | Some rc' => callback_ rc' = None /\ counter_ok (<[o := S o - 1]> S) n rc' /\
                atomicAttempt_ rc' = atomicAttempt_ rc
  | None => n = 0
  end.
Proof.
  intros [Ha Hr Hp Hst] Hcb HS Hn HN HA Hone Hext. rewrite Hcb in Hst.
  destruct Hst as (_ & Hw & Hst). unfold MAX_REFS, INITIAL_PRIMARY_VALUE in *.
  assert (S o = 1 /\ atomicAttempt_ rc = 0) as [HS1 HA0] by (destruct Hst as [[? ?]|[? _]]; lia).
  split; [|split; [done|]].
  - unfold without_object, lost. cbn -[Z.eqb]. change (lifetime_extended (set_strong _ _)) with (lifetime_extended rc).
    by rewrite Hext, Hone.
  - unfold released, lost. simpl. destruct (Z.eqb_spec (atomicWeak_ rc) 1) as [E|E].
    + unfold after_last, drop_ref. cbn -[Z.eqb].
      change (lifetime_extended (set_weak _ _)) with (lifetime_extended rc). rewrite Hext, Hone. simpl.
      destruct (Z.eqb_spec (atomicRefCount_ rc) 1); [|lia]. lia.
    + split; [done|]. split; [|done]. split; try done. cbn -[Z.eqb]. split_and!; try done; lia.
Qed.

Lemma held_alive N S W h o :
  inv N S W h -> 0 < S o -> exists r, objects h !! o = Some r.
Proof.
  intros Hi HS. destruct (objects h !! o) as [r|] eqn:E; [by exists r|].
  pose proof (inv_S _ _ _ _ Hi o E). lia.
Qed.

(** The end of [DecStrongRef]: the weak count follows the strong one. *)
Lemma DecWeak_after N S W h h1 c rc rc1 o om :
  inv N S W h -> counters h !! c = Some rc -> callback_ rc = Some o -> 0 < S o ->
  became h h1 c (Some rc1) om ->
  om = (match callback_ rc1 with Some _ => objects h | None => delete o (objects h) end) ->
  (callback_ rc1 = Some o /\ (atomicWeak_ rc1 = 1 -> lifetime_extended rc1 = true) \/ callback_ rc1 = None) ->
  0 < atomicWeak_ rc1 < 2 ^ 30 -> 0 < atomicRefCount_ rc1 < 2 ^ 30 ->
  match released rc1 with
  | Some rc' => callback_ rc' = callback_ rc1 /\ counter_ok (<[o := S o - 1]> S) (nweak h c) rc' /\
                atomicAttempt_ rc' <= N
  | None => nweak h c = 0
  end ->
  S o <= N -> (released rc1 ≫= callback_ = None -> S o = 1) ->
  exists h2, DecWeakRefCount c h1 = Some (atomicWeak_ rc1, h2) /\
    inv N (<[o := S o - 1]> S) W h2 /\ weaks h2 = weaks h /\
    objects h2 = match released rc1 ≫= callback_ with Some _ => objects h | None => delete o (objects h) end.
Proof.
  intros Hi Hc Hcb HS B -> Hrc1 Hw Hr Hrel HN Hlast. pose proof B as (Ec & Eo & Ew & En).
  pose proof (inv_back _ _ _ _ Hi c rc o Hc Hcb) as Ho.
  destruct (DecWeakRefCount_became h1 c rc1) as (h2 & E2 & Ec2 & Eo2 & Ew2 & En2); try done.
  { by eapply became_lookup. }
  { intros o' Hcb'. destruct Hrc1 as [[Hk Hext]|]; [|congruence]. assert (o' = o) as -> by congruence.
    rewrite Eo, Hk. split; [done|]. intros E. by rewrite Hext. }
  exists h2. split; [done|].
  assert (objects h2 = match released rc1 ≫= callback_ with Some _ => objects h | None => delete o (objects h) end) as Eobj.
  { rewrite Eo2. unfold object_after. destruct Hrc1 as [[Hk _]|Hk]; rewrite Hk in *.
    - destruct (released rc1 ≫= callback_); by rewrite Eo.
    - rewrite Eo. destruct (released rc1) as [rc'|]; [|done]. destruct Hrel as (Hk' & _).
      simpl. by rewrite Hk'. }
  split_and!; [|by rewrite Ew2|done].
  apply (inv_shrink N S _ W W h h2 c rc (released rc1) None); try done.
  - by rewrite Ec2, (counter_after_became _ _ _ _ _ _ B).
  - by rewrite Ew2.
  - rewrite Eobj. unfold object_after. by rewrite Hcb.
  - by rewrite En2.
  - destruct (released rc1) as [rc'|]; [|done]. destruct Hrel as (Hk & Hok & Ha). split; [|done].
    destruct Hrc1 as [[Hk' _]|Hk']; [left|right]; congruence.
  - intros o' E. rewrite Hcb in E. simplify_eq. rewrite fn_lookup_insert. split; [lia|].
    intros El. specialize (Hlast El). lia.
  - intros o' E. rewrite fn_lookup_insert_ne; [done|congruence].
Qed.

(** Whether giving up a strong reference ends the object. *)
Definition last_reference (S : Z -> Z) (n : Z) (rc : RefCounter) (o : Z) : Prop :=
  S o + atomicAttempt_ rc = 1 /\ (lifetime_extended rc = false \/ n = 0).

Lemma DecStrongRef_spec N S W h o :
  inv N S W h -> N <= MAX_REFS -> 0 < S o ->
  exists h' c rc, DecStrongRef o h = Some (tt, h') /\ inv N (<[o := S o - 1]> S) W h' /\
    weaks h' = weaks h /\
    objects h !! o = Some (Some c) /\ counters h !! c = Some rc /\
    (last_reference S (nweak h c) rc o -> objects h' = delete o (objects h)) /\
    (~ last_reference S (nweak h c) rc o -> objects h' = objects h).
Proof.
  intros Hi HN HS. destruct (held_alive N S W h o Hi HS) as [r Ho].
  destruct (inv_alive N S W h o r Hi Ho) as (c & rc & -> & Hc & Hcb & Hok & Hn & Ha & HSN).
  destruct (counter_bounds N S _ rc o Hok Hcb) as (Bs & Bw & Br); try lia.
  pose proof (ok_state _ _ _ Hok) as Hst. rewrite Hcb in Hst. destruct Hst as (_ & Hwk & Hst).
  assert (atomicStrong_ rc = S o + atomicAttempt_ rc) as Hs by lia.
  assert (atomicStrong_ rc <> INITIAL_PRIMARY_VALUE) as Hne.
  { unfold MAX_REFS, INITIAL_PRIMARY_VALUE in *. lia. }
  unfold DecStrongRef. rewrite (with_refs_eq o tt _ h c Ho).
  hstep (DecStrongRefCount_eq h c rc Hc ltac:(lia) Hne). fold (lost rc).
  set (h1 := upd h c (lost rc)).
  assert (counters h1 !! c = Some (lost rc)) as Hc1 by apply lookup_upd.
  destruct (decide (atomicStrong_ rc = 1 /\ lifetime_extended rc = false)) as [[Hone Hext]|Hnot].
  - destruct (lost_dead_ok N S _ rc o Hok Hcb) as (Ewo & HS1 & Hrel); try done; try lia.
    destruct (call_callback_became (log h1 (OnLastStrongRef o)) c (lost rc) o) as (h2 & E2 & B2); try done.
    rewrite Ewo in B2.
    assert (became h h2 c (Some (set_callback (lost rc) None)) (delete o (objects h))) as B.
    { destruct B2 as (F1 & F2 & F3 & F4). split_and!; try done. rewrite F1. simpl. by rewrite insert_insert_eq. }
    destruct (DecWeak_after N S W h h2 c rc _ o _ Hi Hc Hcb HS B) as (h3 & E3 & Hi3 & Ew3 & Eo3); try done; try lia.
    { by right. }
    { simpl. lia. }
    { destruct (released _) as [rc'|]; [|done]. destruct Hrel as (? & ? & ->). split_and!; try done. lia. }
    rewrite Hone. change (1 =? 1) with true. cbv iota.
    rewrite (hm_bind_eq _ _ h1 tt h2).
    2:{ unfold emit. rewrite (hm_bind_eq _ _ _ tt (log h1 (OnLastStrongRef o)) eq_refl).
        rewrite (hm_bind_eq _ _ _ _ _ (extended_eq (log h1 (OnLastStrongRef o)) c (lost rc) Hc1)).
        change (lifetime_extended (lost rc)) with (lifetime_extended rc). by rewrite Hext. }
    rewrite (hm_bind_eq _ _ _ _ _ E3). exists h3, c, rc. split_and!; try done.
    + intros _. rewrite Eo3. destruct (released _) as [rc'|]; [|done]. destruct Hrel as (Hk & _).
      simpl. by rewrite Hk.
    + intros Hl. exfalso. apply Hl. split; [lia|by left].
  - assert (atomicStrong_ rc <> 1 \/ lifetime_extended rc = true) as Hl.
    { destruct (lifetime_extended rc); [by right|left]. intros ?. by apply Hnot. }
    pose proof (lost_alive_ok N S _ rc o Hok Hcb ltac:(lia) ltac:(lia) HN ltac:(lia) Hl) as Hrel.
    set (h2 := if atomicStrong_ rc =? 1 then log h1 (OnLastStrongRef o) else h1).
    assert (became h h2 c (Some (lost rc)) (objects h)) as B by (unfold h2; by destruct (_ =? 1)).
    destruct (DecWeak_after N S W h h2 c rc _ o _ Hi Hc Hcb HS B) as (h3 & E3 & Hi3 & Ew3 & Eo3); try done; try lia.
    { simpl. by rewrite Hcb. }
    { left. split; [done|]. simpl. change (lifetime_extended (lost rc)) with (lifetime_extended rc).
      intros. destruct Hl; [|done]. lia. }
    { simpl. lia. }
    { destruct (released _) as [rc'|]; [|by destruct Hrel]. destruct Hrel as (? & ? & ->).
      split_and!; [by simpl; congruence|done|lia]. }
    { destruct (released _) as [rc'|]; [|by destruct Hrel]. destruct Hrel as (Hk & _). simpl. by rewrite Hk. }
    rewrite (hm_bind_eq _ _ h1 tt h2).
    2:{ unfold h2. destruct (_ =? 1) eqn:E1; [|done]. unfold emit.
        rewrite (hm_bind_eq _ _ _ tt (log h1 (OnLastStrongRef o)) eq_refl).
        rewrite (hm_bind_eq _ _ _ _ _ (extended_eq (log h1 (OnLastStrongRef o)) c (lost rc) Hc1)).
        change (lifetime_extended (lost rc)) with (lifetime_extended rc).
        destruct Hl as [?| ->]; [|done]. apply Z.eqb_eq in E1. lia. }
    rewrite (hm_bind_eq _ _ _ _ _ E3). exists h3, c, rc. split_and!; try done; rewrite Eo3.
    + intros [Hk1 Hk2]. destruct (released (lost rc)) as [rc'|] eqn:Er; [|done]. exfalso.
      revert Er. unfold released, lost, after_last, without_object, drop_ref. simpl.
      assert (lifetime_extended rc = true) by (destruct Hl; [lia|done]).
      destruct Hk2 as [?|Hn0]; [congruence|]. rewrite Hwk, Hn0.
      replace (S o + atomicAttempt_ rc + 0) with 1 by lia. simpl.
      change (lifetime_extended (set_weak _ _)) with (lifetime_extended rc).
      replace (lifetime_extended rc) with true by done. simpl. rewrite Hcb. simpl.
      assert (atomicRefCount_ rc = 1) as -> by (rewrite (ok_ref _ _ _ Hok); lia). done.
    + intros Hk. destruct (released (lost rc)) as [rc'|] eqn:Er.
      * destruct Hrel as (Hk' & _). simpl. by rewrite Hk'.
      * exfalso. apply Hk. destruct Hrel as [Hn0 HS1]. split; [|by right].
        revert Er. unfold released, lost. simpl. destruct (Z.eqb_spec (atomicWeak_ rc) 1); [lia|done].
Qed.

(** ** Weak counters *)

(** The state of a counter that has a weak counter. *)
Lemma inv_weak N S W h w :
  inv N S W h -> 0 < W w ->
  exists wr c rc, weaks h !! w = Some wr /\ refCounter_ wr = Some c /\ counters h !! c = Some rc /\
    weakCount_ wr = W w /\ W w <= N /\ counter_ok S (nweak h c) rc /\ 0 < nweak h c <= N /\
    atomicAttempt_ rc <= N /\ (is_Some (callback_ rc) -> cookie_ wr = callback_ rc) /\
    (forall o, callback_ rc = Some o -> objects h !! o = Some (Some c) /\ S o <= N).
Proof.
  intros Hi HW. destruct (weaks h !! w) as [wr|] eqn:Ew.
  2:{ pose proof (inv_W _ _ _ _ Hi w Ew). lia. }
  destruct (inv_weaks _ _ _ _ Hi w wr Ew) as ([_ HWN] & Hwc & c & rc & Hr & Hc & Hck).
  destruct (inv_counters _ _ _ _ Hi c rc Hc) as (Hok & Hn & Ha).
  exists wr, c, rc. split_and!; try done.
  - by apply (mcount_pos (points_to c) _ w wr).
  - intros o Hcb. pose proof (inv_back _ _ _ _ Hi c rc o Hc Hcb) as Ho.
    split; [done|]. by apply (inv_objects _ _ _ _ Hi o _ Ho).
Qed.

Lemma weak_bounds N S n rc :
  counter_ok S n rc -> 0 < n <= N -> atomicAttempt_ rc <= N -> N <= MAX_REFS ->
  (forall o, callback_ rc = Some o -> S o <= N) ->
  0 <= atomicStrong_ rc < 2 ^ 30 /\ 0 < atomicWeak_ rc < 2 ^ 30 /\ 0 < atomicRefCount_ rc < 2 ^ 30.
Proof.
  intros [Ha Hr Hp Hst] Hn HA HN HS. unfold MAX_REFS, INITIAL_PRIMARY_VALUE in *.
  destruct (callback_ rc) as [o|]; [specialize (HS o eq_refl)|]; lia.
Qed.

(** A weak counter changes its count, or forgets a dead object. *)
Lemma inv_weak_update N N' S W h w wr n ck :
  inv N S W h -> weaks h !! w = Some wr -> 0 < n <= N' -> N <= N' ->
  (forall c rc, refCounter_ wr = Some c -> counters h !! c = Some rc -> is_Some (callback_ rc) ->
     ck = callback_ rc) ->
  inv N' S (<[w := n]> W) (upd_weak h w (mkWeakRefCounter n (refCounter_ wr) ck)).
Proof.
  intros Hi Hw Hn HN Hck. apply (inv_le _ N') in Hi; [|done].
  assert (forall c, nweak (upd_weak h w (mkWeakRefCounter n (refCounter_ wr) ck)) c = nweak h c) as Enw.
  { intros c. unfold nweak, upd_weak. simpl. rewrite (mcount_insert _ _ _ _ _ Hw).
    assert (hit (points_to c) (mkWeakRefCounter n (refCounter_ wr) ck) = hit (points_to c) wr) as ->; [done|lia]. }
  pose proof Hi as [I1 I2 I3 I4 I5 I6 I7]. split; try done.
  - intros c rc Hc. rewrite Enw. by apply I1.
  - intros w1 wr1 Hw1. simpl in Hw1. destruct (decide (w1 = w)) as [->|Hne].
    + rewrite lookup_insert_eq in Hw1. simplify_eq. rewrite fn_lookup_insert. simpl.
      destruct (I4 w wr Hw) as (_ & _ & c & rc & Hr & Hc & _).
      split; [done|]. split; [done|]. exists c, rc. split_and!; try done. intros Hs. by apply (Hck c rc).
    + rewrite lookup_insert_ne in Hw1 by done. rewrite fn_lookup_insert_ne by done. by apply I4.
  - intros w1 Hw1. simpl in Hw1. apply lookup_insert_None in Hw1 as [Hw1 Hne].
    rewrite fn_lookup_insert_ne by done. by apply I6.
  - intros a Hle. destruct (I7 a Hle) as (F1 & F2 & F3). split_and!; try done. simpl.
    apply lookup_insert_None. split; [done|]. intros ->. congruence.
Qed.

Lemma WeakInc_spec N S W h w :
  inv N S W h -> N < MAX_REFS -> 0 < W w ->
  exists h', WeakRefCounter_IncWeakRefCount w h = Some (tt, h') /\
    inv (N + 1) S (<[w := W w + 1]> W) h' /\ objects h' = objects h.
Proof.
  intros Hi HN HW. unfold MAX_REFS in HN.
  destruct (inv_weak N S W h w Hi HW) as (wr & c & rc & Ew & Hr & Hc & Hwc & HWN & Hok & Hn & Ha & Hck & Ho).
  unfold WeakRefCounter_IncWeakRefCount, fetch_add_weakCount.
  set (wr' := mkWeakRefCounter (W w + 1) (refCounter_ wr) (cookie_ wr)).
  rewrite (hm_bind_eq _ _ h (W w) (upd_weak h w wr')).
  2:{ hstep (load_weak_eq h w wr Ew). rewrite Hwc, i32_id by lia.
      by hstep (store_weak_eq h w wr wr' Ew). }
  destruct (Z.eqb_spec (W w) 0); [lia|]. eexists. split; [done|]. split; [|done].
  apply (inv_weak_update N); try done; try lia. intros c' rc' Hr' Hc' Hs.
  assert (c' = c) as -> by congruence. assert (rc' = rc) as -> by congruence. by apply Hck.
Qed.

(** A weak counter goes: its weak reference, then its share of the counter. *)
Lemma weak_end_ok N S n rc :
  counter_ok S n rc -> 0 < n <= N -> N <= MAX_REFS ->
  exists rc1, released rc = Some rc1 /\ 0 < atomicRefCount_ rc1 < 2 ^ 30 /\
    match drop_ref rc1 with
    | Some rc2 => callback_ rc1 = callback_ rc /\ callback_ rc2 = callback_ rc /\
                  counter_ok S (n - 1) rc2 /\ atomicAttempt_ rc2 = atomicAttempt_ rc
    | None => n = 1 /\ callback_ rc1 = None /\ (forall o, callback_ rc = Some o -> S o = 0)
    end.
Proof.
  intros [Ha Hr Hp Hst] Hn HN. unfold MAX_REFS, INITIAL_PRIMARY_VALUE in *.
  unfold released. destruct (Z.eqb_spec (atomicWeak_ rc) 1) as [E|E].
  - unfold after_last. change (lifetime_extended (set_weak _ _)) with (lifetime_extended rc).
    cbn -[Z.eqb Z.sub]. rewrite E. destruct (callback_ rc) as [o|] eqn:Hcb.
    + assert (S o = 0 /\ n = 1 /\
        (lifetime_extended rc || (atomicStrong_ rc =? INITIAL_PRIMARY_VALUE) = true)) as (HS & Hn1 & ->).
      { destruct Hst as (? & ? & [[Hs ?]|[? [?|[-> ?]]]]); split_and!; try lia; try done.
        rewrite Hs. apply orb_true_r. }
      unfold without_object. change (lifetime_extended (set_weak _ _)) with (lifetime_extended rc).
      cbn -[Z.eqb Z.sub drop_ref].
      assert (lifetime_extended rc && (1 - 1 =? 0) || (atomicStrong_ rc =? INITIAL_PRIMARY_VALUE) = true) as ->.
      { destruct (lifetime_extended rc); [done|]. destruct Hst as (? & ? & [[-> ?]|[? [?|[? ?]]]]); done || lia. }
      unfold drop_ref. cbn -[Z.eqb Z.sub]. rewrite Hr.
      destruct (Z.eqb_spec (n + 1) 1); [lia|]. eexists. split; [done|]. cbn -[Z.eqb Z.sub].
      split; [lia|]. destruct (Z.eqb_spec (n + 1 - 1) 1); [|lia]. split_and!; try done. naive_solver.
    + destruct Hst as (He & Hs & Hw & ? & ?). rewrite He, Hs. cbn -[Z.eqb Z.sub drop_ref].
      unfold drop_ref. cbn -[Z.eqb Z.sub]. rewrite Hr. destruct (Z.eqb_spec (n + 1) 1); [lia|].
      eexists. split; [done|]. cbn -[Z.eqb Z.sub].
      split; [lia|]. destruct (Z.eqb_spec (n + 1 - 1) 1); [|lia]. split_and!; [lia|done|by intros].
  - eexists. split; [done|]. cbn -[Z.sub]. split; [lia|].
    unfold drop_ref. cbn -[Z.eqb Z.sub]. destruct (Z.eqb_spec (atomicRefCount_ rc) 1); [lia|].
    cbn -[Z.sub]. split_and!; try done. split; try done; cbn -[Z.sub]; [lia|].
    change (lifetime_extended (set_ref _ _)) with (lifetime_extended rc).
    destruct (callback_ rc) as [o|]; [|intuition lia].
    destruct Hst as (? & ? & [(? & ? & ?)|[? Hor]]); split_and!; try lia.
    { left. split_and!; [done..|]. left. lia. }
    right. split; [done|].
    destruct (Z.eq_dec (S o + atomicAttempt_ rc) 0); [right|left; lia].
    destruct Hor as [?|[? ?]]; [lia|]. split; [done|lia].
Qed.

Lemma free_weak_eq h w wr :
  weaks h !! w = Some wr -> free_weak w h = Some (tt, set_weaks h (delete w (weaks h))).
Proof. intros E. unfold free_weak. by rewrite E. Qed.

Lemma object_after_drop h rc rc1 :
  (forall rc2, drop_ref rc1 = Some rc2 -> callback_ rc2 = callback_ rc1) ->
  (drop_ref rc1 = None -> callback_ rc1 = None) ->
  object_after h rc (Some rc1) = object_after h rc (drop_ref rc1).
Proof.
  intros Hs Hn. unfold object_after. destruct (callback_ rc); [|done]. simpl.
  destruct (drop_ref rc1) as [rc2|] eqn:E; simpl; [by rewrite (Hs rc2 eq_refl)|by rewrite Hn].
Qed.

(** The last weak pointer of a weak counter ends the counter. *)
Lemma WeakLast_spec N S W h w :
  inv N S W h -> N <= MAX_REFS -> W w = 1 ->
  exists h', WeakRefCounter_DecWeakRefCount w h = Some (tt, h') /\ inv N S (<[w := 0]> W) h'.
Proof.
  intros Hi HN HW.
  destruct (inv_weak N S W h w Hi ltac:(lia)) as
    (wr & c & rc & Ew & Hr & Hc & Hwc & HWN & Hok & Hn & Ha & Hck & Ho).
  destruct (weak_bounds N S _ rc Hok Hn Ha HN) as (Bs & Bw & Br); [naive_solver|].
  destruct (weak_end_ok N S _ rc Hok Hn HN) as (rc1 & Erel & Br1 & Hend).
  set (wr0 := mkWeakRefCounter 0 (refCounter_ wr) (cookie_ wr)). set (h1 := upd_weak h w wr0).
  assert (counters h1 !! c = Some rc) as Hc1 by done.
  destruct (DecWeakRefCount_became h1 c rc Hc1 Bw Br) as (h2 & E2 & Ec2 & Eo2 & Ew2 & En2).
  { intros o Hcb. split; [by apply Ho|]. intros E. pose proof (ok_state _ _ _ Hok) as Hst. rewrite Hcb in Hst.
    destruct Hst as (? & ? & [[-> ?]|[? [?|[-> ?]]]]); [apply orb_true_r|lia|done]. }
  rewrite Erel in *.
  assert (counters h2 !! c = Some rc1) as Hc2 by (rewrite Ec2; apply lookup_insert_eq).
  destruct (DecRefCount_became h2 c rc1 Hc2 Br1) as (h3 & E3 & Ec3 & Eo3 & Ew3 & En3).
  assert (weaks h3 !! w = Some wr0) as Hw3 by (rewrite Ew3, Ew2; apply lookup_insert_eq).
  exists (set_weaks h3 (delete w (weaks h3))). split.
  - unfold WeakRefCounter_DecWeakRefCount, fetch_add_weakCount.
    rewrite (hm_bind_eq _ _ h 1 h1).
    2:{ hstep (load_weak_eq h w wr Ew). rewrite Hwc, HW. change (i32 (1 + -1)) with 0.
        by hstep (store_weak_eq h w wr wr0 Ew). }
    change (1 =? 1) with true. cbv iota.
    assert (weaks h1 !! w = Some wr0) as Hw1 by apply lookup_insert_eq.
    hstep (load_weak_eq h1 w wr0 Hw1). unfold wr0 at 1. simpl refCounter_. rewrite Hr.
    rewrite (hm_bind_eq (deref (Some c)) _ h1 c h1) by done.
    rewrite (hm_bind_eq _ _ _ _ _ E2). unfold WeakRefCounter_delete.
    assert (weaks h2 !! w = Some wr0) as Hw2 by (by rewrite Ew2).
    hstep (load_weak_eq h2 w wr0 Hw2). unfold wr0 at 1. simpl refCounter_. rewrite Hr.
    rewrite (hm_bind_eq _ _ _ _ _ E3). by rewrite (free_weak_eq h3 w wr0).
  - assert (object_after h1 rc (Some rc1) = object_after h rc (drop_ref rc1)) as Eobj.
    { rewrite (object_after_drop h1 rc rc1); [done| |].
      - intros rc2 E. rewrite E in Hend. destruct Hend as (-> & -> & _). done.
      - intros E. rewrite E in Hend. by destruct Hend as (_ & -> & _). }
    assert (nweak_left h c (Some w) = nweak h c - 1) as Enl by (by apply (nweak_left_eq h c w wr)).
    apply (inv_shrink N S S W _ h _ c rc (drop_ref rc1) (Some w)); try done.
    + split; [done|]. by exists wr.
    + simpl. rewrite Ec3. unfold counter_after. rewrite Ec2. simpl.
      destruct (drop_ref rc1); [apply insert_insert_eq|apply delete_insert_eq].
    + simpl. rewrite Ew3, Ew2. simpl. by rewrite delete_insert_eq.
    + simpl. by rewrite Eo3, Eo2, Eobj.
    + simpl. by rewrite En3, En2.
    + rewrite Enl. destruct (drop_ref rc1) as [rc2|]; [|lia].
      destruct Hend as (_ & -> & Hok2 & ->). split_and!; [by left|done|done].
    + intros o Hcb. split; [by apply Ho|]. intros E.
      destruct (drop_ref rc1) as [rc2|]; [destruct Hend as (_ & E2' & _); simpl in E; congruence|].
      destruct Hend as (_ & _ & HS). by apply HS.
Qed.

Lemma WeakDec_spec N S W h w :
  inv N S W h -> N <= MAX_REFS -> 0 < W w ->
  exists h', WeakRefCounter_DecWeakRefCount w h = Some (tt, h') /\ inv N S (<[w := W w - 1]> W) h'.
Proof.
  intros Hi HN HW. destruct (Z.eq_dec (W w) 1) as [E|E].
  { rewrite E. by apply WeakLast_spec. }
  destruct (inv_weak N S W h w Hi HW) as (wr & c & rc & Ew & Hr & Hc & Hwc & HWN & Hok & Hn & Ha & Hck & Ho).
  unfold MAX_REFS in HN. unfold WeakRefCounter_DecWeakRefCount, fetch_add_weakCount.
  set (wr' := mkWeakRefCounter (W w - 1) (refCounter_ wr) (cookie_ wr)).
  rewrite (hm_bind_eq _ _ h (W w) (upd_weak h w wr')).
  2:{ hstep (load_weak_eq h w wr Ew). rewrite Hwc, i32_id by lia.
      by hstep (store_weak_eq h w wr wr' Ew). }
  destruct (Z.eqb_spec (W w) 1); [lia|]. eexists. split; [done|].
  apply (inv_weak_update N); try done; try lia. intros c' rc' Hr' Hc' Hs.
  assert (c' = c) as -> by congruence. assert (rc' = rc) as -> by congruence. by apply Hck.
Qed.

(** ** Promotion *)

(** Promotion is allowed where the platform asks. *)
Definition can_promote : Prop := OHOS_PLATFORM = true -> forall o, CanPromote o = true.

Lemma set_weak_same rc v : set_weak (set_weak rc v) (atomicWeak_ rc) = rc.
Proof. by destruct rc. Qed.

(** On a live object an attempt succeeds and is a new strong reference. *)
Lemma Attempt_alive h c rc o S n N :
  can_promote -> counters h !! c = Some rc -> counter_ok S n rc -> callback_ rc = Some o ->
  S o <= N -> atomicAttempt_ rc <= N -> 0 <= n <= N -> N < MAX_REFS ->
  exists out, AttemptIncStrongRef c h = Some ((true, out), upd h c (gained rc)).
Proof.
  intros Hcan Hc Hok Hcb HS HA Hn HN.
  destruct (counter_bounds N S n rc o Hok Hcb) as (Bs & Bw & Br); try lia.
  destruct Hok as [Ha Hr Hp Hst]. rewrite Hcb in Hst. destruct Hst as (Hnn & Hw & Hst).
  unfold AttemptIncStrongRef. hstep (get_strong_eq h c rc Hc).
  unfold IncWeakRefCount. hstep (add_weak_eq h c rc Hc 1). rewrite i32_id by lia.
  set (rc1 := set_weak rc (atomicWeak_ rc + 1)). set (h1 := upd h c rc1).
  assert (counters h1 !! c = Some rc1) as Hc1 by apply lookup_upd.
  hstep (extended_eq h1 c rc1 Hc1). change (lifetime_extended rc1) with (lifetime_extended rc).
  set (rc2 := set_strong rc1 (atomicStrong_ rc + 1)). set (h2 := upd h c rc2).
  assert (fetch_add_strong c 1 h1 = Some (atomicStrong_ rc, h2)) as Eadd.
  { rewrite (add_strong_eq h1 c rc1 Hc1 1). simpl atomicStrong_. rewrite i32_id by lia.
    unfold h1. by rewrite upd_upd. }
  assert (counters h2 !! c = Some rc2) as Hc2 by apply lookup_upd.
  assert (0 < atomicStrong_ rc \/ lifetime_extended rc = true ->
    exists out, attempt_success c (atomicStrong_ rc) h2 = Some ((true, out), upd h c (gained rc))) as Hsucc.
  { intros Hpos. unfold attempt_success, gained.
    destruct (Z.eqb_spec (atomicStrong_ rc) INITIAL_PRIMARY_VALUE) as [E|E].
    - hstep (add_strong_eq h2 c rc2 Hc2 (- INITIAL_PRIMARY_VALUE)). unfold h2. rewrite upd_upd.
      unfold rc2, rc1. simpl. rewrite E. by eexists.
    - hstep (extended_eq h2 c rc2 Hc2). change (lifetime_extended rc2) with (lifetime_extended rc).
      destruct (Z.ltb_spec (atomicStrong_ rc) 0); [lia|]. cbn [orb].
      assert (negb (lifetime_extended rc) && (atomicStrong_ rc =? 0) = false) as ->; [|by eexists].
      destruct Hpos as [?| ->]; [|done]. apply andb_false_iff. right. apply Z.eqb_neq. lia. }
  destruct (Z.ltb_spec 0 (atomicStrong_ rc)) as [Hpos|Hzero]; cbn [andb].
  - destruct (Z.eqb_spec (atomicStrong_ rc) INITIAL_PRIMARY_VALUE) as [E|E]; cbn [negb andb].
    + destruct (lifetime_extended rc) eqn:Hext; cbn [negb].
      * hstep (load_counter_eq h1 c rc1 Hc1).
        assert (OHOS_PLATFORM && negb (match canPromote_ rc1 with Some o => CanPromote o | None => false end) = false) as ->.
        { destruct OHOS_PLATFORM eqn:Ep; [|done]. destruct (Hp eq_refl) as [o' Ho']. simpl. rewrite Ho'.
          by rewrite Hcan. }
        rewrite (hm_bind_eq _ _ _ _ _ Eadd). apply Hsucc. by left.
      * rewrite (hm_bind_eq _ _ _ _ _ Eadd). apply Hsucc. by left.
    + rewrite (hm_bind_eq _ _ _ _ _ Eadd). apply Hsucc. by left.
  - assert (lifetime_extended rc = true) as Hext.
    { destruct Hst as [[Hs _]|[Hs [?|[? _]]]]; [unfold INITIAL_PRIMARY_VALUE in *; lia|lia|done]. }
    destruct (Z.eqb_spec (atomicStrong_ rc) INITIAL_PRIMARY_VALUE) as [E|E];
      [unfold INITIAL_PRIMARY_VALUE in *; lia|]. cbn [andb]. rewrite Hext.
    hstep (load_counter_eq h1 c rc1 Hc1).
    assert (OHOS_PLATFORM && negb (match canPromote_ rc1 with Some o => CanPromote o | None => false end) = false) as ->.
    { destruct OHOS_PLATFORM eqn:Ep; [|done]. destruct (Hp eq_refl) as [o' Ho']. simpl. rewrite Ho'.
      by rewrite Hcan. }
    rewrite (hm_bind_eq _ _ _ _ _ Eadd). apply Hsucc. by right.
Qed.

(** On a dead object it fails and leaves the counter as it was. *)
Lemma Attempt_dead h c rc S n N :
  counters h !! c = Some rc -> counter_ok S n rc -> callback_ rc = None -> n <= N -> N < MAX_REFS ->
  exists h', AttemptIncStrongRef c h = Some ((false, None), h') /\ became h h' c (Some rc) (objects h).
Proof.
  intros Hc [Ha Hr Hp Hst] Hcb Hn HN. unfold MAX_REFS in HN. rewrite Hcb in Hst.
  destruct Hst as (Hext & Hs & Hw & Hn0 & HA).
  unfold AttemptIncStrongRef. hstep (get_strong_eq h c rc Hc).
  unfold IncWeakRefCount. hstep (add_weak_eq h c rc Hc 1). rewrite i32_id by lia.
  set (rc1 := set_weak rc (atomicWeak_ rc + 1)). set (h1 := upd h c rc1).
  assert (counters h1 !! c = Some rc1) as Hc1 by apply lookup_upd.
  hstep (extended_eq h1 c rc1 Hc1). change (lifetime_extended rc1) with (lifetime_extended rc).
  rewrite Hs, Hext. cbn [Z.ltb Z.compare andb negb Z.eqb INITIAL_PRIMARY_VALUE].
  unfold attempt_success. cbn [Z.eqb INITIAL_PRIMARY_VALUE].
  hstep (extended_eq h1 c rc1 Hc1). change (lifetime_extended rc1) with (lifetime_extended rc).
  rewrite Hext. cbn [Z.ltb Z.compare andb negb orb Z.eqb].
  destruct (DecWeakRefCount_became h1 c rc1 Hc1) as (h2 & E2 & Ec2 & Eo2 & Ew2 & En2).
  { simpl. lia. } { simpl. lia. } { intros o E. simpl in E. congruence. }
  rewrite (hm_bind_eq _ _ _ _ _ E2). exists h2. split; [done|].
  assert (released rc1 = Some rc) as Erel.
  { unfold released. simpl. destruct (Z.eqb_spec (atomicWeak_ rc + 1) 1); [lia|].
    replace (atomicWeak_ rc + 1 - 1) with (atomicWeak_ rc) by lia. f_equal. apply set_weak_same. }
  rewrite Erel in *. split_and!; try done.
  - rewrite Ec2. unfold h1. by rewrite counter_after_upd.
  - rewrite Eo2. unfold object_after. simpl. by rewrite Hcb.
Qed.

(** The object a weak counter refers to, while it is alive. *)
Definition target (h : Heap) (w : Z) : option Z :=
  wr ← weaks h !! w; c ← refCounter_ wr; rc ← counters h !! c; callback_ rc.

Lemma target_eq h w wr c rc :
  weaks h !! w = Some wr -> refCounter_ wr = Some c -> counters h !! c = Some rc ->
  target h w = callback_ rc.
Proof. intros Hw Hr Hc. unfold target. rewrite Hw. simpl. rewrite Hr. simpl. by rewrite Hc. Qed.

Lemma target_alive N S W h w o :
  inv N S W h -> 0 < W w -> target h w = Some o -> exists c, objects h !! o = Some (Some c).
Proof.
  intros Hi HW Ht.
  destruct (inv_weak N S W h w Hi HW) as (wr & c & rc & Ew & Hr & Hc & _ & _ & _ & _ & _ & _ & Ho).
  rewrite (target_eq h w wr c rc) in Ht by done. exists c. by apply Ho.
Qed.

(** A strong reference through a weak counter is obtained exactly while the
    object is alive. *)
Lemma WeakAttempt_spec N S W h w :
  can_promote -> inv N S W h -> N < MAX_REFS -> 0 < W w ->
  exists h', WeakRefCounter_AttemptIncStrongRef w h = Some (bool_decide (is_Some (target h w)), h') /\
    target h' w = target h w /\
    match target h w with
    | Some o => inv (N + 1) (<[o := S o + 1]> S) W h'
    | None => inv N S W h'
    end.
Proof.
  intros Hcan Hi HN HW.
  destruct (inv_weak N S W h w Hi HW) as (wr & c & rc & Ew & Hr & Hc & Hwc & HWN & Hok & Hn & Ha & Hck & Ho).
  rewrite (target_eq h w wr c rc) by done.
  unfold WeakRefCounter_AttemptIncStrongRef. hstep (load_weak_eq h w wr Ew). rewrite Hr.
  rewrite (hm_bind_eq (deref (Some c)) _ h c h) by done.
  destruct (callback_ rc) as [o|] eqn:Hcb.
  - destruct (Ho o eq_refl) as [Hob HS].
    destruct (Attempt_alive h c rc o S (nweak h c) N) as (out & E); try done; try lia.
    rewrite (hm_bind_eq _ _ _ _ _ E). eexists. split; [done|]. split.
    + rewrite (target_eq _ w wr c (gained rc)); [done|done|done|apply lookup_upd].
    + pose proof (ok_attempt _ _ _ Hok).
      apply (inv_update N _ S _ W h c rc); try done; try lia.
      * apply (gained_ok N S _ rc o); try done.
      * simpl. lia.
      * intros o' E'. rewrite Hcb in E'. simplify_eq. rewrite fn_lookup_insert. lia.
      * intros o' E'. rewrite fn_lookup_insert_ne; [done|congruence].
  - destruct (Attempt_dead h c rc S (nweak h c) N) as (h' & E & B); try done; [lia|].
    rewrite (hm_bind_eq _ _ _ _ _ E). exists h'. split; [done|]. pose proof B as (Ec & Eo & Ew' & En).
    split.
    + rewrite (target_eq h' w wr c rc); [done|by rewrite Ew'|done|by eapply became_lookup].
    + apply (inv_shrink N S S W W h h' c rc (Some rc) None); try done.
      * rewrite Eo. unfold object_after. by rewrite Hcb.
      * split_and!; [by left|done|done].
      * intros o E'. congruence.
Qed.

Lemma WeakGetRefPtr_spec N S W h w :
  inv N S W h -> 0 < W w ->
  exists h', WeakRefCounter_GetRefPtr w h = Some (target h w, h') /\ inv N S W h' /\
    (forall w', target h' w' = target h w').
Proof.
  intros Hi HW.
  destruct (inv_weak N S W h w Hi HW) as (wr & c & rc & Ew & Hr & Hc & Hwc & HWN & Hok & Hn & Ha & Hck & Ho).
  rewrite (target_eq h w wr c rc) by done.
  unfold WeakRefCounter_GetRefPtr. hstep (load_weak_eq h w wr Ew).
  destruct (cookie_ wr) as [o|] eqn:Eck.
  2:{ exists h. destruct (callback_ rc); [by specialize (Hck ltac:(by eexists))|]. done. }
  rewrite Hr. rewrite (hm_bind_eq (deref (Some c)) _ h c h) by done. hstep (valid_eq h c rc Hc).
  destruct (callback_ rc) as [o'|] eqn:Hcb; simpl.
  - specialize (Hck ltac:(by eexists)). simplify_eq. by exists h.
  - hstep (store_weak_eq h w wr (mkWeakRefCounter (weakCount_ wr) (Some c) None) Ew).
    eexists. split; [done|]. split.
    + rewrite <- Hr. pose proof (inv_weak_update N N S W h w wr (W w) None Hi Ew ltac:(lia) ltac:(lia)) as Hi'.
      rewrite Hwc. apply (inv_ext N S S (<[w := W w]> W)); [done| |apply Hi'].
      { intros w'. destruct (decide (w' = w)) as [->|]; [by rewrite fn_lookup_insert|by rewrite fn_lookup_insert_ne]. } intros c' rc' Hr' Hc'. assert (c' = c) as -> by congruence.
      assert (rc' = rc) as -> by congruence. rewrite Hcb. by intros [].
    + intros w'. unfold target, upd_weak. simpl. destruct (decide (w' = w)) as [->|Hne].
      * rewrite lookup_insert_eq, Ew. simpl. by rewrite Hr.
      * by rewrite lookup_insert_ne by done.
Qed.

(** ** Creation *)

Definition first_counter (o : Z) : RefCounter :=
  mkRefCounter INITIAL_PRIMARY_VALUE 0 1 0 0 (Some o) (if OHOS_PLATFORM then Some o else None).

(** A new object at [a] with its counter at the next address. *)
Definition with_new_object (h : Heap) : Heap :=
  let a := next_address h in
  mkHeap (<[a + 1 := first_counter a]> (counters h)) (<[a := Some (a + 1)]> (objects h)) (weaks h)
    (a + 1 + 1) (events h).

Lemma RefBase_ctor_eq h : RefBase_ctor h = Some (next_address h, with_new_object h).
Proof.
  unfold RefBase_ctor, attach, RefCounter_ctor, IncRefCount, SetCallback, SetCanPromote,
    fetch_add_ref, load_counter, store_counter, store_object, new_object, new_counter,
    mbind, hm_bind, mret, hm_ret, with_new_object, first_counter.
  simpl. rewrite lookup_insert_eq. simpl. rewrite lookup_insert_eq. simpl. rewrite insert_insert_eq.
  rewrite lookup_insert_eq. simpl. rewrite lookup_insert_eq. simpl. rewrite insert_insert_eq.
  destruct OHOS_PLATFORM; simpl; [rewrite lookup_insert_eq; simpl; rewrite lookup_insert_eq; simpl;
    rewrite insert_insert_eq|]; simpl; rewrite lookup_insert_eq; unfold set_objects; simpl;
    by rewrite insert_insert_eq.
Qed.

Lemma fresh_nweak N S W h c : inv N S W h -> counters h !! c = None -> nweak h c = 0.
Proof.
  intros Hi Hc. apply mcount_zero. intros w wr Hw Hr.
  destruct (inv_weaks _ _ _ _ Hi w wr Hw) as (_ & _ & c' & rc & Hr' & Hc' & _).
  unfold points_to in Hr. congruence.
Qed.

(** A new weak pointer: [CreateWeakRef] and the first increment. *)
(** A [wptr] on [o] that remembers [p] as its address. *)
Definition new_wptr_at (o p : Z) : HM (option Z) :=
  r ← CreateWeakRef o (Some p);
  match r with
  | Some w => WeakRefCounter_IncWeakRefCount w;; mret (Some w)
  | None => mret None
  end.
Definition new_wptr (o : Z) : HM (option Z) := new_wptr_at o o.

Definition watched (rc : RefCounter) : RefCounter :=
  set_weak (set_ref rc (atomicRefCount_ rc + 1)) (atomicWeak_ rc + 1).

Definition with_new_weak (h : Heap) (c o : Z) (rc : RefCounter) : Heap :=
  let a := next_address h in
  mkHeap (<[c := watched rc]> (counters h)) (objects h)
    (<[a := mkWeakRefCounter 1 (Some c) (Some o)]> (weaks h)) (a + 1) (events h).

Lemma new_wptr_at_eq h o p c rc :
  objects h !! o = Some (Some c) -> counters h !! c = Some rc ->
  0 <= atomicWeak_ rc < 2 ^ 30 -> 0 < atomicRefCount_ rc < 2 ^ 30 ->
  new_wptr_at o p h = Some (Some (next_address h), with_new_weak h c p rc).
Proof.
  intros Ho Hc Hw Hr. unfold new_wptr_at, CreateWeakRef.
  set (a := next_address h). set (w0 := mkWeakRefCounter 0 (Some c) (Some p)).
  set (h1 := bump (set_weaks h (<[a := w0]> (weaks h)))).
  set (rc1 := set_ref rc (atomicRefCount_ rc + 1)). set (h2 := upd h1 c rc1).
  assert (counters h1 !! c = Some rc) as Hc1 by done.
  assert (counters h2 !! c = Some rc1) as Hc2 by apply lookup_upd.
  rewrite (hm_bind_eq _ _ h (Some a) h2).
  2:{ rewrite (with_refs_eq o _ _ h c Ho). unfold WeakRefCounter_ctor.
      rewrite (hm_bind_eq _ _ h a h2); [done|].
      rewrite (hm_bind_eq (new_weak w0) _ h a h1) by done. unfold IncRefCount.
      rewrite (hm_bind_eq _ _ h1 tt h2); [done|].
      hstep (add_ref_eq h1 c rc Hc1 1). by rewrite i32_id by lia. }
  unfold WeakRefCounter_IncWeakRefCount, fetch_add_weakCount.
  set (w1 := mkWeakRefCounter 1 (Some c) (Some p)). set (h3 := upd_weak h2 a w1).
  assert (weaks h2 !! a = Some w0) as Hw2 by apply lookup_insert_eq.
  assert (weaks h3 !! a = Some w1) as Hw3 by apply lookup_insert_eq.
  rewrite (hm_bind_eq _ _ h2 tt (upd h3 c (watched rc))).
  2:{ rewrite (hm_bind_eq _ _ h2 0 h3).
      2:{ hstep (load_weak_eq h2 a w0 Hw2). by hstep (store_weak_eq h2 a w0 w1 Hw2). }
      change (0 =? 0) with true. cbv iota. hstep (load_weak_eq h3 a w1 Hw3).
      rewrite (hm_bind_eq (deref (Some c)) _ h3 c h3) by done.
      assert (counters h3 !! c = Some rc1) as Hc3 by done. unfold IncWeakRefCount.
      hstep (add_weak_eq h3 c rc1 Hc3 1). simpl atomicWeak_. by rewrite i32_id by lia. }
  unfold mret, hm_ret, with_new_weak, upd, set_counters, h3, upd_weak, set_weaks. simpl.
  by rewrite !insert_insert_eq.
Qed.

Lemma new_wptr_eq h o c rc :
  objects h !! o = Some (Some c) -> counters h !! c = Some rc ->
  0 <= atomicWeak_ rc < 2 ^ 30 -> 0 < atomicRefCount_ rc < 2 ^ 30 ->
  new_wptr o h = Some (Some (next_address h), with_new_weak h c o rc).
Proof. apply new_wptr_at_eq. Qed.

Lemma watched_ok S n rc : counter_ok S n rc -> 0 <= n -> counter_ok S (n + 1) (watched rc).
Proof.
  intros [Ha Hr Hp Hst] Hn. split; try done; simpl; [lia|].
  change (lifetime_extended (watched rc)) with (lifetime_extended rc).
  destruct (callback_ rc); [|intuition lia].
  destruct Hst as (? & ? & [[? ?]|[? Hor]]); split_and!; try lia. right. split; [done|].
  destruct Hor as [?|[? ?]]; [by left|right]. split; [done|lia].
Qed.

Lemma inv_new_weak N S W h o c rc :
  inv N S W h -> 0 <= N -> objects h !! o = Some (Some c) -> counters h !! c = Some rc ->
  callback_ rc = Some o ->
  inv (N + 1) S (<[next_address h := 1]> W) (with_new_weak h c o rc).
Proof.
  intros Hi HN Ho Hc Hcb. set (a := next_address h).
  pose proof (inv_le N (N + 1) S W h Hi ltac:(lia)) as [I1 I2 I3 I4 I5 I6 I7].
  destruct (I7 a) as (Fc & Fo & Fw); [unfold a; lia|].
  assert (forall c1, nweak (with_new_weak h c o rc) c1 = nweak h c1 + (if decide (c1 = c) then 1 else 0)) as Enw.
  { intros c1. unfold nweak. simpl. fold a. rewrite mcount_insert_new by done. f_equal.
    unfold hit, points_to. simpl. repeat case_decide; congruence. }
  destruct (inv_counters _ _ _ _ Hi c rc Hc) as (Hok & Hn & Ha).
  assert (0 <= nweak h c) by apply mcount_nonneg.
  split; simpl; fold a.
  - intros c1 rc1 Hc1. rewrite Enw. destruct (decide (c1 = c)) as [->|Hne].
    + rewrite lookup_insert_eq in Hc1. simplify_eq.
      split_and!; [by apply watched_ok|lia|]. simpl. lia.
    + rewrite lookup_insert_ne in Hc1 by done. rewrite Z.add_0_r. by apply I1.
  - intros o1 r1 Ho1. destruct (I2 o1 r1 Ho1) as (? & c1 & rc1 & -> & Hc1 & Hcb1). split; [done|].
    destruct (decide (c1 = c)) as [->|Hne].
    + exists c, (watched rc). rewrite lookup_insert_eq. split_and!; try done. simpl. congruence.
    + exists c1, rc1. by rewrite lookup_insert_ne.
  - intros c1 rc1 o1. destruct (decide (c1 = c)) as [->|Hne].
    + rewrite lookup_insert_eq. intros [= <-]. simpl. intros ?. by apply (I3 c rc).
    + rewrite lookup_insert_ne by done. apply I3.
  - intros w wr. destruct (decide (w = a)) as [->|Hne].
    + rewrite lookup_insert_eq, fn_lookup_insert. intros [= <-]. split; [lia|]. split; [done|].
      exists c, (watched rc). rewrite lookup_insert_eq. split_and!; try done.
    + rewrite lookup_insert_ne, fn_lookup_insert_ne by done. intros Hw.
      destruct (I4 w wr Hw) as (? & ? & c1 & rc1 & Hr1 & Hc1 & Hck). split; [done|]. split; [done|].
      exists c1. destruct (decide (c1 = c)) as [->|Hne1].
      * exists (watched rc). rewrite lookup_insert_eq. split_and!; try done. simpl.
        assert (rc1 = rc) as -> by congruence. done.
      * exists rc1. by rewrite lookup_insert_ne.
  - done.
  - intros w Hw. apply lookup_insert_None in Hw as [Hw Hne]. rewrite fn_lookup_insert_ne by done.
    by apply I6.
  - intros b Hb. destruct (I7 b) as (G1 & G2 & G3); [unfold a in *; lia|].
    split_and!; [|done|]; apply lookup_insert_None; (split; [done|]); [congruence|lia].
Qed.

Lemma extend_ok S n rc :
  counter_ok S n rc -> is_Some (callback_ rc) ->
  counter_ok S n (set_flags rc (Z.lor (atomicFlags_ rc) FLAG_EXTEND_LIFE_TIME)).
Proof.
  intros [Ha Hr Hp Hst] [o Hcb]. split; try done. simpl. rewrite Hcb in *.
  assert (lifetime_extended (set_flags rc (Z.lor (atomicFlags_ rc) FLAG_EXTEND_LIFE_TIME)) = true) as ->.
  { unfold lifetime_extended. simpl. apply negb_true_iff, Z.eqb_neq.
    intros E. apply (f_equal (fun z => Z.testbit z 1)) in E.
    rewrite Z.land_spec, Z.lor_spec in E. simpl in E. rewrite orb_true_r in E. done. }
  destruct Hst as (? & ? & [[? ?]|[? Hor]]); split_and!; try done; [by left|]. right. split; [done|].
  destruct Hor as [?|[? ?]]; [by left|by right].
Qed.

Lemma Extend_spec N S W h o r :
  inv N S W h -> objects h !! o = Some r ->
  exists h', RefBase_ExtendObjectLifetime o h = Some (tt, h') /\ inv N S W h' /\ objects h' = objects h.
Proof.
  intros Hi Ho. destruct (inv_alive N S W h o r Hi Ho) as (c & rc & -> & Hc & Hcb & Hok & Hn & Ha & HS).
  unfold RefBase_ExtendObjectLifetime. hstep (load_object_eq h o _ Ho).
  rewrite (hm_bind_eq (deref (Some c)) _ h c h) by done. rewrite (extend_eq h c rc Hc).
  eexists. split; [done|]. split; [|done].
  apply (inv_update N N S S W h c rc); try done; try lia.
  - apply extend_ok; [done|by eexists].
  - simpl. lia.
  - intros o' E. assert (o' = o) as -> by congruence. lia.
Qed.
End methods.

(** ** New objects *)

Section creation.
Context `{RefConfig}.
Implicit Types (S W : Z -> Z) (h : Heap).

Lemma counter_ok_unheld u S n rc :
  counter_ok (H0 := None) S n rc -> counter_ok (H0 := u) S n rc.
Proof.
  intros [Ha Hr Hp Hst]. split; try done. destruct (callback_ rc); [|done].
  destruct Hst as (? & ? & [(? & ? & [?|?])|?]); split_and!; auto. discriminate.
Qed.

(** The object that [new] just created is not yet held by any pointer. *)
Lemma inv_new_object N S W h :
  inv (H0 := None) N S W h -> 0 <= N ->
  inv (H0 := Some (next_address h)) N S W (with_new_object h).
Proof.
  intros Hi HN. pose proof Hi as [I1 I2 I3 I4 I5 I6 I7]. set (a := next_address h).
  destruct (I7 a) as (Fc & Fo & Fw); [unfold a; lia|].
  destruct (I7 (a + 1)) as (Fc1 & Fo1 & Fw1); [unfold a; lia|].
  assert (forall c rc, counters h !! c = Some rc -> c <> a + 1) as Hne by (intros c rc Hc ->; congruence).
  split; simpl; fold a.
  - intros c rc. destruct (decide (c = a + 1)) as [->|Hc1].
    + rewrite lookup_insert_eq. intros [= <-].
      change (nweak (with_new_object h) (a + 1)) with (nweak h (a + 1)).
      rewrite (fresh_nweak (H0 := None) N S W h) by done. simpl. split_and!; try lia.
      split; simpl; try done; try lia.
      * intros ->. by eexists.
      * rewrite (I5 a Fo). split_and!; try lia. left. split_and!; try lia; by right.
    + rewrite lookup_insert_ne by done. intros Hc. destruct (I1 c rc Hc) as (Hok & ? & ?).
      split_and!; [by apply counter_ok_unheld|done|done].
  - intros o r. destruct (decide (o = a)) as [->|Ho].
    + rewrite lookup_insert_eq. intros [= <-]. split; [rewrite (I5 a Fo); lia|].
      exists (a + 1), (first_counter a). by rewrite lookup_insert_eq.
    + rewrite lookup_insert_ne by done. intros Hob. destruct (I2 o r Hob) as (? & c & rc & -> & Hc & Hcb).
      split; [done|]. exists c, rc. rewrite lookup_insert_ne; [done|]. intros E; subst c; congruence.
  - intros c rc o. destruct (decide (c = a + 1)) as [->|Hc1].
    + rewrite lookup_insert_eq. intros [= <-]. intros [= <-]. apply lookup_insert_eq.
    + rewrite lookup_insert_ne by done. intros Hc Hcb. pose proof (I3 c rc o Hc Hcb) as Ho.
      rewrite lookup_insert_ne; [done|]. intros <-. congruence.
  - intros w wr Hw. destruct (I4 w wr Hw) as (? & ? & c & rc & Hr & Hc & Hck). split_and!; try done; try lia.
    exists c, rc. rewrite lookup_insert_ne; [done|]. intros E; subst c; congruence.
  - intros o Ho. apply lookup_insert_None in Ho as [Ho _]. by apply I5.
  - done.
  - intros b Hb. destruct (I7 b) as (G1 & G2 & G3); [unfold a in *; lia|].
    split_and!; [|..|done]; apply lookup_insert_None; (split; [done|lia]).
Qed.

(** Once a pointer holds it, it is an object like the others. *)
Lemma inv_held N S W h a :
  inv (H0 := Some a) N S W h ->
  0 < S a \/ (exists c, objects h !! a = Some (Some c) /\ 0 < nweak h c) ->
  inv (H0 := None) N S W h.
Proof.
  intros Hi Hheld. pose proof Hi as [I1 I2 I3 I4 I5 I6 I7]. split; try done.
  intros c rc Hc. destruct (I1 c rc Hc) as ([Ha Hr Hp Hst] & ? & ?). split_and!; [|done|done].
  split; try done. destruct (callback_ rc) as [o|] eqn:Hcb; [|done].
  destruct Hst as (? & ? & [(? & ? & [?|Hu])|?]); split_and!; auto.
  unfold unheld in Hu. simplify_eq. destruct Hheld as [?|(c' & Ho & ?)]; [lia|].
  pose proof (I3 c rc o Hc Hcb). simplify_eq. auto.
Qed.
End creation.
