(* ===== verification/SmartPtr.v ===== *)
(** * SmartPtr: the strong and weak pointers [sptr] and [wptr]

    Models the two templates of base/include/refbase.h.  A pointer variable is
    an entry of a store, by address: null or the object (for [sptr]) or the
    weak counter (for [wptr]) it refers to.  The converting overloads between
    related classes have the same bodies as the ones modelled. *)

From S2P Require Import Prelude RefBase.
Open Scope Z_scope.

Record World := mkWorld {
  heap : Heap;
  sptrs : gmap Z (option Z);
  wptrs : gmap Z (option Z);
}.

Definition SM (A : Type) : Type := World -> option (A * World).

#[export] Instance sm_ret : MRet SM := fun A a w => Some (a, w).
#[export] Instance sm_bind : MBind SM := fun A B f m w =>
  match m w with
  | Some (a, w') => f a w'
  | None => None
  end.

(** A method of the objects, and accesses to the pointer variables. *)
Definition lift {A} (m : HM A) : SM A := fun w =>
  match m (heap w) with
  | Some (a, h) => Some (a, mkWorld h (sptrs w) (wptrs w))
  | None => None
  end.

Definition get_sptr (k : Z) : SM (option Z) := fun w =>
  match sptrs w !! k with Some r => Some (r, w) | None => None end.
Definition set_sptr (k : Z) (r : option Z) : SM unit := fun w =>
  Some (tt, mkWorld (heap w) (<[k := r]> (sptrs w)) (wptrs w)).
Definition end_sptr (k : Z) : SM unit := fun w =>
  Some (tt, mkWorld (heap w) (delete k (sptrs w)) (wptrs w)).

Definition get_wptr (k : Z) : SM (option Z) := fun w =>
  match wptrs w !! k with Some r => Some (r, w) | None => None end.
Definition set_wptr (k : Z) (r : option Z) : SM unit := fun w =>
  Some (tt, mkWorld (heap w) (sptrs w) (<[k := r]> (wptrs w))).
Definition end_wptr (k : Z) : SM unit := fun w =>
  Some (tt, mkWorld (heap w) (sptrs w) (delete k (wptrs w))).

(** [if (p != nullptr) f(p);] *)
Definition if_some {A} (p : option A) (f : A -> HM unit) : SM unit :=
  match p with
  | Some a => lift (f a)
  | None => mret tt
  end.

Section smartptr.
Context `{RefConfig}.

(** ** [sptr] *)

Definition sptr_default (this : Z) : SM unit := set_sptr this None.

Definition MakeSptr (this : Z) : SM unit :=
  ptr ← lift RefBase_ctor;
  set_sptr this (Some ptr);;
  lift (IncStrongRef ptr).

Definition sptr_raw (this : Z) (other : option Z) : SM unit :=
  set_sptr this other;;
  if_some other IncStrongRef.

Definition sptr_copy (this other : Z) : SM unit :=
  refs ← get_sptr other;
  set_sptr this refs;;
  if_some refs IncStrongRef.

Definition sptr_move (this other : Z) : SM unit :=
  refs ← get_sptr other;
  set_sptr this refs;;
  set_sptr other None.

Definition sptr_move_assign (this other : Z) : SM unit :=
  refs ← get_sptr this;
  if_some refs DecStrongRef;;
  refs' ← get_sptr other;
  set_sptr this refs';;
  set_sptr other None.

Definition sptr_assign_raw (this : Z) (other : option Z) : SM unit :=
  if_some other IncStrongRef;;
  refs ← get_sptr this;
  if_some refs DecStrongRef;;
  set_sptr this other.

Definition sptr_assign (this other : Z) : SM unit :=
  otherRef ← get_sptr other;
  if_some otherRef IncStrongRef;;
  refs ← get_sptr this;
  if_some refs DecStrongRef;;
  set_sptr this otherRef.

Definition wptr_GetRefPtr (this : Z) : SM (option Z) :=
  refs ← get_wptr this;
  match refs with
  | Some w => lift (WeakRefCounter_GetRefPtr w)
  | None => mret None
  end.

Definition wptr_AttemptIncStrongRef (this : Z) : SM bool :=
  refs ← get_wptr this;
  w ← lift (deref refs);
  lift (WeakRefCounter_AttemptIncStrongRef w).

(** The old reference is given up first. *)
Definition sptr_assign_wptr (this other : Z) : SM unit :=
  refs ← get_sptr this;
  if_some refs DecStrongRef;;
  p ← wptr_GetRefPtr other;
  match p with
  | Some _ =>
    ok ← wptr_AttemptIncStrongRef other;
    if (ok : bool) then q ← wptr_GetRefPtr other; set_sptr this q
    else set_sptr this None
  | None => set_sptr this None
  end.

Definition sptr_clear (this : Z) : SM unit :=
  refs ← get_sptr this;
  match refs with
  | Some o => lift (DecStrongRef o);; set_sptr this None
  | None => mret tt
  end.

Definition sptr_dtor (this : Z) : SM unit :=
  refs ← get_sptr this;
  if_some refs DecStrongRef;;
  end_sptr this.

(** [sptr(WeakRefCounter *p, bool)] *)
Definition sptr_weak (this : Z) (p : option Z) : SM unit :=
  match p with
  | Some w =>
    ok ← lift (WeakRefCounter_AttemptIncStrongRef w);
    if (ok : bool) then q ← lift (WeakRefCounter_GetRefPtr w); set_sptr this q
    else set_sptr this None
  | None => set_sptr this None
  end.

(** [sptr::operator==] with a raw pointer and with a [wptr]. *)
Definition sptr_equals (this : Z) (other : option Z) : SM bool :=
  refs ← get_sptr this; mret (bool_decide (other = refs)).
Definition sptr_equals_wptr (this other : Z) : SM bool :=
  refs ← get_sptr this; p ← wptr_GetRefPtr other; mret (bool_decide (refs = p)).

(** ** [wptr] *)

(** A weak counter for an object that is about to be watched: null for null. *)
Definition weak_of (other : option Z) : SM (option Z) :=
  match other with
  | Some o =>
    r ← lift (CreateWeakRef o (Some o));
    if_some r WeakRefCounter_IncWeakRefCount;;
    mret r
  | None => mret None
  end.

Definition wptr_default (this : Z) : SM unit := set_wptr this None.

Definition wptr_raw (this : Z) (other : option Z) : SM unit :=
  r ← weak_of other;
  set_wptr this r.

Definition wptr_copy (this other : Z) : SM unit :=
  refs ← get_wptr other;
  set_wptr this refs;;
  if_some refs WeakRefCounter_IncWeakRefCount.

Definition wptr_of_sptr (this other : Z) : SM unit :=
  o ← get_sptr other;
  r ← weak_of o;
  set_wptr this r.

Definition wptr_replace (this : Z) (newWeakRef : option Z) : SM unit :=
  refs ← get_wptr this;
  if_some refs WeakRefCounter_DecWeakRefCount;;
  set_wptr this newWeakRef.

Definition wptr_assign_raw (this : Z) (other : option Z) : SM unit :=
  newWeakRef ← weak_of other;
  wptr_replace this newWeakRef.

Definition wptr_assign (this other : Z) : SM unit :=
  refs ← get_wptr other;
  if_some refs WeakRefCounter_IncWeakRefCount;;
  refs' ← get_wptr this;
  if_some refs' WeakRefCounter_DecWeakRefCount;;
  refs'' ← get_wptr other;
  set_wptr this refs''.

Definition wptr_assign_sptr (this other : Z) : SM unit :=
  o ← get_sptr other;
  newWeakRef ← weak_of o;
  wptr_replace this newWeakRef.

Definition wptr_equals (this : Z) (other : option Z) : SM bool :=
  p ← wptr_GetRefPtr this; mret (bool_decide (p = other)).

Definition promote (this result : Z) : SM unit :=
  refs ← get_wptr this;
  sptr_weak result refs.

Definition wptr_dtor (this : Z) : SM unit :=
  refs ← get_wptr this;
  if_some refs WeakRefCounter_DecWeakRefCount;;
  end_wptr this.
End smartptr.

(** ** Programs over pointer variables

    The statements of a program that reaches its objects through [sptr] and
    [wptr] variables only. *)

Inductive stmt :=
  | SNull (k : Z)                 (* [sptr<T> k;] *)
  | SMake (k : Z)                 (* [sptr<T> k = MakeSptr<T>();] *)
  | SNew (k : Z)                  (* [sptr<T> k(new T());] *)
  | SCopy (k j : Z)               (* [sptr<T> k(j);] *)
  | SMove (k j : Z)               (* [sptr<T> k(std::move(j));] *)
  | SAssign (k j : Z)             (* [k = j;] *)
  | SMoveAssign (k j : Z)         (* [k = std::move(j);] *)
  | SAssignRaw (k j : Z)          (* [k = j.GetRefPtr();] *)
  | SAssignNull (k : Z)           (* [k = nullptr;] *)
  | SAssignWptr (k v : Z)         (* [k = v;] for a [wptr] [v] *)
  | SPromote (k v : Z)            (* [sptr<T> k = v.promote();] *)
  | SClear (k : Z)                (* [k.clear();] *)
  | SEnd (k : Z)                  (* the end of the scope of [k] *)
  | SExtend (k : Z)               (* [k->ExtendObjectLifetime();] *)
  | WNull (v : Z)                 (* [wptr<T> v;] *)
  | WNew (v : Z)                  (* [wptr<T> v(new T());] *)
  | WOfSptr (v k : Z)             (* [wptr<T> v(k);] *)
  | WCopy (v u : Z)               (* [wptr<T> v(u);] *)
  | WAssign (v u : Z)             (* [v = u;] *)
  | WAssignSptr (v k : Z)         (* [v = k;] for an [sptr] [k] *)
  | WAssignRaw (v k : Z)          (* [v = k.GetRefPtr();] *)
  | WGet (v : Z)                  (* [v.GetRefPtr();] *)
  | WEnd (v : Z).                 (* the end of the scope of [v] *)

(** The scope rules of the language, and a non-null pointer behind [->]. *)
Definition legal (s : stmt) (w : World) : bool :=
  let live k := bool_decide (is_Some (sptrs w !! k)) in
  let livew v := bool_decide (is_Some (wptrs w !! v)) in
  match s with
  | SNull k | SMake k | SNew k => negb (live k)
  | SCopy k j | SMove k j => negb (live k) && live j
  | SAssign k j | SMoveAssign k j | SAssignRaw k j => live k && live j
  | SAssignNull k | SClear k | SEnd k => live k
  | SAssignWptr k v => live k && livew v
  | SPromote k v => negb (live k) && livew v
  | SExtend k => match sptrs w !! k with Some (Some _) => true | _ => false end
  | WNull v | WNew v => negb (livew v)
  | WOfSptr v k => negb (livew v) && live k
  | WCopy v u => negb (livew v) && livew u
  | WAssign v u => livew v && livew u
  | WAssignSptr v k | WAssignRaw v k => livew v && live k
  | WGet v | WEnd v => livew v
  end.

Section programs.
Context `{RefConfig}.

Definition exec (s : stmt) : SM unit :=
  match s with
  | SNull k => sptr_default k
  | SMake k => MakeSptr k
  | SNew k => o ← lift RefBase_ctor; sptr_raw k (Some o)
  | SCopy k j => sptr_copy k j
  | SMove k j => sptr_move k j
  | SAssign k j => sptr_assign k j
  | SMoveAssign k j => sptr_move_assign k j
  | SAssignRaw k j => o ← get_sptr j; sptr_assign_raw k o
  | SAssignNull k => sptr_assign_raw k None
  | SAssignWptr k v => sptr_assign_wptr k v
  | SPromote k v => promote v k
  | SClear k => sptr_clear k
  | SEnd k => sptr_dtor k
  | SExtend k =>
    o ← get_sptr k;
    o' ← lift (deref o);
    lift (RefBase_ExtendObjectLifetime o')
  | WNull v => wptr_default v
  | WNew v => o ← lift RefBase_ctor; wptr_raw v (Some o)
  | WOfSptr v k => wptr_of_sptr v k
  | WCopy v u => wptr_copy v u
  | WAssign v u => wptr_assign v u
  | WAssignSptr v k => wptr_assign_sptr v k
  | WAssignRaw v k => o ← get_sptr k; wptr_assign_raw v o
  | WGet v => wptr_GetRefPtr v;; mret tt
  | WEnd v => wptr_dtor v
  end.

(** A program that follows the scope rules skips nothing. *)
Fixpoint exec_all (p : list stmt) : SM unit :=
  match p with
  | [] => mret tt
  | s :: p' => fun w => if legal s w then (exec s;; exec_all p') w else exec_all p' w
  end.
End programs.

Definition empty_world : World := mkWorld (mkHeap ∅ ∅ ∅ 1 []) ∅ ∅.
