(* ===== verification/SmartInv.v ===== *)
(** * SmartInv: pointer programs never touch a deleted object

    Connects the pointer variables of SmartPtr.v with the counts of RefInv.v:
    the strong references to an object are the [sptr] variables that hold it,
    the references to a weak counter are the [wptr] variables that hold it. *)

From S2P Require Import Prelude RefBase RefInv SmartPtr.
From stdpp Require Import functions.
Open Scope Z_scope.

(** The number of variables that hold [x], and a variable's share of it. *)
Definition holders (m : gmap Z (option Z)) (x : Z) : Z := mcount (fun v => v = Some x) m.
Definition share (r : option (option Z)) (x : Z) : Z := if decide (r = Some (Some x)) then 1 else 0.

Lemma share_range r x : 0 <= share r x <= 1.
Proof. unfold share. case_decide; lia. Qed.

Lemma holders_nonneg m x : 0 <= holders m x.
Proof. apply mcount_nonneg. Qed.

Lemma hit_share v x : hit (fun v => v = Some x) v = share (Some v) x.
Proof. unfold hit, share. repeat case_decide; congruence. Qed.

Lemma holders_insert m k v x :
  holders (<[k := v]> m) x = holders m x - share (m !! k) x + share (Some v) x.
Proof.
  unfold holders. destruct (m !! k) as [v0|] eqn:E.
  - rewrite (mcount_insert _ _ _ _ _ E), !hit_share. lia.
  - rewrite mcount_insert_new, hit_share by done. unfold share at 2. rewrite decide_False by done. lia.
Qed.

Lemma holders_delete m k x : holders (delete k m) x = holders m x - share (m !! k) x.
Proof.
  unfold holders. destruct (m !! k) as [v0|] eqn:E.
  - by rewrite (mcount_delete _ _ _ _ E), hit_share.
  - rewrite delete_id by done. unfold share. rewrite decide_False by done. lia.
Qed.

Lemma holders_share m k x : share (m !! k) x <= holders m x.
Proof. pose proof (holders_delete m k x). pose proof (holders_nonneg (delete k m) x). lia. Qed.

Lemma holders_pos m k x : m !! k = Some (Some x) -> 0 < holders m x.
Proof.
  intros E. pose proof (holders_share m k x) as Hs. rewrite E in Hs. unfold share in Hs.
  rewrite decide_True in Hs by done. lia.
Qed.

Lemma share_some x y : share (Some (Some x)) y = if decide (y = x) then 1 else 0.
Proof. unfold share. repeat case_decide; congruence. Qed.

Lemma share_null y : share (Some None) y = 0.
Proof. done. Qed.

Lemma sm_bind_eq {A B} (m : SM A) (f : A -> SM B) w a w' :
  m w = Some (a, w') -> (x ← m; f x) w = f a w'.
Proof. intros E. unfold mbind, sm_bind. by rewrite E. Qed.

Definition with_heap (w : World) (h : Heap) : World := mkWorld h (sptrs w) (wptrs w).

Lemma lift_eq {A} (m : HM A) w a h : m (heap w) = Some (a, h) -> lift m w = Some (a, with_heap w h).
Proof. intros E. unfold lift. by rewrite E. Qed.

Lemma get_sptr_eq w k r : sptrs w !! k = Some r -> get_sptr k w = Some (r, w).
Proof. intros E. unfold get_sptr. by rewrite E. Qed.
Lemma get_wptr_eq w k r : wptrs w !! k = Some r -> get_wptr k w = Some (r, w).
Proof. intros E. unfold get_wptr. by rewrite E. Qed.

#[local] Instance none_unheld : Unheld := None.

Section pointers.
Context `{RefConfig} (Hcan : can_promote).
Implicit Types (S W : Z -> Z) (h : Heap) (w : World).

Lemma with_heap_id w : with_heap w (heap w) = w.
Proof. by destruct w. Qed.

Lemma inc_some N S W w r :
  inv N S W (heap w) -> N < MAX_REFS -> (forall o, r = Some o -> 0 < S o) ->
  exists h, if_some r IncStrongRef w = Some (tt, with_heap w h) /\
    inv (N + 1) (fun x => S x + share (Some r) x) W h.
Proof.
  intros Hi HN Hr. destruct r as [o|]; simpl.
  - destruct (held_alive N S W (heap w) o Hi (Hr o eq_refl)) as [r Ho].
    destruct (IncStrongRef_spec N S W (heap w) o r Hi HN Ho) as (h & E & Hi' & _).
    exists h. rewrite (lift_eq _ _ _ _ E). split; [done|].
    eapply inv_ext; [|done|exact Hi']. intros x. rewrite share_some.
    case_decide as Ex; [subst x; by rewrite fn_lookup_insert|by rewrite fn_lookup_insert_ne, Z.add_0_r].
  - exists (heap w). rewrite with_heap_id. split; [done|].
    apply (inv_le N); [|lia]. eapply inv_ext; [|done|exact Hi]. intros x. rewrite share_null. lia.
Qed.

Lemma dec_some N S W w r :
  inv N S W (heap w) -> N <= MAX_REFS -> (forall o, r = Some o -> 0 < S o) ->
  exists h, if_some r DecStrongRef w = Some (tt, with_heap w h) /\
    inv N (fun x => S x - share (Some r) x) W h /\ weaks h = weaks (heap w).
Proof.
  intros Hi HN Hr. destruct r as [o|]; simpl.
  - destruct (DecStrongRef_spec N S W (heap w) o Hi HN (Hr o eq_refl)) as (h & c & rc & E & Hi' & Hw & _).
    exists h. rewrite (lift_eq _ _ _ _ E). split; [done|]. split; [|done].
    eapply inv_ext; [|done|exact Hi']. intros x. rewrite share_some.
    case_decide as Ex; [subst x; by rewrite fn_lookup_insert|by rewrite fn_lookup_insert_ne, Z.sub_0_r].
  - exists (heap w). rewrite with_heap_id. split; [done|]. split; [|done].
    eapply inv_ext; [|done|exact Hi]. intros x. rewrite share_null. lia.
Qed.

Lemma winc_some N S W w r :
  inv N S W (heap w) -> N < MAX_REFS -> (forall v, r = Some v -> 0 < W v) ->
  exists h, if_some r WeakRefCounter_IncWeakRefCount w = Some (tt, with_heap w h) /\
    inv (N + 1) S (fun x => W x + share (Some r) x) h.
Proof.
  intros Hi HN Hr. destruct r as [v|]; simpl.
  - destruct (WeakInc_spec N S W (heap w) v Hi HN (Hr v eq_refl)) as (h & E & Hi' & _).
    exists h. rewrite (lift_eq _ _ _ _ E). split; [done|].
    eapply inv_ext; [done| |exact Hi']. intros x. rewrite share_some.
    case_decide as Ex; [subst x; by rewrite fn_lookup_insert|by rewrite fn_lookup_insert_ne, Z.add_0_r].
  - exists (heap w). rewrite with_heap_id. split; [done|].
    apply (inv_le N); [|lia]. eapply inv_ext; [done| |exact Hi]. intros x. rewrite share_null. lia.
Qed.

Lemma wdec_some N S W w r :
  inv N S W (heap w) -> N <= MAX_REFS -> (forall v, r = Some v -> 0 < W v) ->
  exists h, if_some r WeakRefCounter_DecWeakRefCount w = Some (tt, with_heap w h) /\
    inv N S (fun x => W x - share (Some r) x) h.
Proof.
  intros Hi HN Hr. destruct r as [v|]; simpl.
  - destruct (WeakDec_spec N S W (heap w) v Hi HN (Hr v eq_refl)) as (h & E & Hi').
    exists h. rewrite (lift_eq _ _ _ _ E). split; [done|].
    eapply inv_ext; [done| |exact Hi']. intros x. rewrite share_some.
    case_decide as Ex; [subst x; by rewrite fn_lookup_insert|by rewrite fn_lookup_insert_ne, Z.sub_0_r].
  - exists (heap w). rewrite with_heap_id. split; [done|].
    eapply inv_ext; [done| |exact Hi]. intros x. rewrite share_null. lia.
Qed.

(** A new weak counter for an object that is held. *)
Lemma weak_of_spec N S W w r :
  inv N S W (heap w) -> N < MAX_REFS -> 0 <= N -> (forall o, r = Some o -> 0 < S o) ->
  exists v h, weak_of r w = Some (v, with_heap w h) /\
    inv (N + 1) S (fun x => W x + share (Some v) x) h.
Proof.
  intros Hi HN H0 Hr. destruct r as [o|]; simpl.
  - destruct (held_alive N S W (heap w) o Hi (Hr o eq_refl)) as [r Ho].
    destruct (inv_alive N S W (heap w) o r Hi Ho) as (c & rc & -> & Hc & Hcb & Hok & Hn & Ha & HS).
    destruct (counter_bounds N S _ rc o Hok Hcb) as (Bs & Bw & Br); try lia.
    pose proof (new_wptr_eq (heap w) o c rc Ho Hc Bw Br) as E.
    pose proof (inv_new_weak N S W (heap w) o c rc Hi H0 Ho Hc Hcb) as Hi'.
    exists (Some (next_address (heap w))), (with_new_weak (heap w) c o rc). split.
    + revert E. unfold new_wptr, new_wptr_at, mbind, hm_bind, sm_bind, lift, with_heap.
      destruct (CreateWeakRef o (Some o) (heap w)) as [[[v|] h1]|]; try done.
      unfold if_some, lift. simpl.
      destruct (WeakRefCounter_IncWeakRefCount v h1) as [[[] h2]|]; [|done].
      unfold mret, hm_ret, sm_ret. intros [= -> ->]. done.
    + eapply inv_ext; [done| |exact Hi']. intros x. rewrite share_some.
      assert (W (next_address (heap w)) = 0) as HW.
      { apply (inv_W _ _ _ _ Hi). by apply (inv_fresh _ _ _ _ Hi). }
      case_decide as Ex; [subst x; rewrite fn_lookup_insert; lia|by rewrite fn_lookup_insert_ne, Z.add_0_r].
  - exists None, (heap w). rewrite with_heap_id. split; [done|].
    apply (inv_le N); [|lia]. eapply inv_ext; [done| |exact Hi]. intros x. rewrite share_null. lia.
Qed.

(** ** The statements *)

(** The counts of a program state are the holders of its variables. *)
Definition winv (N : Z) (w : World) : Prop :=
  inv N (holders (sptrs w)) (holders (wptrs w)) (heap w) /\ 0 <= N.

(** [steps N m w]: from [w], [m] has no undefined behaviour, and its end
    state is consistent again, with at most two more references. *)
Definition steps {A} (N : Z) (m : SM A) (w : World) : Prop :=
  exists a w', m w = Some (a, w') /\ winv (N + 2) w'.

Ltac counts := intros ?x; simpl;
  repeat first
    [ rewrite holders_insert | rewrite holders_delete | rewrite share_null
    | rewrite lookup_insert_eq | rewrite lookup_insert_ne by congruence
    | match goal with E : _ !! _ = _ |- _ => rewrite E end ];
  try (unfold share at 1; rewrite decide_False by done); try lia.

Ltac settle Hi := split; [eapply inv_ext; [| |eapply inv_le; [exact Hi|lia]]; counts|lia].

Lemma held m k o : m !! k = Some (Some o) -> 0 < holders m o.
Proof. apply holders_pos. Qed.

Lemma share_none x : share None x = 0.
Proof. done. Qed.

Lemma null_steps N w k : winv N w -> sptrs w !! k = None -> steps N (sptr_default k) w.
Proof.
  intros [Hi HN] Hk. eexists _, _. split; [done|]. settle Hi.
Qed.

Lemma copy_steps N w k j r :
  winv N w -> N + 2 < MAX_REFS -> sptrs w !! k = None -> sptrs w !! j = Some r ->
  steps N (sptr_copy k j) w.
Proof.
  intros [Hi HN] Hmax Hk Hj. unfold steps, sptr_copy. rewrite (sm_bind_eq _ _ _ _ _ (get_sptr_eq w j r Hj)).
  set (w1 := mkWorld (heap w) (<[k := r]> (sptrs w)) (wptrs w)).
  rewrite (sm_bind_eq (set_sptr k r) _ w tt w1) by done.
  destruct (inc_some N _ _ w1 r Hi) as (h & E & Hi'); [lia|intros o ->; by eapply held|].
  exists tt, (with_heap w1 h). split; [done|]. settle Hi'.
Qed.

Lemma move_steps N w k j r :
  winv N w -> sptrs w !! k = None -> sptrs w !! j = Some r -> steps N (sptr_move k j) w.
Proof.
  intros [Hi HN] Hk Hj. assert (j <> k) by congruence.
  unfold steps, sptr_move. rewrite (sm_bind_eq _ _ _ _ _ (get_sptr_eq w j r Hj)).
  eexists tt, _. split; [done|]. settle Hi.
Qed.

(** The old reference of a variable is given up when it is overwritten. *)
Lemma overwrite_steps N S w k old r :
  inv N S (holders (wptrs w)) (heap w) -> 0 <= N -> N < MAX_REFS -> sptrs w !! k = Some old ->
  (forall x, S x = holders (sptrs w) x + share (Some r) x) ->
  exists h, if_some old DecStrongRef w = Some (tt, with_heap w h) /\
    winv N (mkWorld h (<[k := r]> (sptrs w)) (wptrs w)).
Proof.
  intros Hi HN Hmax Hk HS.
  destruct (dec_some N S _ w old Hi) as (h & E & Hi' & _); [lia| |].
  { intros o ->. rewrite HS. pose proof (held _ _ _ Hk). pose proof (share_range (Some r) o). lia. }
  exists h. split; [done|]. split; [|done].
  eapply inv_ext; [|done|exact Hi']. counts. rewrite HS. lia.
Qed.

Lemma assign_raw_steps N w k j old r :
  winv N w -> N + 2 < MAX_REFS -> sptrs w !! k = Some old -> (r = None \/ sptrs w !! j = Some r) ->
  steps N (sptr_assign_raw k r) w.
Proof.
  intros [Hi HN] Hmax Hk Hj. unfold steps, sptr_assign_raw.
  destruct (inc_some N _ _ w r Hi) as (h & E & Hi'); [lia| |].
  { intros o ->. destruct Hj as [?|Hj]; [done|by eapply held]. }
  rewrite (sm_bind_eq _ _ _ _ _ E).
  assert (sptrs (with_heap w h) !! k = Some old) as Hk1 by done.
  rewrite (sm_bind_eq _ _ _ _ _ (get_sptr_eq _ k old Hk1)).
  destruct (overwrite_steps (N + 1) _ (with_heap w h) k old r Hi') as (h2 & E2 & Hi2 & _);
    [lia|lia|done|done|].
  rewrite (sm_bind_eq _ _ _ _ _ E2). eexists tt, _. split; [done|].
  split; [|lia]. eapply inv_le; [exact Hi2|lia].
Qed.

Lemma assign_steps N w k j old r :
  winv N w -> N + 2 < MAX_REFS -> sptrs w !! k = Some old -> sptrs w !! j = Some r ->
  steps N (sptr_assign k j) w.
Proof.
  intros Hi Hmax Hk Hj. unfold steps, sptr_assign.
  rewrite (sm_bind_eq _ _ _ _ _ (get_sptr_eq w j r Hj)).
  apply (assign_raw_steps N w k j old r); auto.
Qed.

Lemma move_assign_steps N w k j old r :
  winv N w -> N + 2 < MAX_REFS -> sptrs w !! k = Some old -> sptrs w !! j = Some r ->
  steps N (sptr_move_assign k j) w.
Proof.
  intros [Hi HN] Hmax Hk Hj. unfold steps, sptr_move_assign.
  rewrite (sm_bind_eq _ _ _ _ _ (get_sptr_eq w k old Hk)).
  destruct (dec_some N _ _ w old Hi) as (h & E & Hi' & _); [lia|intros o ->; by eapply held|].
  rewrite (sm_bind_eq _ _ _ _ _ E).
  assert (sptrs (with_heap w h) !! j = Some r) as Hj1 by done.
  rewrite (sm_bind_eq _ _ _ _ _ (get_sptr_eq _ j r Hj1)).
  eexists tt, _. split; [done|]. destruct (decide (j = k)) as [->|Hne].
  - assert (r = old) as -> by congruence. settle Hi'.
  - settle Hi'.
Qed.

Lemma clear_steps N w k old :
  winv N w -> N + 2 < MAX_REFS -> sptrs w !! k = Some old -> steps N (sptr_clear k) w.
Proof.
  intros [Hi HN] Hmax Hk. unfold steps, sptr_clear.
  rewrite (sm_bind_eq _ _ _ _ _ (get_sptr_eq w k old Hk)).
  destruct (dec_some N _ _ w old Hi) as (h & E & Hi' & _); [lia|intros o ->; by eapply held|].
  destruct old as [o|].
  - simpl in E. rewrite (sm_bind_eq _ _ _ _ _ E). eexists tt, _. split; [done|]. settle Hi'.
  - exists tt, w. split; [done|]. settle Hi.
Qed.

Lemma dtor_steps N w k old :
  winv N w -> N + 2 < MAX_REFS -> sptrs w !! k = Some old -> steps N (sptr_dtor k) w.
Proof.
  intros [Hi HN] Hmax Hk. unfold steps, sptr_dtor.
  rewrite (sm_bind_eq _ _ _ _ _ (get_sptr_eq w k old Hk)).
  destruct (dec_some N _ _ w old Hi) as (h & E & Hi' & _); [lia|intros o ->; by eapply held|].
  rewrite (sm_bind_eq _ _ _ _ _ E). eexists tt, _. split; [done|]. settle Hi'.
Qed.

(** Promotion into a variable: a new reference while the object lives. *)
Lemma promote_into N S w v r :
  inv N S (holders (wptrs w)) (heap w) -> N < MAX_REFS -> wptrs w !! v = Some (Some r) ->
  exists b h q, WeakRefCounter_AttemptIncStrongRef r (heap w) = Some (b, h) /\
    q = target (heap w) r /\ b = bool_decide (is_Some q) /\
    (b = true -> exists h', WeakRefCounter_GetRefPtr r h = Some (q, h') /\
       inv (N + 1) (fun x => S x + share (Some q) x) (holders (wptrs w)) h') /\
    (b = false -> inv N S (holders (wptrs w)) h).
Proof.
  intros Hi HN Hv. assert (0 < holders (wptrs w) r) as Hr by by eapply held.
  destruct (WeakAttempt_spec N S _ (heap w) r Hcan Hi HN Hr) as (h & E & Ht & Hi').
  exists (bool_decide (is_Some (target (heap w) r))), h, (target (heap w) r). do 3 (split; [done|]).
  destruct (target (heap w) r) as [o|] eqn:Eo.
  - split; [intros _|done]. destruct (WeakGetRefPtr_spec (N + 1) _ _ h r Hi' Hr) as (h' & E' & Hi2 & _).
    exists h'. rewrite E', Ht. split; [done|]. eapply inv_ext; [|done|exact Hi2]. intros x. rewrite share_some.
    case_decide as Ex; [subst x; by rewrite fn_lookup_insert|by rewrite fn_lookup_insert_ne, Z.add_0_r].
  - split; [done|by intros _].
Qed.

(** The promoted variable holds the object if it is alive, and null if not. *)
Lemma promote_spec N w k v r :
  winv N w -> N + 2 < MAX_REFS -> sptrs w !! k = None -> wptrs w !! v = Some r ->
  exists w', promote v k w = Some (tt, w') /\ winv (N + 2) w' /\
    sptrs w' = <[k := r ≫= target (heap w)]> (sptrs w).
Proof.
  intros [Hi HN] Hmax Hk Hv. unfold promote, sptr_weak.
  rewrite (sm_bind_eq _ _ _ _ _ (get_wptr_eq w v r Hv)). destruct r as [r|].
  - destruct (promote_into N _ w v r Hi ltac:(lia) Hv) as (b & h & q & E & Hq & Hb & Hyes & Hno).
    rewrite (sm_bind_eq _ _ _ _ _ (lift_eq _ w _ _ E)). destruct b.
    + destruct (Hyes eq_refl) as (h' & E' & Hi').
      rewrite (sm_bind_eq _ _ _ _ _ (lift_eq (WeakRefCounter_GetRefPtr r) (with_heap w h) _ _ E')).
      eexists. split; [done|]. split; [settle Hi'|]. simpl. by rewrite <- Hq.
    + eexists. split; [done|]. specialize (Hno eq_refl). split; [settle Hno|]. simpl. rewrite <- Hq.
      symmetry in Hb. apply bool_decide_eq_false, eq_None_not_Some in Hb. by rewrite Hb.
  - eexists. split; [done|]. split; [settle Hi|done].
Qed.

Lemma promote_steps N w k v r :
  winv N w -> N + 2 < MAX_REFS -> sptrs w !! k = None -> wptrs w !! v = Some r ->
  steps N (promote v k) w.
Proof.
  intros Hi Hmax Hk Hv. destruct (promote_spec N w k v r Hi Hmax Hk Hv) as (w' & E & Hw & _).
  by exists tt, w'.
Qed.

Lemma get_ok N S w v r :
  inv N S (holders (wptrs w)) (heap w) -> wptrs w !! v = Some r ->
  exists h, wptr_GetRefPtr v w = Some (r ≫= target (heap w), with_heap w h) /\
    inv N S (holders (wptrs w)) h /\ (forall u, target h u = target (heap w) u).
Proof.
  intros Hi Hv. unfold wptr_GetRefPtr. rewrite (sm_bind_eq _ _ _ _ _ (get_wptr_eq w v r Hv)).
  destruct r as [r|].
  - assert (0 < holders (wptrs w) r) as Hr by by eapply held.
    destruct (WeakGetRefPtr_spec N _ _ (heap w) r Hi Hr) as (h & E & Hi' & Ht).
    exists h. by rewrite (lift_eq _ _ _ _ E).
  - exists (heap w). rewrite with_heap_id. done.
Qed.

Lemma get_steps N w v r : winv N w -> wptrs w !! v = Some r -> steps N (wptr_GetRefPtr v;; mret tt) w.
Proof.
  intros [Hi HN] Hv. destruct (get_ok N _ w v r Hi Hv) as (h & E & Hi' & _).
  unfold steps. rewrite (sm_bind_eq _ _ _ _ _ E). eexists tt, _. split; [done|]. settle Hi'.
Qed.

Lemma assign_wptr_steps N w k v old r :
  winv N w -> N + 2 < MAX_REFS -> sptrs w !! k = Some old -> wptrs w !! v = Some r ->
  steps N (sptr_assign_wptr k v) w.
Proof.
  intros [Hi HN] Hmax Hk Hv. unfold steps, sptr_assign_wptr.
  rewrite (sm_bind_eq _ _ _ _ _ (get_sptr_eq w k old Hk)).
  destruct (dec_some N _ _ w old Hi) as (h & E & Hi1 & _); [lia|intros o ->; by eapply held|].
  rewrite (sm_bind_eq _ _ _ _ _ E). set (w1 := with_heap w h).
  destruct (get_ok N _ w1 v r Hi1 Hv) as (h2 & E2 & Hi2 & Ht). rewrite (sm_bind_eq _ _ _ _ _ E2).
  destruct (r ≫= target (heap w1)) as [o|].
  2:{ eexists tt, _. split; [done|]. settle Hi2. }
  unfold wptr_AttemptIncStrongRef. set (w2 := with_heap w1 h2).
  assert (wptrs w2 !! v = Some r) as Hv2 by done.
  destruct r as [r|].
  - destruct (promote_into N _ w2 v r Hi2 ltac:(lia) Hv) as (b & h3 & q & E3 & _ & _ & Hyes & Hno).
    rewrite (sm_bind_eq _ _ w2 b (with_heap w2 h3)).
    2:{ rewrite (sm_bind_eq _ _ _ _ _ (get_wptr_eq w2 v _ Hv2)).
        rewrite (sm_bind_eq (lift (deref (Some r))) _ w2 r w2) by by rewrite (lift_eq _ w2 r h2).
        by rewrite (lift_eq _ _ _ _ E3). }
    destruct b.
    + destruct (Hyes eq_refl) as (h4 & E4 & Hi4).
      rewrite (sm_bind_eq _ _ (with_heap w2 h3) q (with_heap w2 h4)).
      2:{ unfold wptr_GetRefPtr. assert (wptrs (with_heap w2 h3) !! v = Some (Some r)) as Hv3 by done.
          rewrite (sm_bind_eq _ _ _ _ _ (get_wptr_eq _ v _ Hv3)).
          by rewrite (lift_eq (WeakRefCounter_GetRefPtr r) (with_heap w2 h3) _ _ E4). }
      eexists tt, _. split; [done|]. settle Hi4.
    + eexists tt, _. split; [done|]. specialize (Hno eq_refl). settle Hno.
  - exfalso. revert E2. unfold wptr_GetRefPtr. rewrite (sm_bind_eq _ _ _ _ _ (get_wptr_eq w1 v _ Hv)).
    done.
Qed.

(** ** [wptr] *)

Lemma wnull_steps N w v : winv N w -> wptrs w !! v = None -> steps N (wptr_default v) w.
Proof. intros [Hi HN] Hv. eexists _, _. split; [done|]. settle Hi. Qed.

Lemma wof_sptr_steps N w v k r :
  winv N w -> N + 2 < MAX_REFS -> wptrs w !! v = None -> sptrs w !! k = Some r ->
  steps N (wptr_of_sptr v k) w.
Proof.
  intros [Hi HN] Hmax Hv Hk. unfold steps, wptr_of_sptr.
  rewrite (sm_bind_eq _ _ _ _ _ (get_sptr_eq w k r Hk)).
  destruct (weak_of_spec N _ _ w r Hi) as (u & h & E & Hi'); [lia|lia|intros o ->; by eapply held|].
  rewrite (sm_bind_eq _ _ _ _ _ E). eexists tt, _. split; [done|]. settle Hi'.
Qed.

Lemma wcopy_steps N w v u r :
  winv N w -> N + 2 < MAX_REFS -> wptrs w !! v = None -> wptrs w !! u = Some r ->
  steps N (wptr_copy v u) w.
Proof.
  intros [Hi HN] Hmax Hv Hu. unfold steps, wptr_copy.
  rewrite (sm_bind_eq _ _ _ _ _ (get_wptr_eq w u r Hu)).
  set (w1 := mkWorld (heap w) (sptrs w) (<[v := r]> (wptrs w))).
  rewrite (sm_bind_eq (set_wptr v r) _ w tt w1) by done.
  destruct (winc_some N _ _ w1 r Hi) as (h & E & Hi'); [lia|intros o ->; by eapply held|].
  exists tt, (with_heap w1 h). split; [done|]. settle Hi'.
Qed.

Lemma wreplace_steps N w W v old r :
  inv N (holders (sptrs w)) W (heap w) -> 0 <= N -> N < MAX_REFS -> wptrs w !! v = Some old ->
  (forall x, W x = holders (wptrs w) x + share (Some r) x) ->
  exists h, if_some old WeakRefCounter_DecWeakRefCount w = Some (tt, with_heap w h) /\
    winv N (mkWorld h (sptrs w) (<[v := r]> (wptrs w))).
Proof.
  intros Hi HN Hmax Hv HW.
  destruct (wdec_some N _ W w old Hi) as (h & E & Hi'); [lia| |].
  { intros o ->. rewrite HW. pose proof (held _ _ _ Hv). pose proof (share_range (Some r) o). lia. }
  exists h. split; [done|]. split; [|done].
  eapply inv_ext; [done| |exact Hi']. counts. rewrite HW. lia.
Qed.

Lemma wassign_raw_steps N w v k old r :
  winv N w -> N + 2 < MAX_REFS -> wptrs w !! v = Some old -> sptrs w !! k = Some r ->
  steps N (wptr_assign_raw v r) w.
Proof.
  intros [Hi HN] Hmax Hv Hk. unfold steps, wptr_assign_raw.
  destruct (weak_of_spec N _ _ w r Hi) as (u & h & E & Hi'); [lia|lia|intros o ->; by eapply held|].
  rewrite (sm_bind_eq _ _ _ _ _ E). unfold wptr_replace.
  assert (wptrs (with_heap w h) !! v = Some old) as Hv1 by done.
  rewrite (sm_bind_eq _ _ _ _ _ (get_wptr_eq _ v old Hv1)).
  destruct (wreplace_steps (N + 1) (with_heap w h) _ v old u Hi') as (h2 & E2 & Hi2 & _); [lia|lia|done|done|].
  rewrite (sm_bind_eq _ _ _ _ _ E2). eexists tt, _. split; [done|].
  split; [|lia]. eapply inv_le; [exact Hi2|lia].
Qed.

Lemma wassign_steps N w v u old r :
  winv N w -> N + 2 < MAX_REFS -> wptrs w !! v = Some old -> wptrs w !! u = Some r ->
  steps N (wptr_assign v u) w.
Proof.
  intros [Hi HN] Hmax Hv Hu. unfold steps, wptr_assign.
  rewrite (sm_bind_eq _ _ _ _ _ (get_wptr_eq w u r Hu)).
  destruct (winc_some N _ _ w r Hi) as (h & E & Hi'); [lia|intros o ->; by eapply held|].
  rewrite (sm_bind_eq _ _ _ _ _ E).
  assert (wptrs (with_heap w h) !! v = Some old) as Hv1 by done.
  rewrite (sm_bind_eq _ _ _ _ _ (get_wptr_eq _ v old Hv1)).
  destruct (wreplace_steps (N + 1) (with_heap w h) _ v old r Hi') as (h2 & E2 & Hi2 & _); [lia|lia|done|done|].
  rewrite (sm_bind_eq _ _ _ _ _ E2).
  assert (wptrs (with_heap (with_heap w h) h2) !! u = Some r) as Hu1 by done.
  rewrite (sm_bind_eq _ _ _ _ _ (get_wptr_eq _ u r Hu1)). eexists tt, _. split; [done|].
  split; [|lia]. eapply inv_le; [exact Hi2|lia].
Qed.

Lemma wdtor_steps N w v old :
  winv N w -> N + 2 < MAX_REFS -> wptrs w !! v = Some old -> steps N (wptr_dtor v) w.
Proof.
  intros [Hi HN] Hmax Hv. unfold steps, wptr_dtor.
  rewrite (sm_bind_eq _ _ _ _ _ (get_wptr_eq w v old Hv)).
  destruct (wdec_some N _ _ w old Hi) as (h & E & Hi'); [lia|intros o ->; by eapply held|].
  rewrite (sm_bind_eq _ _ _ _ _ E). eexists tt, _. split; [done|]. settle Hi'.
Qed.

(** ** New objects *)

(** The first strong reference takes a new object over. *)
Lemma first_strong N S W h :
  inv N S W h -> 0 <= N -> N < MAX_REFS ->
  exists h', IncStrongRef (next_address h) (with_new_object h) = Some (tt, h') /\
    inv (N + 1) (fun x => S x + share (Some (Some (next_address h))) x) W h'.
Proof.
  intros Hi HN Hmax. set (a := next_address h).
  pose proof (inv_new_object N S W h Hi HN) as Hi1.
  assert (objects (with_new_object h) !! a = Some (Some (a + 1))) as Ho by apply lookup_insert_eq.
  destruct (IncStrongRef_spec (H0 := Some a) N S W _ a _ Hi1 Hmax Ho) as (h' & E & Hi2 & _).
  exists h'. split; [done|].
  assert (S a = 0) as Ha by (apply (inv_S _ _ _ _ Hi), (inv_fresh _ _ _ _ Hi); unfold a; lia).
  eapply inv_ext; [| |eapply inv_held; [exact Hi2|left; rewrite fn_lookup_insert; lia]]; [|done].
  intros x. rewrite share_some.
  case_decide as Ex; [subst x; by rewrite fn_lookup_insert|by rewrite fn_lookup_insert_ne, Z.add_0_r].
Qed.

(** The first weak pointer does so too. *)
Lemma first_weak N S W w :
  inv N S W (heap w) -> 0 <= N ->
  exists v h, weak_of (Some (next_address (heap w))) (with_heap w (with_new_object (heap w))) =
      Some (v, with_heap w h) /\
    inv (N + 1) S (fun x => W x + share (Some v) x) h.
Proof.
  intros Hi HN. set (a := next_address (heap w)). set (h1 := with_new_object (heap w)).
  pose proof (inv_new_object N S W (heap w) Hi HN) as Hi1. fold a h1 in Hi1.
  assert (objects h1 !! a = Some (Some (a + 1))) as Ho by apply lookup_insert_eq.
  assert (counters h1 !! (a + 1) = Some (first_counter a)) as Hc by apply lookup_insert_eq.
  pose proof (new_wptr_eq h1 a (a + 1) (first_counter a) Ho Hc ltac:(simpl; lia) ltac:(simpl; lia)) as E.
  pose proof (inv_new_weak (H0 := Some a) N S W h1 a (a + 1) _ Hi1 HN Ho Hc eq_refl) as Hi2.
  exists (Some (next_address h1)), (with_new_weak h1 (a + 1) a (first_counter a)). split.
  - revert E. unfold new_wptr, new_wptr_at, weak_of, mbind, hm_bind, sm_bind, lift, with_heap.
    simpl heap. destruct (CreateWeakRef a (Some a) h1) as [[[v|] h2]|]; try done.
    unfold if_some, lift. simpl.
    destruct (WeakRefCounter_IncWeakRefCount v h2) as [[[] h3]|]; [|done].
    unfold mret, hm_ret, sm_ret. intros [= -> ->]. done.
  - assert (W (next_address h1) = 0) as HW.
    { apply (inv_W _ _ _ _ Hi). apply (inv_fresh _ _ _ _ Hi). unfold h1. simpl. lia. }
    eapply inv_ext; [| |eapply inv_held; [exact Hi2|right; exists (a + 1); split; [done|]]]; [done| |].
    + intros x. rewrite share_some.
      case_decide as Ex; [subst x; rewrite fn_lookup_insert; lia|by rewrite fn_lookup_insert_ne, Z.add_0_r].
    + apply (mcount_pos (points_to (a + 1)) _ (next_address h1) (mkWeakRefCounter 1 (Some (a + 1)) (Some a)));
        [apply lookup_insert_eq|done].
Qed.

Lemma make_steps N w k :
  winv N w -> N + 2 < MAX_REFS -> sptrs w !! k = None -> steps N (MakeSptr k) w.
Proof.
  intros [Hi HN] Hmax Hk. destruct (first_strong N _ _ (heap w) Hi HN) as (h & E & Hi'); [lia|].
  unfold steps, MakeSptr.
  rewrite (sm_bind_eq _ _ _ _ _ (lift_eq _ w _ _ (RefBase_ctor_eq (heap w)))).
  set (w1 := mkWorld (with_new_object (heap w)) (<[k := Some (next_address (heap w))]> (sptrs w)) (wptrs w)).
  rewrite (sm_bind_eq (set_sptr k _) _ _ tt w1) by done.
  exists tt, (with_heap w1 h). split; [by rewrite (lift_eq _ w1 _ _ E)|]. settle Hi'.
Qed.

Lemma new_steps N w k :
  winv N w -> N + 2 < MAX_REFS -> sptrs w !! k = None ->
  steps N (o ← lift RefBase_ctor; sptr_raw k (Some o)) w.
Proof.
  intros Hi Hmax Hk. destruct (make_steps N w k Hi Hmax Hk) as (a & w' & E & Hi').
  exists a, w'. split; [|done]. rewrite <- E. done.
Qed.

Lemma wnew_steps N w v :
  winv N w -> N + 2 < MAX_REFS -> wptrs w !! v = None ->
  steps N (o ← lift RefBase_ctor; wptr_raw v (Some o)) w.
Proof.
  intros [Hi HN] Hmax Hv. destruct (first_weak N _ _ w Hi HN) as (u & h & E & Hi').
  unfold steps. rewrite (sm_bind_eq _ _ _ _ _ (lift_eq _ w _ _ (RefBase_ctor_eq (heap w)))).
  unfold wptr_raw. rewrite (sm_bind_eq _ _ _ _ _ E). eexists tt, _. split; [done|]. settle Hi'.
Qed.

Lemma extend_steps N w k o :
  winv N w -> sptrs w !! k = Some (Some o) ->
  steps N (o ← get_sptr k; o' ← lift (deref o); lift (RefBase_ExtendObjectLifetime o')) w.
Proof.
  intros [Hi HN] Hk. unfold steps. rewrite (sm_bind_eq _ _ _ _ _ (get_sptr_eq w k _ Hk)).
  rewrite (sm_bind_eq (lift (deref (Some o))) _ w o w).
  2:{ rewrite (lift_eq _ w o (heap w)) by done. by rewrite with_heap_id. }
  destruct (held_alive N _ _ (heap w) o Hi) as [r Ho]; [by eapply held|].
  destruct (Extend_spec N _ _ (heap w) o r Hi Ho) as (h & E & Hi' & _).
  rewrite (lift_eq _ _ _ _ E). eexists tt, _. split; [done|]. settle Hi'.
Qed.

(** ** Whole programs *)

Lemma exec_steps N s w :
  winv N w -> N + 2 < MAX_REFS -> legal s w = true -> steps N (exec s) w.
Proof.
  intros Hi HN Hl.
  assert (forall (m : gmap Z (option Z)) k, bool_decide (is_Some (m !! k)) = true -> exists r, m !! k = Some r) as Hyes.
  { intros m k E. apply bool_decide_eq_true in E as [r E]. by exists r. }
  assert (forall (m : gmap Z (option Z)) k, negb (bool_decide (is_Some (m !! k))) = true -> m !! k = None) as Hno.
  { intros m k E. apply negb_true_iff, bool_decide_eq_false in E. by apply eq_None_not_Some. }
  destruct s as [k|k|k|k j|k j|k j|k j|k j|k|k v|k v|k|k|k|v|v|v k|v u|v u|v k|v k|v|v]; simpl in Hl |- *;
    try (apply andb_true_iff in Hl as [Hl Hl']);
    repeat match goal with
    | E : bool_decide (is_Some (?m !! ?k)) = true |- _ =>
      let r := fresh "r" in let Hr := fresh "Hr" in destruct (Hyes m k E) as [r Hr]; clear E
    | E : negb (bool_decide (is_Some (?m !! ?k))) = true |- _ => apply Hno in E
    end.
  - by apply null_steps.
  - by apply make_steps.
  - by apply new_steps.
  - by eapply copy_steps.
  - by eapply move_steps.
  - by eapply assign_steps.
  - by eapply move_assign_steps.
  - unfold steps. rewrite (sm_bind_eq _ _ _ _ _ (get_sptr_eq w j _ Hr)). eapply assign_raw_steps; eauto.
  - eapply (assign_raw_steps N w k k); eauto.
  - by eapply assign_wptr_steps.
  - by eapply promote_steps.
  - by eapply clear_steps.
  - by eapply dtor_steps.
  - destruct (sptrs w !! k) as [[o|]|] eqn:E; try done. by eapply extend_steps.
  - by apply wnull_steps.
  - by apply wnew_steps.
  - by eapply wof_sptr_steps.
  - by eapply wcopy_steps.
  - by eapply wassign_steps.
  - unfold wptr_assign_sptr, steps. rewrite (sm_bind_eq _ _ _ _ _ (get_sptr_eq w k _ Hr)).
    by eapply wassign_raw_steps.
  - unfold steps. rewrite (sm_bind_eq _ _ _ _ _ (get_sptr_eq w k _ Hr)). by eapply wassign_raw_steps.
  - by eapply get_steps.
  - by eapply wdtor_steps.
Qed.

Lemma exec_all_steps p N w :
  winv N w -> N + 2 * zlen p < MAX_REFS ->
  exists w', exec_all p w = Some (tt, w') /\ winv (N + 2 * zlen p) w'.
Proof.
  revert N w. induction p as [|s p IH]; intros N w Hi HN.
  - exists w. split; [done|]. change (zlen (@nil stmt)) with 0. by rewrite Z.add_0_r.
  - rewrite zlen_cons in *. pose proof (zlen_nonneg p). simpl.
    destruct (legal s w) eqn:Hl.
    + destruct (exec_steps N s w Hi ltac:(lia) Hl) as ([] & w1 & E & Hi1).
      rewrite (sm_bind_eq _ _ _ _ _ E). destruct (IH _ w1 Hi1) as (w' & E' & Hi'); [lia|].
      exists w'. split; [done|]. by replace (N + 2 * (1 + zlen p)) with (N + 2 + 2 * zlen p) by lia.
    + destruct (IH N w Hi) as (w' & E' & Hi'); [lia|]. exists w'. split; [done|].
      destruct Hi' as [Hi' ?]. split; [|lia]. eapply inv_le; [exact Hi'|lia].
Qed.

Lemma empty_winv : winv 0 empty_world.
Proof.
  split; [|lia]. split; simpl.
  - intros c rc. by rewrite lookup_empty.
  - intros o r. by rewrite lookup_empty.
  - intros c rc o. by rewrite lookup_empty.
  - intros v wr. by rewrite lookup_empty.
  - intros o _. apply mcount_empty.
  - intros v _. apply mcount_empty.
  - intros a _. by rewrite !lookup_empty.
Qed.
End pointers.

(** ** What the invariant says of a program's state *)

(** The numbers of refbase.h: strong count, weak count and reference count
    agree with the pointers that exist. *)
Definition counts_agree (w : World) : Prop :=
  forall o c rc, objects (heap w) !! o = Some (Some c) -> counters (heap w) !! c = Some rc ->
    (atomicStrong_ rc = holders (sptrs w) o \/
     atomicStrong_ rc = INITIAL_PRIMARY_VALUE /\ holders (sptrs w) o = 0) /\
    atomicWeak_ rc = holders (sptrs w) o + nweak (heap w) c /\
    atomicRefCount_ rc = nweak (heap w) c + 1.

(** No variable dangles. *)
Definition no_dangling (w : World) : Prop :=
  forall k o, sptrs w !! k = Some (Some o) -> exists c rc,
    objects (heap w) !! o = Some (Some c) /\ counters (heap w) !! c = Some rc /\ callback_ rc = Some o.

Lemma winv_counts `{RefConfig} N w : winv N w -> counts_agree w.
Proof.
  intros [Hi HN] o c rc Ho Hc.
  destruct (inv_alive _ _ _ _ o _ Hi Ho) as (c' & rc' & E & Hc' & Hcb & [Ha Hr Hp Hst] & _).
  simplify_eq. rewrite Hcb in Hst. destruct Hst as (? & ? & Hst). split_and!; [|lia|done].
  destruct Hst as [(? & ? & ?)|[? _]]; [right; split; [done|lia]|left; lia].
Qed.

Lemma winv_no_dangling `{RefConfig} N w : winv N w -> no_dangling w.
Proof.
  intros [Hi HN] k o Hk. destruct (held_alive N _ _ _ o Hi) as [r Ho]; [by eapply held|].
  destruct (inv_alive _ _ _ _ o _ Hi Ho) as (c & rc & -> & Hc & Hcb & _). by exists c, rc.
Qed.
