(* ===== verification/RefProps.v ===== *)
(** * RefProps: the properties of reference counting

    What [sptr], [wptr] and [RefBase] promise to the programs that use them,
    with instances on concrete programs, and the behaviours found. *)

From S2P Require Import Prelude RefBase RefInv SmartPtr SmartInv.
From stdpp Require Import functions.
Open Scope Z_scope.

#[local] Instance none_unheld : Unheld := None.
#[local] Instance plain_platform : RefConfig := {| OHOS_PLATFORM := false; CanPromote := fun _ => true |}.

Lemma demo_can : can_promote.
Proof. intros E. discriminate E. Defined.

(** C2: in a build where promotion cannot be refused (without [OHOS_PLATFORM],
    where [CanPromote] is not called, or with a [CanPromote] that allows it), a
    program of less than 2^25 statements that reaches its objects through [sptr]
    and [wptr] variables never touches a deleted object or counter, whatever it
    copies, moves, promotes, assigns or drops; afterwards every counter holds
    the number of pointers that exist and no [sptr] dangles. *)
Theorem pointer_programs_are_safe `{RefConfig} (p : list stmt) :
  can_promote -> 2 * zlen p < MAX_REFS ->
  exists w, exec_all p empty_world = Some (tt, w) /\ counts_agree w /\ no_dangling w.
Proof.
  intros Hcan Hp. destruct (exec_all_steps Hcan p 0 empty_world) as (w & E & Hw); [by apply empty_winv|lia|].
  exists w. split_and!; [done|by eapply winv_counts|by eapply winv_no_dangling].
Qed.

Definition demo_program : list stmt :=
  [SMake 1; WOfSptr 1 1; SCopy 2 1; WCopy 2 1; SMoveAssign 1 2; SClear 1; SPromote 3 2; WNew 3;
   SPromote 4 3; SExtend 4; WEnd 1; SAssign 1 4; SAssignNull 4; SEnd 1; WAssign 2 3].

Lemma pointer_programs_are_safe_witness :
  exists w, exec_all demo_program empty_world = Some (tt, w) /\ counts_agree w /\ no_dangling w.
Proof. apply pointer_programs_are_safe; [apply demo_can|by vm_compute]. Defined.

(** All variables are null or out of scope. *)
Definition released_all (w : World) : Prop :=
  (forall k r, sptrs w !! k = Some r -> r = None) /\ (forall k r, wptrs w !! k = Some r -> r = None).

Lemma holders_none m x : (forall k r, m !! k = Some r -> r = None) -> holders m x = 0.
Proof. intros Hm. apply mcount_zero. intros k r Hk ->. by specialize (Hm k _ Hk). Qed.

Lemma winv_no_leak `{RefConfig} N w :
  winv N w -> released_all w ->
  objects (heap w) = ∅ /\ counters (heap w) = ∅ /\ weaks (heap w) = ∅.
Proof.
  intros [Hi HN] [Hs Hw].
  assert (weaks (heap w) = ∅) as Ew.
  { apply map_empty. intros v. destruct (weaks (heap w) !! v) as [wr|] eqn:E; [|done].
    destruct (inv_weaks _ _ _ _ Hi v wr E) as ([Hpos _] & _). rewrite holders_none in Hpos by done. lia. }
  assert (counters (heap w) = ∅) as Ec.
  { apply map_empty. intros c. destruct (counters (heap w) !! c) as [rc|] eqn:E; [|done].
    destruct (inv_counters _ _ _ _ Hi c rc E) as ([Ha Hr Hp Hst] & _).
    assert (nweak (heap w) c = 0) as Hn by (unfold nweak; rewrite Ew; apply mcount_empty).
    rewrite Hn in Hst. exfalso. destruct (callback_ rc) as [o|]; [|lia].
    rewrite (holders_none _ o Hs), Ha in Hst.
    destruct Hst as (_ & _ & [(_ & _ & [?|Hu])|[_ [?|[_ ?]]]]); try lia. discriminate Hu. }
  split_and!; try done. apply map_empty. intros o. destruct (objects (heap w) !! o) as [r|] eqn:E; [|done].
  destruct (inv_objects _ _ _ _ Hi o r E) as (_ & c & rc & _ & Hc & _). by rewrite Ec, lookup_empty in Hc.
Qed.

(** C5: where promotion cannot be refused (as in C2; a refused one leaks, see
    [refused_promotion_leaks]), once every pointer of a program of less than 2^25
    statements is null or out of scope, every object, counter and weak counter
    it created has been deleted. *)
Theorem pointer_programs_do_not_leak `{RefConfig} (p : list stmt) w :
  can_promote -> 2 * zlen p < MAX_REFS ->
  exec_all p empty_world = Some (tt, w) -> released_all w ->
  objects (heap w) = ∅ /\ counters (heap w) = ∅ /\ weaks (heap w) = ∅.
Proof.
  intros Hcan Hp E Hrel. destruct (exec_all_steps Hcan p 0 empty_world) as (w' & E' & Hw);
    [by apply empty_winv|lia|]. rewrite E in E'. simplify_eq. by eapply winv_no_leak.
Qed.

Definition demo_clean : list stmt :=
  [SMake 1; WOfSptr 1 1; SExtend 1; SEnd 1; WNew 2; SPromote 2 1; WEnd 1; SEnd 2; WEnd 2].

Lemma pointer_programs_do_not_leak_witness :
  exists w, exec_all demo_clean empty_world = Some (tt, w) /\ released_all w /\
  objects (heap w) = ∅ /\ counters (heap w) = ∅ /\ weaks (heap w) = ∅.
Proof.
  eexists. split; [vm_compute; reflexivity|]. split; [split; intros k r Hk; discriminate Hk|].
  eapply (pointer_programs_do_not_leak demo_clean); [apply demo_can|by vm_compute|by vm_compute|].
  split; intros k r Hk; discriminate Hk.
Defined.

(** giving up a strong reference deletes the object exactly when it was the
    last one, except that an object with extended life time stays as long as a
    weak counter watches it. *)
Theorem DecStrongRef_deletes_last `{RefConfig} N S W h o :
  inv N S W h -> N <= MAX_REFS -> 0 < S o ->
  exists h' c rc, DecStrongRef o h = Some (tt, h') /\ inv N (<[o := S o - 1]> S) W h' /\
    objects h !! o = Some (Some c) /\ counters h !! c = Some rc /\
    (objects h' = objects h \/ objects h' = delete o (objects h)) /\
    (objects h' !! o = None <-> S o = 1 /\ (lifetime_extended rc = false \/ nweak h c = 0)).
Proof.
  intros Hi HN HS. destruct (DecStrongRef_spec N S W h o Hi HN HS) as
    (h' & c & rc & E & Hi' & _ & Ho & Hc & Hyes & Hno).
  exists h', c, rc. split_and!; try done.
  - destruct (decide (S o = 1 /\ (lifetime_extended rc = false \/ nweak h c = 0))) as [Hl|Hl];
      [right; apply Hyes|left; apply Hno];
      (destruct (inv_counters _ _ _ _ Hi c rc Hc) as ([Ha _ _ _] & _));
      unfold last_reference; rewrite Ha, Z.add_0_r; done.
  - destruct (inv_counters _ _ _ _ Hi c rc Hc) as ([Ha _ _ _] & _).
    unfold last_reference in *. rewrite Ha, Z.add_0_r in *.
    destruct (decide (S o = 1 /\ (lifetime_extended rc = false \/ nweak h c = 0))) as [Hl|Hl].
    + rewrite (Hyes Hl), lookup_delete_eq. done.
    + rewrite (Hno Hl), Ho. done.
Qed.

(** One object held by two variables. *)
Definition two_holders : World :=
  match exec_all [SMake 1; SCopy 2 1] empty_world with Some (_, w) => w | None => empty_world end.

Lemma two_holders_inv : inv 4 (holders (sptrs two_holders)) (holders (wptrs two_holders)) (heap two_holders).
Proof.
  destruct (exec_all_steps demo_can [SMake 1; SCopy 2 1] 0 empty_world)
    as (w & E & [Hw _]); [apply empty_winv|by vm_compute|].
  unfold two_holders. by rewrite E.
Defined.

Lemma DecStrongRef_deletes_last_witness :
  let S := holders (sptrs two_holders) in let h := heap two_holders in
  exists h' c rc, DecStrongRef 1 h = Some (tt, h') /\ inv 4 (<[1 := S 1 - 1]> S) (holders (wptrs two_holders)) h' /\
    objects h !! 1 = Some (Some c) /\ counters h !! c = Some rc /\
    (objects h' = objects h \/ objects h' = delete 1 (objects h)) /\
    (objects h' !! 1 = None <-> S 1 = 1 /\ (lifetime_extended rc = false \/ nweak h c = 0)).
Proof. intros S h. apply (DecStrongRef_deletes_last 4 S); [apply two_holders_inv|by vm_compute..]. Defined.

(** C6: where promotion cannot be refused (as in C2) and with less than 2^26
    references ([winv]), promoting a weak pointer yields the object exactly when it is still alive, holding it from then on,
    and null otherwise. *)
Theorem promote_exact `{RefConfig} N w k v r :
  can_promote -> winv N w -> N + 2 < MAX_REFS -> sptrs w !! k = None -> wptrs w !! v = Some r ->
  exists w', promote v k w = Some (tt, w') /\ winv (N + 2) w' /\
    sptrs w' = <[k := r ≫= target (heap w)]> (sptrs w) /\
    (forall o, r ≫= target (heap w) = Some o ->
       is_Some (objects (heap w) !! o) /\ is_Some (objects (heap w') !! o)).
Proof.
  intros Hcan Hw HN Hk Hv. destruct (promote_spec Hcan N w k v r Hw HN Hk Hv) as (w' & E & Hw' & Es).
  exists w'. split; [done|]. split; [done|]. split; [done|]. intros o Ho.
  destruct Hw as [Hi ?], Hw' as [Hi' ?]. split.
  - destruct r as [r|]; [|done]. destruct (target_alive _ _ _ _ r o Hi) as [c ->];
      [by eapply held|done|by eexists].
  - destruct (held_alive _ _ _ _ o Hi') as [r' ->]; [|by eexists].
    apply (held _ k). by rewrite Es, lookup_insert_eq, Ho.
Qed.

(** A weak pointer whose object is held by one variable. *)
Definition watched_object : World :=
  match exec_all [SMake 1; WOfSptr 1 1] empty_world with Some (_, w) => w | None => empty_world end.

Lemma watched_object_inv : winv 4 watched_object.
Proof.
  destruct (exec_all_steps demo_can [SMake 1; WOfSptr 1 1] 0 empty_world)
    as (w & E & Hw); [apply empty_winv|by vm_compute|].
  unfold watched_object. by rewrite E.
Defined.

Lemma promote_exact_witness :
  let w := watched_object in
  exists w', promote 1 2 w = Some (tt, w') /\ winv 6 w' /\
    sptrs w' = <[2 := Some 3 ≫= target (heap w)]> (sptrs w) /\
    (forall o, Some 3 ≫= target (heap w) = Some o ->
       is_Some (objects (heap w) !! o) /\ is_Some (objects (heap w') !! o)).
Proof.
  intros w. apply (promote_exact 4 w 2 1 (Some 3)); [apply demo_can|apply watched_object_inv|by vm_compute..].
Defined.

(** ** Behaviours the modelling found *)

(** Promotion establishes the first strong reference without the call of
    [OnFirstStrongRef] that the header promises for it. *)
Example promote_skips_OnFirstStrongRef :
  (fun r => (sptrs r.2 !! 1, events (heap r.2))) <$> exec_all [WNew 1; SPromote 1 1] empty_world =
  Some (Some (Some 1), []).
Proof. by vm_compute. Qed.

(** When [CanPromote] refuses, [AttemptIncStrongRef] returns without giving its
    weak reference back, and the object is never deleted. *)
Definition refusing : RefConfig := {| OHOS_PLATFORM := true; CanPromote := fun _ => false |}.

Example refused_promotion_leaks :
  (fun r => (sptrs r.2, wptrs r.2, bool_decide (objects (heap r.2) = ∅))) <$>
    exec_all (H := refusing)
      [SMake 1; WOfSptr 1 1; SExtend 1; SClear 1; SPromote 2 1; WEnd 1; SEnd 1; SEnd 2] empty_world =
  Some (∅, ∅, false).
Proof. by vm_compute. Qed.
