(* ===== verification/Unicode.v ===== *)
(** * Conversions between UTF-8 and UTF-16 ([base/src/unicode_ex.cpp])

    A [char] buffer is the list of its bytes and a [char16_t] buffer the list
    of its code units. A pointer that only moves forward is the list of the
    cells from it on; the end pointer of the source is the end of that list.
    [None] is undefined behaviour: an access outside a buffer or the overflow
    of an [int]. A store goes through [mem_store], so that a result is a
    proof that the buffer was large enough. Whether a plain [char] is signed
    depends on the platform and is the parameter [char_signed]. *)

From S2P Require Import Prelude.

Class CharAbi := { char_signed : bool }.

(** ** Constants *)

Definition ONE_BYTE_UTF8 : Z := 0x80.
Definition TWO_BYTES_UTF8 : Z := 0x800.
Definition THREE_BYTES_UTF8 : Z := 0x10000.
Definition UNICODE_RESERVED_START : Z := 0xD800.
Definition UNICODE_RESERVED_END : Z := 0xDFFF.
Definition UNICODE_MAX_NUM : Z := 0x10FFFF.
Definition UTF8_OFFSET : Z := 6.
Definition UTF8_BYTE_MASK : Z := 0xBF.
Definition UTF8_BYTE_MARK : Z := 0x80.
Definition UTF8_FIRST_BYTE_MARK : list Z := [0; 0; 0xC0; 0xE0; 0xF0].

(** ** From UTF-16 to UTF-8 *)

(** [*--dstP = continuation byte; srcChar >>= 6] *)
Definition put_continuation (st : list Z * Z * Z) : option (list Z * Z * Z) :=
  let '(buf, dstP, srcChar) := st in
  buf' ← mem_store buf (dstP - 1) [u8 (Z.land (Z.lor srcChar UTF8_BYTE_MARK) UTF8_BYTE_MASK)];
  Some (buf', dstP - 1, Z.shiftr srcChar UTF8_OFFSET).

(** The buffer after the [bytes] bytes of [srcChar] are stored at [dstP]. *)
Definition Utf32CodePointToUtf8 (buf : list Z) (dstP srcChar bytes : Z) : option (list Z) :=
  let st := (buf, dstP + bytes, srcChar) in
  st ← (if 4 <=? bytes then put_continuation st else Some st);
  st ← (if 3 <=? bytes then put_continuation st else Some st);
  st ← (if 2 <=? bytes then put_continuation st else Some st);
  let '(buf, dstP, srcChar) := st in
  if 1 <=? bytes
  then mark ← znth UTF8_FIRST_BYTE_MARK bytes;
       mem_store buf (dstP - 1) [u8 (Z.lor srcChar mark)]
  else Some buf.

Definition Utf32CodePointUtf8Length (srcChar : Z) : Z :=
  if srcChar <? ONE_BYTE_UTF8 then 1
  else if srcChar <? TWO_BYTES_UTF8 then 2
  else if srcChar <? THREE_BYTES_UTF8 then
    if (srcChar <? UNICODE_RESERVED_START) || (UNICODE_RESERVED_END <? srcChar) then 3 else 0
  else if srcChar <=? UNICODE_MAX_NUM then 4
  else 0.

(** The tests [( *p & 0xFC00 ) == 0xD800] and [== 0xDC00]. *)
Definition is_high (u : Z) : bool := Z.land u 0xFC00 =? 0xD800.
Definition is_low (u : Z) : bool := Z.land u 0xFC00 =? 0xDC00.

Fixpoint Utf16ToUtf8Length_loop (str16 : list Z) (utf8Len : Z) : Z :=
  match str16 with
  | [] => utf8Len
  | c :: str16' =>
      let single :=
        let charLen := Utf32CodePointUtf8Length c in
        if INT_MAX - charLen <? utf8Len then -1
        else Utf16ToUtf8Length_loop str16' (utf8Len + charLen) in
      match str16' with
      | d :: str16'' =>
          if is_high c && is_low d then
            let charLen := 4 in
            if INT_MAX - charLen <? utf8Len then -1
            else Utf16ToUtf8Length_loop str16'' (utf8Len + charLen)
          else single
      | [] => single
      end
  end.

Definition Utf16ToUtf8Length (str16 : option (list Z)) : Z :=
  match str16 with
  | None => -1
  | Some s => if zlen s =? 0 then -1 else Utf16ToUtf8Length_loop s 0
  end.

(** [(c - 0xD800) << 10 | (d - 0xDC00)], plus 0x10000 *)
Definition join_surrogates (c d : Z) : Z :=
  Z.lor (Z.shiftl (c - 0xD800) 10) (d - 0xDC00) + 0x10000.

(** The loop of [StrncpyStr16ToStr8]; the result is the buffer and [cur]. *)
Fixpoint StrncpyStr16ToStr8_loop (curUtf16 buf : list Z) (cur str8Len : Z) : option (list Z * Z) :=
  match curUtf16 with
  | [] => Some (buf, cur)
  | c :: next =>
      let single :=
        let len := Utf32CodePointUtf8Length c in
        if str8Len <=? len then Some (buf, cur)
        else buf' ← Utf32CodePointToUtf8 buf cur c len;
             StrncpyStr16ToStr8_loop next buf' (cur + len) (str8Len - len) in
      match next with
      | d :: next' =>
          if is_high c && is_low d then
            let utf32 := join_surrogates c d in
            let len := Utf32CodePointUtf8Length utf32 in
            if str8Len <=? len then Some (buf, cur)
            else buf' ← Utf32CodePointToUtf8 buf cur utf32 len;
                 StrncpyStr16ToStr8_loop next' buf' (cur + len) (str8Len - len)
          else single
      | [] => single
      end
  end.

Definition StrncpyStr16ToStr8 (utf16Str utf8Str : list Z) (str8Len : Z) : option (list Z) :=
  '(buf, cur) ← StrncpyStr16ToStr8_loop utf16Str utf8Str 0 str8Len;
  mem_store buf cur [0].

(** [str8 = str8Temp] copies a C string: the cells before the first zero. *)
Fixpoint c_string (cells : list Z) : list Z :=
  match cells with
  | [] => []
  | c :: cells' => if c =? 0 then [] else c :: c_string cells'
  end.

Section conversions.
Context `{Libc}.

(** [calloc]: zeroed cells, or no memory *)
Definition calloc (n size : Z) : option (list Z) :=
  if n * size <=? heap_limit then Some (replicate (Z.to_nat n) 0) else None.

(** The outer option is undefined behaviour, the inner one [nullptr]. *)
Definition Char16ToChar8 (str16 : list Z) : option (option (list Z)) :=
  let utf8Len := Utf16ToUtf8Length (Some str16) in
  if (utf8Len <? 0) || (INT_MAX <=? utf8Len) then Some None
  else
    match calloc (utf8Len + 1) 1 with
    | None => Some None
    | Some str8 => Some <$> StrncpyStr16ToStr8 str16 str8 (utf8Len + 1)
    end.

(** The result flag and the new value of [str8]. *)
Definition String16ToString8 (str16 str8 : list Z) : option (bool * list Z) :=
  if zlen str16 <? 1 then Some (false, str8)
  else
    str8Temp ← Char16ToChar8 str16;
    match str8Temp with
    | None => Some (false, str8)
    | Some cells => Some (true, c_string cells)
    end.

(** ** From UTF-8 to UTF-16 *)

Context `{CharAbi}.

(** A cell read through a [char] pointer. *)
Definition char_of (b : Z) : Z := if char_signed then i8 b else b.

Definition Utf8CodePointLen (ch : Z) : Z :=
  Z.land (Z.shiftr 0xe5000000 (Z.land (Z.shiftr ch 3) 0x1e)) 3 + 1.

Definition Utf8ShiftAndMask (codePoint byte : Z) : Z :=
  Z.lor (u32 (Z.shiftl codePoint 6)) (Z.land 0x3F byte).

Definition Utf8ToUtf32CodePoint (src : list Z) (length : Z) : option Z :=
  if length =? 1 then
    b0 ← src !! 0%nat; Some (u32 (char_of b0))
  else if length =? 2 then
    b0 ← src !! 0%nat; b1 ← src !! 1%nat;
    Some (Utf8ShiftAndMask (Z.land b0 0x1f) b1)
  else if length =? 3 then
    b0 ← src !! 0%nat; b1 ← src !! 1%nat; b2 ← src !! 2%nat;
    Some (Utf8ShiftAndMask (Utf8ShiftAndMask (Z.land b0 0x0f) b1) b2)
  else if length =? 4 then
    b0 ← src !! 0%nat; b1 ← src !! 1%nat; b2 ← src !! 2%nat; b3 ← src !! 3%nat;
    Some (Utf8ShiftAndMask (Utf8ShiftAndMask (Utf8ShiftAndMask (Z.land b0 0x07) b1) b2) b3)
  else Some 0xffff.

(** [utf16len++] on an [int] *)
Definition int_succ (n : Z) : option Z := if n <? INT_MAX then Some (n + 1) else None.

(** The loop advances by at least one cell: the length of the text is enough
    fuel, and running out of it is undefined like the other [None]s. *)
Fixpoint Utf8ToUtf16Length_loop (fuel : nat) (str8 : list Z) (utf16len : Z) : option Z :=
  match str8, fuel with
  | [], _ => Some utf16len
  | _, O => None
  | b :: _, S fuel =>
      utf16len ← int_succ utf16len;
      let u8charlen := Utf8CodePointLen b in
      if zlen str8 <=? u8charlen - 1 then Some (-1)
      else
        codepoint ← Utf8ToUtf32CodePoint str8 u8charlen;
        utf16len ← (if 0xFFFF <? codepoint then int_succ utf16len else Some utf16len);
        Utf8ToUtf16Length_loop fuel (zdrop u8charlen str8) utf16len
  end.

Definition Utf8ToUtf16Length (str8 : list Z) : option Z :=
  Utf8ToUtf16Length_loop (length str8) str8 0.

(** The buffer and the final [u16cur]. The cells readable from [u8cur] are
    those of the string and its terminator. *)
Fixpoint Utf8ToUtf16_loop (fuel : nat) (u8cur u16str : list Z) (u16cur u16end : Z)
    : option (list Z * Z) :=
  match u8cur, fuel with
  | [], _ => Some (u16str, u16cur)
  | _, O => None
  | b :: _, S fuel =>
      if u16end <=? u16cur then Some (u16str, u16cur)
      else
        let len := Utf8CodePointLen b in
        codepoint ← Utf8ToUtf32CodePoint (u8cur ++ [0]) len;
        if codepoint <=? 0xFFFF then
          u16str ← mem_store u16str u16cur [u16 codepoint];
          Utf8ToUtf16_loop fuel (zdrop len u8cur) u16str (u16cur + 1) u16end
        else
          let codepoint := codepoint - 0x10000 in
          u16str ← mem_store u16str u16cur [u16 (Z.shiftr codepoint 10 + 0xD800)];
          if u16end <=? u16cur + 1 then Some (u16str, u16cur)
          else
            u16str ← mem_store u16str (u16cur + 1) [u16 (Z.land codepoint 0x3FF + 0xDC00)];
            Utf8ToUtf16_loop fuel (zdrop len u8cur) u16str (u16cur + 2) u16end
  end.

Definition Utf8ToUtf16 (utf8Str u16str : list Z) (u16len : Z) : option (list Z * Z) :=
  if u16len =? 0 then Some (u16str, 0)
  else Utf8ToUtf16_loop (length utf8Str) utf8Str u16str 0 u16len.

Definition StrncpyStr8ToStr16 (utf8Str u16str : list Z) (u16len : Z) : option (list Z) :=
  '(u16str, result) ← Utf8ToUtf16 utf8Str u16str (u16len - 1);
  mem_store u16str result [0].

Definition Char8ToChar16 (str8 : list Z) : option (option (list Z)) :=
  utf16Len ← Utf8ToUtf16Length str8;
  if (utf16Len <? 0) || (INT_MAX <=? utf16Len) then Some None
  else
    match calloc (utf16Len + 1) 2 with
    | None => Some None
    | Some str16 => Some <$> StrncpyStr8ToStr16 str8 str16 (utf16Len + 1)
    end.

Definition String8ToString16 (str8 str16 : list Z) : option (bool * list Z) :=
  if zlen str8 <? 1 then Some (false, str16)
  else
    str16Temp ← Char8ToChar16 str8;
    match str16Temp with
    | None => Some (false, str16)
    | Some cells => Some (true, c_string cells)
    end.

(** ** The interface of [base/src/string_ex.cpp] *)

Definition Str8ToStr16 (str : list Z) : option (list Z) :=
  '(ok, str16Value) ← String8ToString16 str [];
  Some (if (ok : bool) then str16Value else []).

Definition Str16ToStr8 (str16 : list Z) : option (list Z) :=
  '(ok, str8Value) ← String16ToString8 str16 [];
  Some (if (ok : bool) then str8Value else []).

Definition GetUtf16ToUtf8Length (str16 : list Z) : Z :=
  if zlen str16 =? 0 then -1 else Utf16ToUtf8Length (Some str16).

Definition CHAR16_TO_CHAR8_PARAM_INVALID : Z := -1.
Definition CHAR16_TO_CHAR8_EMPTY_STR : Z := -2.
Definition CHAR16_TO_CHAR8_INSUFFICIENT_BUFFER : Z := -3.

(** The overload of [Char16ToChar8] that fills the buffer of its caller: the
    result code and the buffer. *)
Definition Char16ToChar8_buffer (str16 : list Z) (buffer : option (list Z)) (bufferLen : Z)
    : option (Z * option (list Z)) :=
  match buffer with
  | None => Some (CHAR16_TO_CHAR8_PARAM_INVALID, buffer)
  | Some cells =>
      if bufferLen <=? 0 then Some (CHAR16_TO_CHAR8_PARAM_INVALID, buffer)
      else if zlen str16 =? 0 then Some (CHAR16_TO_CHAR8_EMPTY_STR, buffer)
      else
        let utf8Len := Utf16ToUtf8Length (Some str16) in
        if (utf8Len <? 0) || (INT_MAX <=? utf8Len) || (bufferLen <? utf8Len + 1)
        then Some (CHAR16_TO_CHAR8_INSUFFICIENT_BUFFER, buffer)
        else cells ← StrncpyStr16ToStr8 str16 cells (utf8Len + 1);
             Some (utf8Len + 1, Some cells)
  end.
End conversions.
