(* ===== verification/UnicodeSpec.v ===== *)
(** * What the conversions compute

    The encodings of RFC 3629 and RFC 2781 by arithmetic, the lenient decoder
    of UTF-16 the code implements, and the lemmas that relate the loops of
    [Unicode.v] to them. *)

From S2P Require Import Prelude Unicode.

(** ** Reference encodings *)

Definition is_surrogate (c : Z) : bool := (0xD800 <=? c) && (c <=? 0xDFFF).

(** A Unicode scalar value. *)
Definition is_scalar (c : Z) : bool :=
  (0 <=? c) && (c <=? 0x10FFFF) && negb (is_surrogate c).

(** The UTF-8 form of a scalar value; other numbers have none. *)
Definition utf8_enc (c : Z) : list Z :=
  if negb (is_scalar c) then []
  else if c <? 0x80 then [c]
  else if c <? 0x800 then [0xC0 + c / 64; 0x80 + c mod 64]
  else if c <? 0x10000 then [0xE0 + c / 4096; 0x80 + c / 64 mod 64; 0x80 + c mod 64]
  else [0xF0 + c / 262144; 0x80 + c / 4096 mod 64; 0x80 + c / 64 mod 64; 0x80 + c mod 64].

(** The UTF-16 form of a code point. *)
Definition utf16_enc (c : Z) : list Z :=
  if c <=? 0xFFFF then [c]
  else [u16 ((c - 0x10000) / 1024 + 0xD800); (c - 0x10000) mod 1024 + 0xDC00].

Definition high_surrogate (u : Z) : bool := (0xD800 <=? u) && (u <=? 0xDBFF).
Definition low_surrogate (u : Z) : bool := (0xDC00 <=? u) && (u <=? 0xDFFF).

(** The code points of a sequence of units; a surrogate without its partner
    stands for itself. *)
Fixpoint utf16_dec (units : list Z) : list Z :=
  match units with
  | [] => []
  | c :: rest =>
      match rest with
      | d :: rest' =>
          if high_surrogate c && low_surrogate d
          then (c - 0xD800) * 1024 + (d - 0xDC00) + 0x10000 :: utf16_dec rest'
          else c :: utf16_dec rest
      | [] => c :: utf16_dec rest
      end
  end.

(** The UTF-8 text of as many code points as fit in [n] cells with the
    terminator; no code point is cut. *)
Fixpoint fit (n : Z) (cs : list Z) : list Z :=
  match cs with
  | [] => []
  | c :: cs => if n <=? zlen (utf8_enc c) then [] else utf8_enc c ++ fit (n - zlen (utf8_enc c)) cs
  end.

Definition utf8_text (cs : list Z) : list Z := concat (utf8_enc <$> cs).
Definition utf16_text (cs : list Z) : list Z := concat (utf16_enc <$> cs).

Definition is_unit (u : Z) : Prop := 0 <= u < 65536.
#[export] Instance is_unit_dec u : Decision (is_unit u).
Proof. unfold is_unit. apply _. Defined.

(** ** Bits and arithmetic *)

Definition below (n : nat) (P : Z -> bool) : bool := forallb (fun i => P (Z.of_nat i)) (seq 0 n).

Lemma below_spec n P z : below n P = true -> 0 <= z < Z.of_nat n -> P z = true.
Proof.
  intros H Hz. unfold below in H. rewrite forallb_forall in H.
  specialize (H (Z.to_nat z)). rewrite Z2Nat.id in H by lia. apply H.
  apply in_seq. lia.
Qed.

(** [below_bit n z] proves a boolean statement on [z] by trying [0 <= z < n]. *)
Ltac below_eq n z :=
  match goal with |- ?l = ?r =>
    apply Z.eqb_eq;
    let P := eval pattern z in (Z.eqb l r) in
    match P with ?F _ => apply (below_spec n F z); [vm_compute; reflexivity|lia] end
  end.

(** One continuation byte. *)
Lemma continuation_byte c :
  0 <= c -> u8 (Z.land (Z.lor c UTF8_BYTE_MARK) UTF8_BYTE_MASK) = 0x80 + c mod 64.
Proof.
  intros Hc. unfold UTF8_BYTE_MARK, UTF8_BYTE_MASK.
  assert (Z.land (Z.lor c 0x80) 0xBF = Z.lor (Z.land (c mod 256) 0xBF) 0x80) as ->.
  { rewrite Z.land_lor_distr_l. change (Z.land 0x80 0xBF) with 0x80. f_equal.
    change 256 with (2 ^ 8). rewrite <- land_ones_mod by lia.
    by rewrite <- Z.land_assoc. }
  replace (c mod 64) with ((c mod 256) mod 64) by (apply Z.mod_mod_divide; by exists 4).
  pose proof (Z.mod_pos_bound c 256 ltac:(lia)) as Hr.
  revert Hr. generalize (c mod 256). intros r Hr. below_eq 256%nat r.
Qed.

Lemma land_FC00 u : is_unit u -> Z.land u 0xFC00 = u / 1024 * 1024.
Proof.
  intros Hu. change 0xFC00 with (Z.shiftl (2 ^ 6 - 1) 10).
  pose proof (Z.mod_pos_bound u 1024 ltac:(lia)) as Hr.
  replace u with (Z.lor (Z.shiftl (u / 1024) 10) (u mod 1024)) at 1
    by (rewrite lor_shift by lia; pose proof (Z.div_mod u 1024); lia).
  rewrite Z.land_lor_distr_l, <- Z.shiftl_land, land_ones_mod by lia.
  rewrite (Z.mod_small (u / 1024))
    by (unfold is_unit in Hu; split; [apply Z.div_pos|apply Z.div_lt_upper_bound]; lia).
  assert (Z.land (u mod 1024) (Z.shiftl (2 ^ 6 - 1) 10) = 0) as ->.
  { revert Hr. generalize (u mod 1024). intros r Hr. below_eq 1024%nat r. }
  by rewrite Z.lor_0_r, Z.shiftl_mul_pow2 by lia.
Qed.

Lemma is_high_spec u : is_unit u -> is_high u = high_surrogate u.
Proof.
  intros Hu. unfold is_high, high_surrogate. rewrite land_FC00 by done.
  unfold is_unit in Hu. pose proof (Z.div_mod u 1024 ltac:(lia)).
  pose proof (Z.mod_pos_bound u 1024 ltac:(lia)). repeat case_bool.
Qed.

Lemma is_low_spec u : is_unit u -> is_low u = low_surrogate u.
Proof.
  intros Hu. unfold is_low, low_surrogate. rewrite land_FC00 by done.
  unfold is_unit in Hu. pose proof (Z.div_mod u 1024 ltac:(lia)).
  pose proof (Z.mod_pos_bound u 1024 ltac:(lia)). repeat case_bool.
Qed.

Lemma surrogates_bound c d :
  high_surrogate c && low_surrogate d = true ->
  0xD800 <= c <= 0xDBFF /\ 0xDC00 <= d <= 0xDFFF.
Proof. unfold high_surrogate, low_surrogate. intros ?. zb. lia. Qed.

Lemma join_surrogates_spec c d :
  high_surrogate c && low_surrogate d = true ->
  join_surrogates c d = (c - 0xD800) * 1024 + (d - 0xDC00) + 0x10000.
Proof.
  intros [Hc Hd]%surrogates_bound. unfold join_surrogates. by rewrite lor_shift by lia.
Qed.

(** ** The encoder of one code point *)

Lemma Utf32CodePointUtf8Length_spec c : 0 <= c -> Utf32CodePointUtf8Length c = zlen (utf8_enc c).
Proof.
  intros Hc. unfold Utf32CodePointUtf8Length, utf8_enc, is_scalar, is_surrogate,
    ONE_BYTE_UTF8, TWO_BYTES_UTF8, THREE_BYTES_UTF8, UNICODE_RESERVED_START,
    UNICODE_RESERVED_END, UNICODE_MAX_NUM.
  repeat case_bool.
Qed.

Lemma utf8_enc_zlen c : 0 <= zlen (utf8_enc c) <= 4.
Proof. unfold utf8_enc. repeat case_match; cbn -[Z.add Z.div Z.modulo]; unfold zlen; simpl length; lia. Qed.

Lemma mem_store_mid {A} (pre old post bs buf : list A) i :
  buf = pre ++ old ++ post -> zlen pre = i -> zlen old = zlen bs ->
  mem_store buf i bs = Some (pre ++ bs ++ post).
Proof.
  intros -> <- Hl. pose proof (zlen_nonneg pre). pose proof (zlen_nonneg bs). pose proof (zlen_nonneg post).
  rewrite mem_store_ok; [|lia|rewrite !zlen_app; lia].
  rewrite ztake_app_exact, <- Hl, (app_assoc pre old post), <- zlen_app, zdrop_app_exact. done.
Qed.

Lemma put_continuation_spec pre x post buf i c :
  buf = pre ++ [x] ++ post -> zlen pre = i - 1 -> 0 <= c ->
  put_continuation (buf, i, c) = Some (pre ++ [0x80 + c mod 64] ++ post, i - 1, c / 64).
Proof.
  intros -> Hi Hc. unfold put_continuation. rewrite continuation_byte by done.
  rewrite (mem_store_mid pre [x] post) by done. simpl. unfold UTF8_OFFSET.
  by rewrite Z.shiftr_div_pow2 by lia.
Qed.

(** The last store of [Utf32CodePointToUtf8]. *)
Lemma put_lead_spec (pre post buf : list Z) x i v r :
  buf = pre ++ [x] ++ post -> zlen pre = i - 1 -> v = r ->
  mem_store buf (i - 1) [v] = Some (pre ++ [r] ++ post).
Proof. intros -> Hi ->. by rewrite (mem_store_mid pre [x] post). Qed.

(** [split_mid] names the cells of a block of known length. *)
Ltac split_mid mid H :=
  repeat (let x := fresh "x" in destruct mid as [|x mid]; autorewrite with zlist in H;
          [try (exfalso; lia)|try (exfalso; pose proof (zlen_nonneg mid); lia)]).

Ltac app_assoc_eq := rewrite <- ?app_assoc; reflexivity.
Ltac zlen_eq := autorewrite with zlist; lia.

Lemma encode_2 pre x y post c r :
  0 <= c -> u8 (Z.lor (c / 64) 0xC0) = r ->
  Utf32CodePointToUtf8 (pre ++ [x; y] ++ post) (zlen pre) c 2 =
  Some (pre ++ [r; 0x80 + c mod 64] ++ post).
Proof.
  intros Hc Hr. unfold Utf32CodePointToUtf8. cbn [Z.leb Z.compare Pos.compare Pos.compare_cont].
  opt. rewrite (put_continuation_spec (pre ++ [x]) y post) by (app_assoc_eq || zlen_eq || done).
  opt. change (znth UTF8_FIRST_BYTE_MARK 2) with (Some 0xC0). opt.
  rewrite (put_lead_spec pre ([0x80 + c mod 64] ++ post) _ x _ _ r);
    [app_assoc_eq|app_assoc_eq|zlen_eq|done].
Qed.

Lemma encode_3 pre x y z post c r :
  0 <= c -> u8 (Z.lor (c / 4096) 0xE0) = r ->
  Utf32CodePointToUtf8 (pre ++ [x; y; z] ++ post) (zlen pre) c 3 =
  Some (pre ++ [r; 0x80 + c / 64 mod 64; 0x80 + c mod 64] ++ post).
Proof.
  intros Hc Hr. unfold Utf32CodePointToUtf8. cbn [Z.leb Z.compare Pos.compare Pos.compare_cont].
  opt. rewrite (put_continuation_spec (pre ++ [x; y]) z post) by (app_assoc_eq || zlen_eq || done).
  opt. rewrite (put_continuation_spec (pre ++ [x]) y ([0x80 + c mod 64] ++ post))
    by (app_assoc_eq || zlen_eq || (apply Z.div_pos; lia)).
  opt. change (znth UTF8_FIRST_BYTE_MARK 3) with (Some 0xE0). opt.
  rewrite (put_lead_spec pre ([0x80 + c / 64 mod 64] ++ [0x80 + c mod 64] ++ post) _ x _ _ r);
    [app_assoc_eq|app_assoc_eq|zlen_eq|].
  rewrite Z.div_div by lia. done.
Qed.

Lemma encode_4 pre x y z w post c r :
  0 <= c -> u8 (Z.lor (c / 262144) 0xF0) = r ->
  Utf32CodePointToUtf8 (pre ++ [x; y; z; w] ++ post) (zlen pre) c 4 =
  Some (pre ++ [r; 0x80 + c / 4096 mod 64; 0x80 + c / 64 mod 64; 0x80 + c mod 64] ++ post).
Proof.
  intros Hc Hr. unfold Utf32CodePointToUtf8. cbn [Z.leb Z.compare Pos.compare Pos.compare_cont].
  opt. rewrite (put_continuation_spec (pre ++ [x; y; z]) w post) by (app_assoc_eq || zlen_eq || done).
  opt. rewrite (put_continuation_spec (pre ++ [x; y]) z ([0x80 + c mod 64] ++ post))
    by (app_assoc_eq || zlen_eq || (apply Z.div_pos; lia)).
  opt. rewrite (put_continuation_spec (pre ++ [x]) y ([0x80 + c / 64 mod 64] ++ [0x80 + c mod 64] ++ post))
    by (app_assoc_eq || zlen_eq || (apply Z.div_pos; [apply Z.div_pos|]; lia)).
  rewrite !Z.div_div by lia. change (64 * 64 * 64) with 262144. change (64 * 64) with 4096.
  opt. change (znth UTF8_FIRST_BYTE_MARK 4) with (Some 0xF0). opt.
  rewrite (put_lead_spec pre
    ([0x80 + c / 4096 mod 64] ++ [0x80 + c / 64 mod 64] ++ [0x80 + c mod 64] ++ post) _ x _ _ r);
    [app_assoc_eq|app_assoc_eq|zlen_eq|done].
Qed.

Lemma Utf32CodePointToUtf8_spec pre mid post c :
  0 <= c -> zlen mid = zlen (utf8_enc c) ->
  Utf32CodePointToUtf8 (pre ++ mid ++ post) (zlen pre) c (zlen (utf8_enc c)) =
  Some (pre ++ utf8_enc c ++ post).
Proof.
  intros Hc. unfold utf8_enc, is_scalar, is_surrogate.
  destruct (Z.leb_spec 0 c); [|lia].
  destruct (Z.leb_spec c 0x10FFFF); simpl; [|destruct mid; done].
  destruct (_ && _); simpl; [destruct mid; done|].
  destruct (Z.ltb_spec c 0x80); [|destruct (Z.ltb_spec c 0x800); [|destruct (Z.ltb_spec c 0x10000)]];
    intros Hm; split_mid mid Hm; autorewrite with zlist.
  - unfold Utf32CodePointToUtf8. simpl. opt. rewrite (put_lead_spec pre post _ x _ _ c);
      [done|done|lia|].
    rewrite Z.lor_0_r. apply wrapU_small. lia.
  - apply encode_2; [done|]. pose proof (Z.div_lt_upper_bound c 64 32). pose proof (Z.div_pos c 64).
    assert (0 <= c / 64 < 32) as Hr by lia. revert Hr. generalize (c / 64). intros r Hr.
    below_eq 32%nat r.
  - apply encode_3; [done|]. pose proof (Z.div_lt_upper_bound c 4096 16). pose proof (Z.div_pos c 4096).
    assert (0 <= c / 4096 < 16) as Hr by lia. revert Hr. generalize (c / 4096). intros r Hr.
    below_eq 16%nat r.
  - apply encode_4; [done|]. pose proof (Z.div_lt_upper_bound c 262144 8). pose proof (Z.div_pos c 262144).
    assert (0 <= c / 262144 < 8) as Hr by lia. revert Hr. generalize (c / 262144). intros r Hr.
    below_eq 8%nat r.
Qed.

(** ** Copying a whole string *)

(** Induction along the pairs of surrogates. *)
Lemma units_ind (P : list Z -> Prop) :
  P [] -> (forall c, is_unit c -> P [c]) ->
  (forall c d l, is_unit c -> is_unit d -> Forall is_unit l -> P l -> P (d :: l) -> P (c :: d :: l)) ->
  forall l, Forall is_unit l -> P l.
Proof.
  intros H0 H1 H2 l Hl. enough (P l /\ forall c, is_unit c -> P (c :: l)) by naive_solver.
  induction Hl as [|d l Hd Hl [IH1 IH2]]; split; auto.
Qed.

Lemma utf16_dec_nonneg units : Forall is_unit units -> Forall (fun c => 0 <= c) (utf16_dec units).
Proof.
  revert units. apply units_ind; [constructor|intros c Hc|intros c d l Hc Hd Hl IHl IHd].
  - repeat constructor. by destruct Hc.
  - cbn [utf16_dec]. destruct (high_surrogate c && low_surrogate d) eqn:E.
    + apply surrogates_bound in E. constructor; [lia|done].
    + constructor; [by destruct Hc|done].
Qed.

Lemma fit_cons n c cs :
  fit n (c :: cs) = if n <=? zlen (utf8_enc c) then [] else utf8_enc c ++ fit (n - zlen (utf8_enc c)) cs.
Proof. done. Qed.

(** One iteration: the character [c] is stored and the loop goes on. *)
Lemma copy_step (loop : list Z -> Z -> Z -> option (list Z * Z)) pre rest n c cs :
  0 <= c -> 1 <= n <= zlen rest ->
  (forall pre rest n, 1 <= n <= zlen rest ->
    loop (pre ++ rest) (zlen pre) n =
    Some (pre ++ fit n cs ++ zdrop (zlen (fit n cs)) rest, zlen pre + zlen (fit n cs))) ->
  (let len := Utf32CodePointUtf8Length c in
   if n <=? len then Some (pre ++ rest, zlen pre)
   else buf' ← Utf32CodePointToUtf8 (pre ++ rest) (zlen pre) c len;
        loop buf' (zlen pre + len) (n - len)) =
  Some (pre ++ fit n (c :: cs) ++ zdrop (zlen (fit n (c :: cs))) rest, zlen pre + zlen (fit n (c :: cs))).
Proof.
  intros Hc Hn IH. cbv zeta. rewrite Utf32CodePointUtf8Length_spec, fit_cons by done.
  pose proof (utf8_enc_zlen c) as Hl.
  destruct (Z.leb_spec n (zlen (utf8_enc c))) as [Hle|Hlt].
  - rewrite zlen_nil, Z.add_0_r, zdrop_0 by lia. done.
  - rewrite <- (ztake_drop (zlen (utf8_enc c)) rest) at 1.
    rewrite Utf32CodePointToUtf8_spec by (rewrite ?zlen_take; lia). opt.
    rewrite <- zlen_app, app_assoc, IH by (rewrite zlen_drop; lia).
    rewrite !zlen_app, zdrop_zdrop, Z.add_assoc by (lia || apply zlen_nonneg).
    by rewrite <- !app_assoc.
Qed.

Lemma StrncpyStr16ToStr8_loop_spec units : Forall is_unit units ->
  forall pre rest n, 1 <= n <= zlen rest ->
  StrncpyStr16ToStr8_loop units (pre ++ rest) (zlen pre) n =
  Some (pre ++ fit n (utf16_dec units) ++ zdrop (zlen (fit n (utf16_dec units))) rest,
        zlen pre + zlen (fit n (utf16_dec units))).
Proof.
  intros Hu. pattern units. revert units Hu. apply units_ind; [|intros c Hc|intros c d l Hc Hd Hl IHl IHd]; intros pre rest n Hn.
  - cbn. by rewrite zlen_nil, Z.add_0_r, zdrop_0 by lia.
  - apply (copy_step (StrncpyStr16ToStr8_loop []) pre rest n c []); [unfold is_unit in Hc; lia|done|].
    clear. intros pre rest n Hn. cbn. by rewrite zlen_nil, Z.add_0_r, zdrop_0 by lia.
  - cbn [StrncpyStr16ToStr8_loop utf16_dec]. rewrite is_high_spec, is_low_spec by done.
    destruct (high_surrogate c && low_surrogate d) eqn:E.
    + rewrite join_surrogates_spec by done. apply surrogates_bound in E.
      apply (copy_step (StrncpyStr16ToStr8_loop l)); [lia|done..].
    + apply (copy_step (StrncpyStr16ToStr8_loop (d :: l))); [unfold is_unit in Hc; lia|done..].
Qed.

(** ** Lengths and terminators *)

Lemma utf8_text_cons c cs : utf8_text (c :: cs) = utf8_enc c ++ utf8_text cs.
Proof. done. Qed.

(** One iteration of the length loop. *)
Lemma length_step (loop : Z -> Z) charLen text acc :
  0 <= acc <= INT_MAX -> 0 <= charLen -> 0 <= text ->
  (forall acc, 0 <= acc <= INT_MAX ->
    loop acc = if acc + text <=? INT_MAX then acc + text else -1) ->
  (if INT_MAX - charLen <? acc then -1 else loop (acc + charLen)) =
  if acc + (charLen + text) <=? INT_MAX then acc + (charLen + text) else -1.
Proof.
  intros Ha Hc Ht IH. destruct (Z.ltb_spec (INT_MAX - charLen) acc).
  - destruct (Z.leb_spec (acc + (charLen + text)) INT_MAX); lia.
  - rewrite IH by lia. by rewrite Z.add_assoc.
Qed.

Lemma utf8_enc_pair c d :
  high_surrogate c && low_surrogate d = true ->
  zlen (utf8_enc ((c - 0xD800) * 1024 + (d - 0xDC00) + 0x10000)) = 4.
Proof.
  intros E%surrogates_bound. unfold utf8_enc, is_scalar, is_surrogate. repeat case_bool.
Qed.

Lemma Utf16ToUtf8Length_loop_spec units : Forall is_unit units ->
  forall acc, 0 <= acc <= INT_MAX ->
  Utf16ToUtf8Length_loop units acc =
  let n := acc + zlen (utf8_text (utf16_dec units)) in if n <=? INT_MAX then n else -1.
Proof.
  cbv zeta. intros Hu. pattern units. revert units Hu.
  apply units_ind; [|intros c Hc|intros c d l Hc Hd Hl IHl IHd]; intros acc Ha.
  - cbn. rewrite zlen_nil, Z.add_0_r. destruct (Z.leb_spec acc INT_MAX); lia.
  - cbn [Utf16ToUtf8Length_loop utf16_dec]. unfold is_unit in Hc.
    rewrite Utf32CodePointUtf8Length_spec, utf8_text_cons, zlen_app by lia.
    apply (length_step (Utf16ToUtf8Length_loop [])); [done|apply zlen_nonneg..|].
    clear. intros acc Ha. cbn. rewrite zlen_nil, Z.add_0_r. destruct (Z.leb_spec acc INT_MAX); lia.
  - cbn [Utf16ToUtf8Length_loop utf16_dec]. rewrite is_high_spec, is_low_spec by done.
    destruct (high_surrogate c && low_surrogate d) eqn:E; unfold is_unit in Hc.
    + rewrite utf8_text_cons, zlen_app, utf8_enc_pair by done.
      apply (length_step (Utf16ToUtf8Length_loop l)); [done|lia|apply zlen_nonneg|done].
    + rewrite Utf32CodePointUtf8Length_spec, utf8_text_cons, zlen_app by lia.
      apply (length_step (Utf16ToUtf8Length_loop (d :: l))); [done|apply zlen_nonneg..|done].
Qed.

Lemma fit_all n cs : zlen (utf8_text cs) < n -> fit n cs = utf8_text cs.
Proof.
  revert n. induction cs as [|c cs IH]; intros n Hn; [done|].
  rewrite fit_cons, utf8_text_cons in *. rewrite zlen_app in Hn.
  pose proof (zlen_nonneg (utf8_text cs)).
  destruct (Z.leb_spec n (zlen (utf8_enc c))); [lia|]. rewrite IH by lia. done.
Qed.

(** What fits is the text of a prefix, shorter than the space. *)
Lemma fit_prefix n cs : 1 <= n ->
  exists cs1 cs2, cs = cs1 ++ cs2 /\ fit n cs = utf8_text cs1 /\ zlen (fit n cs) < n.
Proof.
  revert n. induction cs as [|c cs IH]; intros n Hn; [exists [], []; cbn; rewrite zlen_nil; auto with lia|].
  rewrite fit_cons. destruct (Z.leb_spec n (zlen (utf8_enc c))).
  - exists [], (c :: cs). rewrite zlen_nil. auto with lia.
  - destruct (IH (n - zlen (utf8_enc c))) as (cs1 & cs2 & -> & E & Hl); [lia|].
    exists (c :: cs1), cs2. rewrite zlen_app, E, utf8_text_cons in *. split_and!; [done..|lia].
Qed.

Lemma c_string_app l k : c_string (l ++ 0 :: k) = c_string l.
Proof. induction l as [|c l IH]; [done|]. cbn. by rewrite IH. Qed.

Lemma c_string_id l : Forall (fun c => c <> 0) l -> c_string l = l.
Proof.
  induction 1 as [|c l Hc Hl IH]; [done|]. cbn. destruct (Z.eqb_spec c 0); [done|]. by rewrite IH.
Qed.

Lemma StrncpyStr16ToStr8_spec units buf n :
  Forall is_unit units -> 1 <= n <= zlen buf ->
  let out := fit n (utf16_dec units) in
  StrncpyStr16ToStr8 units buf n = Some (out ++ 0 :: zdrop (zlen out + 1) buf).
Proof.
  intros Hu Hn out. unfold StrncpyStr16ToStr8.
  pose proof (StrncpyStr16ToStr8_loop_spec units Hu [] buf n Hn) as E.
  rewrite zlen_nil in E. simpl app in E. rewrite E. opt. fold out.
  destruct (fit_prefix n (utf16_dec units)) as (_ & _ & _ & _ & Hl); [lia|]. fold out in Hl.
  pose proof (zlen_nonneg out).
  rewrite (mem_store_mid out (ztake 1 (zdrop (zlen out) buf)) (zdrop 1 (zdrop (zlen out) buf))).
  - rewrite zdrop_zdrop by lia. done.
  - by rewrite ztake_drop.
  - lia.
  - rewrite zlen_take; [done|]. rewrite zlen_drop; lia.
Qed.

Section string16.
Context `{Libc}.

Lemma calloc_spec n size : 0 <= n ->
  calloc n size = None \/ (n * size <= heap_limit /\ exists cells, calloc n size = Some cells /\ zlen cells = n).
Proof.
  intros. unfold calloc. destruct (Z.leb_spec (n * size) heap_limit); [right|by left].
  split; [done|]. eexists. split; [done|]. unfold zlen. rewrite length_replicate. lia.
Qed.

(** The outcome of a conversion whose text has [n] cells of [size] bytes. *)
Definition converted (size : Z) (text old : list Z) : bool * list Z :=
  if (zlen text <? INT_MAX) && ((zlen text + 1) * size <=? heap_limit)
  then (true, c_string text) else (false, old).

Lemma String16ToString8_eq units old :
  Forall is_unit units -> units <> [] ->
  String16ToString8 units old = Some (converted 1 (utf8_text (utf16_dec units)) old).
Proof.
  intros Hu Hne. unfold String16ToString8, Char16ToChar8, Utf16ToUtf8Length, converted.
  assert (1 <= zlen units).
  { destruct units; [done|]. rewrite zlen_cons. pose proof (zlen_nonneg units). lia. }
  destruct (Z.ltb_spec (zlen units) 1), (Z.eqb_spec (zlen units) 0); try lia.
  set (text := utf8_text (utf16_dec units)). pose proof (zlen_nonneg text).
  rewrite Utf16ToUtf8Length_loop_spec by (done || (unfold INT_MAX; lia)). cbv zeta. fold text.
  rewrite Z.add_0_l. destruct (Z.ltb_spec (zlen text) INT_MAX).
  2: { destruct (Z.leb_spec (zlen text) INT_MAX); [|done].
       destruct (Z.ltb_spec (zlen text) 0), (Z.leb_spec INT_MAX (zlen text)); try lia. done. }
  destruct (Z.leb_spec (zlen text) INT_MAX); [|lia].
  destruct (Z.ltb_spec (zlen text) 0), (Z.leb_spec INT_MAX (zlen text)); try lia. cbn [orb andb].
  unfold calloc. destruct (Z.leb_spec ((zlen text + 1) * 1) heap_limit); [|done]. opt.
  rewrite StrncpyStr16ToStr8_spec.
  - cbn [fmap option_fmap option_map]. opt. rewrite fit_all by (fold text; lia). fold text. by rewrite c_string_app.
  - done.
  - unfold zlen at 3. rewrite length_replicate. lia.
Qed.
End string16.
