(* ===== verification/UnicodeDec.v ===== *)
(** * From UTF-8 to UTF-16: the reference decoder and the loops

    The decoder cuts the text by its lead bytes and takes the payload bits as
    they come: like the code, it accepts overlong forms, stray continuation
    bytes and numbers that are not scalar values. Only a text that ends
    inside a sequence is refused. *)

From S2P Require Import Prelude Unicode UnicodeSpec.

Section decoder.
Context `{CharAbi}.

(** The length of the sequence a byte starts. *)
Definition lead_len (b : Z) : Z :=
  if b <? 0xC0 then 1 else if b <? 0xE0 then 2 else if b <? 0xF0 then 3 else 4.

(** The number a sequence of bytes stands for. *)
Definition cp_value (bs : list Z) : Z :=
  match bs with
  | [b0] => u32 (char_of b0)
  | [b0; b1] => b0 mod 32 * 64 + b1 mod 64
  | [b0; b1; b2] => (b0 mod 16 * 64 + b1 mod 64) * 64 + b2 mod 64
  | [b0; b1; b2; b3] => ((b0 mod 8 * 64 + b1 mod 64) * 64 + b2 mod 64) * 64 + b3 mod 64
  | _ => 0xFFFF
  end.

Fixpoint utf8_dec (fuel : nat) (s : list Z) : option (list Z) :=
  match s, fuel with
  | [], _ => Some []
  | _, O => None
  | b :: _, S fuel =>
      if zlen s <? lead_len b then None
      else cs ← utf8_dec fuel (zdrop (lead_len b) s);
           Some (cp_value (ztake (lead_len b) s) :: cs)
  end.

(** ** One sequence *)

Lemma Utf8CodePointLen_spec b : is_byte b -> Utf8CodePointLen b = lead_len b.
Proof. intros Hb. unfold is_byte in Hb. below_eq 256%nat b. Qed.

Lemma lead_len_range b : 1 <= lead_len b <= 4.
Proof. unfold lead_len. repeat case_bool. Qed.

Lemma Utf8ShiftAndMask_spec cp b :
  0 <= cp < 2 ^ 26 -> Utf8ShiftAndMask cp b = cp * 64 + b mod 64.
Proof.
  intros Hc. unfold Utf8ShiftAndMask, u32. rewrite Z.land_comm.
  change 0x3F with (2 ^ 6 - 1). rewrite land_ones_mod by lia.
  rewrite wrapU_small by (rewrite Z.shiftl_mul_pow2 by lia; lia).
  rewrite lor_shift by (try lia; by apply Z.mod_pos_bound). done.
Qed.

Lemma land_mask b k n m : 0 <= k -> n = 2 ^ k -> m = n - 1 -> Z.land b m = b mod n.
Proof. intros ? -> ->. by apply land_ones_mod. Qed.

Lemma Utf8ToUtf32CodePoint_spec s k b l :
  s = b :: l -> lead_len b <= zlen s ->
  Utf8ToUtf32CodePoint (s ++ k) (lead_len b) = Some (cp_value (ztake (lead_len b) s)).
Proof.
  intros -> Hl. unfold Utf8ToUtf32CodePoint.
  pose proof (Z.mod_pos_bound b 32 ltac:(lia)). pose proof (Z.mod_pos_bound b 16 ltac:(lia)).
  pose proof (Z.mod_pos_bound b 8 ltac:(lia)).
  pose proof (fun x => Z.mod_pos_bound x 64 ltac:(lia)) as H64.
  revert Hl. unfold lead_len. destruct (b <? 0xC0); [|destruct (b <? 0xE0); [|destruct (b <? 0xF0)]]; intros Hl.
  - reflexivity.
  - destruct l as [|b1 l]; [rewrite zlen_cons, zlen_nil in Hl; lia|]. cbn -[Z.land Z.modulo Z.mul Z.add].
    rewrite (land_mask b 5 32), Utf8ShiftAndMask_spec by lia. reflexivity.
  - destruct l as [|b1 [|b2 l]]; [rewrite ?zlen_cons, zlen_nil in Hl; lia..|].
    cbn -[Z.land Z.modulo Z.mul Z.add]. pose proof (H64 b1).
    rewrite (land_mask b 4 16), !Utf8ShiftAndMask_spec by (try lia; rewrite Utf8ShiftAndMask_spec; lia). reflexivity.
  - destruct l as [|b1 [|b2 [|b3 l]]]; [rewrite ?zlen_cons, zlen_nil in Hl; lia..|].
    cbn -[Z.land Z.modulo Z.mul Z.add]. pose proof (H64 b1). pose proof (H64 b2).
    rewrite (land_mask b 3 8) by lia.
    rewrite (Utf8ShiftAndMask_spec (b mod 8)) by lia.
    rewrite (Utf8ShiftAndMask_spec (b mod 8 * 64 + b1 mod 64)) by lia.
    rewrite Utf8ShiftAndMask_spec by lia. reflexivity.
Qed.

(** ** The loops *)

Lemma utf16_enc_zlen c : zlen (utf16_enc c) = if c <=? 0xFFFF then 1 else 2.
Proof. unfold utf16_enc. by case_match. Qed.

Lemma utf16_text_cons c cs : utf16_text (c :: cs) = utf16_enc c ++ utf16_text cs.
Proof. done. Qed.

Lemma zdrop_shorter (n : Z) (b : Z) s fuel :
  1 <= n -> (length (b :: s) <= S fuel)%nat -> (length (zdrop n (b :: s)) <= fuel)%nat.
Proof. intros Hn Hf. unfold zdrop. rewrite length_drop. simpl in *. lia. Qed.

Lemma int_succ_ok n : n < INT_MAX -> int_succ n = Some (n + 1).
Proof. intros. unfold int_succ. by destruct (Z.ltb_spec n INT_MAX); [|lia]. Qed.

Lemma Utf8ToUtf16Length_loop_spec fuel s acc :
  Forall is_byte s -> (length s <= fuel)%nat -> 0 <= acc -> acc + 2 * zlen s <= INT_MAX ->
  Utf8ToUtf16Length_loop fuel s acc =
  Some (match utf8_dec fuel s with None => -1 | Some cs => acc + zlen (utf16_text cs) end).
Proof.
  revert s acc. induction fuel as [|fuel IH]; intros [|b s] acc Hs Hf Ha Hb; try (simpl in Hf; lia).
  1,2: cbn [Utf8ToUtf16Length_loop utf8_dec]; change (utf16_text []) with (@nil Z); by rewrite zlen_nil, Z.add_0_r.
  cbn [Utf8ToUtf16Length_loop utf8_dec].
  assert (is_byte b) as Hbb by (by inversion_clear Hs). rewrite Utf8CodePointLen_spec by done.
  pose proof (lead_len_range b) as Hr. set (L := lead_len b) in *.
  assert (1 <= zlen (b :: s)) by (rewrite zlen_cons; pose proof (zlen_nonneg s); lia).
  rewrite int_succ_ok by lia. opt.
  destruct (Z.leb_spec (zlen (b :: s)) (L - 1)), (Z.ltb_spec (zlen (b :: s)) L); try lia; [done|].
  pose proof (Utf8ToUtf32CodePoint_spec (b :: s) [] b s eq_refl) as E. rewrite app_nil_r in E.
  fold L in E. rewrite E by lia. opt. set (v := cp_value (ztake L (b :: s))).
  assert (zlen (zdrop L (b :: s)) = zlen (b :: s) - L) as Hd by (apply zlen_drop; lia).
  pose proof (utf16_enc_zlen v) as Hv.
  destruct (Z.ltb_spec 0xFFFF v), (Z.leb_spec v 0xFFFF); try lia.
  - rewrite int_succ_ok by lia. opt.
    rewrite IH by (try apply zdrop_shorter; try (by apply Forall_zdrop); lia || done).
    destruct (utf8_dec fuel (zdrop L (b :: s))); [|done]. opt.
    rewrite utf16_text_cons, zlen_app. f_equal. lia.
  - opt. rewrite IH by (try apply zdrop_shorter; try (by apply Forall_zdrop); lia || done).
    destruct (utf8_dec fuel (zdrop L (b :: s))); [|done]. opt.
    rewrite utf16_text_cons, zlen_app. f_equal. lia.
Qed.

Lemma u16_small z : 0 <= z < 65536 -> u16 z = z.
Proof. apply (wrapU_small 16). Qed.

Lemma cp_value_nonneg bs : 0 <= cp_value bs.
Proof.
  pose proof (fun x => Z.mod_pos_bound x 64 ltac:(lia)) as H64.
  destruct bs as [|b0 [|b1 [|b2 [|b3 [|b4 bs]]]]]; cbn -[Z.modulo Z.mul Z.add]; try lia.
  - by apply wrapU_range.
  - pose proof (H64 b1). pose proof (Z.mod_pos_bound b0 32). lia.
  - pose proof (H64 b1). pose proof (H64 b2). pose proof (Z.mod_pos_bound b0 16). lia.
  - pose proof (H64 b1). pose proof (H64 b2). pose proof (H64 b3). pose proof (Z.mod_pos_bound b0 8). lia.
Qed.

Lemma store_front (pre rest : list Z) x :
  1 <= zlen rest -> mem_store (pre ++ rest) (zlen pre) [x] = Some ((pre ++ [x]) ++ zdrop 1 rest).
Proof.
  intros Hr. rewrite (mem_store_mid pre (ztake 1 rest) (zdrop 1 rest)).
  - by rewrite <- app_assoc.
  - by rewrite ztake_drop.
  - done.
  - rewrite zlen_take by lia. done.
Qed.

(** The copy fills exactly the cells counted by the length loop. *)
Lemma Utf8ToUtf16_loop_spec fuel s cs : utf8_dec fuel s = Some cs -> Forall is_byte s ->
  forall pre rest, zlen (utf16_text cs) <= zlen rest ->
  Utf8ToUtf16_loop fuel s (pre ++ rest) (zlen pre) (zlen pre + zlen (utf16_text cs)) =
  Some (pre ++ utf16_text cs ++ zdrop (zlen (utf16_text cs)) rest, zlen pre + zlen (utf16_text cs)).
Proof.
  revert s cs. induction fuel as [|fuel IH]; intros [|b s] cs Hc Hs pre rest Hr; try done.
  1,2: injection Hc as <-; cbn [Utf8ToUtf16_loop]; change (utf16_text []) with (@nil Z);
    by rewrite zlen_nil, Z.add_0_r, zdrop_0.
  cbn [Utf8ToUtf16_loop utf8_dec] in *.
  assert (is_byte b) as Hbb by (by inversion_clear Hs). rewrite Utf8CodePointLen_spec by done.
  pose proof (lead_len_range b) as HL. set (L := lead_len b) in *.
  destruct (Z.ltb_spec (zlen (b :: s)) L) as [|HLs]; [done|].
  destruct (utf8_dec fuel (zdrop L (b :: s))) as [cs'|] eqn:E; [|done]. injection Hc as <-.
  rewrite utf16_text_cons, zlen_app in *. set (v := cp_value (ztake L (b :: s))) in *.
  pose proof (utf16_enc_zlen v) as Hv. pose proof (zlen_nonneg (utf16_text cs')) as Hn.
  pose proof (Utf8ToUtf32CodePoint_spec (b :: s) [0] b s eq_refl HLs) as E0.
  fold L in E0. rewrite E0. fold v. opt.
  assert (0 <= v) as Hv0 by apply cp_value_nonneg.
  destruct (Z.leb_spec (zlen pre + (zlen (utf16_enc v) + zlen (utf16_text cs'))) (zlen pre));
    [destruct (v <=? 0xFFFF); lia|].
  assert (Forall is_byte (zdrop L (b :: s))) as Hs' by by apply Forall_zdrop.
  unfold utf16_enc in *. destruct (Z.leb_spec v 0xFFFF).
  - rewrite store_front by lia. opt. rewrite u16_small by lia.
    specialize (IH _ _ E Hs' (pre ++ [v]) (zdrop 1 rest)).
    rewrite zlen_app, zlen_cons, zlen_nil, Z.add_0_r, zlen_drop, zdrop_zdrop in IH by lia.
    rewrite zlen_cons, zlen_nil, Z.add_0_r, Z.add_assoc, IH, <- app_assoc by lia. done.
  - rewrite store_front by lia. opt.
    destruct (Z.leb_spec (zlen pre + (zlen [u16 ((v - 0x10000) / 1024 + 0xD800); (v - 0x10000) mod 1024 + 0xDC00]
      + zlen (utf16_text cs'))) (zlen pre + 1)); [lia|].
    rewrite Z.shiftr_div_pow2 by lia. change (2 ^ 10) with 1024.
    rewrite (land_mask (v - 0x10000) 10 1024) by lia.
    pose proof (Z.mod_pos_bound (v - 0x10000) 1024 ltac:(lia)).
    rewrite (u16_small ((v - 0x10000) mod 1024 + 0xDC00)) by lia.
    set (hi := u16 _). set (lo := _ mod 1024 + _) in *.
    replace (zlen pre + 1) with (zlen (pre ++ [hi])) by (rewrite zlen_app; done).
    rewrite store_front by (rewrite zlen_drop; lia). opt.
    specialize (IH _ _ E Hs' ((pre ++ [hi]) ++ [lo]) (zdrop 1 (zdrop 1 rest))).
    rewrite !zlen_app, !zlen_cons, !zlen_nil, !zdrop_zdrop, zlen_drop in * by lia.
    replace (zlen pre + 2) with (zlen pre + (1 + 0) + (1 + 0)) by lia.
    replace (zlen pre + (1 + (1 + 0) + zlen (utf16_text cs')))
      with (zlen pre + (1 + 0) + (1 + 0) + zlen (utf16_text cs')) by lia.
    rewrite IH by lia. by rewrite <- !app_assoc.
Qed.

(** ** The whole conversion *)

Context `{Libc}.

Definition String8ToString16_result (s old : list Z) : bool * list Z :=
  match utf8_dec (length s) s with
  | Some cs => converted 2 (utf16_text cs) old
  | None => (false, old)
  end.

Lemma utf16_text_zlen fuel s cs :
  utf8_dec fuel s = Some cs -> zlen (utf16_text cs) <= 2 * zlen s.
Proof.
  revert s cs. induction fuel as [|fuel IH]; intros [|b s] cs Hc; try done.
  1,2: injection Hc as <-; change (utf16_text []) with (@nil Z); rewrite !zlen_nil; lia.
  cbn [utf8_dec] in Hc. pose proof (lead_len_range b).
  destruct (Z.ltb_spec (zlen (b :: s)) (lead_len b)); [done|].
  destruct (utf8_dec fuel _) as [cs'|] eqn:E; [|done]. injection Hc as <-.
  rewrite utf16_text_cons, zlen_app, utf16_enc_zlen. apply IH in E.
  rewrite zlen_drop in E by lia. case_match; lia.
Qed.

Lemma String8ToString16_eq s old :
  Forall is_byte s -> s <> [] -> 2 * zlen s < INT_MAX ->
  String8ToString16 s old = Some (String8ToString16_result s old).
Proof.
  intros Hs Hne Hb. unfold String8ToString16, String8ToString16_result, Char8ToChar16, Utf8ToUtf16Length.
  assert (1 <= zlen s) by (destruct s; [done|]; rewrite zlen_cons; pose proof (zlen_nonneg s); lia).
  destruct (Z.ltb_spec (zlen s) 1); [lia|].
  rewrite Utf8ToUtf16Length_loop_spec by (done || lia). opt.
  destruct (utf8_dec (length s) s) as [cs|] eqn:E; [|done]. rewrite Z.add_0_l. unfold converted.
  pose proof (utf16_text_zlen _ _ _ E). pose proof (zlen_nonneg (utf16_text cs)).
  destruct (Z.ltb_spec (zlen (utf16_text cs)) 0), (Z.leb_spec INT_MAX (zlen (utf16_text cs))),
    (Z.ltb_spec (zlen (utf16_text cs)) INT_MAX); try lia. cbn [orb andb].
  unfold calloc. destruct (Z.leb_spec ((zlen (utf16_text cs) + 1) * 2) heap_limit); [|done]. opt.
  unfold StrncpyStr8ToStr16, Utf8ToUtf16. rewrite Z.add_simpl_r.
  assert (zlen (utf16_text cs) <> 0) as Hnz.
  { destruct s as [|b s]; [done|]. cbn [length utf8_dec] in E.
    destruct (_ <? _); [done|]. destruct (utf8_dec _ _); [|done]. injection E as <-.
    rewrite utf16_text_cons, zlen_app, utf16_enc_zlen. pose proof (zlen_nonneg (utf16_text l)). case_match; lia. }
  destruct (Z.eqb_spec (zlen (utf16_text cs)) 0); [done|].
  set (buf := replicate _ _). assert (zlen buf = zlen (utf16_text cs) + 1) as Hbuf.
  { unfold buf, zlen at 1. rewrite length_replicate. lia. }
  pose proof (Utf8ToUtf16_loop_spec _ _ _ E Hs [] buf ltac:(lia)) as E1.
  rewrite zlen_nil, !Z.add_0_l in E1. simpl app in E1. rewrite E1. opt.
  rewrite store_front by (rewrite zlen_drop; lia).
  cbn [fmap option_fmap option_map]. opt. rewrite <- app_assoc. simpl app. by rewrite c_string_app.
Qed.
End decoder.

(** ** Well-formed texts *)

Section wellformed.
Context `{CharAbi}.

Lemma is_scalar_spec c : is_scalar c = true ->
  0 <= c <= 0x10FFFF /\ (c < 0xD800 \/ 0xDFFF < c).
Proof. unfold is_scalar, is_surrogate. repeat case_bool. Qed.

Lemma mod_payload k r m : k mod m = 0 -> 0 <= r < m -> (k + r) mod m = r.
Proof. intros Hk Hr. rewrite Z.add_mod by lia. rewrite Hk, Z.add_0_l, Z.mod_mod by lia. by apply Z.mod_small. Qed.

(** The lead byte announces the length, and the payload bits are the number. *)
Lemma utf8_enc_dec c :
  is_scalar c = true -> (forall b, 0 <= b < 0x80 -> u32 (char_of b) = b) ->
  exists b l, utf8_enc c = b :: l /\ lead_len b = zlen (utf8_enc c) /\ cp_value (utf8_enc c) = c.
Proof.
  intros Hs Hch. pose proof (is_scalar_spec c Hs) as [Hr _]. unfold utf8_enc. rewrite Hs. cbn [negb].
  pose proof (Z.div_mod c 64 ltac:(lia)). pose proof (Z.mod_pos_bound c 64 ltac:(lia)).
  pose proof (Z.div_mod (c / 64) 64 ltac:(lia)). pose proof (Z.mod_pos_bound (c / 64) 64 ltac:(lia)).
  pose proof (Z.div_mod (c / 4096) 64 ltac:(lia)). pose proof (Z.mod_pos_bound (c / 4096) 64 ltac:(lia)).
  assert (c / 64 / 64 = c / 4096) as E1 by (by rewrite Z.div_div by lia).
  assert (c / 4096 / 64 = c / 262144) as E2 by (by rewrite Z.div_div by lia).
  rewrite E1, E2 in *.
  destruct (Z.ltb_spec c 0x80); [|destruct (Z.ltb_spec c 0x800); [|destruct (Z.ltb_spec c 0x10000)]];
    eexists _, _; (split; [reflexivity|]); cbn [cp_value]; rewrite !zlen_cons, zlen_nil;
    unfold lead_len; (split; [repeat case_bool|]).
  - apply Hch. lia.
  - rewrite !mod_payload by (done || lia). lia.
  - rewrite !mod_payload by (done || lia). lia.
  - rewrite !mod_payload by (done || lia). lia.
Qed.

Lemma char_of_ascii b : 0 <= b < 0x80 -> u32 (char_of b) = b.
Proof.
  intros Hb. unfold char_of, i8, u32. destruct char_signed.
  - rewrite wrapS_small by lia. apply wrapU_small. lia.
  - apply wrapU_small. lia.
Qed.

Lemma utf8_enc_byte c : Forall is_byte (utf8_enc c).
Proof.
  unfold utf8_enc. destruct (is_scalar c) eqn:Hs; [cbn [negb]|constructor].
  pose proof (is_scalar_spec c Hs) as [Hr _].
  pose proof (Z.mod_pos_bound c 64). pose proof (Z.mod_pos_bound (c / 64) 64).
  pose proof (Z.mod_pos_bound (c / 4096) 64).
  destruct (Z.ltb_spec c 0x80); [|destruct (Z.ltb_spec c 0x800); [|destruct (Z.ltb_spec c 0x10000)]];
    repeat (constructor; [unfold is_byte|]); try constructor; try lia.
  all: try (pose proof (Z.div_pos c 64); pose proof (Z.div_lt_upper_bound c 64 32); lia).
  all: try (pose proof (Z.div_pos c 4096); pose proof (Z.div_lt_upper_bound c 4096 16); lia).
  all: pose proof (Z.div_pos c 262144); pose proof (Z.div_lt_upper_bound c 262144 5); lia.
Qed.

Lemma utf8_text_byte cs : Forall is_byte (utf8_text cs).
Proof.
  induction cs as [|c cs IH]; [constructor|]. rewrite utf8_text_cons.
  apply Forall_app. split; [apply utf8_enc_byte|done].
Qed.

(** Decoding is the inverse of encoding. *)
Lemma utf8_dec_text cs fuel :
  Forall (fun c => is_scalar c = true) cs -> (length (utf8_text cs) <= fuel)%nat ->
  utf8_dec fuel (utf8_text cs) = Some cs.
Proof.
  intros Hcs. revert fuel. induction Hcs as [|c cs Hc Hcs IH]; intros fuel Hf.
  { by destruct fuel. }
  rewrite utf8_text_cons in *.
  destruct (utf8_enc_dec c Hc char_of_ascii) as (b & l & E & Hl & Hv).
  rewrite length_app in Hf. rewrite E in *.
  destruct fuel as [|fuel]; [simpl in Hf; lia|]. cbn [app utf8_dec].
  change (b :: l ++ utf8_text cs) with ((b :: l) ++ utf8_text cs).
  rewrite Hl. destruct (Z.ltb_spec (zlen ((b :: l) ++ utf8_text cs)) (zlen (b :: l))) as [Hlt|_].
  { rewrite zlen_app in Hlt. pose proof (zlen_nonneg (utf8_text cs)). lia. }
  rewrite zdrop_app_exact, ztake_app_exact, IH by (simpl in Hf; lia). opt. by rewrite Hv.
Qed.

Lemma utf16_enc_dec c cs :
  is_scalar c = true -> utf16_dec (utf16_enc c ++ utf16_text cs) = c :: utf16_dec (utf16_text cs).
Proof.
  intros Hs. pose proof (is_scalar_spec c Hs) as [Hr Hn]. unfold utf16_enc.
  destruct (Z.leb_spec c 0xFFFF).
  - simpl app. cbn [utf16_dec]. destruct (utf16_text cs); [done|].
    unfold high_surrogate. repeat case_bool.
  - pose proof (Z.div_mod (c - 0x10000) 1024 ltac:(lia)).
    pose proof (Z.mod_pos_bound (c - 0x10000) 1024 ltac:(lia)).
    rewrite u16_small by lia. cbn [app utf16_dec].
    unfold high_surrogate, low_surrogate.
    destruct (Z.leb_spec 0xD800 ((c - 0x10000) / 1024 + 0xD800)),
      (Z.leb_spec ((c - 0x10000) / 1024 + 0xD800) 0xDBFF),
      (Z.leb_spec 0xDC00 ((c - 0x10000) mod 1024 + 0xDC00)),
      (Z.leb_spec ((c - 0x10000) mod 1024 + 0xDC00) 0xDFFF); try lia.
    cbn [andb]. f_equal. lia.
Qed.

Lemma utf16_dec_text cs : Forall (fun c => is_scalar c = true) cs -> utf16_dec (utf16_text cs) = cs.
Proof.
  induction 1 as [|c cs Hc Hcs IH]; [done|]. by rewrite utf16_text_cons, utf16_enc_dec, IH.
Qed.

Lemma utf16_text_unit cs : Forall (fun c => is_scalar c = true) cs -> Forall is_unit (utf16_text cs).
Proof.
  induction 1 as [|c cs Hc Hcs IH]; [constructor|]. rewrite utf16_text_cons. apply Forall_app.
  split; [|done]. pose proof (is_scalar_spec c Hc). unfold utf16_enc. case_bool.
  - repeat constructor; unfold is_unit; lia.
  - pose proof (Z.mod_pos_bound (c - 0x10000) 1024 ltac:(lia)).
    constructor; [by apply (wrapU_range 16)|]. constructor; [unfold is_unit; lia|constructor].
Qed.
End wellformed.
