(* ===== verification/UnicodeProps.v ===== *)
(** * The properties of the UTF-8 and UTF-16 conversions *)

From S2P Require Import Prelude Unicode UnicodeSpec UnicodeDec.

(** ** Texts without terminators *)

Lemma utf8_enc_nonzero c : is_scalar c = true -> c <> 0 -> Forall (fun b => b <> 0) (utf8_enc c).
Proof.
  intros Hs Hc. pose proof (is_scalar_spec c Hs) as [Hr _]. unfold utf8_enc. rewrite Hs. cbn [negb].
  pose proof (Z.mod_pos_bound c 64). pose proof (Z.mod_pos_bound (c / 64) 64).
  pose proof (Z.mod_pos_bound (c / 4096) 64). pose proof (Z.div_pos c 64).
  pose proof (Z.div_pos c 4096). pose proof (Z.div_pos c 262144).
  repeat case_match; repeat constructor; lia.
Qed.

Lemma utf16_enc_nonzero c : is_scalar c = true -> c <> 0 -> Forall (fun u => u <> 0) (utf16_enc c).
Proof.
  intros Hs Hc. pose proof (is_scalar_spec c Hs) as [Hr _]. unfold utf16_enc.
  destruct (Z.leb_spec c 0xFFFF); [by repeat constructor|].
  pose proof (Z.mod_pos_bound (c - 0x10000) 1024 ltac:(lia)).
  pose proof (Z.div_mod (c - 0x10000) 1024 ltac:(lia)).
  rewrite u16_small by lia. repeat constructor; lia.
Qed.

Lemma text_nonzero (enc : Z -> list Z) cs :
  (forall c, is_scalar c = true -> c <> 0 -> Forall (fun b => b <> 0) (enc c)) ->
  Forall (fun c => is_scalar c = true /\ c <> 0) cs ->
  Forall (fun b => b <> 0) (concat (enc <$> cs)).
Proof.
  intros He. induction 1 as [|c cs [Hc Hz] _ IH]; [constructor|]. apply Forall_app. split; auto.
Qed.

Lemma text_nonempty c (enc : Z -> list Z) cs : 1 <= zlen (enc c) -> concat (enc <$> (c :: cs)) <> [].
Proof. cbn. destruct (enc c); [rewrite zlen_nil; lia|done]. Qed.

Lemma utf8_enc_pos c : is_scalar c = true -> 1 <= zlen (utf8_enc c).
Proof.
  intros Hs. unfold utf8_enc. rewrite Hs. cbn [negb].
  repeat case_match; autorewrite with zlist; lia.
Qed.

Lemma utf16_enc_pos c : 1 <= zlen (utf16_enc c).
Proof. rewrite utf16_enc_zlen. case_match; lia. Qed.

(** ** Both directions *)

(** C11: On a text of scalar values other than NUL, String8ToString16 turns the
    UTF-8 form into the UTF-16 form and String16ToString8 turns it back, as
    soon as the two buffers can be allocated and their lengths are an int. *)
Theorem unicode_roundtrip `{CharAbi, Libc} (cs old8 old16 : list Z) :
  cs <> [] -> Forall (fun c => is_scalar c = true /\ c <> 0) cs ->
  2 * zlen (utf8_text cs) < INT_MAX ->
  2 * (zlen (utf16_text cs) + 1) <= heap_limit -> zlen (utf8_text cs) + 1 <= heap_limit ->
  String8ToString16 (utf8_text cs) old16 = Some (true, utf16_text cs) /\
  String16ToString8 (utf16_text cs) old8 = Some (true, utf8_text cs).
Proof.
  intros Hne Hcs Hb H16 H8.
  assert (Forall (fun c => is_scalar c = true) cs) as Hsc by (eapply Forall_impl; [done|naive_solver]).
  pose proof (utf8_dec_text cs (length (utf8_text cs)) Hsc ltac:(lia)) as Ed.
  pose proof (utf16_text_zlen _ _ _ Ed) as Hle. pose proof (zlen_nonneg (utf8_text cs)).
  assert (utf8_text cs <> [] /\ utf16_text cs <> []) as [Hne8 Hne16].
  { destruct cs as [|c cs]; [done|]. inversion_clear Hsc.
    split; apply text_nonempty; [by apply utf8_enc_pos|apply utf16_enc_pos]. }
  split.
  - rewrite String8ToString16_eq by (done || apply utf8_text_byte).
    unfold String8ToString16_result, converted. rewrite Ed.
    destruct (Z.ltb_spec (zlen (utf16_text cs)) INT_MAX), (Z.leb_spec ((zlen (utf16_text cs) + 1) * 2) heap_limit); try lia.
    cbn [andb]. rewrite c_string_id; [done|]. by apply text_nonzero; [apply utf16_enc_nonzero|].
  - rewrite String16ToString8_eq by (try apply utf16_text_unit; done). unfold converted.
    rewrite utf16_dec_text by done.
    destruct (Z.ltb_spec (zlen (utf8_text cs)) INT_MAX), (Z.leb_spec ((zlen (utf8_text cs) + 1) * 1) heap_limit); try lia.
    cbn [andb]. rewrite c_string_id; [done|]. by apply text_nonzero; [apply utf8_enc_nonzero|].
Qed.

(** The Latin, Greek, CJK and supplementary planes: "A", "é", "Ω", "好", U+1F600. *)
Definition demo_text : list Z := [0x41; 0xE9; 0x3A9; 0x597D; 0x1F600].
#[export] Instance demo_abi : CharAbi := {| char_signed := true |}.

Lemma unicode_roundtrip_witness :
  String8ToString16 [0x41; 0xC3; 0xA9; 0xCE; 0xA9; 0xE5; 0xA5; 0xBD; 0xF0; 0x9F; 0x98; 0x80] [] =
    Some (true, [0x41; 0xE9; 0x3A9; 0x597D; 0xD83D; 0xDE00]) /\
  String16ToString8 [0x41; 0xE9; 0x3A9; 0x597D; 0xD83D; 0xDE00] [] =
    Some (true, [0x41; 0xC3; 0xA9; 0xCE; 0xA9; 0xE5; 0xA5; 0xBD; 0xF0; 0x9F; 0x98; 0x80]).
Proof.
  apply (unicode_roundtrip demo_text [] []); [discriminate| |vm_compute; reflexivity|vm_compute; discriminate..].
  repeat (constructor; [split; [reflexivity|discriminate]|]). constructor.
Defined.

(** C12: String16ToString8 accepts every non-empty sequence of units: surrogate
    pairs are joined, a surrogate without its partner is left out, every other
    unit is encoded, and the result ends before the first NUL. It fails, and
    leaves its output as it was, exactly when the text and its terminator do
    not fit an int or the heap. No access leaves its buffer. *)
Theorem String16ToString8_lenient `{Libc} (units old : list Z) :
  Forall is_unit units -> units <> [] ->
  let text := utf8_text (utf16_dec units) in
  String16ToString8 units old =
  Some (if (zlen text <? INT_MAX) && (zlen text + 1 <=? heap_limit)
        then (true, c_string text) else (false, old)).
Proof.
  intros Hu Hne text. rewrite String16ToString8_eq by done. unfold converted. by rewrite Z.mul_1_r.
Qed.

Lemma String16ToString8_lenient_witness :
  String16ToString8 [0x41; 0xD83D; 0x42; 0xDE00; 0x43] [] = Some (true, [0x41; 0x42; 0x43]).
Proof.
  rewrite (String16ToString8_lenient [0x41; 0xD83D; 0x42; 0xDE00; 0x43] []);
    [vm_compute; reflexivity| |discriminate].
  repeat (constructor; [vm_compute; split; [discriminate|reflexivity]|]). constructor.
Defined.

(** On any bytes (fewer than 2^30), String8ToString16 stays in its buffers and
    terminates: it fails exactly when the text ends inside a sequence announced
    by a lead byte, or when there is no memory; otherwise the result holds the
    UTF-16 form of the decoded numbers up to the first NUL. *)
Theorem String8ToString16_total `{CharAbi, Libc} (s old : list Z) :
  Forall is_byte s -> s <> [] -> zlen s < 2 ^ 30 - 1 ->
  String8ToString16 s old =
  Some (match utf8_dec (length s) s with
        | Some cs => if 2 * (zlen (utf16_text cs) + 1) <=? heap_limit
                     then (true, c_string (utf16_text cs)) else (false, old)
        | None => (false, old)
        end).
Proof.
  intros Hs Hne Hb. rewrite String8ToString16_eq by (done || (unfold INT_MAX; lia)).
  unfold String8ToString16_result, converted. destruct (utf8_dec (length s) s) as [cs|] eqn:E; [|done].
  apply utf16_text_zlen in E. rewrite (Z.mul_comm 2).
  destruct (Z.ltb_spec (zlen (utf16_text cs)) INT_MAX); [done|unfold INT_MAX in *; lia].
Qed.

Lemma String8ToString16_total_witness :
  String8ToString16 [0x41; 0xE5; 0xA5] [7] = Some (false, [7]) /\
  String8ToString16 [0x41; 0; 0x42] [7] = Some (true, [0x41]).
Proof.
  split.
  - rewrite (String8ToString16_total [0x41; 0xE5; 0xA5] [7]);
      [vm_compute; reflexivity| |discriminate|vm_compute; reflexivity].
    repeat (constructor; [vm_compute; split; [discriminate|reflexivity]|]). constructor.
  - rewrite (String8ToString16_total [0x41; 0; 0x42] [7]);
      [vm_compute; reflexivity| |discriminate|vm_compute; reflexivity].
    repeat (constructor; [vm_compute; split; [discriminate|reflexivity]|]). constructor.
Defined.

(** The overload of Char16ToChar8 that fills its caller's buffer never
    stores outside of it: it reports an insufficient buffer and stores
    nothing, or it stores the whole text and its terminator, returns their
    length and leaves the cells behind them alone. *)
Theorem Char16ToChar8_buffer_fits (units cells : list Z) (bufferLen : Z) :
  Forall is_unit units -> units <> [] -> 1 <= bufferLen <= zlen cells -> bufferLen <= INT_MAX ->
  let text := utf8_text (utf16_dec units) in
  Char16ToChar8_buffer units (Some cells) bufferLen =
  Some (if zlen text + 1 <=? bufferLen
        then (zlen text + 1, Some (text ++ 0 :: zdrop (zlen text + 1) cells))
        else (CHAR16_TO_CHAR8_INSUFFICIENT_BUFFER, Some cells)).
Proof.
  intros Hu Hne Hb Hi text. unfold Char16ToChar8_buffer, Utf16ToUtf8Length.
  assert (1 <= zlen units).
  { destruct units; [done|]. rewrite zlen_cons. pose proof (zlen_nonneg units). lia. }
  destruct (Z.leb_spec bufferLen 0), (Z.eqb_spec (zlen units) 0); try lia.
  rewrite Utf16ToUtf8Length_loop_spec by (done || (unfold INT_MAX; lia)). cbv zeta. fold text.
  pose proof (zlen_nonneg text). rewrite Z.add_0_l.
  destruct (Z.leb_spec (zlen text) INT_MAX).
  - destruct (Z.ltb_spec (zlen text) 0), (Z.leb_spec INT_MAX (zlen text)),
      (Z.ltb_spec bufferLen (zlen text + 1)), (Z.leb_spec (zlen text + 1) bufferLen);
      try lia; try done; cbn [orb].
    rewrite StrncpyStr16ToStr8_spec by (done || lia). opt. rewrite fit_all by (fold text; lia). done.
  - destruct (Z.leb_spec (zlen text + 1) bufferLen); [lia|done].
Qed.

Lemma Char16ToChar8_buffer_fits_witness :
  Char16ToChar8_buffer [0xE9; 0x42] (Some [9; 9; 9; 9; 9]) 4 = Some (4, Some [0xC3; 0xA9; 0x42; 0; 9]).
Proof.
  rewrite (Char16ToChar8_buffer_fits [0xE9; 0x42] [9; 9; 9; 9; 9] 4);
    [vm_compute; reflexivity| |discriminate|vm_compute; split; discriminate|vm_compute; discriminate].
  repeat (constructor; [vm_compute; split; [discriminate|reflexivity]|]). constructor.
Defined.

(** StrncpyStr16ToStr8 given less space than the text stores the text of a
    prefix of the characters, whole, then the terminator, in the first
    [str8Len] cells. *)
Theorem StrncpyStr16ToStr8_truncates (units cells : list Z) (str8Len : Z) :
  Forall is_unit units -> 1 <= str8Len <= zlen cells ->
  exists shown lost tail,
    utf16_dec units = shown ++ lost /\ zlen (utf8_text shown) < str8Len /\
    StrncpyStr16ToStr8 units cells str8Len = Some (utf8_text shown ++ 0 :: tail) /\
    zlen (utf8_text shown ++ 0 :: tail) = zlen cells /\
    zdrop str8Len (utf8_text shown ++ 0 :: tail) = zdrop str8Len cells.
Proof.
  intros Hu Hn. destruct (fit_prefix str8Len (utf16_dec units)) as (cs1 & cs2 & E & Ef & Hl); [lia|].
  exists cs1, cs2, (zdrop (zlen (utf8_text cs1) + 1) cells).
  rewrite StrncpyStr16ToStr8_spec by done. rewrite Ef in *. pose proof (zlen_nonneg (utf8_text cs1)).
  split_and!; [done..| |].
  - rewrite zlen_app, zlen_cons, zlen_drop by lia. lia.
  - rewrite cons_middle, app_assoc.
    rewrite zdrop_app_r by (rewrite zlen_app, zlen_cons, zlen_nil; lia).
    rewrite zlen_app, zlen_cons, zlen_nil, zdrop_zdrop by lia. f_equal. lia.
Qed.

Lemma StrncpyStr16ToStr8_truncates_witness : exists shown lost tail,
    utf16_dec [0x597D; 0x597D] = shown ++ lost /\ zlen (utf8_text shown) < 5 /\
    StrncpyStr16ToStr8 [0x597D; 0x597D] [9; 9; 9; 9; 9; 9] 5 = Some (utf8_text shown ++ 0 :: tail) /\
    zlen (utf8_text shown ++ 0 :: tail) = zlen [9; 9; 9; 9; 9; 9] /\
    zdrop 5 (utf8_text shown ++ 0 :: tail) = zdrop 5 [9; 9; 9; 9; 9; 9].
Proof.
  apply (StrncpyStr16ToStr8_truncates [0x597D; 0x597D] [9; 9; 9; 9; 9; 9] 5);
    [|vm_compute; split; discriminate].
  repeat (constructor; [vm_compute; split; [discriminate|reflexivity]|]). constructor.
Defined.

(** Where [char] is signed, a stray continuation byte is sign-extended to a
    number above 0x10FFFF and stored as two units, one of them no surrogate. *)
Example stray_continuation_byte :
  String8ToString16 [0x80] [] = Some (true, [0xD7BF; 0xDF80]).
Proof. reflexivity. Qed.
