(* ===== verification/StringEx.v ===== *)
(** * String utilities ([base/src/string_ex.cpp])

    A [std::string] is the list of its bytes. A position is a [Z] and
    [npos] is [None]. The character classes are those of the "C" locale.
    Loops that are not structural carry fuel; [None] is an exhausted fuel,
    which [StringProps.v] shows never to happen. *)

From S2P Require Import Prelude.

(** ** The members of [std::string] the code calls *)

Fixpoint starts_with (p s : list Z) : bool :=
  match p, s with
  | [], _ => true
  | _, [] => false
  | a :: p, b :: s => (a =? b) && starts_with p s
  end.

(** The first occurrence of [sub] in [s], counted from [i]. *)
Fixpoint find_from (sub s : list Z) (i : Z) : option Z :=
  if starts_with sub s then Some i
  else match s with
       | [] => None
       | _ :: s' => find_from sub s' (i + 1)
       end.

Definition find (s sub : list Z) (pos : Z) : option Z :=
  if zlen s <? pos then None else find_from sub (zdrop pos s) pos.

Definition replace_at (s : list Z) (pos n : Z) (dst : list Z) : list Z :=
  ztake pos s ++ dst ++ zdrop (pos + n) s.

Definition substr (s : list Z) (pos n : Z) : list Z := ztake n (zdrop pos s).

Fixpoint find_first_not_of (c : Z) (s : list Z) (i : Z) : option Z :=
  match s with
  | [] => None
  | a :: s' => if a =? c then find_first_not_of c s' (i + 1) else Some i
  end.

Fixpoint find_last_not_of (c : Z) (s : list Z) (i : Z) : option Z :=
  match s with
  | [] => None
  | a :: s' =>
      match find_last_not_of c s' (i + 1) with
      | Some j => Some j
      | None => if a =? c then None else Some i
      end
  end.

(** ** Characters *)

Definition isdigit (c : Z) : bool := (48 <=? c) && (c <=? 57).
Definition isupper (c : Z) : bool := (65 <=? c) && (c <=? 90).
Definition islower (c : Z) : bool := (97 <=? c) && (c <=? 122).
Definition isalpha (c : Z) : bool := isupper c || islower c.
Definition toupper (c : Z) : Z := if islower c then c - 32 else c.
Definition tolower (c : Z) : Z := if isupper c then c + 32 else c.

Definition UpperStr (str : list Z) : list Z := toupper <$> str.
Definition LowerStr (str : list Z) : list Z := tolower <$> str.

Definition is_empty (s : list Z) : bool := zlen s =? 0.

Definition IsNumericStr (str : list Z) : bool :=
  if is_empty str then false else forallb isdigit str.
Definition IsAlphaStr (str : list Z) : bool :=
  if is_empty str then false else forallb isalpha str.
Definition IsUpperStr (str : list Z) : bool :=
  if is_empty str then false else forallb isupper str.
Definition IsLowerStr (str : list Z) : bool :=
  if is_empty str then false else forallb islower str.
Definition IsAsciiString (str : list Z) : bool :=
  forallb (fun c => Z.land c 0x80 =? 0) str.
Definition IsSameTextStr (first second : list Z) : bool :=
  bool_decide (UpperStr first = UpperStr second).

(** ** Searching *)

Definition IsSubStr (str sub : list Z) : bool :=
  if is_empty sub || is_empty str then false
  else match find str sub 0 with Some _ => true | None => false end.

(** The position and the new value of [sub]. *)
Definition GetFirstSubStrBetween (str left right sub : list Z) : option Z * list Z :=
  if is_empty left || is_empty right then (None, sub)
  else
    match find str left 0 with
    | None => (None, sub)
    | Some leftPos =>
        match find str right (leftPos + zlen left) with
        | None => (None, sub)
        | Some rightPos =>
            (Some rightPos, substr str (leftPos + zlen left) (rightPos - (leftPos + zlen left)))
        end
    end.

Fixpoint GetSubStrBetween_loop (fuel : nat) (strTmp left right : list Z) (sub : list (list Z))
    : option (list (list Z)) :=
  match GetFirstSubStrBetween strTmp left right [] with
  | (None, _) => Some sub
  | (Some pos, subString) =>
      match fuel with
      | O => None
      | S fuel => GetSubStrBetween_loop fuel (zdrop pos strTmp) left right (sub ++ [subString])
      end
  end.

Definition GetSubStrBetween (str left right : list Z) (sub : list (list Z)) : option (list (list Z)) :=
  GetSubStrBetween_loop (length str) str left right sub.

(** ** Replacing, trimming, splitting *)

Fixpoint ReplaceStr_loop (fuel : nat) (strTmp src dst : list Z) (pos : Z) : option (list Z) :=
  match find strTmp src pos with
  | None => Some strTmp
  | Some pos =>
      match fuel with
      | O => None
      | S fuel => ReplaceStr_loop fuel (replace_at strTmp pos (zlen src) dst) src dst (pos + zlen dst)
      end
  end.

Definition ReplaceStr (str src dst : list Z) : option (list Z) :=
  if is_empty src then Some str
  else ReplaceStr_loop (length str) str src dst 0.

Definition TrimStr (str : list Z) (cTrim : Z) : list Z :=
  if (zlen str =? 1) && bool_decide (str = [cTrim]) then []
  else
    let strTmp :=
      match find_first_not_of cTrim str 0 with
      | Some firstBound => zdrop firstBound str
      | None => str
      end in
    match find_last_not_of cTrim strTmp 0 with
    | Some lastBound =>
        if negb (lastBound =? zlen strTmp - 1) then ztake (lastBound + 1) strTmp else strTmp
    | None => strTmp
    end.

Definition SPACE : Z := 32.

Fixpoint SplitStr_loop (fuel : nat) (strTmp sep : list Z) (strs : list (list Z))
    (canEmpty needTrim : bool) : option (list (list Z)) :=
  let push strPart :=
    if negb (is_empty strPart) || canEmpty then strs ++ [strPart] else strs in
  match find strTmp sep 0 with
  | Some pos =>
      if is_empty sep then Some (push (if needTrim then TrimStr strTmp SPACE else strTmp))
      else
        match fuel with
        | O => None
        | S fuel =>
            let strPart :=
              if needTrim then TrimStr (substr strTmp 0 pos) SPACE else substr strTmp 0 pos in
            SplitStr_loop fuel
              (substr strTmp (zlen sep + pos) (zlen strTmp - zlen sep - pos)) sep
              (push strPart) canEmpty needTrim
        end
  | None => Some (push (if needTrim then TrimStr strTmp SPACE else strTmp))
  end.

Definition SplitStr (str sep : list Z) (canEmpty needTrim : bool) : option (list (list Z)) :=
  SplitStr_loop (length str) (if needTrim then TrimStr str SPACE else str) sep [] canEmpty needTrim.

(** ** Numbers *)

(** The digits of [n] in base [b], the most significant first, as the stream
    and [to_string] print them. *)
Fixpoint digits (fuel : nat) (b n : Z) (acc : list Z) : list Z :=
  match fuel with
  | O => acc
  | S fuel =>
      let acc := n mod b :: acc in
      if n / b =? 0 then acc else digits fuel b (n / b) acc
  end.

Definition hex_char (upper : bool) (d : Z) : Z :=
  if d <? 10 then 48 + d else if upper then 55 + d else 87 + d.

(** [ioss << hex << value] prints the two's complement bits. *)
Definition DexToHexString (value : Z) (upper : bool) : list Z :=
  hex_char upper <$> digits 8 16 (u32 value) [].

(** [std::to_string] of an [int], that is [ToString<int>]. *)
Definition ToString_int (iValue : Z) : list Z :=
  if iValue <? 0 then 45 :: ((fun d => 48 + d) <$> digits 10 10 (- iValue) [])
  else (fun d => 48 + d) <$> digits 10 10 iValue [].

Definition LONG_MAX : Z := 2 ^ 63 - 1.
Definition LONG_MIN : Z := - 2 ^ 63.

(** The digits at the front of a text and what follows them. *)
Fixpoint span_digits (s : list Z) : list Z * list Z :=
  match s with
  | [] => ([], [])
  | c :: s' => if isdigit c then let '(d, r) := span_digits s' in (c :: d, r) else ([], s)
  end.

Definition dec_val (ds : list Z) : Z := fold_left (fun v c => 10 * v + (c - 48)) ds 0.

(** [strtol(addr, &end, 10)] on a text without leading white space: the
    result, whether a number was found, the cells from [end] on and whether
    [errno] is [ERANGE]. *)
Definition strtol (s : list Z) : Z * bool * list Z * bool :=
  let '(neg, body) :=
    match s with
    | 45 :: s' => (true, s')
    | 43 :: s' => (false, s')
    | _ => (false, s)
    end in
  let '(ds, rest) := span_digits body in
  if is_empty ds then (0, false, s, false)
  else
    let v := if (neg : bool) then - dec_val ds else dec_val ds in
    if LONG_MAX <? v then (LONG_MAX, true, rest, true)
    else if v <? LONG_MIN then (LONG_MIN, true, rest, true)
    else (v, true, rest, false).

(** The result flag and the new value of [value]. *)
Definition StrToInt (str : list Z) (value : Z) : bool * Z :=
  match str with
  | [] => (false, value)
  | front :: _ =>
      if negb (isdigit front) && negb (front =? 45) then (false, value)
      else
        let '(result, found, end_, erange) := strtol (str ++ [0]) in
        if negb found || negb (bool_decide (head end_ = Some 0)) || erange
           || (INT_MAX <? result) || (result <? INT_MIN)
        then (false, value)
        else (true, i32 result)
  end.
