(* ===== verification/StringInv.v ===== *)
(** * Lemmas on searching, cutting and numerals *)

From S2P Require Import Prelude StringEx.

(** ** Occurrences *)

Definition occurs_at (sub s : list Z) (i : Z) : Prop := starts_with sub (zdrop i s) = true.

Lemma starts_with_app sub s : starts_with sub s = true <-> exists rest, s = sub ++ rest.
Proof.
  revert s. induction sub as [|a sub IH]; intros s; simpl; [naive_solver|].
  destruct s as [|b s]; [naive_solver|]. rewrite andb_true_iff, Z.eqb_eq, IH. naive_solver.
Qed.

Lemma starts_with_extend sub s t :
  zlen sub <= zlen s -> starts_with sub (s ++ t) = starts_with sub s.
Proof.
  revert s. induction sub as [|a sub IH]; intros s Hl; [done|].
  destruct s as [|b s]; [rewrite zlen_cons, zlen_nil in Hl; pose proof (zlen_nonneg sub); lia|].
  simpl. rewrite !zlen_cons in Hl. by rewrite IH by lia.
Qed.

Lemma find_from_shift sub s i k : find_from sub s (k + i) = (fun p => k + p) <$> find_from sub s i.
Proof.
  revert i. induction s as [|a s IH]; intros i; simpl; destruct (starts_with sub _); try done.
  by rewrite <- Z.add_assoc, IH.
Qed.

Lemma find_from_Some sub s i p :
  find_from sub s i = Some p ->
  i <= p /\ occurs_at sub s (p - i) /\ p - i <= zlen s /\ (forall j, 0 <= j < p - i -> ~ occurs_at sub s j).
Proof.
  revert i. induction s as [|a s IH]; intros i; simpl; destruct (starts_with sub _) eqn:E; try done.
  - intros [= <-]. rewrite Z.sub_diag. unfold occurs_at. rewrite zdrop_0 by lia. change (zlen []) with 0. split_and!; [lia|done|lia|lia].
  - intros [= <-]. rewrite Z.sub_diag. unfold occurs_at. rewrite zdrop_0 by lia.
    pose proof (zlen_nonneg (a :: s)). split_and!; [lia|done|lia|lia].
  - intros (Hle & Ho & Hl & Hn)%IH. rewrite zlen_cons.
    assert (forall j, 1 <= j -> occurs_at sub (a :: s) j <-> occurs_at sub s (j - 1)) as Hs.
    { intros j Hj. unfold occurs_at, zdrop. replace (Z.to_nat j) with (S (Z.to_nat (j - 1))) by lia. done. }
    split_and!; [lia|apply Hs; [lia|by replace (p - i - 1) with (p - (i + 1)) by lia]|lia|].
    intros j Hj. destruct (decide (j = 0)) as [->|]; [unfold occurs_at; rewrite zdrop_0 by lia; congruence|].
    rewrite Hs by lia. apply Hn. lia.
Qed.

Lemma find_from_None sub s i j : find_from sub s i = None -> 0 <= j <= zlen s -> ~ occurs_at sub s j.
Proof.
  revert i j. induction s as [|a s IH]; intros i j; simpl; destruct (starts_with sub _) eqn:E; try done.
  - intros _. change (zlen []) with 0. intros Hj. unfold occurs_at. rewrite zdrop_0 by lia. congruence.
  - rewrite zlen_cons. intros Hf Hj. destruct (decide (j = 0)) as [->|].
    { unfold occurs_at. rewrite zdrop_0 by lia. congruence. }
    unfold occurs_at, zdrop. replace (Z.to_nat j) with (S (Z.to_nat (j - 1))) by lia.
    apply (IH (i + 1)); [done|lia].
Qed.

(** A search that starts behind a prefix does not see it. *)
Lemma find_app pre s sub : find (pre ++ s) sub (zlen pre) = (fun p => zlen pre + p) <$> find s sub 0.
Proof.
  unfold find. rewrite zlen_app, zdrop_app_exact, zdrop_0 by lia.
  pose proof (zlen_nonneg s). destruct (Z.ltb_spec (zlen pre + zlen s) (zlen pre)), (Z.ltb_spec (zlen s) 0); try lia.
  rewrite <- find_from_shift. by rewrite Z.add_0_r.
Qed.

(** The first cut of [s] by [sub]. *)
Lemma find_Some sub s p : find s sub 0 = Some p ->
  exists rest, s = ztake p s ++ sub ++ rest /\ zlen (ztake p s) = p /\ 0 <= p /\
    zdrop (zlen sub + p) s = rest /\ forall j, 0 <= j < p -> ~ occurs_at sub s j.
Proof.
  unfold find. pose proof (zlen_nonneg s). destruct (Z.ltb_spec (zlen s) 0); [lia|].
  rewrite zdrop_0 by lia. intros (Hp & Ho & Hl & Hn)%find_from_Some. rewrite Z.sub_0_r in *.
  unfold occurs_at in Ho. apply starts_with_app in Ho as [rest Hr].
  exists rest. split_and!; [by rewrite <- Hr, ztake_drop|by apply zlen_take|lia| |done].
  rewrite Z.add_comm, <- zdrop_zdrop by (lia || apply zlen_nonneg). by rewrite Hr, zdrop_app_exact.
Qed.

Lemma find_None sub s : find s sub 0 = None -> forall j, 0 <= j <= zlen s -> ~ occurs_at sub s j.
Proof.
  unfold find. pose proof (zlen_nonneg s). destruct (Z.ltb_spec (zlen s) 0); [lia|].
  rewrite zdrop_0 by lia. intros Hf j Hj. by eapply find_from_None.
Qed.

(** ** The pieces between the separators *)

Fixpoint join (sep : list Z) (parts : list (list Z)) : list Z :=
  match parts with
  | [] => []
  | [p] => p
  | p :: ps => p ++ sep ++ join sep ps
  end.

Lemma join_cons sep p ps : ps <> [] -> join sep (p :: ps) = p ++ sep ++ join sep ps.
Proof. by destruct ps. Qed.

Fixpoint pieces (fuel : nat) (sep s : list Z) : option (list (list Z)) :=
  match find s sep 0 with
  | None => Some [s]
  | Some pos =>
      match fuel with
      | O => None
      | S fuel => (fun ps => ztake pos s :: ps) <$> pieces fuel sep (zdrop (zlen sep + pos) s)
      end
  end.

(** [p] does not hold [sep], nor does [sep] begin in [p] when it follows. *)
Definition clean_cut (sep p : list Z) : Prop := forall j, 0 <= j < zlen p -> ~ occurs_at sep (p ++ sep) j.
Definition free_of (sep p : list Z) : Prop := forall j, 0 <= j <= zlen p -> ~ occurs_at sep p j.

Lemma is_empty_false (s : list Z) : s <> [] -> is_empty s = false.
Proof.
  intros Hs. unfold is_empty. destruct s; [done|]. rewrite zlen_cons. pose proof (zlen_nonneg s).
  destruct (Z.eqb_spec (1 + zlen s) 0); [lia|done].
Qed.

Lemma is_empty_true (s : list Z) : is_empty s = true -> s = [].
Proof. destruct s; [done|]. by rewrite is_empty_false. Qed.

Lemma pieces_total fuel sep s : sep <> [] -> (length s <= fuel)%nat -> is_Some (pieces fuel sep s).
Proof.
  intros Hsep. revert s. induction fuel as [|fuel IH]; intros s Hf; cbn [pieces];
    destruct (find s sep 0) as [p|] eqn:E; try (by eexists);
    apply find_Some in E as (rest & E & Hl & Hp & Hr & _).
  - apply (f_equal length) in E. rewrite !length_app in E. destruct sep; [done|]. simpl in *. lia.
  - rewrite Hr. destruct (IH rest) as [ps ->]; [|by eexists].
    apply (f_equal length) in E. rewrite !length_app in E. destruct sep; [done|]. simpl in *. lia.
Qed.

Lemma pieces_nonempty fuel sep s ps : pieces fuel sep s = Some ps -> ps <> [].
Proof.
  destruct fuel; cbn [pieces]; destruct (find s sep 0); try naive_solver.
  destruct (pieces _ _ _); naive_solver.
Qed.

Lemma clean_cut_intro sep p rest :
  (forall j, 0 <= j < zlen p -> ~ occurs_at sep (p ++ sep ++ rest) j) -> clean_cut sep p.
Proof.
  intros Hn j Hj Ho. apply (Hn j Hj). unfold occurs_at in *. rewrite app_assoc.
  rewrite zdrop_app_l by (rewrite zlen_app; pose proof (zlen_nonneg sep); lia).
  rewrite starts_with_extend; [done|]. rewrite zlen_drop by (rewrite zlen_app; pose proof (zlen_nonneg sep); lia).
  rewrite zlen_app. lia.
Qed.

Lemma pieces_spec fuel sep s ps : pieces fuel sep s = Some ps ->
  exists qs q, ps = qs ++ [q] /\ join sep ps = s /\ Forall (clean_cut sep) qs /\ free_of sep q.
Proof.
  revert s ps. induction fuel as [|fuel IH]; intros s ps; cbn [pieces];
    destruct (find s sep 0) as [p|] eqn:E; try done.
  1,3: intros [= <-]; exists [], s; split_and!; [done..|]; exact (find_None _ _ E).
  pose proof (find_Some _ _ _ E) as (rest & Es & Hl & Hp & Hr & Hn). rewrite Hr.
  destruct (pieces fuel sep rest) as [ps'|] eqn:E'; [|done]. intros [= <-].
  pose proof (pieces_nonempty _ _ _ _ E') as Hne.
  apply IH in E' as (qs & q & -> & Ej & Hqs & Hq).
  exists (ztake p s :: qs), q. split_and!; [done| | |done].
  - by rewrite join_cons, Ej, <- Es.
  - constructor; [|done]. apply (clean_cut_intro _ _ rest). rewrite Hl. by rewrite <- Es.
Qed.

(** ** The loops in terms of the pieces *)

Definition push_part (canEmpty needTrim : bool) (strs : list (list Z)) (part : list Z) : list (list Z) :=
  let strPart := if needTrim then TrimStr part SPACE else part in
  if negb (is_empty strPart) || canEmpty then strs ++ [strPart] else strs.

Lemma SplitStr_loop_spec fuel s sep strs ce nt :
  sep <> [] -> SplitStr_loop fuel s sep strs ce nt = 
  (fun ps => fold_left (push_part ce nt) ps strs) <$> pieces fuel sep s.
Proof.
  intros Hsep. revert s strs. induction fuel as [|fuel IH]; intros s strs;
    cbn [SplitStr_loop pieces]; destruct (find s sep 0) as [p|] eqn:E; try done;
    rewrite is_empty_false by done; [done|].
  pose proof (find_Some _ _ _ E) as (rest & Es & Hl & Hp & Hr & _). rewrite Hr.
  assert (zlen s = p + zlen sep + zlen rest) as Hz.
  { rewrite Es at 1. rewrite !zlen_app, Hl. lia. }
  unfold substr. rewrite Hr, (ztake_ge _ rest) by lia. rewrite (zdrop_0 0 s) by lia.
  rewrite IH. destruct (pieces fuel sep rest); [|done]. done.
Qed.

Lemma ReplaceStr_loop_spec fuel pre s src dst :
  src <> [] ->
  ReplaceStr_loop fuel (pre ++ s) src dst (zlen pre) = (fun ps => pre ++ join dst ps) <$> pieces fuel src s.
Proof.
  intros Hsrc. revert pre s. induction fuel as [|fuel IH]; intros pre s;
    cbn [ReplaceStr_loop pieces]; rewrite find_app; destruct (find s src 0) as [p|] eqn:E; try done.
  cbn [fmap option_fmap option_map].
  pose proof (find_Some _ _ _ E) as (rest & Es & Hl & Hp & Hr & _). rewrite Hr.
  unfold replace_at. rewrite ztake_app_r, zdrop_app_r by (pose proof (zlen_nonneg src); lia).
  replace (zlen pre + p - zlen pre) with p by lia.
  replace (zlen pre + p + zlen src - zlen pre) with (zlen src + p) by lia. rewrite Hr.
  replace (zlen pre + p + zlen dst) with (zlen (pre ++ ztake p s ++ dst)) by (rewrite !zlen_app; lia).
  replace ((pre ++ ztake p s) ++ dst ++ rest) with ((pre ++ ztake p s ++ dst) ++ rest) by (by rewrite <- !app_assoc).
  rewrite IH. destruct (pieces fuel src rest) as [ps|] eqn:E'; [|done].
  cbn [fmap option_fmap option_map]. rewrite join_cons by (by eapply pieces_nonempty).
  by rewrite <- !app_assoc.
Qed.

(** ** Trimming *)

Lemma find_first_not_of_replicate c n s i :
  find_first_not_of c (replicate n c ++ s) i = find_first_not_of c s (i + Z.of_nat n).
Proof.
  revert i. induction n as [|n IH]; intros i; [by rewrite Z.add_0_r|].
  cbn [replicate app find_first_not_of]. rewrite Z.eqb_refl, IH. f_equal. lia.
Qed.

Lemma find_last_not_of_replicate c n i : find_last_not_of c (replicate n c) i = None.
Proof. revert i. induction n as [|n IH]; intros i; [done|]. cbn. by rewrite IH, Z.eqb_refl. Qed.

Lemma find_last_not_of_app c s a n i : a <> c ->
  find_last_not_of c ((s ++ [a]) ++ replicate n c) i = Some (i + zlen s).
Proof.
  intros Ha. revert i. induction s as [|b s IH]; intros i.
  - cbn. rewrite find_last_not_of_replicate. destruct (Z.eqb_spec a c); [done|].
    change (zlen []) with 0. f_equal. lia.
  - cbn [app find_last_not_of]. rewrite IH, zlen_cons. f_equal. lia.
Qed.

(** A text is blank or has a first and a last character to keep. *)
Inductive trim_view (c : Z) : list Z -> Prop :=
| trim_blank n : trim_view c (replicate n c)
| trim_one i a j : a <> c -> trim_view c (replicate i c ++ [a] ++ replicate j c)
| trim_more i a mid b j : a <> c -> b <> c ->
    trim_view c (replicate i c ++ ([a] ++ mid ++ [b]) ++ replicate j c).

Lemma blanks_before (c : Z) s : exists n (s' : list Z), s = replicate n c ++ s' /\ head s' <> Some c.
Proof.
  induction s as [|a s (n & s' & -> & Hh)]; [exists 0%nat, []; done|].
  destruct (decide (a = c)) as [->|Hac]; [by exists (S n), s'|].
  exists 0%nat, (a :: replicate n c ++ s'). split; [done|]. naive_solver.
Qed.

Lemma blanks_after (c : Z) s : exists n (s' : list Z), s = s' ++ replicate n c /\ last s' <> Some c.
Proof.
  destruct (blanks_before c (reverse s)) as (n & s' & E & Hh).
  exists n, (reverse s'). split.
  - by rewrite <- (reverse_involutive s), E, reverse_app, reverse_replicate.
  - by rewrite <- head_reverse, reverse_involutive.
Qed.

Lemma trim_view_total c s : trim_view c s.
Proof.
  destruct (blanks_before c s) as (i & s' & -> & Hh). destruct (blanks_after c s') as (j & m & -> & Hl).
  destruct m as [|a m].
  { destruct j; [rewrite app_nil_r; constructor|done]. }
  destruct m as [|b m _] using rev_ind; [apply trim_one; naive_solver|].
  change (a :: m ++ [b]) with ([a] ++ m ++ [b]) in *.
  apply trim_more; [naive_solver|]. rewrite app_assoc, last_snoc in Hl. naive_solver.
Qed.

Lemma TrimStr_core c i a s j :
  head s = Some a -> a <> c -> (exists s' b, s = s' ++ [b] /\ b <> c) ->
  TrimStr (replicate i c ++ s ++ replicate j c) c = s.
Proof.
  intros Hh Ha (s' & b & -> & Hb). unfold TrimStr.
  case_bool_decide as E.
  { exfalso. assert (b ∈ [c]) as Hin by (rewrite <- E; set_solver). set_solver. }
  rewrite andb_false_r, find_first_not_of_replicate, Z.add_0_l.
  assert (forall k, find_first_not_of c ((s' ++ [b]) ++ replicate j c) k = Some k) as ->.
  { intros k. destruct s' as [|a' s']; simpl in *; injection Hh as ->; by destruct (Z.eqb_spec a c). }
  assert (zlen (replicate i c) = Z.of_nat i) as Hi by (unfold zlen; by rewrite length_replicate).
  rewrite <- Hi, zdrop_app_exact, find_last_not_of_app, Z.add_0_l by done.
  destruct (Z.eqb_spec (zlen s') (zlen ((s' ++ [b]) ++ replicate j c) - 1)) as [El|]; cbn [negb].
  - rewrite !zlen_app, zlen_cons in El. change (zlen []) with 0 in El.
    destruct j; [by rewrite app_nil_r|]. cbn [replicate] in El. rewrite zlen_cons in El.
    pose proof (zlen_nonneg (replicate j c)). lia.
  - replace (zlen s' + 1) with (zlen (s' ++ [b])) by (rewrite zlen_app; done). by rewrite ztake_app_exact.
Qed.

Lemma TrimStr_blank c n : TrimStr (replicate n c) c = if (n =? 1)%nat then [] else replicate n c.
Proof.
  unfold TrimStr.
  assert (find_first_not_of c (replicate n c) 0 = None) as ->.
  { pose proof (find_first_not_of_replicate c n [] 0) as E. by rewrite app_nil_r in E. }
  rewrite find_last_not_of_replicate.
  assert (zlen (replicate n c) = Z.of_nat n) as -> by (unfold zlen; by rewrite length_replicate).
  destruct n as [|[|n]]; [done|by rewrite bool_decide_eq_true_2|].
  destruct (Z.eqb_spec (Z.of_nat (S (S n))) 1); [lia|done].
Qed.

(** ** Numerals *)

Definition radix_val (b : Z) (ds : list Z) : Z := fold_left (fun v d => b * v + d) ds 0.

Lemma radix_fold b ds v : fold_left (fun v d => b * v + d) ds v = v * b ^ zlen ds + radix_val b ds.
Proof.
  unfold radix_val. revert v. induction ds as [|d ds IH]; intros v.
  - change (zlen []) with 0. simpl. lia.
  - cbn [fold_left]. rewrite (IH (b * v + d)), (IH (b * 0 + d)), zlen_cons.
    rewrite Z.pow_add_r by (pose proof (zlen_nonneg ds); lia). lia.
Qed.

Lemma radix_cons b d ds : radix_val b (d :: ds) = d * b ^ zlen ds + radix_val b ds.
Proof. unfold radix_val at 1. cbn [fold_left]. rewrite radix_fold. f_equal. lia. Qed.

Definition is_digit_of (b d : Z) : Prop := 0 <= d < b.

Lemma digits_spec fuel b n acc :
  1 < b -> (0 < fuel)%nat -> 0 <= n < b ^ Z.of_nat fuel -> Forall (is_digit_of b) acc ->
  exists ds, digits fuel b n acc = ds ++ acc /\ ds <> [] /\ Forall (is_digit_of b) ds /\
    radix_val b ds = n /\ (length ds <= fuel)%nat.
Proof.
  intros Hb. revert n acc. induction fuel as [|fuel IH]; intros n acc Hf Hn Hacc; [lia|].
  cbn [digits]. pose proof (Z.mod_pos_bound n b ltac:(lia)) as Hm. pose proof (Z.div_mod n b ltac:(lia)) as Hd.
  destruct (Z.eqb_spec (n / b) 0) as [Hz|Hnz].
  - exists [n mod b]. split_and!; [done|done|by apply Forall_singleton| |simpl; lia].
    unfold radix_val. cbn [fold_left]. lia.
  - rewrite Nat2Z.inj_succ, Z.pow_succ_r in Hn by lia.
    assert (0 <= n / b < b ^ Z.of_nat fuel) as Hq.
    { split; [apply Z.div_pos; lia|]. apply Z.div_lt_upper_bound; lia. }
    destruct fuel as [|fuel]; [simpl in Hq; lia|].
    destruct (IH (n / b) (n mod b :: acc)) as (ds & -> & Hne & Hds & Hv & Hl); [lia|done|by constructor|].
    exists (ds ++ [n mod b]). rewrite <- app_assoc. split_and!; [done|by destruct ds| | |].
    + apply Forall_app. split; [done|]. by apply Forall_singleton.
    + unfold radix_val in *. rewrite fold_left_app, Hv. cbn [fold_left]. lia.
    + rewrite length_app. simpl. lia.
Qed.

Lemma dec_val_radix ds : dec_val ((fun d => 48 + d) <$> ds) = radix_val 10 ds.
Proof.
  unfold dec_val, radix_val. generalize 0. induction ds as [|d ds IH]; intros v; [done|].
  cbn [fmap list_fmap fold_left]. rewrite IH. f_equal. lia.
Qed.

Lemma isdigit_char d : is_digit_of 10 d -> isdigit (48 + d) = true.
Proof. unfold is_digit_of, isdigit. repeat case_bool. Qed.

Lemma span_digits_spec s : let '(ds, rest) := span_digits s in
  s = ds ++ rest /\ Forall (fun c => isdigit c = true) ds /\
  (rest = [] \/ exists c rest', rest = c :: rest' /\ isdigit c = false).
Proof.
  induction s as [|c s IH]; cbn [span_digits]; [auto|].
  destruct (isdigit c) eqn:E.
  - destruct (span_digits s) as [ds rest]. destruct IH as (-> & Hds & Hr). auto.
  - naive_solver.
Qed.

Lemma span_digits_app ds rest :
  Forall (fun c => isdigit c = true) ds ->
  (rest = [] \/ exists c rest', rest = c :: rest' /\ isdigit c = false) ->
  span_digits (ds ++ rest) = (ds, rest).
Proof.
  intros Hds Hr. induction Hds as [|c ds Hc _ IH]; cbn [app span_digits].
  - destruct Hr as [->|(c & rest' & -> & Hc)]; [done|]. cbn. by rewrite Hc.
  - by rewrite Hc, IH.
Qed.
