(* ===== verification/StringProps.v ===== *)
(** * The properties of the string utilities *)

From S2P Require Import Prelude StringEx StringInv.

(** ** Splitting and replacing *)

Lemma fold_push_raw strs ps : fold_left (push_part true false) ps strs = strs ++ ps.
Proof.
  revert strs. induction ps as [|p ps IH]; intros strs; [by rewrite app_nil_r|].
  cbn [fold_left]. rewrite IH. unfold push_part. rewrite orb_true_r, <- app_assoc. done.
Qed.

Lemma SplitStr_raw str sep : sep <> [] -> SplitStr str sep true false = pieces (length str) sep str.
Proof.
  intros Hsep. unfold SplitStr. rewrite SplitStr_loop_spec by done.
  destruct (pieces _ _ _); [|done]. cbn [fmap option_fmap option_map]. by rewrite fold_push_raw.
Qed.

Lemma pieces_more fuel fuel' sep s ps :
  pieces fuel sep s = Some ps -> (fuel <= fuel')%nat -> pieces fuel' sep s = Some ps.
Proof.
  revert fuel' s ps. induction fuel as [|fuel IH]; intros [|fuel'] s ps; cbn [pieces];
    destruct (find s sep 0); try done; try lia.
  destruct (pieces fuel sep _) as [ps'|] eqn:E; [|done]. intros [= <-] Hf.
  by rewrite (IH fuel' _ ps') by (done || lia).
Qed.

(** C13: SplitStr that keeps empty parts and does not trim always returns, and
    cuts the string at the successive leftmost occurrences of the separator:
    joined by the separator the parts give the string back, no part holds the
    separator and none overlaps with the one that follows it. *)
Theorem SplitStr_join (str sep : list Z) :
  sep <> [] ->
  exists parts rest, SplitStr str sep true false = Some (parts ++ [rest]) /\
    join sep (parts ++ [rest]) = str /\ Forall (clean_cut sep) parts /\ free_of sep rest.
Proof.
  intros Hsep. rewrite SplitStr_raw by done.
  destruct (pieces_total (length str) sep str Hsep ltac:(lia)) as [ps E].
  pose proof (pieces_spec _ _ _ _ E) as (qs & q & -> & Hj & Hc & Hf). by exists qs, q.
Qed.

Lemma SplitStr_join_witness : [44; 44] <> [] /\
  exists parts rest, SplitStr [97; 44; 44; 44; 98] [44; 44] true false = Some (parts ++ [rest]) /\
    join [44; 44] (parts ++ [rest]) = [97; 44; 44; 44; 98] /\
    Forall (clean_cut [44; 44]) parts /\ free_of [44; 44] rest.
Proof.
  split; [discriminate|]. apply (SplitStr_join [97; 44; 44; 44; 98] [44; 44]). discriminate.
Defined.

(** The parts that are kept: trimmed if asked, and not empty unless allowed. *)
Definition kept (canEmpty needTrim : bool) (parts : list (list Z)) : list (list Z) :=
  List.filter (fun p => negb (is_empty p) || canEmpty)
    ((fun p => if needTrim then TrimStr p SPACE else p) <$> parts).

Lemma fold_push_kept ce nt strs ps : fold_left (push_part ce nt) ps strs = strs ++ kept ce nt ps.
Proof.
  revert strs. induction ps as [|p ps IH]; intros strs; [by rewrite app_nil_r|].
  cbn [fold_left]. rewrite IH. unfold push_part, kept. cbn [fmap list_fmap List.filter].
  destruct (_ || _); [by rewrite <- app_assoc|done].
Qed.

Lemma length_TrimStr s c : (length (TrimStr s c) <= length s)%nat.
Proof.
  unfold TrimStr, zdrop, ztake. repeat case_match; simpl; rewrite ?length_take, ?length_drop; lia.
Qed.

(** The other modes of SplitStr split the (trimmed) string the same way,
    trim every part when asked, and drop the parts that are then empty unless
    these are allowed. *)
Theorem SplitStr_modes (str sep : list Z) (canEmpty needTrim : bool) :
  sep <> [] ->
  let str' := if needTrim then TrimStr str SPACE else str in
  SplitStr str sep canEmpty needTrim = kept canEmpty needTrim <$> SplitStr str' sep true false.
Proof.
  intros Hsep str'. rewrite SplitStr_raw by done. unfold SplitStr. fold str'.
  rewrite SplitStr_loop_spec by done.
  destruct (pieces_total (length str') sep str' Hsep ltac:(lia)) as [ps E].
  assert (length str' <= length str)%nat as Hl by (unfold str'; destruct needTrim; [apply length_TrimStr|lia]).
  rewrite E, (pieces_more _ _ _ _ _ E Hl). cbn [fmap option_fmap option_map]. by rewrite fold_push_kept.
Qed.

Lemma SplitStr_modes_witness :
  SplitStr [32; 97; 32; 44; 44; 32; 98; 32] [44] false true = Some [[97]; [98]].
Proof.
  rewrite (SplitStr_modes [32; 97; 32; 44; 44; 32; 98; 32] [44] false true) by discriminate.
  vm_compute. reflexivity.
Defined.

(** ReplaceStr always returns, and its result is the parts between the
    leftmost occurrences of [src] joined by [dst]: inserted text is never
    searched again. *)
Theorem ReplaceStr_joins (str src dst : list Z) :
  src <> [] ->
  exists parts, SplitStr str src true false = Some parts /\ ReplaceStr str src dst = Some (join dst parts).
Proof.
  intros Hsrc. rewrite SplitStr_raw by done.
  destruct (pieces_total (length str) src str Hsrc ltac:(lia)) as [ps E]. exists ps. split; [done|].
  unfold ReplaceStr. rewrite is_empty_false by done.
  pose proof (ReplaceStr_loop_spec (length str) [] str src dst Hsrc) as E'.
  change (zlen []) with 0 in E'. cbn [app] in E'. rewrite E', E. done.
Qed.

Lemma ReplaceStr_joins_witness : exists parts,
  SplitStr [97; 98; 97; 98] [97] true false = Some parts /\
  ReplaceStr [97; 98; 97; 98] [97] [97; 97] = Some (join [97; 97] parts).
Proof. apply (ReplaceStr_joins [97; 98; 97; 98] [97] [97; 97]). discriminate. Defined.

(** TrimStr on a string with a character to keep removes exactly the
    blanks of both ends; on a string of blanks alone it removes a single one
    and keeps the string as it is otherwise. *)
Theorem TrimStr_exact (str : list Z) (cTrim : Z) :
  (exists n, str = replicate n cTrim /\ TrimStr str cTrim = if (n =? 1)%nat then [] else str) \/
  (exists i j a, str = replicate i cTrim ++ TrimStr str cTrim ++ replicate j cTrim /\
     head (TrimStr str cTrim) = Some a /\ a <> cTrim /\
     exists b, last (TrimStr str cTrim) = Some b /\ b <> cTrim).
Proof.
  destruct (trim_view_total cTrim str) as [n|i a j Ha|i a mid b j Ha Hb].
  - left. exists n. split; [done|]. apply TrimStr_blank.
  - right. exists i, j, a. rewrite (TrimStr_core cTrim i a [a] j); [|done..|by exists [], a].
    split_and!; [done..|]. by exists a.
  - right. exists i, j, a.
    rewrite (TrimStr_core cTrim i a ([a] ++ mid ++ [b]) j); [|done..|by exists (a :: mid), b].
    split_and!; [done..|]. exists b. split; [|done]. by rewrite app_assoc, last_snoc.
Qed.

Example TrimStr_two_blanks : TrimStr [32; 32] 32 = [32; 32].
Proof. reflexivity. Qed.

(** ** Numbers *)

(** A decimal numeral: an optional minus sign and at least one digit. *)
Definition numeral (neg : bool) (ds : list Z) : list Z := (if neg then [45] else []) ++ ds.
Definition numeral_val (neg : bool) (ds : list Z) : Z := if neg then - dec_val ds else dec_val ds.

Lemma dec_val_nonneg ds : Forall (fun c => isdigit c = true) ds -> 0 <= dec_val ds.
Proof.
  intros Hds. unfold dec_val. enough (forall v, 0 <= v -> 0 <= fold_left (fun v c => 10 * v + (c - 48)) ds v) as H
    by (apply H; lia).
  induction Hds as [|c ds Hc _ IH]; intros v Hv; [done|]. cbn [fold_left].
  apply IH. unfold isdigit in Hc. zb. lia.
Qed.

Lemma StrToInt_numeral neg ds rest old :
  ds <> [] -> Forall (fun c => isdigit c = true) ds -> (rest = [] \/ head rest = Some 0) ->
  StrToInt (numeral neg ds ++ rest) old =
  if (INT_MIN <=? numeral_val neg ds) && (numeral_val neg ds <=? INT_MAX)
  then (true, numeral_val neg ds) else (false, old).
Proof.
  intros Hne Hds Hr. pose proof (dec_val_nonneg ds Hds) as Hv.
  assert (exists rest', rest ++ [0] = 0 :: rest') as [rest' Hr'].
  { destruct Hr as [->|Hr]; [by exists []|]. destruct rest as [|z rest]; [done|]. injection Hr as ->. by eexists. }
  assert (span_digits (ds ++ 0 :: rest') = (ds, 0 :: rest')) as Es.
  { apply span_digits_app; [done|]. right. by exists 0, rest'. }
  assert (exists c s, numeral neg ds ++ rest = c :: s /\ (isdigit c = true \/ c = 45)) as (c & s & Ec & Hc).
  { destruct neg; [by eexists 45, _; auto|]. destruct ds as [|c ds]; [done|]. inversion_clear Hds. by eexists c, _; auto. }
  assert (strtol ((numeral neg ds ++ rest) ++ [0]) =
    let v := numeral_val neg ds in
    if LONG_MAX <? v then (LONG_MAX, true, 0 :: rest', true)
    else if v <? LONG_MIN then (LONG_MIN, true, 0 :: rest', true) else (v, true, 0 :: rest', false)) as Et.
  { rewrite <- app_assoc, Hr'. unfold numeral, numeral_val. destruct neg.
    - cbn [app]. unfold strtol. rewrite Es. by rewrite is_empty_false.
    - cbn [app]. unfold strtol. destruct ds as [|d ds]; [done|].
      assert (d <> 45 /\ d <> 43) as [H45 H43] by (inversion_clear Hds; unfold isdigit in *; zb; lia).
      cbn [app] in *. repeat case_match; try congruence; simplify_eq; by rewrite Es in *; simplify_eq. }
  unfold StrToInt. rewrite Ec, <- Ec, Et.
  assert (negb (isdigit c) && negb (c =? 45) = false) as -> by (destruct Hc as [->| ->]; [done|by rewrite andb_false_r]).
  cbv zeta. unfold LONG_MAX, LONG_MIN, INT_MAX, INT_MIN in *.
  destruct (Z.ltb_spec (2 ^ 63 - 1) (numeral_val neg ds)).
  { rewrite bool_decide_eq_true_2 by done. cbn [negb orb].
    destruct (Z.leb_spec (- 2 ^ 31) (numeral_val neg ds)), (Z.leb_spec (numeral_val neg ds) (2 ^ 31 - 1)); try lia; done. }
  destruct (Z.ltb_spec (numeral_val neg ds) (- 2 ^ 63)).
  { rewrite bool_decide_eq_true_2 by done. cbn [negb orb].
    destruct (Z.leb_spec (- 2 ^ 31) (numeral_val neg ds)), (Z.leb_spec (numeral_val neg ds) (2 ^ 31 - 1)); try lia; done. }
  rewrite bool_decide_eq_true_2 by done. cbn [negb orb].
  destruct (Z.leb_spec (- 2 ^ 31) (numeral_val neg ds)), (Z.leb_spec (numeral_val neg ds) (2 ^ 31 - 1)),
    (Z.ltb_spec (2 ^ 31 - 1) (numeral_val neg ds)), (Z.ltb_spec (numeral_val neg ds) (- 2 ^ 31)); try lia; try done.
  cbn [orb andb]. f_equal. apply wrapS_small; lia.
Qed.

(** A terminated text begins with digits and ends with its terminator. *)
Lemma span_digits_terminated s :
  exists ds rest, span_digits (s ++ [0]) = (ds, rest ++ [0]) /\ s = ds ++ rest /\
    Forall (fun c => isdigit c = true) ds.
Proof.
  pose proof (span_digits_spec (s ++ [0])) as H. destruct (span_digits (s ++ [0])) as [ds r].
  destruct H as (E & Hds & _). destruct r as [|z r _] using rev_ind.
  - rewrite app_nil_r in E. rewrite <- E in Hds. apply Forall_app in Hds as [_ H0].
    by inversion_clear H0.
  - rewrite app_assoc in E. apply app_inj_tail in E as [-> ->]. by exists ds, r.
Qed.

(** What [strtol] accepts up to a NUL, after a digit or a minus sign. *)
Lemma strtol_accepts c s v r e :
  isdigit c = true \/ c = 45 -> strtol ((c :: s) ++ [0]) = (v, true, r, e) -> head r = Some 0 ->
  exists neg ds rest, c :: s = numeral neg ds ++ rest /\ ds <> [] /\
    Forall (fun c => isdigit c = true) ds /\ (rest = [] \/ head rest = Some 0).
Proof.
  intros Hc. set (body := if c =? 45 then s else c :: s).
  destruct (span_digits_terminated body) as (ds & rest & Es & Eb & Hds).
  assert (strtol ((c :: s) ++ [0]) =
    if is_empty ds then (0, false, (c :: s) ++ [0], false)
    else let v := numeral_val (c =? 45) ds in
         if LONG_MAX <? v then (LONG_MAX, true, rest ++ [0], true)
         else if v <? LONG_MIN then (LONG_MIN, true, rest ++ [0], true) else (v, true, rest ++ [0], false)) as ->.
  { unfold body, numeral_val in *. destruct (Z.eqb_spec c 45) as [->|Hn].
    - cbn [app]. unfold strtol. by rewrite Es.
    - assert (c <> 43) by (destruct Hc as [Hc|]; [unfold isdigit in Hc; zb; lia|done]).
      cbn [app] in *. unfold strtol. repeat case_match; try congruence; simplify_eq; rewrite Es in *; by simplify_eq. }
  destruct (is_empty ds) eqn:Ee; [done|]. intros E Hh.
  assert (r = rest ++ [0]) as -> by (cbv zeta in E; repeat case_match; congruence).
  exists (c =? 45), ds, rest. split_and!.
  - unfold body, numeral in *. destruct (Z.eqb_spec c 45) as [->|]; cbn [app]; by rewrite Eb.
  - by intros ->.
  - done.
  - destruct rest; [by left|by right].
Qed.

(** StrToInt succeeds exactly on the strings that are, up to their first
    NUL, a decimal numeral with an optional minus sign whose value is an int,
    and stores that value; otherwise it leaves its output as it was. *)
Theorem StrToInt_accepts (str : list Z) (old v : Z) :
  StrToInt str old = (true, v) <->
  exists neg ds rest, str = numeral neg ds ++ rest /\ ds <> [] /\
    Forall (fun c => isdigit c = true) ds /\ (rest = [] \/ head rest = Some 0) /\
    v = numeral_val neg ds /\ INT_MIN <= v <= INT_MAX.
Proof.
  split.
  - intros H. destruct str as [|c s]; [done|].
    assert (exists neg ds rest, c :: s = numeral neg ds ++ rest /\ ds <> [] /\
      Forall (fun c => isdigit c = true) ds /\ (rest = [] \/ head rest = Some 0)) as (neg & ds & rest & E & Hne & Hds & Hr).
    { unfold StrToInt in H. destruct (negb (isdigit c) && negb (c =? 45)) eqn:Ec; [done|].
      destruct (strtol ((c :: s) ++ [0])) as [[[v' found] r] e] eqn:Et.
      destruct (negb found || _ || e || _ || _) eqn:Eg; [done|]. zb. subst found.
      match goal with Hd : bool_decide _ = true |- _ => apply bool_decide_eq_true in Hd end.
      eapply strtol_accepts; [|done|done].
      destruct (isdigit c); [by left|right]. cbn [negb andb] in Ec. by zb. }
    rewrite E, StrToInt_numeral in H by done.
    destruct (Z.leb_spec INT_MIN (numeral_val neg ds)), (Z.leb_spec (numeral_val neg ds) INT_MAX);
      try done. injection H as <-. by exists neg, ds, rest.
  - intros (neg & ds & rest & -> & Hne & Hds & Hr & -> & Hv). rewrite StrToInt_numeral by done.
    destruct (Z.leb_spec INT_MIN (numeral_val neg ds)), (Z.leb_spec (numeral_val neg ds) INT_MAX); try lia. done.
Qed.

(** StrToInt reads back what ToString prints, for every int. *)
Theorem StrToInt_ToString (v old : Z) :
  INT_MIN <= v <= INT_MAX -> StrToInt (ToString_int v) old = (true, v).
Proof.
  intros Hv. unfold INT_MIN, INT_MAX in Hv.
  assert (exists neg ds, ToString_int v = numeral neg ds ++ [] /\ ds <> [] /\
    Forall (fun c => isdigit c = true) ds /\ numeral_val neg ds = v) as (neg & ds & E & Hne & Hds & Ev).
  { unfold ToString_int.
    destruct (digits_spec 10 10 (Z.abs v) []) as (ds & E & Hne & Hds & Hr & _); [lia|lia|simpl; lia|constructor|].
    rewrite app_nil_r in E.
    exists (v <? 0), ((fun d => 48 + d) <$> ds). unfold numeral, numeral_val. rewrite dec_val_radix, Hr, app_nil_r.
    split_and!.
    - destruct (Z.ltb_spec v 0); [rewrite Z.abs_neq in E by lia|rewrite Z.abs_eq in E by lia]; by rewrite E.
    - by destruct ds.
    - apply Forall_fmap. eapply Forall_impl; [exact Hds|]. intros d Hd. by apply isdigit_char.
    - destruct (Z.ltb_spec v 0); lia. }
  rewrite E, StrToInt_numeral by (auto). rewrite Ev. unfold INT_MIN, INT_MAX.
  destruct (Z.leb_spec (- 2 ^ 31) v), (Z.leb_spec v (2 ^ 31 - 1)); try lia. done.
Qed.

Lemma StrToInt_ToString_witness : StrToInt (ToString_int (- 2 ^ 31)) 5 = (true, - 2 ^ 31).
Proof. apply (StrToInt_ToString (- 2 ^ 31) 5). vm_compute. split; discriminate. Defined.

(** The digit a hexadecimal character stands for. *)
Definition hex_digit (c : Z) : Z :=
  if c <=? 57 then c - 48 else if c <=? 70 then c - 55 else c - 87.

Lemma hex_digit_char upper d : is_digit_of 16 d -> hex_digit (hex_char upper d) = d.
Proof. unfold is_digit_of, hex_digit, hex_char. intros. destruct upper; repeat case_bool. Qed.

(** DexToHexString prints the two's complement bits of its argument: one to
    eight hexadecimal digits, in the case asked for, whose value is the
    argument modulo 2^32. *)
Theorem DexToHexString_value (value : Z) (upper : bool) :
  let s := DexToHexString value upper in
  radix_val 16 (hex_digit <$> s) = value mod 2 ^ 32 /\ 1 <= zlen s <= 8 /\
  Forall (fun c => isdigit c = true \/ (if upper then 65 <= c <= 70 else 97 <= c <= 102)) s.
Proof.
  cbv zeta. unfold DexToHexString, u32, wrapU.
  pose proof (Z.mod_pos_bound value (2 ^ 32) ltac:(lia)) as Hr.
  destruct (digits_spec 8 16 (value mod 2 ^ 32) []) as (ds & -> & Hne & Hds & Hv & Hl);
    [lia|lia|simpl; lia|constructor|]. rewrite app_nil_r. split_and!.
  - rewrite <- list_fmap_compose. rewrite <- Hv. f_equal. rewrite <- (list_fmap_id ds) at 2.
    apply list_fmap_ext. intros i d Hd. rewrite Forall_lookup in Hds. by apply hex_digit_char, (Hds i).
  - unfold zlen. rewrite length_fmap. destruct ds; [done|]. simpl. lia.
  - unfold zlen. rewrite length_fmap. lia.
  - apply Forall_fmap. eapply Forall_impl; [exact Hds|]. intros d Hd.
    unfold is_digit_of in Hd. unfold isdigit, hex_char. simpl.
    destruct (Z.ltb_spec d 10); [left|right; destruct upper; lia]. repeat case_bool.
Qed.

(** ** Substrings between two marks *)

Lemma GetFirstSubStrBetween_spec str left right sub pos sub' :
  GetFirstSubStrBetween str left right sub = (Some pos, sub') ->
  exists pre post, str = pre ++ left ++ sub' ++ right ++ post /\ zdrop pos str = right ++ post /\
    clean_cut right sub' /\ (length (zdrop pos str) < length str)%nat.
Proof.
  unfold GetFirstSubStrBetween. destruct (is_empty left) eqn:El; [done|].
  destruct (is_empty right) eqn:Er; [done|]. cbn [orb].
  destruct (find str left 0) as [lp|] eqn:E1; [|done].
  pose proof (find_Some _ _ _ E1) as (rest & Es & Hl & Hp & Hr & _).
  assert (lp + zlen left = zlen (ztake lp str ++ left)) as Elp by (rewrite zlen_app; lia).
  assert (str = (ztake lp str ++ left) ++ rest) as Es' by (by rewrite <- app_assoc).
  destruct (find str right (lp + zlen left)) as [rp|] eqn:E2; [|done]. intros [= <- <-].
  rewrite Elp in *. rewrite Es' in E2 at 1. rewrite find_app in E2.
  destruct (find rest right 0) as [rp'|] eqn:E3; [|done]. injection E2 as <-.
  pose proof (find_Some _ _ _ E3) as (rest' & Er' & Hl' & Hp' & Hr' & Hn').
  set (pre := ztake lp str ++ left) in *.
  assert (substr str (zlen pre) (zlen pre + rp' - zlen pre) = ztake rp' rest) as ->.
  { unfold substr. rewrite Es', zdrop_app_exact. f_equal. lia. }
  assert (zdrop (zlen pre + rp') str = right ++ rest') as Ed.
  { rewrite Es'. rewrite zdrop_app_r by lia. replace (zlen pre + rp' - zlen pre) with rp' by lia.
    rewrite Er', <- Hl' at 1. by rewrite zdrop_app_exact. }
  exists (ztake lp str), rest'. split_and!; [| done| |].
  - rewrite Es at 1. by rewrite Er' at 1.
  - apply (clean_cut_intro _ _ rest'). by rewrite Hl', <- Er'.
  - rewrite Ed. rewrite Es', Er'. unfold pre. rewrite !length_app.
    destruct left; [done|]. simpl. lia.
Qed.

(** A part of a string between two marks, without the right mark in it. *)
Definition between (left right str part : list Z) : Prop :=
  exists pre post, str = pre ++ left ++ part ++ right ++ post /\ clean_cut right part.

(** GetSubStrBetween always returns: every iteration searches a shorter
    string. It appends to its output, and every string it appends lies in the
    input between the two marks, up to the first right mark. *)
Theorem GetSubStrBetween_sound (str left right : list Z) (sub : list (list Z)) :
  exists found, GetSubStrBetween str left right sub = Some (sub ++ found) /\
    Forall (between left right str) found.
Proof.
  unfold GetSubStrBetween.
  enough (forall fuel strTmp sub, (length strTmp <= fuel)%nat -> (exists before, str = before ++ strTmp) ->
    exists found, GetSubStrBetween_loop fuel strTmp left right sub = Some (sub ++ found) /\
      Forall (between left right str) found) as H by (apply H; [lia|by exists []]).
  induction fuel as [|fuel IH]; intros strTmp sub0 Hf [before Hb]; cbn [GetSubStrBetween_loop];
    destruct (GetFirstSubStrBetween strTmp left right []) as [[pos|] part] eqn:E;
    try (exists []; rewrite app_nil_r; by auto).
  - apply GetFirstSubStrBetween_spec in E as (pre & post & _ & _ & _ & Hlt). lia.
  - apply GetFirstSubStrBetween_spec in E as (pre & post & Es & Ed & Hc & Hlt).
    destruct (IH (zdrop pos strTmp) (sub0 ++ [part])) as (found & E & Hf'); [lia| |].
    { exists (before ++ pre ++ left ++ part). by rewrite Ed, Hb, Es, <- !app_assoc. }
    exists (part :: found). rewrite E, <- app_assoc. split; [done|]. constructor; [|done].
    exists (before ++ pre), post. by rewrite Hb, Es, <- !app_assoc.
Qed.
