(* ===== verification/SortedVector.v ===== *)
(** * The sorted vector ([base/include/sorted_vector.h])

    The comparisons of the element type are an interface: [operator<] and
    [operator==] with the laws of a strict weak order. The vector is the list
    of its elements; the algorithms of the C++ library ([lower_bound],
    [upper_bound], [sort], [merge], [unique_copy]) are defined on lists. The
    accessors that hand out a mutable reference ([EditItemAt], and [EditArray]
    for each element) are a write through it, which lets the client break the
    order. *)

From S2P Require Import Prelude.
From stdpp Require Import sorting.

Open Scope Z_scope.

Class Comparison (A : Type) := {
  less : A -> A -> bool;
  same : A -> A -> bool;
}.

Class ComparisonLaws (A : Type) `{Comparison A} := {
  less_irrefl x : less x x = false;
  less_trans x y z : less x y = true -> less y z = true -> less x z = true;
  less_weak x y z : less x z = true -> less x y = true \/ less y z = true;
  same_less x y : same x y = negb (less x y) && negb (less y x);
}.

Definition NOT_FOUND : Z := -1.
Definition ADD_FAIL : Z := -1.
Definition CAPCITY_NOT_CHANGED : Z := -1.

Section sorted_vector.
Context {A : Type} `{Comparison A}.
Implicit Types v : list A.

(** ** The algorithms of the C++ library *)

Definition not_greater (x y : A) : Prop := less y x = false.
#[export] Instance not_greater_dec x y : Decision (not_greater x y).
Proof. unfold not_greater. apply _. Defined.

(** The first element that does not satisfy [p], by its index. *)
Fixpoint partition_point (p : A -> bool) v : nat :=
  match v with
  | [] => O
  | x :: v' => if p x then S (partition_point p v') else O
  end.

Definition lower_bound v item : nat := partition_point (fun x => less x item) v.
Definition upper_bound v item : nat := partition_point (fun x => negb (less item x)) v.

(** [std::unique_copy]: of a run of equal elements the first is kept. *)
Fixpoint unique_after (last : A) v : list A :=
  match v with
  | [] => []
  | x :: v' => if same last x then unique_after last v' else x :: unique_after x v'
  end.
Definition unique_copy v : list A :=
  match v with [] => [] | x :: v' => x :: unique_after x v' end.

Definition std_sort v : list A := merge_sort not_greater v.
Definition std_merge v1 v2 : list A := list_merge not_greater v1 v2.

(** ** The operations; [AllowDuplicate] is the template parameter *)

Variable AllowDuplicate : bool.

Definition SortedVector_ctor : list A := [].

(** Copy and assignment from a vector without and with duplicates. *)
Definition SortedVector_copy_false (rhs : list A) : list A := rhs.
Definition SortedVector_copy_true (rhs : list A) : list A :=
  if AllowDuplicate then rhs else unique_copy rhs.

Definition SortedVector_assign_false (self_assign : bool) v (rhs : list A) : list A :=
  if self_assign then v else rhs.
Definition SortedVector_assign_true (self_assign : bool) v (rhs : list A) : list A :=
  if self_assign then v else if AllowDuplicate then rhs else unique_copy rhs.

Definition SortedVector_of (invec : list A) : list A :=
  if bool_decide (invec = []) then []
  else let newvector := std_sort invec in
       if AllowDuplicate then newvector else unique_copy newvector.

Definition Clear v : list A := [].
Definition Size v : Z := zlen v.
Definition IsEmpty v : bool := bool_decide (v = []).

Definition IndexOf v (item : A) : Z :=
  if bool_decide (v = []) then NOT_FOUND
  else
    let it := lower_bound v item in
    match v !! it with
    | None => NOT_FOUND
    | Some x => if same x item then Z.of_nat it else NOT_FOUND
    end.

Definition OrderOf v (item : A) : Z := Z.of_nat (upper_bound v item).

(** The vector and the result. *)
Definition Add v (item : A) : list A * Z :=
  let index := IndexOf v item in
  if negb (index =? NOT_FOUND) && negb AllowDuplicate then (v, ADD_FAIL)
  else
    let it := upper_bound v item in
    (take it v ++ item :: drop it v, Z.of_nat it).

Definition Merge v (sortedVector : list A) : list A * Z :=
  let newVec := std_merge v sortedVector in
  let v' := if negb AllowDuplicate then unique_copy newVec else newVec in
  (v', zlen v').

Definition Merge_vector v (invec : list A) : list A * Z :=
  let v' := fst (Merge v (SortedVector_of invec)) in (v', zlen v').

(** The vector and the index of the iterator. *)
Definition Erase v (index : Z) : list A * Z :=
  if zlen v <=? index then (v, zlen v)
  else (delete (Z.to_nat index) v, index).

(** [None]: undefined behaviour *)
Definition PopBack v : option (list A) :=
  match v with [] => None | _ => Some (take (length v - 1) v) end.
Definition Front v : option A := head v.
Definition Back v : option A := last v.
Definition operator_index v (index : Z) : option A := znth v index.
(** A write through the reference. *)
Definition EditItemAt v (index : Z) (item : A) : option (list A) :=
  match znth v index with Some _ => Some (<[Z.to_nat index := item]> v) | None => None end.
Definition MirrorItemAt v (index : Z) : option A :=
  if index <? 0 then znth v (zlen v + index) else znth v index.

(** The new capacity and the result; [reserve] allocates what it is asked. *)
Definition SetCapcity (capacity size : Z) : Z * Z :=
  if size <? capacity then (capacity, CAPCITY_NOT_CHANGED) else (size, size).
End sorted_vector.

(** ** Facts *)

Section sorted_facts.
Context {A : Type} `{ComparisonLaws A}.
Implicit Types v : list A.

Definition lt (x y : A) : Prop := less x y = true.

Lemma less_asym x y : less x y = true -> less y x = false.
Proof.
  intros Hxy. destruct (less y x) eqn:Hyx; [|done].
  pose proof (less_trans _ _ _ Hxy Hyx) as Hxx. by rewrite less_irrefl in Hxx.
Qed.

#[export] Instance not_greater_trans : Transitive (not_greater (A := A)).
Proof.
  intros x y z Hxy Hyz. unfold not_greater in *. destruct (less z x) eqn:E; [|done].
  destruct (less_weak z y x E); congruence.
Qed.
#[export] Instance not_greater_total : Total (not_greater (A := A)).
Proof.
  intros x y. unfold not_greater. destruct (less y x) eqn:E1; [right|by left]. by apply less_asym.
Qed.
#[export] Instance lt_trans : Transitive lt.
Proof. intros x y z. apply less_trans. Qed.

Lemma lt_not_greater x y : lt x y -> not_greater x y.
Proof. apply less_asym. Qed.

(** The order a vector keeps: strict when duplicates are not allowed. *)
Definition ordered (AllowDuplicate : bool) : relation A := if AllowDuplicate then not_greater else lt.
Definition sorted_wf (AllowDuplicate : bool) v : Prop := StronglySorted (ordered AllowDuplicate) v.

Lemma sorted_wf_weak ad v : sorted_wf ad v -> StronglySorted not_greater v.
Proof.
  destruct ad; [done|]. unfold sorted_wf. cbn. induction 1 as [|x v Hs IH Hx]; [constructor|].
  constructor; [done|]. eapply Forall_impl; [done|]. intros y. apply lt_not_greater.
Qed.

(** A partition by a property that only decreases along the vector. *)
Lemma partition_point_spec (p : A -> bool) v :
  StronglySorted not_greater v ->
  (forall x y, not_greater x y -> p y = true -> p x = true) ->
  Forall (fun x => p x = true) (take (partition_point p v) v) /\
  Forall (fun x => p x = false) (drop (partition_point p v) v).
Proof.
  intros Hs Hp. induction Hs as [|x v Hs [IH1 IH2] Hx]; [done|]. cbn [partition_point].
  destruct (p x) eqn:E; cbn [take drop]; [auto|]. split; [done|]. constructor; [done|].
  eapply Forall_impl; [done|]. intros y Hy. cbn. destruct (p y) eqn:Ey; [|done].
  by rewrite (Hp x y Hy Ey) in E.
Qed.

Lemma upper_bound_spec v item : StronglySorted not_greater v ->
  Forall (fun x => not_greater x item) (take (upper_bound v item) v) /\
  Forall (fun x => lt item x) (drop (upper_bound v item) v).
Proof.
  intros Hs. destruct (partition_point_spec (fun x => negb (less item x)) v Hs) as [H1' H2'].
  { intros x y Hxy Hy. apply negb_true_iff in Hy. apply negb_true_iff.
    destruct (less item x) eqn:E; [|done]. destruct (less_weak _ y _ E); unfold not_greater in *; congruence. }
  split; (eapply Forall_impl; [done|]); intros x Hx; cbn in Hx; [by apply negb_true_iff|by apply negb_false_iff].
Qed.

Lemma lower_bound_spec v item : StronglySorted not_greater v ->
  Forall (fun x => lt x item) (take (lower_bound v item) v) /\
  Forall (fun x => not_greater item x) (drop (lower_bound v item) v).
Proof.
  intros Hs. destruct (partition_point_spec (fun x => less x item) v Hs) as [H1' H2']; [|done].
  intros x y Hxy Hy. cbn in *. destruct (less_weak y x item Hy); unfold not_greater in *; congruence.
Qed.

Lemma same_true x y : same x y = true <-> not_greater x y /\ not_greater y x.
Proof. rewrite same_less, andb_true_iff, !negb_true_iff. unfold not_greater. tauto. Qed.

(** IndexOf finds the first equal element, if there is one. *)
Lemma IndexOf_spec v item : StronglySorted not_greater v ->
  (IndexOf v item = NOT_FOUND /\ Forall (fun x => same x item = false) v) \/
  (exists x, 0 <= IndexOf v item /\ v !! Z.to_nat (IndexOf v item) = Some x /\ same x item = true /\
     Forall (fun y => same y item = false) (take (Z.to_nat (IndexOf v item)) v)).
Proof.
  intros Hs. destruct (lower_bound_spec v item Hs) as [H1' H2'].
  assert (Forall (fun y => same y item = false) (take (lower_bound v item) v)) as Hb.
  { eapply Forall_impl; [exact H1'|]. intros y Hy. rewrite same_less. unfold lt in Hy. by rewrite Hy. }
  unfold IndexOf. case_bool_decide as Hv; [left; by subst|].
  destruct (v !! lower_bound v item) as [x|] eqn:E.
  - destruct (same x item) eqn:Ex.
    + right. exists x. rewrite Nat2Z.id. split_and!; [lia|done..].
    + left. split; [done|]. rewrite <- (take_drop (lower_bound v item) v). apply Forall_app. split; [done|].
      assert (StronglySorted not_greater (drop (lower_bound v item) v)) as Hd.
      { rewrite <- (take_drop (lower_bound v item) v) in Hs. by apply StronglySorted_app_1_r in Hs. }
      rewrite (drop_S _ _ _ E) in *. apply StronglySorted_inv in Hd as [_ Hd].
      inversion_clear H2' as [|? ? Hx _]. constructor; [done|].
      assert (less item x = true) as Hl.
      { rewrite same_less in Ex. unfold not_greater in Hx. rewrite Hx in Ex. cbn [negb andb] in Ex. by zb. }
      eapply Forall_impl; [exact Hd|]. intros y Hy. rewrite same_less.
      destruct (less_weak item y x Hl) as [->|]; [apply andb_false_r|]. unfold not_greater in Hy. congruence.
  - left. split; [done|]. rewrite <- (take_drop (lower_bound v item) v). apply Forall_app. split; [done|].
    rewrite drop_ge by (by apply lookup_ge_None). constructor.
Qed.

Lemma elem_of_Forall (P : A -> Prop) v x : Forall P v -> x ∈ v -> P x.
Proof. rewrite Forall_forall. auto. Qed.

Lemma insert_sorted (R : relation A) l1 l2 x : Transitive R ->
  StronglySorted R (l1 ++ l2) -> Forall (fun y => R y x) l1 -> Forall (R x) l2 ->
  StronglySorted R (l1 ++ x :: l2).
Proof.
  intros Ht (Hlt & H1 & H2)%StronglySorted_app Hl Hr. apply StronglySorted_app. split_and!.
  - intros y z Hy [->|Hz]%elem_of_cons; [exact (elem_of_Forall _ _ _ Hl Hy)|by apply Hlt].
  - done.
  - by constructor.
Qed.

Lemma Add_wf ad v item : sorted_wf ad v -> sorted_wf ad (fst (Add ad v item)).
Proof.
  intros Hs. pose proof (sorted_wf_weak _ _ Hs) as Hw. unfold Add.
  destruct (IndexOf_spec v item Hw) as [[Hi Hn]|(x & Hi & _)].
  - rewrite Hi. cbn [negb andb Z.eqb]. rewrite Z.eqb_refl. cbn [negb andb fst].
    destruct (upper_bound_spec v item Hw) as [Hl Hr]. rewrite <- (take_drop (upper_bound v item) v) in Hs, Hn.
    apply Forall_app in Hn as [Hn _]. unfold sorted_wf. destruct ad; cbn [ordered] in *.
    + apply insert_sorted; [apply _|done..|]. eapply Forall_impl; [exact Hr|]. intros y. apply lt_not_greater.
    + apply insert_sorted; [apply _|done| |done].
      apply Forall_forall. intros y Hy. pose proof (elem_of_Forall _ _ _ Hn Hy) as H1'.
      pose proof (elem_of_Forall _ _ _ Hl Hy) as H2'. cbn in *. rewrite same_less in H1'.
      unfold not_greater in H2'. rewrite H2', andb_true_r in H1'. by zb.
  - destruct (Z.eqb_spec (IndexOf v item) NOT_FOUND) as [E|_]; [unfold NOT_FOUND in E; lia|].
    destruct ad; [|done]. cbn [negb andb fst]. destruct (upper_bound_spec v item Hw) as [Hl Hr].
    rewrite <- (take_drop (upper_bound v item) v) in Hs.
    apply insert_sorted; [apply _|done..|]. eapply Forall_impl; [exact Hr|]. intros y. apply lt_not_greater.
Qed.

(** Deduplication leaves a strictly sorted sublist in which every element has
    an equal one. *)
Lemma unique_after_spec l v : StronglySorted not_greater v -> Forall (not_greater l) v ->
  StronglySorted lt (unique_after l v) /\ Forall (lt l) (unique_after l v).
Proof.
  revert l. induction v as [|x v IH]; intros l Hs Hl; [repeat constructor|].
  apply StronglySorted_inv in Hs as [Hs Hx]. inversion_clear Hl as [|? ? Hlx Hl']. cbn [unique_after].
  destruct (same l x) eqn:E; [by apply IH|].
  destruct (IH x Hs Hx) as [H1' H2'].
  assert (lt l x) as Hlt.
  { rewrite same_less in E. unfold not_greater in Hlx. rewrite Hlx, andb_true_r in E. by zb. }
  split; [by constructor|]. constructor; [done|]. eapply Forall_impl; [exact H2'|]. intros y. apply less_trans. done.
Qed.

Lemma unique_copy_sorted v : StronglySorted not_greater v -> StronglySorted lt (unique_copy v).
Proof.
  destruct v as [|x v]; [constructor|]. intros [Hs Hx]%StronglySorted_inv. cbn.
  destruct (unique_after_spec x v Hs Hx). by constructor.
Qed.

Lemma unique_after_sublist l v : unique_after l v `sublist_of` v.
Proof.
  revert l. induction v as [|x v IH]; intros l; cbn; [constructor|].
  destruct (same l x); [by apply sublist_cons|by apply sublist_skip].
Qed.

Lemma same_refl x : same x x = true.
Proof. by rewrite same_less, less_irrefl. Qed.

Lemma unique_after_complete l v x : x ∈ v -> exists y, (y = l \/ y ∈ unique_after l v) /\ same y x = true.
Proof.
  revert l. induction v as [|z v IH]; intros l; [by intros ?%elem_of_nil|]. cbn.
  intros [->|Hx]%elem_of_cons.
  - destruct (same l z) eqn:E; [exists l; auto|]. exists z. split; [right; left|apply same_refl].
  - destruct (same l z) eqn:E; [by apply IH|]. destruct (IH z Hx) as (y & [->|Hy] & Hs).
    + exists z. split; [right; left|done].
    + exists y. split; [right; by right|done].
Qed.

Lemma unique_copy_complete v x : x ∈ v -> exists y, y ∈ unique_copy v /\ same y x = true.
Proof.
  destruct v as [|z v]; [by intros ?%elem_of_nil|]. cbn. intros [->|Hx]%elem_of_cons.
  - exists z. split; [left|apply same_refl].
  - destruct (unique_after_complete z v x Hx) as (y & [->|Hy] & Hs).
    + exists z. split; [left|done].
    + exists y. split; [by right|done].
Qed.

Lemma unique_copy_sublist v : unique_copy v `sublist_of` v.
Proof. destruct v; [constructor|]. apply sublist_skip, unique_after_sublist. Qed.

Lemma std_sort_sorted v : StronglySorted not_greater (std_sort v).
Proof. apply StronglySorted_merge_sort; apply _. Qed.

Lemma std_merge_sorted v1 v2 :
  StronglySorted not_greater v1 -> StronglySorted not_greater v2 -> StronglySorted not_greater (std_merge v1 v2).
Proof.
  intros H1' H2'. apply Sorted_StronglySorted; [apply _|].
  apply Sorted_list_merge; [apply _|by apply StronglySorted_Sorted..].
Qed.

Lemma copy_wf ad (rhs : list A) : StronglySorted not_greater rhs -> sorted_wf ad (if ad then rhs else unique_copy rhs).
Proof. intros Hs. destruct ad; [done|]. by apply unique_copy_sorted. Qed.

Lemma SortedVector_of_wf ad invec : sorted_wf ad (SortedVector_of ad invec).
Proof.
  unfold SortedVector_of. case_bool_decide; [constructor|]. apply copy_wf, std_sort_sorted.
Qed.

Lemma Merge_wf ad v w : sorted_wf ad v -> sorted_wf ad w -> sorted_wf ad (fst (Merge ad v w)).
Proof.
  intros Hv Hw. unfold Merge. cbn [fst]. pose proof (std_merge_sorted v w) as Hm.
  pose proof (copy_wf ad (std_merge v w)) as Hc. destruct ad; cbn [negb] in *; apply Hc, Hm; by eapply sorted_wf_weak.
Qed.

Lemma sublist_sorted (R : relation A) v w : v `sublist_of` w -> StronglySorted R w -> StronglySorted R v.
Proof.
  induction 1 as [|x v w Hs IH|x v w Hs IH]; [done| |].
  - intros [Hw Hx]%StronglySorted_inv. constructor; [auto|].
    apply Forall_forall. intros y Hy. eapply elem_of_Forall; [exact Hx|]. by eapply elem_of_sublist.
  - intros [Hw _]%StronglySorted_inv. auto.
Qed.
End sorted_facts.
