(* ===== verification/SortedProps.v ===== *)
(** * The properties of the sorted vector *)

From stdpp Require Import sorting.
From S2P Require Import Prelude SortedVector.

Open Scope Z_scope.

Section programs.
Context {A : Type} `{ComparisonLaws A}.
Implicit Types v : list A.

(** What a client can do with a vector; [Merge] and the assignments take
    another sorted vector, with or without duplicates. *)
Inductive op :=
| OpAdd (item : A)
| OpMerge (w : list A)
| OpMerge_vector (invec : list A)
| OpErase (index : Z)
| OpPopBack
| OpClear
| OpAssign_false (w : list A)
| OpAssign_true (w : list A).

(** The operands are themselves well-formed vectors of their types. *)
Definition op_ok (ad : bool) (o : op) : Prop :=
  match o with
  | OpMerge w => sorted_wf ad w
  | OpErase index => 0 <= index
  | OpAssign_false w => sorted_wf false w
  | OpAssign_true w => sorted_wf true w
  | _ => True
  end.

Definition exec (ad : bool) v (o : op) : option (list A) :=
  match o with
  | OpAdd item => Some (fst (Add ad v item))
  | OpMerge w => Some (fst (Merge ad v w))
  | OpMerge_vector invec => Some (fst (Merge_vector ad v invec))
  | OpErase index => Some (fst (Erase v index))
  | OpPopBack => PopBack v
  | OpClear => Some (Clear v)
  | OpAssign_false w => Some (SortedVector_assign_false false v w)
  | OpAssign_true w => Some (SortedVector_assign_true ad false v w)
  end.

Fixpoint exec_all (ad : bool) v (os : list op) : option (list A) :=
  match os with
  | [] => Some v
  | o :: os => v' ← exec ad v o; exec_all ad v' os
  end.

Lemma delete_sublist v i : delete i v `sublist_of` v.
Proof. apply sublist_delete. Qed.

Lemma exec_wf ad v o v' : op_ok ad o -> sorted_wf ad v -> exec ad v o = Some v' -> sorted_wf ad v'.
Proof.
  destruct o; cbn [op_ok exec]; intros Ho Hv; try (intros [= <-]).
  - by apply Add_wf.
  - by apply Merge_wf.
  - apply Merge_wf; [done|apply SortedVector_of_wf].
  - unfold Erase. destruct (_ <=? _); [done|]. eapply sublist_sorted; [apply delete_sublist|done].
  - destruct v as [|x v]; [done|]. intros [= <-]. eapply sublist_sorted; [apply sublist_take|done].
  - constructor.
  - destruct ad; [|done]. by apply (sorted_wf_weak false).
  - apply copy_wf. by apply (sorted_wf_weak true).
Qed.
End programs.

(** C21: Whatever operations a client performs from an empty vector (short of
    PopBack on an empty one, which is undefined, and of stores through
    EditArray and EditItemAt), the elements stay in order, and strictly so
    when duplicates are not allowed; only PopBack can be undefined. *)
Theorem vector_stays_sorted {A} `{ComparisonLaws A} (ad : bool) (os : list (op (A := A))) :
  Forall (op_ok ad) os ->
  match exec_all ad SortedVector_ctor os with
  | Some v => sorted_wf ad v
  | None => OpPopBack ∈ os
  end.
Proof.
  enough (forall v, sorted_wf ad v -> Forall (op_ok ad) os ->
    match exec_all ad v os with Some v => sorted_wf ad v | None => OpPopBack ∈ os end) as Hg
    by (apply Hg; constructor).
  induction os as [|o os IH]; intros v Hv Hos; cbn [exec_all]; [done|].
  inversion_clear Hos as [|? ? Ho Hos']. destruct (exec ad v o) as [v'|] eqn:E; cbn [mbind option_bind].
  - specialize (IH v' (exec_wf _ _ _ _ Ho Hv E) Hos'). destruct (exec_all ad v' os); [done|by right].
  - destruct o; try done. by left.
Qed.

#[export] Instance Z_comparison : Comparison Z := {| less := Z.ltb; same := Z.eqb |}.
#[export] Instance Z_comparison_laws : ComparisonLaws Z.
Proof.
  split; cbn.
  - apply Z.ltb_irrefl.
  - intros x y z. rewrite !Z.ltb_lt. lia.
  - intros x y z. rewrite !Z.ltb_lt. lia.
  - intros x y. destruct (Z.eqb_spec x y), (Z.ltb_spec x y), (Z.ltb_spec y x); cbn; done || lia.
Qed.

Definition demo_ops : list (op (A := Z)) :=
  [OpAdd 5; OpAdd 3; OpAdd 5; OpMerge_vector [4; 3; 9]; OpErase 0; OpPopBack].

Lemma vector_stays_sorted_witness :
  exec_all false SortedVector_ctor demo_ops = Some [4; 5] /\
  match exec_all false SortedVector_ctor demo_ops with
  | Some v => sorted_wf false v
  | None => OpPopBack ∈ demo_ops
  end.
Proof.
  split; [vm_compute; reflexivity|]. apply (vector_stays_sorted false demo_ops).
  repeat (constructor; [vm_compute; discriminate || exact I|]). constructor.
Defined.

(** Add refuses an element that has an equal one when duplicates are not
    allowed; otherwise the new vector is the old one with the element inserted
    at the returned index, behind everything not greater than it and before
    everything greater. *)
Theorem Add_inserts {A} `{ComparisonLaws A} (ad : bool) (v : list A) (item : A) :
  sorted_wf ad v ->
  if negb ad && existsb (fun x => same x item) v
  then Add ad v item = (v, ADD_FAIL)
  else exists l r, v = l ++ r /\ Add ad v item = (l ++ item :: r, zlen l) /\
    Forall (fun x => less item x = false) l /\ Forall (fun x => less item x = true) r.
Proof.
  intros Hs%sorted_wf_weak.
  assert (existsb (fun x => same x item) v = negb (IndexOf v item =? NOT_FOUND)) as ->.
  { destruct (IndexOf_spec v item Hs) as [[-> Hn]|(x & Hi & Hx & Hsame & _)].
    - apply not_true_is_false. intros (x & Hx & Hsx)%existsb_exists. apply list_elem_of_In in Hx.
      pose proof (elem_of_Forall _ _ _ Hn Hx) as Hf. cbn in Hf. congruence.
    - destruct (Z.eqb_spec (IndexOf v item) NOT_FOUND) as [E|_]; [unfold NOT_FOUND in E; lia|].
      apply existsb_exists. exists x. split; [|done]. apply list_elem_of_In. by eapply list_elem_of_lookup_2. }
  unfold Add. rewrite andb_comm. destruct (_ && _); [done|].
  destruct (upper_bound_spec v item Hs) as [Hl Hr].
  exists (take (upper_bound v item) v), (drop (upper_bound v item) v). rewrite take_drop.
  split_and!; [done| |done|done]. do 2 f_equal. unfold zlen. rewrite length_take.
  assert (upper_bound v item <= length v)%nat; [|lia].
  unfold upper_bound. clear. induction v as [|x v IH]; cbn; [lia|]. destruct (negb _); lia.
Qed.

Lemma Add_inserts_witness : sorted_wf true [1; 3; 3; 7] /\
  exists l r, [1; 3; 3; 7] = l ++ r /\ Add true [1; 3; 3; 7] 3 = (l ++ 3 :: r, zlen l) /\
    Forall (fun x => less 3 x = false) l /\ Forall (fun x => less 3 x = true) r.
Proof.
  assert (sorted_wf true [1; 3; 3; 7]) as Hs by (repeat constructor).
  split; [exact Hs|]. apply (Add_inserts true [1; 3; 3; 7] 3 Hs).
Defined.

(** Merge returns the new size. With duplicates it keeps every element of
    both vectors; without, the result is part of the merged elements, strictly
    sorted, and every element of either vector has an equal one in it. *)
Theorem Merge_keeps {A} `{ComparisonLaws A} (ad : bool) (v w : list A) :
  sorted_wf ad v -> sorted_wf ad w ->
  let r := fst (Merge ad v w) in
  snd (Merge ad v w) = Size r /\ sorted_wf ad r /\
  (if ad then r ≡ₚ v ++ w
   else (forall x, x ∈ r -> x ∈ v ++ w) /\ forall x, x ∈ v ++ w -> exists y, y ∈ r /\ same y x = true).
Proof.
  intros Hv Hw r. split; [done|]. split; [by apply Merge_wf|]. unfold r, Merge. cbn [fst].
  pose proof (merge_Permutation not_greater v w) as Hp. fold (std_merge v w) in Hp.
  destruct ad; cbn [negb]; [done|]. split.
  - intros x Hx. rewrite <- Hp. eapply elem_of_sublist; [exact Hx|]. apply unique_copy_sublist.
  - intros x Hx. rewrite <- Hp in Hx. by apply unique_copy_complete.
Qed.

Lemma Merge_keeps_witness :
  let r := fst (Merge false [1; 3; 7] [3; 4]) in
  r = [1; 3; 4; 7] /\ snd (Merge false [1; 3; 7] [3; 4]) = Size r.
Proof.
  split; [vm_compute; reflexivity|].
  apply (Merge_keeps false [1; 3; 7] [3; 4]); repeat constructor.
Defined.

(** Editing an element keeps the order if the new value stays between its
    neighbours, and then changes nothing else. *)
Theorem EditItemAt_keeps_order {A} `{ComparisonLaws A} (ad : bool) (l r : list A) (old item : A) :
  sorted_wf ad (l ++ old :: r) -> Forall (fun y => ordered ad y item) l -> Forall (ordered ad item) r ->
  EditItemAt (l ++ old :: r) (zlen l) item = Some (l ++ item :: r) /\ sorted_wf ad (l ++ item :: r).
Proof.
  intros Hs Hl Hr. split.
  - unfold EditItemAt, znth. rewrite (proj2 (Z.ltb_ge _ 0)) by apply zlen_nonneg. unfold zlen. rewrite Nat2Z.id.
    rewrite list_lookup_middle by done. by rewrite insert_app_r_alt, Nat.sub_diag by lia.
  - unfold sorted_wf in *. apply StronglySorted_app in Hs as (Ha & Hs1 & Hs2). apply StronglySorted_inv in Hs2 as [Hs2 _].
    assert (Transitive (ordered ad)) as Ht by (destruct ad; apply _).
    apply insert_sorted; [exact Ht| |exact Hl|exact Hr]. apply StronglySorted_app. split_and!; [|done|done].
    intros y z Hy Hz. apply Ha; [done|by right].
Qed.

Lemma EditItemAt_keeps_order_witness : EditItemAt [1; 3; 7] 1 5 = Some [1; 5; 7].
Proof. exact (proj1 (EditItemAt_keeps_order false [1] [7] 3 5 ltac:(repeat constructor) ltac:(repeat constructor) ltac:(repeat constructor))). Defined.

(** With another value an element that is still there is lost to [IndexOf],
    and added a second time. *)
Example EditItemAt_loses_an_item :
  (fun v => (IndexOf v 7, Add false v 7)) <$> EditItemAt [1; 3; 7] 1 9 = Some (NOT_FOUND, ([1; 7; 9; 7], 1)).
Proof. reflexivity. Qed.
