(* ===== verification/RWLock.v ===== *)
(** * The read-write lock ([base/src/rwlock.cpp])

    Threads interleave between the atomic accesses to the shared fields. The
    state of a thread is the place it has reached in the body it runs and the
    guards it holds, the innermost first; a guard is pushed when its lock
    function returns and popped when its unlock function does. [writeThreadID_]
    is a plain field: an access to it is one step. *)

From S2P Require Import Prelude.

Definition LOCK_STATUS_WRITE : Z := -1.
Definition LOCK_STATUS_FREE : Z := 0.

Inductive guard := ReadGuard | WriteGuard.
#[export] Instance guard_eq_dec : EqDecision guard.
Proof. solve_decision. Defined.

(** The next access of a thread. *)
Inductive place :=
| Idle
| LockRead_entry              (** read [writeThreadID_] *)
| LockRead_load               (** [count = lockCount_] *)
| LockRead_waiters (count : Z) (** read [writeWaitCount_] *)
| LockRead_cas (count : Z)    (** [compare_exchange_weak(count, count + 1)] *)
| UnLockRead_entry            (** read [writeThreadID_] *)
| UnLockRead_dec              (** [--lockCount_] *)
| LockWrite_entry             (** read [writeThreadID_] *)
| LockWrite_announce          (** [++writeWaitCount_] *)
| LockWrite_cas               (** [compare_exchange_weak(status, LOCK_STATUS_WRITE)] *)
| LockWrite_retract           (** [--writeWaitCount_] *)
| LockWrite_own               (** [writeThreadID_ = this_thread] *)
| UnLockWrite_entry           (** read [writeThreadID_] *)
| UnLockWrite_check           (** read [lockCount_] *)
| UnLockWrite_disown          (** [writeThreadID_ = id()] *)
| UnLockWrite_store.          (** [lockCount_.store(LOCK_STATUS_FREE)] *)
#[export] Instance place_eq_dec : EqDecision place.
Proof. solve_decision. Defined.

Record thread := { at_ : place; guards : list guard }.

Record RWLock := {
  writeFirst_ : bool;
  writeThreadID_ : option Z;
  lockCount_ : Z;
  writeWaitCount_ : Z;
}.

Record system := { lock : RWLock; threads : gmap Z thread }.

Definition RWLock_ctor (writeFirst : bool) : RWLock :=
  {| writeFirst_ := writeFirst; writeThreadID_ := None; lockCount_ := 0; writeWaitCount_ := 0 |}.

Definition set_owner (l : RWLock) (o : option Z) : RWLock :=
  {| writeFirst_ := writeFirst_ l; writeThreadID_ := o; lockCount_ := lockCount_ l; writeWaitCount_ := writeWaitCount_ l |}.
Definition set_count (l : RWLock) (c : Z) : RWLock :=
  {| writeFirst_ := writeFirst_ l; writeThreadID_ := writeThreadID_ l; lockCount_ := c; writeWaitCount_ := writeWaitCount_ l |}.
Definition set_waiters (l : RWLock) (n : Z) : RWLock :=
  {| writeFirst_ := writeFirst_ l; writeThreadID_ := writeThreadID_ l; lockCount_ := lockCount_ l; writeWaitCount_ := n |}.

Definition go (th : thread) (p : place) : thread := {| at_ := p; guards := guards th |}.
Definition acquired (th : thread) (g : guard) : thread := {| at_ := Idle; guards := g :: guards th |}.
Definition released (th : thread) : thread := {| at_ := Idle; guards := tail (guards th) |}.

(** ** One access of a thread inside a lock function

    [spurious] is the failure [compare_exchange_weak] may report although the
    values agree. [None]: the thread is not inside a function, or [count + 1]
    overflows its [int], which is undefined. *)
Definition access (l : RWLock) (self : Z) (th : thread) (spurious : bool) : option (RWLock * thread) :=
  let mine := bool_decide (writeThreadID_ l = Some self) in
  match at_ th with
  | Idle => None
  | LockRead_entry => Some (l, if mine then acquired th ReadGuard else go th LockRead_load)
  | LockRead_load =>
      let count := lockCount_ l in
      Some (l, if count =? LOCK_STATUS_WRITE then go th LockRead_load
               else if writeFirst_ l then go th (LockRead_waiters count) else go th (LockRead_cas count))
  | LockRead_waiters count =>
      Some (l, if 0 <? writeWaitCount_ l then go th LockRead_load else go th (LockRead_cas count))
  | LockRead_cas count =>
      if INT_MAX <=? count then None
      else if (lockCount_ l =? count) && negb spurious
      then Some (set_count l (count + 1), acquired th ReadGuard)
      else Some (l, go th LockRead_load)
  | UnLockRead_entry => Some (l, if mine then released th else go th UnLockRead_dec)
  | UnLockRead_dec => Some (set_count l (i32 (lockCount_ l - 1)), released th)
  | LockWrite_entry => Some (l, if mine then acquired th WriteGuard else go th LockWrite_announce)
  | LockWrite_announce => Some (set_waiters l (u32 (writeWaitCount_ l + 1)), go th LockWrite_cas)
  | LockWrite_cas =>
      if (lockCount_ l =? LOCK_STATUS_FREE) && negb spurious
      then Some (set_count l LOCK_STATUS_WRITE, go th LockWrite_retract)
      else Some (l, go th LockWrite_cas)
  | LockWrite_retract => Some (set_waiters l (u32 (writeWaitCount_ l - 1)), go th LockWrite_own)
  | LockWrite_own => Some (set_owner l (Some self), acquired th WriteGuard)
  | UnLockWrite_entry => Some (l, if mine then go th UnLockWrite_check else released th)
  | UnLockWrite_check =>
      Some (l, if lockCount_ l =? LOCK_STATUS_WRITE then go th UnLockWrite_disown else released th)
  | UnLockWrite_disown => Some (set_owner l None, go th UnLockWrite_store)
  | UnLockWrite_store => Some (set_count l LOCK_STATUS_FREE, released th)
  end.

(** ** The clients

    A thread outside of a lock function constructs a guard or destroys its
    innermost one ([UniqueReadGuard], [UniqueWriteGuard]). [renesting] allows a
    write guard to be constructed by a thread that holds one. *)
Inductive event := NewRead | NewWrite | DropGuard | Run (spurious : bool).

Definition enter (renesting : bool) (th : thread) (e : event) : option thread :=
  match at_ th, e, guards th with
  | Idle, NewRead, _ => Some (go th LockRead_entry)
  | Idle, NewWrite, gs =>
      if renesting || negb (bool_decide (WriteGuard ∈ gs)) then Some (go th LockWrite_entry) else None
  | Idle, DropGuard, ReadGuard :: _ => Some (go th UnLockRead_entry)
  | Idle, DropGuard, WriteGuard :: _ => Some (go th UnLockWrite_entry)
  | _, _, _ => None
  end.

Definition step (renesting : bool) (s : system) (ev : Z * event) : option system :=
  let '(self, e) := ev in
  th ← threads s !! self;
  match e with
  | Run spurious =>
      '(l, th') ← access (lock s) self th spurious;
      Some {| lock := l; threads := <[self := th']> (threads s) |}
  | _ =>
      th' ← enter renesting th e;
      Some {| lock := lock s; threads := <[self := th']> (threads s) |}
  end.

Definition run (renesting : bool) : system -> list (Z * event) -> option system := run_steps (step renesting).

(** Threads that have not touched the lock. *)
Definition start (writeFirst : bool) (tids : gset Z) : system :=
  {| lock := RWLock_ctor writeFirst;
     threads := gset_to_gmap {| at_ := Idle; guards := [] |} tids |}.
