(* ===== verification/RWLockInv.v ===== *)
(** * The invariant of the read-write lock and its properties *)

From S2P Require Import Prelude RWLock.

(** ** What a thread holds *)

Fixpoint has_write (gs : list guard) : bool :=
  match gs with
  | [] => false
  | WriteGuard :: _ => true
  | ReadGuard :: gs => has_write gs
  end.

(** A write guard is the outermost one. *)
Fixpoint shape (gs : list guard) : Prop :=
  match gs with
  | [] => True
  | WriteGuard :: gs => gs = []
  | ReadGuard :: gs => shape gs
  end.

(** The guards counted in [lockCount_]: not those inside a write guard. *)
Definition counted (gs : list guard) : Z := if has_write gs then 0 else zlen gs.

Definition reads (th : thread) : Z := counted (guards th).

(** Whether the thread has set the counter to the write state. *)
Definition owns (th : thread) : Z :=
  if has_write (guards th) then 1
  else match at_ th with LockWrite_retract | LockWrite_own => 1 | _ => 0 end.

(** Whether [writeThreadID_] names the thread. *)
Definition named (th : thread) : bool :=
  has_write (guards th) && negb (bool_decide (at_ th = UnLockWrite_store)).

(** Whether [writeWaitCount_] counts the thread. *)
Definition waits (th : thread) : Z :=
  match at_ th with LockWrite_cas | LockWrite_retract => 1 | _ => 0 end.

Definition local_ok (th : thread) : Prop :=
  shape (guards th) /\
  match at_ th with
  | Idle | LockRead_entry => True
  | LockRead_load => has_write (guards th) = false
  | LockRead_waiters count | LockRead_cas count => has_write (guards th) = false /\ 0 <= count
  | UnLockRead_entry => head (guards th) = Some ReadGuard
  | UnLockRead_dec => head (guards th) = Some ReadGuard /\ has_write (guards th) = false
  | LockWrite_entry | LockWrite_announce | LockWrite_cas => has_write (guards th) = false
  | LockWrite_retract | LockWrite_own => guards th = []
  | UnLockWrite_entry | UnLockWrite_check | UnLockWrite_disown | UnLockWrite_store =>
      guards th = [WriteGuard]
  end.

Record inv (s : system) : Prop := {
  inv_count : lockCount_ (lock s) = if msum owns (threads s) =? 0 then msum reads (threads s) else -1;
  inv_owner : msum owns (threads s) <= 1;
  inv_exclusive : msum owns (threads s) = 1 -> msum reads (threads s) = 0;
  inv_bound : lockCount_ (lock s) <= INT_MAX;
  inv_waits : writeWaitCount_ (lock s) = u32 (msum waits (threads s));
  inv_named : forall t th, threads s !! t = Some th -> (writeThreadID_ (lock s) = Some t <-> named th = true);
  inv_known : forall t, writeThreadID_ (lock s) = Some t -> is_Some (threads s !! t);
  inv_local : forall t th, threads s !! t = Some th -> local_ok th;
}.

Lemma owns_range th : 0 <= owns th <= 1.
Proof. unfold owns. repeat case_match; lia. Qed.
Lemma reads_nonneg th : 0 <= reads th.
Proof. unfold reads, counted. case_match; [lia|apply zlen_nonneg]. Qed.
Lemma waits_range th : 0 <= waits th <= 1.
Proof. unfold waits. repeat case_match; lia. Qed.

Lemma named_owns th : named th = true -> owns th = 1.
Proof. unfold named, owns. intros [-> _]%andb_true_iff. done. Qed.

(** Only one thread owns the lock. *)
Lemma owner_unique s t th t' th' :
  inv s -> threads s !! t = Some th -> threads s !! t' = Some th' -> t <> t' ->
  owns th = 1 -> owns th' = 0 /\ reads th' = 0.
Proof.
  intros Hi Ht Ht' Hne Ho. pose proof (inv_owner s Hi) as H1.
  rewrite (msum_delete owns _ t th Ht) in H1.
  pose proof (msum_ge owns (delete t (threads s)) t' th' (fun v => proj1 (owns_range v))) as H2.
  rewrite lookup_delete_ne in H2 by done. specialize (H2 Ht').
  pose proof (owns_range th'). split; [lia|].
  assert (msum reads (threads s) = 0) as Hr.
  { apply inv_exclusive; [done|]. rewrite (msum_delete owns _ t th Ht). lia. }
  pose proof (msum_ge reads (threads s) t' th' reads_nonneg Ht'). pose proof (reads_nonneg th'). lia.
Qed.

(** ** One step of a thread *)

(** The step of [t] from [th] to [th'] keeps the invariant when it accounts
    for the change of its counters and leaves no other thread named. *)
Lemma inv_step s t th l' th' nowns nreads nwaits :
  inv s -> threads s !! t = Some th ->
  msum owns (threads s) = nowns -> msum reads (threads s) = nreads -> msum waits (threads s) = nwaits ->
  local_ok th' ->
  lockCount_ l' <= INT_MAX ->
  (let O := nowns - owns th + owns th' in
   let R := nreads - reads th + reads th' in
   lockCount_ l' = (if O =? 0 then R else -1) /\ O <= 1 /\ (O = 1 -> R = 0)) ->
  writeWaitCount_ l' = u32 (nwaits - waits th + waits th') ->
  (if named th' then writeThreadID_ l' = Some t
   else if named th then writeThreadID_ l' = None else writeThreadID_ l' = writeThreadID_ (lock s)) ->
  (named th' = true -> named th = true \/ owns th = 1) ->
  inv {| lock := l'; threads := <[t := th']> (threads s) |}.
Proof.
  intros Hi Ht <- <- <- Hl Hb (Hc & Ho & Hx) Hw Hn Hno.
  assert (forall t2 th2, threads s !! t2 = Some th2 -> t2 <> t ->
    writeThreadID_ l' = Some t2 <-> named th2 = true) as Hothers.
  { intros t2 th2 Ht2 Hne.
    pose proof (inv_named s Hi t th Ht) as Nt. pose proof (inv_named s Hi t2 th2 Ht2) as N2.
    assert (owns th = 1 -> named th2 = false) as Hu.
    { intros H1. destruct (owner_unique s t th t2 th2 Hi Ht Ht2 (not_eq_sym Hne) H1) as [H0 _].
      destruct (named th2) eqn:E; [|done]. apply named_owns in E. lia. }
    pose proof (named_owns th) as Hno'.
    destruct (named th'); [rewrite Hn; destruct (Hno eq_refl) as [Hx1|Hx1];
      [rewrite Hu by auto|rewrite Hu by auto]; split; [congruence|done|congruence|done]|].
    destruct (named th); [rewrite Hn, Hu by auto; split; congruence|]. by rewrite Hn. }
  split; cbn [lock threads]; rewrite ?(msum_insert _ _ _ _ _ Ht); try done.
  - intros t2 th2. destruct (decide (t2 = t)) as [->|Hne].
    + rewrite lookup_insert_eq. intros [= <-]. pose proof (inv_named s Hi t th Ht) as Nt.
      destruct (named th'); [by rewrite Hn|]. destruct (named th); rewrite Hn; [split; congruence|].
      split; [|done]. intros E%Nt. done.
    + rewrite lookup_insert_ne by done. intros Ht2. by apply Hothers.
  - intros t2 E. destruct (decide (t2 = t)) as [->|Hne]; [rewrite lookup_insert_eq; by eexists|].
    rewrite lookup_insert_ne by done. destruct (named th'); [congruence|].
    destruct (named th); [congruence|]. apply (inv_known s Hi). congruence.
  - intros t2 th2. destruct (decide (t2 = t)) as [->|Hne].
    + rewrite lookup_insert_eq. by intros [= <-].
    + rewrite lookup_insert_ne by done. apply (inv_local s Hi).
Qed.

Lemma u32_succ x k : u32 (u32 x + k) = u32 (x + k).
Proof. unfold u32, wrapU. apply Zplus_mod_idemp_l. Qed.

Lemma u32_pred x k : u32 (u32 x - k) = u32 (x - k).
Proof. unfold u32, wrapU. apply Zminus_mod_idemp_l. Qed.

Ltac lock_simpl :=
  unfold local_ok, reads, owns, named, waits, counted, set_count, set_owner, set_waiters, go, acquired, released;
  cbn [at_ guards lockCount_ writeWaitCount_ writeThreadID_ writeFirst_ tail has_write shape head negb andb].

(** [rw_step_inv] applies [inv_step] and closes the parts of it that follow from
    the shape of the thread and linear arithmetic. *)
Ltac rw_step_inv Hi Ht EO ER EW Hw El :=
  apply (inv_step _ _ _ _ _ _ _ _ Hi Ht EO ER EW); lock_simpl; cbv zeta;
  repeat match goal with
  | E : has_write ?gs = _ |- context [has_write ?gs] => rewrite E
  end; cbn [negb andb]; rewrite ?zlen_cons; change (zlen (@nil guard)) with 0;
  first
  [ done | tauto | lia
  | split_and!; [match goal with |- _ = (if ?x =? 0 then _ else _) => destruct (Z.eqb_spec x 0); lia end|lia..]
  | rewrite Hw, ?u32_succ, ?u32_pred; f_equal; lia
  | rewrite El; done
  | intuition (congruence || lia) | idtac ].

Lemma access_inv s t th spurious l' th' :
  inv s -> threads s !! t = Some th -> access (lock s) t th spurious = Some (l', th') ->
  inv {| lock := l'; threads := <[t := th']> (threads s) |}.
Proof.
  intros Hi Ht. pose proof (inv_local s Hi t th Ht) as Hl. pose proof (inv_named s Hi t th Ht) as Hn.
  pose proof (inv_count s Hi) as Hc. pose proof (inv_owner s Hi) as Ho. pose proof (inv_exclusive s Hi) as Hx.
  pose proof (inv_bound s Hi) as Hb. pose proof (inv_waits s Hi) as Hw.
  pose proof (msum_ge owns (threads s) t th (fun v => proj1 (owns_range v)) Ht) as Hot.
  pose proof (msum_ge reads (threads s) t th reads_nonneg Ht) as Hrt.
  pose proof (msum_nonneg reads (threads s) reads_nonneg) as HR.
  pose proof (msum_nonneg owns (threads s) (fun v => proj1 (owns_range v))) as HO.
  remember (msum owns (threads s)) as O eqn:EO. remember (msum reads (threads s)) as R eqn:ER.
  remember (msum waits (threads s)) as W eqn:EW. symmetry in EO, ER, EW.
  destruct (lock s) as [wf wid cnt wait] eqn:El. cbn in Hc, Hb, Hw, Hn.
  assert (O = 0 /\ cnt = R \/ O = 1 /\ R = 0 /\ cnt = -1) as Hcases
    by (destruct (Z.eqb_spec O 0); [by left|right; lia]). clear Hc Ho Hx.
  destruct th as [p gs]. unfold access. cbn [at_ writeThreadID_ lockCount_ writeWaitCount_ writeFirst_].
  assert (bool_decide (wid = Some t) = named {| at_ := p; guards := gs |}) as Hm.
  { destruct (named _); [apply bool_decide_eq_true_2; tauto|apply bool_decide_eq_false_2].
    intros E%Hn. done. }
  rewrite Hm. unfold LOCK_STATUS_WRITE, LOCK_STATUS_FREE. clear Hm.
  destruct p; revert Hl Hn Hot Hrt; lock_simpl; rewrite ?bool_decide_eq_true_2, ?bool_decide_eq_false_2 by done;
    cbn [negb]; rewrite ?andb_true_r, ?andb_false_r; intros [Hs Hl] Hn Hot Hrt; try done.
  - destruct (has_write gs) eqn:E; intros [= <- <-]; rw_step_inv Hi Ht EO ER EW Hw El.
  - destruct (Z.eqb_spec cnt (-1)); [|destruct wf]; intros [= <- <-]; rw_step_inv Hi Ht EO ER EW Hw El.
  - destruct Hl as [Hg Hl0]. rewrite Hg in *.
    destruct (0 <? wait); intros [= <- <-]; rw_step_inv Hi Ht EO ER EW Hw El.
  - destruct Hl as [Hg Hl0]. rewrite Hg in *.
    destruct (Z.leb_spec INT_MAX count); [done|].
    destruct (Z.eqb_spec cnt count); [destruct spurious|]; intros [= <- <-];
      rw_step_inv Hi Ht EO ER EW Hw El.
  - destruct gs as [|[] gs]; try discriminate Hl. cbn [has_write shape] in *.
    destruct (has_write gs) eqn:E; intros [= <- <-]; rw_step_inv Hi Ht EO ER EW Hw El.
  - destruct Hl as [Hl Hg]. destruct gs as [|[] gs]; try discriminate Hl. cbn [has_write shape] in *.
    rewrite Hg in *. rewrite zlen_cons in *. pose proof (zlen_nonneg gs).
    assert (i32 (cnt - 1) = cnt - 1) as Hi32 by (apply wrapS_small; unfold INT_MAX in Hb; lia).
    intros [= <- <-]. rewrite Hi32. rw_step_inv Hi Ht EO ER EW Hw El.
  - rewrite Hl in *. intros [= <- <-]; rw_step_inv Hi Ht EO ER EW Hw El.
  - intros [= <- <-]; rw_step_inv Hi Ht EO ER EW Hw El.
  - rewrite Hl in *. pose proof (zlen_nonneg gs).
    destruct (Z.eqb_spec cnt 0); [assert (gs = []) as Hgs by (apply zlen_nil_inv; lia); destruct spurious|];
      intros [= <- <-]; rw_step_inv Hi Ht EO ER EW Hw El.
  - subst gs. cbn [has_write] in *. change (zlen []) with 0 in *.
    intros [= <- <-]; rw_step_inv Hi Ht EO ER EW Hw El.
  - subst gs. cbn [has_write] in *. change (zlen []) with 0 in *.
    intros [= <- <-]; rw_step_inv Hi Ht EO ER EW Hw El.
  - subst gs. cbn [has_write] in *. intros [= <- <-]; rw_step_inv Hi Ht EO ER EW Hw El.
  - subst gs. cbn [has_write] in *. 
    destruct (Z.eqb_spec cnt (-1)); intros [= <- <-]; rw_step_inv Hi Ht EO ER EW Hw El.
  - subst gs. cbn [has_write] in *. intros [= <- <-]; rw_step_inv Hi Ht EO ER EW Hw El.
  - subst gs. cbn [has_write] in *. intros [= <- <-]; rw_step_inv Hi Ht EO ER EW Hw El.
Qed.

(** A client that enters a lock function changes no counter. *)
Lemma enter_inv s t th e th' :
  inv s -> threads s !! t = Some th -> enter false th e = Some th' ->
  inv {| lock := lock s; threads := <[t := th']> (threads s) |}.
Proof.
  intros Hi Ht He. pose proof (inv_local s Hi t th Ht) as [Hs _].
  pose proof (inv_count s Hi) as Hc. pose proof (inv_owner s Hi) as Ho. pose proof (inv_exclusive s Hi) as Hx.
  pose proof (inv_named s Hi t th Ht) as Hn.
  assert (at_ th = Idle /\ guards th' = guards th /\ owns th' = owns th /\ waits th' = waits th /\
    named th' = named th /\ local_ok th') as (_ & Hg & Eo & Ew & En & Hl).
  { destruct th as [[] gs]; try done. unfold enter in He. cbn [at_ guards] in *.
    destruct e; [..|done].
    - injection He as <-. done.
    - case_bool_decide as Hw; cbn [orb negb] in He; [done|]. injection He as <-.
      assert (has_write gs = false) as E.
      { clear -Hw. induction gs as [|[] gs IH]; cbn; [done|apply IH; set_solver|set_solver]. }
      unfold owns, waits, named, local_ok. cbn [at_ guards go]. rewrite E. done.
    - destruct gs as [|[] gs]; [done|..]; injection He as <-; [done|].
      cbn [shape] in Hs. by subst. }
  apply (inv_step _ _ _ _ _ _ _ _ Hi Ht eq_refl eq_refl eq_refl); [done|apply (inv_bound s Hi)| | | |].
  - cbv zeta. unfold reads. rewrite Hg, Eo, !Z.sub_simpl_r. auto.
  - rewrite Ew, Z.sub_simpl_r. apply (inv_waits s Hi).
  - rewrite En. destruct (named th); tauto.
  - rewrite En. auto.
Qed.

Lemma step_cases renesting s t e s' :
  step renesting s (t, e) = Some s' ->
  exists th l' th', threads s !! t = Some th /\ s' = {| lock := l'; threads := <[t := th']> (threads s) |} /\
    ((exists spurious, e = Run spurious /\ access (lock s) t th spurious = Some (l', th')) \/
     (l' = lock s /\ enter renesting th e = Some th')).
Proof.
  cbn [step]. destruct (threads s !! t) as [th|] eqn:Ht; [|done]. cbn [mbind option_bind].
  destruct e as [| | |spurious].
  1-3: match goal with |- context [enter _ _ ?e] => destruct (enter renesting th e) as [th'|] eqn:He; [|done] end;
    intros [= <-]; exists th, (lock s), th'; eauto.
  destruct (access (lock s) t th spurious) as [[l' th']|] eqn:Ha; [|done]. intros [= <-].
  exists th, l', th'. split_and!; eauto.
Qed.

Lemma step_inv_ok s ev s' : inv s -> step false s ev = Some s' -> inv s'.
Proof.
  destruct ev as [t e]. intros Hi (th & l' & th' & Ht & -> & [(sp & _ & Ha)|[-> He]])%step_cases.
  - by eapply access_inv.
  - by eapply enter_inv.
Qed.

Lemma rw_start_inv wf tids : inv (start wf tids).
Proof.
  assert (forall t th, threads (start wf tids) !! t = Some th -> th = {| at_ := Idle; guards := [] |}) as Hs.
  { intros t th Ht. cbn in Ht. by apply lookup_gset_to_gmap_Some in Ht as [_ <-]. }
  assert (forall f, f {| at_ := Idle; guards := [] |} = 0 -> msum f (threads (start wf tids)) = 0) as Hz.
  { intros f Hf. apply msum_zero. intros t th Ht%Hs. by subst. }
  split; rewrite ?(Hz owns), ?(Hz reads), ?(Hz waits) by done; try done.
  all: intros t th Ht%Hs; subst; done.
Qed.

Lemma rw_run_inv s evs s' : inv s -> run false s evs = Some s' -> inv s'.
Proof. apply run_steps_inv. intros s0 ev s1 Hi. by apply step_inv_ok. Qed.
