(* ===== verification/RWLockProps.v ===== *)
(** * The properties of the read-write lock *)

From S2P Require Import Prelude RWLock RWLockInv.

(** ** The contract of a read-write lock

    What the documentation promises, on the guards alone: a read guard may be
    constructed when no other thread holds a write guard, a write guard when
    no thread holds any, and a thread drops its innermost guard. *)
Inductive spec_step : gmap Z (list guard) -> gmap Z (list guard) -> Prop :=
| spec_read G t gs :
    G !! t = Some gs ->
    (forall t' gs', t' <> t -> G !! t' = Some gs' -> has_write gs' = false) ->
    spec_step G (<[t := ReadGuard :: gs]> G)
| spec_write G t :
    (forall t' gs', G !! t' = Some gs' -> gs' = []) -> is_Some (G !! t) ->
    spec_step G (<[t := [WriteGuard]]> G)
| spec_drop G t g gs :
    G !! t = Some (g :: gs) -> spec_step G (<[t := gs]> G).

Definition held (s : system) : gmap Z (list guard) := guards <$> threads s.

Lemma held_update (m : gmap Z thread) l t th :
  held {| lock := l; threads := <[t := th]> m |} = <[t := guards th]> (guards <$> m).
Proof. unfold held. cbn [threads]. by rewrite fmap_insert. Qed.

Lemma held_lookup s t gs : held s !! t = Some gs <-> exists th, threads s !! t = Some th /\ guards th = gs.
Proof. unfold held. rewrite lookup_fmap_Some. naive_solver. Qed.

Lemma owns_no_write th : owns th = 0 -> has_write (guards th) = false.
Proof. unfold owns. by destruct (has_write (guards th)). Qed.

Lemma idle_no_guards th : owns th = 0 -> reads th = 0 -> guards th = [].
Proof.
  intros Ho%owns_no_write. unfold reads, counted. rewrite Ho. intros Hz. apply zlen_nil_inv. lia.
Qed.

(** Another thread than the owner holds nothing; when nobody owns the lock no
    thread holds a write guard. *)
Lemma others_of_owner s t th t' gs :
  inv s -> threads s !! t = Some th -> owns th = 1 -> t' <> t -> held s !! t' = Some gs -> gs = [].
Proof.
  intros Hi Ht Ho Hne (th' & Ht' & <-)%held_lookup.
  destruct (owner_unique s t th t' th' Hi Ht Ht' (not_eq_sym Hne) Ho). by apply idle_no_guards.
Qed.

Lemma no_owner s t gs :
  inv s -> 0 <= lockCount_ (lock s) -> held s !! t = Some gs -> has_write gs = false.
Proof.
  intros Hi Hc (th & Ht & <-)%held_lookup. apply owns_no_write.
  pose proof (inv_count s Hi) as E. pose proof (inv_owner s Hi).
  pose proof (msum_ge owns (threads s) t th (fun v => proj1 (owns_range v)) Ht).
  pose proof (owns_range th). destruct (Z.eqb_spec (msum owns (threads s)) 0); lia.
Qed.

(** What an access does to the guards of its thread. *)
Lemma access_guards l t th spurious l' th' :
  access l t th spurious = Some (l', th') ->
  guards th' = guards th \/
  (guards th' = ReadGuard :: guards th /\
     (at_ th = LockRead_entry /\ writeThreadID_ l = Some t \/ at_ th = LockRead_cas (lockCount_ l))) \/
  (guards th' = WriteGuard :: guards th /\
     (at_ th = LockWrite_entry /\ writeThreadID_ l = Some t \/ at_ th = LockWrite_own)) \/
  (guards th' = tail (guards th) /\
     (at_ th = UnLockRead_entry \/ at_ th = UnLockRead_dec \/ at_ th = UnLockWrite_entry \/
      at_ th = UnLockWrite_check \/ at_ th = UnLockWrite_store)).
Proof.
  unfold access. destruct (at_ th) eqn:E; try done; try (intros [= <- <-]; cbn [guards go acquired released]; tauto).
  - case_bool_decide; intros [= <- <-]; cbn; tauto.
  - repeat case_match; intros [= <- <-]; cbn; tauto.
  - case_match; intros [= <- <-]; cbn; tauto.
  - destruct (INT_MAX <=? count); [done|]. destruct (Z.eqb_spec (lockCount_ l) count) as [<-|];
      [destruct spurious|]; intros [= <- <-]; cbn; tauto.
  - case_bool_decide; intros [= <- <-]; cbn; tauto.
  - case_bool_decide; intros [= <- <-]; cbn; tauto.
  - case_match; intros [= <- <-]; cbn; tauto.
  - case_bool_decide; intros [= <- <-]; cbn; tauto.
  - case_match; intros [= <- <-]; cbn; tauto.
Qed.

Lemma access_refines s t th spurious l' th' :
  inv s -> threads s !! t = Some th -> access (lock s) t th spurious = Some (l', th') ->
  rtc spec_step (held s) (held {| lock := l'; threads := <[t := th']> (threads s) |}).
Proof.
  intros Hi Ht Ha. rewrite held_update. fold (held s).
  assert (held s !! t = Some (guards th)) as Hh by (apply held_lookup; eauto).
  pose proof (inv_local s Hi t th Ht) as [_ Hl].
  destruct (access_guards _ _ _ _ _ _ Ha) as [->|[[-> Hp]|[[-> Hp]|[-> Hp]]]].
  - by rewrite insert_id.
  - apply rtc_once, spec_read; [done|]. intros t' gs' Hne Hg.
    destruct Hp as [[Hp Hw]|Hp]; rewrite Hp in Hl.
    + assert (owns th = 1) as Ho by (by apply named_owns, (inv_named s Hi t th Ht)).
      by rewrite (others_of_owner s t th t' gs').
    + apply (no_owner s t' gs' Hi); [lia|done].
  - assert (owns th = 1 /\ guards th = []) as [Ho Hg].
    { destruct Hp as [[Hp Hw]|Hp]; rewrite Hp in Hl.
      - exfalso. apply (inv_named s Hi t th Ht) in Hw. unfold named in Hw. by rewrite Hl in Hw.
      - unfold owns. by rewrite Hl, Hp. }
    rewrite Hg. apply rtc_once, spec_write; [|by rewrite Hh]. intros t' gs' Hg'.
    destruct (decide (t' = t)) as [->|Hne]; [congruence|]. by apply (others_of_owner s t th t').
  - assert (exists g gs, guards th = g :: gs) as (g & gs & E).
    { destruct Hp as [Hp|[Hp|[Hp|[Hp|Hp]]]]; rewrite Hp in Hl; [|destruct Hl as [Hl _]|..];
        destruct (guards th); naive_solver. }
    rewrite E in *. apply rtc_once. by apply (spec_drop _ _ g).
Qed.

(** C14: While no thread constructs a write guard inside a write guard of its own
    (read guards nest in anything, and [run false] admits no other clients),
    every interleaving of the accesses of any number of threads to the lock,
    spurious failures included, is a sequence of the steps the contract of a
    read-write lock allows: guards are only constructed when no conflicting
    guard of another thread exists. The restriction is needed: the end of a
    nested write guard releases the lock, see [nested_write_guards]. *)
Theorem rwlock_refines (writeFirst : bool) (tids : gset Z) (evs : list (Z * event)) (s : system) :
  run false (start writeFirst tids) evs = Some s ->
  rtc spec_step (gset_to_gmap [] tids) (held s).
Proof.
  assert (held (start writeFirst tids) = gset_to_gmap [] tids) as <-.
  { unfold held, start. cbn [threads]. by rewrite fmap_gset_to_gmap. }
  pose proof (rw_start_inv writeFirst tids) as Hi. revert Hi.
  generalize (start writeFirst tids). induction evs as [|[t e] evs IH]; intros s0 Hi; cbn [run run_steps].
  { by intros [= <-]. }
  destruct (step false s0 (t, e)) as [s1|] eqn:E; [|done]. cbn [mbind option_bind]. intros Hr.
  pose proof (step_inv_ok _ _ _ Hi E) as Hi1. etrans; [|by apply (IH s1)].
  apply step_cases in E as (th & l' & th' & Ht & -> & [(sp & _ & Ha)|[-> He]]).
  - by eapply access_refines.
  - rewrite held_update. fold (held s0). assert (guards th' = guards th) as ->.
    { unfold enter in He. destruct th as [[] gs]; try done. cbn [at_ guards] in He.
      destruct e; repeat case_match; naive_solver. }
    rewrite insert_id; [done|]. apply held_lookup. eauto.
Qed.

(** Two readers and a writer that has to wait for both of them. *)
Definition demo_trace : list (Z * event) :=
  [(1, NewRead); (1, Run false); (1, Run false); (1, Run false); (1, Run false);
   (2, NewRead); (2, Run false); (2, Run false); (2, Run false); (2, Run true);
   (2, Run false); (2, Run false); (2, Run false);
   (3, NewWrite); (3, Run false); (3, Run false); (3, Run false);
   (1, DropGuard); (1, Run false); (1, Run false);
   (2, DropGuard); (2, Run false); (2, Run false);
   (3, Run false); (3, Run false); (3, Run false)].

Lemma rwlock_refines_witness : exists s,
  run false (start true {[1; 2; 3]}) demo_trace = Some s /\ held s !! 3 = Some [WriteGuard] /\
  rtc spec_step (gset_to_gmap [] {[1; 2; 3]}) (held s).
Proof.
  destruct (run false (start true {[1; 2; 3]}) demo_trace) as [s|] eqn:E; [|vm_compute in E; discriminate E].
  exists s. split; [reflexivity|]. split; [vm_compute in E; injection E as <-; reflexivity|].
  exact (rwlock_refines true {[1; 2; 3]} demo_trace s E).
Defined.

(** Whatever the threads do, while one of them holds a write guard no other
    thread holds any guard, and the counter is in the write state. *)
Theorem rwlock_excludes (writeFirst : bool) (tids : gset Z) (evs : list (Z * event)) (s : system)
    (t t' : Z) (gs gs' : list guard) :
  run false (start writeFirst tids) evs = Some s ->
  held s !! t = Some gs -> WriteGuard ∈ gs -> t' <> t -> held s !! t' = Some gs' ->
  gs' = [] /\ lockCount_ (lock s) = LOCK_STATUS_WRITE.
Proof.
  intros Hr (th & Ht & <-)%held_lookup Hw Hne Hg'.
  pose proof (rw_run_inv _ _ _ (rw_start_inv writeFirst tids) Hr) as Hi.
  assert (owns th = 1) as Ho.
  { unfold owns. assert (has_write (guards th) = true) as ->; [|done].
    clear -Hw. induction (guards th) as [|[] gs IH]; cbn; [set_solver|apply IH; set_solver|done]. }
  split; [by apply (others_of_owner s t th t')|].
  rewrite (inv_count s Hi). pose proof (inv_owner s Hi).
  pose proof (msum_ge owns (threads s) t th (fun v => proj1 (owns_range v)) Ht).
  destruct (Z.eqb_spec (msum owns (threads s)) 0); [lia|done].
Qed.

Lemma rwlock_excludes_witness : exists s,
  run false (start true {[1; 2; 3]}) demo_trace = Some s /\ held s !! 1 = Some [] /\
  lockCount_ (lock s) = LOCK_STATUS_WRITE.
Proof.
  destruct (run false (start true {[1; 2; 3]}) demo_trace) as [s|] eqn:E; [|vm_compute in E; discriminate E].
  exists s. split; [reflexivity|].
  assert (held s !! 3 = Some [WriteGuard] /\ held s !! 1 = Some []) as [H3 H1]
    by (vm_compute in E; injection E as <-; split; reflexivity).
  split; [exact H1|].
  apply (rwlock_excludes true {[1; 2; 3]} demo_trace s 3 1 [WriteGuard] [] E H3); [|discriminate|exact H1].
  left.
Defined.

Lemma step_enter l m t th e th' :
  m !! t = Some th -> enter false th e = Some th' -> (forall sp, e <> Run sp) ->
  step false {| lock := l; threads := m |} (t, e) = Some {| lock := l; threads := <[t := th']> m |}.
Proof. intros Ht He Hr. cbn [step threads lock]. rewrite Ht. cbn [mbind option_bind]. rewrite He. destruct e; [done..|by edestruct Hr]. Qed.

Lemma step_access l m t th sp :
  step false {| lock := l; threads := <[t := th]> m |} (t, Run sp) =
  '(l', th') ← access l t th sp; Some {| lock := l'; threads := <[t := th']> m |}.
Proof.
  cbn [step threads lock]. rewrite lookup_insert_eq. cbn [mbind option_bind].
  destruct (access l t th sp) as [[l' th']|]; [|done]. cbn [mbind option_bind]. by rewrite insert_insert_eq.
Qed.

(** C15: While no thread nests write guards (as in C14), when every thread has
    returned from the lock functions and dropped its guards the lock is exactly
    as constructed, so the next writer is not kept out by what the others did
    before. *)
Theorem rwlock_recovers (writeFirst : bool) (tids : gset Z) (evs : list (Z * event)) (s : system) :
  run false (start writeFirst tids) evs = Some s ->
  (forall t th, threads s !! t = Some th -> at_ th = Idle /\ guards th = []) ->
  lock s = RWLock_ctor writeFirst /\
  forall t, t ∈ dom (threads s) ->
    exists s', run false s [(t, NewWrite); (t, Run false); (t, Run false); (t, Run false);
                            (t, Run false); (t, Run false)] = Some s' /\ held s' !! t = Some [WriteGuard].
Proof.
  intros Hr Hq. pose proof (rw_run_inv _ _ _ (rw_start_inv writeFirst tids) Hr) as Hi.
  assert (forall f, (forall th, at_ th = Idle -> guards th = [] -> f th = 0) -> msum f (threads s) = 0) as Hz.
  { intros f Hf. apply msum_zero. intros t th Ht. destruct (Hq t th Ht). by apply Hf. }
  assert (writeFirst_ (lock s) = writeFirst) as Hwf.
  { change (writeFirst_ (lock s) = writeFirst_ (lock (start writeFirst tids))). clear -Hr. revert Hr.
    generalize (start writeFirst tids). induction evs as [|[t e] evs IH]; intros s0; cbn [run run_steps]; [by intros [= <-]|].
    destruct (step false s0 (t, e)) as [s1|] eqn:E; [|done]. cbn [mbind option_bind]. intros Hr. rewrite (IH s1 Hr).
    apply step_cases in E as (th & l' & th' & Ht & -> & [(sp & _ & Ha)|[-> _]]); [|done]. cbn [lock].
    unfold access in Ha. repeat case_match; naive_solver. }
  assert (lock s = RWLock_ctor writeFirst) as El.
  { pose proof (inv_count s Hi) as Hc. pose proof (inv_waits s Hi) as Hw.
    rewrite (Hz owns), (Hz reads) in Hc by (intros [] ? ?; cbn in *; by subst).
    rewrite (Hz waits) in Hw by (intros [] ? ?; cbn in *; by subst).
    destruct (writeThreadID_ (lock s)) as [t|] eqn:Et.
    - exfalso. destruct (inv_known s Hi t Et) as [th Ht]. pose proof (proj1 (inv_named s Hi t th Ht) Et) as Hn.
      destruct (Hq t th Ht) as [_ Hg]. unfold named in Hn. by rewrite Hg in Hn.
    - destruct (lock s) as [wf wid cnt wait]. cbn in *. by subst. }
  split; [done|]. intros t Ht. rewrite elem_of_dom in Ht. destruct Ht as [th Ht].
  destruct (Hq t th Ht) as [Ha Hg]. destruct th as [p gs]. cbn in Ha, Hg. subst p gs.
  destruct s as [l ths]. cbn [lock threads] in *. subst l.
  cbn [run run_steps]. rewrite (step_enter _ _ _ _ _ (go {| at_ := Idle; guards := [] |} LockWrite_entry) Ht) by done.
  opt. do 5 (rewrite step_access; cbn -[step bool_decide mbind]; rewrite ?bool_decide_eq_false_2 by done; opt).
  cbn. eexists. split; [reflexivity|]. rewrite held_update. apply lookup_insert_eq.
Qed.

Lemma rwlock_recovers_witness : exists s,
  run false (start true {[1; 2; 3]}) (demo_trace ++ [(3, DropGuard); (3, Run false); (3, Run false); (3, Run false); (3, Run false)]) = Some s /\
  lock s = RWLock_ctor true.
Proof.
  destruct (run false (start true {[1; 2; 3]}) (demo_trace ++ [(3, DropGuard); (3, Run false); (3, Run false); (3, Run false); (3, Run false)]))
    as [s|] eqn:E; [|vm_compute in E; discriminate E].
  exists s. split; [reflexivity|].
  apply (rwlock_recovers true {[1; 2; 3]} _ s E). vm_compute in E. injection E as <-.
  match goal with |- forall t th, threads ?s !! t = Some th -> _ =>
    assert (map_Forall (fun _ th => at_ th = Idle /\ guards th = []) (threads s)) as Hall
      by (refine (proj1 (bool_decide_eq_true _) _); vm_compute; reflexivity) end.
  exact Hall.
Defined.

(** A thread that nests write guards: the inner destructor releases the lock
    while the outer guard still exists, and a second writer enters. *)
Example nested_write_guards : exists s,
  run true (start true {[1; 2]})
    ([(1, NewWrite)] ++ replicate 5 (1, Run false) ++ [(1, NewWrite); (1, Run false)] ++
     [(1, DropGuard)] ++ replicate 4 (1, Run false) ++
     [(2, NewWrite)] ++ replicate 5 (2, Run false)) = Some s /\
  held s !! 1 = Some [WriteGuard] /\ held s !! 2 = Some [WriteGuard].
Proof. eexists. split; [vm_compute; reflexivity|]. by vm_compute. Qed.
