(* ===== verification/Monitor.v ===== *)
(** * Threads, a mutex and condition variables

    The interleaving semantics the blocking components share. A critical
    section is one step of the thread that holds the mutex; [wait] puts the
    thread to sleep on a condition variable and releases the mutex in the same
    step; a sleeper is woken by a notification or spuriously and then takes
    the mutex again to go on. Which sleeper [notify_one] wakes is a choice of
    the scheduler. *)

From S2P Require Import Prelude.

(** [Running o]: inside operation [o], about to take the mutex; [Asleep] and
    [Woken] remember the condition variable. *)
Inductive tstate (Op Cv : Type) :=
| Running (o : Op)
| Asleep (cv : Cv) (o : Op)
| Woken (cv : Cv) (o : Op)
| Outside.
Arguments Running {_ _} _.
Arguments Asleep {_ _} _ _.
Arguments Woken {_ _} _ _.
Arguments Outside {_ _}.

Section monitor.
Context {Op Cv : Type} `{EqDecision Cv}.
Implicit Types m : gmap Z (tstate Op Cv).

Definition asleep (cv : Cv) (th : tstate Op Cv) : Z :=
  match th with Asleep cv' _ => if decide (cv' = cv) then 1 else 0 | _ => 0 end.
Definition woken (cv : Cv) (th : tstate Op Cv) : Z :=
  match th with Woken cv' _ => if decide (cv' = cv) then 1 else 0 | _ => 0 end.

Definition sleepers cv m : Z := msum (asleep cv) m.
Definition wakers cv m : Z := msum (woken cv) m.

(** [w] is the thread the scheduler chose, none only when nobody sleeps. *)
Definition notify_one (cv : Cv) (w : option Z) m : option (gmap Z (tstate Op Cv)) :=
  match w with
  | None => if sleepers cv m =? 0 then Some m else None
  | Some t =>
      match m !! t with
      | Some (Asleep cv' o) => if decide (cv' = cv) then Some (<[t := Woken cv o]> m) else None
      | _ => None
      end
  end.

Definition wake (cv : Cv) (th : tstate Op Cv) : tstate Op Cv :=
  match th with
  | Asleep cv' o => if decide (cv' = cv) then Woken cv o else th
  | _ => th
  end.
Definition notify_all (cv : Cv) m : gmap Z (tstate Op Cv) := wake cv <$> m.

(** A wake-up nobody asked for. *)
Definition spurious_wake (t : Z) m : option (gmap Z (tstate Op Cv)) :=
  match m !! t with
  | Some (Asleep cv o) => Some (<[t := Woken cv o]> m)
  | _ => None
  end.

Lemma asleep_nonneg cv th : 0 <= asleep cv th.
Proof. unfold asleep. repeat case_match; lia. Qed.
Lemma woken_nonneg cv th : 0 <= woken cv th.
Proof. unfold woken. repeat case_match; lia. Qed.
Lemma sleepers_nonneg cv m : 0 <= sleepers cv m.
Proof. apply msum_nonneg, asleep_nonneg. Qed.
Lemma wakers_nonneg cv m : 0 <= wakers cv m.
Proof. apply msum_nonneg, woken_nonneg. Qed.

Lemma sleeper_exists cv m : sleepers cv m <> 0 -> exists t o, m !! t = Some (Asleep cv o).
Proof.
  intros (t & th & Ht & Hn)%msum_nonzero. destruct th as [|cv' o| |]; cbn in Hn; try done.
  case_decide; [subst|done]. by exists t, o.
Qed.
Lemma waker_exists cv m : wakers cv m <> 0 -> exists t o, m !! t = Some (Woken cv o).
Proof.
  intros (t & th & Ht & Hn)%msum_nonzero. destruct th as [| |cv' o|]; cbn in Hn; try done.
  case_decide; [subst|done]. by exists t, o.
Qed.
Lemma asleep_counts cv m t o : m !! t = Some (Asleep cv o) -> 1 <= sleepers cv m.
Proof.
  intros Ht. pose proof (msum_ge (asleep cv) m t _ (asleep_nonneg cv) Ht) as H. cbn in H.
  by rewrite decide_True in H.
Qed.

(** The scheduler always has a choice. *)
Lemma notify_one_total cv m : exists w m', notify_one cv w m = Some m'.
Proof.
  destruct (Z.eq_dec (sleepers cv m) 0) as [E|(t & o & Ht)%sleeper_exists].
  - exists None. cbn. rewrite E. by eexists.
  - exists (Some t). cbn. rewrite Ht, decide_True by done. by eexists.
Qed.

(** What a thread outside of the sleep of [cv] sees after a notification. *)
Lemma notify_one_lookup cv w m m' t th :
  notify_one cv w m = Some m' -> m !! t = Some th -> asleep cv th = 0 -> m' !! t = Some th.
Proof.
  unfold notify_one. intros Hn Ht Ha. destruct w as [t'|]; [|case_match; by simplify_eq].
  destruct (m !! t') as [[|cv' o| |]|] eqn:Ht'; try done. case_decide; [|done]. simplify_eq.
  destruct (decide (t' = t)) as [->|Hne]; [|by rewrite lookup_insert_ne].
  rewrite Ht in Ht'. simplify_eq. cbn in Ha. by rewrite decide_True in Ha.
Qed.

Lemma notify_one_counts cv w m m' cv' :
  notify_one cv w m = Some m' ->
  if decide (cv' = cv)
  then (sleepers cv m = 0 /\ m' = m) \/
       (sleepers cv m' = sleepers cv m - 1 /\ wakers cv m' = wakers cv m + 1)
  else sleepers cv' m' = sleepers cv' m /\ wakers cv' m' = wakers cv' m.
Proof.
  unfold notify_one. destruct w as [t|]; intros Hn.
  - destruct (m !! t) as [[|cv1 o| |]|] eqn:Ht; try done. case_decide; [|done]. simplify_eq.
    unfold sleepers, wakers. case_decide; [subst; right|];
      rewrite !(msum_insert _ _ _ _ _ Ht); cbn; repeat case_decide; try congruence; lia.
  - destruct (Z.eqb_spec (sleepers cv m) 0); [|done]. simplify_eq. case_decide; [by left|done].
Qed.

Lemma notify_all_counts cv m cv' :
  if decide (cv' = cv)
  then sleepers cv (notify_all cv m) = 0 /\ wakers cv (notify_all cv m) = wakers cv m + sleepers cv m
  else sleepers cv' (notify_all cv m) = sleepers cv' m /\ wakers cv' (notify_all cv m) = wakers cv' m.
Proof.
  unfold sleepers, wakers, notify_all. induction m as [|t th m Ht IH] using map_ind.
  - rewrite fmap_empty, !msum_empty. case_decide; lia.
  - rewrite fmap_insert. assert ((wake cv <$> m) !! t = None) by (by rewrite lookup_fmap, Ht).
    rewrite !msum_insert_new by done.
    case_decide; destruct th; cbn; repeat (case_decide; cbn); try congruence; lia.
Qed.

Lemma set_counts cv m t th th' :
  m !! t = Some th ->
  sleepers cv (<[t := th']> m) = sleepers cv m - asleep cv th + asleep cv th' /\
  wakers cv (<[t := th']> m) = wakers cv m - woken cv th + woken cv th'.
Proof. intros Ht. unfold sleepers, wakers. by rewrite !(msum_insert _ _ _ _ _ Ht). Qed.

(** What holds of every thread, and of a sleeper also when it is woken,
    survives the notifications. *)
Section every_thread.
Variable P : tstate Op Cv -> Prop.
Hypothesis P_wakes : forall cv o, P (Asleep cv o) -> P (Woken cv o).

Lemma every_notify_one cv w m m' :
  map_Forall (fun _ th => P th) m -> notify_one cv w m = Some m' -> map_Forall (fun _ th => P th) m'.
Proof.
  intros Hm Hn. unfold notify_one in Hn. destruct w as [t'|]; [|case_match; by simplify_eq].
  destruct (m !! t') as [[|cv' o| |]|] eqn:Ht'; try done. case_decide; [|done]. simplify_eq.
  apply map_Forall_insert_2; [|done]. exact (P_wakes _ _ (Hm t' _ Ht')).
Qed.

Lemma every_notify_all cv m : map_Forall (fun _ th => P th) m -> map_Forall (fun _ th => P th) (notify_all cv m).
Proof.
  intros Hm t th. unfold notify_all. rewrite lookup_fmap_Some. intros (th' & <- & Ht).
  specialize (Hm t th' Ht). destruct th' as [|cv' o| |]; cbn; try done. case_decide; [subst; by apply P_wakes|done].
Qed.
End every_thread.

(** ** No wake-up is lost

    [supply cv n m]: somebody is asleep on [cv] only if there are at least as
    many woken threads on their way as there are units [n] of what the
    sleepers wait for. *)
Definition supply (cv : Cv) (n : Z) m : Prop := sleepers cv m = 0 \/ n <= wakers cv m.

Lemma supply_notify cv n w m m' : supply cv n m -> notify_one cv w m = Some m' -> supply cv (n + 1) m'.
Proof.
  intros Hs Hn. pose proof (notify_one_counts cv w m m' cv Hn) as Hc. rewrite decide_True in Hc by done.
  unfold supply in *. destruct Hc as [[H0 ->]|[H1 H2]]; [by left|]. pose proof (sleepers_nonneg cv m').
  destruct Hs; [lia|]. right. lia.
Qed.

Lemma supply_notify_other cv cv' n w m m' :
  cv <> cv' -> supply cv n m -> notify_one cv' w m = Some m' -> supply cv n m'.
Proof.
  intros Hne Hs Hn. pose proof (notify_one_counts cv' w m m' cv Hn) as Hc. rewrite decide_False in Hc by done.
  unfold supply in *. destruct Hc as [-> ->]. done.
Qed.

Lemma supply_notify_all cv cv' n m : supply cv n m -> supply cv n (notify_all cv' m).
Proof.
  intros Hs. pose proof (notify_all_counts cv' m cv) as Hc. unfold supply in *.
  case_decide; destruct Hc as [Hc1 Hc2]; subst; [left; lia|]. by rewrite Hc1, Hc2.
Qed.

Lemma supply_le cv n n' m : n' <= n -> supply cv n m -> supply cv n' m.
Proof. unfold supply. intros ? [?|?]; [by left|right; lia]. Qed.

Lemma supply_none cv n m : n <= 0 -> supply cv n m.
Proof. intros Hn. right. pose proof (wakers_nonneg cv m). lia. Qed.

(** A thread that stops waiting takes at most one unit with it. *)
Lemma supply_set cv n m t th th' :
  m !! t = Some th -> asleep cv th' = 0 -> supply cv n m ->
  supply cv (n - woken cv th + woken cv th') (<[t := th']> m).
Proof.
  intros Ht Ha Hs. destruct (set_counts cv m t th th' Ht) as [E1 E2]. unfold supply in *. rewrite E1, E2, Ha.
  pose proof (asleep_nonneg cv th). pose proof (sleepers_nonneg cv (<[t := th']> m)). destruct Hs; [left; lia|right; lia].
Qed.

Lemma supply_set_le cv n n' m t th th' :
  supply cv n m -> m !! t = Some th -> asleep cv th' = 0 -> n' <= n - woken cv th + woken cv th' ->
  supply cv n' (<[t := th']> m).
Proof. intros Hs Ht Ha Hn. eapply supply_le; [exact Hn|]. by apply supply_set. Qed.
End monitor.
