(* ===== verification/BlockQueue.v ===== *)
(** * Blocking queues ([base/include/safe_block_queue.h])

    [SafeBlockQueue] and [SafeBlockQueueTracking] as a transition system over
    [Monitor.v]. [pushed_log] and [popped_log] are history: the elements that
    entered and left the queue, in order. *)

From S2P Require Import Prelude Monitor.

Inductive cond := cvNotEmpty_ | cvNotFull_ | cvAllTasksDone_.
#[export] Instance cond_eq_dec : EqDecision cond.
Proof. solve_decision. Defined.

Section block_queue.
Context {T : Type}.

Inductive qop :=
| Push (elem : T)
| Pop
| PushNoWait (elem : T)
| PopNotWait
| OneTaskDone
| Join.

(** What a call returns; [PopNotWait] also fills its output. *)
Inductive result :=
| Returned
| ReturnedElem (elem : T)
| ReturnedBool (b : bool)
| ReturnedTask (outtask : option T).

Record SafeBlockQueue := {
  tracking : bool;                (** [SafeBlockQueueTracking] *)
  maxSize_ : Z;
  queueT_ : list T;
  unfinishedTaskCount_ : Z;
}.

Notation threads_t := (gmap Z (tstate qop cond)).

Record system := {
  queue : SafeBlockQueue;
  threads : threads_t;
  holder : option (Z * Z);        (** inside [OneTaskDone]: the thread and its [unfinished] *)
  results : gmap Z result;
  pushed_log : list T;
  popped_log : list T;
}.

(** [maxSize_(capacity)]: an [int] becomes an [unsigned long]. *)
Definition SafeBlockQueue_ctor (track : bool) (capacity : Z) : SafeBlockQueue :=
  {| tracking := track; maxSize_ := u64 capacity; queueT_ := []; unfinishedTaskCount_ := 0 |}.

Definition with_queue (q : SafeBlockQueue) (l : list T) : SafeBlockQueue :=
  {| tracking := tracking q; maxSize_ := maxSize_ q; queueT_ := l; unfinishedTaskCount_ := unfinishedTaskCount_ q |}.
Definition with_count (q : SafeBlockQueue) (n : Z) : SafeBlockQueue :=
  {| tracking := tracking q; maxSize_ := maxSize_ q; queueT_ := queueT_ q; unfinishedTaskCount_ := n |}.

Definition Size (q : SafeBlockQueue) : Z := u32 (zlen (queueT_ q)).
Definition IsEmpty (q : SafeBlockQueue) : bool := zlen (queueT_ q) =? 0.
Definition IsFull (q : SafeBlockQueue) : bool := zlen (queueT_ q) =? maxSize_ q.
Definition GetUnfinishTaskNum (q : SafeBlockQueue) : Z := unfinishedTaskCount_ q.

(** The thread [t] returns with [r], having set the queue to [q]. *)
Definition finish (s : system) (t : Z) (q : SafeBlockQueue) (m : threads_t) (r : result)
    (pushed popped : list T) : system :=
  {| queue := q; threads := <[t := Outside]> m; holder := None; results := <[t := r]> (results s);
     pushed_log := pushed_log s ++ pushed; popped_log := popped_log s ++ popped |}.

(** The thread [t] waits on [cv]. *)
Definition sleep (s : system) (t : Z) (cv : cond) (o : qop) : system :=
  {| queue := queue s; threads := <[t := Asleep cv o]> (threads s); holder := None; results := results s;
     pushed_log := pushed_log s; popped_log := popped_log s |}.

(** The end of both [Push]es: insert and notify. *)
Definition insert_elem (s : system) (t : Z) (elem : T) (w : option Z) (r : result) (count : bool) : option system :=
  let q := with_queue (queue s) (queueT_ (queue s) ++ [elem]) in
  let q := if count && tracking q then with_count q (i32 (unfinishedTaskCount_ q + 1)) else q in
  m ← notify_one cvNotEmpty_ w (threads s);
  Some (finish s t q m r [elem] []).

(** The end of both [Pop]s: take the front and notify. *)
Definition take_elem (s : system) (t : Z) (w : option Z) (r : T -> result) : option system :=
  match queueT_ (queue s) with
  | [] => None
  | elem :: rest =>
      m ← notify_one cvNotFull_ w (threads s);
      Some (finish s t (with_queue (queue s) rest) m (r elem) [] [elem])
  end.

(** What operation [o] of thread [t] does with the mutex, up to its return or
    its next [wait]. The loops around [wait] test the condition again. *)
Definition critical (s : system) (t : Z) (o : qop) (w : option Z) : option system :=
  let q := queue s in
  match o with
  | Push elem =>
      if maxSize_ q <=? zlen (queueT_ q) then Some (sleep s t cvNotFull_ o)
      else insert_elem s t elem w Returned false
  | PushNoWait elem =>
      if maxSize_ q <=? zlen (queueT_ q)
      then Some (finish s t q (threads s) (ReturnedBool false) [] [])
      else insert_elem s t elem w (ReturnedBool true) true
  | Pop =>
      if zlen (queueT_ q) =? 0 then Some (sleep s t cvNotEmpty_ o)
      else take_elem s t w ReturnedElem
  | PopNotWait =>
      if zlen (queueT_ q) =? 0
      then Some (finish s t q (threads s) (ReturnedTask None) [] [])
      else take_elem s t w (fun elem => ReturnedTask (Some elem))
  | OneTaskDone =>
      (** reads the counter and keeps the mutex *)
      Some {| queue := q; threads := threads s; holder := Some (t, i32 (unfinishedTaskCount_ q - 1));
              results := results s; pushed_log := pushed_log s; popped_log := popped_log s |}
  | Join =>
      if unfinishedTaskCount_ q =? 0 then Some (finish s t q (threads s) Returned [] [])
      else Some (sleep s t cvAllTasksDone_ o)
  end.

(** The second half of [OneTaskDone]. *)
Definition OneTaskDone_end (s : system) (t unfinished : Z) : system :=
  if unfinished <? 0 then finish s t (queue s) (threads s) (ReturnedBool false) [] []
  else
    let m := if unfinished =? 0 then notify_all cvAllTasksDone_ (threads s) else threads s in
    finish s t (with_count (queue s) unfinished) m (ReturnedBool true) [] [].

Inductive event :=
| Call (o : qop)
| Run (w : option Z)
| Spurious.

Definition with_threads (s : system) (m : threads_t) (q : SafeBlockQueue) : system :=
  {| queue := q; threads := m; holder := holder s; results := results s;
     pushed_log := pushed_log s; popped_log := popped_log s |}.

(** [Push] of the tracking queue counts its element before it takes the mutex. *)
Definition enter (q : SafeBlockQueue) (o : qop) : SafeBlockQueue :=
  match o with
  | Push _ => if tracking q then with_count q (i32 (unfinishedTaskCount_ q + 1)) else q
  | _ => q
  end.

(** The methods of the class the queue is an object of. *)
Definition has_method (q : SafeBlockQueue) (o : qop) : bool :=
  match o with OneTaskDone | Join => tracking q | _ => true end.

Definition step (s : system) (ev : Z * event) : option system :=
  let '(t, e) := ev in
  th ← threads s !! t;
  match e, th, holder s with
  | Call o, Outside, _ =>
      if has_method (queue s) o
      then Some (with_threads s (<[t := Running o]> (threads s)) (enter (queue s) o)) else None
  | Run w, (Running o | Woken _ o), None => critical s t o w
  | Run _, Running OneTaskDone, Some (t', unfinished) =>
      if t' =? t then Some (OneTaskDone_end s t unfinished) else None
  | Spurious, Asleep _ _, _ =>
      m ← spurious_wake t (threads s); Some (with_threads s m (queue s))
  | _, _, _ => None
  end.

Definition run : system -> list (Z * event) -> option system := run_steps step.

Definition start (track : bool) (capacity : Z) (tids : gset Z) : system :=
  {| queue := SafeBlockQueue_ctor track capacity; threads := gset_to_gmap Outside tids; holder := None;
     results := ∅; pushed_log := []; popped_log := [] |}.
End block_queue.
Arguments qop : clear implicits.
Arguments result : clear implicits.
Arguments SafeBlockQueue : clear implicits.
Arguments system : clear implicits.
Arguments event : clear implicits.
