(* ===== verification/BlockQueueProps.v ===== *)
(** * The invariant of the blocking queues and their properties *)

From S2P Require Import Prelude Monitor BlockQueue.

Section invariant.
Context {T : Type}.
Implicit Types s : system T.

(** A sleeping or woken thread runs the operation its condition belongs to. *)
Definition waits_ok (th : tstate (qop T) cond) : Prop :=
  match th with
  | Asleep cv o | Woken cv o =>
      match cv, o with
      | cvNotEmpty_, Pop => True
      | cvNotFull_, Push _ => True
      | cvAllTasksDone_, Join => True
      | _, _ => False
      end
  | _ => True
  end.

Record inv s : Prop := {
  inv_bound : zlen (queueT_ (queue s)) <= maxSize_ (queue s);
  inv_fifo : pushed_log s = popped_log s ++ queueT_ (queue s);
  inv_poppers : supply cvNotEmpty_ (zlen (queueT_ (queue s))) (threads s);
  inv_pushers : supply cvNotFull_ (maxSize_ (queue s) - zlen (queueT_ (queue s))) (threads s);
  inv_waits : map_Forall (fun _ th => waits_ok th) (threads s);
}.

Lemma queue_start_inv track capacity tids : inv (start track capacity tids).
Proof.
  split; cbn.
  - apply wrapU_range. lia.
  - done.
  - by apply supply_none.
  - left. unfold sleepers. apply msum_zero. intros t th Ht. by apply lookup_gset_to_gmap_Some in Ht as [_ <-].
  - intros t th Ht. by apply lookup_gset_to_gmap_Some in Ht as [_ <-].
Qed.

Lemma queue_waits_wakes cv o : waits_ok (Asleep cv o) -> waits_ok (Woken cv o).
Proof. done. Qed.

(** A thread in its critical section runs [o] and does not sleep. *)
Definition active (th : tstate (qop T) cond) (o : qop T) : Prop :=
  th = Running o \/ exists cv, th = Woken cv o.

Lemma active_awake th o cv : active th o -> asleep cv th = 0.
Proof. by intros [->|[cv' ->]]. Qed.

(** Only a woken [Pop] counts for [cvNotEmpty_], only a [Push] for [cvNotFull_]. *)
Lemma queue_active_woken th o cv : active th o -> waits_ok th ->
  0 <= woken cv th <= match cv, o with
    | cvNotEmpty_, Pop | cvNotFull_, Push _ | cvAllTasksDone_, Join => 1 | _, _ => 0 end.
Proof.
  intros [->|[cv' ->]] Hw; cbn in *.
  - destruct cv, o; lia.
  - destruct cv', o, cv; try done; cbn; lia.
Qed.

Lemma sleep_inv s t th o cv :
  inv s -> threads s !! t = Some th -> active th o -> waits_ok (Asleep cv o) ->
  (cv = cvNotEmpty_ -> zlen (queueT_ (queue s)) <= 0) ->
  (cv = cvNotFull_ -> maxSize_ (queue s) <= zlen (queueT_ (queue s))) ->
  inv (sleep s t cv o).
Proof.
  intros Hi Ht Ha Hw He Hf. pose proof (inv_waits s Hi t th Ht) as Hth.
  pose proof (queue_active_woken th o cvNotEmpty_ Ha Hth) as W1. pose proof (queue_active_woken th o cvNotFull_ Ha Hth) as W2.
  split; cbn [queue threads sleep pushed_log popped_log].
  - apply (inv_bound s Hi).
  - apply (inv_fifo s Hi).
  - destruct cv; cbn in Hw; [by apply supply_none, He|..];
      (eapply (supply_set_le _ _ _ _ _ _ _ (inv_poppers s Hi) Ht); [done|cbn; destruct o; done || lia]).
  - destruct cv; cbn in Hw; [|by apply supply_none; specialize (Hf eq_refl); lia|];
      (eapply (supply_set_le _ _ _ _ _ _ _ (inv_pushers s Hi) Ht); [done|cbn; destruct o; done || lia]).
  - apply map_Forall_insert_2; [done|apply (inv_waits s Hi)].
Qed.

(** The thread returns; [m] is what the notifications made of the threads. *)
Lemma finish_inv s t th o q m r pushed popped :
  inv s -> active th o -> waits_ok th -> m !! t = Some th ->
  zlen (queueT_ q) <= maxSize_ q ->
  pushed_log s ++ pushed = (popped_log s ++ popped) ++ queueT_ q ->
  supply cvNotEmpty_ (zlen (queueT_ q) + match o with Pop => 1 | _ => 0 end) m ->
  supply cvNotFull_ (maxSize_ q - zlen (queueT_ q) + match o with Push _ => 1 | _ => 0 end) m ->
  map_Forall (fun _ th => waits_ok th) m ->
  inv (finish s t q m r pushed popped).
Proof.
  intros Hi Ha Hth Ht Hb Hl He Hf Hw.
  pose proof (queue_active_woken th o cvNotEmpty_ Ha Hth) as W1. pose proof (queue_active_woken th o cvNotFull_ Ha Hth) as W2.
  split; cbn [queue threads finish pushed_log popped_log]; [done|done|..].
  - apply (supply_set_le _ _ _ _ _ _ _ He Ht); [done|]. cbn. destruct o; lia.
  - apply (supply_set_le _ _ _ _ _ _ _ Hf Ht); [done|]. cbn. destruct o; lia.
  - by apply map_Forall_insert_2.
Qed.

Lemma insert_elem_inv s t th o elem w r count s' :
  inv s -> threads s !! t = Some th -> active th o ->
  o = Push elem \/ o = PushNoWait elem -> zlen (queueT_ (queue s)) < maxSize_ (queue s) ->
  insert_elem s t elem w r count = Some s' -> inv s'.
Proof.
  intros Hi Ht Ha Ho Hlt. unfold insert_elem.
  destruct (notify_one cvNotEmpty_ w (threads s)) as [m|] eqn:Hn; [|done]. cbn [mbind option_bind].
  intros [= <-]. match goal with |- inv (finish _ _ ?q' _ _ _ _) => set (q := q') end.
  assert (queueT_ q = queueT_ (queue s) ++ [elem] /\ maxSize_ q = maxSize_ (queue s)) as [Eq Em]
    by (unfold q; by case_match).
  assert (zlen (queueT_ q) = zlen (queueT_ (queue s)) + 1) as El by (rewrite Eq, zlen_app; done).
  apply (finish_inv s t th o); rewrite ?El, ?Em; [done|done|by apply (inv_waits s Hi t)| |lia|..].
  - apply (notify_one_lookup _ _ _ _ _ _ Hn Ht). by apply (active_awake th o).
  - by rewrite Eq, app_nil_r, (inv_fifo s Hi), app_assoc.
  - destruct Ho as [->| ->]; rewrite Z.add_0_r; (eapply supply_notify; [apply (inv_poppers s Hi)|done]).
  - eapply supply_le; [|eapply supply_notify_other; [|apply (inv_pushers s Hi)|done]; done].
    destruct Ho as [->| ->]; lia.
  - by apply (every_notify_one _ queue_waits_wakes _ _ _ _ (inv_waits s Hi) Hn).
Qed.

Lemma take_elem_inv s t th o w r s' :
  inv s -> threads s !! t = Some th -> active th o -> o = Pop \/ o = PopNotWait ->
  take_elem s t w r = Some s' -> inv s'.
Proof.
  intros Hi Ht Ha Ho. unfold take_elem. destruct (queueT_ (queue s)) as [|elem rest] eqn:Eq; [done|].
  destruct (notify_one cvNotFull_ w (threads s)) as [m|] eqn:Hn; [|done]. cbn [mbind option_bind]. intros [= <-].
  pose proof (inv_bound s Hi) as Hb. rewrite Eq, zlen_cons in Hb.
  apply (finish_inv s t th o); cbn [with_queue queueT_ maxSize_]; [done|done|by apply (inv_waits s Hi t)| |lia|..].
  - apply (notify_one_lookup _ _ _ _ _ _ Hn Ht). by apply (active_awake th o).
  - by rewrite app_nil_r, (inv_fifo s Hi), Eq, <- app_assoc.
  - eapply supply_le; [|eapply supply_notify_other; [|apply (inv_poppers s Hi)|done]; done].
    rewrite Eq, zlen_cons. destruct Ho as [->| ->]; lia.
  - eapply supply_le; [|eapply supply_notify; [apply (inv_pushers s Hi)|done]].
    rewrite Eq, zlen_cons. destruct Ho as [->| ->]; lia.
  - by apply (every_notify_one _ queue_waits_wakes _ _ _ _ (inv_waits s Hi) Hn).
Qed.

(** Returning without touching the elements. *)
Lemma finish_same_inv s t th o q m r :
  inv s -> m !! t = Some th -> active th o -> waits_ok th ->
  match o with Push _ | Pop => False | _ => True end ->
  queueT_ q = queueT_ (queue s) -> maxSize_ q = maxSize_ (queue s) ->
  supply cvNotEmpty_ (zlen (queueT_ (queue s))) m ->
  supply cvNotFull_ (maxSize_ (queue s) - zlen (queueT_ (queue s))) m ->
  map_Forall (fun _ th => waits_ok th) m ->
  inv (finish s t q m r [] []).
Proof.
  intros Hi Ht Ha Hth Ho Eq Em He Hf Hw. apply (finish_inv s t th o); rewrite ?Eq, ?Em, ?app_nil_r; try done.
  - apply (inv_bound s Hi).
  - apply (inv_fifo s Hi).
  - by destruct o; rewrite ?Z.add_0_r.
  - by destruct o; rewrite ?Z.add_0_r.
Qed.
End invariant.

Section steps.
Context {T : Type}.
Implicit Types s : system T.

Lemma queue_critical_inv s t th o w s' :
  inv s -> threads s !! t = Some th -> active th o -> critical s t o w = Some s' -> inv s'.
Proof.
  intros Hi Ht Ha. pose proof (inv_waits s Hi t th Ht) as Hth. unfold critical.
  assert (forall r, match o with Push _ | Pop => False | _ => True end -> inv (finish s t (queue s) (threads s) r [] [])) as Hsame.
  { intros r Ho. apply (finish_same_inv s t th o); try done; apply Hi. }
  destruct o; repeat case_bool; try (intros [= <-]).
  - by apply (sleep_inv s t th).
  - by apply (insert_elem_inv _ _ _ _ _ _ _ _ _ Hi Ht Ha); [left|].
  - pose proof (zlen_nonneg (queueT_ (queue s))). apply (sleep_inv s t th); try done. lia.
  - by apply (take_elem_inv _ _ _ _ _ _ _ Hi Ht Ha); left.
  - by apply Hsame.
  - by apply (insert_elem_inv _ _ _ _ _ _ _ _ _ Hi Ht Ha); [right|].
  - by apply Hsame.
  - by apply (take_elem_inv _ _ _ _ _ _ _ Hi Ht Ha); right.
  - split; apply Hi.
  - by apply Hsame.
  - by apply (sleep_inv s t th).
Qed.

Lemma OneTaskDone_end_inv s t u :
  inv s -> threads s !! t = Some (Running OneTaskDone) -> inv (OneTaskDone_end s t u).
Proof.
  intros Hi Ht. unfold OneTaskDone_end.
  assert (active (T := T) (Running OneTaskDone) OneTaskDone) as Ha by by left.
  assert (notify_all cvAllTasksDone_ (threads s) !! t = Some (Running OneTaskDone)) as Ht'
    by (unfold notify_all; by rewrite lookup_fmap, Ht).
  destruct (u <? 0); [|destruct (u =? 0)];
    (apply (finish_same_inv s t (Running OneTaskDone) OneTaskDone); try done; try apply Hi).
  - apply supply_notify_all, Hi.
  - apply supply_notify_all, Hi.
  - apply (every_notify_all _ queue_waits_wakes), Hi.
Qed.

Lemma queue_step_inv s ev s' : inv s -> step s ev = Some s' -> inv s'.
Proof.
  destruct ev as [t e]. intros Hi. cbn [step]. destruct (threads s !! t) as [th|] eqn:Ht; [|done].
  cbn [mbind option_bind]. destruct e as [o|w|].
  - destruct th; try done. destruct (has_method _ _); [|done]. intros [= <-].
    assert (queueT_ (enter (queue s) o) = queueT_ (queue s) /\ maxSize_ (enter (queue s) o) = maxSize_ (queue s))
      as [Eq Em] by (unfold enter; repeat case_match; done).
    split; cbn [queue threads with_threads pushed_log popped_log]; rewrite ?Eq, ?Em; try apply Hi.
    + apply (supply_set_le _ _ _ _ _ _ _ (inv_poppers s Hi) Ht); [done|cbn; lia].
    + apply (supply_set_le _ _ _ _ _ _ _ (inv_pushers s Hi) Ht); [done|cbn; lia].
    + apply map_Forall_insert_2; [done|apply Hi].
  - destruct th as [o|cv o|cv o|], (holder s) as [[t' u]|]; try done.
    + destruct o; try done. destruct (t' =? t); [|done]. intros [= <-]. by apply OneTaskDone_end_inv.
    + intros Hc. apply (queue_critical_inv s t (Running o) o w); [done|done|by left|by destruct o].
    + intros Hc. apply (queue_critical_inv s t (Woken cv o) o w); [done|done|right; by exists cv|done].
  - destruct th as [|cv o| |]; try done. unfold spurious_wake. rewrite Ht. cbn [mbind option_bind]. intros [= <-].
    pose proof (inv_waits s Hi t _ Ht) as Hw.
    split; cbn [queue threads with_threads pushed_log popped_log]; try apply Hi.
    + apply (supply_set_le _ _ _ _ _ _ _ (inv_poppers s Hi) Ht); [done|]. cbn. case_decide; lia.
    + apply (supply_set_le _ _ _ _ _ _ _ (inv_pushers s Hi) Ht); [done|]. cbn. case_decide; lia.
    + apply map_Forall_insert_2; [done|apply Hi].
Qed.

Lemma queue_run_inv s evs s' : inv s -> run s evs = Some s' -> inv s'.
Proof. apply run_steps_inv. intros s0 ev s1 Hi. by apply queue_step_inv. Qed.
End steps.

(** C16: Whatever the threads call and however they are scheduled (spurious
    wake-ups included), the queue never holds more elements than its capacity,
    and the elements come out in the order in which they went in: what was
    pushed is what was popped followed by what is in the queue. *)
Theorem queue_is_bounded_fifo {T} (track : bool) (capacity : Z) (tids : gset Z)
    (evs : list (Z * event T)) (s : system T) :
  run (start track capacity tids) evs = Some s ->
  zlen (queueT_ (queue s)) <= u64 capacity /\ pushed_log s = popped_log s ++ queueT_ (queue s).
Proof.
  intros Hr. assert (maxSize_ (queue s) = u64 capacity) as <-.
  { change (u64 capacity) with (maxSize_ (queue (start (T := T) track capacity tids))). clear -Hr. revert Hr.
    generalize (start (T := T) track capacity tids).
    induction evs as [|ev evs IH]; intros s0; cbn [run run_steps]; [by intros [= <-]|].
    destruct (step s0 ev) as [s1|] eqn:E; [|done]. cbn [mbind option_bind]. intros Hr. rewrite (IH s1 Hr).
    destruct ev as [t e]. cbn [step] in E. destruct (threads s0 !! t) as [th|]; [|done]. cbn [mbind option_bind] in E.
    destruct e, th, (holder s0) as [[]|]; try done;
      unfold critical, insert_elem, take_elem, OneTaskDone_end, enter, mbind, option_bind in E;
      repeat case_match; simplify_eq; done. }
  pose proof (queue_run_inv _ _ _ (queue_start_inv track capacity tids) Hr) as Hi. split; apply Hi.
Qed.

(** A consumer sleeps, two producers fill a queue of one element, the second
    has to wait, and both elements arrive. *)
Definition demo_events : list (Z * event Z) :=
  [(1, Call Pop); (1, Run None);
   (2, Call (Push 10)); (2, Run (Some 1)); (3, Call (Push 20)); (3, Run None); (3, Spurious); (3, Run None);
   (1, Run (Some 3)); (3, Run None); (1, Call PopNotWait); (1, Run None)].

Lemma queue_is_bounded_fifo_witness : exists s,
  run (start false 1 {[1; 2; 3]}) demo_events = Some s /\ popped_log s = [10; 20] /\
  zlen (queueT_ (queue s)) <= u64 1 /\ pushed_log s = popped_log s ++ queueT_ (queue s).
Proof.
  destruct (run (start false 1 {[1; 2; 3]}) demo_events) as [s|] eqn:E; [|vm_compute in E; discriminate E].
  exists s. split; [reflexivity|]. split; [vm_compute in E; injection E as <-; reflexivity|].
  exact (queue_is_bounded_fifo false 1 {[1; 2; 3]} demo_events s E).
Defined.

(** C17: No wake-up is lost. When a Pop sleeps although there is an element, a
    woken Pop is on its way, and as soon as the mutex is free it takes the
    first element; when a Push sleeps although there is room, a woken Push is
    on its way and inserts. *)
Theorem no_lost_wakeup {T} (track : bool) (capacity : Z) (tids : gset Z)
    (evs : list (Z * event T)) (s : system T) (t : Z) (cv : cond) (o : qop T) :
  run (start track capacity tids) evs = Some s -> threads s !! t = Some (Asleep cv o) -> holder s = None ->
  match o with
  | Pop => forall elem rest, queueT_ (queue s) = elem :: rest ->
      exists t' w s', threads s !! t' = Some (Woken cvNotEmpty_ Pop) /\ step s (t', Run w) = Some s' /\
        popped_log s' = popped_log s ++ [elem]
  | Push _ => zlen (queueT_ (queue s)) < maxSize_ (queue s) ->
      exists t' w s' elem, threads s !! t' = Some (Woken cvNotFull_ (Push elem)) /\
        step s (t', Run w) = Some s' /\ pushed_log s' = pushed_log s ++ [elem]
  | _ => True
  end.
Proof.
  intros Hr Ht Hh. pose proof (queue_run_inv _ _ _ (queue_start_inv track capacity tids) Hr) as Hi.
  pose proof (inv_waits s Hi t _ Ht) as Hw. pose proof (asleep_counts cv _ _ _ Ht) as Hs.
  destruct o as [elem| | | | |]; try done; destruct cv; try done.
  - intros Hlt. destruct (inv_pushers s Hi) as [H0|H0]; [lia|].
    destruct (waker_exists cvNotFull_ (threads s)) as (t' & o' & Ht'); [lia|].
    pose proof (inv_waits s Hi t' _ Ht') as Hw'. destruct o' as [elem'| | | | |]; try done.
    destruct (notify_one_total cvNotEmpty_ (threads s)) as (w & m & Hn).
    exists t', w. eexists. exists elem'. split; [done|]. split; [|shelve].
    cbn [step]. rewrite Ht', Hh. cbn [mbind option_bind critical].
    destruct (Z.leb_spec (maxSize_ (queue s)) (zlen (queueT_ (queue s)))); [lia|].
    unfold insert_elem. rewrite Hn. reflexivity.
    Unshelve. done.
  - intros elem rest Eq. destruct (inv_poppers s Hi) as [H0|H0]; [lia|]. rewrite Eq, zlen_cons in H0.
    pose proof (zlen_nonneg rest).
    destruct (waker_exists cvNotEmpty_ (threads s)) as (t' & o' & Ht'); [lia|].
    pose proof (inv_waits s Hi t' _ Ht') as Hw'. destruct o'; try done.
    destruct (notify_one_total cvNotFull_ (threads s)) as (w & m & Hn).
    exists t', w. eexists. split; [done|]. split; [|shelve].
    cbn [step]. rewrite Ht', Hh. cbn [mbind option_bind critical]. rewrite Eq, zlen_cons.
    destruct (Z.eqb_spec (1 + zlen rest) 0); [lia|]. unfold take_elem. rewrite Eq, Hn. reflexivity.
    Unshelve. done.
Qed.

(** Two consumers sleep when one element arrives. *)
Definition demo_sleepers : list (Z * event Z) :=
  [(1, Call Pop); (1, Run None); (3, Call Pop); (3, Run None); (2, Call (Push 10)); (2, Run (Some 1))].

Lemma no_lost_wakeup_witness : exists s,
  run (start false 1 {[1; 2; 3]}) demo_sleepers = Some s /\
  exists t' w s', threads s !! t' = Some (Woken cvNotEmpty_ Pop) /\ step s (t', Run w) = Some s' /\
    popped_log s' = popped_log s ++ [10].
Proof.
  destruct (run (start false 1 {[1; 2; 3]}) demo_sleepers) as [s|] eqn:E; [|vm_compute in E; discriminate E].
  exists s. split; [reflexivity|].
  assert (threads s !! 3 = Some (Asleep cvNotEmpty_ Pop) /\ holder s = None /\ queueT_ (queue s) = [10]) as (H3 & Hh & Hq)
    by (vm_compute in E; injection E as <-; split; [reflexivity|split; reflexivity]).
  exact (no_lost_wakeup false 1 {[1; 2; 3]} demo_sleepers s 3 cvNotEmpty_ Pop E H3 Hh 10 [] Hq).
Defined.

(** [OneTaskDone] stores the counter it read before a [Push] incremented it:
    an element is in the queue, nothing counts it, and [Join] returns. *)
Example OneTaskDone_loses_a_task : exists s,
  run (start true 4 {[1; 2]})
    [(1, Call (Push 10)); (1, Run None); (2, Call PopNotWait); (2, Run None);
     (2, Call OneTaskDone); (2, Run None);
     (1, Call (Push 20));
     (2, Run None); (1, Run None);
     (2, Call Join); (2, Run None)] = Some s /\
  queueT_ (queue s) = [20] /\ GetUnfinishTaskNum (queue s) = 0 /\ results s !! 2 = Some Returned.
Proof. eexists. split; [vm_compute; reflexivity|]. by vm_compute. Qed.
