(* ===== verification/Semaphore.v ===== *)
(** * The semaphore ([base/src/semaphore_ex.cpp])

    [passed] and [posted] are history: the calls of Wait that returned and the
    calls of Post. [wakeups] tells whether the condition variable may wake a
    thread that nobody notified, as the C++ standard allows. *)

From S2P Require Import Prelude Monitor.

Inductive sem_op := Wait | Post.

Notation threads_t := (gmap Z (tstate sem_op unit)).

Record Semaphore := { count_ : Z }.

Record system := {
  sem : Semaphore;
  threads : threads_t;
  passed : Z;
  posted : Z;
}.

Definition Semaphore_ctor (value : Z) : Semaphore := {| count_ := value |}.

(** The overflow of the [int] is undefined. *)
Definition in_int (z : Z) : bool := (INT_MIN <=? z) && (z <=? INT_MAX).

(** [Wait] up to its return or its [cv_.wait]. *)
Definition Wait_body (s : system) (t : Z) : option system :=
  let count := count_ (sem s) - 1 in
  if negb (in_int count) then None
  else if count <? 0
  then Some {| sem := {| count_ := count |}; threads := <[t := Asleep tt Wait]> (threads s);
               passed := passed s; posted := posted s |}
  else Some {| sem := {| count_ := count |}; threads := <[t := Outside]> (threads s);
               passed := passed s + 1; posted := posted s |}.

(** [cv_.wait(lck)] returned: so does [Wait]. *)
Definition Wait_end (s : system) (t : Z) : system :=
  {| sem := sem s; threads := <[t := Outside]> (threads s); passed := passed s + 1; posted := posted s |}.

Definition Post_body (s : system) (t : Z) (w : option Z) : option system :=
  let count := count_ (sem s) + 1 in
  if negb (in_int count) then None
  else
    m ← (if count <=? 0 then notify_one tt w (threads s) else Some (threads s));
    Some {| sem := {| count_ := count |}; threads := <[t := Outside]> m;
            passed := passed s; posted := posted s + 1 |}.

Inductive event := Call (o : sem_op) | Run (w : option Z) | Spurious.

Definition with_threads (s : system) (m : threads_t) : system :=
  {| sem := sem s; threads := m; passed := passed s; posted := posted s |}.

Definition step (wakeups : bool) (s : system) (ev : Z * event) : option system :=
  let '(t, e) := ev in
  th ← threads s !! t;
  match e, th with
  | Call o, Outside => Some (with_threads s (<[t := Running o]> (threads s)))
  | Run _, Running Wait => Wait_body s t
  | Run w, Running Post => Post_body s t w
  | Run _, Woken _ _ => Some (Wait_end s t)
  | Spurious, Asleep _ _ => if wakeups then with_threads s <$> spurious_wake t (threads s) else None
  | _, _ => None
  end.

Definition run (wakeups : bool) : system -> list (Z * event) -> option system := run_steps (step wakeups).

Definition start (value : Z) (tids : gset Z) : system :=
  {| sem := Semaphore_ctor value; threads := gset_to_gmap Outside tids; passed := 0; posted := 0 |}.

(** ** The invariant *)

Record inv (value : Z) (s : system) : Prop := {
  inv_sleepers : sleepers tt (threads s) = Z.max 0 (- count_ (sem s));
  inv_count : count_ (sem s) =
    value + posted s - (passed s + wakers tt (threads s) + sleepers tt (threads s));
}.

Lemma sem_start_inv value tids : 0 <= value -> inv value (start value tids).
Proof.
  intros Hv. assert (forall f, f Outside = 0 -> msum f (threads (start value tids)) = 0) as Hz.
  { intros f Hf. apply msum_zero. intros t th Ht. cbn in Ht. by apply lookup_gset_to_gmap_Some in Ht as [_ <-]. }
  split; unfold sleepers, wakers; rewrite ?(Hz (asleep tt)), ?(Hz (woken tt)) by done; cbn; lia.
Qed.

Lemma sem_step_inv value s ev s' : inv value s -> step false s ev = Some s' -> inv value s'.
Proof.
  destruct ev as [t e]. intros [Hs Hc]. cbn [step]. destruct (threads s !! t) as [th|] eqn:Ht; [|done].
  cbn [mbind option_bind].
  assert (forall th', sleepers tt (<[t := th']> (threads s)) = sleepers tt (threads s) - asleep tt th + asleep tt th' /\
    wakers tt (<[t := th']> (threads s)) = wakers tt (threads s) - woken tt th + woken tt th') as Hset
    by (intros; by apply set_counts).
  destruct e as [o|w|], th as [[]|[] o'|[] o'|]; try done; cbn [asleep woken] in Hset.
  - intros [= <-]. destruct (Hset (Running o)) as [E1 E2]. split; cbn [sem threads passed posted with_threads];
      rewrite E1, ?E2; cbn [asleep woken]; rewrite ?decide_True by done; lia.
  - unfold Wait_body. destruct (in_int _); cbn [negb]; [|done].
    destruct (Z.ltb_spec (count_ (sem s) - 1) 0); intros [= <-].
    + destruct (Hset (Asleep tt Wait)) as [E1 E2]. split; cbn [sem count_ threads passed posted]; rewrite E1, ?E2; cbn [asleep woken]; rewrite ?decide_True by done; lia.
    + destruct (Hset Outside) as [E1 E2]. split; cbn [sem count_ threads passed posted]; rewrite E1, ?E2; cbn [asleep woken]; rewrite ?decide_True by done; lia.
  - unfold Post_body. destruct (in_int _); cbn [negb]; [|done].
    destruct (Z.leb_spec (count_ (sem s) + 1) 0).
    + destruct (notify_one tt w (threads s)) as [m|] eqn:Hn; [|done]. cbn [mbind option_bind]. intros [= <-].
      pose proof (notify_one_counts tt w _ _ tt Hn) as Hk. rewrite decide_True in Hk by done.
      pose proof (notify_one_lookup tt w _ _ t _ Hn Ht eq_refl) as Ht'.
      destruct (set_counts tt m t _ Outside Ht') as [E1 E2]. cbn [asleep woken] in E1, E2.
      split; cbn [sem count_ threads passed posted]; rewrite E1, ?E2; destruct Hk as [[? ->]|[??]]; lia.
    + cbn [mbind option_bind]. intros [= <-]. destruct (Hset Outside) as [E1 E2].
      split; cbn [sem count_ threads passed posted]; rewrite E1, ?E2; cbn [asleep woken]; rewrite ?decide_True by done; lia.
  - intros [= <-]. destruct (Hset Outside) as [E1 E2]. unfold Wait_end.
    rewrite decide_True in * by done.
    split; cbn [sem count_ threads passed posted]; rewrite E1, ?E2; cbn [asleep woken]; rewrite ?decide_True by done; lia.
Qed.

Lemma sem_run_inv value s evs s' : inv value s -> run false s evs = Some s' -> inv value s'.
Proof. apply run_steps_inv. intros s0 ev s1 Hi. by apply sem_step_inv. Qed.

(** ** Properties *)

(** C20: As long as threads only wake up when notified, no more calls of Wait
    return than the initial value and the calls of Post allow, and a thread
    only sleeps when every one of them is used up by a call that returned or
    is about to. *)
Theorem semaphore_admits (value : Z) (tids : gset Z) (evs : list (Z * event)) (s : system) :
  0 <= value -> run false (start value tids) evs = Some s ->
  passed s <= value + posted s /\
  forall t o, threads s !! t = Some (Asleep tt o) -> passed s + wakers tt (threads s) = value + posted s.
Proof.
  intros Hv Hr. destruct (sem_run_inv _ _ _ _ (sem_start_inv value tids Hv) Hr) as [Hs Hc].
  pose proof (wakers_nonneg tt (threads s)). split; [lia|]. intros t o Ht.
  pose proof (asleep_counts tt _ _ _ Ht). lia.
Qed.

Definition demo_events : list (Z * event) :=
  [(1, Call Wait); (1, Run None); (2, Call Wait); (2, Run None); (3, Call Wait); (3, Run None);
   (1, Call Post); (1, Run (Some 3)); (3, Run None)].

Lemma semaphore_admits_witness : exists s,
  run false (start 1 {[1; 2; 3]}) demo_events = Some s /\ passed s = 2 /\ posted s = 1 /\
  passed s + wakers tt (threads s) = 1 + posted s.
Proof.
  destruct (run false (start 1 {[1; 2; 3]}) demo_events) as [s|] eqn:E; [|vm_compute in E; discriminate E].
  exists s. split; [reflexivity|].
  assert (passed s = 2 /\ posted s = 1 /\ threads s !! 2 = Some (Asleep tt Wait)) as (Hp & Hq & H2)
    by (vm_compute in E; injection E as <-; split; [reflexivity|split; reflexivity]).
  split; [exact Hp|]. split; [exact Hq|].
  apply (semaphore_admits 1 {[1; 2; 3]} demo_events s ltac:(lia) E) with (t := 2) (o := Wait). exact H2.
Defined.

(** [Wait] does not test the count again: a spurious wake-up lets a second
    thread in although the value is one and nobody posted. *)
Example spurious_wakeup_admits : exists s,
  run true (start 1 {[1; 2]})
    [(1, Call Wait); (1, Run None); (2, Call Wait); (2, Run None); (2, Spurious); (2, Run None)] = Some s /\
  passed s = 2 /\ posted s = 0.
Proof. eexists. split; [vm_compute; reflexivity|]. by vm_compute. Qed.
