(* ===== verification/ThreadPool.v ===== *)
(** * The thread pool ([base/src/thread_pool.cpp])

    Workers and clients as threads of [Monitor.v]. A task is a value, or none:
    an empty [std::function], which a worker tests for and skips, and which
    [AddTask] calls all the same when the pool has no workers, which throws.
    Running a task is recorded in [executed_log]. [Start] and the destructor
    belong to one controlling thread and are single steps; [SetMaxTaskNum] may
    be called by any client at any time and takes no mutex; the names of the
    threads are left out. [added_log] and [taken_log] are history. *)

From S2P Require Import Prelude Errors Monitor.

Inductive cond := hasTaskToDo_ | acceptNewTask_.
#[export] Instance cond_eq_dec : EqDecision cond.
Proof. solve_decision. Defined.

Section thread_pool.
Context {Task : Type}.

Inductive pool_op :=
| WorkInThread             (** a worker about to test [running_] *)
| ScheduleTask             (** a worker about to take the mutex *)
| Execute (task : option Task)  (** a worker about to test and run [task] *)
| AddTask (f : option Task)
| Stop                     (** a client about to take the mutex in [Stop] *)
| Stop_join.               (** a client joining the workers *)

Inductive result := Returned | Code (err : Z) | Thrown.

Record ThreadPool := {
  threads_ : list Z;        (** the workers *)
  joined : bool;            (** the workers are no longer joinable *)
  tasks_ : list (option Task);
  maxTaskNum_ : Z;
  running_ : bool;
}.

Notation threads_t := (gmap Z (tstate pool_op cond)).

Record system := {
  pool : ThreadPool;
  threads : threads_t;
  results : gmap Z result;
  added_log : list (option Task);
  taken_log : list (option Task);
  executed_log : list Task;   (** run by a worker *)
  inline_log : list Task;     (** run by [AddTask] itself *)
}.

Definition ThreadPool_ctor : ThreadPool :=
  {| threads_ := []; joined := false; tasks_ := []; maxTaskNum_ := 0; running_ := false |}.

Definition set_tasks (p : ThreadPool) (l : list (option Task)) : ThreadPool :=
  {| threads_ := threads_ p; joined := joined p; tasks_ := l; maxTaskNum_ := maxTaskNum_ p; running_ := running_ p |}.
Definition set_running (p : ThreadPool) (b : bool) : ThreadPool :=
  {| threads_ := threads_ p; joined := joined p; tasks_ := tasks_ p; maxTaskNum_ := maxTaskNum_ p; running_ := b |}.
Definition set_joined (p : ThreadPool) : ThreadPool :=
  {| threads_ := threads_ p; joined := true; tasks_ := tasks_ p; maxTaskNum_ := maxTaskNum_ p; running_ := running_ p |}.
Definition SetMaxTaskNum (p : ThreadPool) (maxSize : Z) : ThreadPool :=
  {| threads_ := threads_ p; joined := joined p; tasks_ := tasks_ p; maxTaskNum_ := maxSize; running_ := running_ p |}.
Definition GetMaxTaskNum (p : ThreadPool) : Z := maxTaskNum_ p.
Definition GetCurTaskNum (p : ThreadPool) : Z := zlen (tasks_ p).
Definition GetThreadsNum (p : ThreadPool) : Z := zlen (threads_ p).

Definition Overloaded (p : ThreadPool) : bool :=
  (0 <? maxTaskNum_ p) && (maxTaskNum_ p <=? zlen (tasks_ p)).

Definition set_threads (s : system) (m : threads_t) : system :=
  {| pool := pool s; threads := m; results := results s; added_log := added_log s;
     taken_log := taken_log s; executed_log := executed_log s; inline_log := inline_log s |}.
Definition goto (s : system) (t : Z) (th : tstate pool_op cond) : system :=
  set_threads s (<[t := th]> (threads s)).
Definition set_pool (s : system) (p : ThreadPool) : system :=
  {| pool := p; threads := threads s; results := results s; added_log := added_log s;
     taken_log := taken_log s; executed_log := executed_log s; inline_log := inline_log s |}.
Definition return_ (s : system) (t : Z) (r : result) : system :=
  {| pool := pool s; threads := <[t := Outside]> (threads s); results := <[t := r]> (results s);
     added_log := added_log s; taken_log := taken_log s; executed_log := executed_log s; inline_log := inline_log s |}.

Definition spawn (ids : list Z) (m : threads_t) : threads_t :=
  foldr (fun i m => <[i := Running WorkInThread]> m) m ids.

(** [Start]: the new workers are [ids], threads that do not exist yet. *)
Definition Start (s : system) (t numThreads : Z) (ids : list Z) : option system :=
  if negb (bool_decide (threads_ (pool s) = [])) then Some (return_ s t (Code ERR_INVALID_OPERATION))
  else if numThreads <=? 0 then Some (return_ s t (Code ERR_INVALID_VALUE))
  else if bool_decide (NoDup ids /\ zlen ids = numThreads /\ Forall (fun i => threads s !! i = None) ids)
  then
    let p := {| threads_ := ids; joined := joined (pool s); tasks_ := tasks_ (pool s);
                maxTaskNum_ := maxTaskNum_ (pool s); running_ := true |} in
    let s' := return_ (set_pool s p) t (Code ERR_OK) in
    Some (set_threads s' (spawn ids (threads s')))
  else None.

(** The step of a thread that holds the mutex, or needs none. *)
Definition critical (s : system) (t : Z) (o : pool_op) (w : option Z) : option system :=
  let p := pool s in
  match o with
  | WorkInThread => Some (goto s t (if running_ p then Running ScheduleTask else Outside))
  | ScheduleTask =>
      if bool_decide (tasks_ p = []) && running_ p then Some (goto s t (Asleep hasTaskToDo_ ScheduleTask))
      else
        match tasks_ p with
        | [] => Some (goto s t (Running (Execute None)))
        | task :: rest =>
            m ← (if 0 <? maxTaskNum_ p then notify_one acceptNewTask_ w (threads s) else Some (threads s));
            Some {| pool := set_tasks p rest; threads := <[t := Running (Execute task)]> m;
                    results := results s; added_log := added_log s;
                    taken_log := taken_log s ++ [task]; executed_log := executed_log s; inline_log := inline_log s |}
        end
  | Execute task =>
      Some {| pool := p; threads := <[t := Running WorkInThread]> (threads s); results := results s;
              added_log := added_log s; taken_log := taken_log s; executed_log := executed_log s ++ option_list task; inline_log := inline_log s |}
  | AddTask f =>
      if bool_decide (threads_ p = [])
      then Some (return_ {| pool := p; threads := threads s; results := results s; added_log := added_log s;
                            taken_log := taken_log s; executed_log := executed_log s; inline_log := inline_log s ++ option_list f |} t (if f is Some _ then Returned else Thrown))
      else if Overloaded p then Some (goto s t (Asleep acceptNewTask_ o))
      else
        m ← notify_one hasTaskToDo_ w (threads s);
        Some (return_ {| pool := set_tasks p (tasks_ p ++ [f]); threads := m; results := results s;
                         added_log := added_log s ++ [f]; taken_log := taken_log s;
                         executed_log := executed_log s; inline_log := inline_log s |} t Returned)
  | Stop =>
      Some {| pool := set_running p false;
              threads := <[t := Running Stop_join]> (notify_all hasTaskToDo_ (threads s));
              results := results s; added_log := added_log s; taken_log := taken_log s;
              executed_log := executed_log s; inline_log := inline_log s |}
  | Stop_join =>
      (** [join] waits for a worker to return, and throws on one joined before *)
      if joined p && negb (bool_decide (threads_ p = [])) then Some (return_ s t Thrown)
      else if forallb (fun i => match threads s !! i with Some Outside => true | _ => false end) (threads_ p)
      then Some (return_ (set_pool s (set_joined p)) t Returned) else None
  end.

Inductive event :=
| Call_Start (numThreads : Z) (ids : list Z)
| Call_AddTask (f : option Task)
| Call_Stop
| Call_SetMaxTaskNum (maxSize : Z)
| Run (w : option Z)
| Spurious.

Definition step (s : system) (ev : Z * event) : option system :=
  let '(t, e) := ev in
  th ← threads s !! t;
  match e, th with
  | Run w, (Running o | Woken _ o) => critical s t o w
  | Spurious, Asleep _ _ => set_threads s <$> spurious_wake t (threads s)
  | Call_Start numThreads ids, Outside =>
      if bool_decide (t ∈ threads_ (pool s)) then None else Start s t numThreads ids
  | Call_AddTask f, Outside =>
      if bool_decide (t ∈ threads_ (pool s)) then None else Some (goto s t (Running (AddTask f)))
  | Call_Stop, Outside =>
      if bool_decide (t ∈ threads_ (pool s)) then None else Some (goto s t (Running Stop))
  | Call_SetMaxTaskNum maxSize, Outside =>
      if bool_decide (t ∈ threads_ (pool s)) then None else Some (set_pool s (SetMaxTaskNum (pool s) (u64 maxSize)))
  | _, _ => None
  end.

Definition run : system -> list (Z * event) -> option system := run_steps step.

(** Client threads and a new pool after its first [SetMaxTaskNum]. *)
Definition start (maxSize : Z) (clients : gset Z) : system :=
  {| pool := SetMaxTaskNum ThreadPool_ctor maxSize; threads := gset_to_gmap Outside clients; results := ∅;
     added_log := []; taken_log := []; executed_log := []; inline_log := [] |}.
End thread_pool.
Arguments pool_op : clear implicits.
Arguments ThreadPool : clear implicits.
Arguments system : clear implicits.
Arguments event : clear implicits.
