(* ===== verification/ThreadPoolInv.v ===== *)
(** * The invariant of the thread pool *)

From S2P Require Import Prelude Errors Monitor ThreadPool.

Section invariant.
Context {Task : Type}.
Implicit Types s : system Task.
Notation thread := (tstate (pool_op Task) cond).
Notation threads_t := (gmap Z thread).
Implicit Types m : threads_t.

(** ** Tasks taken from the queue and not yet run *)

Definition task_of (th : thread) : list Task :=
  match th with Running (Execute task) => option_list task | _ => [] end.
Definition inflight m : list Task := map_to_list m ≫= (fun kv => task_of kv.2).

Lemma inflight_insert_new m t th : m !! t = None -> inflight (<[t := th]> m) ≡ₚ task_of th ++ inflight m.
Proof. intros Ht. unfold inflight. rewrite map_to_list_insert by done. done. Qed.

Lemma inflight_delete m t th : m !! t = Some th -> inflight m ≡ₚ task_of th ++ inflight (delete t m).
Proof.
  intros Ht. rewrite <- (insert_delete_id m t th Ht) at 1. by rewrite inflight_insert_new by apply lookup_delete_eq.
Qed.

Lemma inflight_set m t th th' : m !! t = Some th -> task_of th = [] ->
  inflight (<[t := th']> m) ≡ₚ task_of th' ++ inflight m.
Proof.
  intros Ht Hn. rewrite <- insert_delete_eq, inflight_insert_new by apply lookup_delete_eq.
  by rewrite (inflight_delete m t th Ht), Hn.
Qed.

Lemma inflight_same m t th th' : m !! t = Some th -> task_of th' = task_of th ->
  inflight (<[t := th']> m) ≡ₚ inflight m.
Proof.
  intros Ht Hs. rewrite <- insert_delete_eq, inflight_insert_new by apply lookup_delete_eq.
  by rewrite (inflight_delete m t th Ht), Hs.
Qed.

Lemma inflight_notify_one cv w m m' : notify_one cv w m = Some m' -> inflight m' ≡ₚ inflight m.
Proof.
  unfold notify_one. destruct w as [t|]; [|case_match; by intros [= <-]].
  destruct (m !! t) as [[|cv' o| |]|] eqn:Ht; try done. case_decide; [|done]. intros [= <-].
  by apply (inflight_same m t (Asleep cv' o)).
Qed.

Lemma inflight_notify_all cv m : inflight (notify_all cv m) ≡ₚ inflight m.
Proof.
  unfold notify_all. induction m as [|t th m Ht IH] using map_ind; [by rewrite fmap_empty|].
  rewrite fmap_insert, !inflight_insert_new by (rewrite ?lookup_fmap, ?Ht; done).
  rewrite IH. destruct th; cbn; repeat case_decide; done.
Qed.

(** ** The invariant *)

Definition waits_ok (th : thread) : Prop :=
  match th with
  | Asleep hasTaskToDo_ o | Woken hasTaskToDo_ o => o = ScheduleTask
  | Asleep acceptNewTask_ o | Woken acceptNewTask_ o => exists f, o = AddTask f
  | _ => True
  end.

(** Before [Start] there are only clients, and none of them waits. *)
Definition client_only (th : thread) : Prop :=
  match th with Outside | Running (AddTask _) | Running Stop | Running Stop_join => True | _ => False end.

(** [maxSize] is the limit while nobody changes it, 0 when nothing is claimed of
    the limit. *)
Record inv (maxSize : Z) s : Prop := {
  inv_max : 0 < maxSize -> maxTaskNum_ (pool s) = maxSize;
  inv_bound : 0 < maxSize -> zlen (tasks_ (pool s)) <= maxSize;
  inv_fifo : added_log s = taken_log s ++ tasks_ (pool s);
  inv_once : omap id (taken_log s) ≡ₚ executed_log s ++ inflight (threads s);
  inv_workers :
    if running_ (pool s) then supply hasTaskToDo_ (zlen (tasks_ (pool s))) (threads s)
    else sleepers hasTaskToDo_ (threads s) = 0;
  inv_adders : 0 < maxSize -> supply acceptNewTask_ (maxSize - zlen (tasks_ (pool s))) (threads s);
  inv_fresh : threads_ (pool s) = [] -> map_Forall (fun _ th => client_only th) (threads s);
  inv_waits : map_Forall (fun _ th => waits_ok th) (threads s);
}.

Definition active (th : thread) (o : pool_op Task) : Prop :=
  th = Running o \/ exists cv, th = Woken cv o.

Lemma pool_active_woken th o cv : active th o -> waits_ok th ->
  asleep cv th = 0 /\
  0 <= woken cv th <= match cv, o with hasTaskToDo_, ScheduleTask | acceptNewTask_, AddTask _ => 1 | _, _ => 0 end.
Proof.
  intros [->|[cv' ->]] Hw; (split; [done|]); cbn in *.
  - destruct cv, o; lia.
  - destruct cv'; cbn in Hw; [subst o|destruct Hw as [f ->]]; destruct cv; cbn; case_decide; done || lia.
Qed.

Lemma active_task th o : active th o -> (forall task, o <> Execute task) -> task_of th = [].
Proof. intros [->|[cv ->]] Ho; [|done]. destruct o; try done. by edestruct Ho. Qed.

(** The thread [t] moves from [th] to [th'] and the pool becomes [p]; [m] is
    what the notifications made of the other threads. *)
Lemma move_inv maxSize s t th th' p m rs added taken executed inline :
  inv maxSize s -> (forall cv, asleep cv th = 0) -> m !! t = Some th -> waits_ok th' ->
  (0 < maxSize -> maxTaskNum_ p = maxSize) -> (0 < maxSize -> zlen (tasks_ p) <= maxSize) ->
  added = taken ++ tasks_ p ->
  omap id taken ≡ₚ executed ++ inflight (<[t := th']> m) ->
  (if running_ p then supply hasTaskToDo_ (zlen (tasks_ p) + woken hasTaskToDo_ th) m \/ zlen (tasks_ p) <= 0
   else sleepers hasTaskToDo_ m = 0) ->
  (0 < maxSize -> supply acceptNewTask_ (maxSize - zlen (tasks_ p) + woken acceptNewTask_ th) m \/
                  maxSize - zlen (tasks_ p) <= 0) ->
  map_Forall (fun _ th => waits_ok th) m ->
  (threads_ p = [] -> client_only th' /\ map_Forall (fun _ th => client_only th) m) ->
  (asleep hasTaskToDo_ th' <> 0 -> running_ p = true /\ zlen (tasks_ p) <= 0) ->
  (asleep acceptNewTask_ th' <> 0 -> maxSize - zlen (tasks_ p) <= 0) ->
  inv maxSize {| pool := p; threads := <[t := th']> m; results := rs; added_log := added; taken_log := taken;
                 executed_log := executed; inline_log := inline |}.
Proof.
  intros Hi Ha Ht Hth' Hm Hb Hf Ho Hw Hd Hws Hfr Hs1 Hs2.
  split; cbn [pool threads added_log taken_log executed_log]; try done.
  - destruct (running_ p) eqn:Hr.
    + destruct (Z.eq_dec (asleep hasTaskToDo_ th') 0) as [E|E]; [|apply supply_none; by apply Hs1].
      destruct Hw as [Hw|Hw]; [|by apply supply_none].
      apply (supply_set_le _ _ _ _ _ _ _ Hw Ht E). pose proof (woken_nonneg hasTaskToDo_ th'). lia.
    + destruct (set_counts hasTaskToDo_ m t th th' Ht) as [-> _]. rewrite Hw, Ha.
      destruct (Z.eq_dec (asleep hasTaskToDo_ th') 0) as [E|E]; [lia|]. by destruct (Hs1 E).
  - intros Hpos. destruct (Z.eq_dec (asleep acceptNewTask_ th') 0) as [E|E]; [|apply supply_none; by apply Hs2].
    destruct (Hd Hpos) as [Hd'|Hd']; [|by apply supply_none].
    apply (supply_set_le _ _ _ _ _ _ _ Hd' Ht E). pose proof (woken_nonneg acceptNewTask_ th'). lia.
  - intros E. destruct (Hfr E). by apply map_Forall_insert_2.
  - by apply map_Forall_insert_2.
Qed.

Lemma pool_waits_wakes cv o : waits_ok (Asleep cv o) -> waits_ok (Woken cv o).
Proof. done. Qed.
End invariant.

Section steps.
Context {Task : Type}.
Implicit Types s : system Task.

(** A move that leaves the tasks and the history of the workers alone. *)
Lemma still_inv maxSize s t th o th' p rs inline :
  inv maxSize s -> threads s !! t = Some th -> active th o -> waits_ok th' -> task_of th' = task_of th ->
  threads_ p = threads_ (pool s) -> tasks_ p = tasks_ (pool s) -> maxTaskNum_ p = maxTaskNum_ (pool s) ->
  running_ p = running_ (pool s) ->
  (o = ScheduleTask -> tasks_ (pool s) = []) ->
  (forall f, o = AddTask f -> 0 < maxSize -> maxSize - zlen (tasks_ (pool s)) <= 0 \/ threads_ (pool s) = []) ->
  (threads_ (pool s) = [] -> client_only th -> client_only th') ->
  (asleep hasTaskToDo_ th' <> 0 -> running_ (pool s) = true /\ tasks_ (pool s) = []) ->
  (asleep acceptNewTask_ th' <> 0 -> maxSize - zlen (tasks_ (pool s)) <= 0) ->
  inv maxSize {| pool := p; threads := <[t := th']> (threads s); results := rs; added_log := added_log s;
                 taken_log := taken_log s; executed_log := executed_log s; inline_log := inline |}.
Proof.
  intros Hi Ht Ha Hw Htask Eth Eta Em Er Hs Hadd Hc Hs1 Hs2. pose proof (inv_waits _ _ Hi t th Ht) as Hth.
  assert (forall l : list (option Task), l = [] -> zlen l <= 0) as Hz by (intros ? ->; done).
  pose proof (pool_active_woken th o hasTaskToDo_ Ha Hth) as [_ W1].
  pose proof (pool_active_woken th o acceptNewTask_ Ha Hth) as [_ W2].
  apply (move_inv maxSize s t th th'); rewrite ?Eta, ?Eth, ?Em, ?Er; try done; try apply Hi.
  - intros cv. by apply (pool_active_woken th o cv).
  - rewrite (inflight_same _ _ _ _ Ht Htask). apply Hi.
  - pose proof (inv_workers _ _ Hi) as H. destruct (running_ (pool s)); [|done].
    destruct o; try (left; eapply supply_le; [|exact H]; lia). right. auto.
  - intros Hp. pose proof (inv_adders _ _ Hi Hp) as H.
    destruct o as [| | |f| |]; try (left; eapply supply_le; [|exact H]; lia).
    destruct (Hadd f eq_refl Hp) as [|E]; [by right|]. left. eapply supply_le; [|exact H].
    pose proof (inv_fresh _ _ Hi E t th Ht) as Hcl. destruct Ha as [->|[cv ->]]; [cbn; lia|done].
  - intros E. pose proof (inv_fresh _ _ Hi E) as Hf. split; [|done]. by apply Hc; [|apply (Hf t)].
  - intros H. destruct (Hs1 H). auto.
Qed.

Lemma take_inv maxSize s t th task rest w m :
  inv maxSize s -> threads s !! t = Some th -> active th ScheduleTask -> tasks_ (pool s) = task :: rest ->
  (if 0 <? maxTaskNum_ (pool s) then notify_one acceptNewTask_ w (threads s) else Some (threads s)) = Some m ->
  inv maxSize {| pool := set_tasks (pool s) rest; threads := <[t := Running (Execute task)]> m;
    results := results s; added_log := added_log s; taken_log := taken_log s ++ [task];
    executed_log := executed_log s; inline_log := inline_log s |}.
Proof.
  intros Hi Ht Ha Et Hn. pose proof (inv_waits _ _ Hi t th Ht) as Hth. pose proof (inv_max _ _ Hi) as Hmax.
  pose proof (pool_active_woken th _ hasTaskToDo_ Ha Hth) as [A1 W1].
  pose proof (pool_active_woken th _ acceptNewTask_ Ha Hth) as [A2 W2].
  pose proof (inv_workers _ _ Hi) as Hw. pose proof (inv_adders _ _ Hi) as Hd. rewrite Et, zlen_cons in Hw, Hd.
  assert (m !! t = Some th /\ inflight m ≡ₚ inflight (threads s) /\ map_Forall (fun _ th => waits_ok th) m /\
    (forall n, supply hasTaskToDo_ n (threads s) -> supply hasTaskToDo_ n m) /\
    sleepers hasTaskToDo_ m = sleepers hasTaskToDo_ (threads s) /\
    (0 < maxSize -> forall n, supply acceptNewTask_ n (threads s) -> supply acceptNewTask_ (n + 1) m))
    as (Ht' & Hin & Hws & Hsh & Hsl & Hsa).
  { destruct (Z.ltb_spec 0 (maxTaskNum_ (pool s))); [|injection Hn as <-; split_and!; try done; [apply Hi|lia]].
    split_and!.
    - by apply (notify_one_lookup _ _ _ _ _ _ Hn Ht).
    - by apply (inflight_notify_one _ _ _ _ Hn).
    - by apply (every_notify_one _ pool_waits_wakes _ _ _ _ (inv_waits _ _ Hi) Hn).
    - intros n Hs. by apply (supply_notify_other hasTaskToDo_ acceptNewTask_ n w _ _ ltac:(done) Hs Hn).
    - pose proof (notify_one_counts _ _ _ _ hasTaskToDo_ Hn) as Hc. rewrite decide_False in Hc by done. apply Hc.
    - intros _ n Hs. by apply (supply_notify _ _ _ _ _ Hs Hn). }
  apply (move_inv maxSize s t th (Running (Execute task))); cbn [set_tasks tasks_ maxTaskNum_ running_ threads_]; try done.
  - by intros cv; apply (pool_active_woken th ScheduleTask cv).
  - intros Hp. pose proof (inv_bound _ _ Hi Hp) as Hb. rewrite Et, zlen_cons in Hb. lia.
  - by rewrite (inv_fifo _ _ Hi), Et, <- app_assoc.
  - rewrite (inflight_set _ _ _ _ Ht') by (by apply (active_task th ScheduleTask)). rewrite Hin. cbn [task_of].
    rewrite omap_app, (inv_once _ _ Hi), <- app_assoc. apply Permutation_app_head. destruct task; cbn; by rewrite Permutation_app_comm.
  - destruct (running_ (pool s)); [left|by rewrite Hsl]. eapply supply_le; [|apply Hsh, Hw]. lia.
  - intros Hp. left. eapply supply_le; [|apply (Hsa Hp), (Hd Hp)]. lia.
  - intros E. pose proof (inv_fresh _ _ Hi E t th Ht) as Hcl. by destruct Ha as [->|[cv ->]].
Qed.

Lemma add_inv maxSize s t th f w m rs :
  inv maxSize s -> threads s !! t = Some th -> active th (AddTask f) ->
  threads_ (pool s) <> [] -> Overloaded (pool s) = false ->
  notify_one hasTaskToDo_ w (threads s) = Some m ->
  inv maxSize {| pool := set_tasks (pool s) (tasks_ (pool s) ++ [f]); threads := <[t := Outside]> m;
    results := rs; added_log := added_log s ++ [f]; taken_log := taken_log s;
    executed_log := executed_log s; inline_log := inline_log s |}.
Proof.
  intros Hi Ht Ha Hne Ho Hn. pose proof (inv_waits _ _ Hi t th Ht) as Hth.
  pose proof (pool_active_woken th _ hasTaskToDo_ Ha Hth) as [A1 W1].
  pose proof (pool_active_woken th _ acceptNewTask_ Ha Hth) as [A2 W2].
  assert (task_of th = []) as Htask by (apply (active_task th _ Ha); done).
  pose proof (notify_one_lookup _ _ _ _ _ _ Hn Ht A1) as Ht'.
  apply (move_inv maxSize s t th Outside); cbn [set_tasks tasks_ maxTaskNum_ running_ threads_]; try done;
    rewrite ?zlen_app; change (zlen [f]) with 1.
  - by intros cv; apply (pool_active_woken th (AddTask f) cv).
  - apply Hi.
  - intros Hp. unfold Overloaded in Ho. rewrite (inv_max _ _ Hi Hp) in Ho. repeat case_bool.
  - by rewrite (inv_fifo _ _ Hi), <- app_assoc.
  - rewrite (inflight_set _ _ _ _ Ht' Htask), (inflight_notify_one _ _ _ _ Hn). apply Hi.
  - pose proof (inv_workers _ _ Hi) as Hw. destruct (running_ (pool s)).
    + left. eapply supply_le; [|apply (supply_notify _ _ _ _ _ Hw Hn)]. lia.
    + pose proof (notify_one_counts _ _ _ _ hasTaskToDo_ Hn) as Hc. rewrite decide_True in Hc by done.
      pose proof (sleepers_nonneg hasTaskToDo_ m). destruct Hc as [[_ ->]|[? _]]; [done|lia].
  - intros Hp. left. eapply supply_le; [|apply (supply_notify_other acceptNewTask_ hasTaskToDo_ _ w _ _ ltac:(done) (inv_adders _ _ Hi Hp) Hn)]. lia.
  - by apply (every_notify_one _ pool_waits_wakes _ _ _ _ (inv_waits _ _ Hi) Hn).
Qed.

Lemma execute_inv maxSize s t task :
  inv maxSize s -> threads s !! t = Some (Running (Execute task)) ->
  inv maxSize {| pool := pool s; threads := <[t := Running WorkInThread]> (threads s); results := results s;
    added_log := added_log s; taken_log := taken_log s; executed_log := executed_log s ++ option_list task;
    inline_log := inline_log s |}.
Proof.
  intros Hi Ht. apply (move_inv maxSize s t (Running (Execute task)) (Running WorkInThread)); try done; try apply Hi.
  - rewrite (inv_once _ _ Hi), (inflight_delete _ _ _ Ht), <- insert_delete_eq,
      inflight_insert_new by apply lookup_delete_eq. cbn [task_of app]. by rewrite <- app_assoc.
  - cbn [woken]. rewrite Z.add_0_r. pose proof (inv_workers _ _ Hi). destruct (running_ (pool s)); [by left|done].
  - cbn [woken]. rewrite Z.add_0_r. intros Hp. left. by apply Hi.
  - intros E. by destruct (inv_fresh _ _ Hi E t _ Ht).
Qed.

Lemma stop_inv maxSize s t :
  inv maxSize s -> threads s !! t = Some (Running Stop) ->
  inv maxSize {| pool := set_running (pool s) false;
    threads := <[t := Running Stop_join]> (notify_all hasTaskToDo_ (threads s)); results := results s;
    added_log := added_log s; taken_log := taken_log s; executed_log := executed_log s; inline_log := inline_log s |}.
Proof.
  intros Hi Ht.
  assert (notify_all hasTaskToDo_ (threads s) !! t = Some (Running Stop)) as Ht'
    by (unfold notify_all; by rewrite lookup_fmap, Ht).
  apply (move_inv maxSize s t (Running Stop) (Running Stop_join)); try done; try apply Hi.
  - rewrite (inflight_set _ _ _ _ Ht') by done. cbn [task_of app]. rewrite inflight_notify_all. apply Hi.
  - cbn [set_running running_]. pose proof (notify_all_counts hasTaskToDo_ (threads s) hasTaskToDo_) as Hc.
    rewrite decide_True in Hc by done. apply Hc.
  - cbn [woken]. rewrite Z.add_0_r. intros Hp. left. by apply supply_notify_all, Hi.
  - apply (every_notify_all _ pool_waits_wakes), Hi.
  - intros E. split; [done|]. intros t' th'. unfold notify_all. rewrite lookup_fmap_Some.
    intros (th2 & <- & Ht2). pose proof (inv_fresh _ _ Hi E t' th2 Ht2) as Hcl. by destruct th2.
Qed.

(** The new workers change nothing but the number of threads. *)
Lemma spawn_every (P : tstate (pool_op Task) cond -> Prop) ids m :
  P (Running WorkInThread) -> map_Forall (fun _ th => P th) m -> map_Forall (fun _ th => P th) (spawn ids m).
Proof. intros Hw Hm. induction ids as [|i ids IH]; [done|]. by apply map_Forall_insert_2. Qed.

Lemma spawn_lookup_ne (ids : list Z) (m : gmap Z (tstate (pool_op Task) cond)) i : i ∉ ids -> spawn ids m !! i = m !! i.
Proof.
  induction ids as [|j ids IH]; [done|]. intros [Hne Hi]%not_elem_of_cons. cbn. rewrite lookup_insert_ne by done. auto.
Qed.

Lemma spawn_inflight ids m :
  NoDup ids -> Forall (fun i => m !! i = None) ids -> inflight (Task := Task) (spawn ids m) ≡ₚ inflight m.
Proof.
  induction 1 as [|i ids Hi Hnd IH]; [done|]. intros Hf. inversion_clear Hf as [|? ? Hn Hf']. cbn [spawn foldr].
  rewrite inflight_insert_new by (by rewrite (spawn_lookup_ne ids m)). by apply IH.
Qed.

Lemma no_sleepers m cv :
  map_Forall (fun _ th => client_only (Task := Task) th \/ th = Running WorkInThread) m -> sleepers cv m = 0.
Proof. intros Hm. apply msum_zero. intros t th Ht. destruct (Hm t th Ht) as [Hc| ->]; [by destruct th|done]. Qed.

Lemma Start_inv maxSize s t n ids s' :
  inv maxSize s -> threads s !! t = Some Outside -> Start s t n ids = Some s' -> inv maxSize s'.
Proof.
  intros Hi Ht. unfold Start. assert (<[t := Outside]> (threads s) = threads s) as Eins by by apply insert_id.
  destruct (bool_decide (threads_ (pool s) = [])) eqn:Eth; cbn [negb].
  2: { intros [= <-]. destruct Hi as [H1 H2 H3 H4 H5 H6 H7 H8]. split; cbn [return_ pool threads]; rewrite ?Eins; done. }
  apply bool_decide_eq_true in Eth. destruct (n <=? 0).
  { intros [= <-]. destruct Hi as [H1 H2 H3 H4 H5 H6 H7 H8]. split; cbn [return_ pool threads]; rewrite ?Eins; done. }
  case_bool_decide as Hids; [|done]. destruct Hids as (Hnd & Hlen & Hfr). intros [= <-].
  assert (map_Forall (fun _ th => client_only (Task := Task) th \/ th = Running WorkInThread) (spawn ids (threads s))) as Hall.
  { apply (spawn_every (fun th => client_only th \/ th = Running WorkInThread)); [by right|].
    intros t' th' Ht'. left. exact (inv_fresh _ _ Hi Eth t' th' Ht'). }
  split; cbn [set_threads return_ set_pool pool threads added_log taken_log executed_log tasks_ maxTaskNum_ running_ threads_];
    rewrite ?Eins; try apply Hi.
  - rewrite spawn_inflight by done. apply Hi.
  - left. by apply no_sleepers.
  - intros _. left. by apply no_sleepers.
  - intros E. subst ids. cbn in Hlen. change (zlen []) with 0 in Hlen. apply (inv_fresh _ _ Hi Eth).
  - apply spawn_every; [done|apply Hi].
Qed.

Lemma pool_critical_inv maxSize s t th o w s' :
  0 <= maxSize -> inv maxSize s -> threads s !! t = Some th -> active th o -> critical s t o w = Some s' -> inv maxSize s'.
Proof.
  intros HM Hi Ht Ha. pose proof (inv_waits _ _ Hi t th Ht) as Hth.
  assert (o <> ScheduleTask -> (forall f, o <> AddTask f) -> th = Running o) as Hrun.
  { intros H1 H2. destruct Ha as [->|[cv ->]]; [done|]. exfalso.
    destruct cv; cbn in Hth; [done|]. destruct Hth as [f ->]. by apply (H2 f). }
  destruct o as [| |task|f| |]; cbn [critical].
  - rewrite (Hrun ltac:(done) ltac:(done)) in *. intros [= <-].
    apply (still_inv maxSize s t (Running WorkInThread) WorkInThread); try done; by destruct (running_ (pool s)).
  - destruct (bool_decide (tasks_ (pool s) = []) && running_ (pool s)) eqn:Ec.
    + apply andb_true_iff in Ec as [Et%bool_decide_eq_true Er]. intros [= <-].
      apply (still_inv maxSize s t th ScheduleTask); try done; [by rewrite (active_task th _ Ha)|].
      intros _. by destruct Ha as [->|[cv ->]].
    + destruct (tasks_ (pool s)) as [|task rest] eqn:Et.
      * intros [= <-]. apply (still_inv maxSize s t th ScheduleTask); try done; [by rewrite (active_task th _ Ha)|].
        intros _. by destruct Ha as [->|[cv ->]].
      * intros Hm. destruct (if 0 <? _ then _ else _) as [m|] eqn:Hn in Hm; [|done]. cbn [mbind option_bind] in Hm.
        injection Hm as <-. by apply (take_inv maxSize s t th task rest w m).
  - rewrite (Hrun ltac:(done) ltac:(done)) in *. intros [= <-]. by apply execute_inv.
  - case_bool_decide as Eth; [|destruct (Overloaded (pool s)) eqn:Eo].
    + intros [= <-]. apply (still_inv maxSize s t th (AddTask f)); try done; [by rewrite (active_task th _ Ha)|]. by right.
    + intros [= <-]. assert (maxSize - zlen (tasks_ (pool s)) <= 0) as Hfull.
      { pose proof (zlen_nonneg (tasks_ (pool s))). destruct (decide (0 < maxSize)) as [Hp|]; [|lia].
        unfold Overloaded in Eo. rewrite (inv_max _ _ Hi Hp) in Eo. zb. lia. }
      apply (still_inv maxSize s t th (AddTask f)); try done; [by exists f|by rewrite (active_task th _ Ha)|by left].
    + destruct (notify_one hasTaskToDo_ w (threads s)) as [m|] eqn:Hn; [|done]. cbn [mbind option_bind].
      intros [= <-]. by apply (add_inv maxSize s t th f w m).
  - rewrite (Hrun ltac:(done) ltac:(done)) in *. intros [= <-]. by apply stop_inv.
  - rewrite (Hrun ltac:(done) ltac:(done)) in *. destruct (joined _ && _); [|destruct (forallb _ _); [|done]]; intros [= <-];
      (apply (still_inv maxSize s t (Running Stop_join) Stop_join); try done; by left).
Qed.

(** Events that change the limit. *)
Definition sets_limit (ev : Z * event Task) : bool := if ev.2 is Call_SetMaxTaskNum _ then true else false.

Lemma pool_step_inv maxSize s ev s' :
  0 <= maxSize -> maxSize = 0 \/ sets_limit ev = false -> inv maxSize s -> step s ev = Some s' -> inv maxSize s'.
Proof.
  destruct ev as [t e]. intros HM Hset Hi. cbn [step]. destruct (threads s !! t) as [th|] eqn:Ht; [|done].
  cbn [mbind option_bind].
  assert (forall o, client_only (Task := Task) (Running o) -> th = Outside -> inv maxSize (goto s t (Running o))) as Hcall.
  { intros o Ho ->.
    apply (move_inv maxSize s t Outside (Running o)); try done; try apply Hi.
    - rewrite (inflight_set _ _ _ _ Ht) by done. assert (task_of (Running o) = []) as -> by (by destruct o). apply Hi.
    - cbn [woken]. rewrite Z.add_0_r. pose proof (inv_workers _ _ Hi). destruct (running_ (pool s)); [by left|done].
    - cbn [woken]. rewrite Z.add_0_r. intros Hp. left. by apply Hi.
    - intros E. split; [done|]. by apply (inv_fresh _ _ Hi). }
  destruct e as [n ids|f| |n|w|]; destruct th as [o|cv o|cv o|]; try done.
  - case_bool_decide; [done|]. by apply Start_inv.
  - case_bool_decide; [done|]. intros [= <-]. by apply Hcall.
  - case_bool_decide; [done|]. intros [= <-]. by apply Hcall.
  - case_bool_decide; [done|]. intros [= <-]. destruct Hset as [->|]; [|done]. destruct Hi as [H1 H2 H3 H4 H5 H6 H7 H8].
    split; cbn [set_pool SetMaxTaskNum pool threads tasks_ running_ threads_ added_log taken_log executed_log]; try done; lia.
  - apply pool_critical_inv with (th := Running o); [done..|by left].
  - apply pool_critical_inv with (th := Woken cv o); [done..|right; by exists cv].
  - unfold spurious_wake. rewrite Ht. cbn [fmap option_fmap option_map]. intros [= <-].
    pose proof (inv_waits _ _ Hi t _ Ht) as Hth.
    destruct Hi as [H1 H2 H3 H4 H5 H6 H7 H8].
    split; cbn [set_threads pool threads added_log taken_log executed_log]; try done.
    + by rewrite (inflight_same _ _ _ (Woken cv o) Ht) by done.
    + destruct (running_ (pool s)).
      * apply (supply_set_le _ _ _ _ _ _ _ H5 Ht); [done|]. cbn. case_decide; lia.
      * destruct (set_counts hasTaskToDo_ _ t _ (Woken cv o) Ht) as [E _]. rewrite E, H5. cbn [asleep].
        pose proof (msum_ge (asleep hasTaskToDo_) _ t _ (asleep_nonneg hasTaskToDo_) Ht) as Hge.
        unfold sleepers in H5. rewrite H5 in Hge. cbn [asleep] in Hge. case_decide; lia.
    + intros Hp. apply (supply_set_le _ _ _ _ _ _ _ (H6 Hp) Ht); [done|]. cbn. case_decide; lia.
    + intros E. by destruct (H7 E t _ Ht).
    + by apply map_Forall_insert_2.
Qed.

Lemma pool_start_inv maxSize M clients : (0 < maxSize -> maxSize = M) -> inv (Task := Task) maxSize (start M clients).
Proof.
  intros HM. assert (map_Forall (fun _ th => th = Outside) (threads (start (Task := Task) M clients))) as Hall.
  { intros t th Ht. by apply lookup_gset_to_gmap_Some in Ht as [_ <-]. }
  assert (forall cv, sleepers cv (threads (start (Task := Task) M clients)) = 0) as Hz.
  { intros cv. apply msum_zero. intros t th Ht. by rewrite (Hall t th Ht). }
  split; try done.
  - intros Hp. symmetry. by apply HM.
  - intros Hp. cbn. change (zlen []) with 0. lia.
  - cbn -[gset_to_gmap]. unfold inflight. assert (forall l, Forall (fun kv => kv.2 = Outside) l ->
      (l ≫= (fun kv : Z * tstate (pool_op Task) cond => task_of kv.2)) = []) as Hl.
    { induction 1 as [|[k v] l Hv _ IH]; [done|]. cbn in *. by rewrite Hv. }
    rewrite Hl; [done|]. apply Forall_forall. intros [k v] Hkv%elem_of_map_to_list. by apply (Hall k).
  - apply Hz.
  - intros _. left. apply Hz.
  - intros _ t th Ht. by rewrite (Hall t th Ht).
  - intros t th Ht. by rewrite (Hall t th Ht).
Qed.

Lemma pool_run_inv maxSize s evs s' :
  0 <= maxSize -> maxSize = 0 \/ Forall (fun ev => sets_limit ev = false) evs -> inv maxSize s -> run s evs = Some s' -> inv maxSize s'.
Proof.
  intros HM. revert s. induction evs as [|ev evs IH]; intros s Hl Hi; cbn [run run_steps]; [by intros [= <-]|].
  destruct (step s ev) as [s1|] eqn:E; [|done]. cbn [mbind option_bind]. apply IH.
  - destruct Hl as [Hl|Hl]; [by left|right]. by inversion_clear Hl.
  - apply (pool_step_inv maxSize s ev); try done. destruct Hl as [Hl|Hl]; [by left|right]. by inversion_clear Hl.
Qed.

(** ** The limit *)

(** Only [AddTask] makes the queue longer, by one task and below the limit. *)
Lemma critical_queue s t o w s' : critical s t o w = Some s' ->
  maxTaskNum_ (pool s') = maxTaskNum_ (pool s) /\
  (zlen (tasks_ (pool s')) <= zlen (tasks_ (pool s)) \/
   Overloaded (pool s) = false /\ zlen (tasks_ (pool s')) = zlen (tasks_ (pool s)) + 1).
Proof.
  destruct o as [| |task|f| |]; cbn [critical]; unfold mbind, option_bind; intros E.
  - injection E as <-. split; [done|by left].
  - destruct (bool_decide _ && _); [injection E as <-; split; [done|by left]|].
    destruct (tasks_ (pool s)) as [|task rest] eqn:Et; [injection E as <-; split; [done|left; cbn; by rewrite Et]|].
    repeat case_match; simplify_eq; (split; [done|left; cbn; rewrite zlen_cons; lia]).
  - injection E as <-. split; [done|by left].
  - case_bool_decide; [injection E as <-; split; [done|by left]|].
    destruct (Overloaded (pool s)) eqn:Eo; [injection E as <-; split; [done|by left]|].
    repeat case_match; simplify_eq. split; [done|right]. split; [done|]. cbn. by rewrite zlen_app.
  - injection E as <-. split; [done|by left].
  - repeat case_match; simplify_eq; (split; [done|by left]).
Qed.

Lemma step_queue s ev s' : step s ev = Some s' ->
  maxTaskNum_ (pool s') = (if ev.2 is Call_SetMaxTaskNum n then u64 n else maxTaskNum_ (pool s)) /\
  (zlen (tasks_ (pool s')) <= zlen (tasks_ (pool s)) \/
   Overloaded (pool s) = false /\ zlen (tasks_ (pool s')) = zlen (tasks_ (pool s)) + 1 /\ sets_limit ev = false).
Proof.
  destruct ev as [t e]. cbn [step]. destruct (threads s !! t) as [th|]; [|done]. cbn [mbind option_bind].
  assert (forall o w, critical s t o w = Some s' -> maxTaskNum_ (pool s') = maxTaskNum_ (pool s) /\
    (zlen (tasks_ (pool s')) <= zlen (tasks_ (pool s)) \/
     Overloaded (pool s) = false /\ zlen (tasks_ (pool s')) = zlen (tasks_ (pool s)) + 1 /\ true = true)) as Hc.
  { intros o w E. destruct (critical_queue _ _ _ _ _ E) as [? [?|[? ?]]]; auto. }
  destruct e as [n ids|f| |n|w|], th as [o|cv o|cv o|]; try done; cbn [snd sets_limit]; try (case_bool_decide; [done|]).
  - unfold Start. repeat case_match; intros; simplify_eq; cbn; split; auto with lia.
  - intros [= <-]. cbn. split; [done|left; lia].
  - intros [= <-]. cbn. split; [done|left; lia].
  - intros [= <-]. cbn. split; [done|left; lia].
  - intros E. destruct (Hc _ _ E) as [? [?|(? & ? & _)]]; auto.
  - intros E. destruct (Hc _ _ E) as [? [?|(? & ? & _)]]; auto.
  - unfold spurious_wake. case_match; try done. case_match; try done. cbn. intros [= <-]. cbn. split; [done|left; lia].
Qed.

(** The limits in force during a run that begins with [M]. *)
Definition limits (M : Z) (evs : list (Z * event Task)) : list Z :=
  M :: omap (fun ev => if ev.2 is Call_SetMaxTaskNum n then Some (u64 n) else None) evs.

Lemma run_queue P s evs s' : run s evs = Some s' ->
  Forall (fun m => 0 < m <= P) (limits (maxTaskNum_ (pool s)) evs) -> zlen (tasks_ (pool s)) <= P -> zlen (tasks_ (pool s')) <= P.
Proof.
  revert s. induction evs as [|[t e] evs IH]; intros s; cbn [run run_steps]; [by intros [= <-]|].
  destruct (step s (t, e)) as [s1|] eqn:E; [|done]. cbn [mbind option_bind]. intros Hr Hl Hq.
  destruct (step_queue _ _ _ E) as [Hm Hz]. inversion_clear Hl as [|? ? HM Hl'].
  apply (IH s1 Hr).
  - unfold limits. rewrite Hm. destruct e; cbn in *; try (by constructor). exact Hl'.
  - destruct Hz as [?|(Ho & -> & _)]; [lia|]. unfold Overloaded in Ho. zb. lia.
Qed.
End steps.
