(* ===== verification/ThreadPoolProps.v ===== *)
(** * The properties of the thread pool *)

From S2P Require Import Prelude Errors Monitor ThreadPool ThreadPoolInv.

Section drain.
Context {Task : Type}.
Implicit Types s : system Task.

(** ** Workers never do a client's work *)

Definition worker_only (th : tstate (pool_op Task) cond) : Prop :=
  match th with
  | Outside | Running WorkInThread | Running (Execute _)
  | Running ScheduleTask | Asleep hasTaskToDo_ ScheduleTask | Woken hasTaskToDo_ ScheduleTask => True
  | _ => False
  end.
Definition crew s : Prop :=
  Forall (fun i => exists th, threads s !! i = Some th /\ worker_only th) (threads_ (pool s)).

(** How many steps a worker is from its return once [running_] is false. *)
Definition rank (th : tstate (pool_op Task) cond) : Z :=
  match th with
  | Running ScheduleTask | Asleep _ _ | Woken _ _ => 3
  | Running (Execute _) => 2
  | Running WorkInThread => 1
  | _ => 0
  end.

Lemma notify_one_worker cv w m m' i th :
  notify_one cv w m = Some m' -> m !! i = Some th -> worker_only th ->
  exists th', m' !! i = Some th' /\ worker_only th' /\ rank th' = rank th.
Proof.
  unfold notify_one. intros Hn Hi Hw. destruct w as [t|]; [|case_match; simplify_eq; by exists th].
  destruct (m !! t) as [[|cv' o| |]|] eqn:Ht; try done. case_decide; [|done]. injection Hn as <-.
  destruct (decide (t = i)) as [->|Hne]; [|by exists th; rewrite lookup_insert_ne].
  exists (Woken cv o). rewrite lookup_insert_eq. simplify_eq. by destruct cv, o.
Qed.

Lemma notify_all_worker cv m i th :
  m !! i = Some th -> worker_only th ->
  exists th', notify_all cv m !! i = Some th' /\ worker_only th' /\ rank th' = rank th.
Proof.
  intros Hi Hw. exists (wake cv th). unfold notify_all. rewrite lookup_fmap, Hi. split; [done|].
  destruct th as [o|cv' o|cv' o|]; try done. cbn. case_decide; [subst cv'|done]. by destruct cv, o.
Qed.

(** What a step of thread [t] may do to the worker [i]. *)
Definition worker_moves s s' (t i : Z) (th : tstate (pool_op Task) cond) : Prop :=
  threads_ (pool s') = threads_ (pool s) /\
  exists th', threads s' !! i = Some th' /\ worker_only th' /\
    (running_ (pool s) = false -> sleepers hasTaskToDo_ (threads s) = 0 ->
     running_ (pool s') = false /\ rank th' <= rank th - (if decide (t = i) then 1 else 0)).

Lemma worker_own s i th o w s' :
  threads s !! i = Some th -> worker_only th -> active th o -> critical s i o w = Some s' -> worker_moves s s' i i th.
Proof.
  intros Hi Hw Ha Hc. unfold worker_moves.
  assert (rank th = rank (Running o) /\ worker_only (Running o)) as [-> Ho].
  { destruct Ha as [->|[cv ->]]; [done|]. by destruct cv, o. }
  rewrite decide_True by done. destruct o as [| |task|f| |]; try done; cbn [critical] in Hc.
  - injection Hc as <-. split; [done|]. eexists. cbn [goto set_threads threads pool]. rewrite lookup_insert_eq.
    split; [done|]. split; [by destruct (running_ (pool s))|]. intros Hr _. by rewrite Hr.
  - destruct (bool_decide (tasks_ (pool s) = []) && running_ (pool s)) eqn:Ec.
    + injection Hc as <-. split; [done|]. eexists. cbn [goto set_threads threads pool]. rewrite lookup_insert_eq.
      split; [done|]. split; [done|]. intros Hr. apply andb_true_iff in Ec as [_ Ec]. by rewrite Hr in Ec.
    + destruct (tasks_ (pool s)) as [|task rest].
      * injection Hc as <-. split; [done|]. eexists. cbn [goto set_threads threads pool]. by rewrite lookup_insert_eq.
      * destruct (if 0 <? _ then _ else _) as [m|] in Hc; [|done]. cbn [mbind option_bind] in Hc.
        injection Hc as <-. split; [done|]. eexists. cbn [threads pool set_tasks running_]. by rewrite lookup_insert_eq.
  - injection Hc as <-. split; [done|]. eexists. cbn [threads pool]. by rewrite lookup_insert_eq.
Qed.

Lemma worker_kept s s' t i th x m :
  t <> i -> threads s' = <[t := x]> m -> threads_ (pool s') = threads_ (pool s) ->
  (running_ (pool s) = false -> running_ (pool s') = false) ->
  (exists th', m !! i = Some th' /\ worker_only th' /\ rank th' = rank th) -> worker_moves s s' t i th.
Proof.
  intros Hne Hm Hth Hr (th' & Hi & Hw & Hrank). split; [done|]. exists th'. rewrite Hm, lookup_insert_ne by done.
  rewrite decide_False by done. split_and!; try done. intros Hrun _. split; [by apply Hr|lia].
Qed.

Lemma worker_other s t i th o w s' :
  threads s !! i = Some th -> worker_only th -> t <> i -> critical s t o w = Some s' -> worker_moves s s' t i th.
Proof.
  intros Hi Hw Hne Hc.
  assert (exists th', threads s !! i = Some th' /\ worker_only th' /\ rank th' = rank th) as Hsame by by exists th.
  destruct o as [| |task|f| |]; cbn [critical] in Hc.
  - injection Hc as <-. by eapply worker_kept.
  - destruct (bool_decide (tasks_ (pool s) = []) && running_ (pool s)).
    + injection Hc as <-. by eapply worker_kept.
    + destruct (tasks_ (pool s)) as [|task rest]; [injection Hc as <-; by eapply worker_kept|].
      destruct (if 0 <? _ then _ else _) as [m|] eqn:Hn in Hc; [|done]. cbn [mbind option_bind] in Hc.
      injection Hc as <-. eapply worker_kept; try done.
      destruct (0 <? _); [by eapply notify_one_worker|by injection Hn as <-].
  - injection Hc as <-. by eapply worker_kept.
  - case_bool_decide; [injection Hc as <-; by eapply worker_kept|].
    destruct (Overloaded (pool s)); [injection Hc as <-; by eapply worker_kept|].
    destruct (notify_one _ _ _) as [m|] eqn:Hn; [|done]. cbn [mbind option_bind] in Hc. injection Hc as <-.
    eapply worker_kept; try done. by eapply notify_one_worker.
  - injection Hc as <-. eapply worker_kept; try done. by apply notify_all_worker.
  - destruct (joined _ && _); [injection Hc as <-; by eapply worker_kept|].
    destruct (forallb _ _); [|done]. injection Hc as <-. by eapply worker_kept.
Qed.

Lemma worker_step s t e i th s' :
  threads s !! i = Some th -> worker_only th -> i ∈ threads_ (pool s) -> step s (t, e) = Some s' ->
  worker_moves s s' t i th.
Proof.
  intros Hi Hw Hin. cbn [step]. destruct (threads s !! t) as [tt|] eqn:Ht; [|done]. cbn [mbind option_bind].
  assert (t = i -> tt = th) as Heq by (intros ->; congruence).
  assert (forall o, active tt o -> forall w, critical s t o w = Some s' -> worker_moves s s' t i th) as Hrun.
  { intros o Ha w Hc. destruct (decide (t = i)) as [->|Hne]; [|by apply (worker_other s t i th o w)].
    rewrite Heq in * by done. by apply (worker_own s i th o w). }
  assert (exists th', threads s !! i = Some th' /\ worker_only th' /\ rank th' = rank th) as Hsame by by exists th.
  destruct e as [n ids|f| |n|w|], tt as [o|cv o|cv o|]; try done.
  - case_bool_decide; [done|]. assert (t <> i) as Hne by by intros ->. unfold Start.
    destruct (threads_ (pool s)) eqn:E; [by apply elem_of_nil in Hin|]. cbn. intros [= <-].
    by eapply worker_kept.
  - case_bool_decide; [done|]. intros [= <-]. eapply worker_kept; try done. by intros ->.
  - case_bool_decide; [done|]. intros [= <-]. eapply worker_kept; try done. by intros ->.
  - case_bool_decide; [done|]. intros [= <-]. split; [done|]. exists th. rewrite decide_False by by intros ->.
    split_and!; try done. intros Hrun' _. split; [done|lia].
  - apply Hrun. by left.
  - apply Hrun. right. by exists cv.
  - unfold spurious_wake. rewrite Ht. intros [= <-]. destruct (decide (t = i)) as [->|Hne]; [|by eapply worker_kept].
    split; [done|]. exists (Woken cv o). cbn [set_threads threads pool]. rewrite lookup_insert_eq.
    rewrite <- (Heq eq_refl) in *. split; [done|]. split; [done|]. intros _ H0.
    pose proof (asleep_counts cv _ _ _ Hi). destruct cv; [lia|]. done.
Qed.

Lemma crew_step s ev s' : crew s -> step s ev = Some s' -> crew s'.
Proof.
  destruct ev as [t e]. intros Hc Hs. unfold crew in *. destruct (decide (threads_ (pool s) = [])) as [E|E].
  - cbn [step] in Hs. destruct (threads s !! t) as [tt|] eqn:Ht; [|done]. cbn [mbind option_bind] in Hs.
    assert (forall m, threads_ (pool s) = [] -> Forall (fun i => exists th, (m : gmap Z (tstate (pool_op Task) cond)) !! i = Some th /\ worker_only th) (threads_ (pool s))) as Hnil
      by by intros m ->.
    assert (forall o w, critical s t o w = Some s' -> threads_ (pool s') = threads_ (pool s)) as Hcrit.
    { intros o w Hc'. destruct o; cbn [critical] in Hc'; unfold mbind, option_bind in Hc'; repeat case_match; by simplify_eq. }
    destruct e as [n ids|f| |n|w|], tt as [o|cv o|cv o|]; try done.
    + case_bool_decide; [done|]. unfold Start in Hs. rewrite E in Hs. cbn in Hs. destruct (n <=? 0); [injection Hs as <-; cbn; by rewrite E|].
      case_bool_decide as Hids; [|done]. injection Hs as <-. cbn [set_threads pool threads return_ set_pool threads_].
      apply Forall_forall. intros i Hi. exists (Running WorkInThread). split; [|done].
      clear -Hi. induction ids as [|j ids IH]; [by apply elem_of_nil in Hi|]. cbn.
      destruct (decide (j = i)) as [->|Hne]; [by rewrite lookup_insert_eq|]. rewrite lookup_insert_ne by done.
      apply IH. by apply elem_of_cons in Hi as [->|].
    + case_bool_decide; [done|]. injection Hs as <-. by apply Hnil.
    + case_bool_decide; [done|]. injection Hs as <-. by apply Hnil.
    + case_bool_decide; [done|]. injection Hs as <-. cbn [set_pool SetMaxTaskNum pool threads threads_]. by apply Hnil.
    + rewrite (Hcrit _ _ Hs). by apply Hnil.
    + rewrite (Hcrit _ _ Hs). by apply Hnil.
    + unfold spurious_wake in Hs. rewrite Ht in Hs. injection Hs as <-. by apply Hnil.
  - assert (threads_ (pool s') = threads_ (pool s)) as Eth.
    { destruct (threads_ (pool s)) as [|i l] eqn:El; [done|]. apply Forall_cons in Hc as [(th & Hi & Hw) _].
      rewrite <- El. apply (worker_step s t e i th s' Hi Hw); [rewrite El; left|done]. }
    rewrite Eth. apply Forall_forall. intros i Hin. rewrite Forall_forall in Hc. destruct (Hc i Hin) as (th & Hi & Hw).
    destruct (worker_step s t e i th s' Hi Hw Hin Hs) as [_ (th' & Hi' & Hw' & _)]. by exists th'.
Qed.

Lemma crew_run s evs s' : crew s -> run s evs = Some s' -> crew s'.
Proof. intros Hc. apply run_steps_inv with (1 := crew_step). done. Qed.

Definition steps_of (i : Z) (evs : list (Z * event Task)) : Z := zlen (filter (fun ev => ev.1 = i) evs).

Lemma drain_run evs s s' i th :
  inv 0 s -> threads s !! i = Some th -> worker_only th -> i ∈ threads_ (pool s) ->
  running_ (pool s) = false -> run s evs = Some s' ->
  running_ (pool s') = false /\ exists th', threads s' !! i = Some th' /\ worker_only th' /\
    rank th' + steps_of i evs <= rank th.
Proof.
  revert s th. induction evs as [|[t e] evs IH]; intros s th Hinv Hi Hw Hin Hr; cbn [run run_steps].
  { intros [= <-]. split; [done|]. exists th. change (steps_of i []) with 0. split_and!; try done. lia. }
  destruct (step s (t, e)) as [s1|] eqn:E; [|done]. cbn [mbind option_bind]. intros Hrun.
  destruct (worker_step s t e i th s1 Hi Hw Hin E) as (Eth & th1 & Hi1 & Hw1 & Hd).
  pose proof (inv_workers _ _ Hinv) as H0. rewrite Hr in H0. destruct (Hd Hr H0) as [Hr1 Hrank].
  destruct (IH s1 th1) as (Hr' & th' & Hi' & Hw' & Hle); try done; [refine (pool_step_inv 0 s (t, e) s1 _ _ Hinv E); [done|by left]|by rewrite Eth|].
  split; [done|]. exists th'. split_and!; try done. unfold steps_of in *. rewrite filter_cons. cbn [fst].
  destruct (decide (t = i)); rewrite ?zlen_cons; lia.
Qed.

Lemma worker_progress maxSize s i th :
  inv maxSize s -> threads s !! i = Some th -> worker_only th -> running_ (pool s) = false ->
  th = Outside \/ exists w s', step s (i, Run w) = Some s'.
Proof.
  intros Hinv Hi Hw Hr. pose proof (inv_workers _ _ Hinv) as H0. rewrite Hr in H0.
  assert (exists w s', critical s i ScheduleTask w = Some s') as Hsched.
  { cbn [critical]. rewrite Hr, andb_false_r. destruct (tasks_ (pool s)) as [|task rest]; [by exists None; eexists|].
    destruct (0 <? _); [|by exists None; eexists].
    destruct (notify_one_total acceptNewTask_ (threads s)) as (w & m & Hn). exists w. rewrite Hn. by eexists. }
  destruct th as [o|cv o|cv o|]; [right|..|by left].
  - destruct o; try done; [by exists None; eexists; cbn; rewrite Hi| |by exists None; eexists; cbn; rewrite Hi].
    destruct Hsched as (w & s' & Hc). exists w, s'. cbn [step]. by rewrite Hi.
  - exfalso. pose proof (asleep_counts cv _ _ _ Hi). destruct cv; [lia|done].
  - right. destruct Hsched as (w & s' & Hc). exists w, s'. cbn [step]. rewrite Hi. by destruct cv, o.
Qed.
End drain.

(** ** The theorems *)

(** C18: At any moment every task that was queued is in exactly one place: still
    queued, held by one worker, or run once (an empty function is taken and
    skipped). Tasks leave in the order in which they came. [SetMaxTaskNum] may be
    called at any time: a task is only queued below the limit then in force, and
    while there always is one the queue never exceeds the largest of them, so a
    limit that is not changed is never exceeded. *)
Theorem pool_accounts_for_tasks {Task} (maxSize : Z) (clients : gset Z) (evs : list (Z * event Task)) (s : system Task)
    (Hrun : run (start maxSize clients) evs = Some s) :
  added_log s = taken_log s ++ tasks_ (pool s) /\
  omap id (taken_log s) ≡ₚ executed_log s ++ inflight (threads s) /\
  (forall ev s', step s ev = Some s' -> GetCurTaskNum (pool s) < GetCurTaskNum (pool s') ->
     0 < GetMaxTaskNum (pool s) -> GetCurTaskNum (pool s') <= GetMaxTaskNum (pool s)) /\
  (forall P, Forall (fun m => 0 < m <= P) (limits maxSize evs) -> GetCurTaskNum (pool s) <= P).
Proof.
  assert (inv 0 s) as Hi by (refine (pool_run_inv 0 _ evs s _ _ _ Hrun); [done|by left|by apply pool_start_inv]).
  split_and!; [apply Hi..| |].
  - intros ev s' E Hlt Hp. unfold GetCurTaskNum, GetMaxTaskNum in *.
    destruct (step_queue _ _ _ E) as [_ [?|(Ho & -> & _)]]; [lia|]. unfold Overloaded in Ho. zb. lia.
  - intros P HP. apply (run_queue P _ evs s Hrun HP). inversion_clear HP. cbn. change (zlen []) with 0. lia.
Qed.

(** Two workers and a limit of one queued task: the second client waits for
    room, a worker makes it, and every task is run. *)
Definition demo_work : list (Z * event Z) :=
  [(1, Call_Start 2 [11; 12]); (11, Run None); (11, Run None); (12, Run None);
   (1, Call_AddTask (Some 7)); (1, Run (Some 11)); (2, Call_AddTask (Some 8)); (2, Run None);
   (12, Run (Some 2)); (2, Run None); (11, Run None); (11, Run None); (12, Run None);
   (2, Call_SetMaxTaskNum 2); (1, Call_AddTask None); (1, Run None); (1, Call_AddTask (Some 9)); (1, Run None)].

Lemma pool_accounts_for_tasks_witness : exists s,
  run (start 1 {[1; 2]}) demo_work = Some s /\ executed_log s = [8; 7] /\ tasks_ (pool s) = [None; Some 9] /\
  added_log s = taken_log s ++ tasks_ (pool s) /\
  omap id (taken_log s) ≡ₚ executed_log s ++ inflight (threads s) /\ GetCurTaskNum (pool s) <= 2.
Proof.
  destruct (run (start 1 {[1; 2]}) demo_work) as [s|] eqn:E; [|vm_compute in E; discriminate E].
  exists s. split; [reflexivity|].
  destruct (pool_accounts_for_tasks 1 {[1; 2]} demo_work s E) as (Hf & Ho & _ & Hl).
  assert (executed_log s = [8; 7] /\ tasks_ (pool s) = [None; Some 9]) as [He Ht]
    by (vm_compute in E; injection E as <-; split; reflexivity).
  split; [exact He|]. split; [exact Ht|]. split; [exact Hf|]. split; [exact Ho|]. apply Hl.
  refine (bool_decide_eq_true_1 _ _). vm_compute. reflexivity.
Defined.

(** A limit that is lowered below the tasks that are queued does not bound the
    queue. *)
Example lowered_limit : exists s,
  run (start 2 {[1]}) [(1, Call_Start 1 [11]); (1, Call_AddTask (Some 7)); (1, Run None); (1, Call_AddTask (Some 8)); (1, Run None);
                       (1, Call_SetMaxTaskNum 1)] = Some s /\ GetMaxTaskNum (pool s) = 1 /\ GetCurTaskNum (pool s) = 2.
Proof. eexists. split; [vm_compute; reflexivity|]. by vm_compute. Qed.

(** [SetMaxTaskNum] notifies nobody: a client waits on although the new limit
    has room. *)
Example raised_limit : exists s,
  run (start 1 {[1; 2]}) [(1, Call_Start 1 [11]); (1, Call_AddTask (Some 7)); (1, Run None); (2, Call_AddTask (Some 8)); (2, Run None);
                          (1, Call_SetMaxTaskNum 5)] = Some s /\
  threads s !! 2 = Some (Asleep acceptNewTask_ (AddTask (Some 8))) /\ GetCurTaskNum (pool s) = 1.
Proof. eexists. split; [vm_compute; reflexivity|]. by vm_compute. Qed.

(** No worker sleeps over work: while one waits for tasks the pool is
    running, and there are at least as many woken workers, each about to look
    at the queue, as tasks in it. While the limit is not changed no client
    sleeps over room either. *)
Theorem pool_wakes_enough {Task} (maxSize : Z) (clients : gset Z) (evs : list (Z * event Task)) (s : system Task)
    (t : Z) (cv : cond) (o : pool_op Task) :
  0 <= maxSize -> Forall (fun ev => sets_limit ev = false) evs ->
  run (start maxSize clients) evs = Some s -> threads s !! t = Some (Asleep cv o) ->
  match cv with
  | hasTaskToDo_ => o = ScheduleTask /\ running_ (pool s) = true /\ GetCurTaskNum (pool s) <= wakers cv (threads s)
  | acceptNewTask_ => (exists f, o = AddTask f) /\
      (0 < maxSize -> maxSize - GetCurTaskNum (pool s) <= wakers cv (threads s))
  end.
Proof.
  intros HM Hl Hr Ht. pose proof (pool_run_inv _ _ _ _ HM (or_intror Hl) (pool_start_inv maxSize maxSize clients (fun _ => eq_refl)) Hr) as Hi.
  pose proof (asleep_counts cv _ _ _ Ht) as Hs. pose proof (inv_waits _ _ Hi t _ Ht) as Hw. destruct cv.
  - pose proof (inv_workers _ _ Hi) as H. split; [exact Hw|]. destruct (running_ (pool s)); [|lia].
    split; [done|]. destruct H; [lia|done].
  - split; [exact Hw|]. intros Hp. destruct (inv_adders _ _ Hi Hp); [lia|done].
Qed.

Definition demo_sleep : list (Z * event Z) :=
  [(1, Call_Start 2 [11; 12]); (11, Run None); (11, Run None); (12, Run None); (12, Run None);
   (1, Call_AddTask (Some 7)); (1, Run (Some 11))].

Lemma pool_wakes_enough_witness : exists s,
  run (start 0 {[1; 2]}) demo_sleep = Some s /\ GetCurTaskNum (pool s) = 1 /\
  1 <= wakers hasTaskToDo_ (threads s).
Proof.
  destruct (run (start 0 {[1; 2]}) demo_sleep) as [s|] eqn:E; [|vm_compute in E; discriminate E].
  assert (threads s !! 12 = Some (Asleep hasTaskToDo_ ScheduleTask) /\ GetCurTaskNum (pool s) = 1) as [H Hn]
    by (vm_compute in E; injection E as <-; split; reflexivity).
  exists s. split; [reflexivity|]. split; [exact Hn|]. rewrite <- Hn.
  exact (proj2 (proj2 (pool_wakes_enough 0 {[1; 2]} demo_sleep s 12 hasTaskToDo_ ScheduleTask (Z.le_refl 0) ltac:(repeat constructor) E H))).
Defined.

(** C19: After [Stop] has cleared [running_] every worker returns: whatever the
    others do, it is never blocked, and it takes at most three more steps. *)
Theorem stopped_workers_return {Task} (maxSize : Z) (clients : gset Z) (evs evs' : list (Z * event Task))
    (s s' : system Task) (i : Z) :
  0 <= maxSize -> run (start maxSize clients) evs = Some s -> running_ (pool s) = false -> i ∈ threads_ (pool s) ->
  run s evs' = Some s' ->
  steps_of i evs' <= 3 /\ (threads s' !! i = Some Outside \/ exists w s'', step s' (i, Run w) = Some s'').
Proof.
  intros HM Hrun Hr Hin Hrun'. assert (inv 0 s) as Hi by (refine (pool_run_inv 0 _ evs s _ _ _ Hrun); [done|by left|by apply pool_start_inv]).
  assert (crew s) as Hc by (refine (crew_run _ _ _ _ Hrun); apply Forall_nil_2).
  unfold crew in Hc. rewrite Forall_forall in Hc. destruct (Hc i Hin) as (th & Hth & Hw).
  destruct (drain_run evs' s s' i th) as (Hr' & th' & Hth' & Hw' & Hle); try done. split.
  - assert (rank th <= 3 /\ 0 <= rank th') as [? ?] by (split; [destruct th as [[]| | |]|destruct th' as [[]| | |]]; cbn; lia). lia.
  - rewrite Hth'. destruct (worker_progress 0 s' i th') as [->|?]; auto.
    refine (pool_run_inv 0 s evs' s' _ _ Hi Hrun'); [done|by left].
Qed.

Definition demo_stop : list (Z * event Z) := demo_sleep ++ [(2, Call_Stop); (2, Run None)].

Lemma stopped_workers_return_witness : exists s s',
  run (start 0 {[1; 2]}) demo_stop = Some s /\ run s [(12, Run None); (12, Run None); (11, Run None)] = Some s' /\
  steps_of 12 [(12, @Run Z None); (12, Run None); (11, Run None)] <= 3 /\
  (threads s' !! 12 = Some Outside \/ exists w s'', step s' (12, Run w) = Some s'').
Proof.
  destruct (run (start 0 {[1; 2]}) demo_stop) as [s|] eqn:E; [|vm_compute in E; discriminate E].
  destruct (run s [(12, Run None); (12, Run None); (11, Run None)]) as [s'|] eqn:E';
    [|vm_compute in E; injection E as <-; vm_compute in E'; discriminate E'].
  exists s, s'. split; [reflexivity|]. split; [exact E'|].
  assert (running_ (pool s) = false /\ threads_ (pool s) = [11; 12]) as [Hr Hth]
    by (vm_compute in E; injection E as <-; split; reflexivity).
  assert (12 ∈ threads_ (pool s)) as Hin by (rewrite Hth; right; left).
  exact (stopped_workers_return 0 {[1; 2]} demo_stop _ s s' 12 (Z.le_refl 0) E Hr Hin E').
Defined.

(** [Stop] leaves a client asleep in [AddTask]: it notifies only the workers,
    so once they are gone nobody makes room and nobody wakes the client. *)
Example Stop_strands_AddTask : exists s,
  run (start 1 {[1; 2; 3]})
    [(1, Call_Start 1 [11]); (1, Call_AddTask (Some 7)); (1, Run None); (2, Call_AddTask (Some 8)); (2, Run None);
     (3, Call_Stop); (3, Run None); (11, Run None); (3, Run None)] = Some s /\
  threads s = {[1 := Outside; 2 := Asleep acceptNewTask_ (AddTask (Some 8)); 3 := Outside; 11 := Outside]} /\
  tasks_ (pool s) = [Some 7].
Proof. eexists. split; [vm_compute; reflexivity|]. by vm_compute. Qed.

(** A stopped pool keeps its joined threads: it cannot be started again, and
    a second [Stop] throws. *)
Example stopped_pool_is_dead : exists s,
  run (start 0 {[1; 2 : Z]})
    [(1, Call_Start 1 [11]); (1, Call_Stop); (1, Run None); (11, @Run Z None); (1, Run None);
     (1, Call_Start 1 [12]); (2, Call_Stop); (2, Run None); (2, Run None)] = Some s /\
  results s !! 1 = Some (Code ERR_INVALID_OPERATION) /\ results s !! 2 = Some Thrown.
Proof. eexists. split; [vm_compute; reflexivity|]. by vm_compute. Qed.
