(* ===== verification/IOEvent.v ===== *)
(** * The I/O event reactor ([base/src/io_event_reactor.cpp],
      [io_event_handler.cpp], [io_event_epoll.cpp])

    Handlers are nodes of doubly linked lists, one list for each file
    descriptor, on a heap of nodes. [Head fd] is the address of the list head
    that [ioHandlers_[fd]] owns and [Node h] that of a handler of the client.
    The kernel is a parameter. A callback is a value, and [executed] records
    the callbacks in the order in which they run. *)

From S2P Require Import Prelude Errors.

(** ** Events ([io_event_common.h]) *)

Definition IO_EVENT_INVALID_FD : Z := -1.
Definition EVENT_NONE : Z := 0.
Definition EVENT_READ : Z := 1.
Definition EVENT_WRITE : Z := Z.shiftl 1 1.
Definition EVENT_CLOSE : Z := Z.shiftl 1 2.
Definition EVENT_ERROR : Z := Z.shiftl 1 3.

(** Linux. *)
Definition EPOLLIN : Z := 0x1.
Definition EPOLLPRI : Z := 0x2.
Definition EPOLLOUT : Z := 0x4.
Definition EPOLLERR : Z := 0x8.
Definition EPOLLHUP : Z := 0x10.
Definition EPOLLRDHUP : Z := 0x2000.

Definition has (events mask : Z) : bool := negb (Z.land events mask =? 0).

Definition Epoll2Reactor (epollEvents : Z) : Z :=
  let res := EVENT_NONE in
  let res := if has epollEvents EPOLLHUP && negb (has epollEvents EPOLLIN) then Z.lor res EVENT_CLOSE else res in
  let res := if has epollEvents EPOLLERR then Z.lor res EVENT_ERROR else res in
  let res := if has epollEvents (Z.lor EPOLLIN (Z.lor EPOLLPRI EPOLLRDHUP)) then Z.lor res EVENT_READ else res in
  if has epollEvents EPOLLOUT then Z.lor res EVENT_WRITE else res.

Definition Reactor2Epoll (reactorEvent : Z) : Z :=
  let res := 0 in
  let res := if has reactorEvent EVENT_READ then Z.lor res (Z.lor EPOLLIN EPOLLPRI) else res in
  let res := if has reactorEvent EVENT_WRITE then Z.lor res EPOLLOUT else res in
  if has reactorEvent EVENT_ERROR then Z.lor res EPOLLERR else res.

(** ** The kernel *)

Inductive epoll_op := EPOLL_CTL_ADD | EPOLL_CTL_DEL | EPOLL_CTL_MOD.

Class Epoll (K : Type) := {
  epoll_create1 : K -> Z * K;
  (** whether the call succeeds *)
  epoll_ctl : Z -> epoll_op -> Z -> Z -> K -> bool * K;
  (** the number returned and the events stored *)
  epoll_wait : Z -> Z -> Z -> K -> Z * list (Z * Z) * K;
  close : Z -> K -> K;
}.

Section io_event.
Context {Cb K : Type} `{Epoll K}.

Inductive ptr := Head (fd : Z) | Node (h : Z).
#[export] Instance ptr_eq_dec : EqDecision ptr.
Proof. solve_decision. Defined.
#[export] Program Instance ptr_countable : Countable ptr :=
  inj_countable' (fun p => match p with Head fd => inl fd | Node h => inr h end)
                 (fun s => match s with inl fd => Head fd | inr h => Node h end) _.
Next Obligation. by intros []. Qed.

Record IOEventHandler := {
  prev_ : option ptr;
  next_ : option ptr;
  fd_ : Z;
  events_ : Z;
  cb_ : option Cb;
  enabled_ : bool;
}.

Record IOEventEpoll := { epollFd_ : Z; maxEvents_ : Z; interestFds_ : gset Z }.

Record IOEventReactor := {
  loopReady_ : bool;
  reactor_enabled_ : bool;
  count_ : Z;
  ioHandlers_ : list Z;      (** the [events] of each descriptor; its [head] is [Head fd] *)
  backend_ : IOEventEpoll;
}.

Record world := {
  nodes : gmap ptr IOEventHandler;
  reactor : IOEventReactor;
  kernel : K;
  executed : list Cb;
}.

Notation RM := (ST world).

Definition with_nodes (w : world) (n : gmap ptr IOEventHandler) : world :=
  {| nodes := n; reactor := reactor w; kernel := kernel w; executed := executed w |}.
Definition with_reactor (w : world) (r : IOEventReactor) : world :=
  {| nodes := nodes w; reactor := r; kernel := kernel w; executed := executed w |}.
Definition with_log (w : world) (l : list Cb) : world :=
  {| nodes := nodes w; reactor := reactor w; kernel := kernel w; executed := l |}.
Definition with_backend (w : world) (b : IOEventEpoll) (k : K) : world :=
  {| nodes := nodes w;
     reactor := {| loopReady_ := loopReady_ (reactor w); reactor_enabled_ := reactor_enabled_ (reactor w);
                   count_ := count_ (reactor w); ioHandlers_ := ioHandlers_ (reactor w); backend_ := b |};
     kernel := k; executed := executed w |}.
Definition with_table (w : world) (l : list Z) : world :=
  with_reactor w {| loopReady_ := loopReady_ (reactor w); reactor_enabled_ := reactor_enabled_ (reactor w);
                    count_ := count_ (reactor w); ioHandlers_ := l; backend_ := backend_ (reactor w) |}.
Definition with_count (w : world) (n : Z) : world :=
  with_reactor w {| loopReady_ := loopReady_ (reactor w); reactor_enabled_ := reactor_enabled_ (reactor w);
                    count_ := n; ioHandlers_ := ioHandlers_ (reactor w); backend_ := backend_ (reactor w) |}.
Definition with_flags (w : world) (ready handling : bool) : world :=
  with_reactor w {| loopReady_ := ready; reactor_enabled_ := handling; count_ := count_ (reactor w);
                    ioHandlers_ := ioHandlers_ (reactor w); backend_ := backend_ (reactor w) |}.

(** ** Handlers *)

Definition IOEventHandler_ctor : IOEventHandler :=
  {| prev_ := None; next_ := None; fd_ := IO_EVENT_INVALID_FD; events_ := EVENT_NONE; cb_ := None; enabled_ := false |}.
Definition IOEventHandler_of (fd events : Z) (cb : option Cb) : IOEventHandler :=
  {| prev_ := None; next_ := None; fd_ := fd; events_ := events; cb_ := cb; enabled_ := false |}.

Definition set_prev (p : option ptr) (n : IOEventHandler) : IOEventHandler :=
  {| prev_ := p; next_ := next_ n; fd_ := fd_ n; events_ := events_ n; cb_ := cb_ n; enabled_ := enabled_ n |}.
Definition set_next (p : option ptr) (n : IOEventHandler) : IOEventHandler :=
  {| prev_ := prev_ n; next_ := p; fd_ := fd_ n; events_ := events_ n; cb_ := cb_ n; enabled_ := enabled_ n |}.
Definition set_enabled (b : bool) (n : IOEventHandler) : IOEventHandler :=
  {| prev_ := prev_ n; next_ := next_ n; fd_ := fd_ n; events_ := events_ n; cb_ := cb_ n; enabled_ := b |}.
Definition SetFd (fd : Z) (n : IOEventHandler) : IOEventHandler :=
  {| prev_ := prev_ n; next_ := next_ n; fd_ := fd; events_ := events_ n; cb_ := cb_ n; enabled_ := enabled_ n |}.
Definition SetEvents (events : Z) (n : IOEventHandler) : IOEventHandler :=
  {| prev_ := prev_ n; next_ := next_ n; fd_ := fd_ n; events_ := events; cb_ := cb_ n; enabled_ := enabled_ n |}.
Definition SetCallback (cb : option Cb) (n : IOEventHandler) : IOEventHandler :=
  {| prev_ := prev_ n; next_ := next_ n; fd_ := fd_ n; events_ := events_ n; cb_ := cb; enabled_ := enabled_ n |}.
Definition EnableRead (n : IOEventHandler) : IOEventHandler := SetEvents (Z.lor (events_ n) EVENT_READ) n.
Definition EnableWrite (n : IOEventHandler) : IOEventHandler := SetEvents (Z.lor (events_ n) EVENT_WRITE) n.
Definition DisableWrite (n : IOEventHandler) : IOEventHandler :=
  SetEvents (Z.land (events_ n) (u32 (Z.lnot EVENT_WRITE))) n.
Definition DisableAll (n : IOEventHandler) : IOEventHandler := SetEvents EVENT_NONE n.
Definition IsActive (n : IOEventHandler) : bool := bool_decide (is_Some (prev_ n)) && enabled_ n.

Definition load (p : ptr) : RM IOEventHandler := st_access (fun w => nodes w !! p).
(** A store through a pointer to a node that exists. *)
Definition modify (p : ptr) (f : IOEventHandler -> IOEventHandler) : RM unit := fun w =>
  match nodes w !! p with
  | Some n => Some (tt, with_nodes w (<[p := f n]> (nodes w)))
  | None => None
  end.
Definition deref (p : option ptr) : RM ptr := st_access (fun _ => p).
Definition if_some (p : option ptr) (f : ptr -> RM unit) : RM unit :=
  match p with Some p => f p | None => mret tt end.

Definition IOEventHandler_dtor (h : Z) : RM unit :=
  n ← load (Node h);
  if_some (prev_ n) (fun p => modify p (set_next (next_ n)));;
  n ← load (Node h);
  if_some (next_ n) (fun p => modify p (set_prev (prev_ n)));;
  st_put (fun w => with_nodes w (delete (Node h) (nodes w))).

(** ** The epoll backend *)

Definition IOEventEpoll_SetUp : RM Z := fun w =>
  let b := backend_ (reactor w) in
  if epollFd_ b <? 0 then
    let '(fd, k) := epoll_create1 (kernel w) in
    let w := with_backend w {| epollFd_ := fd; maxEvents_ := maxEvents_ b; interestFds_ := interestFds_ b |} k in
    Some (if fd <? 0 then EVENT_SYS_ERR_BADF else EVENT_SYS_ERR_OK, w)
  else Some (EVENT_SYS_ERR_OK, w).

Definition IOEventEpoll_CleanUp : RM unit := fun w =>
  let b := backend_ (reactor w) in
  if epollFd_ b =? IO_EVENT_INVALID_FD then Some (tt, w)
  else Some (tt, with_backend w {| epollFd_ := IO_EVENT_INVALID_FD; maxEvents_ := maxEvents_ b;
                                   interestFds_ := interestFds_ b |} (close (epollFd_ b) (kernel w))).

Definition OperateEpoll (op : epoll_op) (fd epollEvents : Z) : RM bool := fun w =>
  let b := backend_ (reactor w) in
  let '(ok, k) := epoll_ctl (epollFd_ b) op fd epollEvents (kernel w) in
  if negb ok then Some (false, with_backend w b k)
  else
    let interest :=
      match op with
      | EPOLL_CTL_ADD => interestFds_ b ∪ {[fd]}
      | EPOLL_CTL_DEL => interestFds_ b ∖ {[fd]}
      | EPOLL_CTL_MOD => interestFds_ b
      end in
    Some (true, with_backend w {| epollFd_ := epollFd_ b; maxEvents_ := maxEvents_ b; interestFds_ := interest |} k).

Definition ModifyEvents (fd events : Z) : RM Z :=
  if fd =? -1 then mret EVENT_SYS_ERR_BADF
  else
    interest ← st_get (fun w => interestFds_ (backend_ (reactor w)));
    let op :=
      if bool_decide (fd ∈ interest)
      then if events =? EVENT_NONE then EPOLL_CTL_DEL else EPOLL_CTL_MOD
      else EPOLL_CTL_ADD in
    ok ← OperateEpoll op fd (Reactor2Epoll events);
    mret (if (ok : bool) then EVENT_SYS_ERR_OK else EVENT_SYS_ERR_FAILED).

Definition EXPANSION_COEFF : Z := 2.

(** The result and the events appended to [res]. *)
Definition Polling (timeout : Z) : RM (Z * list (Z * Z)) := fun w =>
  let b := backend_ (reactor w) in
  let '(nfds, got, k) := epoll_wait (epollFd_ b) (maxEvents_ b) timeout (kernel w) in
  if nfds =? 0 then Some ((EVENT_SYS_ERR_NOEVENT, []), with_backend w b k)
  else if nfds =? -1 then Some ((EVENT_SYS_ERR_FAILED, []), with_backend w b k)
  else
    let res := (fun '(fd, events) => (fd, Epoll2Reactor events)) <$> ztake nfds got in
    let b' := if nfds =? maxEvents_ b
              then {| epollFd_ := epollFd_ b; maxEvents_ := maxEvents_ b * EXPANSION_COEFF; interestFds_ := interestFds_ b |}
              else b in
    Some ((EVENT_SYS_ERR_OK, res), with_backend w b' k).

(** ** The reactor *)

Definition MAX_FD : Z := 40000.
Definition INIT_FD_NUMS : Z := 8.

(** [IOEventReactor()]: the heads are allocated with the table. *)
Definition heads (from to : Z) (n : gmap ptr IOEventHandler) : gmap ptr IOEventHandler :=
  foldr (fun fd n => <[Head fd := IOEventHandler_ctor]> n) n (seqZ from (to - from)).
Definition IOEventReactor_ctor (k : K) : world :=
  let '(epfd, k) := epoll_create1 k in
  {| nodes := heads 0 INIT_FD_NUMS ∅;
     reactor := {| loopReady_ := false; reactor_enabled_ := false; count_ := 0;
                   ioHandlers_ := replicate (Z.to_nat INIT_FD_NUMS) EVENT_NONE;
                   backend_ := {| epollFd_ := epfd; maxEvents_ := 8; interestFds_ := ∅ |} |};
     kernel := k; executed := [] |}.

Definition SetUp : RM Z :=
  res ← IOEventEpoll_SetUp;
  if negb (res =? EVENT_SYS_ERR_OK) then mret res
  else
    st_put (fun w => with_flags w true (reactor_enabled_ (reactor w)));;
    mret res.
Definition Terminate : RM unit := st_put (fun w => with_flags w false (reactor_enabled_ (reactor w))).
Definition EnableHandling : RM unit := st_put (fun w => with_flags w (loopReady_ (reactor w)) true).
Definition DisableHandling : RM unit := st_put (fun w => with_flags w (loopReady_ (reactor w)) false).

Definition table_size (w : world) : Z := zlen (ioHandlers_ (reactor w)).
(** [ioHandlers_[fd].events] *)
Definition fd_events (fd : Z) : RM Z := st_access (fun w => znth (ioHandlers_ (reactor w)) fd).
Definition set_fd_events (fd events : Z) : RM unit := fun w =>
  match zset (ioHandlers_ (reactor w)) fd events with
  | Some l => Some (tt, with_table w l)
  | None => None
  end.
(** [ioHandlers_.resize(n)] to a larger size *)
Definition resize_table (n : Z) : RM unit := st_put (fun w =>
  let size := table_size w in
  with_nodes (with_table w (ioHandlers_ (reactor w) ++ replicate (Z.to_nat (n - size)) EVENT_NONE))
             (heads size n (nodes w))).

(** Loops over a list visit each node once. *)
Definition loop_fuel : RM nat := st_get (fun w => S (size (nodes w))).

Fixpoint HasHandler_loop (fuel : nat) (cur : option ptr) (target : ptr) : RM bool :=
  match cur with
  | None => mret false
  | Some c =>
      match fuel with
      | O => fun _ => None
      | S fuel =>
          if decide (c = target) then mret true
          else n ← load c; HasHandler_loop fuel (next_ n) target
      end
  end.

Definition HasHandler (target : ptr) : RM bool :=
  t ← load target;
  size ← st_get table_size;
  if (fd_ t <? 0) || (size <=? fd_ t) then mret false
  else fuel ← loop_fuel; HasHandler_loop fuel (Some (Head (fd_ t))) target.

Definition InsertNodeFront (fd : Z) (target : ptr) : RM unit :=
  h ← load (Head fd);
  modify target (set_next (next_ h));;
  modify target (set_prev (Some (Head fd)));;
  h ← load (Head fd);
  if_some (next_ h) (fun p => modify p (set_prev (Some target)));;
  modify (Head fd) (set_next (Some target)).

Definition RemoveNode (target : ptr) : RM unit :=
  t ← load target;
  p ← deref (prev_ t);
  modify p (set_next (next_ t));;
  t ← load target;
  if_some (next_ t) (fun p => modify p (set_prev (prev_ t)));;
  modify target (set_prev None);;
  modify target (set_next None).

Fixpoint emask_loop (fuel : nat) (cur : option ptr) (emask : Z) : RM Z :=
  match cur with
  | None => mret emask
  | Some c =>
      match fuel with
      | O => fun _ => None
      | S fuel => n ← load c; emask_loop fuel (next_ n) (Z.lor emask (events_ n))
      end
  end.

Definition UpdateToDemultiplexer (fd : Z) : RM bool :=
  fuel ← loop_fuel;
  emask ← emask_loop fuel (Some (Head fd)) 0;
  events ← fd_events fd;
  if emask =? events then mret true
  else
    res ← ModifyEvents fd emask;
    if negb (res =? EVENT_SYS_ERR_OK) then mret false
    else set_fd_events fd emask;; mret true.

Definition bad_fd (n : IOEventHandler) : bool := (fd_ n <? 0) || (MAX_FD <? fd_ n).

Definition AddHandler (target : option ptr) : RM Z :=
  match target with
  | None => mret EVENT_SYS_ERR_NOT_FOUND
  | Some target =>
      t ← load target;
      if bad_fd t then mret EVENT_SYS_ERR_BADF
      else if bool_decide (is_Some (prev_ t)) then mret EVENT_SYS_ERR_ALREADY_STARTED
      else
        let fd := fd_ t in
        size ← st_get table_size;
        (if size - 1 <? fd then resize_table (fd * EXPANSION_COEFF) else mret tt);;
        InsertNodeFront fd target;;
        events ← fd_events fd;
        t ← load target;
        ok ← (if negb (Z.land events (events_ t) =? events_ t) then UpdateToDemultiplexer (fd_ t) else mret true);
        if negb ok then mret EVENT_SYS_ERR_FAILED
        else
          modify target (set_enabled true);;
          st_put (fun w => with_count w (u32 (count_ (reactor w) + 1)));;
          mret EVENT_SYS_ERR_OK
  end.

Definition UpdateHandler (target : option ptr) : RM Z :=
  match target with
  | None => mret EVENT_SYS_ERR_NOT_FOUND
  | Some p =>
      t ← load p;
      if bad_fd t then mret EVENT_SYS_ERR_BADF
      else if bool_decide (is_Some (prev_ t)) then
        found ← HasHandler p;
        if negb found then mret EVENT_SYS_ERR_NOT_FOUND
        else
          ok ← UpdateToDemultiplexer (fd_ t);
          mret (if (ok : bool) then EVENT_SYS_ERR_OK else EVENT_SYS_ERR_FAILED)
      else AddHandler target
  end.

Definition RemoveHandler (target : option ptr) : RM Z :=
  match target with
  | None => mret EVENT_SYS_ERR_NOT_FOUND
  | Some p =>
      t ← load p;
      if bad_fd t then mret EVENT_SYS_ERR_BADF
      else
        modify p (set_enabled false);;
        found ← HasHandler p;
        if negb found then modify p (set_enabled true);; mret EVENT_SYS_ERR_NOT_FOUND
        else
          RemoveNode p;;
          ok ← UpdateToDemultiplexer (fd_ t);
          if negb ok then modify p (set_enabled true);; mret EVENT_SYS_ERR_FAILED
          else
            st_put (fun w => with_count w (u32 (count_ (reactor w) - 1)));;
            mret EVENT_SYS_ERR_OK
  end.

Definition FindHandler (target : option ptr) : RM Z :=
  match target with
  | None => mret EVENT_SYS_ERR_NOT_FOUND
  | Some p =>
      t ← load p;
      if bad_fd t then mret EVENT_SYS_ERR_BADF
      else
        found ← HasHandler p;
        mret (if (found : bool) then EVENT_SYS_ERR_OK else EVENT_SYS_ERR_NOT_FOUND)
  end.

(** [IOEventHandler::Start], [Stop] and [Update] *)
Definition IOEventHandler_Start (h : Z) : RM bool := res ← AddHandler (Some (Node h)); mret (res =? EVENT_SYS_ERR_OK).
Definition IOEventHandler_Stop (h : Z) : RM bool := res ← RemoveHandler (Some (Node h)); mret (res =? EVENT_SYS_ERR_OK).
Definition IOEventHandler_Update (h : Z) : RM bool := res ← UpdateHandler (Some (Node h)); mret (res =? EVENT_SYS_ERR_OK).

(** The callbacks of the list at [cur] that [event] concerns. *)
Definition takes_event (event : Z) (n : IOEventHandler) : bool :=
  negb (events_ n =? EVENT_NONE) && enabled_ n && has (events_ n) event && bool_decide (is_Some (cb_ n)).
Fixpoint HandleEvents_loop (fuel : nat) (cur : option ptr) (event : Z) (taskQue : list Cb) : RM (list Cb) :=
  match cur with
  | None => mret taskQue
  | Some c =>
      match fuel with
      | O => fun _ => None
      | S fuel =>
          n ← load c;
          let taskQue :=
            match cb_ n with
            | Some cb => if takes_event event n then taskQue ++ [cb] else taskQue
            | None => taskQue
            end in
          HandleEvents_loop fuel (next_ n) event taskQue
      end
  end.

Definition Execute (tasks : list Cb) : RM unit := st_put (fun w => with_log w (executed w ++ tasks)).

Definition HandleEvents (fd event : Z) : RM Z :=
  events ← fd_events fd;
  if negb (has events event) then mret EVENT_SYS_ERR_BADEVENT
  else
    h ← load (Head fd);
    fuel ← loop_fuel;
    taskQue ← HandleEvents_loop fuel (next_ h) event [];
    Execute taskQue;;
    mret EVENT_SYS_ERR_OK.

Fixpoint HandleAll (events : list (Z * Z)) : RM unit :=
  match events with
  | [] => mret tt
  | (fd, event) :: events => HandleEvents fd event;; HandleAll events
  end.

(** One turn of the loop of [Run]; [gotEvents] is its local variable. *)
Definition Run_turn (timeout : Z) (gotEvents : list (Z * Z)) : RM (list (Z * Z)) :=
  handling ← st_get (fun w => reactor_enabled_ (reactor w));
  if negb handling then mret gotEvents
  else
    count ← st_get (fun w => count_ (reactor w));
    if (timeout =? -1) && (count =? 0) then mret gotEvents
    else
      '(res, got) ← Polling timeout;
      let gotEvents := gotEvents ++ got in
      if res =? EVENT_SYS_ERR_OK then HandleAll gotEvents;; mret [] else mret gotEvents.

Fixpoint DoClean_loop (fuel : nat) (cur : option ptr) : RM unit :=
  match cur with
  | None => mret tt
  | Some c =>
      match fuel with
      | O => fun _ => None
      | S fuel =>
          n ← load c;
          p ← deref (prev_ n);
          modify p (set_next None);;
          modify c (set_prev None);;
          modify c (set_enabled false);;
          n ← load c;
          DoClean_loop fuel (next_ n)
      end
  end.

Definition DoClean (fd : Z) : RM bool :=
  fd_events fd;;
  h ← load (Head fd);
  match next_ h with
  | None => mret true
  | Some _ =>
      fuel ← loop_fuel;
      DoClean_loop fuel (next_ h);;
      UpdateToDemultiplexer fd
  end.

Definition Clean (fd : Z) : RM Z :=
  if fd =? -1 then mret EVENT_SYS_ERR_BADF
  else ok ← DoClean fd; mret (if (ok : bool) then EVENT_SYS_ERR_OK else EVENT_SYS_ERR_FAILED).

Fixpoint CleanUp_loop (fds : list Z) (res : Z) : RM Z :=
  match fds with
  | [] => mret res
  | fd :: fds => ok ← DoClean fd; CleanUp_loop fds (if (ok : bool) then res else EVENT_SYS_ERR_FAILED)
  end.
Definition CleanUp : RM Z :=
  size ← st_get table_size;
  CleanUp_loop (seqZ 0 size) EVENT_SYS_ERR_OK.
End io_event.
Arguments IOEventHandler : clear implicits.
Arguments world : clear implicits.
