(* ===== verification/IOEventInv.v ===== *)
(** * The lists of the I/O event reactor

    [dseg] describes a segment of a doubly linked list on the heap of nodes;
    [rep w L] says that the list of every descriptor [fd] of the table holds
    the handlers [L fd], that no handler is in two lists, and that the links of
    the others are null. *)

From S2P Require Import Prelude Errors IOEvent.

Section lists.
Context {Cb K : Type} `{Epoll K}.
Notation node := (IOEventHandler Cb).
Notation heap := (gmap ptr node).
Notation world := (world Cb K).
Implicit Types N : heap.
Implicit Types n : node.
Implicit Types w : world.
Implicit Types L : Z -> list Z.

(** [l] lies at [p], behind [pp]. *)
Fixpoint dseg N (pp p : option ptr) (l : list ptr) : Prop :=
  match l with
  | [] => p = None
  | x :: l => p = Some x /\ exists n, N !! x = Some n /\ prev_ n = pp /\ dseg N (Some x) (next_ n) l
  end.

(** Only the links of its nodes matter to a segment. *)
Definition same_links (n n' : node) : Prop := prev_ n' = prev_ n /\ next_ n' = next_ n.

Lemma dseg_ext N N' pp p l :
  (forall x n, x ∈ l -> N !! x = Some n -> exists n', N' !! x = Some n' /\ same_links n n') ->
  dseg N pp p l -> dseg N' pp p l.
Proof.
  revert pp p. induction l as [|x l IH]; intros pp p Hx; cbn; [done|]. intros (-> & n & Hn & Hp & Hl).
  split; [done|]. destruct (Hx x n ltac:(left) Hn) as (n' & Hn' & E1 & E2). exists n'. rewrite E1, E2.
  split_and!; try done. apply IH; [|done]. intros y ny Hy. apply Hx. by right.
Qed.

Lemma dseg_frame N N' pp p l : (forall x, x ∈ l -> N' !! x = N !! x) -> dseg N pp p l -> dseg N' pp p l.
Proof. intros Hx. apply dseg_ext. intros x n Hin Hn. exists n. by rewrite Hx. Qed.

Lemma dseg_in N pp p l x : dseg N pp p l -> x ∈ l -> is_Some (N !! x).
Proof.
  revert pp p. induction l as [|y l IH]; intros pp p; cbn; [by intros _ ?%elem_of_nil|].
  intros (_ & n & Hn & _ & Hl) [->|Hx]%elem_of_cons; [by exists n|]. by eapply IH.
Qed.

Lemma dseg_prev N q p l x n : dseg N (Some q) p l -> x ∈ l -> N !! x = Some n -> is_Some (prev_ n).
Proof.
  revert q p. induction l as [|y l IH]; intros q p; cbn; [by intros _ ?%elem_of_nil|].
  intros (_ & ny & Hy & Hp & Hl) [->|Hx]%elem_of_cons Hn; [|by eapply IH].
  rewrite Hy in Hn. injection Hn as <-. rewrite Hp. by eexists.
Qed.

Lemma dseg_length N pp p l : NoDup l -> dseg N pp p l -> (length l <= size N)%nat.
Proof.
  intros Hnd Hl. rewrite <- size_dom, <- (size_list_to_set (C := gset ptr)) by done.
  apply subseteq_size. intros x Hx%elem_of_list_to_set. apply elem_of_dom. by eapply dseg_in.
Qed.

(** ** Unlinking *)

(** The heap after [t], behind [a] and before [b], was unlinked. *)
Definition unlinked N N' (a t : ptr) (b : option ptr) : Prop :=
  (forall na, N !! a = Some na -> N' !! a = Some (set_next b na)) /\
  (forall b' nb, b = Some b' -> N !! b' = Some nb -> N' !! b' = Some (set_prev (Some a) nb)) /\
  (forall x, x <> a -> x <> t -> Some x <> b -> N' !! x = N !! x).

Lemma dseg_mid N pp p l1 a t l2 nt :
  dseg N pp p (l1 ++ a :: t :: l2) -> N !! t = Some nt -> prev_ nt = Some a /\ next_ nt = head l2.
Proof.
  intros Hl Ht. revert pp p Hl. induction l1 as [|y l1 IH]; intros pp p; cbn [app dseg].
  - intros (-> & na & Hna & Hpa & Hna' & nt' & Hnt' & Hpt & Hl). rewrite Ht in Hnt'. injection Hnt' as <-.
    split; [done|]. by destruct l2; [|destruct Hl as [-> _]].
  - intros (_ & ny & _ & _ & Hl). by eapply IH.
Qed.

Lemma dseg_unlink N N' pp p l1 a t l2 nt :
  NoDup (l1 ++ a :: t :: l2) -> dseg N pp p (l1 ++ a :: t :: l2) -> N !! t = Some nt ->
  unlinked N N' a t (next_ nt) -> dseg N' pp p (l1 ++ a :: l2).
Proof.
  intros Hnd Hl Ht Hu. destruct (dseg_mid _ _ _ _ _ _ _ _ Hl Ht) as [_ Enext]. rewrite Enext in Hu.
  destruct Hu as (Ha & Hb & Hx).
  revert pp p Hnd Hl. induction l1 as [|y l1 IH]; intros pp p; cbn [app dseg].
  - intros [Hat [Htl Hnd]%NoDup_cons]%NoDup_cons (-> & na & Hna & Hpa & Hna' & nt' & Hnt' & Hpt & Hl).
    rewrite Ht in Hnt'. injection Hnt' as <-. split; [done|]. exists (set_next (head l2) na).
    split; [by apply Ha|]. split; [done|]. cbn [next_ set_next].
    destruct l2 as [|b l2]; [done|]. destruct Hl as (Eb & nb & Hnb & Hpb & Hl). split; [done|].
    exists (set_prev (Some a) nb). split; [by apply (Hb b)|]. split; [done|]. cbn [next_ set_prev].
    apply (dseg_frame N); [|done]. intros x Hin. apply Hx.
    + intros ->. apply Hat. by do 2 right.
    + intros ->. apply Htl. by right.
    + intros [= ->]. by apply NoDup_cons in Hnd as [].
  - intros [Hy Hnd]%NoDup_cons (-> & ny & Hny & Hpy & Hl). split; [done|]. exists ny.
    split; [|split; [done|by apply IH]]. rewrite Hx; [done|..].
    + intros ->. apply Hy. apply elem_of_app. right. left.
    + intros ->. apply Hy. apply elem_of_app. right. right. left.
    + intros E. apply Hy. apply elem_of_app. right. do 2 right. destruct l2; [done|]. injection E as ->. left.
Qed.

(** ** The table *)

Definition chain (fd : Z) (l : list Z) : list ptr := Head fd :: (Node <$> l).

(** What a list operation leaves alone. *)
Definition data n : node := set_prev None (set_next None n).

Record rep w L : Prop := {
  rep_size : INIT_FD_NUMS <= table_size w;
  rep_seg fd : 0 <= fd < table_size w -> dseg (nodes w) None (Some (Head fd)) (chain fd (L fd));
  rep_nodup fd : NoDup (L fd);
  rep_disjoint fd fd' h : h ∈ L fd -> h ∈ L fd' -> fd = fd';
  rep_out fd : ~ 0 <= fd < table_size w -> L fd = [];
  rep_free h n : nodes w !! Node h = Some n -> (forall fd, h ∉ L fd) -> prev_ n = None /\ next_ n = None;
  rep_heads fd n : nodes w !! Head fd = Some n -> events_ n = EVENT_NONE;
}.

Lemma chain_nodup fd (l : list Z) : NoDup l -> NoDup (chain fd l).
Proof.
  intros Hl. apply NoDup_cons. split; [|by apply NoDup_fmap; [intros ?? [=]|]].
  by intros (? & [=] & _)%list_elem_of_fmap.
Qed.

Lemma rep_head w L fd : rep w L -> 0 <= fd < table_size w ->
  exists n, nodes w !! Head fd = Some n /\ prev_ n = None /\ dseg (nodes w) (Some (Head fd)) (next_ n) (Node <$> L fd).
Proof. intros Hr Hfd. destruct (rep_seg _ _ Hr fd Hfd) as (_ & n & Hn & Hp & Hl). by exists n. Qed.

Lemma rep_range w L fd h : rep w L -> h ∈ L fd -> 0 <= fd < table_size w.
Proof.
  intros Hr Hh. destruct (decide (0 <= fd < table_size w)) as [|Ho]; [done|].
  rewrite (rep_out _ _ Hr _ Ho) in Hh. by apply elem_of_nil in Hh.
Qed.

Lemma rep_linked w L fd h n : rep w L -> nodes w !! Node h = Some n -> h ∈ L fd -> is_Some (prev_ n).
Proof.
  intros Hr Hn Hh. pose proof (rep_range _ _ _ _ Hr Hh) as Hfd.
  destruct (rep_head _ _ _ Hr Hfd) as (nh & _ & _ & Hl).
  apply (dseg_prev _ _ _ _ (Node h) n Hl); [by apply list_elem_of_fmap_2|done].
Qed.

Lemma rep_unlinked w L h n : rep w L -> nodes w !! Node h = Some n -> prev_ n = None -> forall fd, h ∉ L fd.
Proof. intros Hr Hn Hp fd Hh. destruct (rep_linked _ _ _ _ _ Hr Hn Hh). congruence. Qed.

(** A change of the heap that keeps the links. *)
Lemma rep_same w w' L :
  rep w L -> table_size w' = table_size w ->
  (forall x n', nodes w' !! x = Some n' -> exists n, nodes w !! x = Some n /\ same_links n n' /\
                                        (forall fd, x = Head fd -> events_ n' = events_ n)) ->
  (forall x, is_Some (nodes w !! x) -> is_Some (nodes w' !! x)) -> rep w' L.
Proof.
  intros Hr Es Hx Hdom. split; rewrite ?Es; try apply Hr.
  - intros fd Hfd. apply (dseg_ext (nodes w)); [|by apply (rep_seg _ _ Hr)].
    intros x n _ Hn. destruct (Hdom x ltac:(by eexists)) as [n' Hn'].
    destruct (Hx x n' Hn') as (n0 & Hn0 & Hl & _). rewrite Hn in Hn0. injection Hn0 as <-. by exists n'.
  - intros h n' Hn' Hh. destruct (Hx _ _ Hn') as (n & Hn & [E1 E2] & _). rewrite E1, E2. by apply (rep_free _ _ Hr h).
  - intros fd n' Hn'. destruct (Hx _ _ Hn') as (n & Hn & _ & E). rewrite (E fd eq_refl). by apply (rep_heads _ _ Hr fd).
Qed.

Lemma rep_eq w w' L : rep w L -> nodes w' = nodes w -> table_size w' = table_size w -> rep w' L.
Proof.
  intros Hr En Es. apply (rep_same w); [done..| |].
  - intros x n' Hn'. rewrite En in Hn'. by exists n'.
  - intros x. by rewrite En.
Qed.

(** ** Access to the heap *)

Lemma wp_load p n (Q : node -> world -> Prop) w : nodes w !! p = Some n -> Q n w -> wp (load p) Q w.
Proof. apply (wp_access (fun w => nodes w !! p)). Qed.

Lemma wp_modify p f n (Q : unit -> world -> Prop) w :
  nodes w !! p = Some n -> Q tt (with_nodes w (<[p := f n]> (nodes w))) -> wp (modify p f) Q w.
Proof. unfold wp, modify. by intros ->. Qed.

Lemma rep_modify w L h n f :
  rep w L -> nodes w !! Node h = Some n -> same_links n (f n) -> rep (with_nodes w (<[Node h := f n]> (nodes w))) L.
Proof.
  intros Hr Hn Hs. apply (rep_same w); try done; cbn [nodes with_nodes].
  - intros x n' [[<- <-]|[_ Hx]]%lookup_insert_Some; [by exists n|by exists n'].
  - intros x Hx. destruct (decide (Node h = x)) as [<-|]; [rewrite lookup_insert_eq; by eexists|by rewrite lookup_insert_ne].
Qed.

(** ** Loops *)

Lemma HasHandler_loop_spec fuel w l p pp target (Q : bool -> world -> Prop) :
  dseg (nodes w) pp p l -> (length l <= fuel)%nat ->
  Q (bool_decide (target ∈ l)) w -> wp (HasHandler_loop fuel p target) Q w.
Proof.
  revert pp p fuel. induction l as [|x l IH]; intros pp p fuel.
  - intros -> _ Hq. destruct fuel; exact Hq.
  - intros (-> & n & Hn & _ & Hl) Hf Hq. destruct fuel as [|fuel]; [cbn in Hf; lia|]. cbn [HasHandler_loop].
    destruct (decide (x = target)) as [->|Hne]; [by rewrite bool_decide_true in Hq by left|].
    apply wp_bind, (wp_load _ n); [done|]. apply (IH (Some x)); [done|cbn in Hf; lia|].
    erewrite bool_decide_ext; [exact Hq|]. rewrite elem_of_cons. naive_solver.
Qed.

(** The events of the nodes at [l]. *)
Definition node_mask N (x : ptr) : Z := match N !! x with Some n => events_ n | None => 0 end.
Definition add_mask N (m : Z) (x : ptr) : Z := Z.lor m (node_mask N x).
Definition mask_of N (l : list ptr) : Z := foldl (add_mask N) 0 l.

Lemma emask_loop_spec fuel w l p pp m (Q : Z -> world -> Prop) :
  dseg (nodes w) pp p l -> (length l <= fuel)%nat ->
  Q (foldl (add_mask (nodes w)) m l) w ->
  wp (emask_loop fuel p m) Q w.
Proof.
  revert pp p fuel m. induction l as [|x l IH]; intros pp p fuel m.
  - intros -> _ Hq. destruct fuel; exact Hq.
  - intros (-> & n & Hn & _ & Hl) Hf Hq. destruct fuel as [|fuel]; [cbn in Hf; lia|]. cbn [emask_loop].
    apply wp_bind, (wp_load _ n); [done|]. apply (IH (Some x)); [done|cbn in Hf; lia|].
    cbn [foldl] in Hq. unfold add_mask at 2, node_mask in Hq. by rewrite Hn in Hq.
Qed.

(** The callbacks an event of the list [l] runs, in order. *)
Definition tasks_of N (event : Z) (l : list ptr) : list Cb :=
  l ≫= (fun x => match N !! x with
                 | Some n => match cb_ n with Some cb => if takes_event event n then [cb] else [] | None => [] end
                 | None => []
                 end).

Lemma HandleEvents_loop_spec fuel w l p pp event que (Q : list Cb -> world -> Prop) :
  dseg (nodes w) pp p l -> (length l <= fuel)%nat ->
  Q (que ++ tasks_of (nodes w) event l) w -> wp (HandleEvents_loop fuel p event que) Q w.
Proof.
  revert pp p fuel que. induction l as [|x l IH]; intros pp p fuel que.
  - intros -> _ Hq. cbn in Hq. rewrite app_nil_r in Hq. destruct fuel; exact Hq.
  - intros (-> & n & Hn & _ & Hl) Hf Hq. destruct fuel as [|fuel]; [cbn in Hf; lia|]. cbn [HandleEvents_loop].
    apply wp_bind, (wp_load _ n); [done|]. apply (IH (Some x)); [done|cbn in Hf; lia|].
    cbn [tasks_of mbind list_bind] in Hq. rewrite Hn in Hq.
    destruct (cb_ n) as [cb|]; [|exact Hq]. destruct (takes_event event n); [|exact Hq].
    by rewrite <- app_assoc.
Qed.
End lists.
