(* ===== verification/IOEventOps.v ===== *)
(** * What the operations of the I/O event reactor do to its lists *)

From stdpp Require Import functions.
From S2P Require Import Prelude Errors IOEvent IOEventInv.

Section ops.
Context {Cb K : Type} `{Epoll K}.
Notation node := (IOEventHandler Cb).
Notation heap := (gmap ptr node).
Notation world := (world Cb K).
Implicit Types N : heap.
Implicit Types n : node.
Implicit Types w : world.
Implicit Types L : Z -> list Z.

Lemma chains_disjoint w L fd fd' x : rep w L -> x ∈ chain fd (L fd) -> x ∈ chain fd' (L fd') -> fd = fd'.
Proof.
  intros Hr. unfold chain. rewrite !elem_of_cons, !list_elem_of_fmap.
  intros [->|(h & -> & Hh)] [E|(h' & E & Hh')]; try done; injection E as E; subst; [done|].
  by apply (rep_disjoint _ _ Hr _ _ h').
Qed.

(** Only the list of [fd] and the handlers [hs] of no other list change. *)
Lemma rep_update w L N' fd l' (hs : list Z) :
  rep w L -> 0 <= fd < table_size w ->
  (forall h, h ∈ hs -> forall fd', fd' <> fd -> h ∉ L fd') ->
  (forall x, x ∉ chain fd (L fd) -> (forall h, h ∈ hs -> x <> Node h) -> N' !! x = nodes w !! x) ->
  dseg N' None (Some (Head fd)) (chain fd l') -> NoDup l' -> (forall h, h ∈ l' -> h ∈ hs \/ h ∈ L fd) ->
  (forall h n, h ∈ hs \/ h ∈ L fd -> h ∉ l' -> N' !! Node h = Some n -> prev_ n = None /\ next_ n = None) ->
  (forall fd n, N' !! Head fd = Some n -> events_ n = EVENT_NONE) ->
  rep (with_nodes w N') (<[fd := l']> L).
Proof.
  intros Hr Hfd Hhs Hx Hseg Hnd Hin Hfree Hhd.
  assert (forall fd' h, fd' <> fd -> h ∈ L fd' -> h ∉ l') as Hother.
  { intros fd' h Hne Hh Hl. destruct (Hin h Hl) as [Hs|Hl']; [by apply (Hhs h Hs fd')|].
    by apply Hne, (rep_disjoint _ _ Hr _ _ h). }
  split; cbn [nodes with_nodes]; try done; try apply Hr.
  - intros fd' Hfd'. destruct (decide (fd' = fd)) as [->|Hne]; [by rewrite fn_lookup_insert|].
    rewrite fn_lookup_insert_ne by done. apply (dseg_frame (nodes w)); [|by apply (rep_seg _ _ Hr)].
    intros x Hx'. apply Hx.
    + intros Hx2. by apply Hne, (chains_disjoint w L _ _ x).
    + intros h Hh ->. apply elem_of_cons in Hx' as [|(h' & [= ->] & Hh')%list_elem_of_fmap]; [done|].
      by apply (Hhs h' Hh fd').
  - intros fd'. destruct (decide (fd' = fd)) as [->|Hne]; [by rewrite fn_lookup_insert|].
    rewrite fn_lookup_insert_ne by done. apply Hr.
  - intros fd1 fd2 h. destruct (decide (fd1 = fd)) as [->|H1], (decide (fd2 = fd)) as [->|H2];
      rewrite ?fn_lookup_insert, ?fn_lookup_insert_ne by done; [done| | |apply Hr].
    + intros Hh Hh2. by destruct (Hother fd2 h).
    + intros Hh Hh2. by destruct (Hother fd1 h).
  - intros fd' Ho. rewrite fn_lookup_insert_ne by (intros ->; done). by apply Hr.
  - intros h n Hn Hh.
    assert (h ∉ l') as Hl by (specialize (Hh fd); by rewrite fn_lookup_insert in Hh).
    destruct (decide (h ∈ hs)); [apply (Hfree h); auto|]. destruct (decide (h ∈ L fd)); [apply (Hfree h); auto|].
    apply (rep_free _ _ Hr h).
    + rewrite <- Hx; [done| |].
      * unfold chain. rewrite elem_of_cons. intros [|(h' & [= ->] & Hh')%list_elem_of_fmap]; done.
      * by intros h' Hh' [= ->].
    + intros fd'. destruct (decide (fd' = fd)) as [->|Hne]; [done|].
      specialize (Hh fd'). by rewrite fn_lookup_insert_ne in Hh.
Qed.

Definition same_data N N' : Prop := data <$> N' = data <$> N.

Lemma same_data_insert N x n n' : N !! x = Some n -> data n' = data n -> same_data N (<[x := n']> N).
Proof.
  intros Hn E. unfold same_data. rewrite fmap_insert, E. apply insert_id. by rewrite lookup_fmap, Hn.
Qed.
Lemma same_data_trans N1 N2 N3 : same_data N1 N2 -> same_data N2 N3 -> same_data N1 N3.
Proof. unfold same_data. congruence. Qed.

Lemma same_data_lookup N N' x n' : same_data N N' -> N' !! x = Some n' -> exists n, N !! x = Some n /\ data n' = data n.
Proof.
  intros Hs Hn. assert ((data <$> N') !! x = (data <$> N) !! x) as E by by rewrite Hs.
  rewrite !lookup_fmap, Hn in E. destruct (N !! x) as [n|]; [|done]. exists n. split; [done|]. cbn in E. by apply (inj Some) in E.
Qed.

Lemma data_fields n n' : data n' = data n -> events_ n' = events_ n /\ fd_ n' = fd_ n /\ cb_ n' = cb_ n /\ enabled_ n' = enabled_ n.
Proof. destruct n, n'. unfold data, set_prev, set_next. cbn. intros [= -> -> -> ->]. done. Qed.

Lemma heads_stay N N' : same_data N N' -> (forall fd n, N !! Head fd = Some n -> events_ n = EVENT_NONE) ->
  forall fd n, N' !! Head fd = Some n -> events_ n = EVENT_NONE.
Proof.
  intros Hs Hh fd n' Hn'. destruct (same_data_lookup _ _ _ _ Hs Hn') as (n & Hn & Hd).
  destruct (data_fields _ _ Hd) as [-> _]. by apply (Hh fd).
Qed.

(** ** Insertion *)

Lemma InsertNodeFront_spec w L fd h n :
  rep w L -> 0 <= fd < table_size w -> nodes w !! Node h = Some n -> (forall fd', h ∉ L fd') ->
  wp (InsertNodeFront fd (Node h)) (fun _ w' => exists N',
    w' = with_nodes w N' /\ rep w' (<[fd := h :: L fd]> L) /\ same_data (nodes w) N') w.
Proof.
  intros Hr Hfd Hn Hh. destruct (rep_head _ _ _ Hr Hfd) as (hd & Hhd & Hphd & Hl).
  unfold InsertNodeFront. wps. apply (wp_load _ hd); [done|]. wps.
  apply (wp_modify _ _ n); [done|]. wps. cbn [nodes with_nodes].
  apply (wp_modify _ _ (set_next (next_ hd) n)); [apply lookup_insert_eq|]. cbn [nodes with_nodes]. wps.
  rewrite insert_insert_eq. set (t := set_prev _ _). set (N1 := <[Node h := t]> (nodes w)).
  assert (same_data (nodes w) N1) as D1 by by apply (same_data_insert _ _ n).
  apply (wp_load _ hd); [by unfold N1; cbn [nodes with_nodes]; rewrite lookup_insert_ne|]. wps.
  assert (dseg N1 (Some (Head fd)) (next_ hd) (Node <$> L fd)) as Hl1.
  { apply (dseg_frame (nodes w)); [|done]. intros x (h' & -> & Hh')%list_elem_of_fmap.
    unfold N1. rewrite lookup_insert_ne; [done|]. intros [= ->]. by apply (Hh fd). }
  assert (exists N2, same_data N1 N2 /\ N2 !! Head fd = Some hd /\ N2 !! Node h = Some t /\
      dseg N2 (Some (Node h)) (next_ hd) (Node <$> L fd) /\
      (forall x, x ∉ chain fd (L fd) -> N2 !! x = N1 !! x) /\
      forall Q : unit -> world -> Prop, Q tt (with_nodes w N2) ->
        wp (if_some (next_ hd) (fun p => modify p (set_prev (Some (Node h))))) Q (with_nodes w N1))
    as (N2 & D2 & Hhd2 & Ht2 & Hl2 & Hx2 & Hwp).
  { assert (N1 !! Head fd = Some hd) by (unfold N1; by rewrite lookup_insert_ne).
    assert (N1 !! Node h = Some t) by (unfold N1; by rewrite lookup_insert_eq).
    destruct (L fd) as [|b l] eqn:El.
    - cbn in Hl1. rewrite Hl1. exists N1. split_and!; try done.
    - destruct Hl1 as (Eb & nb & Hnb & Hpb & Hl1). rewrite Eb.
      assert (b <> h) as Hbh by (intros ->; apply (Hh fd); rewrite El; left).
      exists (<[Node b := set_prev (Some (Node h)) nb]> N1). split_and!.
      + by apply (same_data_insert _ _ nb).
      + by rewrite lookup_insert_ne.
      + rewrite lookup_insert_ne; [done|congruence].
      + split; [done|]. exists (set_prev (Some (Node h)) nb). rewrite lookup_insert_eq. split; [done|]. split; [done|].
        apply (dseg_frame N1); [|done]. intros x (h' & -> & Hh')%list_elem_of_fmap. rewrite lookup_insert_ne; [done|].
        intros [= ->]. pose proof (rep_nodup _ _ Hr fd) as Hnd. rewrite El in Hnd. by apply NoDup_cons in Hnd as [].
      + intros x Hx. rewrite lookup_insert_ne; [done|]. intros <-. apply Hx. right. left.
      + intros Q HQ. cbn [if_some]. by apply (wp_modify _ _ nb). }
  apply Hwp. wps. apply (wp_modify _ _ hd); [done|]. cbn [nodes with_nodes]. eexists. split; [done|].
  assert (same_data N2 (<[Head fd := set_next (Some (Node h)) hd]> N2)) as D3 by by apply (same_data_insert _ _ hd).
  assert (same_data (nodes w) (<[Head fd := set_next (Some (Node h)) hd]> N2)) as D
    by (eapply same_data_trans; [exact D1|]; by eapply same_data_trans).
  split; [|done]. apply (rep_update w L _ fd (h :: L fd) [h]); try done.
  - by intros h' ->%list_elem_of_singleton.
  - intros x Hx Hne. rewrite lookup_insert_ne by (intros <-; apply Hx; left). rewrite Hx2 by done.
    unfold N1. rewrite lookup_insert_ne; [done|]. intros <-. by apply (Hne h); [left|].
  - split; [done|]. eexists. rewrite lookup_insert_eq. split; [done|]. split; [done|]. cbn [next_ set_next fmap list_fmap].
    split; [done|]. exists t. rewrite lookup_insert_ne by done. split; [done|]. split; [done|].
    apply (dseg_frame N2); [|done]. intros x (h' & -> & Hh')%list_elem_of_fmap. by rewrite lookup_insert_ne.
  - apply NoDup_cons. split; [done|apply Hr].
  - intros h' [->|]%elem_of_cons; [left; left|by right].
  - intros h' n' [->%list_elem_of_singleton|Hh'] Hn'; [|]; exfalso; apply Hn'; [left|by right].
  - apply (heads_stay _ _ D), Hr.
Qed.

(** ** Removal *)

Lemma chain_last fd (l : list Z) : exists k a, chain fd l = k ++ [a].
Proof. destruct (exists_last (l := chain fd l)) as (k & a & E); [done|]. by exists k, a. Qed.

Lemma chain_split fd l1 h l2 k a : chain fd l1 = k ++ [a] ->
  chain fd (l1 ++ h :: l2) = k ++ a :: Node h :: (Node <$> l2) /\ chain fd (l1 ++ l2) = k ++ a :: (Node <$> l2).
Proof.
  unfold chain. intros E. rewrite !fmap_app, fmap_cons, !app_comm_cons, E, <- !app_assoc. done.
Qed.

Lemma unlink_steps w L fd l1 h l2 :
  rep w L -> L fd = l1 ++ h :: l2 ->
  exists nt a N1 N2, nodes w !! Node h = Some nt /\ prev_ nt = Some a /\
    (forall Q : unit -> world -> Prop, Q tt (with_nodes w N1) -> wp (modify a (set_next (next_ nt))) Q w) /\
    N1 !! Node h = Some nt /\
    (forall Q : unit -> world -> Prop, Q tt (with_nodes w N2) ->
      wp (if_some (next_ nt) (fun p => modify p (set_prev (prev_ nt)))) Q (with_nodes w N1)) /\
    N2 !! Node h = Some nt /\ same_data (nodes w) N2 /\
    (forall N', (forall x, x <> Node h -> N' !! x = N2 !! x) ->
      (forall n, N' !! Node h = Some n -> prev_ n = None /\ next_ n = None) ->
      rep (with_nodes w N') (<[fd := l1 ++ l2]> L)).
Proof.
  intros Hr El. assert (h ∈ L fd) as Hin by (rewrite El; apply elem_of_app; right; left).
  pose proof (rep_range _ _ _ _ Hr Hin) as Hfd. pose proof (rep_nodup _ _ Hr fd) as Hnd.
  pose proof (rep_seg _ _ Hr fd Hfd) as Hseg. pose proof (chain_nodup fd _ Hnd) as Hnc. rewrite El in Hseg, Hnc, Hnd.
  destruct (chain_last fd l1) as (k & a & Ek). destruct (chain_split fd l1 h l2 k a Ek) as [E1 E2].
  rewrite E1 in Hseg, Hnc.
  destruct (dseg_in _ _ _ _ (Node h) Hseg) as [nt Hnt]; [apply elem_of_app; right; right; left|].
  destruct (dseg_in _ _ _ _ a Hseg) as [na Hna]; [apply elem_of_app; right; left|].
  destruct (dseg_mid _ _ _ _ _ _ _ _ Hseg Hnt) as [Hp Hnx].
  assert (a <> Node h) as Hah.
  { intros ->. apply NoDup_app in Hnc as (_ & _ & Hnc). apply NoDup_cons in Hnc as [Hnc _]. apply Hnc. left. }
  set (N1 := <[a := set_next (next_ nt) na]> (nodes w)).
  assert (same_data (nodes w) N1) as D1 by by apply (same_data_insert _ _ na).
  assert (N1 !! Node h = Some nt) as Ht1 by (unfold N1; by rewrite lookup_insert_ne).
  assert (forall b, next_ nt = Some b -> b ∈ Node <$> l2 /\ b <> a /\ b <> Node h) as Hb.
  { rewrite Hnx. intros b Eb. assert (b ∈ Node <$> l2) as Hbl by (destruct l2; [done|]; injection Eb as <-; left).
    apply NoDup_app in Hnc as (_ & _ & [Hn1 [Hn2 _]%NoDup_cons]%NoDup_cons).
    split; [done|]. split; intros ->; [apply Hn1; by right|by apply Hn2]. }
  assert (exists N2, (forall Q : unit -> world -> Prop, Q tt (with_nodes w N2) ->
      wp (if_some (next_ nt) (fun p => modify p (set_prev (prev_ nt)))) Q (with_nodes w N1)) /\
    N2 !! Node h = Some nt /\ same_data N1 N2 /\ N2 !! a = N1 !! a /\
    (forall b nb, next_ nt = Some b -> nodes w !! b = Some nb -> N2 !! b = Some (set_prev (Some a) nb)) /\
    (forall x, Some x <> next_ nt -> N2 !! x = N1 !! x)) as (N2 & Hwp2 & Ht2 & D2 & Ha2 & Hb2 & Hx2).
  { destruct (next_ nt) as [b|] eqn:Eb; [|by exists N1].
    destruct (Hb b eq_refl) as (Hbl & Hba & Hbh).
    destruct (dseg_in _ _ _ _ b Hseg) as [nb Hnb]; [apply elem_of_app; right; by do 2 right|].
    assert (N1 !! b = Some nb) as Hb1 by (unfold N1; by rewrite lookup_insert_ne).
    exists (<[b := set_prev (Some a) nb]> N1). split_and!.
    - intros Q HQ. cbn [if_some]. apply (wp_modify _ _ nb); [done|]. by rewrite Hp.
    - by rewrite lookup_insert_ne.
    - by apply (same_data_insert _ _ nb).
    - by rewrite lookup_insert_ne.
    - intros b' nb' [= <-] Hnb'. rewrite Hnb in Hnb'. injection Hnb' as <-. apply lookup_insert_eq.
    - intros x Hx. rewrite lookup_insert_ne; [done|]. by intros ->. }
  exists nt, a, N1, N2. split_and!; try done.
  { intros Q HQ. by apply (wp_modify _ _ na). }
  { by eapply same_data_trans. }
  intros N' Hx' Ht'. assert (a ∈ chain fd (L fd)) as Hac by (rewrite El, E1; apply elem_of_app; right; left).
  apply (rep_update w L N' fd (l1 ++ l2) [h]); try done.
  - intros h' ->%list_elem_of_singleton fd' Hne Hh'. by apply Hne, (rep_disjoint _ _ Hr _ _ h).
  - intros x Hxc Hxh. assert (x <> Node h) as Hxn by (apply Hxh; left). rewrite Hx' by done.
    rewrite Hx2; [unfold N1; rewrite lookup_insert_ne; [done|by intros ->]|].
    intros E. symmetry in E. destruct (Hb x E) as (Hbl & _ & _). apply Hxc. rewrite El, E1.
    apply elem_of_app. right. by do 2 right.
  - rewrite E2. apply (dseg_unlink (nodes w) N' None _ k a (Node h) (Node <$> l2) nt); try done. split_and!.
    + intros na' Hna'. rewrite Hna in Hna'. injection Hna' as <-. rewrite Hx', Ha2 by done. apply lookup_insert_eq.
    + intros b nb Eb Hnb. destruct (Hb b Eb) as (_ & _ & Hbh). rewrite Hx' by done. by apply Hb2.
    + intros x Hxa Hxh Hxb. rewrite Hx', Hx2 by done. unfold N1. by rewrite lookup_insert_ne.
  - apply NoDup_app in Hnd as (Hn1 & Hn2 & [_ Hn3]%NoDup_cons). apply NoDup_app. split_and!; try done.
    intros x Hx1 Hxl. apply (Hn2 x Hx1). by right.
  - intros h' Hh'. right. rewrite El. apply elem_of_app in Hh' as [|]; apply elem_of_app; [by left|right; by right].
  - intros h' n Hh' Hnl. assert (h' = h) as ->; [|apply Ht'].
    destruct Hh' as [->%list_elem_of_singleton|Hh']; [done|]. rewrite El, elem_of_app, elem_of_cons in Hh'.
    rewrite elem_of_app in Hnl. naive_solver.
  - intros fd' n Hn. rewrite Hx' in Hn by done.
    apply (heads_stay (nodes w) N2 (same_data_trans _ _ _ D1 D2) (rep_heads _ _ Hr) fd' n Hn).
Qed.

Lemma RemoveNode_spec w L fd l1 h l2 :
  rep w L -> L fd = l1 ++ h :: l2 ->
  wp (RemoveNode (Node h)) (fun _ w' => exists N',
    w' = with_nodes w N' /\ rep w' (<[fd := l1 ++ l2]> L) /\ same_data (nodes w) N') w.
Proof.
  intros Hr El. destruct (unlink_steps w L fd l1 h l2 Hr El) as (nt & a & N1 & N2 & Hnt & Hp & W1 & Ht1 & W2 & Ht2 & D & Hrep).
  unfold RemoveNode. wps. apply (wp_load _ nt); [done|]. rewrite Hp. wps. apply (wp_access _ a); [done|]. wps.
  apply W1. wps. apply (wp_load _ nt); [done|]. wps. apply W2. wps. apply (wp_modify _ _ nt); [done|]. wps.
  eapply wp_modify; [apply lookup_insert_eq|]. cbn [nodes with_nodes]. rewrite insert_insert_eq.
  eexists. split; [done|]. split.
  - apply Hrep; intros x; [intros Hx; by rewrite lookup_insert_ne|]. rewrite lookup_insert_eq. by intros [= <-].
  - eapply same_data_trans; [exact D|]. by apply (same_data_insert _ _ nt).
Qed.

(** A handler may be destroyed wherever it is. *)
Lemma dtor_linked w L fd l1 h l2 :
  rep w L -> L fd = l1 ++ h :: l2 ->
  wp (IOEventHandler_dtor h) (fun _ w' => exists N', w' = with_nodes w N' /\ rep w' (<[fd := l1 ++ l2]> L) /\ N' !! Node h = None) w.
Proof.
  intros Hr El. destruct (unlink_steps w L fd l1 h l2 Hr El) as (nt & a & N1 & N2 & Hnt & Hp & W1 & Ht1 & W2 & Ht2 & D & Hrep).
  unfold IOEventHandler_dtor. wps. apply (wp_load _ nt); [done|]. rewrite Hp. wps. cbn [if_some]. apply W1. wps.
  apply (wp_load _ nt); [done|]. wps. apply W2. wps. cbn [nodes with_nodes]. exists (delete (Node h) N2). split; [done|].
  split; [|apply lookup_delete_eq]. apply Hrep; intros x; [intros Hx; by rewrite lookup_delete_ne|].
  by rewrite lookup_delete_eq.
Qed.

Lemma dtor_free w L h n :
  rep w L -> nodes w !! Node h = Some n -> (forall fd, h ∉ L fd) ->
  wp (IOEventHandler_dtor h) (fun _ w' => exists N', w' = with_nodes w N' /\ rep w' L /\ N' !! Node h = None) w.
Proof.
  intros Hr Hn Hh. destruct (rep_free _ _ Hr h n Hn Hh) as [Ep En].
  unfold IOEventHandler_dtor. wps. apply (wp_load _ n); [done|]. rewrite Ep. wps. cbn [if_some]. wps.
  apply (wp_load _ n); [done|]. rewrite En. cbn [if_some]. wps. eexists. split; [done|]. split; [|apply lookup_delete_eq].
  split; cbn [nodes with_nodes]; try apply Hr.
  - intros fd Hfd. apply (dseg_frame (nodes w)); [|by apply (rep_seg _ _ Hr)].
    intros x [->|(h' & -> & Hh')%list_elem_of_fmap]%elem_of_cons; rewrite lookup_delete_ne; [done..|done|].
    intros [= ->]. by apply (Hh fd).
  - intros h' n' [_ Hn']%lookup_delete_Some. by apply (rep_free _ _ Hr).
  - intros fd n' [_ Hn']%lookup_delete_Some. by apply (rep_heads _ _ Hr fd).
Qed.
End ops.
