(* ===== verification/IOEventCalls.v ===== *)
(** * The calls of the I/O event reactor

    [rep] is kept by every call, and every call is defined: no null or dangling
    pointer is followed and every loop ends. [sync] says that the kernel
    watches exactly the events of the table. *)

From stdpp Require Import functions.
From S2P Require Import Prelude Errors IOEvent IOEventInv IOEventOps.

(** What [epoll] documents: [watched k epfd] is the interest list. A call on a
    descriptor that is not open fails, a failing call changes nothing, and
    only watched descriptors are reported. *)
Class EpollLaws (K : Type) `{Epoll K} := {
  watched : K -> Z -> gmap Z Z;
  watched_closed k ep : ep < 0 -> watched k ep = ∅;
  create_watches k fd k' : epoll_create1 k = (fd, k') -> watched k' fd = ∅;
  ctl_fails ep op fd mask k k' : epoll_ctl ep op fd mask k = (false, k') -> watched k' ep = watched k ep;
  ctl_works ep op fd mask k k' : epoll_ctl ep op fd mask k = (true, k') ->
    0 <= ep /\
    match op with
    | EPOLL_CTL_ADD => watched k ep !! fd = None /\ watched k' ep = <[fd := mask]> (watched k ep)
    | EPOLL_CTL_MOD => is_Some (watched k ep !! fd) /\ watched k' ep = <[fd := mask]> (watched k ep)
    | EPOLL_CTL_DEL => is_Some (watched k ep !! fd) /\ watched k' ep = delete fd (watched k ep)
    end;
  wait_reports ep max timeout k n got k' : epoll_wait ep max timeout k = (n, got, k') ->
    watched k' ep = watched k ep /\ Forall (fun e => is_Some (watched k ep !! e.1)) got;
}.

Section calls.
Context {Cb K : Type} `{HE : Epoll K}.
Notation node := (IOEventHandler Cb).
Notation heap := (gmap ptr node).
Notation world := (world Cb K).
Implicit Types N : heap.
Implicit Types n : node.
Implicit Types w : world.
Implicit Types L : Z -> list Z.

Lemma loop_fuel_enough w L fd : rep w L -> 0 <= fd < table_size w -> (length (chain fd (L fd)) <= S (size (nodes w)))%nat.
Proof.
  intros Hr Hfd. pose proof (dseg_length _ _ _ _ (chain_nodup fd _ (rep_nodup _ _ Hr fd)) (rep_seg _ _ Hr fd Hfd)). lia.
Qed.

Lemma HasHandler_spec w L h n (Q : bool -> world -> Prop) :
  rep w L -> nodes w !! Node h = Some n -> Q (bool_decide (h ∈ L (fd_ n))) w -> wp (HasHandler (Node h)) Q w.
Proof.
  intros Hr Hn Hq. unfold HasHandler, loop_fuel. wps. apply (wp_load _ n); [done|]. wps.
  assert (forall b, ~ 0 <= fd_ n < table_size w -> b = false -> Q b w) as Hout.
  { intros b Ho ->. rewrite (rep_out _ _ Hr _ Ho), bool_decide_false in Hq; [done|]. apply not_elem_of_nil. }
  destruct (Z.ltb_spec (fd_ n) 0); [apply Hout; [lia|done]|].
  destruct (Z.leb_spec (table_size w) (fd_ n)); [apply Hout; [lia|done]|]. cbn [orb]. wps.
  assert (0 <= fd_ n < table_size w) as Hfd by lia.
  apply (HasHandler_loop_spec _ _ _ _ _ _ _ (rep_seg _ _ Hr _ Hfd)); [by apply loop_fuel_enough|].
  erewrite bool_decide_ext; [exact Hq|]. unfold chain. rewrite elem_of_cons, list_elem_of_fmap. naive_solver.
Qed.

(** ** The demultiplexer *)

Definition watch_of w (fd : Z) : option Z :=
  match znth (ioHandlers_ (reactor w)) fd with
  | Some e => if e =? 0 then None else Some (Reactor2Epoll e)
  | None => None
  end.
Definition sync `{!EpollLaws K} w : Prop := forall fd,
  watched (kernel w) (epollFd_ (backend_ (reactor w))) !! fd = watch_of w fd /\
  (fd ∈ interestFds_ (backend_ (reactor w)) <-> is_Some (watch_of w fd)).

(** What [UpdateToDemultiplexer] leaves alone. *)
Definition same_lists w w' : Prop :=
  nodes w' = nodes w /\ executed w' = executed w /\ table_size w' = table_size w.

Lemma wp_fd_events fd e (Q : Z -> world -> Prop) w :
  znth (ioHandlers_ (reactor w)) fd = Some e -> Q e w -> wp (fd_events fd) Q w.
Proof. apply (wp_access (fun w => znth (ioHandlers_ (reactor w)) fd)). Qed.

Lemma wp_set_fd_events fd e l (Q : unit -> world -> Prop) w :
  zset (ioHandlers_ (reactor w)) fd e = Some l -> Q tt (with_table w l) -> wp (set_fd_events fd e) Q w.
Proof. unfold wp, set_fd_events. by intros ->. Qed.

(** A change of the events of [fd], in the kernel first. *)
Lemma ModifyEvents_sync fd e emask w :
  0 <= fd < table_size w -> znth (ioHandlers_ (reactor w)) fd = Some e -> emask <> e ->
  wp (ModifyEvents fd emask) (fun res w' => exists b k, w' = with_backend w b k /\
    (res = EVENT_SYS_ERR_OK \/ res = EVENT_SYS_ERR_FAILED) /\
    forall `{!EpollLaws K} l, sync w ->
      (res <> EVENT_SYS_ERR_OK -> sync w') /\
      (res = EVENT_SYS_ERR_OK -> zset (ioHandlers_ (reactor w)) fd emask = Some l -> sync (with_table w' l))) w.
Proof.
  intros Hfd He Hne. unfold ModifyEvents. destruct (Z.eqb_spec fd (-1)); [lia|]. wps.
  set (b := backend_ (reactor w)).
  set (op := if bool_decide (fd ∈ interestFds_ b) then if emask =? EVENT_NONE then EPOLL_CTL_DEL else EPOLL_CTL_MOD else EPOLL_CTL_ADD).
  unfold wp at 1, OperateEpoll. fold b.
  destruct (epoll_ctl (epollFd_ b) op fd (Reactor2Epoll emask) (kernel w)) as [[] k] eqn:Ek; cbn [negb]; wps.
  - eexists _, k. split; [done|]. split; [by left|]. intros HL l Hs. split; [done|]. intros _ El fd'.
    destruct (znth_zset _ _ _ _ El) as [_ Hnth].
    destruct (Hs fd) as [Hw Hi]. destruct (Hs fd') as [Hw' Hi'].
    destruct (ctl_works _ _ _ _ _ _ Ek) as [_ Hctl].
    unfold watch_of in *. rewrite He in Hw, Hi. fold b in Hw, Hi, Hw', Hi'.
    assert (op = if e =? 0 then EPOLL_CTL_ADD else if emask =? 0 then EPOLL_CTL_DEL else EPOLL_CTL_MOD) as Hop.
    { unfold op. destruct (Z.eqb_spec e 0) as [->|He0].
      - by rewrite bool_decide_false by (rewrite Hi; by intros []).
      - by rewrite bool_decide_true by (rewrite Hi; by eexists). }
    cbn [kernel reactor backend_ epollFd_ interestFds_ ioHandlers_ with_table with_backend with_reactor] in *.
    rewrite Hnth. clearbody op. subst op.
    destruct (Z.eqb_spec fd' fd) as [->|Hfd'].
    + destruct (Z.eqb_spec e 0), (Z.eqb_spec emask 0); try lia; destruct Hctl as [_ ->];
        rewrite ?lookup_insert_eq, ?lookup_delete_eq; (split; [done|]); (split; [intros Hin|intros Hsome]);
        try (by eexists); try (by apply is_Some_None in Hsome); set_solver.
    + destruct (Z.eqb_spec e 0), (Z.eqb_spec emask 0); try lia; destruct Hctl as [_ ->];
        rewrite ?lookup_insert_ne, ?lookup_delete_ne by done; (split; [done|]); rewrite <- Hi'; set_solver.
  - exists b, k. split; [done|]. split; [by right|]. intros HL l Hs. split; [|done]. intros _ fd'.
    pose proof (ctl_fails _ _ _ _ _ _ Ek) as Hk. destruct (Hs fd') as [Hw' Hi']. fold b in Hw', Hi'.
    unfold watch_of in *. cbn. by rewrite Hk.
Qed.

Lemma UpdateToDemultiplexer_spec w L fd :
  rep w L -> 0 <= fd < table_size w ->
  wp (UpdateToDemultiplexer fd) (fun ok w' => same_lists w w' /\ rep w' L /\
    (ok = true -> znth (ioHandlers_ (reactor w')) fd = Some (mask_of (nodes w) (chain fd (L fd)))) /\
    (forall `{!EpollLaws K}, sync w -> sync w')) w.
Proof.
  intros Hr Hfd. unfold UpdateToDemultiplexer, loop_fuel. wps.
  apply (emask_loop_spec _ _ _ _ _ _ _ (rep_seg _ _ Hr _ Hfd)); [by apply loop_fuel_enough|]. fold (mask_of (nodes w) (chain fd (L fd))).
  set (emask := mask_of _ _). wps.
  destruct (znth_is_Some (ioHandlers_ (reactor w)) fd) as [e He]; [exact Hfd|].
  apply (wp_fd_events _ e); [done|]. destruct (Z.eqb_spec emask e) as [->|Hne]; wps.
  { split; [done|]. split; [done|]. split; done. }
  eapply wp_mono; [by apply (ModifyEvents_sync fd e)|].
  intros res w' (b & k & -> & Hres & Hsync). destruct Hres as [-> | ->].
  - change (EVENT_SYS_ERR_OK =? EVENT_SYS_ERR_OK) with true. cbn [negb]. wps.
    destruct (zset_is_Some (ioHandlers_ (reactor w)) fd emask Hfd) as [l El].
    destruct (znth_zset _ _ _ _ El) as [Hlen Hnth].
    apply (wp_set_fd_events _ _ l); [done|]. wps.
    assert (same_lists w (with_table (with_backend w b k) l)) as Hsame by (split_and!; [done..|exact Hlen]).
    split; [done|]. split; [apply (rep_eq w); [done|apply Hsame..]|].
    split; [intros _; cbn; by rewrite Hnth, Z.eqb_refl|].
    intros HL Hs. by apply (Hsync HL l Hs).
  - change (EVENT_SYS_ERR_FAILED =? EVENT_SYS_ERR_OK) with false. cbn [negb]. wps.
    split; [done|]. split; [by apply (rep_eq w)|]. split; [done|]. intros HL Hs. by apply (Hsync HL [] Hs).
Qed.

(** ** The contract of the registry *)

(** [L fd] are the handlers registered for [fd], the newest first. *)
Inductive registry_step (L : Z -> list Z) : (Z -> list Z) -> Prop :=
| registry_stays : registry_step L L
| registry_adds fd h : (forall fd', h ∉ L fd') -> registry_step L (<[fd := h :: L fd]> L)
| registry_drops fd l1 h l2 : L fd = l1 ++ h :: l2 -> registry_step L (<[fd := l1 ++ l2]> L)
| registry_clears fd : registry_step L (<[fd := []]> L).

(** [w'] comes from [w] by a step of the registry from [L] to [L']. *)
Definition evolves w L w' L' : Prop :=
  registry_step L L' /\ rep w' L' /\ (forall `{!EpollLaws K}, sync w -> sync w').

Lemma evolves_stays w w' L : rep w L -> same_lists w w' -> (forall `{!EpollLaws K}, sync w -> sync w') -> evolves w L w' L.
Proof. intros Hr (En & _ & Es) Hs. split; [constructor|]. split; [by apply (rep_eq w)|done]. Qed.

Lemma sync_nodes `{!EpollLaws K} w N : sync w -> sync (with_nodes w N).
Proof. done. Qed.

(** ** A larger table *)

Lemma heads_lookup from to N x :
  heads from to N !! x =
  match x with
  | Head fd => if bool_decide (from <= fd < to) then Some IOEventHandler_ctor else N !! x
  | Node _ => N !! x
  end.
Proof.
  unfold heads. assert (forall fd, fd ∈ seqZ from (to - from) <-> from <= fd < to) as Hin.
  { intros fd. rewrite elem_of_seqZ. lia. }
  revert Hin. generalize (seqZ from (to - from)) as l.
  assert (forall (l : list Z), foldr (fun fd N => <[Head fd := IOEventHandler_ctor]> N) N l !! x =
    match x with Head fd => if bool_decide (fd ∈ l) then Some IOEventHandler_ctor else N !! x | Node _ => N !! x end) as Hl.
  { induction l as [|y l IH]; cbn; [by destruct x|]. destruct x as [fd|h].
    - destruct (decide (fd = y)) as [->|Hne].
      + by rewrite lookup_insert_eq, bool_decide_true by left.
      + rewrite lookup_insert_ne, IH by congruence. erewrite bool_decide_ext; [done|]. rewrite elem_of_cons. naive_solver.
    - by rewrite lookup_insert_ne. }
  intros l Hin. rewrite Hl. destruct x; [|done]. by erewrite bool_decide_ext.
Qed.

Lemma resize_table_spec w L m : rep w L -> table_size w <= m ->
  wp (resize_table m) (fun _ w' => rep w' L /\ table_size w' = m /\
    (forall h, nodes w' !! Node h = nodes w !! Node h) /\ (forall `{!EpollLaws K}, sync w -> sync w')) w.
Proof.
  intros Hr Hm. unfold resize_table. wps. set (w' := with_nodes _ _).
  pose proof (zlen_nonneg (ioHandlers_ (reactor w))) as H0.
  assert (table_size w' = m) as Es.
  { unfold table_size. cbn. rewrite zlen_app. unfold table_size in *. unfold zlen at 2. rewrite length_replicate. lia. }
  assert (forall x, nodes w' !! x = match x with
    | Head fd => if bool_decide (table_size w <= fd < m) then Some IOEventHandler_ctor else nodes w !! x
    | Node _ => nodes w !! x end) as Hx by (intros x; apply heads_lookup).
  split_and!; [|done|intros h; apply Hx|].
  - split; rewrite ?Es; try apply Hr.
    + pose proof (rep_size _ _ Hr). lia.
    + intros fd Hfd. destruct (decide (fd < table_size w)) as [Hlt|Hge].
      * apply (dseg_frame (nodes w)); [|apply (rep_seg _ _ Hr); lia]. intros x Hin. rewrite Hx.
        destruct x as [fd'|]; [|done]. rewrite bool_decide_false; [done|].
        apply elem_of_cons in Hin as [[= ->]|(h & ? & _)%list_elem_of_fmap]; [lia|done].
      * rewrite (rep_out _ _ Hr fd) by lia. split; [done|]. exists IOEventHandler_ctor.
        rewrite Hx, bool_decide_true by lia. done.
    + intros fd Ho. apply (rep_out _ _ Hr). lia.
    + intros h n Hn. rewrite Hx in Hn. by apply (rep_free _ _ Hr).
    + intros fd n Hn. rewrite Hx in Hn. case_bool_decide; [by injection Hn as <-|]. by apply (rep_heads _ _ Hr fd).
  - intros HL Hs fd. destruct (Hs fd) as [Hw Hi]. assert (watch_of w' fd = watch_of w fd) as Ew; [|by rewrite Ew].
    unfold watch_of. cbn. unfold znth. destruct (Z.ltb_spec fd 0); [done|].
    destruct (decide (fd < table_size w)) as [Hlt|Hge].
    + rewrite lookup_app_l; [done|]. unfold table_size, zlen in Hlt. lia.
    + rewrite lookup_app_r by (unfold table_size, zlen in Hge; lia).
      rewrite (lookup_ge_None_2 (ioHandlers_ (reactor w))) by (unfold table_size, zlen in Hge; lia).
      match goal with |- context [replicate ?k ?e !! ?i] => destruct (replicate k e !! i) as [e'|] eqn:E end; [|done].
      by apply lookup_replicate in E as [-> _].
Qed.

(** ** Masks *)

Lemma lor_absorbs a b : Z.land (Z.lor a b) b = b.
Proof.
  apply Z.bits_inj'. intros i Hi. rewrite Z.land_spec, Z.lor_spec. by destruct (Z.testbit a i), (Z.testbit b i).
Qed.
Lemma has_all_lor m x e : Z.land m e = e -> Z.land (Z.lor m x) e = e.
Proof.
  intros E. apply Z.bits_inj'. intros i Hi. assert (Z.testbit (Z.land m e) i = Z.testbit e i) as Eb by by rewrite E.
  rewrite Z.land_spec in *. rewrite Z.lor_spec. by destruct (Z.testbit m i), (Z.testbit e i), (Z.testbit x i).
Qed.

Lemma mask_of_has N l x n : x ∈ l -> N !! x = Some n -> Z.land (mask_of N l) (events_ n) = events_ n.
Proof.
  intros Hin Hn. assert (node_mask N x = events_ n) as Em by (unfold node_mask; by rewrite Hn).
  assert (forall l m, Z.land m (events_ n) = events_ n -> Z.land (foldl (add_mask N) m l) (events_ n) = events_ n) as Hmono.
  { induction l0 as [|z l0 IH0]; intros m0 Hm0; [done|]. cbn. by apply IH0, has_all_lor. }
  unfold mask_of. generalize 0. induction l as [|y l IH]; [by apply elem_of_nil in Hin|].
  intros m. cbn [foldl]. destruct (decide (x = y)) as [<-|Hne].
  - apply Hmono. unfold add_mask. rewrite Em. apply lor_absorbs.
  - apply IH. by apply elem_of_cons in Hin as [|].
Qed.
End calls.
