(* ===== verification/IOEventLoop.v ===== *)
(** * The public functions of the I/O event reactor, dispatching and cleaning *)

From stdpp Require Import functions.
From S2P Require Import Prelude Errors IOEvent IOEventInv IOEventOps IOEventCalls.

Section api.
Context {Cb K : Type} `{HE : Epoll K}.
Notation node := (IOEventHandler Cb).
Notation heap := (gmap ptr node).
Notation world := (world Cb K).
Implicit Types N : heap.
Implicit Types n : node.
Implicit Types w : world.
Implicit Types L : Z -> list Z.

Lemma evolves_trans_stay w1 w2 w3 L L' :
  evolves w1 L w2 L' -> same_lists w2 w3 -> (forall `{!EpollLaws K}, sync w2 -> sync w3) -> evolves w1 L w3 L'.
Proof.
  intros (Hstep & Hr & Hs) (En & _ & Es) Hs'. split; [done|]. split; [by apply (rep_eq w2)|].
  intros HL H. by apply Hs', Hs.
Qed.

(** What a call of the client guarantees. *)
Definition call_ok w L (Q : Z -> world -> (Z -> list Z) -> Prop) : Z -> world -> Prop :=
  fun res w' => exists L', evolves w L w' L' /\ Q res w' L'.

(** The table has the descriptor before the handler is linked. *)
Lemma grow_spec w L fd : rep w L -> 0 <= fd ->
  wp (if table_size w - 1 <? fd then resize_table (fd * EXPANSION_COEFF) else mret tt) (fun _ w' =>
    rep w' L /\ fd < table_size w' /\ (forall h, nodes w' !! Node h = nodes w !! Node h) /\
    (forall `{!EpollLaws K}, sync w -> sync w')) w.
Proof.
  intros Hr Hfd. pose proof (rep_size _ _ Hr) as H8. unfold INIT_FD_NUMS in H8.
  destruct (Z.ltb_spec (table_size w - 1) fd).
  - eapply wp_mono; [apply (resize_table_spec w L); [done|unfold EXPANSION_COEFF; lia]|].
    cbn beta. intros _ w' (Hr' & Es & Hn & Hs). split; [done|]. rewrite Es. unfold EXPANSION_COEFF. split; [lia|done].
  - wps. split; [done|]. split; [lia|done].
Qed.

Lemma AddHandler_spec w L h n :
  rep w L -> nodes w !! Node h = Some n ->
  wp (AddHandler (Some (Node h))) (call_ok w L (fun res w' L' =>
    res = EVENT_SYS_ERR_OK ->
    L' = <[fd_ n := h :: L (fd_ n)]> L /\
    (exists e, znth (ioHandlers_ (reactor w')) (fd_ n) = Some e /\ Z.land e (events_ n) = events_ n) /\
    exists n', nodes w' !! Node h = Some n' /\ enabled_ n' = true /\ events_ n' = events_ n /\ cb_ n' = cb_ n)) w.
Proof.
  intros Hr Hn. unfold AddHandler. wps. apply (wp_load _ n); [done|].
  assert (forall res, res <> EVENT_SYS_ERR_OK -> call_ok w L (fun res w' L' => res = EVENT_SYS_ERR_OK ->
    L' = <[fd_ n := h :: L (fd_ n)]> L /\
    (exists e, znth (ioHandlers_ (reactor w')) (fd_ n) = Some e /\ Z.land e (events_ n) = events_ n) /\
    exists n', nodes w' !! Node h = Some n' /\ enabled_ n' = true /\ events_ n' = events_ n /\ cb_ n' = cb_ n) res w) as Hstay.
  { intros res Hres. exists L. split; [by apply evolves_stays|done]. }
  destruct (bad_fd n) eqn:Hbad; [by wps; apply Hstay|].
  case_bool_decide as Hp; [by wps; apply Hstay|]. wps. clear Hstay.
  assert (0 <= fd_ n) as Hfd0 by (unfold bad_fd in Hbad; repeat case_bool).
  assert (forall fd, h ∉ L fd) as Hfree by (apply (rep_unlinked _ _ _ _ Hr Hn); by destruct (prev_ n); [destruct Hp|]).
  eapply wp_mono; [by apply (grow_spec w L)|]. cbn beta. intros _ w1 (Hr1 & Hfd & Hn1 & Hs1). rewrite <- Hn1 in Hn. wps.
  eapply wp_mono; [apply (InsertNodeFront_spec w1 L (fd_ n) h n); [done|lia|done..]|].
  cbn beta. intros _ w2 (N & -> & Hr2 & D). wps.
  set (w2 := with_nodes w1 N) in *. set (L' := <[fd_ n := h :: L (fd_ n)]> L) in *.
  assert (evolves w L w2 L') as Hev.
  { split; [by constructor|]. split; [done|]. intros HL Hs. by apply Hs1 in Hs. }
  destruct (znth_is_Some (ioHandlers_ (reactor w2)) (fd_ n)) as [e He]; [cbn; unfold table_size in *; lia|].
  apply (wp_fd_events _ e); [done|].
  assert (exists n2, nodes w2 !! Node h = Some n2 /\ data n2 = data n) as (n2 & Hn2 & Dn).
  { assert ((data <$> N) !! Node h = (data <$> nodes w1) !! Node h) as E by by rewrite D.
    rewrite !lookup_fmap, Hn in E. cbn [nodes with_nodes w2]. destruct (N !! Node h) as [n2|]; [|done].
    exists n2. split; [done|]. cbn in E. by apply (inj Some) in E. }
  wps. apply (wp_load _ n2); [done|]. wps. destruct (data_fields _ _ Dn) as (Ee & Ef & Ec & _). rewrite Ee, Ef.
  assert (fd_ n < table_size w2) as Hfd2 by done.
  assert (wp (if negb (Z.land e (events_ n) =? events_ n) then UpdateToDemultiplexer (fd_ n) else mret true)
    (fun ok w3 => evolves w L w3 L' /\ nodes w3 = nodes w2 /\
       (ok = true -> exists e, znth (ioHandlers_ (reactor w3)) (fd_ n) = Some e /\ Z.land e (events_ n) = events_ n)) w2) as Hup.
  { destruct (Z.eqb_spec (Z.land e (events_ n)) (events_ n)) as [E|E]; cbn [negb].
    - wps. split; [done|]. split; [done|]. by exists e.
    - eapply wp_mono; [by apply (UpdateToDemultiplexer_spec w2 L')|]. cbn beta.
      intros ok w3 (Hsame & Hr3 & Hok & Hs3). split; [by apply (evolves_trans_stay _ w2)|]. split; [apply Hsame|].
      intros ->. eexists. split; [by apply Hok|]. rewrite <- Ee. apply mask_of_has with (x := Node h); [|done].
      unfold L'. rewrite fn_lookup_insert. right. left. }
  cbn beta iota. eapply wp_mono; [exact Hup|]. cbn beta. intros ok w3 (Hev3 & En3 & Hok). destruct ok; wps.
  - apply (wp_modify _ _ n2); [by rewrite En3|]. wps. exists L'. destruct Hev3 as (Hstep3 & Hr3 & Hs3). split.
    + split; [done|]. split; [|done]. apply (rep_eq (with_nodes w3 (<[Node h := set_enabled true n2]> (nodes w3)))); [|done..].
      apply rep_modify; [done|by rewrite En3|done].
    + intros _. split; [done|]. split; [by apply Hok|]. exists (set_enabled true n2).
      cbn [nodes with_count with_reactor with_nodes]. rewrite lookup_insert_eq. done.
  - exists L'. by split.
Qed.

Lemma UpdateHandler_spec w L h n :
  rep w L -> nodes w !! Node h = Some n ->
  wp (UpdateHandler (Some (Node h))) (call_ok w L (fun _ _ _ => True)) w.
Proof.
  intros Hr Hn. unfold UpdateHandler. wps. apply (wp_load _ n); [done|].
  assert (forall res, call_ok w L (fun _ _ _ => True) res w) as Hstay
    by (intros res; exists L; split; [by apply evolves_stays|done]).
  destruct (bad_fd n) eqn:Hbad; [by wps; apply Hstay|]. case_bool_decide.
  - wps. apply (HasHandler_spec w L h n); [done..|]. case_bool_decide as Hin; cbn [negb]; wps; [|done].
    eapply wp_mono; [apply (UpdateToDemultiplexer_spec w L (fd_ n)); [done|by apply (rep_range w L _ h)]|]. cbn beta.
    intros ok w' (Hsame & Hr' & _ & Hs). wps. exists L. split; [by apply evolves_stays|done].
  - eapply wp_mono; [by apply AddHandler_spec|]. intros res w' (L' & Hev & _). by exists L'.
Qed.

Lemma RemoveHandler_spec w L h n :
  rep w L -> nodes w !! Node h = Some n ->
  wp (RemoveHandler (Some (Node h))) (call_ok w L (fun res w' L' =>
    res = EVENT_SYS_ERR_OK -> h ∈ L (fd_ n) /\ forall fd, h ∉ L' fd)) w.
Proof.
  intros Hr Hn. unfold RemoveHandler. wps. apply (wp_load _ n); [done|].
  destruct (bad_fd n) eqn:Hbad; [wps; exists L; split; [by apply evolves_stays|done]|]. wps.
  apply (wp_modify _ _ n); [done|]. wps. set (w1 := with_nodes w _).
  assert (rep w1 L) as Hr1 by by apply rep_modify.
  assert (nodes w1 !! Node h = Some (set_enabled false n)) as Hn1 by apply lookup_insert_eq.
  apply (HasHandler_spec w1 L h (set_enabled false n)); [done..|]. cbn [fd_ set_enabled].
  case_bool_decide as Hin; cbn [negb]; wps.
  - apply list_elem_of_split in Hin as (l1 & l2 & El).
    eapply wp_mono; [by apply (RemoveNode_spec w1 L (fd_ n) l1 h l2)|]. cbn beta. intros _ w2 (N & -> & Hr2 & D). wps.
    set (w2 := with_nodes w1 N) in *. set (L' := <[fd_ n := l1 ++ l2]> L) in *.
    assert (evolves w L w2 L') as Hev by (split; [by eapply registry_drops|done]).
    assert (0 <= fd_ n < table_size w2) as Hfd.
    { apply (rep_range w1 L _ h Hr1). rewrite El. apply elem_of_app. right. left. }
    assert (is_Some (nodes w2 !! Node h)) as [n2 Hn2].
    { assert ((data <$> N) !! Node h = (data <$> nodes w1) !! Node h) as E by by rewrite D.
      rewrite !lookup_fmap, Hn1 in E. cbn [nodes with_nodes w2]. destruct (N !! Node h) as [n2|]; [by eexists|done]. }
    eapply wp_mono; [by apply (UpdateToDemultiplexer_spec w2 L')|]. cbn beta.
    intros ok w3 (Hsame & Hr3 & _ & Hs3). pose proof (evolves_trans_stay _ _ _ _ _ Hev Hsame Hs3) as Hev3.
    destruct ok; cbn [negb]; wps.
    + exists L'. split.
      * destruct Hev3 as (Hst & Hr3' & Hs3'). split; [done|]. split; [|done]. by apply (rep_eq w3).
      * intros _. rewrite El. split; [apply elem_of_app; right; left|]. intros fd Hh.
        pose proof (rep_nodup _ _ Hr (fd_ n)) as Hnd. rewrite El in Hnd.
        apply NoDup_app in Hnd as (_ & H1 & [H2 _]%NoDup_cons). unfold L' in Hh.
        destruct (decide (fd = fd_ n)) as [->|Hne].
        -- rewrite fn_lookup_insert in Hh. apply elem_of_app in Hh as [Hh|Hh]; [|done]. apply (H1 h Hh). left.
        -- rewrite fn_lookup_insert_ne in Hh by done. apply Hne, (rep_disjoint _ _ Hr _ _ h); [done|].
           rewrite El. apply elem_of_app. right. left.
    + apply (wp_modify _ _ n2); [by destruct Hsame as [-> _]|]. wps. exists L'. split; [|done].
      destruct Hev3 as (Hst & Hr3' & Hs3'). split; [done|]. split; [|done].
      apply rep_modify; [done|by destruct Hsame as [-> _]|done].
  - apply (wp_modify _ _ (set_enabled false n)); [done|]. wps. exists L. split; [|done].
    split; [constructor|]. split; [|done]. by apply rep_modify.
Qed.

Lemma FindHandler_spec w L h n (Q : Z -> world -> Prop) :
  rep w L -> nodes w !! Node h = Some n ->
  Q (if bad_fd n then EVENT_SYS_ERR_BADF else if bool_decide (h ∈ L (fd_ n)) then EVENT_SYS_ERR_OK else EVENT_SYS_ERR_NOT_FOUND) w ->
  wp (FindHandler (Some (Node h))) Q w.
Proof.
  intros Hr Hn Hq. unfold FindHandler. wps. apply (wp_load _ n); [done|]. destruct (bad_fd n); wps; [done|].
  by apply (HasHandler_spec w L h n).
Qed.
End api.

Section loop.
Context {Cb K : Type} `{HE : Epoll K}.
Notation node := (IOEventHandler Cb).
Notation heap := (gmap ptr node).
Notation world := (world Cb K).
Implicit Types N : heap.
Implicit Types n : node.
Implicit Types w : world.
Implicit Types L : Z -> list Z.

(** ** Events *)

Lemma HandleEvents_spec w L fd event (Q : Z -> world -> Prop) :
  rep w L -> 0 <= fd < table_size w ->
  (forall e, znth (ioHandlers_ (reactor w)) fd = Some e ->
    if has e event
    then Q EVENT_SYS_ERR_OK (with_log w (executed w ++ tasks_of (nodes w) event (Node <$> L fd)))
    else Q EVENT_SYS_ERR_BADEVENT w) -> wp (HandleEvents fd event) Q w.
Proof.
  intros Hr Hfd Hq. unfold HandleEvents, loop_fuel, Execute. wps.
  destruct (znth_is_Some (ioHandlers_ (reactor w)) fd Hfd) as [e He]. specialize (Hq e He).
  apply (wp_fd_events _ e); [done|]. destruct (has e event); wps; [|done].
  destruct (rep_head _ _ _ Hr Hfd) as (hd & Hhd & _ & Hl). apply (wp_load _ hd); [done|]. wps.
  apply (HandleEvents_loop_spec _ _ (Node <$> L fd) _ (Some (Head fd))); [done| |by wps].
  pose proof (loop_fuel_enough _ _ _ Hr Hfd) as Hlen. unfold chain in Hlen. cbn [length] in Hlen. lia.
Qed.

Lemma HandleAll_spec w L events : rep w L -> Forall (fun e => 0 <= e.1 < table_size w) events ->
  wp (HandleAll events) (fun _ w' => exists log, w' = with_log w (executed w ++ log)) w.
Proof.
  revert w. induction events as [|[fd event] events IH]; intros w Hr Hall; cbn [HandleAll].
  { wps. exists []. rewrite app_nil_r. by destruct w. }
  apply Forall_cons in Hall as [Hfd Hall]. wps. apply (HandleEvents_spec w L); [done..|]. intros e He.
  destruct (has e event); [|by apply IH].
  set (w1 := with_log w _). eapply wp_mono; [apply (IH w1); [by apply (rep_eq w)|done]|]. cbn beta.
  intros _ w' (log & ->). eexists (_ ++ log). by rewrite app_assoc.
Qed.

Lemma Polling_spec w timeout : wp (Polling timeout) (fun r w' => exists b k, w' = with_backend w b k /\
  (forall `{!EpollLaws K}, sync w -> sync w' /\ Forall (fun e => is_Some (watch_of w e.1)) r.2) /\
  (r.1 <> EVENT_SYS_ERR_OK -> r.2 = [])) w.
Proof.
  unfold wp, Polling. destruct (epoll_wait _ _ _ _) as [[nfds got] k] eqn:Ew.
  assert (forall `{!EpollLaws K} b, epollFd_ b = epollFd_ (backend_ (reactor w)) ->
    interestFds_ b = interestFds_ (backend_ (reactor w)) -> sync w -> sync (with_backend w b k)) as Hsync.
  { intros HL b Eb Ei Hs fd. destruct (wait_reports _ _ _ _ _ _ _ Ew) as [Hw _]. cbn. rewrite Eb, Hw, Ei. apply Hs. }
  destruct (nfds =? 0); [|destruct (nfds =? -1)].
  - eexists _, k. split; [done|]. split; [|done]. intros HL Hs. split; [by apply Hsync|apply Forall_nil_2].
  - eexists _, k. split; [done|]. split; [|done]. intros HL Hs. split; [by apply Hsync|apply Forall_nil_2].
  - eexists _, k. split; [done|]. split; [|done]. intros HL Hs. split; [by apply Hsync; try done; case_match|].
    destruct (wait_reports _ _ _ _ _ _ _ Ew) as [_ Hall]. cbn [snd]. apply Forall_fmap, Forall_ztake.
    eapply Forall_impl; [exact Hall|]. intros [fd e] Hw. cbn in *. by rewrite <- (proj1 (Hs fd)).
Qed.

Lemma watch_range w fd : is_Some (watch_of w fd) -> 0 <= fd < table_size w.
Proof.
  unfold watch_of. destruct (znth _ fd) as [e|] eqn:E; [|by intros []]. intros _. by apply znth_lookup in E as [? _].
Qed.

(** A turn of the loop touches only registered descriptors. *)
Lemma Run_turn_spec `{!EpollLaws K} w L timeout : rep w L -> sync w ->
  wp (Run_turn timeout []) (fun got w' => got = [] /\ rep w' L /\ sync w') w.
Proof.
  intros Hr Hs. unfold Run_turn. wps. destruct (reactor_enabled_ (reactor w)); wps; [|done].
  destruct (_ && _); wps; [done|]. eapply wp_mono; [apply Polling_spec|]. cbn beta.
  intros [res got] w1 (b & k & -> & Hw & Hnone). destruct (Hw _ Hs) as [Hs1 Hgot]. cbn [fst snd app] in *.
  assert (rep (with_backend w b k) L) as Hr1 by by apply (rep_eq w).
  destruct (Z.eqb_spec res EVENT_SYS_ERR_OK) as [E|E]; wps; [|by rewrite Hnone].
  eapply wp_mono; [apply (HandleAll_spec _ L); [done|]|].
  - eapply Forall_impl; [exact Hgot|]. intros e He. exact (watch_range w e.1 He).
  - cbn beta. intros _ w' (log & ->). wps. split; [done|]. split; [by apply (rep_eq (with_backend w b k))|done].
Qed.

(** ** Cleaning *)

Lemma DoClean_loop_spec fuel w l q nq p :
  dseg (nodes w) (Some q) p (Node <$> l) -> nodes w !! q = Some nq -> q ∉ Node <$> l -> NoDup l -> (length l <= fuel)%nat ->
  wp (DoClean_loop fuel p) (fun _ w' => exists N', w' = with_nodes w N' /\
    (forall x, x ∉ q :: (Node <$> l) -> N' !! x = nodes w !! x) /\
    (forall h n, h ∈ l -> N' !! Node h = Some n -> prev_ n = None /\ next_ n = None) /\
    N' !! q = Some (match l with [] => nq | _ => set_next None nq end)) w.
Proof.
  revert w q nq p fuel. induction l as [|h l IH]; intros w q nq p fuel.
  { intros -> Hq _ _ _. assert (wp (mret tt) (fun _ w' => exists N', w' = with_nodes w N' /\
      (forall x, x ∉ q :: (Node <$> []) -> N' !! x = nodes w !! x) /\
      (forall h n, h ∈ [] -> N' !! Node h = Some n -> prev_ n = None /\ next_ n = None) /\ N' !! q = Some nq) w) as Hret.
    { wps. exists (nodes w). split; [by destruct w|]. split; [done|]. split; [|done]. intros h n Hin. by apply elem_of_nil in Hin. }
    destruct fuel; exact Hret. }
  intros (-> & n & Hn & Hp & Hl) Hq Hqn Hnd Hf. destruct fuel as [|fuel]; [cbn in Hf; lia|]. cbn [length] in Hf.
  rewrite fmap_cons in Hqn. apply not_elem_of_cons in Hqn as [Hqh Hqn]. apply NoDup_cons in Hnd as [Hhl Hnd].
  cbn [DoClean_loop]. wps. apply (wp_load _ n); [done|]. rewrite Hp. wps. apply (wp_access _ q); [done|]. wps.
  apply (wp_modify _ _ nq); [done|]. wps. apply (wp_modify _ _ n); [by cbn; rewrite lookup_insert_ne|]. wps.
  apply (wp_modify _ _ (set_prev None n)); [apply lookup_insert_eq|]. wps.
  set (n3 := set_enabled false (set_prev None n)). cbn [nodes with_nodes]. rewrite insert_insert_eq.
  set (N3 := <[Node h := n3]> _).
  apply (wp_load _ n3); [apply lookup_insert_eq|].
  assert (forall x, x <> q -> x <> Node h -> N3 !! x = nodes w !! x) as Hx3
    by (intros x H1 H2; unfold N3; by rewrite !lookup_insert_ne).
  eapply wp_mono; [apply (IH (with_nodes w N3) (Node h) n3 (next_ n3) fuel); cbn [nodes with_nodes]|].
  - apply (dseg_frame (nodes w)); [|done]. intros x Hx. apply Hx3; intros ->; [done|].
    apply list_elem_of_fmap in Hx as (h' & [= <-] & Hh'). done.
  - apply lookup_insert_eq.
  - intros (h' & [= <-] & Hh')%list_elem_of_fmap. done.
  - done.
  - lia.
  - cbn beta. cbn [nodes with_nodes]. intros _ w' (N' & -> & Hx & Hcl & Hh'). exists N'. split; [done|]. split_and!.
    + intros x Hxn. apply not_elem_of_cons in Hxn as [H1 Hxn]. rewrite fmap_cons in Hxn.
      rewrite Hx by done. apply not_elem_of_cons in Hxn as [H2 _]. by apply Hx3.
    + intros h' n' [->|Hin]%elem_of_cons Hn'; [|by apply (Hcl h')].
      rewrite Hh' in Hn'. injection Hn' as <-. destruct l; [|done]. split; [done|]. exact Hl.
    + rewrite Hx; [unfold N3; rewrite lookup_insert_ne by done; apply lookup_insert_eq|].
      intros [|]%elem_of_cons; done.
Qed.

Lemma DoClean_spec w L fd :
  rep w L -> 0 <= fd < table_size w ->
  wp (DoClean fd) (fun _ w' => evolves w L w' (<[fd := []]> L) /\ table_size w' = table_size w) w.
Proof.
  intros Hr Hfd. unfold DoClean, loop_fuel. wps. destruct (znth_is_Some (ioHandlers_ (reactor w)) fd Hfd) as [e He].
  apply (wp_fd_events _ e); [done|]. wps. destruct (rep_head _ _ _ Hr Hfd) as (hd & Hhd & _ & Hl).
  apply (wp_load _ hd); [done|]. destruct (next_ hd) as [p|] eqn:Enx.
  - wps. pose proof (loop_fuel_enough _ _ _ Hr Hfd) as Hlen. unfold chain in Hlen. cbn [length] in Hlen. rewrite length_fmap in Hlen.
    eapply wp_mono; [apply (DoClean_loop_spec _ w (L fd) (Head fd) hd); try done|].
    + by intros (? & [=] & _)%list_elem_of_fmap.
    + apply Hr.
    + lia.
    + cbn beta. intros _ w' (N' & -> & Hx & Hcl & Hhd').
      assert (rep (with_nodes w N') (<[fd := []]> L)) as Hr'.
      { apply (rep_update w L N' fd [] []); try done.
        - by intros h ?%elem_of_nil.
        - intros x Hxn _. by apply Hx.
        - split; [done|]. eexists. split; [done|]. destruct (L fd); [by rewrite Hl in Enx|]. split; [|done].
          destruct (rep_head _ _ _ Hr Hfd) as (hd' & Hhd2 & Hp & _). rewrite Hhd in Hhd2. by injection Hhd2 as <-.
        - apply NoDup_nil_2.
        - by intros h ?%elem_of_nil.
        - intros h n [Hh|Hh] _ Hn; [by apply elem_of_nil in Hh|]. by apply (Hcl h).
        - intros fd' n Hn. destruct (decide (fd' = fd)) as [->|Hne].
          + rewrite Hhd' in Hn. injection Hn as <-. pose proof (rep_heads _ _ Hr _ _ Hhd). by destruct (L fd).
          + rewrite Hx in Hn; [by apply (rep_heads _ _ Hr fd')|].
            intros [[= ->]|(? & [=] & _)%list_elem_of_fmap]%elem_of_cons. done. }
      eapply wp_mono; [by apply (UpdateToDemultiplexer_spec (with_nodes w N') (<[fd := []]> L))|]. cbn beta.
      intros ok w' (Hsame & Hr2 & _ & Hs). split; [|by destruct Hsame as (_ & _ & ->)].
      split; [constructor|]. split; [done|]. intros HL Hsy. by apply Hs.
  - wps. destruct (L fd) as [|h l] eqn:El; [|by destruct Hl as [[=] _]].
    split; [|done]. split; [constructor|]. split; [|done].
    destruct Hr as [H1 H2 H3 H4 H5 H6 H7].
    assert (forall fd', (<[fd := []]> L) fd' = L fd') as EL.
    { intros fd'. destruct (decide (fd' = fd)) as [->|Hne]; [by rewrite fn_lookup_insert|by rewrite fn_lookup_insert_ne]. }
    split; try done.
    + intros fd' Hfd'. rewrite EL. by apply H2.
    + intros fd'. rewrite EL. apply H3.
    + intros fd1 fd2 h. rewrite !EL. apply H4.
    + intros fd' Ho. rewrite EL. by apply H5.
    + intros h n Hn Hh. apply (H6 h n Hn). intros fd' Hin. apply (Hh fd'). by rewrite EL.
Qed.

Lemma CleanUp_loop_spec fds res w L :
  rep w L -> Forall (fun fd => 0 <= fd < table_size w) fds ->
  wp (CleanUp_loop fds res) (fun _ w' => exists L', rtc registry_step L L' /\ rep w' L' /\
    (forall `{!EpollLaws K}, sync w -> sync w')) w.
Proof.
  revert res w L. induction fds as [|fd fds IH]; intros res w L Hr Hall; cbn [CleanUp_loop].
  { wps. exists L. split; [done|]. by split. }
  apply Forall_cons in Hall as [Hfd Hall]. wps. eapply wp_mono; [by apply (DoClean_spec w L)|]. cbn beta.
  intros ok w1 ((Hst & Hr1 & Hs1) & Es). eapply wp_mono; [apply (IH _ w1); [done|by rewrite Es]|]. cbn beta.
  intros _ w' (L' & Hsteps & Hr' & Hs'). exists L'. split; [by eapply rtc_l|]. split; [done|].
  intros HL H. by apply Hs', Hs1.
Qed.

(** ** Setting up *)

Lemma SetUp_spec w L : rep w L ->
  wp SetUp (fun _ w' => rep w' L /\ (forall `{!EpollLaws K}, sync w -> sync w')) w.
Proof.
  intros Hr. unfold SetUp. wps. unfold wp at 1, IOEventEpoll_SetUp.
  destruct (Z.ltb_spec (epollFd_ (backend_ (reactor w))) 0) as [Hneg|Hpos].
  - destruct (epoll_create1 (kernel w)) as [fd k] eqn:Ec. set (w1 := with_backend _ _ _).
    assert (forall `{!EpollLaws K}, sync w -> sync w1) as Hs1.
    { intros HL Hs fd'. destruct (Hs fd') as [Hw Hi]. rewrite watched_closed, lookup_empty in Hw by done.
      cbn. rewrite (create_watches _ _ _ Ec), lookup_empty. split; [exact Hw|exact Hi]. }
    assert (rep w1 L) by by apply (rep_eq w).
    destruct (negb _); wps; (split; [by apply (rep_eq w1)|]); [exact Hs1|].
    intros HL Hs. by apply Hs1 in Hs.
  - change (EVENT_SYS_ERR_OK =? EVENT_SYS_ERR_OK) with true. wps. split; [by apply (rep_eq w)|]. intros HL Hs. exact Hs.
Qed.

Lemma ctor_rep k : rep (IOEventReactor_ctor (Cb := Cb) k) (fun _ => []) /\
  (forall `{!EpollLaws K}, sync (IOEventReactor_ctor (Cb := Cb) k)).
Proof.
  unfold IOEventReactor_ctor. destruct (epoll_create1 k) as [fd k'] eqn:Ec.
  assert (forall x, heads 0 INIT_FD_NUMS (∅ : heap) !! x = match x with
    | Head fd => if bool_decide (0 <= fd < INIT_FD_NUMS) then Some IOEventHandler_ctor else None | Node _ => None end) as Hx.
  { intros x. rewrite heads_lookup. by destruct x; rewrite lookup_empty. }
  split.
  - split; try done.
    + intros fd' Hfd'. split; [done|]. exists IOEventHandler_ctor. cbn [nodes]. by rewrite Hx, bool_decide_true.
    + intros _. apply NoDup_nil_2.
    + by intros fd1 fd2 h ?%elem_of_nil.
    + intros fd' n Hn. cbn [nodes] in Hn. rewrite Hx in Hn. case_bool_decide; [by injection Hn as <-|done].
  - intros HL fd'. cbn [kernel reactor backend_ epollFd_ interestFds_]. rewrite (create_watches _ _ _ Ec), lookup_empty.
    assert (watch_of {| nodes := heads 0 INIT_FD_NUMS (∅ : heap); reactor := {| loopReady_ := false; reactor_enabled_ := false; count_ := 0;
      ioHandlers_ := replicate (Z.to_nat INIT_FD_NUMS) EVENT_NONE; backend_ := {| epollFd_ := fd; maxEvents_ := 8; interestFds_ := ∅ |} |};
      kernel := k'; executed := [] |} fd' = None) as ->.
    { unfold watch_of. cbn [ioHandlers_ reactor]. destruct (znth _ fd') as [e|] eqn:E; [|done].
      apply znth_lookup in E as [_ E]. by apply lookup_replicate in E as [-> _]. }
    split; [done|]. split; [set_solver|by intros []].
Qed.
End loop.
