(* ===== verification/IOEventProps.v ===== *)
(** * The properties of the I/O event reactor *)

From stdpp Require Import functions.
From S2P Require Import Prelude Errors IOEvent IOEventInv IOEventOps IOEventCalls IOEventLoop.

Section programs.
Context {Cb K : Type} `{HE : Epoll K}.
Notation node := (IOEventHandler Cb).
Notation world := (world Cb K).
Implicit Types n : node.
Implicit Types w : world.
Implicit Types L : Z -> list Z.

(** ** Programs of a client *)

Inductive op :=
| New (h fd events : Z) (cb : option Cb)
| Destroy (h : Z)
| Setting (h : Z) (fd events : option Z) (cb : option (option Cb))
| Toggle (h : Z) (f : bool * bool)      (** [EnableRead], [EnableWrite], [DisableWrite], [DisableAll] *)
| Start (h : Z)
| Stop (h : Z)
| Update (h : Z)
| Find (h : Z)
| CleanFd (fd : Z)
| CleanAll
| DoSetUp
| Handling (on : bool)
| Turn (timeout : Z).                   (** a turn of the loop of [Run] *)

Definition setting (fd events : option Z) (cb : option (option Cb)) n : node :=
  let n := match fd with Some fd => SetFd fd n | None => n end in
  let n := match events with Some events => SetEvents events n | None => n end in
  match cb with Some cb => SetCallback cb n | None => n end.
Definition toggle (f : bool * bool) n : node :=
  match f with
  | (true, true) => EnableRead n
  | (true, false) => EnableWrite n
  | (false, true) => DisableWrite n
  | (false, false) => DisableAll n
  end.

Definition exec (o : op) : ST world unit :=
  match o with
  | New h fd events cb => st_put (fun w => with_nodes w (<[Node h := IOEventHandler_of fd events cb]> (nodes w)))
  | Destroy h => IOEventHandler_dtor h
  | Setting h fd events cb => modify (Node h) (setting fd events cb)
  | Toggle h f => modify (Node h) (toggle f)
  | Start h => IOEventHandler_Start h;; mret tt
  | Stop h => IOEventHandler_Stop h;; mret tt
  | Update h => IOEventHandler_Update h;; mret tt
  | Find h => FindHandler (Some (Node h));; mret tt
  | CleanFd fd => Clean fd;; mret tt
  | CleanAll => CleanUp;; mret tt
  | DoSetUp => SetUp;; mret tt
  | Handling on => if on then EnableHandling else DisableHandling
  | Turn timeout => Run_turn timeout [];; mret tt
  end.

(** The client names handlers that exist and cleans descriptors of the table. *)
Definition allowed w (o : op) : bool :=
  match o with
  | New h _ _ _ => bool_decide (nodes w !! Node h = None)
  | Destroy h | Setting h _ _ _ | Toggle h _ | Start h | Stop h | Update h | Find h =>
      bool_decide (is_Some (nodes w !! Node h))
  | CleanFd fd => (-1 <=? fd) && (fd <? table_size w)
  | _ => true
  end.

Fixpoint use (ops : list op) : ST world unit :=
  match ops with [] => mret tt | o :: ops => exec o;; use ops end.

Fixpoint obeys w (ops : list op) : bool :=
  match ops with
  | [] => true
  | o :: ops => allowed w o && match exec o w with Some (_, w') => obeys w' ops | None => true end
  end.

Lemma links_setting fd events cb n : same_links n (setting fd events cb n).
Proof. by destruct fd, events, cb. Qed.
Lemma links_toggle f n : same_links n (toggle f n).
Proof. by destruct f as [[] []]. Qed.

Lemma exec_spec `{!EpollLaws K} o w L : allowed w o = true -> rep w L -> sync w ->
  wp (exec o) (fun _ w' => exists L', rtc registry_step L L' /\ rep w' L' /\ sync w') w.
Proof.
  intros Ha Hr Hs.
  assert (forall (m : ST world Z) (Q : Z -> world -> (Z -> list Z) -> Prop), wp m (call_ok w L Q) w ->
    wp (b ← (res ← m; mret (res =? EVENT_SYS_ERR_OK)); mret tt)
       (fun _ w' => exists L', rtc registry_step L L' /\ rep w' L' /\ sync w') w) as Hcall.
  { intros m Q Hm. wps. eapply wp_mono; [exact Hm|]. intros res w' (L' & (Hst & Hr' & Hs') & _). wps.
    exists L'. split; [by apply rtc_once|]. split; [done|by apply Hs']. }
  assert (forall w', rep w' L -> sync w' -> exists L', rtc registry_step L L' /\ rep w' L' /\ sync w') as Hstay
    by (intros w'; by exists L).
  destruct o as [h fd events cb|h|h fd events cb|h f|h|h|h|h|fd| | |on|timeout]; cbn [allowed] in Ha; cbn [exec];
    try (apply bool_decide_eq_true in Ha; match type of Ha with is_Some _ => destruct Ha as [n Hn] | _ => idtac end).
  - wps. apply Hstay; [|done]. split; cbn [nodes with_nodes]; try apply Hr.
    + intros fd' Hfd'. apply (dseg_frame (nodes w)); [|by apply (rep_seg _ _ Hr)]. intros x Hx.
      destruct (dseg_in _ _ _ _ x (rep_seg _ _ Hr fd' Hfd') Hx) as [nx Hnx]. rewrite lookup_insert_ne; [done|congruence].
    + intros h' n [[[= <-] <-]|[_ Hn]]%lookup_insert_Some; [done|]. by apply (rep_free _ _ Hr).
    + intros fd' n [[[=] _]|[_ Hn]]%lookup_insert_Some. by apply (rep_heads _ _ Hr fd').
  - destruct (decide (prev_ n = None)) as [Ep|Ep].
    + eapply wp_mono; [apply (dtor_free w L h n Hr Hn), (rep_unlinked _ _ _ _ Hr Hn Ep)|].
      cbn beta. intros _ w' (N' & -> & Hr' & _). by apply Hstay.
    + destruct (decide (Exists (fun fd => h ∈ L fd) (seqZ 0 (table_size w)))) as [Hex|Hno].
      * apply Exists_exists in Hex as (fd & _ & Hh). apply list_elem_of_split in Hh as (l1 & l2 & El).
        eapply wp_mono; [by apply (dtor_linked w L fd l1 h l2)|]. cbn beta. intros _ w' (N' & -> & Hr' & _).
        eexists. split; [by apply rtc_once; eapply registry_drops|]. by split.
      * exfalso. apply Ep, (rep_free _ _ Hr h n Hn). intros fd Hh. apply Hno, Exists_exists. exists fd.
        split; [apply elem_of_seqZ; pose proof (rep_range _ _ _ _ Hr Hh); lia|done].
  - apply (wp_modify _ _ n); [done|]. apply Hstay; [|done]. apply rep_modify; [done..|apply links_setting].
  - apply (wp_modify _ _ n); [done|]. apply Hstay; [|done]. apply rep_modify; [done..|apply links_toggle].
  - apply Hcall with (1 := AddHandler_spec w L h n Hr Hn).
  - apply Hcall with (1 := RemoveHandler_spec w L h n Hr Hn).
  - apply Hcall with (1 := UpdateHandler_spec w L h n Hr Hn).
  - wps. apply (FindHandler_spec w L h n _ Hr Hn). wps. by apply Hstay.
  - unfold Clean. destruct (Z.eqb_spec fd (-1)); wps; [by apply Hstay|]. zb.
    eapply wp_mono; [apply (DoClean_spec w L fd Hr); lia|]. cbn beta. intros ok w' ((Hst & Hr' & Hs') & _). wps.
    eexists. split; [by apply rtc_once|]. split; [done|by apply Hs'].
  - unfold CleanUp. wps. eapply wp_mono; [apply (CleanUp_loop_spec _ _ w L Hr)|].
    + apply Forall_forall. intros fd Hfd%elem_of_seqZ. lia.
    + cbn beta. intros _ w' (L' & Hst & Hr' & Hs'). wps. exists L'. split; [done|]. split; [done|by apply Hs'].
  - wps. eapply wp_mono; [by apply (SetUp_spec w L)|]. cbn beta. intros _ w' (Hr' & Hs'). wps. apply Hstay; [done|by apply Hs'].
  - unfold EnableHandling, DisableHandling. destruct on; wps; (apply Hstay; [by apply (rep_eq w)|done]).
  - wps. eapply wp_mono; [by apply (Run_turn_spec w L)|]. cbn beta. intros got w' (_ & Hr' & Hs'). wps. by apply Hstay.
Qed.

Lemma use_spec `{!EpollLaws K} ops w L : obeys w ops = true -> rep w L -> sync w ->
  wp (use ops) (fun _ w' => exists L', rtc registry_step L L' /\ rep w' L' /\ sync w') w.
Proof.
  revert w L. induction ops as [|o ops IH]; intros w L Ho Hr Hs; cbn [use].
  { wps. by exists L. }
  cbn [obeys] in Ho. apply andb_true_iff in Ho as [Ha Ho]. pose proof (exec_spec o w L Ha Hr Hs) as Hx.
  apply wp_elim in Hx as ([] & w1 & E & L1 & Hst & Hr1 & Hs1). rewrite E in Ho. apply wp_bind. unfold wp at 1. rewrite E.
  eapply wp_mono; [by apply (IH w1 L1)|]. cbn beta. intros _ w' (L' & Hst' & H').
  exists L'. split; [by etrans|done].
Qed.

Lemma reached `{!EpollLaws K} k ops w :
  obeys (IOEventReactor_ctor k) ops = true -> use ops (IOEventReactor_ctor k) = Some (tt, w) -> exists L, rep w L /\ sync w.
Proof.
  intros Ho E. destruct (ctor_rep (Cb := Cb) k) as [Hr Hs]. pose proof (use_spec ops _ _ Ho Hr (Hs _)) as Hx.
  unfold wp in Hx. rewrite E in Hx. destruct Hx as (L & _ & H). by exists L.
Qed.
End programs.
Arguments op : clear implicits.

(** ** The theorems *)

(** [Clean] does not compare its descriptor with the size of the table. *)
Lemma Clean_out_of_bounds {Cb K} `{Epoll K} (w : world Cb K) fd : fd < -1 \/ table_size w <= fd -> Clean fd w = None.
Proof.
  intros Hfd. unfold table_size in Hfd. pose proof (zlen_nonneg (ioHandlers_ (reactor w))).
  unfold Clean, DoClean, fd_events, st_access, mbind, st_bind. destruct (Z.eqb_spec fd (-1)); [lia|].
  destruct (znth (ioHandlers_ (reactor w)) fd) as [e|] eqn:E; [|done]. apply znth_lookup in E as [? _]. lia.
Qed.

(** C22: Whatever sequence of calls a client makes, with handlers that exist and
    [Clean] for -1 or a descriptor of the table only ([obeys]), and with whatever
    outcome in the kernel, the reactor never follows a bad pointer, its loops
    end, and its linked lists hold the registry that its contract describes: a
    handler is added at the front of one list, dropped, or cleaned away with its
    list. The kernel watches exactly the events recorded in the table. [Clean]
    for any other descriptor reads outside the table, in every state: it has no
    check of the upper bound. *)
Theorem reactor_refines {Cb K} `{Epoll K, !EpollLaws K} (k : K) (ops : list (op Cb)) :
  obeys (IOEventReactor_ctor k) ops = true ->
  exists w L, use ops (IOEventReactor_ctor k) = Some (tt, w) /\
    rtc registry_step (fun _ => []) L /\ rep w L /\ sync w /\
    (forall fd, fd < -1 \/ table_size w <= fd -> Clean fd w = None).
Proof.
  intros Ho. destruct (ctor_rep (Cb := Cb) k) as [Hr Hs].
  pose proof (use_spec ops _ _ Ho Hr (Hs _)) as Hx. apply wp_elim in Hx as ([] & w & E & L & Hst & Hr' & Hs').
  exists w, L. split_and!; try done. intros fd. apply Clean_out_of_bounds.
Qed.

(** C23: A handler that was started is served: the kernel watches its descriptor
    for its events, and such an event runs its callback. *)
Theorem started_handler_is_served {Cb K} `{Epoll K, !EpollLaws K} (w w' : world Cb K) (L : Z -> list Z)
    (h : Z) (n : IOEventHandler Cb) (event : Z) (cb : Cb) :
  rep w L -> sync w -> nodes w !! Node h = Some n -> AddHandler (Some (Node h)) w = Some (EVENT_SYS_ERR_OK, w') ->
  cb_ n = Some cb -> has (events_ n) event = true ->
  (exists e, watched (kernel w') (epollFd_ (backend_ (reactor w'))) !! fd_ n = Some (Reactor2Epoll e) /\
             Z.land e (events_ n) = events_ n) /\
  exists w'' tasks, HandleEvents (fd_ n) event w' = Some (EVENT_SYS_ERR_OK, w'') /\
    executed w'' = executed w' ++ tasks /\ cb ∈ tasks.
Proof.
  intros Hr Hs Hn Hadd Hcb Hev. pose proof (AddHandler_spec w L h n Hr Hn) as Hx. unfold wp in Hx. rewrite Hadd in Hx.
  destruct Hx as (L' & (Hst & Hr' & Hs') & Hok). destruct (Hok eq_refl) as (-> & (e & He & Hland) & n' & Hn' & Hen & Hee & Hc).
  apply Hs' in Hs. assert (has e event = true) as Hhas.
  { unfold has in *. destruct (Z.eqb_spec (Z.land e event) 0) as [E0|]; [|done].
    rewrite <- Hland, (Z.land_comm e), <- Z.land_assoc, E0, Z.land_0_r in Hev. done. }
  assert (h ∈ (<[fd_ n := h :: L (fd_ n)]> L) (fd_ n)) as Hh by (rewrite fn_lookup_insert; left).
  split.
  - exists e. split; [|done]. rewrite (proj1 (Hs (fd_ n))). unfold watch_of. rewrite He.
    destruct (Z.eqb_spec e 0) as [->|]; [|done]. by unfold has in Hhas; rewrite Z.land_0_l in Hhas.
  - assert (wp (HandleEvents (fd_ n) event) (fun res w'' => res = EVENT_SYS_ERR_OK /\ exists tasks,
      executed w'' = executed w' ++ tasks /\ cb ∈ tasks) w') as Hw.
    { apply (HandleEvents_spec w' _ (fd_ n) event _ Hr'); [by apply (rep_range _ _ _ h Hr')|]. intros e' He'.
      rewrite He in He'. injection He' as <-. rewrite Hhas. split; [done|]. eexists. split; [done|].
      apply list_elem_of_bind. exists (Node h). split; [|by apply list_elem_of_fmap_2]. rewrite Hn', Hc, Hcb.
      unfold takes_event. rewrite Hen, Hee, Hev, Hc, Hcb. destruct (Z.eqb_spec (events_ n) EVENT_NONE) as [E|E]; [|left].
      rewrite E in Hev. done. }
    apply wp_elim in Hw as (res & w'' & E & -> & tasks & Ht & Hin). by exists w'', tasks.
Qed.

(** A handler that was stopped is in no list any more: no event can run it,
    and it is not found. *)
Theorem stopped_handler_is_gone {Cb K} `{Epoll K} (w w' : world Cb K) (L : Z -> list Z) (h : Z) (n : IOEventHandler Cb) :
  rep w L -> nodes w !! Node h = Some n -> RemoveHandler (Some (Node h)) w = Some (EVENT_SYS_ERR_OK, w') ->
  h ∈ L (fd_ n) /\
  exists L', rep w' L' /\ (forall fd, h ∉ L' fd) /\
    forall n', nodes w' !! Node h = Some n' -> IsActive n' = false /\
      exists res, res <> EVENT_SYS_ERR_OK /\ FindHandler (Some (Node h)) w' = Some (res, w').
Proof.
  intros Hr Hn Hrm. pose proof (RemoveHandler_spec w L h n Hr Hn) as Hx. unfold wp in Hx. rewrite Hrm in Hx.
  destruct Hx as (L' & (Hst & Hr' & _) & Hok). destruct (Hok eq_refl) as [Hin Hout]. split; [done|].
  exists L'. split; [done|]. split; [done|]. intros n' Hn'. destruct (rep_free _ _ Hr' h n' Hn' Hout) as [Ep _].
  split; [by unfold IsActive; rewrite Ep|].
  assert (wp (FindHandler (Some (Node h))) (fun res w'' => res <> EVENT_SYS_ERR_OK /\ w'' = w') w') as Hf.
  { apply (FindHandler_spec w' L' h n'); [done..|]. split; [|done].
    destruct (bad_fd n'); [done|]. by rewrite bool_decide_false. }
  apply wp_elim in Hf as (res & w'' & E & Hres & ->). by exists res.
Qed.

(** ** A kernel *)

(** [pending] are the events that occur, [refuses] makes [epoll_ctl] fail. *)
Record demo_kernel := { next_fd : Z; interest : gmap Z (gmap Z Z); pending : list (Z * Z); refuses : bool }.

Definition demo_watched (k : demo_kernel) (ep : Z) : gmap Z Z := if ep <? 0 then ∅ else default ∅ (interest k !! ep).
Definition with_interest (k : demo_kernel) (m : gmap Z (gmap Z Z)) : demo_kernel :=
  {| next_fd := next_fd k; interest := m; pending := pending k; refuses := refuses k |}.

#[export] Instance demo_epoll : Epoll demo_kernel := {
  epoll_create1 k := (next_fd k,
    {| next_fd := next_fd k + 1; interest := <[next_fd k := ∅]> (interest k); pending := pending k; refuses := refuses k |});
  epoll_ctl ep op fd mask k :=
    let m := demo_watched k ep in
    let set m' := (true, with_interest k (<[ep := m']> (interest k))) in
    if refuses k || (ep <? 0) then (false, k)
    else match op, m !! fd with
         | EPOLL_CTL_ADD, None | EPOLL_CTL_MOD, Some _ => set (<[fd := mask]> m)
         | EPOLL_CTL_DEL, Some _ => set (delete fd m)
         | _, _ => (false, k)
         end;
  epoll_wait ep max timeout k :=
    let got := filter (fun e => is_Some (demo_watched k ep !! e.1)) (pending k) in
    (zlen got, got, {| next_fd := next_fd k; interest := interest k; pending := []; refuses := refuses k |});
  close fd k := with_interest k (delete fd (interest k));
}.

#[export] Instance demo_epoll_laws : EpollLaws demo_kernel.
Proof.
  refine {| watched := demo_watched |}.
  - intros k ep Hep. unfold demo_watched. by destruct (Z.ltb_spec ep 0); [|lia].
  - intros k fd k' [= <- <-]. unfold demo_watched. cbn. destruct (_ <? 0); [done|]. by rewrite lookup_insert_eq.
  - intros ep op fd mask k k'. cbn. destruct (refuses k || (ep <? 0)); [by intros [= <-]|].
    destruct op, (demo_watched k ep !! fd); by intros [= <-].
  - intros ep op fd mask k k'. cbn. destruct (refuses k); [done|]. destruct (Z.ltb_spec ep 0); [done|]. cbn.
    assert (forall m, demo_watched (with_interest k (<[ep := m]> (interest k))) ep = m) as Hset.
    { intros m. unfold demo_watched. cbn. destruct (Z.ltb_spec ep 0); [lia|]. by rewrite lookup_insert_eq. }
    destruct op, (demo_watched k ep !! fd) eqn:E; try done; intros [= <-]; (split; [done|]); rewrite Hset; split; try done; by eexists.
  - intros ep max timeout k n got k' [= <- <- <-]. split; [done|]. apply Forall_forall. by intros e [He _]%list_elem_of_filter.
Defined.

Definition demo_boot (pending : list (Z * Z)) (refuses : bool) : demo_kernel :=
  {| next_fd := 3; interest := ∅; pending := pending; refuses := refuses |}.

(** Two handlers share descriptor 20; data arrives on it. *)
Definition demo_ops : list (op Z) :=
  [DoSetUp; Handling true; New 1 20 EVENT_READ (Some 100); New 2 20 EVENT_WRITE (Some 200);
   Start 1; Start 2; Turn 1000; Stop 1; Destroy 1; CleanFd 20; Update 2].

Lemma reactor_refines_witness : exists w L,
  use demo_ops (IOEventReactor_ctor (demo_boot [(20, EPOLLIN)] false)) = Some (tt, w) /\ executed w = [100] /\
  rtc registry_step (fun _ => []) L /\ rep w L /\ sync w.
Proof.
  assert (obeys (IOEventReactor_ctor (demo_boot [(20, EPOLLIN)] false)) demo_ops = true) as Ho by (vm_compute; reflexivity).
  destruct (reactor_refines (demo_boot [(20, EPOLLIN)] false) demo_ops Ho) as (w & L & E & H).
  exists w, L. split; [exact E|]. split; [|destruct H as (H1 & H2 & H3 & _); exact (conj H1 (conj H2 H3))]. vm_compute in E. injection E as <-. reflexivity.
Defined.

(** A world reached by a program of the client. *)
Definition world_of (k : demo_kernel) (ops : list (op Z)) : option (world Z demo_kernel) :=
  snd <$> use ops (IOEventReactor_ctor k).

Lemma world_of_rep k ops w :
  obeys (IOEventReactor_ctor k) ops = true -> world_of k ops = Some w -> exists L, rep w L /\ sync w.
Proof.
  unfold world_of. intros Ho E. destruct (use ops _) as [[[] w1]|] eqn:E1; [|done]. injection E as <-. by apply (reached k ops).
Qed.

Definition demo_prepare : list (op Z) :=
  [DoSetUp; New 1 20 EVENT_READ (Some 100); New 2 20 EVENT_WRITE (Some 200); Start 1].

Lemma started_handler_is_served_witness : exists w w',
  world_of (demo_boot [] false) demo_prepare = Some w /\ AddHandler (Some (Node 2)) w = Some (EVENT_SYS_ERR_OK, w') /\
  (exists e, watched (kernel w') (epollFd_ (backend_ (reactor w'))) !! 20 = Some (Reactor2Epoll e) /\
             Z.land e EVENT_WRITE = EVENT_WRITE) /\
  exists w'' tasks, HandleEvents 20 EVENT_WRITE w' = Some (EVENT_SYS_ERR_OK, w'') /\
    executed w'' = executed w' ++ tasks /\ 200 ∈ tasks.
Proof.
  assert (obeys (IOEventReactor_ctor (demo_boot [] false)) demo_prepare = true) as Ho by (vm_compute; reflexivity).
  assert ((world_of (demo_boot [] false) demo_prepare ≫= fun w => fst <$> AddHandler (Some (Node 2)) w) = Some EVENT_SYS_ERR_OK) as Hres
    by (vm_compute; reflexivity).
  assert ((world_of (demo_boot [] false) demo_prepare ≫= fun w => nodes w !! Node 2) = Some (IOEventHandler_of 20 EVENT_WRITE (Some 200))) as Hn
    by (vm_compute; reflexivity).
  destruct (world_of (demo_boot [] false) demo_prepare) as [w|] eqn:E; [|discriminate Hres].
  destruct (world_of_rep (demo_boot [] false) demo_prepare w Ho E) as (L & Hr & Hs). cbn [mbind option_bind] in Hres, Hn.
  destruct (AddHandler (Some (Node 2)) w) as [[res w']|] eqn:Ea; [|discriminate Hres]. injection Hres as ->.
  exists w, w'. split; [reflexivity|]. split; [exact Ea|].
  exact (started_handler_is_served w w' L 2 _ EVENT_WRITE 200 Hr Hs Hn Ea eq_refl eq_refl).
Defined.

Lemma stopped_handler_is_gone_witness : exists w w',
  world_of (demo_boot [] false) demo_prepare = Some w /\ RemoveHandler (Some (Node 1)) w = Some (EVENT_SYS_ERR_OK, w') /\
  exists L', rep w' L' /\ (forall fd, 1 ∉ L' fd) /\
    forall n', nodes w' !! Node 1 = Some n' -> IsActive n' = false /\
      exists res, res <> EVENT_SYS_ERR_OK /\ FindHandler (Some (Node 1)) w' = Some (res, w').
Proof.
  assert (obeys (IOEventReactor_ctor (demo_boot [] false)) demo_prepare = true) as Ho by (vm_compute; reflexivity).
  assert ((world_of (demo_boot [] false) demo_prepare ≫= fun w => fst <$> RemoveHandler (Some (Node 1)) w) = Some EVENT_SYS_ERR_OK) as Hres
    by (vm_compute; reflexivity).
  assert ((world_of (demo_boot [] false) demo_prepare ≫= fun w => if nodes w !! Node 1 is Some _ then Some true else None) = Some true) as Hsome
    by (vm_compute; reflexivity).
  destruct (world_of (demo_boot [] false) demo_prepare) as [w|] eqn:E; [|discriminate Hres].
  destruct (world_of_rep (demo_boot [] false) demo_prepare w Ho E) as (L & Hr & Hs). cbn [mbind option_bind] in Hres, Hsome.
  destruct (RemoveHandler (Some (Node 1)) w) as [[res w']|] eqn:Ea; [|discriminate Hres]. injection Hres as ->.
  destruct (nodes w !! Node 1) as [n|] eqn:Hn; [|discriminate Hsome].
  exists w, w'. split; [reflexivity|]. split; [exact Ea|].
  exact (proj2 (stopped_handler_is_gone w w' L 1 n Hr Hn Ea)).
Defined.

(** ** Failures of the kernel *)

(** A handler whose descriptor the kernel refuses stays in the list although
    [Start] reports a failure: it is not enabled, and starting it again reports
    that it has already started. *)
Example refused_Start_stays_linked : exists w,
  world_of (demo_boot [] true) [DoSetUp; New 1 20 EVENT_READ (Some 100); Start 1] = Some w /\
  fst <$> IOEventHandler_Start 1 w = Some false /\
  fst <$> AddHandler (Some (Node 1)) w = Some EVENT_SYS_ERR_ALREADY_STARTED /\
  IsActive <$> nodes w !! Node 1 = Some false /\ fst <$> FindHandler (Some (Node 1)) w = Some EVENT_SYS_ERR_OK.
Proof. eexists. split; [vm_compute; reflexivity|]. vm_compute. done. Qed.

(** [Clean] empties a list without counting its handlers off, so [Run(-1)],
    which does not poll while nothing is registered, polls for ever. *)
Example Clean_keeps_count : exists w,
  world_of (demo_boot [] false) [DoSetUp; New 1 20 EVENT_READ (Some 100); Start 1; CleanFd 20] = Some w /\
  count_ (reactor w) = 1 /\ fst <$> FindHandler (Some (Node 1)) w = Some EVENT_SYS_ERR_NOT_FOUND.
Proof. eexists. split; [vm_compute; reflexivity|]. vm_compute. done. Qed.

(** The translations of the event masks agree on what epoll reports for a
    watched descriptor. *)
Example masks_agree : forall e, e ∈ seqZ 0 16 ->
  Epoll2Reactor (Reactor2Epoll e) = Z.land e (Z.lor EVENT_READ (Z.lor EVENT_WRITE EVENT_ERROR)).
Proof.
  assert (Forall (fun e => Epoll2Reactor (Reactor2Epoll e) = Z.land e (Z.lor EVENT_READ (Z.lor EVENT_WRITE EVENT_ERROR)))
                 (seqZ 0 16)) as H by (refine (proj1 (bool_decide_eq_true _) _); vm_compute; reflexivity).
  intros e He. rewrite Forall_forall in H. by apply H.
Qed.
