(* ===== verification/MappedFile.v ===== *)
(** * Mapped files ([base/src/mapped_file.cpp])

    An object and the kernel that maps files for it. The kernel is a parameter;
    a null pointer is [None]. An [off_t] is a [Z]: offsets and sizes are taken
    to be far enough from 2^63 that their sums do not overflow. *)

From S2P Require Import Prelude Errors.

(** What the code uses of the kernel and of the C library. *)
Class Mman (K : Type) := {
  PageSize : Z;                                        (** [sysconf(_SC_PAGESIZE)] *)
  realpath : list Z -> K -> list Z + Z;                (** the path or [errno] *)
  access_ok : list Z -> K -> bool;                     (** [access(path, F_OK) == 0] *)
  stat_size : list Z -> K -> option Z;                 (** [st_size], [None] when [stat] fails *)
  open : list Z -> Z -> K -> Z * K;
  close : Z -> K -> bool * K;                          (** whether the call succeeds *)
  unlink : list Z -> K -> K;
  ftruncate : Z -> Z -> K -> bool * K;
  mmap : option Z -> Z -> Z -> Z -> Z -> Z -> K -> option Z * K;
  munmap : Z -> Z -> K -> bool * K;
  mremap : Z -> Z -> Z -> K -> option Z * K;           (** with [MREMAP_MAYMOVE] *)
}.

(** Linux. *)
Definition O_RDONLY : Z := 0.
Definition O_RDWR : Z := 2.
Definition O_CREAT : Z := 0x40.
Definition O_CLOEXEC : Z := 0x80000.
Definition PROT_READ : Z := 1.
Definition PROT_WRITE : Z := 2.
Definition MAP_SHARED : Z := 1.
Definition MAP_PRIVATE : Z := 2.

(** [enum class MapMode : uint8_t] *)
Definition DEFAULT : Z := 0.
Definition PRIVATE : Z := 2.
Definition READ_ONLY : Z := 4.
Definition CREATE_IF_ABSENT : Z := 8.

Definition DEFAULT_LENGTH : Z := -1.

Record MappedFile := {
  data_ : option Z;
  rStart_ : option Z;
  rEnd_ : option Z;
  isMapped_ : bool;
  isNormed_ : bool;
  isNewFile_ : bool;
  path_ : list Z;
  size_ : Z;
  offset_ : Z;
  mode_ : Z;
  fd_ : Z;
  mapProt_ : Z;
  mapFlag_ : Z;
  openFlag_ : Z;
  hint_ : option Z;
}.

Definition MappedFile_ctor (path : list Z) (mode offset size : Z) (hint : option Z) : MappedFile :=
  {| data_ := None; rStart_ := None; rEnd_ := None; isMapped_ := false; isNormed_ := false; isNewFile_ := false;
     path_ := path; size_ := size; offset_ := offset; mode_ := mode; fd_ := -1; mapProt_ := 0; mapFlag_ := 0;
     openFlag_ := 0; hint_ := hint |}.

(** Stores to groups of fields. *)
Definition set_region (d s e : option Z) (mapped : bool) (f : MappedFile) : MappedFile :=
  {| data_ := d; rStart_ := s; rEnd_ := e; isMapped_ := mapped; isNormed_ := isNormed_ f; isNewFile_ := isNewFile_ f;
     path_ := path_ f; size_ := size_ f; offset_ := offset_ f; mode_ := mode_ f; fd_ := fd_ f; mapProt_ := mapProt_ f;
     mapFlag_ := mapFlag_ f; openFlag_ := openFlag_ f; hint_ := hint_ f |}.
Definition set_state (normed new : bool) (f : MappedFile) : MappedFile :=
  {| data_ := data_ f; rStart_ := rStart_ f; rEnd_ := rEnd_ f; isMapped_ := isMapped_ f; isNormed_ := normed; isNewFile_ := new;
     path_ := path_ f; size_ := size_ f; offset_ := offset_ f; mode_ := mode_ f; fd_ := fd_ f; mapProt_ := mapProt_ f;
     mapFlag_ := mapFlag_ f; openFlag_ := openFlag_ f; hint_ := hint_ f |}.
Definition set_segment (size offset : Z) (hint : option Z) (f : MappedFile) : MappedFile :=
  {| data_ := data_ f; rStart_ := rStart_ f; rEnd_ := rEnd_ f; isMapped_ := isMapped_ f; isNormed_ := isNormed_ f;
     isNewFile_ := isNewFile_ f; path_ := path_ f; size_ := size; offset_ := offset; mode_ := mode_ f; fd_ := fd_ f;
     mapProt_ := mapProt_ f; mapFlag_ := mapFlag_ f; openFlag_ := openFlag_ f; hint_ := hint |}.
Definition set_file (path : list Z) (fd : Z) (f : MappedFile) : MappedFile :=
  {| data_ := data_ f; rStart_ := rStart_ f; rEnd_ := rEnd_ f; isMapped_ := isMapped_ f; isNormed_ := isNormed_ f;
     isNewFile_ := isNewFile_ f; path_ := path; size_ := size_ f; offset_ := offset_ f; mode_ := mode_ f; fd_ := fd;
     mapProt_ := mapProt_ f; mapFlag_ := mapFlag_ f; openFlag_ := openFlag_ f; hint_ := hint_ f |}.
Definition set_mode (mode prot flag oflag : Z) (f : MappedFile) : MappedFile :=
  {| data_ := data_ f; rStart_ := rStart_ f; rEnd_ := rEnd_ f; isMapped_ := isMapped_ f; isNormed_ := isNormed_ f;
     isNewFile_ := isNewFile_ f; path_ := path_ f; size_ := size_ f; offset_ := offset_ f; mode_ := mode; fd_ := fd_ f;
     mapProt_ := prot; mapFlag_ := flag; openFlag_ := oflag; hint_ := hint_ f |}.

Definition set_normed (b : bool) (f : MappedFile) : MappedFile := set_state b (isNewFile_ f) f.
Definition set_new (b : bool) (f : MappedFile) : MappedFile := set_state (isNormed_ f) b f.
Definition set_size (n : Z) (f : MappedFile) : MappedFile := set_segment n (offset_ f) (hint_ f) f.
Definition set_offset (n : Z) (f : MappedFile) : MappedFile := set_segment (size_ f) n (hint_ f) f.
Definition set_hint (h : option Z) (f : MappedFile) : MappedFile := set_segment (size_ f) (offset_ f) h f.
Definition set_path (p : list Z) (f : MappedFile) : MappedFile := set_file p (fd_ f) f.
Definition set_fd (fd : Z) (f : MappedFile) : MappedFile := set_file (path_ f) fd f.
Definition set_map_mode (m : Z) (f : MappedFile) : MappedFile := set_mode m (mapProt_ f) (mapFlag_ f) (openFlag_ f) f.

Definition EndOffset (f : MappedFile) : Z := if size_ f =? DEFAULT_LENGTH then -1 else offset_ f + size_ f - 1.
Definition End_ (f : MappedFile) : option Z := (fun d => d + size_ f - 1) <$> data_ f.

Section mapped_file.
Context {K : Type} `{Mman K}.

Record world := { file : MappedFile; kernel : K }.
Notation MM := (ST world).

Definition get {A} (g : MappedFile -> A) : MM A := st_get (fun w => g (file w)).
Definition upd (g : MappedFile -> MappedFile) : MM unit := st_put (fun w => {| file := g (file w); kernel := kernel w |}).
Definition call {A} (g : K -> A * K) : MM A := fun w =>
  let '(a, k) := g (kernel w) in Some (a, {| file := file w; kernel := k |}).
Definition ask {A} (g : K -> A) : MM A := st_get (fun w => g (kernel w)).
(** A pointer the code adds to or passes on. *)
Definition nonnull (p : option Z) : MM Z := st_access (fun _ => p).

Definition RoundSize (input : Z) : Z :=
  if Z.rem input PageSize =? 0 then input else (Z.quot input PageSize + 1) * PageSize.

(** The result and the new value of [targetSize]. *)
Definition ValidMappedSize (offset targetSize st_size : Z) : bool * Z :=
  let max := RoundSize st_size - offset in
  if 0 <? max then (true, if max <? targetSize then max else targetSize) else (false, targetSize).

Definition NormalizePath : MM bool :=
  path ← get path_;
  r ← ask (realpath path);
  match r with
  | inr errno => mret (errno =? ENOENT)
  | inl canonicalPath => upd (set_path canonicalPath);; mret true
  end.

Definition FileExists (path : list Z) : MM bool := ask (access_ok path).

Definition NormalizeSize : MM bool :=
  size ← get size_;
  if (size =? 0) || (size <? DEFAULT_LENGTH) then mret false
  else
    ok ← NormalizePath;
    if negb ok then mret false
    else
      path ← get path_;
      exists_ ← FileExists path;
      if negb exists_ then
        mode ← get mode_;
        if Z.land mode CREATE_IF_ABSENT =? DEFAULT then mret false
        else
          (if size =? DEFAULT_LENGTH then upd (set_size PageSize) else mret tt);;
          upd (set_new true);;
          mret true
      else
        st ← ask (stat_size path);
        let st_size := default 0 st in   (** [stb] is zeroed *)
        (if bool_decide (st = None) then upd (set_size PageSize) else mret tt);;
        size ← get size_;
        (if size =? DEFAULT_LENGTH then upd (set_size st_size) else mret tt);;
        size ← get size_;
        offset ← get offset_;
        let '(ok, size) := ValidMappedSize offset size st_size in
        upd (set_size size);;
        mret ok.

Definition NormalizeMode : MM unit :=
  upd (fun f =>
    let mode := Z.land (mode_ f) (Z.lor PRIVATE (Z.lor READ_ONLY CREATE_IF_ABSENT)) in
    if mode =? DEFAULT then set_mode mode (Z.lor PROT_READ PROT_WRITE) MAP_SHARED (Z.lor O_CLOEXEC O_RDWR) f
    else
      let flag := if negb (Z.land mode PRIVATE =? DEFAULT) then MAP_PRIVATE else MAP_SHARED in
      let read_only := negb (Z.land mode READ_ONLY =? DEFAULT) in
      let prot := if read_only then PROT_READ else Z.lor PROT_READ PROT_WRITE in
      let oflag := Z.lor O_CLOEXEC (if read_only then O_RDONLY else O_RDWR) in
      let oflag := if negb (Z.land mode CREATE_IF_ABSENT =? DEFAULT) then Z.lor oflag O_CREAT else oflag in
      set_mode mode prot flag oflag f).

Definition Normalize : MM Z :=
  normed ← get isNormed_;
  if (normed : bool) then mret ERR_INVALID_OPERATION
  else
    offset ← get offset_;
    if (offset <? 0) || negb (Z.rem offset PageSize =? 0) then mret ERR_INVALID_VALUE
    else
      ok ← NormalizeSize;
      if negb ok then mret ERR_INVALID_VALUE
      else
        NormalizeMode;;
        upd (set_normed true);;
        mret MAPPED_FILE_ERR_OK.

(** Failures of [close] and [unlink] are only logged. *)
Definition close_and_unlink (fd : Z) : MM unit :=
  call (close fd);;
  path ← get path_;
  call (fun k => (tt, unlink path k)).

Definition OpenFile : MM bool :=
  f ← get id;
  fd ← call (open (path_ f) (openFlag_ f));
  if fd =? -1 then mret false
  else
    let finish := upd (set_fd fd);; mret true in
    new ← get isNewFile_;
    if (new : bool) then
      ok ← NormalizePath;
      if negb ok then close_and_unlink fd;; mret false
      else
        end_ ← get EndOffset;
        ok ← call (ftruncate fd (end_ + 1));
        if negb ok then close_and_unlink fd;; mret false
        else upd (set_new false);; finish
    else finish.

Definition try_mmap : MM (option Z) :=
  f ← get id;
  call (mmap (hint_ f) (u64 (size_ f)) (mapProt_ f) (mapFlag_ f) (fd_ f) (offset_ f)).

(** The loop around [mmap]: a failure with a hint is tried again without it. *)
Definition mmap_loop : MM (option Z) :=
  data ← try_mmap;
  hint ← get hint_;
  if bool_decide (data = None) && bool_decide (is_Some hint)
  then upd (set_hint None);; try_mmap else mret data.

Definition Map_ : MM Z :=
  mapped ← get isMapped_;
  if (mapped : bool) then mret ERR_INVALID_OPERATION
  else
    res ← Normalize;
    if negb (res =? MAPPED_FILE_ERR_OK) && negb (res =? ERR_INVALID_OPERATION) then mret res
    else
      fd ← get fd_;
      ok ← (if fd =? -1 then OpenFile else mret true);
      if negb ok then mret MAPPED_FILE_ERR_FAILED
      else
        data ← mmap_loop;
        match data with
        | None => mret MAPPED_FILE_ERR_FAILED
        | Some data =>
            size ← get size_;
            upd (set_region (Some data) (Some data) (Some (data + (RoundSize size - 1))) true);;
            mret MAPPED_FILE_ERR_OK
        end.

Definition Unmap : MM Z :=
  f ← get id;
  if negb (isMapped_ f) then mret ERR_INVALID_OPERATION
  else
    start ← nonnull (rStart_ f);
    ok ← call (munmap start (u64 (size_ f)));
    if negb ok then mret MAPPED_FILE_ERR_FAILED
    else upd (set_region None None None false);; mret MAPPED_FILE_ERR_OK.

Definition SyncFileSize (newSize : Z) : MM bool :=
  f ← get id;
  if size_ f <? newSize then
    st ← ask (stat_size (path_ f));
    match st with
    | None => mret false
    | Some st_size =>
        if offset_ f + newSize <=? st_size then mret true
        else call (ftruncate (fd_ f) (offset_ f + newSize))
    end
  else mret true.

(** [mremap] to a size that was checked. *)
Definition remap (newSize : Z) : MM Z :=
  f ← get id;
  start ← nonnull (rStart_ f);
  newData ← call (mremap start (u64 (size_ f)) (u64 newSize));
  match newData with
  | None => mret MAPPED_FILE_ERR_FAILED
  | Some newData =>
      upd (fun f => set_region (Some newData) (Some newData) (Some (newData + RoundSize newSize - 1)) (isMapped_ f)
                      (set_size newSize f));;
      mret MAPPED_FILE_ERR_OK
  end.

Definition Resize_to (newSize : Z) (sync : bool) : MM Z :=
  f ← get id;
  newSize ← (if newSize =? DEFAULT_LENGTH
             then st ← ask (stat_size (path_ f)); mret (default PageSize st)
             else mret newSize);
  if (newSize =? 0) || (newSize <? DEFAULT_LENGTH) || (newSize =? size_ f) then mret ERR_INVALID_OPERATION
  else if negb (isMapped_ f) then mret ERR_INVALID_OPERATION
  else
    checked ← (if sync then
                 ok ← SyncFileSize newSize;
                 mret (if (ok : bool) then inr newSize else inl MAPPED_FILE_ERR_FAILED)
               else
                 st ← ask (stat_size (path_ f));
                 match st with
                 | None => mret (inl ERR_INVALID_OPERATION)
                 | Some st_size =>
                     let '(ok, size) := ValidMappedSize (offset_ f) newSize st_size in
                     mret (if (ok : bool) then inr size else inl ERR_INVALID_VALUE)
                 end);
    match checked with
    | inl err => mret err
    | inr newSize => remap newSize
    end.

Definition Resize : MM Z :=
  mapped ← get isMapped_;
  if (mapped : bool) then mret ERR_INVALID_OPERATION else Map_.

Definition TurnNext : MM Z :=
  f ← get id;
  if negb (isNormed_ f) then mret ERR_INVALID_OPERATION
  else
    st ← ask (stat_size (path_ f));
    match st with
    | None => mret MAPPED_FILE_ERR_FAILED
    | Some st_size =>
        if st_size <=? EndOffset f + 1 then mret ERR_INVALID_OPERATION
        else if isMapped_ f then
          curEnd ← nonnull (End_ f);
          rEnd ← nonnull (rEnd_ f);
          data ← nonnull (data_ f);
          if curEnd =? rEnd then
            (if st_size <? EndOffset f + 1 + size_ f then upd (set_size (st_size - EndOffset f - 1)) else mret tt);;
            upd (set_normed false);;
            upd (set_hint (rStart_ f));;
            upd (set_offset (offset_ f + size_ f));;
            res ← Unmap;
            res ← (if res =? MAPPED_FILE_ERR_OK then Resize else mret res);
            if negb (res =? MAPPED_FILE_ERR_OK)
            then upd (fun g => set_normed true (set_segment (size_ f) (offset_ f) (hint_ f) g));; mret res
            else mret res
          else
            (if rEnd <? curEnd + size_ f then upd (set_size (rEnd - curEnd)) else mret tt);;
            upd (fun g => set_region (Some (data + size_ f)) (rStart_ g) (rEnd_ g) (isMapped_ g)
                            (set_offset (offset_ f + size_ f) g));;
            mret MAPPED_FILE_ERR_OK
        else
          upd (fun g => set_normed false (set_offset (offset_ g + PageSize) g));;
          mret MAPPED_FILE_ERR_OK
    end.

Definition Reset : MM unit := upd (fun _ => MappedFile_ctor [] DEFAULT 0 DEFAULT_LENGTH None).

Definition close_fd : MM bool :=
  fd ← get fd_;
  if fd =? -1 then mret true else call (close fd).

Definition Clear (force : bool) : MM Z :=
  mapped ← get isMapped_;
  res ← (if (mapped : bool) then Unmap else mret MAPPED_FILE_ERR_OK);
  if mapped && negb force && negb (res =? MAPPED_FILE_ERR_OK) then mret res
  else
    ok ← close_fd;
    if negb ok then mret MAPPED_FILE_ERR_FAILED
    else Reset;; mret MAPPED_FILE_ERR_OK.

Definition MappedFile_dtor : MM unit :=
  mapped ← get isMapped_;
  (if (mapped : bool) then Unmap;; mret tt else mret tt);;
  close_fd;;
  mret tt.

(** [MappedFile(MappedFile&&)]: the new object and what is left of the other. *)
Definition MappedFile_move (other : MappedFile) : MappedFile * MappedFile :=
  (other, MappedFile_ctor [] DEFAULT 0 DEFAULT_LENGTH None).

(** [operator=(MappedFile&&)] from another object; the result is what is left
    of it. *)
Definition MappedFile_assign (other : MappedFile) : MM MappedFile :=
  Clear true;;
  upd (fun _ => other);;
  mret (MappedFile_ctor [] DEFAULT 0 DEFAULT_LENGTH None).

(** The [Change] functions unmap first. *)
Definition release_region : MM bool :=
  mapped ← get isMapped_;
  if negb mapped then mret true
  else res ← Unmap; mret (res =? MAPPED_FILE_ERR_OK).

Definition ChangeOffset (val : Z) : MM bool :=
  offset ← get offset_;
  if offset =? val then mret false
  else ok ← release_region;
       if (ok : bool) then upd (fun f => set_normed false (set_offset val f));; mret true else mret false.

Definition ChangeSize (val : Z) : MM bool :=
  size ← get size_;
  if ((0 <? val) || (val =? DEFAULT_LENGTH)) && negb (size =? val)
  then ok ← release_region;
       if (ok : bool) then upd (fun f => set_normed false (set_size val f));; mret true else mret false
  else mret false.

Definition ChangePath (val : list Z) : MM bool :=
  path ← get path_;
  if bool_decide (path = val) then mret false
  else
    ok ← release_region;
    if negb ok then mret false
    else
      ok ← close_fd;
      if negb ok then mret false
      else upd (fun f => set_normed false (set_file val (-1) f));; mret true.

Definition ChangeHint (val : option Z) : MM bool :=
  hint ← get hint_;
  if bool_decide (hint = val) then mret false
  else ok ← release_region;
       if (ok : bool) then upd (fun f => set_normed false (set_hint val f));; mret true else mret false.

Definition ChangeMode (val : Z) : MM bool :=
  mode ← get mode_;
  if mode =? val then mret false
  else ok ← release_region;
       if (ok : bool) then upd (fun f => set_normed false (set_map_mode val f));; mret true else mret false.
End mapped_file.
