(* ===== verification/MappedInv.v ===== *)
(** * The memory of a mapped file

    [own B w]: the kernel has the pages [B] of others mapped, and besides them
    exactly the region of the object. *)

From S2P Require Import Prelude Errors MappedFile.

Definition pages {K} `{Mman K} (a n : Z) : gset Z := list_to_set (seqZ (a / PageSize) ((n + PageSize - 1) / PageSize)).

(** What the kernel documents: [mapped] is the set of the mapped pages. Only
    [mmap], [munmap] and [mremap] change it; a mapping is placed at the start
    of a page, where nothing is mapped; unmapping a mapping succeeds. *)
Class MmanLaws (K : Type) `{Mman K} := {
  page_size_pos : 0 < PageSize;
  mapped : K -> gset Z;
  open_frame p fl k : mapped (snd (open p fl k)) = mapped k;
  close_frame fd k : mapped (snd (close fd k)) = mapped k;
  unlink_frame p k : mapped (unlink p k) = mapped k;
  ftruncate_frame fd n k : mapped (snd (ftruncate fd n k)) = mapped k;
  mmap_none h n p fl fd off k k' : mmap h n p fl fd off k = (None, k') -> mapped k' = mapped k;
  mmap_some h n p fl fd off k a k' : mmap h n p fl fd off k = (Some a, k') ->
    0 < n /\ a mod PageSize = 0 /\ pages a n ## mapped k /\ mapped k' = mapped k ∪ pages a n;
  munmap_works a n k : 0 < n -> a mod PageSize = 0 -> pages a n ⊆ mapped k ->
    exists k', munmap a n k = (true, k') /\ mapped k' = mapped k ∖ pages a n;
  mremap_none a old new k k' : mremap a old new k = (None, k') -> mapped k' = mapped k;
  mremap_some a old new k b k' : mremap a old new k = (Some b, k') ->
    0 < new /\ b mod PageSize = 0 /\ pages b new ## mapped k ∖ pages a old /\
    mapped k' = (mapped k ∖ pages a old) ∪ pages b new;
}.

Section own.
Context {K : Type} `{MmanLaws K}.
Notation world := (world (K := K)).
Implicit Types w : world.
Implicit Types B : gset Z.
Implicit Types f : MappedFile.

Definition region f : gset Z := match rStart_ f with Some a => pages a (u64 (size_ f)) | None => ∅ end.

Record own B w : Prop := {
  own_mapped : isMapped_ (file w) = true ->
    isNormed_ (file w) = true /\ 0 < u64 (size_ (file w)) /\
    exists a, rStart_ (file w) = Some a /\ data_ (file w) = Some a /\
              rEnd_ (file w) = Some (a + RoundSize (size_ (file w)) - 1) /\ a mod PageSize = 0;
  own_unmapped : isMapped_ (file w) = false ->
    rStart_ (file w) = None /\ data_ (file w) = None /\ rEnd_ (file w) = None;
  own_apart : region (file w) ## B;
  own_pages : mapped (kernel w) = B ∪ region (file w);
}.

(** What a call leaves alone when nothing is mapped. *)
Definition unmapped f : Prop := isMapped_ f = false /\ rStart_ f = None /\ data_ f = None /\ rEnd_ f = None.

Lemma own_of_unmapped B w : unmapped (file w) -> mapped (kernel w) = B -> own B w.
Proof.
  intros (Hm & Hs & Hd & He) Hk. split; rewrite ?Hm; try done; unfold region; rewrite Hs; [set_solver|].
  rewrite Hk. set_solver.
Qed.

Lemma unmapped_of_own B w : own B w -> isMapped_ (file w) = false -> unmapped (file w) /\ mapped (kernel w) = B.
Proof.
  intros Ho Hm. destruct (own_unmapped _ _ Ho Hm) as (Hs & Hd & He). split; [done|].
  rewrite (own_pages _ _ Ho). unfold region. rewrite Hs. set_solver.
Qed.

Lemma wp_call {A} (g : K -> A * K) (Q : A -> world -> Prop) w :
  (forall a k, g (kernel w) = (a, k) -> Q a {| file := file w; kernel := k |}) -> wp (call g) Q w.
Proof. unfold wp, call. destruct (g (kernel w)) as [a k]. auto. Qed.

Lemma wp_get_file {A} (g : MappedFile -> A) (Q : A -> world -> Prop) w : Q (g (file w)) w -> wp (get g) Q w.
Proof. done. Qed.
Lemma wp_upd (g : MappedFile -> MappedFile) (Q : unit -> world -> Prop) w :
  Q tt {| file := g (file w); kernel := kernel w |} -> wp (upd g) Q w.
Proof. done. Qed.
Lemma wp_ask {A} (g : K -> A) (Q : A -> world -> Prop) w : Q (g (kernel w)) w -> wp (ask g) Q w.
Proof. done. Qed.
Lemma wp_nonnull p a (Q : Z -> world -> Prop) w : p = Some a -> Q a w -> wp (nonnull p) Q w.
Proof. intros ->. done. Qed.
End own.

(** [mms] steps through a function of a mapped file. *)
Ltac mms :=
  wps;
  repeat (match goal with
          | |- wp (get _) _ _ => apply wp_get_file
          | |- wp (upd _) _ _ => apply wp_upd
          | |- wp (ask _) _ _ => apply wp_ask
          end; wps);
  cbn [file kernel id].

Section calls.
Context {K : Type} `{MmanLaws K}.
Notation world := (world (K := K)).
Implicit Types w : world.
Implicit Types B : gset Z.
Implicit Types f : MappedFile.

(** ** Calls before the mapping *)

(** The segment [f'] asks for after the parameters were normalized. *)
Definition fits f f' : Prop :=
  offset_ f' = offset_ f /\ hint_ f' = hint_ f /\ (0 < size_ f -> 0 < size_ f' <= size_ f) /\
  rStart_ f' = rStart_ f /\ data_ f' = data_ f /\ rEnd_ f' = rEnd_ f /\ isMapped_ f' = isMapped_ f.

Lemma fits_refl f : fits f f.
Proof. split_and!; first [done|lia]. Qed.
Lemma fits_trans f1 f2 f3 : fits f1 f2 -> fits f2 f3 -> fits f1 f3.
Proof.
  intros (A1 & A2 & A3 & A4 & A5 & A6 & A7) (B1 & B2 & B3 & B4 & B5 & B6 & B7).
  split_and!; try congruence. intros Hp. specialize (A3 Hp). specialize (B3 ltac:(lia)). lia.
Qed.
Lemma fits_unmapped f f' : fits f f' -> unmapped f -> unmapped f'.
Proof. intros (_ & _ & _ & A4 & A5 & A6 & A7). unfold unmapped. by rewrite A4, A5, A6, A7. Qed.

Lemma NormalizePath_spec w : wp NormalizePath (fun _ w' => fits (file w) (file w') /\ size_ (file w') = size_ (file w) /\
  isNormed_ (file w') = isNormed_ (file w) /\ kernel w' = kernel w) w.
Proof.
  unfold NormalizePath. mms. destruct (realpath _ _); mms; (split; [|done]); [|apply fits_refl].
  split_and!; first [done|cbn; lia].
Qed.

Lemma RoundSize_0 : RoundSize 0 = 0.
Proof. unfold RoundSize. by rewrite Z.rem_0_l by (pose proof page_size_pos; lia). Qed.

Lemma NormalizeSize_spec w : 0 <= offset_ (file w) -> wp NormalizeSize (fun ok w' => kernel w' = kernel w /\ isNormed_ (file w') = isNormed_ (file w) /\
  rStart_ (file w') = rStart_ (file w) /\ data_ (file w') = data_ (file w) /\ rEnd_ (file w') = rEnd_ (file w) /\
  isMapped_ (file w') = isMapped_ (file w) /\ offset_ (file w') = offset_ (file w) /\ hint_ (file w') = hint_ (file w) /\
  (ok = true -> fits (file w) (file w'))) w.
Proof.
  intros Hoff. unfold NormalizeSize. mms. destruct (_ || _) eqn:E0; mms; [by split_and!|].
  apply orb_false_iff in E0 as [E1 E2]. zb.
  eapply wp_mono; [apply NormalizePath_spec|]. cbn beta. intros ok w1 (F1 & Es & En & Ek).
  assert (F1' := F1). destruct F1' as (A1 & A2 & A3 & A4 & A5 & A6 & A7).
  destruct ok; mms; [|by split_and!]. unfold FileExists. mms.
  destruct (access_ok _ _); mms.
  - set (st := stat_size (path_ (file w1)) (kernel w1)).
    set (w2 := if bool_decide (st = None) then {| file := set_size PageSize (file w1); kernel := kernel w1 |} else w1).
    assert (kernel w2 = kernel w1 /\ offset_ (file w2) = offset_ (file w1) /\ (is_Some st -> size_ (file w2) = size_ (file w1)) /\
      set_size 0 (file w2) = set_size 0 (file w1)) as (B1 & B2 & B3 & B4).
    { unfold w2. case_bool_decide as Est; [|done]. split_and!; try done. rewrite Est. by intros []. }
    assert (forall Q : unit -> world -> Prop, Q tt w2 -> wp (if bool_decide (st = None) then upd (set_size PageSize) else mret tt) Q w1) as Hw2.
    { intros Q HQ. unfold w2 in HQ. case_bool_decide; exact HQ. }
    apply Hw2. mms. clearbody w2.
    set (w3 := if size_ (file w2) =? DEFAULT_LENGTH then {| file := set_size (default 0 st) (file w2); kernel := kernel w2 |} else w2).
    assert (forall Q : unit -> world -> Prop, Q tt w3 -> wp (if size_ (file w2) =? DEFAULT_LENGTH then upd (set_size (default 0 st)) else mret tt) Q w2) as Hw3.
    { intros Q HQ. unfold w3 in HQ. destruct (_ =? _); exact HQ. }
    assert (kernel w3 = kernel w1 /\ offset_ (file w3) = offset_ (file w1) /\
      (is_Some st -> size_ (file w1) <> DEFAULT_LENGTH -> size_ (file w3) = size_ (file w1)) /\
      set_size 0 (file w3) = set_size 0 (file w1)) as (C1 & C2 & C3 & C4).
    { unfold w3. destruct (Z.eqb_spec (size_ (file w2)) DEFAULT_LENGTH) as [E|E]; split_and!; try done.
      - intros Hst Hne. rewrite B3 in E by done. done.
      - intros Hst Hne. by apply B3. }
    apply Hw3. mms. clearbody w3. unfold ValidMappedSize.
    assert (forall n, isNormed_ (set_size n (file w3)) = isNormed_ (file w) /\ rStart_ (set_size n (file w3)) = rStart_ (file w) /\
      data_ (set_size n (file w3)) = data_ (file w) /\ rEnd_ (set_size n (file w3)) = rEnd_ (file w) /\
      isMapped_ (set_size n (file w3)) = isMapped_ (file w) /\ offset_ (set_size n (file w3)) = offset_ (file w) /\
      hint_ (set_size n (file w3)) = hint_ (file w)) as Hn.
    { intros n. change (set_size n (file w3)) with (set_size n (set_size 0 (file w3))). rewrite C4. by split_and!. }
    destruct (Z.ltb_spec 0 (RoundSize (default 0 st) - offset_ (file w3))) as [Hmax|Hmax]; mms.
    + destruct (Hn (if RoundSize (default 0 st) - offset_ (file w3) <? size_ (file w3)
                    then RoundSize (default 0 st) - offset_ (file w3) else size_ (file w3))) as (N1 & N2 & N3 & N4 & N5 & N6 & N7).
      split_and!; try done; [congruence|]. intros _. split_and!; try done. intros Hpos. cbn [size_ set_size set_segment].
      destruct st as [n|] eqn:Est; [|cbn [default] in Hmax; rewrite RoundSize_0 in Hmax; lia].
      assert (size_ (file w3) = size_ (file w1)) as Esz by (apply C3; [by eexists|unfold DEFAULT_LENGTH; lia]).
      case_bool; lia.
    + destruct (Hn (size_ (file w3))) as (N1 & N2 & N3 & N4 & N5 & N6 & N7). by split_and!; try congruence.
  - destruct (_ =? DEFAULT); mms; [by split_and!|].
    destruct (Z.eqb_spec (size_ (file w)) DEFAULT_LENGTH) as [ED|ED]; mms;
      (split_and!; try done); intros _; split_and!; try done; cbn; unfold DEFAULT_LENGTH in *; lia.
Qed.

Lemma fits_mode f m p fl o : fits f (set_mode m p fl o f).
Proof. split_and!; first [done|cbn; lia]. Qed.
Lemma fits_state f a b : fits f (set_state a b f).
Proof. split_and!; first [done|cbn; lia]. Qed.
Lemma fits_file f p fd : fits f (set_file p fd f).
Proof. split_and!; first [done|cbn; lia]. Qed.

(** The links of an object that has nothing mapped stay null. *)
Definition same_region f f' : Prop :=
  rStart_ f' = rStart_ f /\ data_ f' = data_ f /\ rEnd_ f' = rEnd_ f /\ isMapped_ f' = isMapped_ f.

Lemma same_region_unmapped f f' : same_region f f' -> unmapped f -> unmapped f'.
Proof. intros (A4 & A5 & A6 & A7). unfold unmapped. by rewrite A4, A5, A6, A7. Qed.

Lemma Normalize_spec w : wp Normalize (fun res w' => kernel w' = kernel w /\ same_region (file w) (file w') /\
  offset_ (file w') = offset_ (file w) /\ hint_ (file w') = hint_ (file w) /\
  (res = MAPPED_FILE_ERR_OK \/ res = ERR_INVALID_OPERATION -> fits (file w) (file w') /\ isNormed_ (file w') = true) /\
  (res <> MAPPED_FILE_ERR_OK -> isNormed_ (file w') = isNormed_ (file w))) w.
Proof.
  unfold Normalize. mms. destruct (isNormed_ (file w)) eqn:En; mms; [by split_and!; try done; intros _; split; first [apply fits_refl|done]|].
  destruct (_ || _) eqn:E0; mms; [split_and!; try done; first [by intros [|]|congruence]|]. apply orb_false_iff in E0 as [E1 _]. zb.
  eapply wp_mono; [by apply NormalizeSize_spec|]. cbn beta.
  intros ok w1 (Ek & Enn & A1 & A2 & A3 & A4 & A5 & A6 & Hok). destruct ok; mms; [|split_and!; try done; first [by intros [|]|congruence]].
  unfold NormalizeMode. mms. specialize (Hok eq_refl).
  set (f2 := if _ =? DEFAULT then _ else _).
  assert (fits (file w1) f2) as F2 by (unfold f2; case_match; apply fits_mode).
  assert (fits (file w) f2) as F by by eapply fits_trans.
  assert (offset_ f2 = offset_ (file w) /\ hint_ f2 = hint_ (file w) /\ same_region (file w) f2) as (B1 & B2 & B3).
  { destruct F as (F1' & F2' & F3' & F4' & F5' & F6' & F7'). done. }
  split_and!; done.
Qed.

(** The calls on the open file map nothing. *)
Definition keeps w w' : Prop := mapped (kernel w') = mapped (kernel w) /\ fits (file w) (file w') /\
  isNormed_ (file w') = isNormed_ (file w).

Lemma keeps_refl w : keeps w w.
Proof. split; [done|]. split; [apply fits_refl|done]. Qed.
Lemma keeps_trans w1 w2 w3 : keeps w1 w2 -> keeps w2 w3 -> keeps w1 w3.
Proof. intros (A1 & A2 & A3) (B1 & B2 & B3). split; [congruence|]. split; [by eapply fits_trans|congruence]. Qed.

Lemma call_keeps {A} (g : K -> A * K) w (Q : A -> world -> Prop) :
  (forall k, mapped (snd (g k)) = mapped k) ->
  (forall a w', file w' = file w -> keeps w w' -> Q a w') -> wp (call g) Q w.
Proof.
  intros Hg Hq. apply wp_call. intros a k E. apply Hq; [done|]. split; [|split; [apply fits_refl|done]].
  specialize (Hg (kernel w)). by rewrite E in Hg.
Qed.

Lemma close_and_unlink_keeps fd w : wp (close_and_unlink fd) (fun _ w' => keeps w w') w.
Proof.
  unfold close_and_unlink. mms. apply call_keeps; [apply close_frame|]. intros _ w1 _ K1. mms.
  apply call_keeps; [intros k; apply unlink_frame|]. intros _ w2 _ K2. by eapply keeps_trans.
Qed.

Lemma NormalizePath_keeps w : wp NormalizePath (fun _ w' => keeps w w') w.
Proof.
  eapply wp_mono; [apply NormalizePath_spec|]. cbn beta. intros _ w' (F & _ & En & Ek). split; [by rewrite Ek|]. by split.
Qed.

Lemma OpenFile_keeps w : wp OpenFile (fun _ w' => keeps w w') w.
Proof.
  unfold OpenFile. mms. apply call_keeps; [intros k; apply open_frame|]. intros fd w1 Ef1 K1. mms.
  destruct (fd =? -1); mms; [done|].
  assert (forall w2, keeps w w2 -> keeps w {| file := set_fd fd (file w2); kernel := kernel w2 |}) as Hfin.
  { intros w2 K2. eapply keeps_trans; [exact K2|]. split; [done|]. split; [apply fits_file|done]. }
  destruct (isNewFile_ (file w1)); mms; [|by apply Hfin].
  eapply wp_mono; [apply NormalizePath_keeps|]. cbn beta. intros ok w2 K2. pose proof (keeps_trans _ _ _ K1 K2) as K12.
  destruct ok; mms.
  - apply call_keeps; [intros k; apply ftruncate_frame|]. intros ok w3 Ef3 K3. pose proof (keeps_trans _ _ _ K12 K3) as K13.
    destruct ok; mms.
    + apply (Hfin {| file := set_new false (file w3); kernel := kernel w3 |}). eapply keeps_trans; [exact K13|].
      split; [done|]. split; [apply fits_state|done].
    + eapply wp_mono; [apply close_and_unlink_keeps|]. cbn beta. intros _ w4 K4. mms. by eapply keeps_trans.
  - eapply wp_mono; [apply close_and_unlink_keeps|]. cbn beta. intros _ w4 K4. mms. by eapply keeps_trans.
Qed.

(** ** Mapping *)

(** [a] is what [mmap] answered to the parameters of the object. *)
Definition placed_at (a : Z) w : Prop :=
  exists hint k, mmap hint (u64 (size_ (file w))) (mapProt_ (file w)) (mapFlag_ (file w)) (fd_ (file w)) (offset_ (file w)) k
                 = (Some a, kernel w).

Lemma try_mmap_spec w : wp try_mmap (fun r w' => file w' = file w /\
  match r with
  | None => mapped (kernel w') = mapped (kernel w)
  | Some a => 0 < u64 (size_ (file w)) /\ a mod PageSize = 0 /\ pages a (u64 (size_ (file w))) ## mapped (kernel w) /\
              mapped (kernel w') = mapped (kernel w) ∪ pages a (u64 (size_ (file w))) /\ placed_at a w'
  end) w.
Proof.
  unfold try_mmap. mms. apply wp_call. intros r k E. split; [done|]. destruct r as [a|].
  - destruct (mmap_some _ _ _ _ _ _ _ _ _ E) as (? & ? & ? & ?). split_and!; try done.
    by exists (hint_ (file w)), (kernel w).
  - by apply (mmap_none _ _ _ _ _ _ _ _ E).
Qed.

Lemma mmap_loop_spec w : wp mmap_loop (fun r w' => (file w' = file w \/ file w' = set_hint None (file w)) /\
  match r with
  | None => mapped (kernel w') = mapped (kernel w)
  | Some a => 0 < u64 (size_ (file w)) /\ a mod PageSize = 0 /\ pages a (u64 (size_ (file w))) ## mapped (kernel w) /\
              mapped (kernel w') = mapped (kernel w) ∪ pages a (u64 (size_ (file w))) /\ placed_at a w'
  end) w.
Proof.
  unfold mmap_loop. mms. eapply wp_mono; [apply try_mmap_spec|]. cbn beta. intros r w1 (Ef & Hr). mms.
  destruct (bool_decide (r = None) && _) eqn:E; mms; [|by split; [left|]].
  apply andb_true_iff in E as [->%bool_decide_eq_true _].
  eapply wp_mono; [apply try_mmap_spec|]. cbn beta. cbn [file kernel size_ set_hint set_segment]. intros r w2 (Ef2 & Hr2).
  split; [right; by rewrite Ef2, Ef|]. rewrite Ef, Hr in Hr2. exact Hr2.
Qed.

(** [Map] owns what it maps; when it fails nothing is mapped. *)
Definition map_result w (res : Z) (w' : world) : Prop :=
  isMapped_ (file w) = false -> offset_ (file w') = offset_ (file w) /\
  if decide (res = MAPPED_FILE_ERR_OK)
  then isMapped_ (file w') = true /\ (0 < size_ (file w) -> 0 < size_ (file w') <= size_ (file w)) /\
       exists a, data_ (file w') = Some a /\ rStart_ (file w') = Some a /\ placed_at a w'
  else isMapped_ (file w') = false.

Lemma Map_spec B w : own B w -> wp Map_ (fun res w' => own B w' /\ map_result w res w') w.
Proof.
  intros Ho. unfold Map_. mms. destruct (isMapped_ (file w)) eqn:Em; mms; [by split; [|intros E; congruence]|].
  destruct (unmapped_of_own _ _ Ho Em) as [Hu HB].
  assert (forall res w', mapped (kernel w') = B -> unmapped (file w') -> offset_ (file w') = offset_ (file w) ->
    res <> MAPPED_FILE_ERR_OK -> own B w' /\ map_result w res w') as Hfail.
  { intros res w' HB' Hu' Hoff Hres. split; [by apply own_of_unmapped|]. intros _. split; [done|].
    rewrite decide_False by done. apply Hu'. }
  eapply wp_mono; [apply Normalize_spec|]. cbn beta. intros res w1 (Ek1 & R1 & O1 & H1 & Hok & _).
  pose proof (same_region_unmapped _ _ R1 Hu) as Hu1. mms.
  destruct (negb (res =? MAPPED_FILE_ERR_OK) && negb (res =? ERR_INVALID_OPERATION)) eqn:Eres; mms.
  { apply andb_true_iff in Eres as [? ?]. zb. apply Hfail; [congruence|done..]. }
  assert (res = MAPPED_FILE_ERR_OK \/ res = ERR_INVALID_OPERATION) as Hres.
  { destruct (Z.eqb_spec res MAPPED_FILE_ERR_OK); [by left|]. destruct (Z.eqb_spec res ERR_INVALID_OPERATION); [by right|done]. }
  destruct (Hok Hres) as [F1 Hn1].
  assert (wp (if fd_ (file w1) =? -1 then OpenFile else mret true) (fun _ w' => keeps w1 w') w1) as Hopen
    by (destruct (fd_ (file w1) =? -1); [apply OpenFile_keeps|mms; apply keeps_refl]).
  eapply wp_mono; [exact Hopen|]. cbn beta. intros ok w2 (Ek2 & F2 & Hn2).
  pose proof (fits_trans _ _ _ F1 F2) as F12. pose proof (fits_unmapped _ _ F12 Hu) as Hu2.
  assert (offset_ (file w2) = offset_ (file w)) as O2 by apply F12. assert (mapped (kernel w2) = B) as HB2 by congruence.
  destruct ok; mms; [|by apply Hfail].
  eapply wp_mono; [apply mmap_loop_spec|]. cbn beta. intros r w3 (Hf & Hr).
  assert (size_ (file w3) = size_ (file w2) /\ isNormed_ (file w3) = true /\ offset_ (file w3) = offset_ (file w) /\ unmapped (file w3))
    as (Es & En & Eo & Hu3) by (destruct Hf as [-> | ->]; cbn; (split; [done|split; [congruence|split; [done|exact Hu2]]])).
  destruct r as [a|]; mms; [|apply Hfail; [congruence|done..]].
  destruct Hr as (Hpos & Hal & Hap & Hmap & Hpl). split.
  - split; cbn [file kernel set_region isMapped_ isNormed_ size_ rStart_ data_ rEnd_]; rewrite ?Es; try done.
    + intros _. split; [done|]. split; [done|]. exists a. split_and!; try done. f_equal. lia.
    + unfold region. cbn [rStart_ size_ set_region]. rewrite Es. set_solver.
    + unfold region. cbn [rStart_ size_ set_region]. by rewrite Es, Hmap, HB2.
  - intros _. split; [done|]. rewrite decide_True by done. split; [done|]. cbn [file size_ set_region]. split; [rewrite Es; destruct F12 as (_ & _ & F12 & _); exact F12|].
    by exists a.
Qed.

(** ** Unmapping *)

Lemma Unmap_spec B w : own B w -> wp Unmap (fun res w' => own B w' /\ unmapped (file w') /\ mapped (kernel w') = B /\
  file w' = set_region None None None false (file w) /\
  res = if isMapped_ (file w) then MAPPED_FILE_ERR_OK else ERR_INVALID_OPERATION) w.
Proof.
  intros Ho. unfold Unmap. mms. destruct (isMapped_ (file w)) eqn:Em; mms.
  - destruct (own_mapped _ _ Ho Em) as (Hn & Hpos & a & Hs & Hd & He & Hal). apply (wp_nonnull _ a); [done|]. mms.
    assert (region (file w) = pages a (u64 (size_ (file w)))) as Er by (unfold region; by rewrite Hs).
    destruct (munmap_works a (u64 (size_ (file w))) (kernel w) Hpos Hal) as (k' & Ek & Hk).
    { rewrite (own_pages _ _ Ho), Er. set_solver. }
    apply wp_call. intros ok k E. rewrite Ek in E. injection E as <- <-. mms.
    assert (mapped k' = B) as HB by (pose proof (own_apart _ _ Ho); rewrite Hk, (own_pages _ _ Ho), <- Er; set_solver).
    split; [by apply own_of_unmapped|done].
  - destruct (unmapped_of_own _ _ Ho Em) as [Hu HB]. split; [done|]. split; [done|]. split; [done|]. split; [|done].
    destruct Hu as (_ & Hs & Hd & He). destruct (file w). cbn in *. by subst.
Qed.
End calls.
