(* ===== verification/MappedProps.v ===== *)
(** * The properties of mapped files *)

From S2P Require Import Prelude Errors MappedFile MappedInv.

Section programs.
Context {K : Type} `{MmanLaws K}.
Notation world := (world (K := K)).
Implicit Types w : world.
Implicit Types B : gset Z.
Implicit Types f : MappedFile.

(** ** Resizing *)

Lemma SyncFileSize_keeps newSize w : wp (SyncFileSize newSize) (fun _ w' => file w' = file w /\ mapped (kernel w') = mapped (kernel w)) w.
Proof.
  unfold SyncFileSize. mms. destruct (_ <? _); mms; [|done]. destruct (stat_size _ _); mms; [|done].
  destruct (_ <=? _); mms; [done|]. apply call_keeps; [intros k; apply ftruncate_frame|]. intros ok w' Ef (Ek & _). done.
Qed.

Lemma own_same B w w' : own B w -> file w' = file w -> mapped (kernel w') = mapped (kernel w) -> own B w'.
Proof. intros [H1 H2 H3 H4] Ef Ek. split; rewrite ?Ef; try done. by rewrite Ek. Qed.

Lemma remap_spec B w newSize : own B w -> isMapped_ (file w) = true ->
  wp (remap newSize) (fun _ w' => own B w') w.
Proof.
  intros Ho Em. destruct (own_mapped _ _ Ho Em) as (Hn & Hpos & a & Hs & Hd & He & Hal). unfold remap. mms.
  apply (wp_nonnull _ a); [done|]. mms.
  assert (region (file w) = pages a (u64 (size_ (file w)))) as Er by (unfold region; by rewrite Hs).
  pose proof (own_pages _ _ Ho) as Hp. pose proof (own_apart _ _ Ho) as Hap. rewrite Er in Hp, Hap.
  apply wp_call. intros [b|] k E; mms.
  - destruct (mremap_some _ _ _ _ _ _ E) as (Hpos' & Hal' & Hap' & Hk). rewrite Hp in Hap', Hk.
    assert ((B ∪ pages a (u64 (size_ (file w)))) ∖ pages a (u64 (size_ (file w))) = B) as EB by set_solver.
    rewrite EB in Hap', Hk. split; cbn [file kernel isMapped_ isNormed_ size_ rStart_ data_ rEnd_ set_region set_size set_segment].
    + intros _. split; [done|]. split; [done|]. by exists b.
    + by rewrite Em.
    + exact Hap'.
    + exact Hk.
  - apply (own_same B w); [done|done|]. cbn. by rewrite (mremap_none _ _ _ _ _ E).
Qed.

Lemma Resize_to_spec B w newSize sync : own B w -> wp (Resize_to newSize sync) (fun _ w' => own B w') w.
Proof.
  intros Ho. unfold Resize_to. mms.
  assert (exists n, forall Q : Z -> world -> Prop, Q n w ->
    wp (if newSize =? DEFAULT_LENGTH then st ← ask (stat_size (path_ (file w))); mret (default PageSize st) else mret newSize) Q w)
    as (n & Hn) by (destruct (newSize =? DEFAULT_LENGTH); eexists; intros Q HQ; mms; exact HQ).
  apply Hn. mms. destruct (_ || _); mms; [done|]. destruct (isMapped_ (file w)) eqn:Em; mms; [|done].
  destruct sync; mms.
  - eapply wp_mono; [apply SyncFileSize_keeps|]. cbn beta. intros ok w1 (Ef & Ek). mms.
    assert (own B w1) as Ho1 by by apply (own_same B w). destruct ok; mms; [|done].
    apply remap_spec; [done|by rewrite Ef].
  - destruct (stat_size _ _) as [n'|]; mms; [|done]. destruct (ValidMappedSize _ _ _) as [[] size]; mms; [|done].
    by apply remap_spec.
Qed.

(** ** Changing parameters and clearing *)

Lemma release_spec B w : own B w -> wp release_region (fun ok w' => ok = true /\ unmapped (file w') /\ mapped (kernel w') = B) w.
Proof.
  intros Ho. unfold release_region. mms. destruct (isMapped_ (file w)) eqn:Em; mms.
  - eapply wp_mono; [by apply (Unmap_spec B)|]. cbn beta. intros res w' (_ & Hu & HB & _ & ->). mms. by rewrite Em.
  - by destruct (unmapped_of_own _ _ Ho Em).
Qed.

(** The shape of the [Change] functions. *)
Lemma change_spec B w (g : MappedFile -> MappedFile) :
  (forall f, same_region f (g f)) -> own B w ->
  wp (ok ← release_region; if (ok : bool) then upd g;; mret true else mret false) (fun _ w' => own B w') w.
Proof.
  intros Hg Ho. mms. eapply wp_mono; [by apply release_spec|]. cbn beta. intros ok w' (-> & Hu & HB). mms.
  apply own_of_unmapped; [|done]. cbn. by eapply same_region_unmapped.
Qed.

Lemma close_fd_spec w : wp close_fd (fun _ w' => file w' = file w /\ mapped (kernel w') = mapped (kernel w)) w.
Proof.
  unfold close_fd. mms. destruct (_ =? _); mms; [done|]. apply call_keeps; [apply close_frame|]. intros ok w' Ef (Ek & _). done.
Qed.

Lemma ChangePath_spec B w val : own B w -> wp (ChangePath val) (fun _ w' => own B w') w.
Proof.
  intros Ho. unfold ChangePath. mms. case_bool_decide; mms; [done|].
  eapply wp_mono; [by apply release_spec|]. cbn beta. intros ok w1 (-> & Hu & HB). mms.
  eapply wp_mono; [apply close_fd_spec|]. cbn beta. intros ok w2 (Ef & Ek).
  destruct ok; mms; apply own_of_unmapped; cbn; rewrite ?Ef; try done; congruence.
Qed.

Lemma Clear_spec B w force : own B w -> wp (Clear force) (fun _ w' => unmapped (file w') /\ mapped (kernel w') = B) w.
Proof.
  intros Ho. unfold Clear. mms.
  assert (wp (if isMapped_ (file w) then Unmap else mret MAPPED_FILE_ERR_OK)
    (fun res w' => unmapped (file w') /\ mapped (kernel w') = B /\ res = MAPPED_FILE_ERR_OK) w) as Hu.
  { destruct (isMapped_ (file w)) eqn:Em.
    - eapply wp_mono; [by apply (Unmap_spec B)|]. cbn beta. intros res w' (_ & Hu & HB & _ & ->). by rewrite Em.
    - mms. destruct (unmapped_of_own _ _ Ho Em). done. }
  eapply wp_mono; [exact Hu|]. cbn beta. intros res w1 (Hu1 & HB1 & ->).
  change (MAPPED_FILE_ERR_OK =? MAPPED_FILE_ERR_OK) with true. cbn [negb]. rewrite !andb_false_r. mms.
  eapply wp_mono; [apply close_fd_spec|]. cbn beta. intros ok w2 (Ef & Ek).
  destruct ok; unfold Reset; mms; [split; [done|congruence]|]. rewrite Ef. split; [done|congruence].
Qed.

Lemma dtor_spec B w : own B w -> wp MappedFile_dtor (fun _ w' => mapped (kernel w') = B) w.
Proof.
  intros Ho. unfold MappedFile_dtor. mms.
  assert (wp (if isMapped_ (file w) then Unmap;; mret tt else mret tt) (fun _ w' => mapped (kernel w') = B) w) as Hu.
  { destruct (isMapped_ (file w)) eqn:Em; mms; [|by destruct (unmapped_of_own _ _ Ho Em)].
    eapply wp_mono; [by apply (Unmap_spec B)|]. cbn beta. by intros res w' (_ & _ & HB & _). }
  eapply wp_mono; [exact Hu|]. cbn beta. intros _ w1 HB1. mms.
  eapply wp_mono; [apply close_fd_spec|]. cbn beta. intros ok w2 (_ & Ek). mms. congruence.
Qed.

(** ** Programs of a client *)

Inductive op :=
| DoNormalize | DoMap | DoUnmap | DoResize | DoResizeTo (newSize : Z) (sync : bool) | DoClear (force : bool)
| DoChangeOffset (val : Z) | DoChangeSize (val : Z) | DoChangePath (val : list Z)
| DoChangeHint (val : option Z) | DoChangeMode (val : Z).

Definition exec (o : op) : ST world unit :=
  match o with
  | DoNormalize => Normalize;; mret tt
  | DoMap => Map_;; mret tt
  | DoUnmap => Unmap;; mret tt
  | DoResize => Resize;; mret tt
  | DoResizeTo newSize sync => Resize_to newSize sync;; mret tt
  | DoClear force => Clear force;; mret tt
  | DoChangeOffset val => ChangeOffset val;; mret tt
  | DoChangeSize val => ChangeSize val;; mret tt
  | DoChangePath val => ChangePath val;; mret tt
  | DoChangeHint val => ChangeHint val;; mret tt
  | DoChangeMode val => ChangeMode val;; mret tt
  end.
Fixpoint use (ops : list op) : ST world unit :=
  match ops with [] => mret tt | o :: ops => exec o;; use ops end.

Lemma mapped_exec_spec B o w : own B w -> wp (exec o) (fun _ w' => own B w') w.
Proof.
  intros Ho.
  assert (forall {A} (m : ST world A), wp m (fun _ w' => own B w') w -> wp (m;; mret tt) (fun _ w' => own B w') w) as Hm.
  { intros A m Hw. mms. eapply wp_mono; [exact Hw|]. cbn beta. intros a w' Hw'. by mms. }
  destruct o; cbn [exec]; apply Hm.
  - destruct (isMapped_ (file w)) eqn:Em.
    + destruct (own_mapped _ _ Ho Em) as (Hn & _). unfold Normalize. mms. by rewrite Hn.
    + destruct (unmapped_of_own _ _ Ho Em) as [Hu HB]. eapply wp_mono; [apply Normalize_spec|]. cbn beta.
      intros res w' (Ek & R & _). apply own_of_unmapped; [by eapply same_region_unmapped|congruence].
  - eapply wp_mono; [by apply Map_spec|]. by intros res w' [? _].
  - eapply wp_mono; [by apply Unmap_spec|]. by intros res w' [? _].
  - unfold Resize. mms. destruct (isMapped_ (file w)) eqn:Em; [by mms|]. eapply wp_mono; [by apply Map_spec|]. by intros res w' [? _].
  - by apply Resize_to_spec.
  - eapply wp_mono; [by apply Clear_spec|]. cbn beta. intros res w' [Hu HB]. by apply own_of_unmapped.
  - unfold ChangeOffset. mms. destruct (_ =? _); [by mms|]. by apply change_spec.
  - unfold ChangeSize. mms. destruct (_ && _); [|by mms]. by apply change_spec.
  - by apply ChangePath_spec.
  - unfold ChangeHint. mms. case_bool_decide; [by mms|]. by apply change_spec.
  - unfold ChangeMode. mms. destruct (_ =? _); [by mms|]. by apply change_spec.
Qed.

Lemma mapped_use_spec B ops w : own B w -> wp (use ops) (fun _ w' => own B w') w.
Proof.
  revert w. induction ops as [|o ops IH]; intros w Ho; cbn [use]; mms; [done|].
  eapply wp_mono; [by apply mapped_exec_spec|]. cbn beta. intros _ w1 Ho1. by apply IH.
Qed.
End programs.

(** ** Walking through a file *)

Section turning.
Context {K : Type} `{MmanLaws K}.
Notation world := (world (K := K)).
Implicit Types w : world.
Implicit Types f : MappedFile.

(** The segment [data_], [size_] lies in the mapped region. *)
Definition segment_ok f : Prop :=
  isMapped_ f = true /\ isNormed_ f = true /\ 0 < size_ f /\
  exists a d e, rStart_ f = Some a /\ data_ f = Some d /\ rEnd_ f = Some e /\ a <= d /\ d + size_ f - 1 <= e.

(** The segment of [f'] lies right behind that of [f] in the region of [f] and
    is as long as it was, or as what is left of the region. *)
Definition follows f f' : Prop :=
  rStart_ f' = rStart_ f /\ rEnd_ f' = rEnd_ f /\ exists d e, data_ f = Some d /\ rEnd_ f = Some e /\
  data_ f' = Some (d + size_ f) /\ size_ f' = Z.min (size_ f) (e - (d + size_ f - 1)).

(** The segment of [w'] begins a region that [mmap] was asked for, with the
    parameters the object now has, and that goes at most to the end of the
    file. *)
Definition remapped w w' : Prop :=
  (exists a, data_ (file w') = Some a /\ rStart_ (file w') = Some a /\ placed_at a w') /\
  forall n, stat_size (path_ (file w)) (kernel w) = Some n -> offset_ (file w') + size_ (file w') <= n.

Lemma RoundSize_ge n : 0 <= n -> n <= RoundSize (K := K) n.
Proof.
  intros Hn. assert (0 < PageSize (K := K)) as HP by apply page_size_pos. unfold RoundSize. generalize dependent (PageSize (K := K)).
  intros P HP. destruct (_ =? _); [lia|]. rewrite Z.quot_div_nonneg by lia.
  pose proof (Z.mod_pos_bound n P HP). pose proof (Z.div_mod n P). nia.
Qed.

Lemma own_segment B w : own B w -> isMapped_ (file w) = true -> 0 < size_ (file w) -> segment_ok (file w).
Proof.
  intros Ho Em Hs. destruct (own_mapped _ _ Ho Em) as (Hn & _ & a & Ha & Hd & He & _).
  split; [done|]. split; [done|]. split; [done|]. exists a, a, (a + RoundSize (size_ (file w)) - 1).
  split_and!; try done. pose proof (RoundSize_ge (size_ (file w)) ltac:(lia)). lia.
Qed.

Lemma Unmap_plain w a : isMapped_ (file w) = true -> rStart_ (file w) = Some a ->
  wp Unmap (fun res w' => (res = MAPPED_FILE_ERR_OK /\ file w' = set_region None None None false (file w)) \/
                          (res <> MAPPED_FILE_ERR_OK /\ file w' = file w)) w.
Proof.
  intros Em Ha. unfold Unmap. mms. rewrite Em. mms. apply (wp_nonnull _ a); [done|]. mms.
  apply wp_call. intros [] k E; mms; [by left|by right].
Qed.

Lemma TurnNext_spec w : segment_ok (file w) -> wp TurnNext (fun res w' =>
  if decide (res = MAPPED_FILE_ERR_OK)
  then segment_ok (file w') /\ offset_ (file w') = EndOffset (file w) + 1 /\ size_ (file w') <= size_ (file w) /\
       if decide (End_ (file w) = rEnd_ (file w)) then remapped w w' else follows (file w) (file w') /\ kernel w' = kernel w
  else offset_ (file w') = offset_ (file w) /\ size_ (file w') = size_ (file w) /\
       hint_ (file w') = hint_ (file w) /\ isNormed_ (file w') = true) w.
Proof.
  intros (Em & En & Hs & a & d & e & Ha & Hd & He & Had & Hde). unfold TurnNext. mms. rewrite En. mms.
  assert (EndOffset (file w) = offset_ (file w) + size_ (file w) - 1) as EE.
  { unfold EndOffset, DEFAULT_LENGTH. by destruct (Z.eqb_spec (size_ (file w)) (-1)); [lia|]. }
  assert (End_ (file w) = Some (d + size_ (file w) - 1)) as EEnd by (unfold End_; by rewrite Hd).
  destruct (stat_size _ _) as [st_size|] eqn:Est; mms; [|by rewrite decide_False].
  destruct (Z.leb_spec st_size (EndOffset (file w) + 1)) as [Hst|Hst]; mms; [by rewrite decide_False|].
  rewrite Em. mms. apply (wp_nonnull _ (d + size_ (file w) - 1)); [done|]. mms.
  apply (wp_nonnull _ e); [done|]. mms. apply (wp_nonnull _ d); [done|]. mms.
  destruct (Z.eqb_spec (d + size_ (file w) - 1) e) as [Ee|Ee].
  - set (size2 := if st_size <? EndOffset (file w) + 1 + size_ (file w) then st_size - EndOffset (file w) - 1 else size_ (file w)).
    assert (0 < size2 <= size_ (file w) /\ EndOffset (file w) + 1 + size2 <= st_size) as [Hsize2 Hfile] by (unfold size2; case_bool; lia).
    assert (forall Q : unit -> world -> Prop, Q tt {| file := set_size size2 (file w); kernel := kernel w |} ->
      wp (if st_size <? EndOffset (file w) + 1 + size_ (file w) then upd (set_size (st_size - EndOffset (file w) - 1)) else mret tt) Q w) as Hw.
    { intros Q. unfold size2. destruct (_ <? _); mms; [done|]. intros HQ.
      assert ({| file := set_size (size_ (file w)) (file w); kernel := kernel w |} = w) as E by (by destruct w as [[] ?]).
      by rewrite E in HQ. }
    mms. apply Hw. mms. eapply wp_mono; [by apply (Unmap_plain _ a)|]. cbn beta. cbn [file].
    intros res w1 [(-> & Ef1)|(Hres & Ef1)].
    + change (MAPPED_FILE_ERR_OK =? MAPPED_FILE_ERR_OK) with true. unfold Resize. mms. rewrite Ef1. cbn [isMapped_ set_region]. mms.
      assert (own (mapped (kernel w1)) w1) as Ho by (apply own_of_unmapped; [rewrite Ef1|]; done).
      eapply wp_mono; [by apply Map_spec|]. cbn beta. intros res w2 (Ho2 & Hmap).
      destruct (Hmap ltac:(by rewrite Ef1)) as [Hoff Hres]. rewrite Ef1 in Hoff, Hres. cbn in Hoff, Hres.
      destruct (Z.eqb_spec res MAPPED_FILE_ERR_OK) as [->|Hne]; mms.
      * rewrite decide_True in * by done. destruct Hres as (Hm2 & Hsz & Hpl). specialize (Hsz ltac:(lia)).
        split; [apply (own_segment _ _ Ho2 Hm2); lia|]. split; [rewrite Hoff, EE; lia|]. split; [lia|].
        rewrite decide_True by congruence. split; [done|]. intros n En2. rewrite Est in En2. injection En2 as <-. rewrite Hoff. lia.
      * by rewrite decide_False.
    + destruct (Z.eqb_spec res MAPPED_FILE_ERR_OK); [done|]. mms.
      destruct (Z.eqb_spec res MAPPED_FILE_ERR_OK); [done|]. mms. by rewrite decide_False.
  - set (size2 := if e <? d + size_ (file w) - 1 + size_ (file w) then e - (d + size_ (file w) - 1) else size_ (file w)).
    assert (0 < size2 <= size_ (file w) /\ d + size_ (file w) + size2 - 1 <= e /\
            size2 = Z.min (size_ (file w)) (e - (d + size_ (file w) - 1))) as (Hsize2 & Hend & Emin) by (unfold size2; case_bool; lia).
    assert (forall Q : unit -> world -> Prop, Q tt {| file := set_size size2 (file w); kernel := kernel w |} ->
      wp (if e <? d + size_ (file w) - 1 + size_ (file w) then upd (set_size (e - (d + size_ (file w) - 1))) else mret tt) Q w) as Hw.
    { intros Q. unfold size2. destruct (_ <? _); mms; [done|]. intros HQ.
      assert ({| file := set_size (size_ (file w)) (file w); kernel := kernel w |} = w) as E by (by destruct w as [[] ?]).
      by rewrite E in HQ. }
    mms. apply Hw. mms. rewrite decide_True by done. split; [|split; [cbn; rewrite EE; lia|split; [cbn; lia|]]].
    + split; [done|]. split; [done|]. split; [cbn; lia|]. exists a, (d + size_ (file w)), e.
      cbn [file rStart_ data_ rEnd_ size_ set_region set_offset set_segment set_size]. split_and!; try done. lia.
    + rewrite decide_False by (rewrite EEnd, He; congruence). split; [|done]. split; [done|]. split; [done|]. by exists d, e.
Qed.
End turning.

(** ** The theorems *)

(** C24: A mapped file owns exactly what it has mapped. After any calls with any
    outcome in the kernel the pages of the process are those of others and the
    one region [rStart_] to [rEnd_] of the object, which nobody else uses, and
    destroying the object gives all of it back. [TurnNext] is not among the
    calls. *)
Theorem mapped_file_owns_its_region {K} `{MmanLaws K} (path : list Z) (mode offset size : Z) (hint : option Z)
    (k : K) (ops : list op) :
  exists w, use ops {| file := MappedFile_ctor path mode offset size hint; kernel := k |} = Some (tt, w) /\
    own (mapped k) w /\
    exists w', MappedFile_dtor w = Some (tt, w') /\ mapped (kernel w') = mapped k.
Proof.
  assert (own (mapped k) {| file := MappedFile_ctor path mode offset size hint; kernel := k |}) as Ho by by apply own_of_unmapped.
  pose proof (mapped_use_spec _ ops _ Ho) as Hu. apply wp_elim in Hu as ([] & w & E & Hw). exists w. split; [done|]. split; [done|].
  pose proof (dtor_spec _ _ Hw) as Hd. apply wp_elim in Hd as ([] & w' & E' & Hk). by exists w'.
Qed.

(** C25: [TurnNext] on a mapped file moves to the segment of the file that
    begins right behind the current one and is not longer, and the segment lies
    in the mapped region again. While the region is not used up, its address
    moves behind the old segment in the same region and nothing is asked of the
    kernel; at the end of the region [mmap] is asked for a new one at the new
    offset, which does not reach beyond the end of the file. When [TurnNext]
    fails the parameters are what they were. *)
Theorem TurnNext_advances {K} `{MmanLaws K} (w : world (K := K)) :
  segment_ok (file w) -> exists res w', TurnNext w = Some (res, w') /\
  if decide (res = MAPPED_FILE_ERR_OK)
  then segment_ok (file w') /\ offset_ (file w') = EndOffset (file w) + 1 /\ size_ (file w') <= size_ (file w) /\
       if decide (End_ (file w) = rEnd_ (file w)) then remapped w w' else follows (file w) (file w') /\ kernel w' = kernel w
  else offset_ (file w') = offset_ (file w) /\ size_ (file w') = size_ (file w) /\
       hint_ (file w') = hint_ (file w) /\ isNormed_ (file w') = true.
Proof. intros Hs. by apply wp_elim, TurnNext_spec. Qed.

(** ** A kernel with one file *)

Record demo_kernel := { file_size : option Z; used : gset Z; stat_fails : bool }.

Definition top (X : gset Z) : Z := foldr Z.max 0 (elements X).
Definition demo_pages (a n : Z) : gset Z := list_to_set (seqZ (a / 4096) ((n + 4096 - 1) / 4096)).
Definition with_used (k : demo_kernel) (X : gset Z) : demo_kernel :=
  {| file_size := file_size k; used := X; stat_fails := stat_fails k |}.
Definition with_length (k : demo_kernel) (n : option Z) : demo_kernel :=
  {| file_size := n; used := used k; stat_fails := stat_fails k |}.
Definition place (n : Z) (k : demo_kernel) : option Z * demo_kernel :=
  if n <=? 0 then (None, k)
  else let a := (top (used k) + 1) * 4096 in (Some a, with_used k (used k ∪ demo_pages a n)).

#[export] Instance demo_mman : Mman demo_kernel := {
  PageSize := 4096;
  realpath p k := if file_size k is Some _ then inl p else inr ENOENT;
  access_ok p k := bool_decide (is_Some (file_size k));
  stat_size p k := if stat_fails k then None else file_size k;
  open p fl k := (7, with_length k (Some (default 0 (file_size k))));
  close fd k := (true, k);
  unlink p k := with_length k None;
  ftruncate fd n k := (true, with_length k (Some n));
  mmap h n p fl fd off k := place n k;
  munmap a n k := if (0 <? n) && (a mod 4096 =? 0) then (true, with_used k (used k ∖ demo_pages a n)) else (false, k);
  mremap a old new k :=
    if new <=? 0 then (None, k) else place new (with_used k (used k ∖ demo_pages a old));
}.

Lemma top_spec X x : x ∈ X -> x <= top X.
Proof.
  unfold top. rewrite <- elem_of_elements. induction (elements X) as [|y l IH]; [by intros ?%elem_of_nil|].
  intros [->|Hx]%elem_of_cons; cbn [foldr]; [lia|]. specialize (IH Hx). lia.
Qed.

Lemma place_spec n k a k' : place n k = (Some a, k') ->
  0 < n /\ a mod 4096 = 0 /\ demo_pages a n ## used k /\ used k' = used k ∪ demo_pages a n.
Proof.
  unfold place. destruct (Z.leb_spec n 0); [done|]. intros [= <- <-]. split; [done|].
  split; [by apply Z.mod_mul|]. split; [|done].
  intros x Hx Hu. apply top_spec in Hu. unfold demo_pages in Hx. apply elem_of_list_to_set, elem_of_seqZ in Hx.
  rewrite Z.div_mul in Hx by done. lia.
Qed.

#[export] Instance demo_mman_laws : MmanLaws demo_kernel.
Proof.
  refine {| mapped := used |}; try done.
  - intros h n p fl fd off k k'. cbn. unfold place. destruct (_ <=? _); by intros [= <-].
  - intros h n p fl fd off k a k'. apply place_spec.
  - intros a n k Hn Ha Hp. eexists. cbn. destruct (Z.ltb_spec 0 n); [|lia].
    cbn in Ha. rewrite Ha. split; [reflexivity|done].
  - intros a old new k k'. cbn. unfold place. destruct (_ <=? _); by intros [= <-].
  - intros a old new k b k'. cbn. destruct (_ <=? _); [done|]. apply place_spec.
Defined.

Definition demo_boot (n : option Z) : demo_kernel := {| file_size := n; used := {[5]}; stat_fails := false |}.

Lemma mapped_file_owns_its_region_witness : exists w,
  use [DoMap; DoResizeTo 9000 true; DoChangeOffset 4096; DoMap]
    {| file := MappedFile_ctor [47] DEFAULT 0 3000 None; kernel := demo_boot (Some 9000) |} = Some (tt, w) /\
  own {[5]} w /\ exists w', MappedFile_dtor w = Some (tt, w') /\ mapped (kernel w') = {[5]}.
Proof.
  exact (mapped_file_owns_its_region [47] DEFAULT 0 3000 None (demo_boot (Some 9000))
           [DoMap; DoResizeTo 9000 true; DoChangeOffset 4096; DoMap]).
Defined.

Lemma TurnNext_advances_witness : exists w,
  use [DoMap] {| file := MappedFile_ctor [47] DEFAULT 0 3000 None; kernel := demo_boot (Some 9000) |} = Some (tt, w) /\
  size_ (file w) = 3000 /\
  exists res w', TurnNext w = Some (res, w') /\
  if decide (res = MAPPED_FILE_ERR_OK)
  then segment_ok (file w') /\ offset_ (file w') = EndOffset (file w) + 1 /\ size_ (file w') <= size_ (file w) /\
       if decide (End_ (file w) = rEnd_ (file w)) then remapped w w' else follows (file w) (file w') /\ kernel w' = kernel w
  else offset_ (file w') = offset_ (file w) /\ size_ (file w') = size_ (file w) /\
       hint_ (file w') = hint_ (file w) /\ isNormed_ (file w') = true.
Proof.
  destruct (use [DoMap] {| file := MappedFile_ctor [47] DEFAULT 0 3000 None; kernel := demo_boot (Some 9000) |})
    as [[[] w]|] eqn:E; [|vm_compute in E; discriminate E].
  assert (size_ (file w) = 3000 /\ segment_ok (file w)) as [Hsz Hs].
  { vm_compute in E. injection E as <-. split; [reflexivity|]. split; [reflexivity|]. split; [reflexivity|]. split; [reflexivity|].
    do 3 eexists. split; [reflexivity|]. split; [reflexivity|]. split; [reflexivity|]. split; cbn; lia. }
  exists w. split; [reflexivity|]. split; [exact Hsz|]. exact (TurnNext_advances w Hs).
Defined.

(** [TurnNext] shrinks [size_] before it unmaps the old region with it: of a
    region of two pages the second stays mapped for ever. *)
Example TurnNext_leaks : exists w w' w'',
  use [DoMap] {| file := MappedFile_ctor [47] DEFAULT 0 8192 None; kernel := demo_boot (Some 12288) |} = Some (tt, w) /\
  TurnNext w = Some (MAPPED_FILE_ERR_OK, w') /\ MappedFile_dtor w' = Some (tt, w'') /\
  elements (mapped (kernel w'')) = [7; 5].
Proof.
  do 3 eexists. split; [vm_compute; reflexivity|]. split; [vm_compute; reflexivity|]. split; [vm_compute; reflexivity|].
  vm_compute. reflexivity.
Qed.

(** [Resize] after [TurnNext] goes back to the start of the region but keeps
    the offset that [TurnNext] advanced. *)
Example Resize_after_TurnNext : exists w w' w'',
  use [DoMap] {| file := MappedFile_ctor [47] DEFAULT 0 3000 None; kernel := demo_boot (Some 9000) |} = Some (tt, w) /\
  TurnNext w = Some (MAPPED_FILE_ERR_OK, w') /\ Resize_to 2000 true w' = Some (MAPPED_FILE_ERR_OK, w'') /\
  data_ (file w'') = rStart_ (file w'') /\ offset_ (file w'') = 3000.
Proof.
  do 3 eexists. split; [vm_compute; reflexivity|]. split; [vm_compute; reflexivity|]. split; [vm_compute; reflexivity|].
  vm_compute. done.
Qed.

(** When [stat] fails the log promises a mapping of one page, but the size
    zero that is left in [stb] makes [Normalize] fail. *)
Example failing_stat_is_fatal :
  fst <$> Normalize {| file := MappedFile_ctor [47] DEFAULT 0 DEFAULT_LENGTH None;
                       kernel := {| file_size := Some 9000; used := ∅; stat_fails := true |} |} = Some ERR_INVALID_VALUE.
Proof. vm_compute. reflexivity. Qed.
