(* ===== verification/EventReactor.v ===== *)
(** * The event loop of a timer ([base/src/event_reactor.cpp],
      [event_demultiplexer.cpp], [event_handler.cpp], [timer_event_handler.cpp])

    Timer handlers live on a heap and are owned by shared pointers: those of
    the reactor's list, of the demultiplexer's map and of the task queue of
    [Polling]. The last one that goes destroys the handler and closes its
    descriptor. The kernel is a parameter. *)

From stdpp Require Import sorting.
From S2P Require Import Prelude Errors.

Record timespec := { tv_sec : Z; tv_nsec : Z }.
Record itimerspec := { it_interval : timespec; it_value : timespec }.

(** What the code uses of Linux; an error is its [errno]. *)
Class TimerSys (K : Type) := {
  epoll_create1 : K -> Z * K;
  epoll_ctl : Z -> Z -> Z -> Z -> K -> option Z * K;      (** operation, descriptor and events; [None] on success *)
  epoll_wait : Z -> Z -> Z -> K -> (list (Z * Z) + Z) * K; (** descriptors and events *)
  close : Z -> K -> K;
  timerfd_create : K -> Z * K;
  timerfd_settime : Z -> itimerspec -> K -> bool * K;     (** with [TFD_TIMER_ABSTIME] *)
  clock_gettime : K -> option timespec;                   (** [CLOCK_MONOTONIC] *)
  read8 : Z -> K -> (Z * Z) * K;                          (** the bytes read and [errno] *)
}.

(** Linux. *)
Definition EPOLLIN : Z := 1.
Definition EPOLLPRI : Z := 2.
Definition EPOLLRDHUP : Z := 0x2000.
Definition EPOLL_CTL_ADD : Z := 1.
Definition EPOLL_CTL_DEL : Z := 2.
Definition EPOLL_CTL_MOD : Z := 3.

Definition EPOLL_CRITICAL_ERROR : Z := -10.
Definition NONE_EVENT : Z := 0.
Definition READ_EVENT : Z := 1.

Definition EPOLL_MAX_EVENS_INIT : Z := 8.
Definition HALF_OF_MAX_EVENT : Z := 2.
Definition EPOLL_INVALID_FD : Z := -1.
Definition EPOLL_ERROR_BADF : Z := 9.
Definition EPOLL_ERROR_EINVAL : Z := 22.
Definition QUEUE_MAX_SIZE : Z := 10.

Definition INVALID_TIMER_FD : Z := -1.
Definition MILLI_TO_BASE : Z := 1000.
Definition NANO_TO_BASE : Z := 1000000000.
Definition MILLI_TO_NANO : Z := Z.quot NANO_TO_BASE MILLI_TO_BASE.

(** The functions handed to [ScheduleTimer]: the one of [Timer::DoRegister],
    which ends in [OnTimer], and the pseudo-task of [Timer::Shutdown]. *)
Inductive timer_callback := OnTimerCallback | PseudoTask.

(** [EventHandler] and [TimerEventHandler]. The read callback is always
    [TimeOut]; [initInfo_] is only logged. *)
Record TimerEventHandler := {
  fd_ : Z;
  events_ : Z;
  readCallback_ : bool;
  once_ : bool;
  interval_ : Z;
  callback_ : option timer_callback;
}.

Record EventDemultiplexer := {
  epollFd_ : Z;
  maxEvents_ : Z;
  eventHandlers_ : gmap Z Z;
  epollCtlErrQueue_ : list (Z * Z * Z);
}.

Record EventReactor := {
  loopReady_ : bool;
  switch_ : bool;
  timerEventHandlers_ : list Z;
}.

(** The reactor with its demultiplexer, the heap, the task queue of [Polling]
    and the kernel. *)
Record reactor_state {K} := {
  reactor : EventReactor;
  demux : EventDemultiplexer;
  handlers : gmap Z TimerEventHandler;
  taskQue : list (Z * Z);
  kernel : K;
}.
Arguments reactor_state : clear implicits.

Definition set_events (e : Z) (h : TimerEventHandler) : TimerEventHandler :=
  {| fd_ := fd_ h; events_ := e; readCallback_ := readCallback_ h; once_ := once_ h; interval_ := interval_ h;
     callback_ := callback_ h |}.
Definition set_read_callback (b : bool) (h : TimerEventHandler) : TimerEventHandler :=
  {| fd_ := fd_ h; events_ := events_ h; readCallback_ := b; once_ := once_ h; interval_ := interval_ h;
     callback_ := callback_ h |}.
Definition set_timer_callback (cb : timer_callback) (h : TimerEventHandler) : TimerEventHandler :=
  {| fd_ := fd_ h; events_ := events_ h; readCallback_ := readCallback_ h; once_ := once_ h; interval_ := interval_ h;
     callback_ := Some cb |}.
Definition set_epollFd (fd : Z) (d : EventDemultiplexer) : EventDemultiplexer :=
  {| epollFd_ := fd; maxEvents_ := maxEvents_ d; eventHandlers_ := eventHandlers_ d; epollCtlErrQueue_ := epollCtlErrQueue_ d |}.
Definition set_maxEvents (n : Z) (d : EventDemultiplexer) : EventDemultiplexer :=
  {| epollFd_ := epollFd_ d; maxEvents_ := n; eventHandlers_ := eventHandlers_ d; epollCtlErrQueue_ := epollCtlErrQueue_ d |}.
Definition set_eventHandlers (m : gmap Z Z) (d : EventDemultiplexer) : EventDemultiplexer :=
  {| epollFd_ := epollFd_ d; maxEvents_ := maxEvents_ d; eventHandlers_ := m; epollCtlErrQueue_ := epollCtlErrQueue_ d |}.
Definition set_errQueue (q : list (Z * Z * Z)) (d : EventDemultiplexer) : EventDemultiplexer :=
  {| epollFd_ := epollFd_ d; maxEvents_ := maxEvents_ d; eventHandlers_ := eventHandlers_ d; epollCtlErrQueue_ := q |}.
Definition set_loopReady (b : bool) (r : EventReactor) : EventReactor :=
  {| loopReady_ := b; switch_ := switch_ r; timerEventHandlers_ := timerEventHandlers_ r |}.
Definition set_switch (b : bool) (r : EventReactor) : EventReactor :=
  {| loopReady_ := loopReady_ r; switch_ := b; timerEventHandlers_ := timerEventHandlers_ r |}.
Definition set_timerEventHandlers (l : list Z) (r : EventReactor) : EventReactor :=
  {| loopReady_ := loopReady_ r; switch_ := switch_ r; timerEventHandlers_ := l |}.

Section event_reactor.
Context {K : Type} `{TimerSys K}.
Notation world := (reactor_state K).
Notation RM := (ST (reactor_state K)).

Definition upd_reactor (f : EventReactor -> EventReactor) : RM unit := st_put (fun w =>
  {| reactor := f (reactor w); demux := demux w; handlers := handlers w; taskQue := taskQue w; kernel := kernel w |}).
Definition upd_demux (f : EventDemultiplexer -> EventDemultiplexer) : RM unit := st_put (fun w =>
  {| reactor := reactor w; demux := f (demux w); handlers := handlers w; taskQue := taskQue w; kernel := kernel w |}).
Definition upd_heap (f : gmap Z TimerEventHandler -> gmap Z TimerEventHandler) : RM unit := st_put (fun w =>
  {| reactor := reactor w; demux := demux w; handlers := f (handlers w); taskQue := taskQue w; kernel := kernel w |}).
Definition set_tasks (q : list (Z * Z)) : RM unit := st_put (fun w =>
  {| reactor := reactor w; demux := demux w; handlers := handlers w; taskQue := q; kernel := kernel w |}).
Definition call {A} (g : K -> A * K) : RM A := fun w =>
  let '(a, k) := g (kernel w) in
  Some (a, {| reactor := reactor w; demux := demux w; handlers := handlers w; taskQue := taskQue w; kernel := k |}).

(** The object behind a pointer. *)
Definition load (h : Z) : RM TimerEventHandler := st_access (fun w => handlers w !! h).
Definition modify (h : Z) (f : TimerEventHandler -> TimerEventHandler) : RM unit := upd_heap (alter f h).

(** ** Life time *)

Definition new_handler (x : TimerEventHandler) : RM Z :=
  h ← st_get (fun w => fresh (dom (handlers w)));
  upd_heap (fun m => <[h := x]> m);;
  mret h.

Definition TimerEventHandler_ctor (timeout : Z) (once : bool) : RM Z :=
  fd ← call timerfd_create;
  new_handler {| fd_ := fd; events_ := NONE_EVENT; readCallback_ := false; once_ := once; interval_ := timeout;
                 callback_ := None |}.

Definition TimerEventHandler_dtor (h : Z) : RM unit :=
  x ← load h;
  call (fun k => (tt, close (fd_ x) k));;
  upd_heap (delete h).

(** Whether a shared pointer to [h] is left. *)
Definition owned (w : world) (h : Z) : bool :=
  bool_decide (h ∈ timerEventHandlers_ (reactor w)) || bool_decide (h ∈ (map_to_list (eventHandlers_ (demux w))).*2) ||
  bool_decide (h ∈ (taskQue w).*1).
(** A shared pointer to [h] has gone. *)
Definition release (h : Z) : RM unit :=
  o ← st_get (fun w => owned w h);
  if (o : bool) then mret tt else TimerEventHandler_dtor h.

(** ** EventDemultiplexer *)

Definition Epoll2Reactor (epollEvents : Z) : Z :=
  if negb (Z.land epollEvents (Z.lor EPOLLIN (Z.lor EPOLLPRI EPOLLRDHUP)) =? 0) then READ_EVENT else NONE_EVENT.

Definition Reactor2Epoll (reactorEvent : Z) : Z :=
  if reactorEvent =? NONE_EVENT then TIMER_ERR_OK
  else if reactorEvent =? READ_EVENT then Z.lor EPOLLIN EPOLLPRI
  else TIMER_ERR_DEAL_FAILED.

Definition StartUp : RM Z :=
  fd ← st_get (fun w => epollFd_ (demux w));
  if fd <? 0 then
    fd ← call epoll_create1;
    upd_demux (set_epollFd fd);;
    mret (if fd <? 0 then TIMER_ERR_BADF else TIMER_ERR_OK)
  else mret TIMER_ERR_OK.

Definition EventDemultiplexer_CleanUp : RM unit :=
  fd ← st_get (fun w => epollFd_ (demux w));
  if negb (fd =? EPOLL_INVALID_FD)
  then call (fun k => (tt, close fd k));; upd_demux (set_epollFd EPOLL_INVALID_FD)
  else mret tt.

Definition Update (operation h : Z) : RM Z :=
  x ← load h;
  d ← st_get demux;
  err ← call (epoll_ctl (epollFd_ d) operation (fd_ x) (Reactor2Epoll (events_ x)));
  match err with
  | Some errno =>
      (if zlen (epollCtlErrQueue_ d) <? QUEUE_MAX_SIZE
       then upd_demux (fun d => set_errQueue (epollCtlErrQueue_ d ++ [(operation, errno, fd_ x)]) d)
       else mret tt);;
      mret TIMER_ERR_DEAL_FAILED
  | None => mret TIMER_ERR_OK
  end.

Definition EventDemultiplexer_UpdateEventHandler (h : Z) : RM Z :=
  x ← load h;
  m ← st_get (fun w => eventHandlers_ (demux w));
  match m !! fd_ x with
  | None =>
      upd_demux (set_eventHandlers (<[fd_ x := h]> m));;
      Update EPOLL_CTL_ADD h
  | Some found =>
      if events_ x =? NONE_EVENT then
        upd_demux (set_eventHandlers (delete (fd_ x) m));;
        release found;;
        Update EPOLL_CTL_DEL h
      else if negb (h =? found) then mret TIMER_ERR_DEAL_FAILED
      else Update EPOLL_CTL_MOD h
  end.

(** The part of [Polling] before the callbacks, in two steps: [epoll_wait],
    and the look-up of the handlers under the lock. *)
Inductive poll_result := PollNothing | PollFailed (result : Z) | PollEvents (evs : list (Z * Z)).

Definition Polling_wait (timeout : Z) : RM poll_result :=
  d ← st_get demux;
  r ← call (epoll_wait (epollFd_ d) (maxEvents_ d) timeout);
  match r with
  | inl [] => mret PollNothing
  | inl evs => mret (PollEvents evs)
  | inr errno =>
      if (errno =? EPOLL_ERROR_BADF) || (errno =? EPOLL_ERROR_EINVAL)
      then mret (PollFailed EPOLL_CRITICAL_ERROR) else mret (PollFailed (-1))
  end.

Fixpoint Polling_collect (evs : list (Z * Z)) : RM unit :=
  match evs with
  | [] => mret tt
  | (targetFd, events) :: evs =>
      w ← st_get id;
      match eventHandlers_ (demux w) !! targetFd with
      | Some h => set_tasks (taskQue w ++ [(h, events)])
      | None => upd_demux (set_errQueue [])
      end;;
      Polling_collect evs
  end.

(** The end of [Polling], with the destruction of its task queue. *)
Fixpoint release_tasks (q : list (Z * Z)) : RM unit :=
  match q with
  | [] => mret tt
  | (h, _) :: q => set_tasks q;; release h;; release_tasks q
  end.

Definition Polling_end (nfds : Z) : RM unit :=
  d ← st_get demux;
  (if nfds =? maxEvents_ d then upd_demux (set_maxEvents (maxEvents_ d * HALF_OF_MAX_EVENT)) else mret tt);;
  q ← st_get taskQue;
  release_tasks q.

(** ** EventReactor and EventHandler *)

(** The handler's reactor is the only one. *)
Definition EventReactor_UpdateEventHandler (h : Z) : RM unit :=
  EventDemultiplexer_UpdateEventHandler h;; mret tt.

Definition EnableRead (h : Z) : RM unit :=
  modify h (fun x => set_events (Z.lor (events_ x) READ_EVENT) x);;
  EventReactor_UpdateEventHandler h.
Definition DisableAll (h : Z) : RM unit :=
  modify h (set_events NONE_EVENT);;
  EventReactor_UpdateEventHandler h.

Definition EventReactor_SetUp : RM Z :=
  ret ← StartUp;
  if negb (ret =? 0) then mret ret
  else upd_reactor (set_loopReady true);; mret TIMER_ERR_OK.

(** ** TimerEventHandler *)

(** [newValue] of [Initialize]. *)
Definition timer_spec (now : timespec) (interval : Z) (once : bool) : itimerspec :=
  let sec := tv_sec now + Z.quot interval MILLI_TO_BASE in
  let nsec := tv_nsec now + u32 (Z.rem interval MILLI_TO_BASE * MILLI_TO_NANO) in
  {| it_value := if NANO_TO_BASE <=? nsec
                 then {| tv_sec := sec + 1; tv_nsec := Z.rem nsec NANO_TO_BASE |}
                 else {| tv_sec := sec; tv_nsec := nsec |};
     it_interval := if once then {| tv_sec := 0; tv_nsec := 0 |}
                    else {| tv_sec := Z.quot interval MILLI_TO_BASE;
                            tv_nsec := u32 (Z.rem interval MILLI_TO_BASE * MILLI_TO_NANO) |} |}.

Definition Initialize (h : Z) : RM Z :=
  x ← load h;
  if fd_ x =? INVALID_TIMER_FD then mret TIMER_ERR_INVALID_VALUE
  else
    now ← st_get (fun w => clock_gettime (kernel w));
    match now with
    | None => mret TIMER_ERR_DEAL_FAILED
    | Some now =>
        ok ← call (timerfd_settime (fd_ x) (timer_spec now (interval_ x) (once_ x)));
        if negb ok then mret TIMER_ERR_DEAL_FAILED
        else
          modify h (set_read_callback true);;
          EnableRead h;;
          mret TIMER_ERR_OK
    end.

Definition Uninitialize (h : Z) : RM unit := DisableAll h.

(** What [HandleEvents] leads to: the callback of the timer and its
    descriptor, when there is one to run. *)
Definition TimeOut (h : Z) : RM (option (timer_callback * Z)) :=
  x ← load h;
  if fd_ x =? INVALID_TIMER_FD then mret None
  else
    '(n, errnoRead) ← call (read8 (fd_ x));
    if negb (n =? 8) && (errnoRead =? EAGAIN) then mret None
    else mret ((fun cb => (cb, fd_ x)) <$> callback_ x).

Definition HandleEvents (h events : Z) : RM (option (timer_callback * Z)) :=
  x ← load h;
  if negb (Z.land events READ_EVENT =? 0) && readCallback_ x then TimeOut h else mret None.

(** ** Scheduling *)

(** The result and the new value of [timerFd]. *)
Definition ScheduleTimer (cb : timer_callback) (interval timerFd : Z) (once : bool) : RM (Z * Z) :=
  h ← TimerEventHandler_ctor interval once;
  modify h (set_timer_callback cb);;
  ret ← Initialize h;
  if negb (ret =? TIMER_ERR_OK) then release h;; mret (ret, timerFd)
  else
    x ← load h;
    upd_reactor (fun r => set_timerEventHandlers (timerEventHandlers_ r ++ [h]) r);;
    mret (TIMER_ERR_OK, fd_ x).

(** The loop of [CancelTimer] over the rest of the list; [before] was passed. *)
Fixpoint CancelTimer_loop (timerFd : Z) (before rest : list Z) : RM unit :=
  match rest with
  | [] => mret tt
  | h :: rest =>
      x ← load h;
      if fd_ x =? timerFd then
        Uninitialize h;;
        upd_reactor (set_timerEventHandlers (before ++ rest));;
        release h
      else CancelTimer_loop timerFd (before ++ [h]) rest
  end.
Definition CancelTimer (timerFd : Z) : RM unit :=
  l ← st_get (fun w => timerEventHandlers_ (reactor w));
  CancelTimer_loop timerFd [] l.

Fixpoint CleanUp_loop (l : list Z) : RM unit :=
  match l with
  | [] => mret tt
  | h :: l => Uninitialize h;; CleanUp_loop l
  end.
Definition CleanUp : RM unit :=
  l ← st_get (fun w => timerEventHandlers_ (reactor w));
  CleanUp_loop l.

(** [~EventReactor]: the list, then the demultiplexer with its map. *)
Fixpoint release_list (l : list Z) : RM unit :=
  match l with
  | [] => mret tt
  | h :: l => upd_reactor (set_timerEventHandlers l);; release h;; release_list l
  end.
Fixpoint release_map (fds : list Z) : RM unit :=
  match fds with
  | [] => mret tt
  | fd :: fds =>
      m ← st_get (fun w => eventHandlers_ (demux w));
      match m !! fd with
      | Some h => upd_demux (set_eventHandlers (delete fd m));; release h
      | None => mret tt
      end;;
      release_map fds
  end.
(** The keys of a [std::map] in its order. *)
Definition keys {V} (m : gmap Z V) : list Z := merge_sort Z.le (elements (dom m)).

Definition EventReactor_dtor : RM unit :=
  l ← st_get (fun w => timerEventHandlers_ (reactor w));
  release_list l;;
  EventDemultiplexer_CleanUp;;
  m ← st_get (fun w => eventHandlers_ (demux w));
  release_map (keys m).

(** [new EventReactor()]: the reactor with the demultiplexer it creates. *)
Definition EventReactor_ctor (k : K) : reactor_state K :=
  let '(fd, k) := epoll_create1 k in
  {| reactor := {| loopReady_ := false; switch_ := false; timerEventHandlers_ := [] |};
     demux := {| epollFd_ := fd; maxEvents_ := EPOLL_MAX_EVENS_INIT; eventHandlers_ := ∅; epollCtlErrQueue_ := [] |};
     handlers := ∅; taskQue := []; kernel := k |}.
End event_reactor.
