(* ===== verification/EventReactorInv.v ===== *)
(** * The objects of an event loop

    [rinv X B r]: the handlers on the heap are those with an owner or with a
    local pointer in [X]; they have descriptors of their own, and besides those
    and the one of the demultiplexer only [B] is open. The alarms of the
    reactor are what its users see of it.
    The second part shows that the operations of the loop keep this. *)

From stdpp Require Import sorting.
From S2P Require Import Prelude Errors EventReactor.

(** What the kernel documents about descriptors, about the setting of a timer
    and about the events that an epoll descriptor watches another one for. A
    call on a descriptor spares the others. *)
Definition spares {K} (timer_setting : K -> Z -> option itimerspec) (interest : K -> Z -> Z -> option Z) (fd : Z) (k k' : K) : Prop :=
  (forall f, f <> fd -> timer_setting k' f = timer_setting k f) /\
  (forall e f, e <> fd -> f <> fd -> interest k' e f = interest k e f).
Class TimerSysLaws (K : Type) `{TimerSys K} := {
  open_fds : K -> gset Z;
  timer_setting : K -> Z -> option itimerspec;   (** as [timerfd_settime] has left it *)
  interest : K -> Z -> Z -> option Z;            (** the events watched, of an epoll and another descriptor *)
  epoll_create1_law k fd k' : epoll_create1 k = (fd, k') ->
    (fd = -1 /\ open_fds k' = open_fds k) \/ (0 <= fd /\ fd ∉ open_fds k /\ open_fds k' = {[fd]} ∪ open_fds k);
  timerfd_create_law k fd k' : timerfd_create k = (fd, k') ->
    (fd = -1 /\ open_fds k' = open_fds k) \/ (0 <= fd /\ fd ∉ open_fds k /\ open_fds k' = {[fd]} ∪ open_fds k);
  close_law fd k : open_fds (close fd k) = open_fds k ∖ {[fd]};
  epoll_ctl_frame e op fd ev k : open_fds (snd (epoll_ctl e op fd ev k)) = open_fds k;
  epoll_wait_frame e n t k : open_fds (snd (epoll_wait e n t k)) = open_fds k;
  timerfd_settime_frame fd s k : open_fds (snd (timerfd_settime fd s k)) = open_fds k;
  read8_frame fd k : open_fds (snd (read8 fd k)) = open_fds k;
  epoll_create1_spares k fd k' : epoll_create1 k = (fd, k') -> spares timer_setting interest fd k k';
  timerfd_create_spares k fd k' : timerfd_create k = (fd, k') ->
    spares timer_setting interest fd k k' /\ (0 <= fd -> forall e, interest k' e fd = None);
  close_spares fd k : spares timer_setting interest fd k (close fd k);
  epoll_ctl_spares e op fd ev k r k' : epoll_ctl e op fd ev k = (r, k') -> spares timer_setting interest fd k k' /\
    timer_setting k' fd = timer_setting k fd /\ (r = None -> op = EPOLL_CTL_ADD -> interest k' e fd = Some ev);
  timerfd_settime_spares fd s k ok k' : timerfd_settime fd s k = (ok, k') -> spares timer_setting interest fd k k' /\
    (forall e, interest k' e fd = interest k e fd) /\ (ok = true -> timer_setting k' fd = Some s);
  epoll_wait_timers e n t k f : let k' := snd (epoll_wait e n t k) in
    timer_setting k' f = timer_setting k f /\ forall e', interest k' e' f = interest k e' f;
  read8_timers fd k f : let k' := snd (read8 fd k) in
    timer_setting k' f = timer_setting k f /\ forall e', interest k' e' f = interest k e' f;
}.

(** A kernel that has an epoll descriptor when it is asked for one, and refuses
    to watch a descriptor only when it already does. *)
Definition willing (K : Type) `{TimerSysLaws K} : Prop :=
  (forall k, 0 <= fst (epoll_create1 k)) /\
  (forall e fd ev k, 0 <= e -> 0 <= fd -> interest k e fd = None -> fst (epoll_ctl e EPOLL_CTL_ADD fd ev k) = None).

(** A timer as the users of the reactor see it. *)
Record alarm := { a_fd : Z; a_once : bool; a_interval : Z; a_callback : option timer_callback }.
Definition alarm_of (x : TimerEventHandler) : alarm :=
  {| a_fd := fd_ x; a_once := once_ x; a_interval := interval_ x; a_callback := callback_ x |}.

Lemma wp_sys {K A} (g : K -> A * K) (Q : A -> reactor_state K -> Prop) w :
  (forall a k, g (kernel w) = (a, k) ->
     Q a {| reactor := reactor w; demux := demux w; handlers := handlers w; taskQue := taskQue w; kernel := k |}) ->
  wp (call g) Q w.
Proof. unfold wp, call. destruct (g (kernel w)) as [a k] eqn:E. auto. Qed.

Section objects.
Context {K : Type} `{TimerSysLaws K}.
Notation world := (reactor_state K).
Implicit Types w : world.
Implicit Types B : gset Z.
Implicit Types X : list Z.

Definition listed w : list Z := timerEventHandlers_ (reactor w).
Definition mapped w : gmap Z Z := eventHandlers_ (demux w).

Definition alarms w : list alarm := omap (fun h => alarm_of <$> handlers w !! h) (listed w).

Definition has_owner w (h : Z) : Prop :=
  h ∈ listed w \/ (exists fd, mapped w !! fd = Some h) \/ h ∈ (taskQue w).*1.
Lemma owned_spec w h : owned w h = true <-> has_owner w h.
Proof.
  unfold owned, has_owner, listed, mapped. rewrite !orb_true_iff, !bool_decide_eq_true.
  assert (h ∈ (map_to_list (eventHandlers_ (demux w))).*2 <-> exists fd, eventHandlers_ (demux w) !! fd = Some h) as ->; [|tauto].
  rewrite list_elem_of_fmap. split.
  - intros ([fd y] & -> & Hy). exists fd. by apply elem_of_map_to_list.
  - intros [fd Hfd]. exists (fd, h). split; [done|]. by apply elem_of_map_to_list.
Qed.

Record rinv X B w : Prop := {
  ri_owned : forall h, is_Some (handlers w !! h) <-> has_owner w h \/ h ∈ X;
  ri_list : NoDup (listed w);
  ri_map : forall fd h, mapped w !! fd = Some h -> exists x, handlers w !! h = Some x /\ fd_ x = fd;
  ri_inj : forall h h' x x', handlers w !! h = Some x -> handlers w !! h' = Some x' -> fd_ x = fd_ x' -> h = h';
  ri_fd : forall h x, handlers w !! h = Some x -> 0 <= fd_ x /\ fd_ x ∉ B /\ fd_ x <> epollFd_ (demux w);
  ri_open : forall fd, fd ∈ open_fds (kernel w) <->
    fd ∈ B \/ (0 <= fd /\ fd = epollFd_ (demux w)) \/ exists h x, handlers w !! h = Some x /\ fd_ x = fd;
  ri_epoll : epollFd_ (demux w) ∉ B /\ -1 <= epollFd_ (demux w);
  ri_others : forall fd, fd ∈ B -> 0 <= fd;
}.

(** The timer is set for the interval, from a time that the clock has shown,
    and the demultiplexer watches it, if the kernel was willing. *)
Definition ticking w (x : TimerEventHandler) : Prop :=
  (exists k now, clock_gettime k = Some now /\
     timer_setting (kernel w) (fd_ x) = Some (timer_spec now (interval_ x) (once_ x))) /\
  (willing K -> interest (kernel w) (epollFd_ (demux w)) (fd_ x) = Some (Z.lor EPOLLIN EPOLLPRI)).

(** Every handler of the list waits for its timer. *)
Definition armed w : Prop := (willing K -> 0 <= epollFd_ (demux w)) /\ forall h x, h ∈ listed w -> handlers w !! h = Some x ->
  (mapped w !! fd_ x = Some h /\ events_ x = READ_EVENT /\ readCallback_ x = true) /\ ticking w x.

Definition spared (fd : Z) w w' : Prop :=
  epollFd_ (demux w') = epollFd_ (demux w) /\ spares timer_setting interest fd (kernel w) (kernel w').
#[export] Instance spared_refl fd : Reflexive (spared fd).
Proof. by intros w. Qed.
#[export] Instance spared_trans fd : Transitive (spared fd).
Proof.
  intros w1 w2 w3 (E1 & T1 & I1) (E2 & T2 & I2). split; [congruence|]. split.
  - intros f Hf. by rewrite T2, T1.
  - intros e f He Hf. by rewrite I2, I1.
Qed.

Lemma ticking_spared fd w w' x : spared fd w w' -> (willing K -> epollFd_ (demux w) <> fd) -> fd_ x <> fd ->
  ticking w x -> ticking w' x.
Proof.
  intros (Ee & HT & HI) He Hx [(k & now & Hk & Hs) Hw]. split; [exists k, now; by rewrite HT|].
  intros Hwill. rewrite Ee, HI; auto.
Qed.

(** The objects and the open descriptors stay as they are. *)
Record same_objects w w' : Prop := {
  so_reactor : reactor w' = reactor w;
  so_handlers : handlers w' = handlers w;
  so_tasks : taskQue w' = taskQue w;
  so_map : mapped w' = mapped w;
  so_epoll : epollFd_ (demux w') = epollFd_ (demux w);
  so_open : open_fds (kernel w') = open_fds (kernel w);
  so_timers : forall f, timer_setting (kernel w') f = timer_setting (kernel w) f /\
    forall e, interest (kernel w') e f = interest (kernel w) e f;
}.
#[export] Instance same_objects_refl : Reflexive same_objects.
Proof. by intros w. Qed.
#[export] Instance same_objects_trans : Transitive same_objects.
Proof.
  intros w1 w2 w3 [] []. split; try congruence. intros f. destruct (so_timers0 f) as [T1 I1], (so_timers1 f) as [T2 I2].
  split; [congruence|]. intros e. by rewrite I2, I1.
Qed.

Lemma rinv_same X B w w' : same_objects w w' -> rinv X B w -> rinv X B w'.
Proof.
  intros [Er Eh Et Em Ee Eo _] [Io Il Im Ii If Ip Ie Ib].
  split; unfold has_owner, listed in *; rewrite ?Er, ?Eh, ?Et, ?Em, ?Ee, ?Eo; done.
Qed.
Lemma alarms_same w w' : same_objects w w' -> alarms w' = alarms w.
Proof. intros [Er Eh _ _ _ _ _]. unfold alarms, listed. by rewrite Er, Eh. Qed.
Lemma armed_same w w' : same_objects w w' -> armed w -> armed w'.
Proof.
  intros [Er Eh _ Em Ee _ Et]. unfold armed, ticking, listed. rewrite Er, Eh, Em, Ee. intros [He Ha]. split; [done|].
  intros h x Hh Hx. destruct (Et (fd_ x)) as [-> ->]. by apply (Ha h).
Qed.

Lemma alarm_in X B w a : rinv X B w -> a ∈ alarms w <-> exists h x, h ∈ listed w /\ handlers w !! h = Some x /\ alarm_of x = a.
Proof.
  intros Hi. unfold alarms. rewrite list_elem_of_omap. split.
  - intros (h & Hh & (x & Hx & ->)%fmap_Some). by exists h, x.
  - intros (h & x & Hh & Hx & <-). exists h. by rewrite Hx.
Qed.

Lemma alarms_distinct X B w a a' : rinv X B w -> a ∈ alarms w -> a' ∈ alarms w -> a_fd a = a_fd a' -> a = a'.
Proof.
  intros Hi. rewrite !(alarm_in _ _ _ _ Hi). intros (h & x & _ & Hx & <-) (h' & x' & _ & Hx' & <-) E.
  cbn in E. pose proof (ri_inj _ _ _ Hi _ _ _ _ Hx Hx' E). by simplify_eq.
Qed.

(** The handlers of the list are not touched by a call on another descriptor. *)
Lemma armed_spared fd X B w w' : rinv X B w -> (forall g, g ∈ listed w' -> g ∈ listed w /\ handlers w' !! g = handlers w !! g) ->
  (forall g x, g ∈ listed w' -> handlers w !! g = Some x -> fd_ x <> fd /\ mapped w' !! fd_ x = mapped w !! fd_ x) ->
  (0 <= epollFd_ (demux w) -> epollFd_ (demux w) <> fd) -> spared fd w w' -> armed w -> armed w'.
Proof.
  intros Hi Hl Hm He Hs [Hw Ha]. pose proof (proj1 Hs) as Ee. split; [intros Hwill; rewrite Ee; auto|].
  intros g x Hg Hx. destruct (Hl g Hg) as [Hg' Eg]. rewrite Eg in Hx. destruct (Hm g x Hg Hx) as [Hne Em].
  destruct (Ha g x Hg' Hx) as [Hreg Ht]. rewrite Em. split; [done|]. apply (ticking_spared fd w); auto.
Qed.

(** [rw'] is [rw] but for the events of [h]. *)
Lemma alarms_alter w w' h f : listed w' = listed w -> handlers w' = alter f h (handlers w) ->
  (forall x, alarm_of (f x) = alarm_of x) -> alarms w' = alarms w.
Proof.
  intros El Eh Hf. unfold alarms. rewrite El, Eh. apply list_omap_ext, Forall2_same_length_lookup. split; [done|].
  intros i a b -> [= ->]. destruct (decide (b = h)) as [->|Hne]; [|by rewrite lookup_alter_ne].
  rewrite lookup_alter_eq, <- option_fmap_compose. apply option_fmap_ext. intros x. apply Hf.
Qed.
End objects.

(** [rms] steps through a function of the reactor. *)
Ltac rms :=
  repeat (wps; match goal with
  | |- wp (load _) _ _ => unfold load
  | |- wp (upd_reactor _) _ _ => unfold upd_reactor
  | |- wp (upd_demux _) _ _ => unfold upd_demux
  | |- wp (upd_heap _) _ _ => unfold upd_heap
  | |- wp (modify _ _) _ _ => unfold modify
  | |- wp (set_tasks _) _ _ => unfold set_tasks
  end); wps.

Section operations.
Context {K : Type} `{TimerSysLaws K}.
Notation world := (reactor_state K).
Implicit Types w : world.
Implicit Types B : gset Z.
Implicit Types X : list Z.

(** A call that only the kernel's timers and events see. *)
Lemma wp_sys_same {A} (g : K -> A * K) (Q : A -> world -> Prop) w :
  open_fds (snd (g (kernel w))) = open_fds (kernel w) ->
  (forall f, timer_setting (snd (g (kernel w))) f = timer_setting (kernel w) f /\
     forall e, interest (snd (g (kernel w))) e f = interest (kernel w) e f) ->
  (forall a w', same_objects w w' -> kernel w' = snd (g (kernel w)) -> a = fst (g (kernel w)) -> Q a w') -> wp (call g) Q w.
Proof.
  intros Eo Et HQ. apply wp_sys. intros a k E. rewrite E in *. by apply HQ.
Qed.

Lemma wp_handler X B h (Q : TimerEventHandler -> world -> Prop) w : rinv X B w -> has_owner w h \/ h ∈ X ->
  (forall x, handlers w !! h = Some x -> Q x w) -> wp (load h) Q w.
Proof. intros Hi Ho HQ. apply (ri_owned _ _ _ Hi) in Ho as [x Hx]. by apply (wp_access _ x); auto. Qed.

(** [w'] is [w] with [h] in the map of the demultiplexer, or out of it. *)
Definition remapped (m : gmap Z Z) w w' : Prop :=
  reactor w' = reactor w /\ handlers w' = handlers w /\ taskQue w' = taskQue w /\ mapped w' = m /\
  epollFd_ (demux w') = epollFd_ (demux w) /\ open_fds (kernel w') = open_fds (kernel w).

(** The kernel has been told about one descriptor only, whose timer it leaves
    as it was. *)
Definition told (fd : Z) w w' : Prop :=
  spared fd w w' /\ timer_setting (kernel w') fd = timer_setting (kernel w) fd.
(** It watches a descriptor that it did not. *)
Definition watches (fd events : Z) w w' : Prop :=
  willing K -> 0 <= epollFd_ (demux w) -> 0 <= fd -> interest (kernel w) (epollFd_ (demux w)) fd = None ->
  interest (kernel w') (epollFd_ (demux w)) fd = Some events.

Lemma Update_spec operation h x w : handlers w !! h = Some x ->
  wp (Update operation h) (fun _ w' => remapped (mapped w) w w' /\ told (fd_ x) w w' /\
    (operation = EPOLL_CTL_ADD -> watches (fd_ x) (Reactor2Epoll (events_ x)) w w')) w.
Proof.
  intros Hx. unfold Update. rms. apply (wp_access _ x); [done|]. rms. apply wp_sys. intros err k E.
  pose proof (epoll_ctl_frame (epollFd_ (demux w)) operation (fd_ x) (Reactor2Epoll (events_ x)) (kernel w)) as Eo.
  rewrite E in Eo. cbn [snd] in Eo. destruct (epoll_ctl_spares _ _ _ _ _ _ _ E) as (Hs & Et & Hadd).
  assert (operation = EPOLL_CTL_ADD -> willing K -> 0 <= epollFd_ (demux w) -> 0 <= fd_ x ->
    interest (kernel w) (epollFd_ (demux w)) (fd_ x) = None -> interest k (epollFd_ (demux w)) (fd_ x) = Some (Reactor2Epoll (events_ x))) as Hw.
  { intros Hop Hwill He Hfd Hn. apply Hadd; [|done]. pose proof (proj2 Hwill _ _ (Reactor2Epoll (events_ x)) _ He Hfd Hn) as Hok.
    rewrite Hop in E. by rewrite E in Hok. }
  destruct err as [errno|]; rms; [destruct (_ <? _); rms|]; done.
Qed.

(** ** Releasing a pointer *)

Lemma release_handler_spec h X B w : rinv (h :: X) B w -> h ∉ X -> is_Some (handlers w !! h) ->
  wp (release h) (fun _ w' => rinv X B w' /\ reactor w' = reactor w /\ demux w' = demux w /\ taskQue w' = taskQue w /\
    handlers w' = (if owned w h then handlers w else delete h (handlers w)) /\ (owned w h = true -> w' = w) /\
    forall x, handlers w !! h = Some x -> spared (fd_ x) w w') w.
Proof.
  intros Hi HX [x Hx]. unfold release. rms. destruct (owned w h) eqn:Eo; rms.
  { split_and!; try done. destruct Hi as [Io ?]. split; [|done..]. intros g. rewrite Io. apply owned_spec in Eo. set_solver. }
  unfold TimerEventHandler_dtor. rms. apply (wp_access _ x); [done|]. rms. apply wp_sys. intros [] k [= <-]. rms. cbn.
  split_and!; try done; [|intros y Hy; assert (y = x) as -> by congruence; split; [done|apply close_spares]].
  assert (~ has_owner w h) as Hno by (rewrite <- owned_spec, Eo; done).
  destruct Hi as [Io Il Im Ii If Ip Ie Ib]. split; try done; cbn [handlers demux kernel].
  - intros g. change (has_owner _ g) with (has_owner w g). destruct (decide (g = h)) as [->|Hne].
    + rewrite lookup_delete_eq. split; [by intros []|]. intros [?|?]; done.
    + rewrite lookup_delete_ne by done. rewrite Io. set_solver.
  - intros fd g Hg. change (mapped w !! fd = Some g) in Hg. destruct (Im _ _ Hg) as (y & Hy & Hfd). exists y.
    rewrite lookup_delete_ne; [done|]. intros <-. apply Hno. right. left. by exists fd.
  - intros g g' y y' [_ Hg]%lookup_delete_Some [_ Hg']%lookup_delete_Some. by apply (Ii g g').
  - intros g y [_ Hg]%lookup_delete_Some. by apply (If g).
  - intros fd. rewrite close_law, elem_of_difference, elem_of_singleton, Ip. destruct (If _ _ Hx) as (Hf0 & HfB & Hfe).
    split.
    + intros [[?|[?|(g & y & Hg & Hfd)]] Hne]; [by left|by right; left|]. right. right. exists g, y.
      rewrite lookup_delete_ne; [done|]. intros <-. apply Hne. by simplify_eq.
    + intros [HB|[[? ->]|(g & y & [Hne Hg]%lookup_delete_Some & Hfd)]].
      * split; [by left|]. by intros ->.
      * split; [right; left; done|]. done.
      * split; [right; right; by exists g, y|]. intros ->. apply Hne. by apply (Ii h g x y).
Qed.

(** ** The demultiplexer *)

(** A map of live handlers that drops none but those of the list. *)
Lemma rinv_remap X B w m w' : rinv X B w -> remapped m w w' ->
  (forall fd i, m !! fd = Some i -> exists x, handlers w !! i = Some x /\ fd_ x = fd) ->
  (forall fd i, mapped w !! fd = Some i -> (exists fd', m !! fd' = Some i) \/ i ∈ listed w) -> rinv X B w'.
Proof.
  intros [Io Il Im Ii If Ip Ie Ib] (Er & Eh & Et & Ema & Ee & Eo) Hm Hback.
  split; unfold has_owner, listed in *; rewrite ?Er, ?Eh, ?Et, ?Ema, ?Ee, ?Eo; try done.
  intros i. split.
  - intros [[Hl|[[fd Hfd]|Ht]]|HX]%Io; [by left; left| |by left; right; right|by right].
    destruct (Hback _ _ Hfd) as [?|?]; left; [by right; left|by left].
  - intros [[Hl|[[fd Hfd]|Ht]]|HX]; [apply Io; by left; left| |apply Io; by left; right; right|apply Io; by right].
    apply Hm in Hfd as (x & Hx & _). by exists x.
Qed.

Lemma UpdateEventHandler_add h x w : handlers w !! h = Some x -> mapped w !! fd_ x = None ->
  wp (EventDemultiplexer_UpdateEventHandler h) (fun _ w' => remapped (<[fd_ x := h]> (mapped w)) w w' /\
    told (fd_ x) w w' /\ watches (fd_ x) (Reactor2Epoll (events_ x)) w w') w.
Proof.
  intros Hx Hm. unfold EventDemultiplexer_UpdateEventHandler. rms. apply (wp_access _ x); [done|]. rms.
  change (eventHandlers_ (demux w)) with (mapped w). rewrite Hm. rms.
  eapply wp_mono; [by apply (Update_spec _ _ x)|]. cbn beta. intros _ w' (Hr & Ht & Hw). split; [exact Hr|]. split; [exact Ht|exact (Hw eq_refl)].
Qed.

Lemma UpdateEventHandler_del h x X B w : rinv X B w -> handlers w !! h = Some x -> mapped w !! fd_ x = Some h ->
  events_ x = NONE_EVENT -> h ∈ listed w ->
  wp (EventDemultiplexer_UpdateEventHandler h) (fun _ w' => remapped (delete (fd_ x) (mapped w)) w w' /\
    told (fd_ x) w w') w.
Proof.
  intros Hi Hx Hm Hev Hl. unfold EventDemultiplexer_UpdateEventHandler. rms. apply (wp_access _ x); [done|]. rms.
  change (eventHandlers_ (demux w)) with (mapped w). rewrite Hm, Hev. rms. cbn [Z.eqb NONE_EVENT]. rms.
  unfold release. rms. rewrite (proj2 (owned_spec _ _)) by (by left). rms.
  eapply wp_mono; [by apply (Update_spec _ _ x)|]. cbn beta. intros _ w' (Hr & Ht & _). by split.
Qed.

(** Changing the events of a handler. *)
Lemma rinv_alter X B w h f : rinv X B w -> (forall x, fd_ (f x) = fd_ x) ->
  rinv X B {| reactor := reactor w; demux := demux w; handlers := alter f h (handlers w); taskQue := taskQue w;
              kernel := kernel w |}.
Proof.
  intros [Io Il Im Ii If Ip Ie Ib] Hf.
  assert (forall g y, alter f h (handlers w) !! g = Some y -> exists y', handlers w !! g = Some y' /\ fd_ y = fd_ y') as Hback.
  { intros g y. rewrite lookup_alter. destruct (decide (h = g)) as [<-|]; [|by exists y].
    intros (z & Hz & ->)%fmap_Some. exists z. by rewrite Hf. }
  assert (forall g y, handlers w !! g = Some y -> exists y', alter f h (handlers w) !! g = Some y' /\ fd_ y' = fd_ y) as Hforw.
  { intros g y Hg. rewrite lookup_alter. destruct (decide (h = g)) as [<-|]; [|by exists y].
    exists (f y). rewrite Hg, Hf. done. }
  split; try done; cbn [handlers kernel demux].
  - intros g. etrans; [|apply Io]. split; intros [y Hy].
    + apply Hback in Hy as (y' & ? & _). by exists y'.
    + apply Hforw in Hy as (y' & ? & _). by exists y'.
  - intros fd g Hg. apply Im in Hg as (y & Hy & <-). apply Hforw in Hy as (y' & ? & ?). by exists y'.
  - intros g g' y y' (z & Hz & ->)%Hback (z' & Hz' & ->)%Hback. by apply (Ii g g').
  - intros g y (z & Hz & ->)%Hback. by apply (If g).
  - intros fd. rewrite Ip. split; (intros [?|[?|(g & y & Hg & <-)]]; [by left|by right; left|right; right]).
    + apply Hforw in Hg as (z & ? & ?). by exists g, z.
    + apply Hback in Hg as (z & ? & ?). by exists g, z.
Qed.

(** [DisableAll] on a handler of the list: it leaves the map, or joins it when
    it was not there. *)
Lemma DisableAll_spec h x X B w : rinv X B w -> h ∈ listed w -> handlers w !! h = Some x ->
  wp (DisableAll h) (fun _ w' => rinv X B w' /\ reactor w' = reactor w /\ taskQue w' = taskQue w /\
    handlers w' = alter (set_events NONE_EVENT) h (handlers w) /\
    mapped w' = (if mapped w !! fd_ x is Some _ then delete (fd_ x) (mapped w) else <[fd_ x := h]> (mapped w)) /\
    spared (fd_ x) w w') w.
Proof.
  intros Hi Hl Hx. unfold DisableAll, EventReactor_UpdateEventHandler. rms.
  set (w1 := {| reactor := reactor w; demux := demux w; handlers := alter (set_events NONE_EVENT) h (handlers w);
                taskQue := taskQue w; kernel := kernel w |}).
  assert (handlers w1 !! h = Some (set_events NONE_EVENT x)) as Hx1 by (cbn; by rewrite lookup_alter_eq, Hx).
  assert (rinv X B w1) as Hi1 by by apply rinv_alter.
  assert (mapped w1 = mapped w) as Em by done.
  destruct (mapped w !! fd_ x) as [g|] eqn:Hm.
  - assert (g = h) as ->.
    { destruct (ri_map _ _ _ Hi _ _ Hm) as (y & Hy & Hfd). by apply (ri_inj _ _ _ Hi g h y x). }
    eapply wp_mono; [by eapply (UpdateEventHandler_del _ _ X B)|]. cbn beta. intros _ w' [Hr [Ht _]]. rms.
    split; [|by destruct Hr as (Er & Eh & Et & Ema & _)]. apply (rinv_remap X B w1 _ _ Hi1 Hr); cbn; rewrite Em.
    + intros fd i [_ Hfd]%lookup_delete_Some. by apply (ri_map _ _ _ Hi1).
    + intros fd i Hfd. destruct (decide (fd = fd_ x)) as [->|Hne]; [right; by simplify_eq|]. left. exists fd. by rewrite lookup_delete_ne.
  - eapply wp_mono; [by eapply (UpdateEventHandler_add _ (set_events NONE_EVENT x))|]. cbn beta. intros _ w' (Hr & [Ht _] & _). rms.
    split; [|by destruct Hr as (Er & Eh & Et & Ema & _)]. apply (rinv_remap X B w1 _ _ Hi1 Hr); cbn [fd_ set_events]; rewrite Em.
    + intros fd i [[<- <-]|[_ Hfd]]%lookup_insert_Some; [by exists (set_events NONE_EVENT x)|]. by apply (ri_map _ _ _ Hi1).
    + intros fd i Hfd. left. exists fd. rewrite lookup_insert_ne; [done|]. intros <-. congruence.
Qed.
End operations.
