(* ===== verification/EventReactorCalls.v ===== *)
(** * What the event loop offers to a timer

    [ScheduleTimer] adds an alarm with a descriptor of its own, [CancelTimer]
    takes the alarms of a descriptor away, the rest leaves the alarms alone. *)

From stdpp Require Import sorting.
From S2P Require Import Prelude Errors EventReactor EventReactorInv.

Section calls.
Context {K : Type} `{TimerSysLaws K}.
Notation world := (reactor_state K).
Implicit Types w : world.
Implicit Types B : gset Z.
Implicit Types X : list Z.

(** What no call of a timer changes. *)
Definition same_flags w w' : Prop :=
  loopReady_ (reactor w') = loopReady_ (reactor w) /\ switch_ (reactor w') = switch_ (reactor w) /\ taskQue w' = taskQue w.
#[export] Instance same_flags_refl : Reflexive same_flags.
Proof. by intros w. Qed.
#[export] Instance same_flags_trans : Transitive same_flags.
Proof. intros w1 w2 w3 (? & ? & ?) (? & ? & ?). unfold same_flags. split_and!; congruence. Qed.

(** ** Scheduling *)

Lemma not_mapped_fresh X B w h x : rinv X B w -> handlers w !! h = Some x -> ~ has_owner w h -> mapped w !! fd_ x = None.
Proof.
  intros Hi Hx Hno. destruct (mapped w !! fd_ x) as [g|] eqn:E; [|done]. exfalso. apply Hno. right. left. exists (fd_ x).
  destruct (ri_map _ _ _ Hi _ _ E) as (y & Hy & Hfd). by rewrite (ri_inj _ _ _ Hi h g x y).
Qed.

Lemma EnableRead_spec h x B w : rinv [h] B w -> handlers w !! h = Some x -> ~ has_owner w h -> events_ x = NONE_EVENT ->
  wp (EnableRead h) (fun _ w' => rinv [h] B w' /\ reactor w' = reactor w /\ taskQue w' = taskQue w /\
    handlers w' = alter (fun x => set_events (Z.lor (events_ x) READ_EVENT) x) h (handlers w) /\
    mapped w' = <[fd_ x := h]> (mapped w) /\ told (fd_ x) w w' /\ watches (fd_ x) (Z.lor EPOLLIN EPOLLPRI) w w') w.
Proof.
  intros Hi Hx Hno Hev. unfold EnableRead, EventReactor_UpdateEventHandler. rms.
  set (f := fun x => set_events (Z.lor (events_ x) READ_EVENT) x).
  assert (rinv [h] B {| reactor := reactor w; demux := demux w; handlers := alter f h (handlers w); taskQue := taskQue w;
              kernel := kernel w |}) as Hi1 by by apply rinv_alter.
  assert (mapped w !! fd_ x = None) as Hm by by eapply not_mapped_fresh.
  eapply wp_mono; [apply (UpdateEventHandler_add _ (f x)); cbn; [by rewrite lookup_alter_eq, Hx|done]|]. cbn beta. intros _ w' (Hr & Ht & Hw). rms.
  assert (Reactor2Epoll (events_ (f x)) = Z.lor EPOLLIN EPOLLPRI) as Ef by (cbn; by rewrite Hev). rewrite Ef in Hw.
  split; [|by destruct Hr as (Er & Eh & Et & Ema & _)]. apply (rinv_remap _ _ _ _ _ Hi1 Hr); cbn [fd_ set_events f].
  - intros fd i [[<- <-]|[_ Hfd]]%lookup_insert_Some; [|by apply (ri_map _ _ _ Hi1)].
    exists (f x). cbn. by rewrite lookup_alter_eq, Hx.
  - intros fd i Hfd. left. exists fd. rewrite lookup_insert_ne; [done|]. intros <-. change (mapped w !! fd_ x = Some i) in Hfd. congruence.
Qed.

(** The timer of a handler that nobody owns yet, on a descriptor that nobody
    watches. *)
Lemma Initialize_spec h x B w : rinv [h] B w -> handlers w !! h = Some x -> ~ has_owner w h -> events_ x = NONE_EVENT ->
  (forall e, interest (kernel w) e (fd_ x) = None) ->
  wp (Initialize h) (fun ret w' => rinv [h] B w' /\ reactor w' = reactor w /\ taskQue w' = taskQue w /\ spared (fd_ x) w w' /\
    if ret =? TIMER_ERR_OK
    then handlers w' = <[h := set_events READ_EVENT (set_read_callback true x)]> (handlers w) /\ mapped w' = <[fd_ x := h]> (mapped w) /\
         ((willing K -> 0 <= epollFd_ (demux w)) -> ticking w' x)
    else handlers w' = handlers w /\ mapped w' = mapped w) w.
Proof.
  intros Hi Hx Hno Hev Hint. unfold Initialize. rms. apply (wp_access _ x); [done|]. rms.
  destruct (Z.eqb_spec (fd_ x) INVALID_TIMER_FD) as [E|_].
  { destruct (ri_fd _ _ _ Hi _ _ Hx) as [? _]. unfold INVALID_TIMER_FD in E. lia. }
  rms. destruct (clock_gettime (kernel w)) as [now|] eqn:Enow; [|by rms].
  rms. apply wp_sys. intros ok k1 Eset. destruct (timerfd_settime_spares _ _ _ _ _ Eset) as (Hsp & Hint1 & Hset).
  set (w1 := {| reactor := reactor w; demux := demux w; handlers := handlers w; taskQue := taskQue w; kernel := k1 |}).
  assert (remapped (mapped w) w w1) as Hr1.
  { split_and!; try done. pose proof (timerfd_settime_frame (fd_ x) (timer_spec now (interval_ x) (once_ x)) (kernel w)) as Eo.
    by rewrite Eset in Eo. }
  assert (rinv [h] B w1) as Hi1 by (apply (rinv_remap _ _ _ _ _ Hi Hr1); [apply (ri_map _ _ _ Hi)|intros fd i Hfd; left; by exists fd]).
  assert (spared (fd_ x) w w1) as Hs1 by done.
  assert (reactor w1 = reactor w /\ handlers w1 = handlers w /\ taskQue w1 = taskQue w /\ mapped w1 = mapped w) as (Er & Eh & Et & Em) by done.
  destruct ok; rms; [|done].
  eapply wp_mono.
  { apply (EnableRead_spec h (set_read_callback true x)); [by apply rinv_alter| | |done].
    - cbn. by rewrite lookup_alter_eq, Hx.
    - done. }
  cbn beta. intros _ w2 (Hi2 & Er2 & Et2 & Eh2 & Em2 & [Hs2 Hset2] & Hw2). rms. cbn in Er2, Et2, Eh2. assert (mapped w2 = <[fd_ x := h]> (mapped w1)) as Em3 by exact Em2.
  change (TIMER_ERR_OK =? TIMER_ERR_OK) with true. cbn beta iota.
  assert ((willing K -> 0 <= epollFd_ (demux w)) -> ticking w2 x) as Htick.
  { intros Hwe. split; [exists (kernel w), now; split; [done|]; cbn in Hset2; rewrite Hset2; by apply Hset|].
    intros Hwill. rewrite (proj1 Hs2). apply Hw2; [done|by apply Hwe|by destruct (ri_fd _ _ _ Hi _ _ Hx)|]. cbn. by rewrite Hint1. }
  split_and!; [done|congruence|congruence|by transitivity w1| |by rewrite Em3, Em|done].
  rewrite Eh2. apply map_eq. intros g. destruct (decide (g = h)) as [->|Hne].
  - rewrite !lookup_alter_eq, lookup_insert_eq, Hx. cbn. by rewrite Hev.
  - by rewrite !lookup_alter_ne, lookup_insert_ne.
Qed.

(** Destroying what nobody owns. *)
Lemma release_local h x B w : rinv [h] B w -> handlers w !! h = Some x -> ~ has_owner w h ->
  wp (release h) (fun _ w' => rinv [] B w' /\ reactor w' = reactor w /\ demux w' = demux w /\ taskQue w' = taskQue w /\
    handlers w' = delete h (handlers w) /\ spared (fd_ x) w w') w.
Proof.
  intros Hi Hx Hno. eapply wp_mono; [by apply (release_handler_spec h [] B); [|set_solver|]|]. cbn beta.
  intros _ w' (Hi' & Er & Ed & Et & Eh & _ & Hs). destruct (owned w h) eqn:Eo; [by apply owned_spec in Eo|]. specialize (Hs x Hx). done.
Qed.

Lemma rinv_new B w k fd x : rinv [] B w -> 0 <= fd -> fd ∉ open_fds (kernel w) -> open_fds k = {[fd]} ∪ open_fds (kernel w) ->
  fd_ x = fd -> let h := fresh (dom (handlers w)) in
  rinv [h] B {| reactor := reactor w; demux := demux w; handlers := <[h := x]> (handlers w); taskQue := taskQue w; kernel := k |}.
Proof.
  intros [Io Il Im Ii If Ip Ie Ib] Hfd Hnew Ek Ex h.
  assert (handlers w !! h = None) as Hh by (apply not_elem_of_dom, is_fresh).
  assert (forall g y, handlers w !! g = Some y -> fd_ y <> fd) as Hfds.
  { intros g y Hg <-. apply Hnew, Ip. right. right. by exists g, y. }
  split; try done; cbn [handlers kernel demux].
  - intros g. change (has_owner _ g) with (has_owner w g). specialize (Io g). destruct (decide (g = h)) as [->|Hne].
    + rewrite lookup_insert_eq. split; [right; set_solver|by eexists].
    + rewrite lookup_insert_ne by done. set_solver.
  - intros f g Hg. apply Im in Hg as (y & Hy & <-). exists y. rewrite lookup_insert_ne; [done|]. intros <-. congruence.
  - intros g g' y y' [[<- <-]|[_ Hg]]%lookup_insert_Some [[<- <-]|[_ Hg']]%lookup_insert_Some E; [done| | |by apply (Ii g g' y y')].
    + exfalso. apply (Hfds _ _ Hg'). congruence.
    + exfalso. apply (Hfds _ _ Hg). congruence.
  - intros g y [[<- <-]|[_ Hg]]%lookup_insert_Some; [|by apply (If g)]. split_and!; [lia| |].
    + rewrite Ex. intros HB. apply Hnew, Ip. by left.
    + rewrite Ex. intros E. apply Hnew, Ip. right. left. lia.
  - intros f. rewrite Ek, elem_of_union, elem_of_singleton, Ip. split.
    + intros [->|[?|[?|(g & y & Hg & Hf)]]]; [right; right; exists h, x; by rewrite lookup_insert_eq|by left|by right; left|].
      right. right. exists g, y. rewrite lookup_insert_ne; [done|]. intros <-. congruence.
    + intros [?|[?|(g & y & [[<- <-]|[_ Hg]]%lookup_insert_Some & Hf)]]; [by right; left|by right; right; left|left; congruence|].
      right. right. right. by exists g, y.
Qed.

(** Pointers that change hands. *)
Lemma rinv_owners X X' B w w' : rinv X B w -> handlers w' = handlers w -> mapped w' = mapped w ->
  epollFd_ (demux w') = epollFd_ (demux w) -> open_fds (kernel w') = open_fds (kernel w) ->
  (forall h, has_owner w' h \/ h ∈ X' <-> has_owner w h \/ h ∈ X) -> NoDup (listed w') -> rinv X' B w'.
Proof.
  intros [Io Il Im Ii If Ip Ie Ib] Eh Em Ee Ek Ho Hl. split; rewrite ?Eh, ?Em, ?Ee, ?Ek; try done.
  intros h. by rewrite Ho, Io.
Qed.

(** A timer that is not started is destroyed again. *)
Lemma discard_spec h x B w0 w : rinv [h] B w -> handlers w !! h = Some x -> handlers w0 !! h = None ->
  ~ has_owner w h -> handlers w = <[h := x]> (handlers w0) -> reactor w = reactor w0 -> taskQue w = taskQue w0 ->
  mapped w = mapped w0 ->
  wp (release h) (fun _ w' => rinv [] B w' /\ reactor w' = reactor w0 /\ taskQue w' = taskQue w0 /\
    handlers w' = handlers w0 /\ mapped w' = mapped w0 /\ spared (fd_ x) w w') w.
Proof.
  intros Hi Hx Hh Hno Eh Er Et Em. eapply wp_mono; [by eapply release_local|]. cbn beta.
  intros _ w' (Hi' & Er' & Ed' & Et' & Eh' & Hs'). split_and!; [done|congruence|congruence| | |done].
  - rewrite Eh', Eh. by rewrite delete_insert_id.
  - unfold mapped in *. congruence.
Qed.

(** What a call leaves to the users of the reactor. *)
Lemma alarms_frame w w' : reactor w' = reactor w -> handlers w' = handlers w -> alarms w' = alarms w.
Proof. intros Er Eh. unfold alarms, listed. by rewrite Er, Eh. Qed.
(** A descriptor that was not open is nobody's. *)
Lemma armed_fresh fd X B w w' : rinv X B w -> fd ∉ open_fds (kernel w) \/ fd < 0 -> reactor w' = reactor w -> handlers w' = handlers w ->
  mapped w' = mapped w -> spared fd w w' -> armed w -> armed w'.
Proof.
  intros Hi Hfd Er Eh Em Hs. assert (listed w' = listed w) as El by (unfold listed; by rewrite Er).
  apply (armed_spared fd X B); [done| | | |done].
  - intros g. rewrite El, Eh. done.
  - intros g x _ Hx. split; [|by rewrite Em]. intros <-. destruct Hfd as [Hno|Hneg]; [|destruct (ri_fd _ _ _ Hi _ _ Hx); lia].
    apply Hno, (ri_open _ _ _ Hi). right. right. by exists g, x.
  - intros He <-. destruct Hfd as [Hno|Hneg]; [|lia]. apply Hno, (ri_open _ _ _ Hi). by right; left.
Qed.

Lemma ScheduleTimer_spec cb interval timerFd once B w : rinv [] B w ->
  wp (ScheduleTimer cb interval timerFd once) (fun r w' => rinv [] B w' /\ same_flags w w' /\ (armed w -> armed w') /\
    if r.1 =? TIMER_ERR_OK
    then 0 <= r.2 /\ Forall (fun a => a_fd a <> r.2) (alarms w) /\
         alarms w' = alarms w ++ [{| a_fd := r.2; a_once := once; a_interval := interval; a_callback := Some cb |}]
    else alarms w' = alarms w) w.
Proof.
  intros Hi. unfold ScheduleTimer, TimerEventHandler_ctor, new_handler. rms. apply wp_sys. intros fd k Ek. rms. cbn [reactor demux handlers taskQue kernel].
  set (h := fresh (dom (handlers w))). assert (handlers w !! h = None) as Hh by (apply not_elem_of_dom, is_fresh).
  assert (forall x w1, reactor w1 = reactor w -> taskQue w1 = taskQue w -> mapped w1 = mapped w ->
            rinv [] B w -> handlers w !! x = None -> ~ has_owner w1 x) as Hno.
  { intros x w1 Er Et Em Hw Hx Ho. assert (has_owner w x) as Ho' by (unfold has_owner, listed in *; by rewrite Er, Et, Em in Ho).
    assert (is_Some (handlers w !! x)) as [? ?] by (apply (ri_owned _ _ _ Hw); by left). congruence. }
  set (x0 := {| fd_ := fd; events_ := NONE_EVENT; readCallback_ := false; once_ := once; interval_ := interval; callback_ := Some cb |}).
  rewrite alter_insert_eq. change (set_timer_callback cb _) with x0.
  set (w1 := {| reactor := reactor w; demux := demux w; handlers := <[h := x0]> (handlers w); taskQue := taskQue w; kernel := k |}).
  assert (handlers w1 !! h = Some x0) as Hx0 by apply lookup_insert_eq.
  destruct (timerfd_create_spares _ _ _ Ek) as [Hsp Hint].
  apply timerfd_create_law in Ek as [(-> & Ek)|(Hfd & Hnew & Ek)].
  - unfold Initialize. rms. apply (wp_access _ x0); [done|]. rms. change (fd_ x0 =? INVALID_TIMER_FD) with true. rms.
    change (negb (TIMER_ERR_INVALID_VALUE =? TIMER_ERR_OK)) with true. rms.
    assert (owned w1 h = false) as Eo by (apply not_true_iff_false; rewrite owned_spec; by apply Hno).
    unfold release. rms. rewrite Eo. rms. unfold TimerEventHandler_dtor. rms. apply (wp_access _ x0); [done|]. rms.
    apply wp_sys. intros [] k' [= <-]. rms. cbn [handlers kernel reactor demux taskQue w1]. rewrite delete_insert_id by done.
    set (w2 := {| reactor := reactor w; demux := demux w; handlers := handlers w; taskQue := taskQue w; kernel := close (fd_ x0) k |}).
    assert (remapped (mapped w) w w2) as Hr.
    { split_and!; try done. cbn. rewrite close_law, Ek. apply set_eq. intros f. rewrite elem_of_difference, elem_of_singleton.
      split; [by intros []|]. intros Hf. split; [done|]. intros ->. apply (ri_open _ _ _ Hi) in Hf as [Hf|[Hf|(g & y & Hg & Hf)]].
      - apply (ri_others _ _ _ Hi) in Hf. lia.
      - lia.
      - destruct (ri_fd _ _ _ Hi _ _ Hg). lia. }
    split; [apply (rinv_remap _ _ _ _ _ Hi Hr); [apply (ri_map _ _ _ Hi)|intros f g Hf; left; by exists f]|]. split; [done|].
    split; [|done]. apply (armed_fresh (-1) [] B); try done; [by right|].
    transitivity w1; [by split|]. split; [done|]. apply close_spares.
  - assert (rinv [h] B w1) as Hi1 by by apply (rinv_new B w k fd x0).
    eapply wp_mono; [apply (Initialize_spec h x0 B); [done|done|by apply Hno|done|by apply Hint]|]. cbn beta.
    intros ret w2 (Hi2 & Er2 & Et2 & Hs2 & Hret). assert (spared fd w w2) as Hs by (transitivity w1; [by split|done]).
    destruct (Z.eqb_spec ret TIMER_ERR_OK) as [->|Hne]; rms.
    + destruct Hret as (Eh2 & Em2 & Htick). set (x2 := set_events READ_EVENT (set_read_callback true x0)) in *.
      cbn [w1 handlers] in Eh2. rewrite insert_insert_eq in Eh2.
      apply (wp_access _ x2); [rewrite Eh2; apply lookup_insert_eq|]. rms. change (TIMER_ERR_OK =? TIMER_ERR_OK) with true. cbn [fst snd].
      rewrite Er2, Et2. cbn [w1 reactor taskQue].
      set (w3 := {| reactor := set_timerEventHandlers (timerEventHandlers_ (reactor w) ++ [h]) (reactor w); demux := demux w2;
                    handlers := handlers w2; taskQue := taskQue w; kernel := kernel w2 |}).
      assert (h ∉ listed w) as Hl.
      { intros Hl. eapply (Hno h w); [done..|]. by left. }
      assert (forall g y, handlers w !! g = Some y -> handlers w2 !! g = Some y /\ fd_ y <> fd) as Hold.
      { intros g y Hg. split; [rewrite Eh2, lookup_insert_ne; [done|congruence]|]. intros Ef. apply Hnew, (ri_open _ _ _ Hi).
        right. right. by exists g, y. }
      assert (handlers w2 !! h = Some x2) as Hx2 by (rewrite Eh2; apply lookup_insert_eq).
      change (TIMER_ERR_OK =? TIMER_ERR_OK) with true. cbn beta iota.
      split_and!; try done.
      * apply (rinv_owners [h] [] B w2); try done.
        -- intros g. unfold has_owner, listed, mapped. cbn [w3 reactor demux taskQue set_timerEventHandlers timerEventHandlers_].
           rewrite Er2, Et2. cbn [w1 reactor taskQue]. set_solver.
        -- cbn. apply NoDup_app. split_and!; [apply (ri_list _ _ _ Hi)|set_solver|apply NoDup_singleton].
      * intros [Hwe Ha]. split; [intros Hwill; change (0 <= epollFd_ (demux w2)); rewrite (proj1 Hs); auto|].
        intros g y Hg Hy. change (mapped w3) with (mapped w2). change (handlers w2 !! g = Some y) in Hy. rewrite Em2. cbn [x0 fd_].
        change (g ∈ listed w ++ [h]) in Hg. apply elem_of_app in Hg as [Hg|Hg%list_elem_of_singleton].
        -- assert (handlers w !! g = Some y) as Hy' by (rewrite Eh2, lookup_insert_ne in Hy; [done|intros ->; done]).
           destruct (Hold _ _ Hy') as [_ Hf]. rewrite lookup_insert_ne by done. destruct (Ha g y Hg Hy') as [Hreg Ht]. split; [done|].
           apply (ticking_spared fd w w2 y Hs); [|done|done]. intros Hwill Efd. apply Hnew, (ri_open _ _ _ Hi).
           right; left. by split; [lia|].
        -- subst g. rewrite Hx2 in Hy. injection Hy as <-. rewrite lookup_insert_eq. split; [done|]. exact (Htick Hwe).
      * apply Forall_forall. intros a (g & y & Hg & Hy & <-)%(alarm_in _ _ _ _ Hi). cbn. by destruct (Hold _ _ Hy).
      * unfold alarms. change (listed w3) with (listed w ++ [h]). change (handlers w3) with (handlers w2). rewrite omap_app.
        cbn [omap list_omap]. rewrite Hx2. f_equal. apply list_omap_ext, Forall2_same_length_lookup. split; [done|].
        intros i g g' Hg Hg'. rewrite Hg in Hg'. injection Hg' as <-. assert (is_Some (handlers w !! g)) as [y Hy].
        { apply (ri_owned _ _ _ Hi). left. left. by eapply list_elem_of_lookup_2. }
        destruct (Hold _ _ Hy) as [-> _]. by rewrite Hy.
    + destruct Hret as [Eh2 Em2]. assert (same_flags w w2) as Hf by (unfold same_flags; by rewrite Er2, Et2).
      eapply wp_mono; [apply (discard_spec h x0 B w w2); try done; [by rewrite Eh2|by apply Hno]|]. cbn beta.
      intros _ w3 (Hi3 & Er3 & Et3 & Eh3 & Em3 & Hs3). rms. cbn [fst snd]. rewrite (proj2 (Z.eqb_neq ret TIMER_ERR_OK)) by done.
      split; [done|]. split; [unfold same_flags; by rewrite Er3, Et3|]. split; [|by apply alarms_frame].
      apply (armed_fresh fd [] B); try done; [by left|by transitivity w2].
Qed.

(** ** Cancelling *)

Lemma omap_cons {A C} (f : A -> option C) x l :
  omap (M := list) f (x :: l) = match f x with Some y => y :: omap f l | None => omap f l end.
Proof. done. Qed.

(** Taking the handler of a descriptor off the list. *)
Lemma alarms_drop X B w w' l1 l2 h x : rinv X B w -> listed w = l1 ++ h :: l2 -> handlers w !! h = Some x ->
  listed w' = l1 ++ l2 -> (forall g, g ∈ l1 ++ l2 -> handlers w' !! g = handlers w !! g) ->
  alarms w' = filter (fun a => a_fd a <> fd_ x) (alarms w).
Proof.
  intros Hi El Hx El' Hh. pose proof (ri_list _ _ _ Hi) as Hnd. rewrite El in Hnd.
  assert (h ∉ l1 ++ l2) as Hnot by (apply NoDup_app in Hnd as (_ & H1 & [H2 _]%NoDup_cons); set_solver).
  assert (forall l, (forall g, g ∈ l -> g ∈ l1 ++ l2) ->
    omap (M := list) (fun g => alarm_of <$> handlers w' !! g) l =
    filter (fun a => a_fd a <> fd_ x) (omap (M := list) (fun g => alarm_of <$> handlers w !! g) l)) as Hl.
  { induction l as [|g l IH]; intros Hin; [done|]. assert (g ∈ l1 ++ l2) as Hg by (apply Hin; set_solver).
    rewrite !omap_cons, Hh by done. assert (is_Some (handlers w !! g)) as [y Hy].
    { apply (ri_owned _ _ _ Hi). left. left. rewrite El. set_solver. }
    rewrite Hy. cbn [fmap option_fmap option_map].
    rewrite filter_cons_True; [by rewrite <- IH by (intros; apply Hin; set_solver)|].
    cbn. intros Ef. assert (g = h) as -> by (by apply (ri_inj _ _ _ Hi g h y x)). done. }
  unfold alarms. rewrite El, El', !omap_app, filter_app, omap_cons, Hx. cbn [fmap option_fmap option_map].
  rewrite filter_cons_False by (cbn; naive_solver).
  by rewrite !Hl by set_solver.
Qed.

Lemma CancelTimer_found h x l1 l2 B w : rinv [] B w -> listed w = l1 ++ h :: l2 -> handlers w !! h = Some x ->
  wp (Uninitialize h;; upd_reactor (set_timerEventHandlers (l1 ++ l2));; release h)
    (fun _ w' => rinv [] B w' /\ same_flags w w' /\ (armed w -> armed w') /\
      alarms w' = filter (fun a => a_fd a <> fd_ x) (alarms w)) w.
Proof.
  intros Hi El Hx. assert (h ∈ listed w) as Hl by (rewrite El; set_solver).
  pose proof (ri_list _ _ _ Hi) as Hnd. rewrite El in Hnd.
  assert (h ∉ l1 ++ l2 /\ NoDup (l1 ++ l2)) as [Hnot Hnd'].
  { rewrite <- Permutation_middle in Hnd. by apply NoDup_cons in Hnd. }
  unfold Uninitialize. rms. eapply wp_mono; [by eapply DisableAll_spec|]. cbn beta. intros _ w1 (Hi1 & Er1 & Et1 & Eh1 & Em1 & Hs1). rms.
  set (w2 := {| reactor := _; demux := _; handlers := _; taskQue := _; kernel := _ |}).
  assert (handlers w2 !! h = Some (set_events NONE_EVENT x)) as Hx2 by (cbn; by rewrite Eh1, lookup_alter_eq, Hx).
  assert (rinv [h] B w2) as Hi2.
  { apply (rinv_owners [] [h] B w1); try done. intros g. unfold has_owner, listed, mapped.
    cbn [w2 reactor demux taskQue set_timerEventHandlers timerEventHandlers_]. rewrite Er1. unfold listed in El. rewrite El. set_solver. }
  eapply wp_mono; [by apply (release_handler_spec h [] B); [|set_solver|]|]. cbn beta. intros _ w3 (Hi3 & Er3 & Ed3 & Et3 & Eh3 & _ & Hs3).
  assert (listed w3 = l1 ++ l2) as El3 by (unfold listed; by rewrite Er3).
  assert (forall g, g ∈ l1 ++ l2 -> handlers w3 !! g = handlers w !! g) as Hsame.
  { intros g Hg. assert (g <> h) by (by intros ->). rewrite Eh3. destruct (owned w2 h); cbn [w2 handlers];
      [|rewrite lookup_delete_ne by done]; by rewrite Eh1, lookup_alter_ne. }
  split; [done|]. split; [unfold same_flags; rewrite Er3, Et3; cbn; by rewrite Er1|]. split; [|by eapply alarms_drop].
  apply (armed_spared (fd_ x) [] B); [done| | |by destruct (ri_fd _ _ _ Hi _ _ Hx) as (_ & _ & ?)|].
  - intros g Hg. rewrite El3 in Hg. split; [rewrite El; set_solver|by apply Hsame].
  - intros g y Hg Hy. rewrite El3 in Hg. assert (fd_ x <> fd_ y) as Hne.
    { intros Ef. apply Hnot. by rewrite (ri_inj _ _ _ Hi h g x y Hx Hy Ef). }
    split; [done|]. unfold mapped at 1. rewrite Ed3. change (eventHandlers_ (demux w2)) with (mapped w1). rewrite Em1.
    by destruct (mapped w !! fd_ x); [rewrite lookup_delete_ne by done|rewrite lookup_insert_ne by done].
  - transitivity w1; [done|]. exact (Hs3 _ Hx2).
Qed.

Lemma CancelTimer_spec fd B w : rinv [] B w ->
  wp (CancelTimer fd) (fun _ w' => rinv [] B w' /\ same_flags w w' /\ (armed w -> armed w') /\
    alarms w' = filter (fun a => a_fd a <> fd) (alarms w)) w.
Proof.
  intros Hi. unfold CancelTimer. rms. change (timerEventHandlers_ (reactor w)) with (listed w).
  assert (forall rest before, listed w = before ++ rest ->
    (forall g y, g ∈ before -> handlers w !! g = Some y -> fd_ y <> fd) ->
    wp (CancelTimer_loop fd before rest) (fun _ w' => rinv [] B w' /\ same_flags w w' /\ (armed w -> armed w') /\
      alarms w' = filter (fun a => a_fd a <> fd) (alarms w)) w) as Hloop; [|by apply Hloop; [|set_solver]].
  induction rest as [|h rest IH]; intros before El Hbefore; cbn [CancelTimer_loop].
  - rms. split_and!; try done. rewrite filter_all; [done|]. apply Forall_forall.
    intros a (g & y & Hg & Hy & <-)%(alarm_in _ _ _ _ Hi). cbn. rewrite El, app_nil_r in Hg. by apply (Hbefore g).
  - assert (h ∈ listed w) as Hl by (rewrite El; set_solver).
    rms. eapply wp_handler; [done|by left; left|]. intros x Hx. destruct (Z.eqb_spec (fd_ x) fd) as [<-|Hne].
    + by apply CancelTimer_found.
    + apply IH; [by rewrite El, <- app_assoc|]. intros g y Hg Hy. apply elem_of_app in Hg as [Hg|Hg]; [by apply (Hbefore g)|].
      apply list_elem_of_singleton in Hg as ->. by simplify_eq.
Qed.

(** ** The end of the loop, and polling *)

Lemma CleanUp_spec B w : rinv [] B w ->
  wp CleanUp (fun _ w' => rinv [] B w' /\ same_flags w w' /\ alarms w' = alarms w) w.
Proof.
  intros Hi. unfold CleanUp. rms. change (timerEventHandlers_ (reactor w)) with (listed w).
  assert (forall l w1, (forall h, h ∈ l -> h ∈ listed w1) -> rinv [] B w1 ->
    wp (CleanUp_loop l) (fun _ w' => rinv [] B w' /\ same_flags w1 w' /\ alarms w' = alarms w1) w1) as Hloop; [|by apply Hloop].
  induction l as [|h l IH]; intros w1 Hl Hi1; cbn [CleanUp_loop]; rms; [done|].
  assert (h ∈ listed w1) as Hh by set_solver. assert (is_Some (handlers w1 !! h)) as [x Hx] by (apply (ri_owned _ _ _ Hi1); by left; left).
  eapply wp_mono; [by apply (DisableAll_spec h x [] B)|]. cbn beta. intros _ w2 (Hi2 & Er2 & Et2 & Eh2 & _).
  assert (listed w2 = listed w1) as El2 by (unfold listed; by rewrite Er2).
  eapply wp_mono; [apply (IH w2); [intros g Hg; rewrite El2; set_solver|done]|]. cbn beta. intros _ w3 (Hi3 & Hf3 & Ea3).
  split; [done|]. split; [etrans; [|exact Hf3]; unfold same_flags; by rewrite Er2, Et2|]. rewrite Ea3.
  by apply (alarms_alter w1 w2 h (set_events NONE_EVENT)).
Qed.

Lemma timer_SetUp_spec B w : rinv [] B w ->
  wp EventReactor_SetUp (fun ret w' => rinv [] B w' /\ taskQue w' = taskQue w /\ alarms w' = alarms w /\ (armed w -> armed w')) w.
Proof.
  intros Hi. unfold EventReactor_SetUp, StartUp. rms. destruct (Z.ltb_spec (epollFd_ (demux w)) 0) as [Hneg|Hpos]; rms.
  2: { change (TIMER_ERR_OK =? 0) with true. rms. split_and!; try done. by apply (rinv_owners [] [] B w); [..|apply (ri_list _ _ _ Hi)]. }
  apply wp_sys. intros fd k Ek. pose proof Ek as Ek'. rms. cbn [reactor demux handlers taskQue kernel].
  assert (epollFd_ (demux w) = -1) as E1 by (destruct (ri_epoll _ _ _ Hi); lia).
  set (w1 := {| reactor := reactor w; demux := set_epollFd fd (demux w); handlers := handlers w; taskQue := taskQue w; kernel := k |}).
  assert (rinv [] B w1) as Hi1.
  { destruct Hi as [Io Il Im Ii If Ip Ie Ib]. apply epoll_create1_law in Ek as [(-> & Ek)|(Hfd & Hnew & Ek)];
      (split; try done; cbn [w1 handlers kernel demux set_epollFd epollFd_]).
    - intros g y Hg. destruct (If _ _ Hg) as (? & ? & _). split_and!; [done..|lia].
    - intros f. rewrite Ek, Ip, E1. done.
    - split; [|lia]. intros HB. apply Ib in HB. lia.
    - intros g y Hg. destruct (If _ _ Hg) as (? & ? & _). split_and!; [done..|]. intros <-. apply Hnew, Ip. right. right. by exists g, y.
    - intros f. rewrite Ek, elem_of_union, elem_of_singleton, Ip. rewrite E1. split.
      + intros [->|[?|[?|?]]]; [by right; left|by left|lia|by right; right].
      + intros [?|[[_ ->]|?]]; [by right; left|by left|by right; right; right].
    - split; [|lia]. intros HB. apply Hnew, Ip. by left. }
  assert (armed w -> armed w1) as Harm1.
  { intros [Hwe Ha]. assert (~ willing K) as Hno by (intros Hwill; specialize (Hwe Hwill); lia). split; [done|].
    intros h x Hh Hx. destruct (Ha h x Hh Hx) as (Hreg & (k0 & now & Hk0 & Hset) & _). split; [done|]. split; [|done].
    exists k0, now. split; [done|]. rewrite <- Hset. destruct (ri_fd _ _ _ Hi _ _ Hx) as (Hf & _). apply (epoll_create1_spares _ _ _ Ek').
    intros <-. destruct (epoll_create1_law _ _ _ Ek') as [(? & _)|(_ & Hnew & _)]; [lia|]. apply Hnew, (ri_open _ _ _ Hi).
    right. right. by exists h, x. }
  destruct (fd <? 0).
  - change (TIMER_ERR_BADF =? 0) with false. rms. split_and!; done.
  - change (TIMER_ERR_OK =? 0) with true. rms. split_and!; try done. by apply (rinv_owners [] [] B w1); [..|apply (ri_list _ _ _ Hi1)].
Qed.
End calls.
