(* ===== verification/EventReactorLoop.v ===== *)
(** * Polling, and the life of an event loop

    The task queue of [Polling] owns the handlers it calls; the destructor
    leaves nothing open but what others opened. *)

From stdpp Require Import sorting.
From S2P Require Import Prelude Errors EventReactor EventReactorInv EventReactorCalls.

Section polling.
Context {K : Type} `{TimerSysLaws K}.
Notation world := (reactor_state K).
Implicit Types w : world.
Implicit Types B : gset Z.

(** [w'] offers the same alarms. *)
Definition same_alarms w w' : Prop := reactor w' = reactor w /\ alarms w' = alarms w /\ (armed w -> armed w').
#[export] Instance same_alarms_refl : Reflexive same_alarms.
Proof. by intros w. Qed.
#[export] Instance same_alarms_trans : Transitive same_alarms.
Proof. intros w1 w2 w3 (? & ? & ?) (? & ? & ?). unfold same_alarms. split_and!; [congruence..|auto]. Qed.

Lemma same_objects_alarms w w' : same_objects w w' -> same_alarms w w'.
Proof. intros Hs. split; [apply Hs|]. split; [by apply alarms_same|by apply armed_same]. Qed.

Lemma Polling_wait_spec timeout B w : rinv [] B w ->
  wp (Polling_wait timeout) (fun _ w' => same_objects w w') w.
Proof.
  intros Hi. unfold Polling_wait. rms. apply wp_sys_same; [apply epoll_wait_frame|intros f; apply epoll_wait_timers|]. intros r w' Hs _ _.
  destruct r as [[|ev evs]|errno]; rms; [done..|]. by destruct (_ || _); rms.
Qed.

Lemma Polling_collect_spec evs B w : rinv [] B w ->
  wp (Polling_collect evs) (fun _ w' => rinv [] B w' /\ same_alarms w w') w.
Proof.
  revert w. induction evs as [|[fd events] evs IH]; intros w Hi; cbn [Polling_collect]; rms; [done|].
  unfold id. change (eventHandlers_ (demux w)) with (mapped w). destruct (mapped w !! fd) as [h|] eqn:Hm; rms.
  - eapply wp_mono; [apply IH|].
    + apply (rinv_owners [] [] B w); try done; [|apply (ri_list _ _ _ Hi)]. intros g. unfold has_owner, listed, mapped.
      cbn [reactor demux taskQue]. rewrite fmap_app. cbn. split; [|set_solver].
      intros [[?|[?|Hg]]|?]; [by left; left|by left; right; left| |by right].
      apply elem_of_app in Hg as [Hg| ->%list_elem_of_singleton]; [by left; right; right|]. left. right. left. by exists fd.
    + cbn beta. intros _ w' [Hi' Hs]. split; [done|]. etrans; [|exact Hs]. done.
  - eapply wp_mono; [apply IH|].
    + by apply (rinv_owners [] [] B w); [..|apply (ri_list _ _ _ Hi)].
    + cbn beta. intros _ w' [Hi' Hs]. split; [done|]. etrans; [|exact Hs]. done.
Qed.

(** Giving up a pointer that is not of the list. *)
Lemma release_frame h x X B w w' : rinv X B w -> handlers w !! h = Some x -> reactor w' = reactor w -> demux w' = demux w ->
  handlers w' = (if owned w h then handlers w else delete h (handlers w)) -> (owned w h = true -> w' = w) ->
  spared (fd_ x) w w' -> same_alarms w w'.
Proof.
  intros Hi Hx Er Ed Eh Ho Hs. assert (forall g, g ∈ listed w -> handlers w' !! g = handlers w !! g) as Hsame.
  { intros g Hg. rewrite Eh. destruct (owned w h) eqn:Eo; [done|]. rewrite lookup_delete_ne; [done|]. intros <-.
    assert (owned w h = true) by (apply owned_spec; by left). congruence. }
  assert (listed w' = listed w) as El by (unfold listed; by rewrite Er). split; [done|]. split.
  - unfold alarms. rewrite El. apply list_omap_ext, Forall2_same_length_lookup. split; [done|].
    intros i g g' Hg Hg'. rewrite Hg in Hg'. injection Hg' as <-. rewrite Hsame; [done|]. by eapply list_elem_of_lookup_2.
  - destruct (owned w h) eqn:Eo; [by rewrite Ho|]. apply (armed_spared (fd_ x) X B); [done| | | |done].
    + intros g Hg. rewrite El in Hg. split; [done|by apply Hsame].
    + intros g y Hg Hy. rewrite El in Hg. split; [|by unfold mapped; rewrite Ed]. intros Ef.
      assert (owned w h = true) by (apply owned_spec; left; by rewrite <- (ri_inj _ _ _ Hi g h y x)). congruence.
    + intros _ Ef. by destruct (ri_fd _ _ _ Hi _ _ Hx) as (_ & _ & ?).
Qed.

(** A pointer to [h] that is not in the list any more goes. *)
Lemma release_owner h B w : rinv [h] B w -> is_Some (handlers w !! h) ->
  wp (release h) (fun _ w' => rinv [] B w' /\ same_alarms w w' /\ demux w' = demux w /\ taskQue w' = taskQue w) w.
Proof.
  intros Hi Hh. eapply wp_mono; [by apply (release_handler_spec h [] B); [|set_solver|]|]. cbn beta.
  intros _ w' (Hi' & Er & Ed & Et & Eh & Ho & Hs). split; [done|]. split; [|done]. destruct Hh as [x Hx].
  by eapply (release_frame h x); auto.
Qed.

Lemma release_tasks_spec q B w : rinv [] B w -> taskQue w = q ->
  wp (release_tasks q) (fun _ w' => rinv [] B w' /\ same_alarms w w' /\ taskQue w' = []) w.
Proof.
  revert w. induction q as [|[h events] q IH]; intros w Hi Eq; cbn [release_tasks]; rms; [done|].
  set (w1 := {| reactor := _; demux := _; handlers := _; taskQue := _; kernel := _ |}).
  assert (rinv [h] B w1) as Hi1.
  { apply (rinv_owners [] [h] B w); try done; [|apply (ri_list _ _ _ Hi)]. intros g. unfold has_owner, listed, mapped.
    cbn [w1 reactor demux taskQue]. rewrite Eq. cbn. set_solver. }
  eapply wp_mono; [apply (release_owner h B); [done|]|].
  { apply (ri_owned _ _ _ Hi1). right. set_solver. }
  cbn beta. intros _ w2 (Hi2 & Hs2 & Ed2 & Et2). eapply wp_mono; [by apply IH|]. cbn beta. intros _ w3 (Hi3 & Hs3 & Et3).
  split; [done|]. split; [|done]. etrans; [|exact Hs3]. etrans; [|exact Hs2]. done.
Qed.

Lemma Polling_end_spec nfds B w : rinv [] B w ->
  wp (Polling_end nfds) (fun _ w' => rinv [] B w' /\ same_alarms w w' /\ taskQue w' = []) w.
Proof.
  intros Hi. unfold Polling_end. rms. destruct (_ =? _); rms; [|by apply release_tasks_spec].
  eapply wp_mono; [apply release_tasks_spec; [|done]; by apply (rinv_owners [] [] B w); [..|apply (ri_list _ _ _ Hi)]|].
  cbn beta. intros _ w' (Hi' & Hs & Et). split; [done|]. split; [|done]. etrans; [|exact Hs]. done.
Qed.

(** A handler of the task queue can be called; what it runs is the callback of
    its timer. *)
Lemma timer_HandleEvents_spec h events B w : rinv [] B w -> h ∈ (taskQue w).*1 ->
  wp (HandleEvents h events) (fun r w' => same_objects w w' /\
    forall cb fd, r = Some (cb, fd) -> exists x, handlers w !! h = Some x /\ fd = fd_ x /\ callback_ x = Some cb) w.
Proof.
  intros Hi Ht. unfold HandleEvents. rms. eapply wp_handler; [done|by left; right; right|]. intros x Hx.
  destruct (_ && _); rms; [|by split]. unfold TimeOut. rms. apply (wp_access _ x); [done|].
  destruct (fd_ x =? INVALID_TIMER_FD); rms; [by split|].
  apply wp_sys_same; [apply read8_frame|intros f; apply read8_timers|]. intros [n e] w' Hs _ _. destruct (_ && _); rms; [by split|]. split; [done|].
  intros cb fd (cb' & Hcb & [= -> ->])%fmap_Some. by exists x.
Qed.

(** The timer has expired: the callback is run. *)
Lemma HandleEvents_runs h events x e k B w : rinv [] B w -> handlers w !! h = Some x -> readCallback_ x = true ->
  Z.land events READ_EVENT <> 0 -> read8 (fd_ x) (kernel w) = ((8, e), k) ->
  HandleEvents h events w = Some ((fun cb => (cb, fd_ x)) <$> callback_ x,
    {| reactor := reactor w; demux := demux w; handlers := handlers w; taskQue := taskQue w; kernel := k |}).
Proof.
  intros Hi Hx Hr He Er. unfold HandleEvents, TimeOut, load, call, st_access, mbind, st_bind. rewrite Hx, Hr.
  rewrite (proj2 (Z.eqb_neq _ _) He). cbn [negb andb]. rewrite Hx.
  destruct (Z.eqb_spec (fd_ x) INVALID_TIMER_FD) as [E|_]; [destruct (ri_fd _ _ _ Hi _ _ Hx); unfold INVALID_TIMER_FD in E; lia|].
  by rewrite Er.
Qed.

(** ** Construction and destruction *)

Lemma EventReactor_ctor_spec (k : K) : (forall fd, fd ∈ open_fds k -> 0 <= fd) ->
  rinv [] (open_fds k) (EventReactor_ctor k) /\ alarms (EventReactor_ctor k) = [] /\ taskQue (EventReactor_ctor k) = [] /\
  armed (EventReactor_ctor k).
Proof.
  intros HB. unfold EventReactor_ctor. destruct (epoll_create1 k) as [fd k'] eqn:Ek.
  split; [|split_and!; try done; split; [intros [Hw _]; specialize (Hw k); by rewrite Ek in Hw|by intros h x Hh%elem_of_nil]].
  split; unfold has_owner, listed, mapped; cbn.
  - intros h. rewrite lookup_empty. split; [by intros []|]. intros [[?|[[? ?]|?]]|?]; set_solver.
  - constructor.
  - intros f h. by rewrite lookup_empty.
  - intros h h' x x'. by rewrite lookup_empty.
  - intros h x. by rewrite lookup_empty.
  - intros f. apply epoll_create1_law in Ek as [(-> & ->)|(Hfd & Hnew & ->)].
    + split; [by left|]. intros [?|[?|(h & x & Hh & _)]]; [done|lia|by rewrite lookup_empty in Hh].
    + rewrite elem_of_union, elem_of_singleton. split; [intros [->|?]; [by right; left|by left]|].
      intros [?|[[_ ->]|(h & x & Hh & _)]]; [by right|by left|by rewrite lookup_empty in Hh].
  - apply epoll_create1_law in Ek as [(-> & _)|(Hfd & Hnew & _)]; (split; [|lia]); [intros ?%HB; lia|done].
  - done.
Qed.

Lemma release_list_spec l B w : rinv [] B w -> listed w = l ->
  wp (release_list l) (fun _ w' => rinv [] B w' /\ listed w' = [] /\ taskQue w' = taskQue w) w.
Proof.
  revert w. induction l as [|h l IH]; intros w Hi El; cbn [release_list]; rms; [done|].
  set (w1 := {| reactor := _; demux := _; handlers := _; taskQue := _; kernel := _ |}).
  assert (rinv [h] B w1) as Hi1.
  { pose proof (ri_list _ _ _ Hi) as Hnd. rewrite El in Hnd. apply NoDup_cons in Hnd as [_ Hnd].
    apply (rinv_owners [] [h] B w); try done. intros g. unfold has_owner. rewrite El. unfold listed, mapped. cbn. set_solver. }
  eapply wp_mono; [apply (release_owner h B); [done|]|].
  { apply (ri_owned _ _ _ Hi1). right. set_solver. }
  cbn beta. intros _ w2 (Hi2 & (Er2 & _) & _ & Et2). eapply wp_mono; [apply IH; [done|]; unfold listed; by rewrite Er2|].
  cbn beta. intros _ w3 (Hi3 & El3 & Et3). split_and!; [done..|]. by rewrite Et3, Et2.
Qed.

Lemma release_map_spec fds B w : rinv [] B w -> (forall fd, is_Some (mapped w !! fd) -> fd ∈ fds) ->
  wp (release_map fds) (fun _ w' => rinv [] B w' /\ (forall fd, mapped w' !! fd = None) /\ listed w' = listed w /\
    taskQue w' = taskQue w /\ epollFd_ (demux w') = epollFd_ (demux w)) w.
Proof.
  revert w. induction fds as [|fd fds IH]; intros w Hi Hd; cbn [release_map]; rms.
  { split_and!; try done. intros fd. apply eq_None_not_Some. by intros ?%Hd%elem_of_nil. }
  change (eventHandlers_ (demux w)) with (mapped w). destruct (mapped w !! fd) as [h|] eqn:Hm; rms.
  - set (w1 := {| reactor := _; demux := _; handlers := _; taskQue := _; kernel := _ |}).
    assert (mapped w1 = delete fd (mapped w)) as Em1 by done.
    assert (rinv [h] B w1) as Hi1.
    { destruct Hi as [Io Il Im Ii If Ip Ie Ib]. split; try done.
      - intros g. etrans; [apply Io|]. unfold has_owner. rewrite Em1. split.
        + intros [[?|[[f Hf]|?]]|?]; [by left; left| |by left; right; right|set_solver].
          destruct (decide (f = fd)) as [->|Hne]; [right; simplify_eq; set_solver|]. left. right. left. exists f.
          by rewrite lookup_delete_ne.
        + intros [[?|[[f [_ Hf]%lookup_delete_Some]|?]]|?%list_elem_of_singleton]; [by left; left|left; right; left; by exists f|by left; right; right|].
          subst. left. right. left. by exists fd.
      - intros f g. rewrite Em1. intros [_ Hf]%lookup_delete_Some. by apply Im. }
    eapply wp_mono; [apply (release_owner h B); [done|]|].
    { apply (ri_owned _ _ _ Hi1). right. set_solver. }
    cbn beta. intros _ w2 (Hi2 & (Er2 & _) & Ed2 & Et2).
    assert (mapped w2 = delete fd (mapped w)) as Em2 by (unfold mapped; by rewrite Ed2).
    eapply wp_mono; [apply IH; [done|]|].
    { intros f. rewrite Em2. intros [g [Hne Hg]%lookup_delete_Some]. assert (f ∈ fd :: fds) by (apply Hd; by exists g). set_solver. }
    cbn beta. intros _ w3 (Hi3 & Hm3 & El3 & Et3 & Ee3).
    split_and!; [done|done|rewrite El3; unfold listed; by rewrite Er2|by rewrite Et3, Et2|by rewrite Ee3, Ed2].
  - apply IH; [done|]. intros f Hf. specialize (Hd f Hf). apply elem_of_cons in Hd as [->|?]; [|done].
    rewrite Hm in Hf. by destruct Hf.
Qed.

Lemma EventReactor_dtor_spec B w : rinv [] B w -> taskQue w = [] ->
  wp EventReactor_dtor (fun _ w' => open_fds (kernel w') = B /\ handlers w' = ∅) w.
Proof.
  intros Hi Ht. unfold EventReactor_dtor. rms. eapply wp_mono; [by apply release_list_spec|]. cbn beta.
  intros _ w1 (Hi1 & El1 & Et1). unfold EventDemultiplexer_CleanUp. rms.
  assert (wp (if negb (epollFd_ (demux w1) =? EPOLL_INVALID_FD)
              then call (fun k => (tt, close (epollFd_ (demux w1)) k));; upd_demux (set_epollFd EPOLL_INVALID_FD) else mret tt)
             (fun _ w2 => rinv [] B w2 /\ listed w2 = [] /\ taskQue w2 = [] /\ epollFd_ (demux w2) = -1) w1) as Hc.
  { destruct (Z.eqb_spec (epollFd_ (demux w1)) EPOLL_INVALID_FD) as [E|Hne]; rms; [by rewrite Et1, Ht|].
    apply wp_sys. intros [] k [= <-]. rms. split; [|by cbn; rewrite Et1, Ht].
    destruct Hi1 as [Io Il Im Ii If Ip Ie Ib]. split; try done; cbn [handlers kernel demux set_epollFd epollFd_].
    - intros h x Hx. destruct (If _ _ Hx) as (? & ? & _). split_and!; [done..|]. unfold EPOLL_INVALID_FD. lia.
    - intros f. rewrite close_law, elem_of_difference, elem_of_singleton, Ip. split.
      + intros [[?|[[? ?]|?]] Hf]; [by left|done|by right; right].
      + intros [Hf|[[? ->]|(h & x & Hx & Hf)]]; [|unfold EPOLL_INVALID_FD in *; lia|].
        * split; [by left|]. intros ->. by destruct Ie.
        * split; [right; right; by exists h, x|]. destruct (If _ _ Hx) as (_ & _ & ?). congruence.
    - unfold EPOLL_INVALID_FD. split; [intros ?%Ib; lia|lia]. }
  eapply wp_mono; [exact Hc|]. cbn beta. intros _ w2 (Hi2 & El2 & Et2 & Ee2). rms.
  eapply wp_mono; [apply (release_map_spec _ B); [done|]|].
  { intros fd Hfd. unfold keys. rewrite merge_sort_Permutation. by apply elem_of_elements, elem_of_dom. }
  cbn beta. intros _ w3 (Hi3 & Hm3 & El3 & Et3 & Ee3).
  assert (handlers w3 = ∅) as Eh.
  { apply map_eq. intros h. rewrite lookup_empty. apply eq_None_not_Some. intros [[Hl|[[fd Hfd]|Hq]]|Hn%elem_of_nil]%(ri_owned _ _ _ Hi3); [| | |done].
    - rewrite El3, El2 in Hl. by apply elem_of_nil in Hl.
    - by rewrite Hm3 in Hfd.
    - rewrite Et3, Et2 in Hq. by apply elem_of_nil in Hq. }
  split; [|done]. apply set_eq. intros fd. rewrite (ri_open _ _ _ Hi3), Eh, Ee3, Ee2. split; [|by left].
  intros [?|[?|(h & x & Hh & _)]]; [done|lia|by rewrite lookup_empty in Hh].
Qed.
End polling.
