(* ===== verification/Timer.v ===== *)
(** * Timers ([base/src/timer.cpp])

    A [Timer] on the event loop of [EventReactor.v]: the tables of registered
    entries, the methods, and the loop thread, which runs between them in the
    steps that its critical sections make. [Register] and [Unregister] hold
    [mutex_] throughout; [Setup] and [Shutdown] throw the switch of the reactor
    without it and go on in steps of their own. The counter of the identifiers
    is that of one process with one timer. *)

From S2P Require Import Prelude Errors EventReactor.

(** [struct TimerEntry]; a callback is a value, its calls are logged. *)
Record TimerEntry := {
  timerId : Z;
  interval : Z;
  callback : Z;
  once : bool;
  timerFd : Z;
}.
#[export] Instance TimerEntry_eq_dec : EqDecision TimerEntry.
Proof. solve_decision. Defined.

Definition UINT32_MAX : Z := 2 ^ 32 - 1.

Record Timer := {
  intervalToTimers_ : gmap Z (list TimerEntry);
  timerToEntries_ : gmap Z TimerEntry;
  timers_ : gmap Z Z;
  timeoutMs_ : Z;
  thread_ : bool;          (** [thread_.joinable()] *)
  nextTimerId : Z;         (** the static counter of [Register] *)
}.

(** What the loop thread does next. *)
Inductive loop_pc :=
| Idle                                       (** no thread has been started *)
| Starting                                   (** [MainLoop] *)
| Looping                                    (** the condition of [RunLoop] *)
| Waiting                                    (** [epoll_wait] *)
| Collecting (evs : list (Z * Z))            (** the look-up of [Polling] *)
| Dispatching (nfds : Z) (tasks : list (Z * Z))
| Calling (nfds : Z) (tasks : list (Z * Z)) (fd i : Z) (entries : list TimerEntry) (onceIdsUnused : list Z)
| Ending                                     (** [CleanUp] *)
| Ended.

(** How far the thread that starts or ends the timer has come. *)
Inductive control_pc :=
| AtRest
| SettingUp                                  (** before the thread is made *)
| ShuttingDown (useJoin : bool)              (** the switch is off *)
| Joining.                                   (** in [thread_.join()] *)

Inductive log_entry := Called (e : TimerEntry) | CleanedUp.

Record world {K} := {
  timer : Timer;
  rs : reactor_state K;
  loop : loop_pc;
  control : control_pc;
  log : list log_entry;
}.
Arguments world : clear implicits.

Definition set_lists (m : gmap Z (list TimerEntry)) (t : Timer) : Timer :=
  {| intervalToTimers_ := m; timerToEntries_ := timerToEntries_ t; timers_ := timers_ t; timeoutMs_ := timeoutMs_ t;
     thread_ := thread_ t; nextTimerId := nextTimerId t |}.
Definition set_entries (m : gmap Z TimerEntry) (t : Timer) : Timer :=
  {| intervalToTimers_ := intervalToTimers_ t; timerToEntries_ := m; timers_ := timers_ t; timeoutMs_ := timeoutMs_ t;
     thread_ := thread_ t; nextTimerId := nextTimerId t |}.
Definition set_timers (m : gmap Z Z) (t : Timer) : Timer :=
  {| intervalToTimers_ := intervalToTimers_ t; timerToEntries_ := timerToEntries_ t; timers_ := m; timeoutMs_ := timeoutMs_ t;
     thread_ := thread_ t; nextTimerId := nextTimerId t |}.
Definition set_thread (b : bool) (t : Timer) : Timer :=
  {| intervalToTimers_ := intervalToTimers_ t; timerToEntries_ := timerToEntries_ t; timers_ := timers_ t;
     timeoutMs_ := timeoutMs_ t; thread_ := b; nextTimerId := nextTimerId t |}.
Definition set_nextId (n : Z) (t : Timer) : Timer :=
  {| intervalToTimers_ := intervalToTimers_ t; timerToEntries_ := timerToEntries_ t; timers_ := timers_ t;
     timeoutMs_ := timeoutMs_ t; thread_ := thread_ t; nextTimerId := n |}.

(** ** Identifiers *)

Definition GetValidId (timerId : Z) : Z :=
  if timerId =? TIMER_ERR_DEAL_FAILED then u32 (timerId + 1)
  else if timerId =? UINT32_MAX then 1
  else timerId.

(** The loop of [Register] that looks for an identifier that is not in use. *)
Fixpoint find_id (fuel : nat) (entries : gmap Z TimerEntry) (id : Z) : option Z :=
  match fuel with
  | O => None
  | S fuel =>
      if bool_decide (is_Some (entries !! id)) then find_id fuel entries (GetValidId (u32 (id + 1))) else Some id
  end.
(** One round for every entry, and one more. *)
Definition next_id (entries : gmap Z TimerEntry) (id : Z) : option Z :=
  find_id (S (size entries)) entries (GetValidId id).

Section timer.
Context {K : Type} `{TimerSys K}.
Notation world := (world K).
Notation TM := (ST world).

Definition upd_timer (f : Timer -> Timer) : TM unit := st_put (fun w =>
  {| timer := f (timer w); rs := rs w; loop := loop w; control := control w; log := log w |}).
Definition set_loop (l : loop_pc) : TM unit := st_put (fun w =>
  {| timer := timer w; rs := rs w; loop := l; control := control w; log := log w |}).
Definition set_control (c : control_pc) : TM unit := st_put (fun w =>
  {| timer := timer w; rs := rs w; loop := loop w; control := c; log := log w |}).
Definition emit (x : log_entry) : TM unit := st_put (fun w =>
  {| timer := timer w; rs := rs w; loop := loop w; control := control w; log := log w ++ [x] |}).
(** A call of the reactor. *)
Definition reactor_ {A} (m : ST (reactor_state K) A) : TM A := fun w =>
  match m (rs w) with
  | Some (a, r) => Some (a, {| timer := timer w; rs := r; loop := loop w; control := control w; log := log w |})
  | None => None
  end.

(** ** Registration *)

Definition DoRegister (i : Z) (once : bool) (fd : Z) : TM (Z * Z) :=
  '(ret, fd) ← reactor_ (ScheduleTimer OnTimerCallback i fd once);
  if negb (ret =? TIMER_ERR_OK) || (fd <? 0) then mret (ret, fd)
  else
    upd_timer (fun t => set_timers (<[fd := i]> (timers_ t)) t);;
    mret (TIMER_ERR_OK, fd).

Fixpoint DoUnregister_loop (l : list (Z * Z)) (i : Z) : TM unit :=
  match l with
  | [] => mret tt
  | (fd, j) :: l =>
      (if j =? i then reactor_ (CancelTimer fd) else mret tt);;
      DoUnregister_loop l i
  end.
Definition in_order (m : gmap Z Z) : list (Z * Z) := omap (fun k => (fun v => (k, v)) <$> m !! k) (keys m).
Definition DoUnregister (i : Z) : TM unit :=
  m ← st_get (fun w => timers_ (timer w));
  DoUnregister_loop (in_order m) i.

Fixpoint GetTimerFd_loop (entryList : list TimerEntry) : Z :=
  match entryList with
  | [] => INVALID_TIMER_FD
  | e :: entryList => if negb (once e) then timerFd e else GetTimerFd_loop entryList
  end.
Definition GetTimerFd (i : Z) : TM Z :=
  m ← st_get (fun w => intervalToTimers_ (timer w));
  match m !! i with
  | None => mret INVALID_TIMER_FD
  | Some entryList => mret (GetTimerFd_loop entryList)
  end.

Definition Register (cb i : Z) (once : bool) : TM Z :=
  fd ← (if once then mret INVALID_TIMER_FD else GetTimerFd i);
  '(ret, fd) ← (if fd =? INVALID_TIMER_FD then DoRegister i once fd else mret (TIMER_ERR_OK, fd));
  if negb (ret =? TIMER_ERR_OK) then mret TIMER_ERR_DEAL_FAILED
  else
    id ← st_access (fun w => next_id (timerToEntries_ (timer w)) (nextTimerId (timer w)));
    let e := {| timerId := id; interval := i; callback := cb; once := once; timerFd := fd |} in
    upd_timer (set_nextId (u32 (id + 1)));;
    upd_timer (fun t => set_lists (<[i := default [] (intervalToTimers_ t !! i) ++ [e]]> (intervalToTimers_ t)) t);;
    upd_timer (fun t => set_entries (<[id := e]> (timerToEntries_ t)) t);;
    mret id.

(** The loop of [Unregister] and what is left of the list. *)
Fixpoint Unregister_loop (before rest : list TimerEntry) (id : Z) : TM (list TimerEntry) :=
  match rest with
  | [] => mret before
  | e :: rest =>
      if timerId e =? id then
        (if once e then
           reactor_ (CancelTimer (timerFd e));;
           upd_timer (fun t => set_timers (delete (timerFd e) (timers_ t)) t)
         else mret tt);;
        mret (before ++ rest)
      else Unregister_loop (before ++ [e]) rest id
  end.

Definition Unregister (id : Z) : TM unit :=
  t ← st_get timer;
  match timerToEntries_ t !! id with
  | None => mret tt
  | Some entry =>
      let i := interval entry in
      entryList ← Unregister_loop [] (default [] (intervalToTimers_ t !! i)) id;
      upd_timer (fun t => set_lists (<[i := entryList]> (intervalToTimers_ t)) t);;
      (if bool_decide (entryList = []) then
         upd_timer (fun t => set_lists (delete i (intervalToTimers_ t)) t);;
         DoUnregister i
       else mret tt);;
      upd_timer (fun t => set_entries (delete id (timerToEntries_ t)) t)
  end.

(** ** The callback of a timer *)

(** The first critical section of [OnTimer]: the interval and the entries. *)
Definition OnTimer_begin (fd : Z) : TM (Z * list TimerEntry) :=
  t ← st_get timer;
  let i := default 0 (timers_ t !! fd) in
  let entryList := default [] (intervalToTimers_ t !! i) in
  upd_timer (fun t => set_timers (<[fd := i]> (timers_ t)) t);;
  upd_timer (fun t => set_lists (<[i := entryList]> (intervalToTimers_ t)) t);;
  mret (i, entryList).

(** One round of the loop of [OnTimer]; the new [onceIdsUnused]. *)
Definition OnTimer_entry (fd : Z) (ptr : TimerEntry) (onceIdsUnused : list Z) : TM (list Z) :=
  if negb (timerFd ptr =? fd) then mret onceIdsUnused
  else
    r ← st_get (fun w => reactor (rs w));
    (if loopReady_ r && switch_ r then emit (Called ptr) else mret tt);;
    mret (if once ptr then onceIdsUnused ++ [timerId ptr] else onceIdsUnused).

(** The loop of [EraseUnusedTimerId]: [before] was kept, [rest] is to be seen. *)
Fixpoint EraseUnused_loop (i : Z) (unusedIds : list Z) (before rest : list TimerEntry) : TM unit :=
  match rest with
  | [] => mret tt
  | e :: rest =>
      if negb (bool_decide (timerId e ∈ unusedIds)) then EraseUnused_loop i unusedIds (before ++ [e]) rest
      else
        reactor_ (CancelTimer (timerFd e));;
        upd_timer (fun t => set_timers (delete (timerFd e) (timers_ t)) t);;
        upd_timer (fun t => set_lists (<[i := before ++ rest]> (intervalToTimers_ t)) t);;
        upd_timer (fun t => set_entries (delete (timerId e) (timerToEntries_ t)) t);;
        if bool_decide (before ++ rest = []) then
          upd_timer (fun t => set_lists (delete i (intervalToTimers_ t)) t);;
          DoUnregister i
        else EraseUnused_loop i unusedIds before rest
  end.
Definition EraseUnusedTimerId (i : Z) (unusedIds : list Z) : TM unit :=
  t ← st_get timer;
  let entryList := default [] (intervalToTimers_ t !! i) in
  upd_timer (fun t => set_lists (<[i := entryList]> (intervalToTimers_ t)) t);;
  EraseUnused_loop i unusedIds [] entryList.

(** ** Start and end *)

(** Up to [SwitchOn], with the result; then the thread is made. *)
Definition Setup : TM Z :=
  t ← st_get timer;
  if thread_ t then mret TIMER_ERR_INVALID_VALUE
  else
    reactor_ (upd_reactor (set_switch true));;
    set_control SettingUp;;
    mret TIMER_ERR_OK.
Definition Setup_thread : TM unit :=
  set_loop Starting;;
  upd_timer (set_thread true);;
  set_control AtRest.

(** Up to [SwitchOff]; then the look at the table, under the lock, and what
    follows up to the [join]; then the return from it. *)
Definition Shutdown (useJoin : bool) : TM unit :=
  t ← st_get timer;
  if negb (thread_ t) then mret tt
  else
    reactor_ (upd_reactor (set_switch false));;
    set_control (ShuttingDown useJoin).
Definition Shutdown_thread (useJoin : bool) : TM unit :=
  t ← st_get timer;
  if (timeoutMs_ t =? -1) && bool_decide (intervalToTimers_ t = ∅) then
    reactor_ (ScheduleTimer PseudoTask 0 INVALID_TIMER_FD true);;
    upd_timer (set_thread false);;
    set_control AtRest
  else if negb useJoin then
    upd_timer (set_thread false);;
    set_control AtRest
  else set_control Joining.
Definition Shutdown_joined : TM unit :=
  upd_timer (set_thread false);;
  set_control AtRest.

Definition Timer_dtor : TM unit := reactor_ EventReactor_dtor.

Definition Timer_ctor (timeoutMs : Z) (k : K) : world :=
  {| timer := {| intervalToTimers_ := ∅; timerToEntries_ := ∅; timers_ := ∅; timeoutMs_ := timeoutMs; thread_ := false;
                 nextTimerId := 1 |};
     rs := EventReactor_ctor k; loop := Idle; control := AtRest; log := [] |}.

(** ** The loop thread *)

(** The condition of the loop of [RunLoop], with what follows the loop. *)
Definition RunLoop : TM unit :=
  r ← st_get (fun w => reactor (rs w));
  if loopReady_ r && switch_ r then set_loop Waiting
  else reactor_ (upd_reactor (set_loopReady false));; set_loop Ending.
(** Its body, up to the events. *)
Definition RunLoop_poll : TM unit :=
  timeout ← st_get (fun w => timeoutMs_ (timer w));
  r ← reactor_ (Polling_wait timeout);
  match r with
  | PollNothing => set_loop Looping
  | PollEvents evs => set_loop (Collecting evs)
  | PollFailed err =>
      if err =? EPOLL_CRITICAL_ERROR
      then reactor_ (upd_reactor (set_loopReady false));; set_loop Ending
      else set_loop Looping
  end.

(** The next action of [MainLoop] and of what it calls. *)
Definition loop_step : TM unit :=
  w ← st_get id;
  match loop w with
  | Idle | Ended => mret tt
  | Starting =>
      ret ← reactor_ EventReactor_SetUp;
      set_loop (if ret =? TIMER_ERR_OK then Looping else Ending)
  | Looping => RunLoop
  | Waiting => RunLoop_poll
  | Collecting evs =>
      reactor_ (Polling_collect evs);;
      q ← st_get (fun w => taskQue (rs w));
      set_loop (Dispatching (zlen evs) q)
  | Dispatching nfds [] => reactor_ (Polling_end nfds);; set_loop Looping
  | Dispatching nfds ((h, events) :: tasks) =>
      cb ← reactor_ (HandleEvents h events);
      match cb with
      | Some (OnTimerCallback, fd) =>
          '(i, entryList) ← OnTimer_begin fd;
          set_loop (Calling nfds tasks fd i entryList [])
      | _ => set_loop (Dispatching nfds tasks)
      end
  | Calling nfds tasks fd i [] onceIdsUnused =>
      (if bool_decide (onceIdsUnused = []) then mret tt else EraseUnusedTimerId i onceIdsUnused);;
      set_loop (Dispatching nfds tasks)
  | Calling nfds tasks fd i (ptr :: entries) onceIdsUnused =>
      onceIdsUnused ← OnTimer_entry fd ptr onceIdsUnused;
      set_loop (Calling nfds tasks fd i entries onceIdsUnused)
  | Ending => reactor_ CleanUp;; emit CleanedUp;; set_loop Ended
  end.

(** ** Programs *)

Inductive event :=
| CRegister (cb i : Z) (once : bool)
| CUnregister (id : Z)
| CSetup
| CSetupThread
| CShutdown (useJoin : bool)
| CShutdownThread
| CJoined
| LoopStep.

#[export] Instance event_eq_dec : EqDecision event.
Proof. solve_decision. Defined.

(** The identifiers the loop thread still deals with. *)
Definition pending_ids (l : loop_pc) : list Z :=
  match l with
  | Calling _ _ _ _ entries onceIdsUnused => (timerId <$> entries) ++ onceIdsUnused
  | _ => []
  end.

(** A program starts and ends the timer from one thread at a time. It may call
    [Setup] again, which is refused; after a [Shutdown] that did not join it
    does so only when the old thread has ended. [MAX_TIMERS] timers are never
    registered at once, and the identifiers do not come round while one expiry
    is handled. *)
Definition MAX_TIMERS : Z := UINT32_MAX - 2.
Definition room (w : world) : bool :=
  (Z.of_nat (size (timerToEntries_ (timer w))) <? MAX_TIMERS) &&
  match next_id (timerToEntries_ (timer w)) (nextTimerId (timer w)) with
  | Some id => bool_decide (id ∉ pending_ids (loop w))
  | None => true
  end.
Definition enabled (w : world) (ev : event) : bool :=
  match ev with
  | CRegister cb i once => (0 <=? i) && (i <=? UINT32_MAX) && room w
  | CUnregister id => true
  | CSetup => match control w, loop w with
              | AtRest, (Idle | Ended) => true
              | AtRest, _ => thread_ (timer w)
              | _, _ => false
              end
  | CSetupThread => match control w, loop w with SettingUp, (Idle | Ended) => true | _, _ => false end
  | CShutdown _ => match control w with AtRest => true | _ => false end
  | CShutdownThread => match control w with ShuttingDown _ => true | _ => false end
  | CJoined => match control w, loop w with Joining, Ended => true | _, _ => false end
  | LoopStep => match loop w with Idle | Ended => false | _ => true end
  end.

Definition exec (ev : event) : TM unit :=
  match ev with
  | CRegister cb i once => Register cb i once;; mret tt
  | CUnregister id => Unregister id
  | CSetup => Setup;; mret tt
  | CSetupThread => Setup_thread
  | CShutdown useJoin => Shutdown useJoin
  | CShutdownThread =>
      c ← st_get control;
      match c with ShuttingDown useJoin => Shutdown_thread useJoin | _ => mret tt end
  | CJoined => Shutdown_joined
  | LoopStep => loop_step
  end.

Definition step (w : world) (ev : event) : option world :=
  if enabled w ev then snd <$> exec ev w else None.
Definition run : world -> list event -> option world := run_steps step.
End timer.
