(* ===== verification/TimerRegistry.v ===== *)
(** * The tables of a timer and the alarms they promise

    [reg_ok r]: every registered entry stands in the list of its interval and
    has its alarm in the reactor; every alarm of the timer has an entry that
    needs it. A one-shot entry has an alarm of its own, the repeating entries
    of an interval share one. *)

From S2P Require Import Prelude Errors EventReactor EventReactorInv EventReactorCalls Timer.

Record registry := {
  r_lists : gmap Z (list TimerEntry);
  r_entries : gmap Z TimerEntry;
  r_timers : gmap Z Z;
  r_alarms : list alarm;
}.

Definition alarm_for (e : TimerEntry) : alarm :=
  {| a_fd := timerFd e; a_once := once e; a_interval := interval e; a_callback := Some OnTimerCallback |}.

(** The identifiers that [Register] may return. *)
Definition valid_id (id : Z) : Prop := 1 <= id < UINT32_MAX /\ id <> TIMER_ERR_DEAL_FAILED.

Record reg_ok (r : registry) : Prop := {
  rg_entry : forall id e, r_entries r !! id = Some e ->
    timerId e = id /\ exists l, r_lists r !! interval e = Some l /\ e ∈ l;
  rg_list : forall i l e, r_lists r !! i = Some l -> e ∈ l -> interval e = i /\ r_entries r !! timerId e = Some e;
  rg_nodup : forall i l, r_lists r !! i = Some l -> NoDup (timerId <$> l);
  rg_alarm : forall id e, r_entries r !! id = Some e -> alarm_for e ∈ r_alarms r;
  rg_timers : forall a, a ∈ r_alarms r -> a_callback a = Some OnTimerCallback ->
    r_timers r !! a_fd a = Some (a_interval a) /\
    exists id e, r_entries r !! id = Some e /\ if a_once a then timerFd e = a_fd a else interval e = a_interval a;
  rg_once : forall id id' e e', r_entries r !! id = Some e -> r_entries r !! id' = Some e' ->
    once e = true -> timerFd e = timerFd e' -> id = id';
  rg_shared : forall id id' e e', r_entries r !! id = Some e -> r_entries r !! id' = Some e' ->
    once e = false -> once e' = false -> interval e = interval e' -> timerFd e = timerFd e';
  rg_distinct : forall a a', a ∈ r_alarms r -> a' ∈ r_alarms r -> a_fd a = a_fd a' -> a = a';
  rg_ids : forall id e, r_entries r !! id = Some e -> valid_id id;
}.

Lemma reg_ok_empty m : reg_ok {| r_lists := ∅; r_entries := ∅; r_timers := m; r_alarms := [] |}.
Proof. split; cbn; intros *; rewrite ?lookup_empty; try done; by intros ?%elem_of_nil. Qed.

(** An entry of a list. *)
Lemma rg_listed r i l e : reg_ok r -> r_lists r !! i = Some l -> e ∈ l ->
  interval e = i /\ r_entries r !! timerId e = Some e.
Proof. intros Hr. by apply (rg_list _ Hr). Qed.

(** ** Adding *)

Definition reg_add (r : registry) (e : TimerEntry) (timers : gmap Z Z) (alarms : list alarm) : registry :=
  {| r_lists := <[interval e := default [] (r_lists r !! interval e) ++ [e]]> (r_lists r);
     r_entries := <[timerId e := e]> (r_entries r); r_timers := timers; r_alarms := alarms |}.

Definition repeats (r : registry) (i fd : Z) : Prop :=
  exists id e, r_entries r !! id = Some e /\ once e = false /\ interval e = i /\ timerFd e = fd.

(** The tables, when the alarms promised are there. *)
Lemma reg_add_tables r e timers alarms : reg_ok r -> r_entries r !! timerId e = None -> valid_id (timerId e) ->
  (forall a, a ∈ r_alarms r -> a ∈ alarms) -> alarm_for e ∈ alarms ->
  (forall a, a ∈ alarms -> a = alarm_for e \/ a ∈ r_alarms r) ->
  (forall a, a ∈ alarms -> a_callback a = Some OnTimerCallback -> timers !! a_fd a = Some (a_interval a)) ->
  (forall a a', a ∈ alarms -> a' ∈ alarms -> a_fd a = a_fd a' -> a = a') ->
  (forall id e', r_entries r !! id = Some e' -> timerFd e' = timerFd e -> once e = false /\ once e' = false) ->
  (forall id e', r_entries r !! id = Some e' -> once e = false -> once e' = false -> interval e' = interval e ->
     timerFd e' = timerFd e) ->
  reg_ok (reg_add r e timers alarms).
Proof.
  intros Hr Hnew Hid Hsub He Hcase Ht Hd Honce Hshare. split; cbn.
  - intros id e' [[<- <-]|[Hne H]]%lookup_insert_Some.
    + split; [done|]. eexists. rewrite lookup_insert_eq. split; [done|]. set_solver.
    + apply (rg_entry _ Hr) in H as (E & l & Hl & Hin). split; [done|].
      destruct (decide (interval e = interval e')) as [Ei|Hi].
      * rewrite Ei, lookup_insert_eq, Hl. eexists. split; [done|]. cbn. set_solver.
      * exists l. by rewrite lookup_insert_ne.
  - assert (forall i l e', r_lists r !! i = Some l -> e' ∈ l -> interval e' = i /\ <[timerId e := e]> (r_entries r) !! timerId e' = Some e') as Hold.
    { intros i l e' Hl Hin. destruct (rg_list _ Hr _ _ _ Hl Hin) as [? Hl']. split; [done|]. rewrite lookup_insert_ne; [done|].
      intros Eid. rewrite Eid in Hnew. congruence. }
    intros i l e' [[<- <-]|[Hne Hl]]%lookup_insert_Some; [|by apply Hold].
    intros [Hin| ->%list_elem_of_singleton]%elem_of_app; [|by rewrite lookup_insert_eq].
    destruct (r_lists r !! interval e) as [l|] eqn:El; [by apply (Hold _ l)|by apply elem_of_nil in Hin].
  - intros i l [[<- <-]|[_ Hl]]%lookup_insert_Some; [|by apply (rg_nodup _ Hr) in Hl].
    rewrite fmap_app. apply NoDup_app. destruct (r_lists r !! interval e) as [l|] eqn:El; cbn.
    + split_and!; [by apply (rg_nodup _ Hr) in El| |apply NoDup_singleton]. intros id (e' & -> & Hin)%list_elem_of_fmap.
      intros Eid%list_elem_of_singleton. destruct (rg_list _ Hr _ _ _ El Hin) as [_ He']. rewrite Eid in He'. congruence.
    + split_and!; [constructor|set_solver|apply NoDup_singleton].
  - intros id e' [[<- <-]|[_ H]]%lookup_insert_Some; [done|]. apply Hsub. by apply (rg_alarm _ Hr id).
  - intros a Ha Hcb. split; [by apply Ht|]. destruct (Hcase a Ha) as [->|Hold].
    + exists (timerId e), e. rewrite lookup_insert_eq. split; [done|]. by destruct (a_once _).
    + destruct (rg_timers _ Hr _ Hold Hcb) as (_ & id & e' & He' & ?). exists id, e'. rewrite lookup_insert_ne; [done|congruence].
  - intros id id' e1 e2 [[<- <-]|[_ H1]]%lookup_insert_Some [[<- <-]|[_ H2]]%lookup_insert_Some Ho Ef; [done| | |].
    + destruct (Honce _ _ H2 (eq_sym Ef)). congruence.
    + destruct (Honce _ _ H1 Ef). congruence.
    + by eapply (rg_once _ Hr id id').
  - intros id id' e1 e2 [[<- <-]|[_ H1]]%lookup_insert_Some [[<- <-]|[_ H2]]%lookup_insert_Some Ho Ho' Ei; [done| | |].
    + symmetry. by apply (Hshare id').
    + by apply (Hshare id).
    + by apply (rg_shared _ Hr id id').
  - done.
  - intros id e' [[<- <-]|[_ H]]%lookup_insert_Some; [done|]. by eapply (rg_ids _ Hr).
Qed.

(** An entry with an alarm of its own. *)
Lemma reg_add_new r e : reg_ok r -> r_entries r !! timerId e = None -> valid_id (timerId e) ->
  Forall (fun a => a_fd a <> timerFd e) (r_alarms r) ->
  (once e = false -> forall id e', r_entries r !! id = Some e' -> once e' = false -> interval e' <> interval e) ->
  reg_ok (reg_add r e (<[timerFd e := interval e]> (r_timers r)) (r_alarms r ++ [alarm_for e])).
Proof.
  intros Hr Hnew Hid Hfd Hrep. rewrite Forall_forall in Hfd. apply reg_add_tables; try done.
  - set_solver.
  - set_solver.
  - intros a. rewrite elem_of_app, list_elem_of_singleton. naive_solver.
  - intros a [Ha| ->%list_elem_of_singleton]%elem_of_app Hcb; [|by rewrite lookup_insert_eq].
    rewrite lookup_insert_ne by (intros E; by apply (Hfd a)). by apply (rg_timers _ Hr).
  - intros a a' [Ha| ->%list_elem_of_singleton]%elem_of_app [Ha'| ->%list_elem_of_singleton]%elem_of_app E; [|exfalso..|done].
    + by apply (rg_distinct _ Hr).
    + by apply (Hfd a).
    + by apply (Hfd a').
  - intros id e' He' Ef. exfalso. by apply (Hfd (alarm_for e')); [eapply (rg_alarm _ Hr)|].
  - intros id e' He' Ho Ho' Ei. by destruct (Hrep Ho _ _ He' Ho').
Qed.

(** An entry that shares the alarm of its interval. *)
Lemma reg_add_shared r e : reg_ok r -> r_entries r !! timerId e = None -> valid_id (timerId e) -> once e = false ->
  repeats r (interval e) (timerFd e) -> reg_ok (reg_add r e (r_timers r) (r_alarms r)).
Proof.
  intros Hr Hnew Hid Ho (id0 & e0 & He0 & Ho0 & Ei0 & Ef0).
  assert (alarm_for e0 = alarm_for e) as Ea by (unfold alarm_for; congruence).
  apply reg_add_tables; try done.
  - rewrite <- Ea. by eapply (rg_alarm _ Hr).
  - by right.
  - intros a Ha Hcb. by apply (rg_timers _ Hr).
  - apply (rg_distinct _ Hr).
  - intros id e' He' Ef. split; [done|].
    assert (alarm_for e' = alarm_for e) as E; [|by injection E; congruence].
    rewrite <- Ea. apply (rg_distinct _ Hr); [by eapply (rg_alarm _ Hr)|by eapply (rg_alarm _ Hr)|]. cbn. congruence.
  - intros id e' He' _ Ho' Ei. rewrite <- Ef0. apply (rg_shared _ Hr id id0); try done. congruence.
Qed.

(** ** Removing *)

Definition reg_remove (r : registry) (e : TimerEntry) (rest : list TimerEntry) : registry :=
  let i := interval e in
  let timers := if once e then delete (timerFd e) (r_timers r) else r_timers r in
  let alarms := if once e then filter (fun a => a_fd a <> timerFd e) (r_alarms r) else r_alarms r in
  {| r_lists := if decide (rest = []) then delete i (r_lists r) else <[i := rest]> (r_lists r);
     r_entries := delete (timerId e) (r_entries r);
     r_timers := timers;
     r_alarms := if decide (rest = []) then filter (fun a => timers !! a_fd a <> Some i) alarms else alarms |}.

(** The alarms that stay. *)
Lemma reg_remove_alarms r e rest a : a ∈ r_alarms (reg_remove r e rest) <-> a ∈ r_alarms r /\
  (once e = true -> a_fd a <> timerFd e) /\ (rest = [] -> r_timers (reg_remove r e rest) !! a_fd a <> Some (interval e)).
Proof.
  unfold reg_remove. cbn. destruct (decide (rest = [])); destruct (once e); rewrite ?list_elem_of_filter; naive_solver.
Qed.

Lemma reg_remove_ok r e l1 l2 : reg_ok r -> r_lists r !! interval e = Some (l1 ++ e :: l2) ->
  reg_ok (reg_remove r e (l1 ++ l2)).
Proof.
  intros Hr Hl. assert (e ∈ l1 ++ e :: l2) as Hin by set_solver.
  destruct (rg_list _ Hr _ _ _ Hl Hin) as [_ He]. pose proof (rg_nodup _ Hr _ _ Hl) as Hnd.
  assert (forall e', e' ∈ l1 ++ e :: l2 -> timerId e' <> timerId e -> e' ∈ l1 ++ l2) as Hkeep by (intros; set_solver).
  assert (forall e', e' ∈ l1 ++ l2 -> e' ∈ l1 ++ e :: l2 /\ timerId e' <> timerId e) as Hback.
  { rewrite <- Permutation_middle in Hnd. cbn in Hnd. apply NoDup_cons in Hnd as [Hnot _]. intros e' He'. split; [set_solver|].
    intros E. apply Hnot. rewrite <- E. by apply list_elem_of_fmap_2. }
  assert (forall id e', delete (timerId e) (r_entries r) !! id = Some e' -> r_entries r !! id = Some e' /\ id <> timerId e) as Hent.
  { intros id e' [Hne H]%lookup_delete_Some. done. }
  assert (forall a, a_callback a = Some OnTimerCallback -> a ∈ r_alarms r -> (once e = true -> a_fd a <> timerFd e) ->
    r_timers (reg_remove r e (l1 ++ l2)) !! a_fd a = Some (a_interval a)) as Htim.
  { intros a Hcb Ha Hfd. cbn. destruct (once e); [rewrite lookup_delete_ne by (intros E; by apply Hfd)|]; by apply (rg_timers _ Hr). }
  assert (forall id e', r_entries r !! id = Some e' -> id <> timerId e ->
    (once e = true -> timerFd e' <> timerFd e) /\ (l1 ++ l2 = [] -> interval e' <> interval e)) as Hothers.
  { intros id e' He' Hne. destruct (rg_entry _ Hr _ _ He') as (Eid & l & Hl' & Hin'). split.
    - intros Ho Ef. apply Hne. symmetry. by apply (rg_once _ Hr _ _ e e').
    - intros Enil Ei. rewrite Ei, Hl in Hl'. injection Hl' as <-. apply (Hkeep e') in Hin'; [|congruence].
      rewrite Enil in Hin'. by apply elem_of_nil in Hin'. }
  split.
  - intros id e' H%Hent. destruct H as [He' Hne]. destruct (rg_entry _ Hr _ _ He') as (Eid & l & Hl' & Hin'). split; [done|]. cbn.
    destruct (decide (interval e' = interval e)) as [Ei|Hi].
    + rewrite Ei in *. rewrite Hl in Hl'. injection Hl' as <-. apply (Hkeep e') in Hin'; [|congruence]. exists (l1 ++ l2).
      split; [|done]. rewrite decide_False by (intros E; rewrite E in Hin'; by apply elem_of_nil in Hin'). by rewrite lookup_insert_eq.
    + exists l. split; [|done]. destruct (decide _); [by rewrite lookup_delete_ne|by rewrite lookup_insert_ne].
  - intros i l e' Hl' Hin'. cbn in Hl' |- *.
    assert ((i <> interval e /\ r_lists r !! i = Some l) \/ (i = interval e /\ l = l1 ++ l2)) as [[Hi Hl'']|[-> ->]].
    { destruct (decide (l1 ++ l2 = [])).
      - apply lookup_delete_Some in Hl' as [? ?]. by left.
      - apply lookup_insert_Some in Hl' as [[<- <-]|[? ?]]; [by right|by left]. }
    + destruct (rg_list _ Hr _ _ _ Hl'' Hin') as [Ei He']. split; [done|]. rewrite lookup_delete_ne; [done|].
      intros Eid. rewrite <- Eid, He in He'. congruence.
    + destruct (Hback _ Hin') as [Hin2 Hne]. destruct (rg_list _ Hr _ _ _ Hl Hin2). split; [done|]. by rewrite lookup_delete_ne.
  - intros i l Hl'. cbn in Hl'.
    assert (r_lists r !! i = Some l \/ l = l1 ++ l2) as [Hl''| ->].
    { destruct (decide (l1 ++ l2 = [])); [apply lookup_delete_Some in Hl' as [? ?]; by left|].
      apply lookup_insert_Some in Hl' as [[<- <-]|[? ?]]; [by right|by left]. }
    + by apply (rg_nodup _ Hr) in Hl''.
    + rewrite <- Permutation_middle in Hnd. by apply NoDup_cons in Hnd as [_ Hnd].
  - intros id e' H%Hent. destruct H as [He' Hne]. destruct (Hothers _ _ He' Hne) as [Hfd Hi].
    pose proof (rg_alarm _ Hr _ _ He') as Ha. apply reg_remove_alarms. split; [done|]. split; [done|].
    intros Enil. rewrite (Htim (alarm_for e')) by done. cbn. intros [= E]. by apply Hi.
  - intros a (Ha & Hfd & Hi)%reg_remove_alarms Hcb. split; [by apply Htim|]. cbn.
    destruct (rg_timers _ Hr _ Ha Hcb) as (Ht & id & e' & He' & Hcase).
    destruct (decide (id = timerId e)) as [->|Hne]; [|by exists id, e'; rewrite lookup_delete_ne].
    assert (e' = e) as -> by congruence. destruct (a_once a) eqn:Eo.
    { exfalso. assert (alarm_for e = a) as Ea by (apply (rg_distinct _ Hr); [by eapply (rg_alarm _ Hr)|done|done]).
      apply Hfd; [|done]. by rewrite <- Ea in Eo. }
    destruct (l1 ++ l2) as [|e2 l] eqn:Enil; [exfalso; apply Hi; [done|]; rewrite Htim by done; congruence|].
    destruct (Hback e2 ltac:(set_solver)) as [Hin2 Hne]. destruct (rg_list _ Hr _ _ _ Hl Hin2) as [Ei2 He2].
    exists (timerId e2), e2. rewrite lookup_delete_ne by done. split; [done|congruence].
  - intros id id' e1 e2 [H1 _]%Hent [H2 _]%Hent. by apply (rg_once _ Hr).
  - intros id id' e1 e2 [H1 _]%Hent [H2 _]%Hent. by apply (rg_shared _ Hr id id').
  - intros a a' [Ha _]%reg_remove_alarms [Ha' _]%reg_remove_alarms. by apply (rg_distinct _ Hr).
  - intros id e' [H1 _]%Hent. by apply (rg_ids _ Hr _ _ H1).
Qed.

(** ** Looking *)

(** The entries that the subscripts of [OnTimer] create. *)
Definition reg_touch_list (r : registry) (i : Z) : registry :=
  {| r_lists := <[i := default [] (r_lists r !! i)]> (r_lists r); r_entries := r_entries r;
     r_timers := r_timers r; r_alarms := r_alarms r |}.
Definition reg_touch_timer (r : registry) (fd : Z) : registry :=
  {| r_lists := r_lists r; r_entries := r_entries r;
     r_timers := <[fd := default 0 (r_timers r !! fd)]> (r_timers r); r_alarms := r_alarms r |}.

Lemma lookup_touch {V} (m : gmap Z V) k d k' v : m !! k' = Some v -> <[k := default d (m !! k)]> m !! k' = Some v.
Proof. intros Hv. destruct (decide (k = k')) as [<-|Hne]; [by rewrite lookup_insert_eq, Hv|by rewrite lookup_insert_ne]. Qed.

Lemma reg_touch_list_ok r i : reg_ok r -> reg_ok (reg_touch_list r i).
Proof.
  intros Hr.
  assert (forall j l, <[i := default [] (r_lists r !! i)]> (r_lists r) !! j = Some l -> r_lists r !! j = Some l \/ l = []) as Hl.
  { intros j l [[<- <-]|[_ H]]%lookup_insert_Some; [|by left]. destruct (r_lists r !! i); cbn; [by left|by right]. }
  destruct Hr as [R1 R2 R3 R4 R5 R6 R7 R8 R9]. split; cbn; try done.
  - intros id e He. destruct (R1 _ _ He) as (Eid & l & Hl' & Hin). split; [done|]. exists l. split; [by apply lookup_touch|done].
  - intros j l e [H| ->]%Hl; [by apply R2|by intros ?%elem_of_nil].
  - intros j l [H| ->]%Hl; [by apply R3 in H|constructor].
Qed.
Lemma reg_touch_timer_ok r fd : reg_ok r -> reg_ok (reg_touch_timer r fd).
Proof.
  intros [R1 R2 R3 R4 R5 R6 R7 R8 R9]. split; cbn; try done.
  intros a Ha Hcb. destruct (R5 _ Ha Hcb) as (Ht & ?). split; [by apply lookup_touch|done].
Qed.

(** An alarm that is not the timer's. *)
Lemma reg_other_ok r a : reg_ok r -> a_callback a <> Some OnTimerCallback -> Forall (fun b => a_fd b <> a_fd a) (r_alarms r) ->
  reg_ok {| r_lists := r_lists r; r_entries := r_entries r; r_timers := r_timers r; r_alarms := r_alarms r ++ [a] |}.
Proof.
  intros [R1 R2 R3 R4 R5 R6 R7 R8 R9] Hcb Hfd. rewrite Forall_forall in Hfd. split; cbn; try done.
  - intros id e He. apply elem_of_app. left. by apply (R4 id).
  - intros b [Hb| ->%list_elem_of_singleton]%elem_of_app; [by apply R5|done].
  - intros b b' [Hb| ->%list_elem_of_singleton]%elem_of_app [Hb'| ->%list_elem_of_singleton]%elem_of_app E; [by apply R8|exfalso..|done].
    + by apply (Hfd b).
    + by apply (Hfd b').
Qed.
