(* ===== verification/TimerInv.v ===== *)
(** * The identifiers of timers, and the methods that keep the tables

    [Register] counts through the valid identifiers in a ring of [MAX_TIMERS]
    until it meets one that is free. The second part shows that each method of
    a timer keeps its tables. *)

From stdpp Require Import sorting.
From S2P Require Import Prelude Errors EventReactor EventReactorInv EventReactorCalls Timer TimerRegistry EventReactorLoop.

Definition succ_id (id : Z) : Z := GetValidId (u32 (id + 1)).

(** The place of an identifier in the ring. *)
Definition rank (id : Z) : Z := if id <? TIMER_ERR_DEAL_FAILED then id - 1 else id - 2.

Lemma deal_failed_value : TIMER_ERR_DEAL_FAILED = 65547.
Proof. vm_compute. reflexivity. Qed.

Lemma u32_next_id id : 0 <= id < UINT32_MAX -> u32 (id + 1) = id + 1.
Proof. unfold UINT32_MAX. intros ?. unfold u32. apply wrapU_small. lia. Qed.

Lemma GetValidId_valid id : 1 <= id <= UINT32_MAX -> valid_id (GetValidId id).
Proof.
  intros Hid. pose proof deal_failed_value as Hd. unfold valid_id, GetValidId.
  destruct (Z.eqb_spec id TIMER_ERR_DEAL_FAILED) as [->|Hne].
  - rewrite u32_next_id by (unfold UINT32_MAX; lia). unfold UINT32_MAX. lia.
  - destruct (Z.eqb_spec id UINT32_MAX) as [->|Hmax]; unfold UINT32_MAX in *; lia.
Qed.

Lemma rank_range id : valid_id id -> 0 <= rank id < MAX_TIMERS.
Proof.
  intros [H1 H2]. pose proof deal_failed_value. unfold rank, MAX_TIMERS, UINT32_MAX in *.
  destruct (Z.ltb_spec id TIMER_ERR_DEAL_FAILED); lia.
Qed.
Lemma rank_inj id id' : valid_id id -> valid_id id' -> rank id = rank id' -> id = id'.
Proof. intros [? ?] [? ?]. unfold rank. repeat case_bool. Qed.

Lemma succ_id_spec id : valid_id id -> valid_id (succ_id id) /\ rank (succ_id id) = (rank id + 1) mod MAX_TIMERS.
Proof.
  intros Hid. pose proof (rank_range _ Hid) as Hr. destruct Hid as [Hid Hne]. unfold succ_id. rewrite u32_next_id by lia.
  split; [apply GetValidId_valid; lia|]. pose proof deal_failed_value as Hd. unfold GetValidId.
  destruct (Z.eqb_spec (id + 1) TIMER_ERR_DEAL_FAILED) as [E|Hn].
  - rewrite u32_next_id by (unfold UINT32_MAX in *; lia). unfold rank. case_bool. case_bool.
    rewrite Z.mod_small; [lia|]. unfold MAX_TIMERS, UINT32_MAX. lia.
  - destruct (Z.eqb_spec (id + 1) UINT32_MAX) as [E|Hm].
    + assert (rank id = MAX_TIMERS - 1) as ->.
      { unfold rank, MAX_TIMERS, UINT32_MAX in *. case_bool. }
      rewrite Z.sub_add, Z.mod_same by (unfold MAX_TIMERS, UINT32_MAX; lia). vm_compute. reflexivity.
    + rewrite Z.mod_small.
      * unfold rank. destruct (Z.ltb_spec (id + 1) TIMER_ERR_DEAL_FAILED), (Z.ltb_spec id TIMER_ERR_DEAL_FAILED); lia.
      * unfold rank, MAX_TIMERS, UINT32_MAX in *. destruct (Z.ltb_spec id TIMER_ERR_DEAL_FAILED); lia.
Qed.

(** The identifiers the search visits. *)
Fixpoint ids_from (n : nat) (id : Z) : list Z :=
  match n with O => [] | S n => id :: ids_from n (succ_id id) end.

Lemma ids_from_ranks n id x : valid_id id -> x ∈ ids_from n id ->
  valid_id x /\ exists k, 0 <= k < Z.of_nat n /\ rank x = (rank id + k) mod MAX_TIMERS.
Proof.
  revert id. induction n as [|n IH]; intros id Hid; cbn [ids_from]; [by intros ?%elem_of_nil|].
  intros [->|Hx]%elem_of_cons.
  - split; [done|]. exists 0. split; [lia|]. rewrite Z.add_0_r, Z.mod_small; [done|]. by apply rank_range.
  - destruct (succ_id_spec _ Hid) as [Hs Er]. destruct (IH _ Hs Hx) as (Hv & k & Hk & E). split; [done|].
    exists (k + 1). split; [lia|]. rewrite E, Er, Zplus_mod_idemp_l. f_equal. lia.
Qed.

Lemma ids_from_NoDup n id : valid_id id -> Z.of_nat n <= MAX_TIMERS -> NoDup (ids_from n id).
Proof.
  revert id. induction n as [|n IH]; intros id Hid Hn; cbn [ids_from]; [constructor|].
  destruct (succ_id_spec _ Hid) as [Hs Er]. apply NoDup_cons. split; [|apply IH; [done|lia]].
  intros Hx. destruct (ids_from_ranks _ _ _ Hs Hx) as (_ & k & Hk & E). rewrite Er, Zplus_mod_idemp_l in E.
  pose proof (rank_range _ Hid) as Hr. set (m := MAX_TIMERS) in *.
  assert (rank id + 1 + k < m \/ m <= rank id + 1 + k < 2 * m) as [?|?] by lia.
  - rewrite Z.mod_small in E by lia. lia.
  - assert ((rank id + 1 + k) mod m = rank id + 1 + k - m) as Em.
    { symmetry. apply Z.mod_unique with 1; lia. }
    lia.
Qed.

(** A search that fails has seen only identifiers in use. *)
Lemma find_id_spec fuel (entries : gmap Z TimerEntry) id : valid_id id ->
  match find_id fuel entries id with
  | Some new => entries !! new = None /\ valid_id new
  | None => forall x, x ∈ ids_from fuel id -> is_Some (entries !! x)
  end.
Proof.
  revert id. induction fuel as [|fuel IH]; intros id Hid; cbn [find_id ids_from]; [by intros x ?%elem_of_nil|].
  case_bool_decide as Hin; [|split; [by apply eq_None_not_Some|done]].
  destruct (succ_id_spec _ Hid) as [Hs _]. specialize (IH _ Hs). unfold succ_id in *. destruct (find_id fuel entries _); [done|].
  intros x [->|Hx]%elem_of_cons; [done|by apply IH].
Qed.

Lemma length_ids_from n id : length (ids_from n id) = n.
Proof. revert id. induction n; intros id; cbn; [done|]. by f_equal. Qed.

(** As long as fewer than [MAX_TIMERS] are registered the search succeeds. *)
Lemma next_id_spec (entries : gmap Z TimerEntry) id : 1 <= id <= UINT32_MAX -> Z.of_nat (size entries) < MAX_TIMERS ->
  exists new, next_id entries id = Some new /\ entries !! new = None /\ valid_id new.
Proof.
  intros Hid Hn. pose proof (GetValidId_valid _ Hid) as Hv. unfold next_id.
  pose proof (find_id_spec (S (size entries)) entries _ Hv) as Hf.
  destruct (find_id _ entries _) as [new|]; [by exists new|]. exfalso.
  assert (NoDup (ids_from (S (size entries)) (GetValidId id))) as Hnd by (apply ids_from_NoDup; [done|lia]).
  assert (length (ids_from (S (size entries)) (GetValidId id)) <= size entries)%nat as Hle; [|rewrite length_ids_from in Hle; lia].
  rewrite <- (size_list_to_set (C := gset Z) _ Hnd), <- size_dom. apply subseteq_size. intros x Hx.
  rewrite size_dom in Hx. apply elem_of_dom, Hf. by apply elem_of_list_to_set in Hx.
Qed.

Section methods.
Context {K : Type} `{TimerSysLaws K}.
Notation world := (world K).
Implicit Types w : world.
Implicit Types B : gset Z.

Definition reg w : registry :=
  {| r_lists := intervalToTimers_ (timer w); r_entries := timerToEntries_ (timer w); r_timers := timers_ (timer w);
     r_alarms := alarms (rs w) |}.

(** The invariant of the tables and of the objects. *)
Record good B w : Prop := {
  gd_rinv : rinv [] B (rs w);
  gd_reg : reg_ok (reg w);
  gd_next : 1 <= nextTimerId (timer w) <= UINT32_MAX;
}.

(** What the methods leave alone. *)
Definition kept w w' : Prop :=
  loop w' = loop w /\ control w' = control w /\ log w' = log w /\ same_flags (rs w) (rs w') /\ (armed (rs w) -> armed (rs w')) /\
  timeoutMs_ (timer w') = timeoutMs_ (timer w) /\ thread_ (timer w') = thread_ (timer w).
#[export] Instance kept_refl : Reflexive kept.
Proof. by intros w. Qed.
#[export] Instance kept_trans : Transitive kept.
Proof.
  intros w1 w2 w3 (E1 & E2 & E3 & F1 & A1 & T1 & J1) (E4 & E5 & E6 & F2 & A2 & T2 & J2).
  unfold kept. split; [congruence|]. split; [congruence|]. split; [congruence|]. split; [by etrans|]. split; [auto|]. split; congruence.
Qed.

Lemma wp_reactor {A} (m : ST (reactor_state K) A) (Q : A -> world -> Prop) w :
  wp m (fun a r => Q a {| timer := timer w; rs := r; loop := loop w; control := control w; log := log w |}) (rs w) ->
  wp (reactor_ m) Q w.
Proof. unfold wp, reactor_. by destruct (m (rs w)) as [[a r]|]. Qed.

(** A call of the reactor from the timer. *)
Definition called_rs B w w' (l : list alarm) : Prop :=
  timer w' = timer w /\ kept w w' /\ rinv [] B (rs w') /\ alarms (rs w') = l.

Lemma CancelTimer_rs fd B w : rinv [] B (rs w) ->
  wp (reactor_ (CancelTimer fd)) (fun _ w' => called_rs B w w' (filter (fun a => a_fd a <> fd) (alarms (rs w)))) w.
Proof.
  intros Hi. apply wp_reactor. eapply wp_mono; [by apply CancelTimer_spec|]. cbn beta. intros _ r (Hi' & Hf & Ha & El).
  split; [done|]. split; [|by split]. unfold kept. cbn. by split_and!.
Qed.

(** ** [DoUnregister] *)

Lemma elem_of_in_order (m : gmap Z Z) fd i : (fd, i) ∈ in_order m <-> m !! fd = Some i.
Proof.
  unfold in_order. rewrite list_elem_of_omap. split.
  - intros (k & _ & (j & Hj & [= -> ->])%fmap_Some). done.
  - intros Hm. exists fd. rewrite Hm. split; [|done]. unfold keys. rewrite merge_sort_Permutation.
    apply elem_of_elements, elem_of_dom. by exists i.
Qed.

Lemma DoUnregister_loop_spec i l B w : rinv [] B (rs w) ->
  wp (DoUnregister_loop l i) (fun _ w' => called_rs B w w' (filter (fun a => (a_fd a, i) ∉ l) (alarms (rs w)))) w.
Proof.
  revert w. induction l as [|[fd j] l IH]; intros w Hi; cbn [DoUnregister_loop].
  - wps. split; [done|]. split; [done|]. split; [done|]. rewrite filter_all; [done|]. apply Forall_forall. intros a _. by apply not_elem_of_nil.
  - wps. assert (wp (if j =? i then reactor_ (CancelTimer fd) else mret tt)
      (fun _ w' => called_rs B w w' (filter (fun a => (a_fd a, i) <> (fd, j)) (alarms (rs w)))) w) as Hc.
    { destruct (Z.eqb_spec j i) as [->|Hne].
      - eapply wp_mono; [by apply CancelTimer_rs|]. cbn beta. intros _ w' (Et & Hk & Hi' & Ea). split; [done|]. split; [done|].
        split; [done|]. rewrite Ea. apply list_filter_iff. intros a. split; congruence.
      - wps. split; [done|]. split; [done|]. split; [done|]. rewrite filter_all; [done|]. apply Forall_forall. congruence. }
    eapply wp_mono; [exact Hc|]. cbn beta. intros _ w1 (Et1 & Hk1 & Hi1 & Ea1). eapply wp_mono; [by apply IH|]. cbn beta.
    intros _ w2 (Et2 & Hk2 & Hi2 & Ea2). split; [congruence|]. split; [by etrans|]. split; [done|].
    rewrite Ea2, Ea1, list_filter_filter. apply list_filter_iff. intros a. rewrite not_elem_of_cons. tauto.
Qed.

Lemma DoUnregister_spec i B w : rinv [] B (rs w) ->
  wp (DoUnregister i) (fun _ w' => called_rs B w w' (filter (fun a => timers_ (timer w) !! a_fd a <> Some i) (alarms (rs w)))) w.
Proof.
  intros Hi. unfold DoUnregister. wps. eapply wp_mono; [by apply DoUnregister_loop_spec|]. cbn beta.
  intros _ w' (Et & Hk & Hi' & Ea). split; [done|]. split; [done|]. split; [done|]. rewrite Ea. apply list_filter_iff.
  intros a. by rewrite elem_of_in_order.
Qed.
End methods.

(** [tms] steps through a method of a timer. *)
Ltac tms :=
  repeat (wps; match goal with
  | |- wp (upd_timer _) _ _ => unfold upd_timer
  | |- wp (set_loop _) _ _ => unfold set_loop
  | |- wp (set_control _) _ _ => unfold set_control
  | |- wp (emit _) _ _ => unfold emit
  end); wps.
