(* ===== verification/TimerCalls.v ===== *)
(** * What the methods of a timer do to its entries *)

From S2P Require Import Prelude Errors EventReactor EventReactorInv EventReactorCalls EventReactorLoop.
From S2P Require Import Timer TimerRegistry TimerInv.

Section calls.
Context {K : Type} `{TimerSysLaws K}.
Notation world := (world K).
Implicit Types w : world.
Implicit Types B : gset Z.

Notation entries w := (timerToEntries_ (timer w)).
Notation lists w := (intervalToTimers_ (timer w)).

(** ** [Register] *)

(** The descriptor that the repeating entries of an interval share. *)
Lemma GetTimerFd_loop_spec l fd : GetTimerFd_loop l = fd -> fd <> INVALID_TIMER_FD -> exists e, e ∈ l /\ once e = false /\ timerFd e = fd.
Proof.
  induction l as [|e l IH]; cbn; [congruence|]. destruct (once e) eqn:Eo; cbn.
  - intros E Hne. destruct (IH E Hne) as (e' & ? & ?). exists e'. split; [by right|done].
  - intros E _. exists e. split; [by left|done].
Qed.
Lemma GetTimerFd_loop_none l : GetTimerFd_loop l = INVALID_TIMER_FD -> (forall e, e ∈ l -> timerFd e <> INVALID_TIMER_FD) ->
  forall e, e ∈ l -> once e = true.
Proof.
  induction l as [|e l IH]; cbn; intros E Hne e'; [by intros ?%elem_of_nil|]. destruct (once e) eqn:Eo; cbn in E.
  - intros [->|Hin]%elem_of_cons; [done|]. apply IH; [done|set_solver|done].
  - exfalso. apply (Hne e); [set_solver|done].
Qed.

Lemma alarm_fd_nonneg B w a : rinv [] B (rs w) -> a ∈ alarms (rs w) -> 0 <= a_fd a.
Proof. intros Hi (h & x & _ & Hx & <-)%(alarm_in _ _ _ _ Hi). by destruct (ri_fd _ _ _ Hi _ _ Hx). Qed.
Lemma entry_fd_nonneg B w id e : good B w -> entries w !! id = Some e -> 0 <= timerFd e.
Proof. intros [Hi Hr _] He. apply (rg_alarm _ Hr) in He. by apply (alarm_fd_nonneg _ _ _ Hi) in He. Qed.

Lemma GetTimerFd_spec i B w : good B w -> wp (GetTimerFd i) (fun fd w' => w' = w /\
  if fd =? INVALID_TIMER_FD
  then forall id e, entries w !! id = Some e -> once e = false -> interval e <> i
  else repeats (reg w) i fd) w.
Proof.
  intros Hg. unfold GetTimerFd. tms. pose proof (gd_reg _ _ Hg) as Hr. destruct (lists w !! i) as [l|] eqn:El; tms; (split; [done|]).
  - destruct (Z.eqb_spec (GetTimerFd_loop l) INVALID_TIMER_FD) as [E|Hne].
    + intros id e He Ho Ei. destruct (rg_entry _ Hr _ _ He) as (_ & l' & Hl' & Hin). cbn in Hl'. rewrite Ei, El in Hl'. injection Hl' as <-.
      assert (once e = true); [|congruence]. apply (GetTimerFd_loop_none l); [done| |done]. intros e' Hin'.
      destruct (rg_list _ Hr _ _ _ El Hin') as [_ He']. pose proof (entry_fd_nonneg _ _ _ _ Hg He'). unfold INVALID_TIMER_FD. lia.
    + destruct (GetTimerFd_loop_spec l _ eq_refl Hne) as (e & Hin & Ho & Ef). destruct (rg_list _ Hr _ _ _ El Hin) as [Ei He].
      by exists (timerId e), e.
  - change (INVALID_TIMER_FD =? INVALID_TIMER_FD) with true. intros id e He _ <-.
    destruct (rg_entry _ Hr _ _ He) as (_ & l & Hl & _). cbn in Hl. congruence.
Qed.

(** The alarm of a new entry: one of its own. *)
Lemma DoRegister_spec i once fd0 B w : good B w -> wp (DoRegister i once fd0) (fun r w' =>
  rinv [] B (rs w') /\ kept w w' /\ 
  if r.1 =? TIMER_ERR_OK
  then 0 <= r.2 /\ Forall (fun a => a_fd a <> r.2) (alarms (rs w)) /\ timer w' = set_timers (<[r.2 := i]> (timers_ (timer w))) (timer w) /\
       alarms (rs w') = alarms (rs w) ++ [{| a_fd := r.2; a_once := once; a_interval := i; a_callback := Some OnTimerCallback |}]
  else timer w' = timer w /\ alarms (rs w') = alarms (rs w)) w.
Proof.
  intros [Hi Hr _]. unfold DoRegister. tms. apply wp_reactor. eapply wp_mono; [by apply ScheduleTimer_spec|]. cbn beta.
  intros [ret fd] r (Hi' & Hf & Ha & Hcase). cbn [fst snd] in *. set (w1 := {| timer := _; rs := r; loop := _; control := _; log := _ |}).
  assert (kept w w1) as Hk by done. destruct (Z.eqb_spec ret TIMER_ERR_OK) as [->|Hne]; cbn [negb orb].
  - destruct Hcase as (Hfd & Hall & El). destruct (Z.ltb_spec fd 0) as [?|_]; [lia|]. tms. cbn [fst snd].
    change (TIMER_ERR_OK =? TIMER_ERR_OK) with true. split; [done|]. split; [|done]. done.
  - tms. cbn [fst snd]. rewrite (proj2 (Z.eqb_neq _ _) Hne). done.
Qed.

Definition new_entry (id cb i : Z) (once : bool) (fd : Z) : TimerEntry :=
  {| timerId := id; interval := i; callback := cb; once := once; timerFd := fd |}.

Lemma Register_spec cb i o B w : good B w -> Z.of_nat (size (entries w)) < MAX_TIMERS ->
  wp (Register cb i o) (fun ret w' => good B w' /\ kept w w' /\
    if ret =? TIMER_ERR_DEAL_FAILED then entries w' = entries w
    else next_id (entries w) (nextTimerId (timer w)) = Some ret /\ entries w !! ret = None /\
         exists fd, entries w' = <[ret := new_entry ret cb i o fd]> (entries w)) w.
Proof.
  intros Hg Hsize. pose proof Hg as [Hi Hr Hn]. destruct (next_id_spec (entries w) _ Hn Hsize) as (id & Eid & Hnew & Hid).
  assert (1 <= u32 (id + 1) <= UINT32_MAX) as Hnext by (destruct Hid; rewrite u32_next_id; lia).
  assert ((id =? TIMER_ERR_DEAL_FAILED) = false) as Hidf by (apply Z.eqb_neq, Hid).
  unfold Register. tms.
  assert (wp (if o then mret INVALID_TIMER_FD else GetTimerFd i) (fun fd w' => w' = w /\
     if fd =? INVALID_TIMER_FD then o = false -> forall id e, entries w !! id = Some e -> once e = false -> interval e <> i
     else o = false /\ repeats (reg w) i fd) w) as Hget.
  { destruct o; [by tms|]. eapply wp_mono; [by apply (GetTimerFd_spec i B)|]. cbn beta. intros fd w' [-> Hfd].
    by destruct (fd =? INVALID_TIMER_FD). }
  eapply wp_mono; [exact Hget|]. cbn beta. intros fd w' [-> Hfd]. tms. destruct (Z.eqb_spec fd INVALID_TIMER_FD) as [Efd|Hne]; [subst fd|].
  - eapply wp_mono; [by apply (DoRegister_spec i o INVALID_TIMER_FD B)|]. cbn beta. intros [ret fd] w1 (Hi1 & Hk1 & Hcase). cbn [fst snd] in Hcase.
    destruct (Z.eqb_spec ret TIMER_ERR_OK) as [->|Hret]; tms.
    + destruct Hcase as (Hfd0 & Hall & Et1 & Ea1). apply (wp_access _ id); [by rewrite Et1|]. tms. rewrite Hidf.
      split; [|split; [exact Hk1|split_and!; [done..|]; exists fd; cbn; by rewrite Et1]].
      split; [done| |done]. unfold reg. cbn [timer rs set_nextId set_lists set_entries intervalToTimers_ timerToEntries_ timers_].
      rewrite Ea1, Et1. cbn [set_timers intervalToTimers_ timerToEntries_ timers_].
      change (reg_ok (reg_add (reg w) (new_entry id cb i o fd) (<[fd := i]> (r_timers (reg w))) (r_alarms (reg w) ++ [alarm_for (new_entry id cb i o fd)]))).
      by apply (reg_add_new _ (new_entry id cb i o fd)).
    + destruct Hcase as [Et1 Ea1]. change (TIMER_ERR_DEAL_FAILED =? TIMER_ERR_DEAL_FAILED) with true. split; [|by rewrite Et1].
      split; [done| |by rewrite Et1]. unfold reg. by rewrite Et1, Ea1.
  - destruct Hfd as [-> Hrep]. tms. change (TIMER_ERR_OK =? TIMER_ERR_OK) with true. tms. apply (wp_access _ id); [done|]. tms. rewrite Hidf.
    split; [|split; [done|split_and!; [done..|]; by exists fd]].
    split; [done| |done].
    change (reg_ok (reg_add (reg w) (new_entry id cb i false fd) (r_timers (reg w)) (r_alarms (reg w)))).
    by apply (reg_add_shared _ (new_entry id cb i false fd)).
Qed.

(** ** [Unregister] and [EraseUnusedTimerId] *)

(** The tables of [w'] are those of [w] without an entry. *)
Definition removed B w w' e rest : Prop :=
  kept w w' /\ rinv [] B (rs w') /\ reg w' = reg_remove (reg w) e rest /\ nextTimerId (timer w') = nextTimerId (timer w).

Lemma removed_good B w w' e l1 l2 : good B w -> lists w !! interval e = Some (l1 ++ e :: l2) ->
  removed B w w' e (l1 ++ l2) -> good B w'.
Proof. intros [Hi Hr Hn] Hl (_ & Hi' & Er & En). split; [done|rewrite Er; by apply reg_remove_ok|by rewrite En]. Qed.

(** A change of the tables after a call. *)
Lemma kept_timer w w' t : kept w w' -> timeoutMs_ t = timeoutMs_ (timer w) -> thread_ t = thread_ (timer w) ->
  kept w {| timer := t; rs := rs w'; loop := loop w'; control := control w'; log := log w' |}.
Proof. intros (? & ? & ? & ? & ? & _ & _) ? ?. unfold kept. by split_and!. Qed.

(** The alarm of a one-shot entry goes. *)
Lemma cancel_spec e B w : rinv [] B (rs w) ->
  wp (reactor_ (CancelTimer (timerFd e));; upd_timer (fun t => set_timers (delete (timerFd e) (timers_ t)) t))
    (fun _ w' => kept w w' /\ rinv [] B (rs w') /\ alarms (rs w') = filter (fun a => a_fd a <> timerFd e) (alarms (rs w)) /\
      timer w' = set_timers (delete (timerFd e) (timers_ (timer w))) (timer w)) w.
Proof.
  intros Hi. tms. eapply wp_mono; [by apply CancelTimer_rs|]. cbn beta. intros _ w1 (Et1 & Hk1 & Hi1 & Ea1). tms.
  rewrite Et1. split; [by apply kept_timer|]. done.
Qed.

(** What the end of both functions does when the list is empty. *)
Lemma drop_interval i B w : rinv [] B (rs w) ->
  wp (upd_timer (fun t => set_lists (delete i (intervalToTimers_ t)) t);; DoUnregister i)
    (fun _ w' => kept w w' /\ rinv [] B (rs w') /\ timer w' = set_lists (delete i (lists w)) (timer w) /\
      alarms (rs w') = filter (fun a => timers_ (timer w) !! a_fd a <> Some i) (alarms (rs w))) w.
Proof.
  intros Hi. tms. eapply wp_mono; [by apply DoUnregister_spec|]. cbn beta. intros _ w' (Et & Hk & Hi' & Ea). split; [exact Hk|]. split; [done|].
  split; [exact Et|exact Ea].
Qed.

Lemma EraseUnused_step i e rest B w (k : ST world unit) Q : rinv [] B (rs w) -> once e = true -> interval e = i ->
  (forall w', removed B w w' e rest ->
     if bool_decide (rest = []) then Q tt w' else wp k Q w') ->
  wp (reactor_ (CancelTimer (timerFd e));;
      upd_timer (fun t => set_timers (delete (timerFd e) (timers_ t)) t);;
      upd_timer (fun t => set_lists (<[i := rest]> (intervalToTimers_ t)) t);;
      upd_timer (fun t => set_entries (delete (timerId e) (timerToEntries_ t)) t);;
      if bool_decide (rest = []) then
        upd_timer (fun t => set_lists (delete i (intervalToTimers_ t)) t);;
        DoUnregister i
      else k) Q w.
Proof.
  intros Hi Ho <- HQ. apply wp_bind. eapply wp_mono; [by apply CancelTimer_rs|]. cbn beta. intros _ w1 (Et1 & Hk1 & Hi1 & Ea1). tms.
  rewrite Et1. cbn [set_timers set_lists set_entries timers_ intervalToTimers_ timerToEntries_].
  set (w2 := {| timer := _; rs := _; loop := _; control := _; log := _ |}).
  destruct (bool_decide_reflect (rest = [])) as [Enil|Hne].
  - change (wp (upd_timer (fun t => set_lists (delete (interval e) (intervalToTimers_ t)) t);; DoUnregister (interval e)) Q w2).
    eapply wp_mono; [by apply (drop_interval _ B)|]. cbn beta. intros [] w3 (Hk3 & Hi3 & Et3 & Ea3).
    apply HQ. split; [etrans; [|exact Hk3]; by apply (kept_timer w w1)|]. split; [done|].
    split; [|by rewrite Et3]. unfold reg, reg_remove. rewrite Ho, decide_True by done. rewrite Et3, Ea3. cbn.
    f_equal; [by rewrite delete_insert_eq|]. by rewrite decide_True, Ea1 by done.
  - apply HQ. split; [by apply (kept_timer w w1)|]. split; [done|]. split; [|done].
    unfold reg, reg_remove. rewrite Ho, decide_False by done. cbn. by rewrite decide_False, Ea1 by done.
Qed.

Lemma Unregister_loop_eq before l1 e l2 id w : timerId e = id -> (forall x, x ∈ l1 -> timerId x <> id) ->
  Unregister_loop before (l1 ++ e :: l2) id w =
  ((if once e then
      reactor_ (CancelTimer (timerFd e));;
      upd_timer (fun t => set_timers (delete (timerFd e) (timers_ t)) t)
    else mret tt);; mret (before ++ l1 ++ l2)) w.
Proof.
  intros Hid. revert before. induction l1 as [|x l1 IH]; intros before Hl1; cbn [Unregister_loop app].
  - rewrite Hid, Z.eqb_refl. done.
  - rewrite (proj2 (Z.eqb_neq _ _)) by (apply Hl1; by left). rewrite IH by (intros y Hy; apply Hl1; by right).
    by rewrite <- app_assoc.
Qed.

(** An entry in its place. *)
Lemma entry_place B w id e : good B w -> entries w !! id = Some e -> exists l1 l2,
  lists w !! interval e = Some (l1 ++ e :: l2) /\ timerId e = id /\ forall x, x ∈ l1 -> timerId x <> id.
Proof.
  intros [_ Hr _] He. destruct (rg_entry _ Hr _ _ He) as (Eid & l & Hl & (l1 & l2 & ->)%list_elem_of_split).
  exists l1, l2. split; [done|]. split; [done|]. intros x Hx E. pose proof (rg_nodup _ Hr _ _ Hl) as Hnd.
  rewrite fmap_app in Hnd. apply NoDup_app in Hnd as (_ & Hnd & _). apply (Hnd (timerId x)); [by apply list_elem_of_fmap_2|].
  rewrite E, <- Eid. by left.
Qed.

Lemma Unregister_spec id B w : good B w ->
  wp (Unregister id) (fun _ w' => good B w' /\ kept w w' /\ entries w' = delete id (entries w)) w.
Proof.
  intros Hg. pose proof Hg as [Hi Hr Hn]. unfold Unregister. apply wp_bind, wp_get. destruct (entries w !! id) as [e|] eqn:He; tms.
  2: { split; [done|]. split; [done|]. by rewrite delete_id. }
  destruct (entry_place _ _ _ _ Hg He) as (l1 & l2 & Hl & Eid & Hl1). rewrite Hl. cbn [default from_option Datatypes.id].
  eapply (wp_eq _ _ _ _ (Unregister_loop_eq [] l1 e l2 id w Eid Hl1)).
  cbn [app]. set (rest := l1 ++ l2). tms.
  assert (wp (if once e then reactor_ (CancelTimer (timerFd e));; upd_timer (fun t => set_timers (delete (timerFd e) (timers_ t)) t) else mret tt)
    (fun _ w1 => kept w w1 /\ rinv [] B (rs w1) /\
       alarms (rs w1) = (if once e then filter (fun a => a_fd a <> timerFd e) (alarms (rs w)) else alarms (rs w)) /\
       timer w1 = set_timers (if once e then delete (timerFd e) (timers_ (timer w)) else timers_ (timer w)) (timer w)) w) as Hc.
  { destruct (once e); [by apply cancel_spec|]. tms. split_and!; try done. by destruct (timer w). }
  eapply wp_mono; [exact Hc|]. cbn beta. intros _ w1 (Hk1 & Hi1 & Ea1 & Et1). tms. rewrite Et1.
  cbn [set_timers set_lists intervalToTimers_].
  set (w2 := {| timer := _; rs := _; loop := _; control := _; log := _ |}).
  assert (forall w', removed B w w' e rest -> good B w' /\ kept w w' /\ entries w' = delete id (entries w)) as Hdone.
  { intros w' Hrem. split; [by apply (removed_good B w w' e l1 l2)|]. split; [apply Hrem|]. destruct Hrem as (_ & _ & Er & _).
    change (r_entries (reg w') = delete id (entries w)). rewrite Er. cbn. by rewrite Eid. }
  destruct (bool_decide_reflect (rest = [])) as [Enil|Hne].
  - eapply wp_mono; [by apply (drop_interval _ B)|]. cbn beta. intros _ w3 (Hk3 & Hi3 & Et3 & Ea3). tms. apply Hdone.
    split; [etrans; [by apply (kept_timer w w1 (timer w2))|]; by apply (kept_timer w2 w3); rewrite ?Et3|]. split; [done|].
    split; [|by rewrite Et3]. unfold reg, reg_remove. cbn. rewrite Et3, Ea3. cbn. rewrite !decide_True, Ea1 by done.
    rewrite delete_insert_eq, Eid. by destruct (once e).
  - tms. apply Hdone. split; [by apply (kept_timer w w1)|]. split; [done|].
    split; [|done]. unfold reg, reg_remove. cbn. rewrite !decide_False, Ea1 by done. by rewrite Eid.
Qed.

(** The interval and its list, made when they are missing. *)
Lemma touch_list_good B w i : good B w ->
  good B {| timer := set_lists (<[i := default [] (lists w !! i)]> (lists w)) (timer w); rs := rs w; loop := loop w;
            control := control w; log := log w |}.
Proof. intros [Hi Hr Hn]. split; [done| |done]. apply (reg_touch_list_ok _ i Hr). Qed.
Lemma touch_timer_good B w fd : good B w ->
  good B {| timer := set_timers (<[fd := default 0 (timers_ (timer w) !! fd)]> (timers_ (timer w))) (timer w); rs := rs w;
            loop := loop w; control := control w; log := log w |}.
Proof. intros [Hi Hr Hn]. split; [done| |done]. apply (reg_touch_timer_ok _ fd Hr). Qed.

Lemma OnTimer_begin_spec fd B w : good B w -> wp (OnTimer_begin fd) (fun r w' => good B w' /\ kept w w' /\
  entries w' = entries w /\ r = (default 0 (timers_ (timer w) !! fd), default [] (lists w !! default 0 (timers_ (timer w) !! fd)))) w.
Proof.
  intros Hg. unfold OnTimer_begin. tms. split; [|done]. apply (touch_timer_good _ _ fd) in Hg.
  apply (touch_list_good _ _ (default 0 (timers_ (timer w) !! fd))) in Hg. exact Hg.
Qed.

(** The identifiers in [unused] leave the list and the table. *)
Lemma EraseUnused_loop_spec i unused before rest B w : good B w -> lists w !! i = Some (before ++ rest) ->
  (forall e, e ∈ rest -> timerId e ∈ unused -> once e = true) ->
  wp (EraseUnused_loop i unused before rest) (fun _ w' => good B w' /\ kept w w' /\
    forall id, entries w' !! id = if bool_decide (id ∈ unused /\ id ∈ timerId <$> rest) then None else entries w !! id) w.
Proof.
  revert before w. induction rest as [|e rest IH]; intros before w Hg Hl Honce; cbn [EraseUnused_loop].
  { tms. split; [done|]. split; [done|]. intros id. rewrite bool_decide_eq_false_2; [done|]. intros [_ ?%elem_of_nil]. done. }
  assert (NoDup (timerId <$> (before ++ e :: rest))) as Hnd by (by apply (rg_nodup _ (gd_reg _ _ Hg)) in Hl).
  destruct (bool_decide_reflect (timerId e ∈ unused)) as [Hin|Hnot]; cbn [negb].
  - destruct (rg_list _ (gd_reg _ _ Hg) i (before ++ e :: rest) e Hl ltac:(set_solver)) as [Ei He].
    eapply EraseUnused_step; [apply Hg|by apply Honce; [left|]|done|]. intros w1 Hrem.
    assert (good B w1) as Hg1 by (rewrite <- Ei in Hl; by apply (removed_good B w w1 e before rest)).
    destruct Hrem as (Hk1 & _ & Er1 & _).
    assert (entries w1 = delete (timerId e) (entries w)) as Ee1 by (change (r_entries (reg w1) = delete (timerId e) (entries w)); by rewrite Er1).
    destruct (bool_decide_reflect (before ++ rest = [])) as [Enil|Hne].
    + apply app_eq_nil in Enil as [-> ->]. split; [done|]. split; [done|]. intros id. rewrite Ee1. cbn.
      case_bool_decide as Hid.
      * destruct Hid as [_ ->%list_elem_of_singleton]. apply lookup_delete_eq.
      * rewrite lookup_delete_ne; [done|]. intros <-. apply Hid. split; [done|]. by left.
    + eapply wp_mono; [apply (IH before w1 Hg1)|].
      * change (r_lists (reg w1) !! i = Some (before ++ rest)). rewrite Er1. cbn. rewrite decide_False by done. by rewrite Ei, lookup_insert_eq.
      * intros e' He'. apply Honce. by right.
      * cbn beta. intros _ w2 (Hg2 & Hk2 & Hent). split; [done|]. split; [by etrans|]. intros id. rewrite Hent, Ee1. cbn [fmap list_fmap].
        destruct (decide (id = timerId e)) as [->|Hid].
        -- rewrite lookup_delete_eq, (bool_decide_eq_true_2 (timerId e ∈ unused /\ timerId e ∈ timerId e :: (timerId <$> rest))) by (split; [done|by left]).
           by destruct (bool_decide _).
        -- rewrite lookup_delete_ne by done. rewrite (bool_decide_ext (id ∈ unused /\ id ∈ timerId <$> rest)
             (id ∈ unused /\ id ∈ timerId e :: (timerId <$> rest))); [done|set_solver].
  - eapply wp_mono; [apply (IH (before ++ [e]) w Hg)|].
    + by rewrite <- app_assoc.
    + intros e' He'. apply Honce. by right.
    + cbn beta. intros _ w2 (Hg2 & Hk2 & Hent). split; [done|]. split; [done|]. intros id. rewrite Hent. cbn [fmap list_fmap].
      rewrite (bool_decide_ext (id ∈ unused /\ id ∈ timerId <$> rest)
        (id ∈ unused /\ id ∈ timerId e :: (timerId <$> rest))); [done|set_solver].
Qed.

Lemma EraseUnused_spec i unused B w : good B w ->
  (forall e, e ∈ default [] (lists w !! i) -> timerId e ∈ unused -> once e = true) ->
  wp (EraseUnusedTimerId i unused) (fun _ w' => good B w' /\ kept w w' /\
    forall id, entries w' !! id =
      if bool_decide (id ∈ unused /\ id ∈ timerId <$> default [] (lists w !! i)) then None else entries w !! id) w.
Proof.
  intros Hg Honce. unfold EraseUnusedTimerId. tms. eapply wp_mono.
  - apply EraseUnused_loop_spec; [by apply touch_list_good| |done]. cbn. by rewrite lookup_insert_eq.
  - cbn beta. intros _ w' (Hg' & Hk' & Hent). split; [done|]. by split.
Qed.
End calls.
