(* ===== verification/TimerLoop.v ===== *)
(** * Every step of a program keeps the invariant of the timer *)

From S2P Require Import Prelude Errors EventReactor EventReactorInv EventReactorCalls EventReactorLoop.
From S2P Require Import Timer TimerRegistry TimerInv TimerCalls.

Section steps.
Context {K : Type} `{TimerSysLaws K}.
Notation world := (world K).
Implicit Types w : world.
Implicit Types B : gset Z.

Notation entries w := (timerToEntries_ (timer w)).
Notation lists w := (intervalToTimers_ (timer w)).
Notation tasks w := (taskQue (rs w)).

(** The tasks the loop thread still has are owned by the queue of [Polling]. *)
Definition loop_ok w : Prop :=
  match loop w with
  | Dispatching _ ts | Calling _ ts _ _ _ _ => forall h ev, (h, ev) ∈ ts -> h ∈ (tasks w).*1
  | _ => tasks w = []
  end.

(** What [OnTimer] copied still agrees with the table. *)
Definition pending_ok w : Prop :=
  match loop w with
  | Calling _ _ _ _ es ids =>
      (forall e e', e ∈ es -> entries w !! timerId e = Some e' -> e' = e) /\
      (forall id e', id ∈ ids -> entries w !! id = Some e' -> once e' = true)
  | _ => True
  end.

Record tinv B w : Prop := {
  ti_good : good B w;
  ti_armed : CleanedUp ∉ log w -> armed (rs w);
  ti_loop : loop_ok w;
  ti_pending : pending_ok w;
}.

(** Where the entries, the pending identifiers and the calls of [w'] come from. *)
Definition registers (ev : event) w (id : Z) : Prop :=
  match ev with CRegister _ _ _ => next_id (entries w) (nextTimerId (timer w)) = Some id | _ => False end.
(** Callbacks may be called. *)
Definition on w : bool := loopReady_ (reactor (rs w)) && switch_ (reactor (rs w)).
(** What a client does to a loop thread that runs. *)
Definition client_frame (ev : event) w w' : Prop :=
  match loop w with
  | Idle | Ended => True
  | _ => loop w' = loop w /\ log w' = log w /\ (on w' = on w \/ exists useJoin, ev = CShutdown useJoin /\ on w' = false)
  end.
(** What [OnTimer] is about to erase. *)
Definition erasing (l : loop_pc) : list Z := match l with Calling _ _ _ _ [] ids => ids | _ => [] end.
Record evolves (ev : event) w w' : Prop := {
  ev_entries : forall id, is_Some (entries w' !! id) -> is_Some (entries w !! id) \/ registers ev w id;
  ev_pending : forall id, id ∈ pending_ids (loop w') -> id ∈ pending_ids (loop w) \/ is_Some (entries w !! id);
  ev_log : exists new, log w' = log w ++ new /\ forall e, Called e ∈ new -> timerId e ∈ pending_ids (loop w);
  ev_kept : forall id e, id ∈ pending_ids (loop w) -> entries w' !! id = Some e -> entries w !! id = Some e;
  ev_stays : forall id e, entries w !! id = Some e ->
    entries w' !! id = Some e \/ ev = CUnregister id \/ (ev = LoopStep /\ id ∈ erasing (loop w));
  ev_client : ev <> LoopStep -> client_frame ev w w';
}.

(** A step that leaves entries, pending identifiers and log alone. *)
Lemma evolves_same ev w w' : entries w' = entries w -> pending_ids (loop w') = pending_ids (loop w) -> log w' = log w ->
  (ev <> LoopStep -> client_frame ev w w') -> evolves ev w w'.
Proof.
  intros Ee Ep El Hc. split; rewrite ?Ee, ?Ep; try done; [by left|by left| |by left]. exists []. rewrite app_nil_r.
  split; [done|]. by intros e ?%elem_of_nil.
Qed.
Lemma client_frame_same ev w w' : loop w' = loop w -> log w' = log w -> on w' = on w -> client_frame ev w w'.
Proof. intros El Elog Eon. unfold client_frame. destruct (loop w); try done; (split; [done|split; [done|by left]]). Qed.
Lemma client_frame_kept ev w w' : kept w w' -> client_frame ev w w'.
Proof.
  intros (El & _ & Elog & (E1 & E2 & _) & _). apply client_frame_same; [done..|]. unfold on. by rewrite E1, E2.
Qed.
#[local] Hint Resolve client_frame_kept : core.
Lemma evolves_refl ev w : evolves ev w w.
Proof. apply evolves_same; try done. intros _. by apply client_frame_same. Qed.

Lemma good_rs B w w' : good B w -> timer w' = timer w -> rinv [] B (rs w') -> alarms (rs w') = alarms (rs w) -> good B w'.
Proof. intros [Hi Hr Hn] Et Hi' Ea. split; [done|unfold reg; by rewrite Et, Ea|by rewrite Et]. Qed.

(** ** The calls of a client *)

Lemma tinv_kept B w w' : tinv B w -> good B w' -> kept w w' ->
  (forall id e, entries w' !! id = Some e -> entries w !! id = Some e \/ id ∉ pending_ids (loop w)) -> tinv B w'.
Proof.
  intros [Hg Ha Hl Hp] Hg' (Eloop & _ & Elog & (_ & _ & Et) & Harm & _) Hent. split; [done|rewrite Elog; auto| |].
  - unfold loop_ok. by rewrite Eloop, Et.
  - unfold pending_ok in *. rewrite Eloop. destruct (loop w); try done. cbn [pending_ids] in Hent.
    destruct Hp as [Hp1 Hp2]. split.
    + intros e e' He He'. destruct (Hent _ _ He') as [Hold|Hno]; [by apply Hp1|]. exfalso. apply Hno, elem_of_app. left.
      by apply list_elem_of_fmap_2.
    + intros id e' Hid He'. destruct (Hent _ _ He') as [Hold|Hno]; [by apply (Hp2 id)|]. exfalso. apply Hno, elem_of_app. by right.
Qed.

Lemma CRegister_spec cb i o B w : tinv B w -> room w = true ->
  wp (exec (CRegister cb i o)) (fun _ w' => tinv B w' /\ evolves (CRegister cb i o) w w') w.
Proof.
  intros Ht Hroom. pose proof Ht as [Hg _ _ _]. unfold room in Hroom. apply andb_true_iff in Hroom as [Hsize%Z.ltb_lt Hid].
  cbn [exec]. tms. eapply wp_mono; [by apply (Register_spec cb i o B)|]. cbn beta. intros ret w' (Hg' & Hk & Hent). tms.
  pose proof Hk as (Eloop & _ & Elog & _). destruct (ret =? TIMER_ERR_DEAL_FAILED).
  - split; [by apply (tinv_kept B w); [..|intros id e; rewrite Hent; left]|]. apply evolves_same; [congruence..|auto].
  - destruct Hent as (Enext & Hnew & fd & Ee). rewrite Enext in Hid. apply bool_decide_eq_true in Hid. split.
    + apply (tinv_kept B w); [done..|]. intros id e. rewrite Ee. intros [[<- <-]|[_ He]]%lookup_insert_Some; [by right|by left].
    + split; rewrite ?Eloop; [|by left|exists []; rewrite app_nil_r; split; [done|by intros e ?%elem_of_nil]| | |auto].
      * intros id. rewrite Ee. intros [e [[<- _]|[_ He]]%lookup_insert_Some]; [by right|left; by exists e].
      * intros id e Hp. rewrite Ee. by intros [[<- <-]|[_ He]]%lookup_insert_Some.
      * intros id e He. left. rewrite Ee, lookup_insert_ne; [done|]. intros <-. congruence.
Qed.

Lemma CUnregister_spec id B w : tinv B w ->
  wp (exec (CUnregister id)) (fun _ w' => tinv B w' /\ evolves (CUnregister id) w w') w.
Proof.
  intros Ht. cbn [exec]. eapply wp_mono; [apply (Unregister_spec id B), Ht|]. cbn beta. intros _ w' (Hg' & Hk & Ee).
  pose proof Hk as (Eloop & _ & Elog & _). split.
  - apply (tinv_kept B w); [done..|]. intros id' e. rewrite Ee. intros [_ He]%lookup_delete_Some. by left.
  - split; rewrite ?Eloop; [|by left|exists []; rewrite app_nil_r; split; [done|by intros e ?%elem_of_nil]| | |auto].
    + intros id'. rewrite Ee. intros [e [_ He]%lookup_delete_Some]. left. by exists e.
    + intros id' e _. rewrite Ee. by intros [_ He]%lookup_delete_Some.
    + intros id' e He. rewrite Ee. destruct (decide (id = id')) as [->|Hne]; [by right; left|]. left. by rewrite lookup_delete_ne.
Qed.

(** Throwing the switch of the reactor. *)
Lemma set_switch_spec b B (r : reactor_state K) : rinv [] B r ->
  let r' := {| reactor := set_switch b (reactor r); demux := demux r; handlers := handlers r; taskQue := taskQue r; kernel := kernel r |} in
  rinv [] B r' /\ alarms r' = alarms r /\ (armed r -> armed r').
Proof. intros Hi. split; [|done]. by apply (rinv_owners [] [] B r); [..|apply (ri_list _ _ _ Hi)]. Qed.
Lemma set_loopReady_spec b B (r : reactor_state K) : rinv [] B r ->
  let r' := {| reactor := set_loopReady b (reactor r); demux := demux r; handlers := handlers r; taskQue := taskQue r; kernel := kernel r |} in
  rinv [] B r' /\ alarms r' = alarms r /\ (armed r -> armed r').
Proof. intros Hi. split; [|done]. by apply (rinv_owners [] [] B r); [..|apply (ri_list _ _ _ Hi)]. Qed.

Lemma tinv_switch ev b c B w : tinv B w ->
  let r' := {| reactor := set_switch b (reactor (rs w)); demux := demux (rs w); handlers := handlers (rs w);
               taskQue := taskQue (rs w); kernel := kernel (rs w) |} in
  let w' := {| timer := timer w; rs := r'; loop := loop w; control := c; log := log w |} in
  client_frame ev w w' -> tinv B w' /\ evolves ev w w'.
Proof.
  intros Ht r' w' Hc. pose proof Ht as [Hg Ha Hl Hp]. destruct (set_switch_spec b B (rs w) (gd_rinv _ _ Hg)) as (Hi1 & Ea1 & Harm1).
  split; [|by apply evolves_same]. split; cbn; [|by auto|done|done].
  split; [done| |apply Hg]. exact (gd_reg _ _ Hg).
Qed.

Lemma CSetup_spec B w : tinv B w -> enabled w CSetup = true ->
  wp (exec CSetup) (fun _ w' => tinv B w' /\ evolves CSetup w w') w.
Proof.
  intros Ht He. cbn [exec enabled] in *. unfold Setup. tms. destruct (thread_ (timer w)) eqn:Eth; tms.
  { split; [done|apply evolves_refl]. }
  apply wp_reactor. rms. tms. cbn. apply tinv_switch; [done|]. unfold client_frame. by destruct (control w), (loop w).
Qed.

Lemma CSetupThread_spec B w : tinv B w -> enabled w CSetupThread = true ->
  wp (exec CSetupThread) (fun _ w' => tinv B w' /\ evolves CSetupThread w w') w.
Proof.
  intros Ht He. pose proof Ht as [Hg Ha Hl Hp]. cbn [exec]. unfold Setup_thread. tms.
  cbn [enabled] in He. assert (tasks w = [] /\ pending_ids (loop w) = []) as [Et Ep]
    by (unfold loop_ok in Hl; by destruct (control w), (loop w)).
  split; [|apply evolves_same; try done; unfold client_frame; by destruct (control w), (loop w)]. split; cbn; [|by auto|done|done].
  split; [apply Hg| |apply Hg]. exact (gd_reg _ _ Hg).
Qed.

Lemma CShutdown_spec useJoin B w : tinv B w ->
  wp (exec (CShutdown useJoin)) (fun _ w' => tinv B w' /\ evolves (CShutdown useJoin) w w') w.
Proof.
  intros Ht. cbn [exec]. unfold Shutdown. tms. destruct (thread_ (timer w)); tms.
  2: { split; [done|apply evolves_refl]. }
  apply wp_reactor. rms. tms. cbn. apply tinv_switch; [done|]. unfold client_frame, on. cbn. rewrite andb_false_r.
  destruct (loop w); try done; (split; [done|split; [done|right; by exists useJoin]]).
Qed.

Lemma CShutdownThread_spec B w : tinv B w ->
  wp (exec CShutdownThread) (fun _ w' => tinv B w' /\ evolves CShutdownThread w w') w.
Proof.
  intros Ht. pose proof Ht as [Hg Ha Hl Hp]. cbn [exec]. tms.
  assert (tinv B w /\ evolves CShutdownThread w w) as Hsame by (split; [done|apply evolves_refl]).
  destruct (control w) as [| |useJoin|]; tms; try exact Hsame. unfold Shutdown_thread. tms.
  pose proof (gd_rinv _ _ Hg) as Hi1. destruct (_ && _); tms.
  - apply wp_reactor. eapply wp_mono; [by apply (ScheduleTimer_spec _ _ _ _ B)|]. cbn beta.
    intros [ret fd] r2 (Hi2 & (El2 & Es2 & Et2) & Harm2 & Hcase). tms. cbn [fst snd timer rs loop control log] in *.
    split; [|apply evolves_same; try done; intros _; apply client_frame_same; unfold on; cbn; by rewrite ?El2, ?Es2].
    split; cbn; [|by auto|unfold loop_ok in *; cbn; by rewrite Et2|done].
    split; cbn; [done| |apply Hg]. pose proof (gd_reg _ _ Hg) as Hr. unfold reg in *. cbn [timer rs set_thread intervalToTimers_ timerToEntries_ timers_].
    destruct (ret =? TIMER_ERR_OK); [|by rewrite Hcase]. destruct Hcase as (_ & Hall & ->).
    by apply (reg_other_ok _ {| a_fd := fd; a_once := true; a_interval := 0; a_callback := Some PseudoTask |} Hr).
  - assert (forall t j, intervalToTimers_ t = lists w -> entries w = timerToEntries_ t -> timers_ t = timers_ (timer w) -> nextTimerId t = nextTimerId (timer w) ->
      let w' := {| timer := t; rs := rs w; loop := loop w; control := j; log := log w |} in
      tinv B w' /\ evolves CShutdownThread w w') as Hdone.
    { intros t j El Ee Em En w'. split; [|by apply evolves_same; [..|intros _; apply client_frame_same]]. split; cbn; [|by auto|done|].
      - split; cbn; [done| |rewrite En; apply Hg]. pose proof (gd_reg _ _ Hg) as Hr. unfold reg in *. cbn. rewrite El, <- Ee, Em. exact Hr.
      - unfold pending_ok in *. cbn. by rewrite <- Ee. }
    destruct useJoin; tms; by apply Hdone.
Qed.

Lemma CJoined_spec B w : tinv B w -> wp (exec CJoined) (fun _ w' => tinv B w' /\ evolves CJoined w w') w.
Proof.
  intros Ht. pose proof Ht as [Hg Ha Hl Hp]. cbn [exec]. unfold Shutdown_joined. tms. split; [|by apply evolves_same; [..|intros _; apply client_frame_same]].
  split; try done. split; apply Hg.
Qed.

(** ** The loop thread *)

(** A step of the loop thread outside [OnTimer]. *)
Lemma tinv_loop B w w' : tinv B w -> good B w' -> entries w' = entries w ->
  ((exists new, log w' = log w ++ new) /\ (CleanedUp ∉ log w' -> armed (rs w) -> armed (rs w'))) ->
  loop_ok w' -> (match loop w' with Calling _ _ _ _ _ _ => False | _ => True end) -> tinv B w'.
Proof.
  intros [Hg Ha Hl Hp] Hg' Ee [[new El] Harm] Hl' Hc. split; try done.
  - intros Hno. apply Harm; [done|]. apply Ha. rewrite El in Hno. set_solver.
  - unfold pending_ok. by destruct (loop w').
Qed.
Lemma evolves_loop w w' : entries w' = entries w -> log w' = log w -> pending_ids (loop w') = [] -> evolves LoopStep w w'.
Proof.
  intros Ee El Ep. split; rewrite ?Ee, ?Ep; try done; [by left|by intros id ?%elem_of_nil| |by left]. exists []. rewrite app_nil_r.
  split; [done|by intros e ?%elem_of_nil].
Qed.

(** The same, when only the reactor and the place have changed. *)
Lemma loop_step_done B w r l : tinv B w -> rinv [] B r -> alarms r = alarms (rs w) -> (armed (rs w) -> armed r) ->
  match l with
  | Dispatching _ ts => forall h ev, (h, ev) ∈ ts -> h ∈ (taskQue r).*1
  | Calling _ _ _ _ _ _ => False
  | _ => taskQue r = []
  end ->
  let w' := {| timer := timer w; rs := r; loop := l; control := control w; log := log w |} in
  tinv B w' /\ evolves LoopStep w w'.
Proof.
  intros Ht Hi Ea Harm Hl w'. split.
  - apply (tinv_loop B w); [done|by apply (good_rs B w); [apply Ht|..]|done| | |].
    + split; [exists []; by rewrite app_nil_r|done].
    + unfold loop_ok, w'. cbn. by destruct l.
    + unfold w'. cbn. by destruct l.
  - apply evolves_loop; [done|done|]. unfold w'. cbn. by destruct l.
Qed.

Lemma LoopStep_running B w : tinv B w ->
  match loop w with Starting | Looping | Waiting | Collecting _ | Dispatching _ [] => True | _ => False end ->
  wp loop_step (fun _ w' => tinv B w' /\ evolves LoopStep w w') w.
Proof.
  intros Ht Hcase. pose proof (gd_rinv _ _ (ti_good _ _ Ht)) as Hi. pose proof (ti_loop _ _ Ht) as Hl. unfold loop_ok in Hl.
  unfold loop_step. apply wp_bind, wp_get. unfold Datatypes.id. destruct (loop w) as [| | | |evs|nfds [|? ?]| | |] eqn:Eloop; try done.
  - tms. apply wp_reactor. eapply wp_mono; [by apply (timer_SetUp_spec B)|]. cbn beta. intros ret r (Hi1 & Et1 & Ea1 & Harm1). tms.
    apply (loop_step_done B w); try done. destruct (ret =? TIMER_ERR_OK); cbn; congruence.
  - unfold RunLoop. tms. destruct (_ && _); tms; [by apply (loop_step_done B w)|]. apply wp_reactor. rms. tms.
    destruct (set_loopReady_spec false B (rs w) Hi) as (Hi1 & Ea1 & Harm1). by apply (loop_step_done B w).
  - unfold RunLoop_poll. tms. apply wp_reactor. eapply wp_mono; [by apply (Polling_wait_spec _ B)|]. cbn beta. intros res r Hs.
    pose proof (rinv_same _ _ _ _ Hs Hi) as Hi1. destruct (same_objects_alarms _ _ Hs) as (_ & Ea1 & Harm1).
    assert (taskQue r = []) as Et1 by (by rewrite (so_tasks _ _ Hs)).
    destruct res as [|err|evs]; tms; [by apply (loop_step_done B w)| |by apply (loop_step_done B w)].
    destruct (_ =? _); tms; [|by apply (loop_step_done B w)]. apply wp_reactor. rms. tms.
    destruct (set_loopReady_spec false B r Hi1) as (Hi2 & Ea2 & Harm2).
    apply (loop_step_done B w); [done|exact Hi2|exact Ea1|by intros ?; apply Harm2, Harm1|done].
  - tms. apply wp_reactor. eapply wp_mono; [by apply (Polling_collect_spec evs B)|]. cbn beta. intros [] r (Hi1 & _ & Ea1 & Harm1). tms.
    apply (loop_step_done B w); try done. intros h ev Hin. cbn. apply list_elem_of_fmap. by exists (h, ev).
  - tms. apply wp_reactor. eapply wp_mono; [by apply (Polling_end_spec nfds B)|]. cbn beta. intros [] r (Hi1 & (_ & Ea1 & Harm1) & Et1). tms.
    by apply (loop_step_done B w).
Qed.

Lemma LoopStep_ending B w : tinv B w -> loop w = Ending -> wp loop_step (fun _ w' => tinv B w' /\ evolves LoopStep w w') w.
Proof.
  intros Ht Eloop. pose proof (gd_rinv _ _ (ti_good _ _ Ht)) as Hi. pose proof (ti_loop _ _ Ht) as Hl. unfold loop_ok in Hl.
  unfold loop_step. apply wp_bind, wp_get. unfold Datatypes.id. rewrite Eloop in *. tms. apply wp_reactor.
  eapply wp_mono; [by apply (CleanUp_spec B)|]. cbn beta. intros [] r (Hi1 & (_ & _ & Et1) & Ea1). tms. cbn [log].
  split.
  - apply (tinv_loop B w); [done|by apply (good_rs B w); [apply Ht|..]|done| | |done].
    + split; [by eexists|]. cbn. intros Hno. exfalso. apply Hno. set_solver.
    + unfold loop_ok. cbn. by rewrite Et1.
  - split; try done; [by left|by intros id ?%elem_of_nil| |by left]. exists [CleanedUp]. split; [done|]. by intros e [=]%list_elem_of_singleton.
Qed.

(** The next task: a timer of the list, which [OnTimer] looks up. *)
Lemma LoopStep_task nfds h ev ts B w : tinv B w -> loop w = Dispatching nfds ((h, ev) :: ts) ->
  wp loop_step (fun _ w' => tinv B w' /\ evolves LoopStep w w') w.
Proof.
  intros Ht Eloop. pose proof Ht as [Hg Ha Hl Hp]. unfold loop_ok in Hl. rewrite Eloop in Hl.
  unfold loop_step. apply wp_bind, wp_get. unfold Datatypes.id. rewrite Eloop. tms. apply wp_reactor.
  eapply wp_mono; [apply (timer_HandleEvents_spec h ev B); [apply Hg|by apply (Hl h ev); left]|]. cbn beta. intros res r [Hs Hres].
  pose proof (rinv_same _ _ _ _ Hs (gd_rinv _ _ Hg)) as Hi1. destruct (same_objects_alarms _ _ Hs) as (_ & Ea1 & Harm1).
  assert (forall h ev, (h, ev) ∈ ts -> h ∈ (taskQue r).*1) as Hts.
  { intros h' ev' Hin. rewrite (so_tasks _ _ Hs). apply (Hl h' ev'). by right. }
  assert (forall l, l = Dispatching nfds ts -> tinv B {| timer := timer w; rs := r; loop := l; control := control w; log := log w |} /\
    evolves LoopStep w {| timer := timer w; rs := r; loop := l; control := control w; log := log w |}) as Hskip.
  { intros l ->. by apply (loop_step_done B w). }
  destruct res as [[[|] fd]|]; tms; [|by apply Hskip|by apply Hskip].
  set (w1 := {| timer := _; rs := r; loop := _; control := _; log := _ |}).
  assert (good B w1) as Hg1 by by apply (good_rs B w).
  eapply wp_mono; [by apply (OnTimer_begin_spec fd B)|]. cbn beta. intros [i l] w2 (Hg2 & (_ & _ & Elog2 & (_ & _ & Et2) & Harm2 & _) & Ee2 & [= -> ->]). tms.
  cbn [w1 timer rs log] in *. set (i := default 0 _). set (l := default [] _).
  assert (forall e, e ∈ l -> entries w !! timerId e = Some e) as Hin.
  { intros e He. unfold l in He. destruct (lists w !! i) as [l'|] eqn:El; [|by apply elem_of_nil in He].
    by destruct (rg_list _ (gd_reg _ _ Hg) _ _ _ El He). }
  split.
  - split; cbn.
    + split; [apply Hg2|exact (gd_reg _ _ Hg2)|apply Hg2].
    + rewrite Elog2. auto.
    + unfold loop_ok. cbn. rewrite Et2. exact Hts.
    + unfold pending_ok. cbn. rewrite Ee2. split; [|by intros id e' ?%elem_of_nil]. intros e e' He He'. apply Hin in He. congruence.
  - split; cbn; rewrite ?Ee2; try done; [by left| |exists []; rewrite Elog2, app_nil_r; split; [done|by intros e ?%elem_of_nil]|by left].
    intros id. rewrite app_nil_r. intros (e & -> & He)%list_elem_of_fmap. right. rewrite Hin by done. by eexists.
Qed.

(** The next entry of [OnTimer]. *)
Lemma LoopStep_entry nfds ts fd i e es ids B w : tinv B w -> loop w = Calling nfds ts fd i (e :: es) ids ->
  wp loop_step (fun _ w' => tinv B w' /\ evolves LoopStep w w') w.
Proof.
  intros Ht Eloop. pose proof Ht as [Hg Ha Hl Hp]. unfold loop_ok in Hl. unfold pending_ok in Hp. rewrite Eloop in Hl, Hp.
  destruct Hp as [Hp1 Hp2]. unfold loop_step. apply wp_bind, wp_get. unfold Datatypes.id. rewrite Eloop. apply wp_bind.
  assert (forall ids' new, (forall id, id ∈ ids' -> id ∈ ids \/ (id = timerId e /\ once e = true)) -> (forall x, Called x ∈ new -> x = e) -> CleanedUp ∉ new ->
    let w' := {| timer := timer w; rs := rs w; loop := Calling nfds ts fd i es ids'; control := control w; log := log w ++ new |} in
    tinv B w' /\ evolves LoopStep w w') as Hdone.
  { intros ids' new Hids Hnew Hclean w'. split; split; cbn.
    - split; apply Hg.
    - intros Hno. apply Ha. set_solver.
    - done.
    - unfold pending_ok. cbn. split; [intros x e' Hx; apply Hp1; by right|]. intros id e' [Hid|[-> Ho]]%Hids He'; [by apply (Hp2 id)|].
      rewrite (Hp1 e e'); [done|by left|done].
    - by left.
    - intros id. rewrite Eloop. cbn [pending_ids]. intros [Hid|Hid]%elem_of_app; left.
      + apply elem_of_app. left. cbn. by right.
      + apply elem_of_app. destruct (Hids _ Hid) as [?|[-> _]]; [by right|]. left. by left.
    - exists new. split; [done|]. intros x ->%Hnew. rewrite Eloop. cbn. by left.
    - done.
    - by left.
    - done. }
  unfold OnTimer_entry. destruct (negb (timerFd e =? fd)); tms.
  - rewrite <- (app_nil_r (log w)). apply Hdone; [by left|by intros x ?%elem_of_nil|by intros ?%elem_of_nil].
  - assert (forall id, id ∈ (if once e then ids ++ [timerId e] else ids) -> id ∈ ids \/ (id = timerId e /\ once e = true)) as Hids.
    { intros id. destruct (once e); [|by left]. intros [?| ->%list_elem_of_singleton]%elem_of_app; [by left|by right]. }
    destruct (_ && _); tms; cbn [timer rs loop control log].
    + apply Hdone; [done|by intros x [= ->]%list_elem_of_singleton|by intros [=]%list_elem_of_singleton].
    + rewrite <- (app_nil_r (log w)). apply Hdone; [done|by intros x ?%elem_of_nil|by intros ?%elem_of_nil].
Qed.

(** The end of [OnTimer]. *)
Lemma LoopStep_erase nfds ts fd i ids B w : tinv B w -> loop w = Calling nfds ts fd i [] ids ->
  wp loop_step (fun _ w' => (tinv B w' /\ evolves LoopStep w w') /\ loop w' = Dispatching nfds ts /\ log w' = log w /\
    forall id, entries w' !! id =
      if bool_decide (id ∈ ids /\ id ∈ timerId <$> default [] (lists w !! i)) then None else entries w !! id) w.
Proof.
  intros Ht Eloop. pose proof Ht as [Hg Ha Hl Hp]. unfold loop_ok in Hl. unfold pending_ok in Hp. rewrite Eloop in Hl, Hp.
  destruct Hp as [_ Hp2]. unfold loop_step. apply wp_bind, wp_get. unfold Datatypes.id. rewrite Eloop. apply wp_bind.
  assert (forall w1, good B w1 -> kept w w1 -> (forall id, entries w1 !! id =
      if bool_decide (id ∈ ids /\ id ∈ timerId <$> default [] (lists w !! i)) then None else entries w !! id) ->
    wp (set_loop (Dispatching nfds ts)) (fun _ w' => (tinv B w' /\ evolves LoopStep w w') /\ loop w' = Dispatching nfds ts /\ log w' = log w /\
      forall id, entries w' !! id =
        if bool_decide (id ∈ ids /\ id ∈ timerId <$> default [] (lists w !! i)) then None else entries w !! id) w1) as Hdone.
  { intros w1 Hg1 (_ & _ & Elog & (_ & _ & Et) & Harm & _) Hent. tms. cbn. split; [|by split_and!]. split; split; cbn.
    - split; apply Hg1.
    - rewrite Elog. auto.
    - unfold loop_ok. cbn. by rewrite Et.
    - done.
    - intros id. rewrite Hent. destruct (bool_decide _); [by intros []|by left].
    - by intros id ?%elem_of_nil.
    - exists []. rewrite app_nil_r. split; [done|by intros e ?%elem_of_nil].
    - intros id e _. rewrite Hent. by destruct (bool_decide _).
    - intros id e He. rewrite Hent, Eloop. cbn. case_bool_decide as Hin; [right; right; by split; [|apply Hin]|by left].
    - done. }
  destruct (bool_decide_reflect (ids = [])) as [->|Hne].
  - tms. apply Hdone; [done|done|]. intros id. rewrite bool_decide_eq_false_2; [done|]. by intros [?%elem_of_nil _].
  - eapply wp_mono; [apply (EraseUnused_spec i ids B); [done|]|].
    + intros e He Hid. destruct (lists w !! i) as [l|] eqn:El; [|by apply elem_of_nil in He].
      destruct (rg_list _ (gd_reg _ _ Hg) _ _ _ El He) as [_ He']. by apply (Hp2 (timerId e)).
    + cbn beta. intros [] w1 (Hg1 & Hk1 & Hent). by apply Hdone.
Qed.

Lemma LoopStep_spec B w : tinv B w -> enabled w LoopStep = true ->
  wp (exec LoopStep) (fun _ w' => tinv B w' /\ evolves LoopStep w w') w.
Proof.
  intros Ht He. cbn [exec enabled] in *. destruct (loop w) as [| | | |evs|nfds [|[h ev] ts]|nfds ts fd i [|e es] ids| |] eqn:Eloop; try done.
  1-5: apply LoopStep_running; [done|by rewrite Eloop].
  - by eapply LoopStep_task.
  - eapply wp_mono; [by eapply LoopStep_erase|]. cbn beta. by intros _ w' [? _].
  - by eapply LoopStep_entry.
  - by apply LoopStep_ending.
Qed.

(** Every step. *)
Lemma timer_exec_spec ev B w : tinv B w -> enabled w ev = true -> wp (exec ev) (fun _ w' => tinv B w' /\ evolves ev w w') w.
Proof.
  intros Ht He. destruct ev.
  - cbn [enabled] in He. apply andb_true_iff in He as [_ He]. by apply CRegister_spec.
  - by apply CUnregister_spec.
  - by apply CSetup_spec.
  - by apply CSetupThread_spec.
  - by apply CShutdown_spec.
  - by apply CShutdownThread_spec.
  - by apply CJoined_spec.
  - by apply LoopStep_spec.
Qed.
End steps.
