(* ===== verification/TimerProps.v ===== *)
(** * Properties of timers

    For any program of clients, any interleaving with the loop thread and any
    kernel. *)

From S2P Require Import Prelude Errors EventReactor EventReactorInv EventReactorCalls EventReactorLoop.
From S2P Require Import Timer TimerRegistry TimerInv TimerCalls TimerLoop.

Section runs.
Context {K : Type} `{TimerSysLaws K}.
Notation world := (world K).
Implicit Types w : world.
Implicit Types B : gset Z.

Notation entries w := (timerToEntries_ (timer w)).
Notation lists w := (intervalToTimers_ (timer w)).

Lemma Timer_ctor_tinv timeoutMs (k : K) : (forall fd, fd ∈ open_fds k -> 0 <= fd) -> tinv (open_fds k) (Timer_ctor timeoutMs k).
Proof.
  intros HB. destruct (EventReactor_ctor_spec k HB) as (Hi & Ea & Et & Harm). split; try done.
  split; [done| |cbn; unfold UINT32_MAX; lia]. unfold reg. cbn. rewrite Ea. apply reg_ok_empty.
Qed.

(** Steps that are allowed are taken. *)
Lemma step_spec ev B w : tinv B w -> enabled w ev = true ->
  exists w', step w ev = Some w' /\ tinv B w' /\ evolves ev w w'.
Proof.
  intros Ht He. pose proof (timer_exec_spec _ _ _ Ht He) as ([] & w' & E & Hw')%wp_elim. exists w'. unfold step. by rewrite He, E.
Qed.
Lemma step_inv ev B w w' : tinv B w -> step w ev = Some w' -> tinv B w' /\ evolves ev w w'.
Proof.
  intros Ht Hs. destruct (enabled w ev) eqn:He; [|unfold step in Hs; by rewrite He in Hs].
  destruct (step_spec _ _ _ Ht He) as (w1 & E & ?). congruence.
Qed.
Lemma run_tinv evs B w w' : tinv B w -> run w evs = Some w' -> tinv B w'.
Proof. intros Ht. apply (run_steps_inv _ (tinv B)); [|done]. intros w1 ev w2 Ht1 Hs. by eapply step_inv. Qed.

(** ** An expiry *)

Definition due (fd : Z) (l : list TimerEntry) : list TimerEntry := filter (fun e => timerFd e = fd) l.
Definition due_once (fd : Z) (l : list TimerEntry) : list Z := timerId <$> filter (fun e => timerFd e = fd /\ once e = true) l.
Definition calls (w : world) (l : list TimerEntry) : list log_entry :=
  if loopReady_ (reactor (rs w)) && switch_ (reactor (rs w)) then Called <$> l else [].

Lemma calls_cons w x l : calls w (x :: l) = calls w [x] ++ calls w l.
Proof. unfold calls. by destruct (_ && _). Qed.

Lemma due_one fd e : due fd [e] = if timerFd e =? fd then [e] else [].
Proof. unfold due. rewrite filter_cons. destruct (Z.eqb_spec (timerFd e) fd); by case_decide. Qed.
Lemma due_once_one fd e : due_once fd [e] = if timerFd e =? fd then if once e then [timerId e] else [] else [].
Proof.
  unfold due_once. rewrite filter_cons. destruct (Z.eqb_spec (timerFd e) fd), (once e) eqn:Eo; case_decide; naive_solver.
Qed.

(** [OnTimer] passes over one entry. *)
Lemma entry_step n ts fd i e es ids B w : tinv B w -> loop w = Calling n ts fd i (e :: es) ids ->
  exists w1, step w LoopStep = Some w1 /\ tinv B w1 /\ timer w1 = timer w /\ on w1 = on w /\
    loop w1 = Calling n ts fd i es (ids ++ due_once fd [e]) /\ log w1 = log w ++ calls w (due fd [e]).
Proof.
  intros Ht El.
  assert (wp loop_step (fun _ w1 => timer w1 = timer w /\ on w1 = on w /\ loop w1 = Calling n ts fd i es (ids ++ due_once fd [e]) /\
    log w1 = log w ++ calls w (due fd [e])) w) as Hone.
  { rewrite due_one, due_once_one. unfold loop_step. apply wp_bind, wp_get. unfold Datatypes.id. rewrite El. apply wp_bind.
    unfold OnTimer_entry, calls, on. destruct (timerFd e =? fd); tms.
    - destruct (loopReady_ _ && switch_ _) eqn:Eon, (once e); tms; cbn; by rewrite ?Eon, ?app_nil_r.
    - destruct (loopReady_ _ && switch_ _) eqn:Eon; cbn; by rewrite ?Eon, ?app_nil_r. }
  apply wp_elim in Hone as ([] & w1 & E1 & Hw1). exists w1.
  assert (step w LoopStep = Some w1) as Hstep by (unfold step; cbn [enabled exec]; by rewrite El, E1).
  split; [done|]. split; [by eapply step_inv|done].
Qed.

Lemma due_app fd l1 l2 : due fd (l1 ++ l2) = due fd l1 ++ due fd l2.
Proof. apply filter_app. Qed.
Lemma due_once_app fd l1 l2 : due_once fd (l1 ++ l2) = due_once fd l1 ++ due_once fd l2.
Proof. unfold due_once. by rewrite filter_app, fmap_app. Qed.
Lemma due_once_sub fd l id : id ∈ due_once fd l -> id ∈ timerId <$> l.
Proof. unfold due_once. intros (e' & -> & [_ Hin]%list_elem_of_filter)%list_elem_of_fmap. by apply list_elem_of_fmap_2. Qed.

(** The steps of the loop thread among [evs]. *)
Fixpoint loop_steps (evs : list event) : nat :=
  match evs with
  | [] => O
  | LoopStep :: evs => S (loop_steps evs)
  | _ :: evs => loop_steps evs
  end.

(** Nothing holds [OnTimer] up. *)
Lemma OnTimer_not_held n ts fd i es ids B w : tinv B w -> loop w = Calling n ts fd i es ids ->
  is_Some (run w (replicate (length es + 1) LoopStep)).
Proof.
  unfold run. revert w ids. induction es as [|e es IH]; intros w ids Ht El; cbn [length Nat.add replicate run_steps].
  - destruct (step_spec LoopStep B w Ht) as (w1 & -> & _); [cbn; by rewrite El|]. by eexists.
  - destruct (entry_step _ _ _ _ _ _ _ _ _ Ht El) as (w1 & -> & Ht1 & _ & _ & El1 & _). by eapply IH.
Qed.

(** [OnTimer] passes over its list, with the calls of clients in between. *)
Lemma OnTimer_runs n ts fd i es ids evs B w w' : tinv B w -> loop w = Calling n ts fd i es ids -> run w evs = Some w' ->
  loop_steps evs = length es ->
  tinv B w' /\ loop w' = Calling n ts fd i [] (ids ++ due_once fd es) /\
  (exists l, log w' = log w ++ (Called <$> l) /\ l `prefix_of` due fd es /\
     (on w = true -> (forall useJoin, CShutdown useJoin ∉ evs) -> l = due fd es) /\ (on w = false -> l = [])) /\
  (forall id e, id ∈ ids ++ due_once fd es -> entries w' !! id = Some e -> entries w !! id = Some e) /\
  (forall id e, entries w !! id = Some e -> CUnregister id ∉ evs -> entries w' !! id = Some e).
Proof.
  revert w es ids. induction evs as [|ev evs IH]; intros w es ids Ht El Hrun Hn.
  { destruct es; [|done]. injection Hrun as <-. rewrite !app_nil_r. split_and!; try done. exists []. by rewrite app_nil_r. }
  apply run_steps_cons in Hrun as (w1 & Hs & Hrun). destruct (step_inv _ _ _ _ Ht Hs) as [Ht1 Hev].
  destruct (decide (ev = LoopStep)) as [->|Hne].
  - destruct es as [|e es]; [done|]. injection Hn as Hn.
    destruct (entry_step _ _ _ _ _ _ _ _ _ Ht El) as (w1' & Hs' & _ & Et1 & Eon1 & El1 & Elog1).
    assert (w1' = w1) as -> by congruence. clear Hs'.
    destruct (IH _ _ _ Ht1 El1 Hrun Hn) as (Ht' & El' & (l & Elog' & Hpre & Hall & Hnone) & Hkept & Hstays).
    change (e :: es) with ([e] ++ es). rewrite due_app, due_once_app, app_assoc. rewrite Et1, Eon1 in *. split_and!; try done.
    + unfold calls in Elog1. fold (on w) in Elog1. destruct (on w) eqn:Eon.
      * exists (due fd [e] ++ l). rewrite fmap_app, app_assoc, Elog', Elog1. split_and!; try done; [by apply prefix_app|].
        intros _ Hno. rewrite Hall; [done|done|]. intros u Hu. apply (Hno u). by right.
      * exists []. rewrite Elog', Elog1, (Hnone eq_refl), !app_nil_r. split_and!; try done. apply prefix_nil.
    + intros id e' He Hno. apply Hstays; [done|]. intros Hin. apply Hno. by right.
  - pose proof (ev_client _ _ _ Hev Hne) as Hc. unfold client_frame in Hc. rewrite El in Hc. destruct Hc as (El1 & Elog1 & Eon1).
    assert (loop_steps evs = length es) as Hn' by (by destruct ev).
    destruct (IH _ _ _ Ht1 El1 Hrun Hn') as (Ht' & El' & (l & Elog' & Hpre & Hall & Hnone) & Hkept & Hstays).
    split_and!; try done.
    + exists l. rewrite <- Elog1. split_and!; try done.
      * intros Eon Hno. destruct Eon1 as [Eon1|(u & -> & _)]; [|exfalso; apply (Hno u); by left].
        apply Hall; [congruence|]. intros u Hu. apply (Hno u). by right.
      * intros Eoff. apply Hnone. destruct Eon1 as [Eon1|(_ & _ & Eon1)]; congruence.
    + intros id e Hin He. apply (ev_kept _ _ _ Hev); [|by apply Hkept]. rewrite El. cbn [pending_ids].
      apply elem_of_app in Hin as [Hin|Hin%due_once_sub]; apply elem_of_app; [by right|by left].
    + intros id e He Hno. apply Hstays; [|intros Hin; apply Hno; by right].
      destruct (ev_stays _ _ _ Hev _ _ He) as [?|[->|[? _]]]; [done|exfalso; apply Hno; by left|done].
Qed.

Lemma OnTimer_ends n ts fd i ids B w w' : tinv B w -> loop w = Calling n ts fd i [] ids -> step w LoopStep = Some w' ->
  loop w' = Dispatching n ts /\ log w' = log w /\ forall id, entries w' !! id =
    if bool_decide (id ∈ ids /\ id ∈ timerId <$> default [] (lists w !! i)) then None else entries w !! id.
Proof.
  intros Ht El Hs. pose proof (LoopStep_erase _ _ _ _ _ _ _ Ht El) as ([] & w1 & E & _ & Hw1)%wp_elim.
  unfold step in Hs. cbn [enabled exec] in Hs. rewrite El, E in Hs. by injection Hs as <-.
Qed.

(** The look-up of [OnTimer], for a timer that has expired. *)
Lemma OnTimer_begins n h events ts x err k B w : tinv B w -> loop w = Dispatching n ((h, events) :: ts) ->
  handlers (rs w) !! h = Some x -> callback_ x = Some OnTimerCallback -> readCallback_ x = true -> Z.land events READ_EVENT <> 0 ->
  read8 (fd_ x) (kernel (rs w)) = ((8, err), k) ->
  exists w1 i l, step w LoopStep = Some w1 /\ tinv B w1 /\ loop w1 = Calling n ts (fd_ x) i l [] /\ log w1 = log w /\
    on w1 = on w /\ entries w1 = entries w /\ i = default 0 (timers_ (timer w) !! fd_ x) /\ l = default [] (lists w !! i).
Proof.
  intros Ht El Hx Hcb Hrc Hev Hread. set (i := default 0 (timers_ (timer w) !! fd_ x)). set (l := default [] (lists w !! i)).
  assert (wp loop_step (fun _ w1 => loop w1 = Calling n ts (fd_ x) i l [] /\ log w1 = log w /\ on w1 = on w /\ entries w1 = entries w) w) as H1.
  { unfold loop_step. apply wp_bind, wp_get. unfold Datatypes.id. rewrite El. apply wp_bind, wp_reactor.
    unfold wp. rewrite (HandleEvents_runs h events x err k B) by (try done; apply (ti_good _ _ Ht)). by rewrite Hcb. }
  apply wp_elim in H1 as ([] & w1 & E1 & El1 & Elog1 & Eon1 & Ee1). exists w1, i, l.
  assert (step w LoopStep = Some w1) as Hs1 by (unfold step; cbn [enabled exec]; by rewrite El, E1).
  split; [done|]. split; [by eapply step_inv|done].
Qed.

(** The entries that wait for a descriptor. *)
Lemma due_spec B w fd l : good B w -> l = default [] (lists w !! default 0 (timers_ (timer w) !! fd)) ->
  forall e, e ∈ due fd l <-> entries w !! timerId e = Some e /\ timerFd e = fd.
Proof.
  intros [_ Hr _] -> e. unfold due. rewrite list_elem_of_filter. split.
  - intros [Efd He]. split; [|done]. destruct (lists w !! _) as [l|] eqn:El; [|by apply elem_of_nil in He].
    by destruct (rg_list _ Hr _ _ _ El He).
  - intros [He Efd]. split; [done|]. destruct (rg_entry _ Hr _ _ He) as (_ & l & Hl & Hin). cbn in Hl.
    destruct (rg_timers _ Hr (alarm_for e) (rg_alarm _ Hr _ _ He) eq_refl) as [Ht _]. cbn in Ht. by rewrite <- Efd, Ht; cbn; rewrite Hl.
Qed.
Lemma due_once_spec B w fd l : good B w -> l = default [] (lists w !! default 0 (timers_ (timer w) !! fd)) ->
  forall id, id ∈ due_once fd l <-> exists e, entries w !! id = Some e /\ timerFd e = fd /\ once e = true.
Proof.
  intros Hg El id. pose proof (due_spec B w fd l Hg El) as Hd. unfold due_once. rewrite list_elem_of_fmap. split.
  - intros (e & -> & [[Efd Ho] He]%list_elem_of_filter). exists e. split; [|done].
    apply (Hd e). unfold due. by apply list_elem_of_filter.
  - intros (e & He & Efd & Ho). assert (timerId e = id) as Eid by (by destruct (rg_entry _ (gd_reg _ _ Hg) _ _ He)).
    exists e. split; [done|]. apply list_elem_of_filter. split; [done|]. rewrite <- Eid in He.
    assert (e ∈ due fd l) as Hin by (by apply Hd). by apply list_elem_of_filter in Hin as [_ ?].
Qed.

(** What becomes of an entry. [w1] is after the look-up, [w2] before the end. *)
Lemma served_entry fd i l B w w2 (entries3 : gmap Z TimerEntry) id e : good B w -> good B w2 ->
  i = default 0 (timers_ (timer w) !! fd) -> l = default [] (lists w !! i) ->
  (forall id e, id ∈ due_once fd l -> entries w2 !! id = Some e -> entries w !! id = Some e) ->
  (forall id, entries3 !! id =
     if bool_decide (id ∈ due_once fd l /\ id ∈ timerId <$> default [] (lists w2 !! i)) then None else entries w2 !! id) ->
  entries w !! id = Some e ->
  if bool_decide (timerFd e = fd) && once e then entries3 !! id = None
  else entries w2 !! id = Some e -> entries3 !! id = Some e.
Proof.
  intros Hg Hg2 -> -> Hkept E3 He. rewrite E3. set (i := default 0 _) in *. set (l := default [] (lists w !! i)) in *.
  pose proof (due_once_spec B w fd l Hg eq_refl id) as Hd. destruct (rg_entry _ (gd_reg _ _ Hg) _ _ He) as (Eid & _).
  destruct (bool_decide_reflect (timerFd e = fd)) as [Efd|Hne]; [destruct (once e) eqn:Ho|]; cbn [andb].
  - case_bool_decide as Hin; [done|]. apply eq_None_not_Some. intros [e2 He2]. apply Hin.
    assert (id ∈ due_once fd l) as Hdue by (apply Hd; by exists e). split; [done|].
    assert (e2 = e) as -> by (pose proof (Hkept _ _ Hdue He2); congruence).
    assert (e ∈ due fd l) as [_ Hl]%list_elem_of_filter by (apply (due_spec B w fd l Hg eq_refl); by rewrite Eid).
    destruct (lists w !! i) as [l'|] eqn:El'; [|by apply elem_of_nil in Hl].
    destruct (rg_list _ (gd_reg _ _ Hg) _ _ _ El' Hl) as [Ei _].
    destruct (rg_entry _ (gd_reg _ _ Hg2) _ _ He2) as (_ & l2 & Hl2 & Hin2). cbn in Hl2. rewrite Ei in Hl2. rewrite Hl2, <- Eid.
    by apply list_elem_of_fmap_2.
  - intros He2. rewrite bool_decide_eq_false_2; [done|]. intros [(e' & ? & _ & ?)%Hd _]. congruence.
  - intros He2. rewrite bool_decide_eq_false_2; [done|]. intros [(e' & ? & ? & _)%Hd _]. congruence.
Qed.

(** ** Silence *)

(** Nothing refers to the identifier. *)
Definition quiet (id : Z) w : Prop := entries w !! id = None /\ id ∉ pending_ids (loop w).
Definition is_call (id : Z) (x : log_entry) : Prop := match x with Called e => timerId e = id | CleanedUp => False end.
#[export] Instance is_call_dec id x : Decision (is_call id x).
Proof. destruct x; cbn; apply _. Defined.
Definition calls_of (id : Z) w : list log_entry := filter (is_call id) (log w).

Lemma quiet_step id ev B w w' : tinv B w -> step w ev = Some w' -> quiet id w -> ~ registers ev w id ->
  quiet id w' /\ calls_of id w' = calls_of id w.
Proof.
  intros Ht Hs [He Hp] Hnew. destruct (step_inv _ _ _ _ Ht Hs) as [_ [E1 E2 (new & El & Hcalls)]]. split; [split|].
  - apply eq_None_not_Some. intros [[e ?]|?]%E1; [congruence|done].
  - intros [?|[e ?]]%E2; [done|congruence].
  - unfold calls_of. rewrite El, filter_app, (filter_none _ new), app_nil_r; [done|]. apply Forall_forall.
    intros [e|] Hin; cbn; [|by intros ?]. intros <-. by apply Hp, Hcalls.
Qed.
End runs.

(** ** The theorems *)

(** C26: A timer keeps its tables and its promises. After any calls and any
    steps of the loop thread the two tables agree, a one-shot entry has a timer
    descriptor of its own and the repeating entries of an interval share one.
    Until the loop has ended each of these descriptors belongs to a live
    handler that is made for exactly that entry, the kernel's timer is set to
    the interval and the period of the entry from a time the clock has shown,
    and the epoll descriptor of the demultiplexer watches it for input, where
    the kernel did not refuse to ([willing]). No allowed call is undefined;
    [enabled] says what is allowed: [Setup] and [Shutdown] come from one thread
    at a time, and a timer that was shut down is set up again when its thread
    has ended. *)
Theorem timer_keeps_its_promises {K} `{TimerSysLaws K} (timeoutMs : Z) (k : K) (evs : list event) (w : world K) :
  (forall fd, fd ∈ open_fds k -> 0 <= fd) -> run (Timer_ctor timeoutMs k) evs = Some w ->
  reg_ok (reg w) /\
  (CleanedUp ∉ log w -> forall id e, timerToEntries_ (timer w) !! id = Some e ->
     (exists h x, eventHandlers_ (demux (rs w)) !! timerFd e = Some h /\ handlers (rs w) !! h = Some x /\
        alarm_of x = alarm_for e /\ events_ x = READ_EVENT /\ readCallback_ x = true) /\
     (exists k' now, clock_gettime k' = Some now /\
        timer_setting (kernel (rs w)) (timerFd e) = Some (timer_spec now (interval e) (once e))) /\
     (willing K -> interest (kernel (rs w)) (epollFd_ (demux (rs w))) (timerFd e) = Some (Z.lor EPOLLIN EPOLLPRI))) /\
  (forall ev, enabled w ev = true -> is_Some (step w ev)).
Proof.
  intros HB Hrun. pose proof (run_tinv _ _ _ _ (Timer_ctor_tinv timeoutMs k HB) Hrun) as Ht.
  pose proof Ht as [[Hi Hr Hn] Harm _ _]. split; [done|]. split.
  - intros Hno id e He. pose proof (rg_alarm _ Hr _ _ He) as Ha. apply (alarm_in _ _ _ _ Hi) in Ha as (h & x & Hh & Hx & Ea).
    destruct (proj2 (Harm Hno) h x Hh Hx) as ((Hm & Hev & Hcb) & Ht1 & Ht2).
    assert (fd_ x = timerFd e /\ interval_ x = interval e /\ once_ x = once e) as (Ef & Ei & Eo) by (by injection Ea).
    rewrite Ef in *. rewrite Ei, Eo in Ht1. split; [by exists h, x|done].
  - intros ev He. destruct (step_spec _ _ _ Ht He) as (w' & -> & _). by exists w'.
Qed.

(** C27: An expiry is served, whatever the clients do meanwhile. The loop
    thread comes to a timer that has expired; [l] are the entries that are
    registered for its descriptor. After one step for the look-up, one for each
    entry of the interval and one for the end it is at its next task, and it is
    never held up. By then, whatever calls of clients came between its steps,
    it has called entries of [l] and nothing else, in the order of
    registration: all of them, when callbacks were allowed at the look-up and
    [Shutdown] did not intervene, and a first part of them otherwise. The
    one-shot entries have left the table; the others are still there, unless a
    client has unregistered them. *)
Theorem expired_timer_is_served {K} `{TimerSysLaws K} (timeoutMs : Z) (k0 : K) (evs : list event) (w : world K)
    (nfds h events : Z) (tasks : list (Z * Z)) (x : TimerEventHandler) (err : Z) (k : K) :
  (forall fd, fd ∈ open_fds k0 -> 0 <= fd) -> run (Timer_ctor timeoutMs k0) evs = Some w ->
  loop w = Dispatching nfds ((h, events) :: tasks) -> handlers (rs w) !! h = Some x ->
  callback_ x = Some OnTimerCallback -> readCallback_ x = true -> Z.land events READ_EVENT <> 0 ->
  read8 (fd_ x) (kernel (rs w)) = ((8, err), k) ->
  let all := default [] (intervalToTimers_ (timer w) !! default 0 (timers_ (timer w) !! fd_ x)) in
  let l := due (fd_ x) all in
  (forall e, e ∈ l <-> timerToEntries_ (timer w) !! timerId e = Some e /\ timerFd e = fd_ x) /\
  is_Some (run w (replicate (length all + 2) LoopStep)) /\
  forall evs' w', loop_steps evs' = length all -> run w ((LoopStep :: evs') ++ [LoopStep]) = Some w' ->
    loop w' = Dispatching nfds tasks /\
    (exists l', log w' = log w ++ (Called <$> l') /\ l' `prefix_of` l /\
       (on w = true -> (forall useJoin, CShutdown useJoin ∉ evs') -> l' = l)) /\
    forall id e, timerToEntries_ (timer w) !! id = Some e ->
      if bool_decide (timerFd e = fd_ x) && once e then timerToEntries_ (timer w') !! id = None
      else CUnregister id ∉ evs' -> timerToEntries_ (timer w') !! id = Some e.
Proof.
  intros HB Hrun El Hx Hcb Hrc Hev Hread. pose proof (run_tinv _ _ _ _ (Timer_ctor_tinv timeoutMs k0 HB) Hrun) as Ht.
  set (B := open_fds k0) in *. pose proof (ti_good _ _ Ht) as Hg.
  destruct (OnTimer_begins _ _ _ _ _ _ _ _ _ Ht El Hx Hcb Hrc Hev Hread) as (w1 & i & l & Hs1 & Ht1 & El1 & Elog1 & Eon1 & Ee1 & Ei & El').
  rewrite <- Ei, <- El'. intros all. subst all. split; [apply (due_spec B); [done|by subst i]|]. split.
  { rewrite (Nat.add_succ_r _ 1). unfold run. cbn [replicate run_steps]. rewrite Hs1. by eapply OnTimer_not_held. }
  intros evs' w' Hn Hrun'. unfold run in Hrun'. rewrite run_steps_app in Hrun'. cbn [run_steps] in Hrun'. rewrite Hs1 in Hrun'.
  cbn [mbind option_bind] in Hrun'. apply bind_Some in Hrun' as (w2 & Hrun2 & (w3 & Hs3 & [= ->])%bind_Some).
  destruct (OnTimer_runs _ _ _ _ _ _ _ _ _ _ Ht1 El1 Hrun2 Hn) as (Ht2 & El2 & (l' & Elog2 & Hpre & Hall & _) & Hkept & Hstays).
  destruct (OnTimer_ends _ _ _ _ _ _ _ _ Ht2 El2 Hs3) as (El3 & Elog3 & Ee3). split; [done|]. split.
  - exists l'. rewrite Elog3, Elog2, Elog1, <- Eon1. done.
  - intros id e He. rewrite Ee1 in Hkept, Hstays. pose proof (served_entry (fd_ x) i l B w w2 _ id e Hg (ti_good _ _ Ht2) Ei El' Hkept Ee3 He).
    destruct (bool_decide _ && _); auto.
Qed.

(** C28: A timer that has been unregistered is silent. As soon as the table has
    no entry for an identifier and [OnTimer] is not just passing over it, no
    callback of that identifier is called again, until [Register] hands the
    identifier out anew. *)
Theorem unregistered_timer_is_silent {K} `{TimerSysLaws K} (timeoutMs : Z) (k : K) (evs evs' : list event) (w w' : world K) (id : Z) :
  (forall fd, fd ∈ open_fds k -> 0 <= fd) -> run (Timer_ctor timeoutMs k) evs = Some w ->
  timerToEntries_ (timer w) !! id = None -> id ∉ pending_ids (loop w) -> run w evs' = Some w' ->
  (forall evs1 ev evs2 w1, evs' = evs1 ++ ev :: evs2 -> run w evs1 = Some w1 -> ~ registers ev w1 id) ->
  calls_of id w' = calls_of id w.
Proof.
  intros HB Hrun He Hp. assert (quiet id w) as Hq by done. clear He Hp.
  pose proof (run_tinv _ _ _ _ (Timer_ctor_tinv timeoutMs k HB) Hrun) as Ht. clear Hrun. revert w Ht Hq.
  induction evs' as [|ev evs' IH]; intros w Ht Hq Hrun Hnew; [by injection Hrun as ->|].
  apply run_steps_cons in Hrun as (w1 & Hs & Hrun). destruct (step_inv _ _ _ _ Ht Hs) as [Ht1 _].
  destruct (quiet_step id _ _ _ _ Ht Hs Hq) as [Hq1 Hc1]; [by apply (Hnew [] ev evs' w)|]. rewrite <- Hc1.
  apply (IH w1); try done. intros evs1 ev1 evs2 w2 -> Hr1. apply (Hnew (ev :: evs1) ev1 evs2 w2); [done|].
  unfold run in *. cbn [run_steps]. by rewrite Hs.
Qed.

(** [Register] returns. While fewer than [MAX_TIMERS] timers are registered
    its search for an identifier ends, and what it returns is a valid
    identifier that was not in use and now has the entry, or the error code,
    and then nothing is registered. *)
Theorem Register_returns_new_id {K} `{TimerSysLaws K} (timeoutMs : Z) (k : K) (evs : list event) (w : world K)
    (cb i : Z) (o : bool) :
  (forall fd, fd ∈ open_fds k -> 0 <= fd) -> run (Timer_ctor timeoutMs k) evs = Some w ->
  Z.of_nat (size (timerToEntries_ (timer w))) < MAX_TIMERS ->
  exists id w', Register cb i o w = Some (id, w') /\
    if id =? TIMER_ERR_DEAL_FAILED then timerToEntries_ (timer w') = timerToEntries_ (timer w)
    else 1 <= id < UINT32_MAX /\ timerToEntries_ (timer w) !! id = None /\
      exists fd, timerToEntries_ (timer w') = <[id := new_entry id cb i o fd]> (timerToEntries_ (timer w)).
Proof.
  intros HB Hrun Hsize. pose proof (run_tinv _ _ _ _ (Timer_ctor_tinv timeoutMs k HB) Hrun) as Ht.
  pose proof (ti_good _ _ Ht) as Hg. pose proof (Register_spec cb i o _ w Hg Hsize) as (id & w' & E & Hg' & _ & Hid)%wp_elim.
  exists id, w'. split; [done|]. destruct (id =? _); [done|]. destruct Hid as (_ & Hnew & fd & Ee).
  split; [|split; [done|by exists fd]]. apply (rg_ids _ (gd_reg _ _ Hg') id (new_entry id cb i o fd)). cbn. by rewrite Ee, lookup_insert_eq.
Qed.

(** The first expiry is exactly [interval] milliseconds away and the period
    that of a repeating timer, in normal form; no conversion overflows. *)
Theorem timer_spec_exact (now : timespec) (i : Z) (o : bool) :
  0 <= tv_nsec now < NANO_TO_BASE -> 0 <= i <= UINT32_MAX ->
  let total := fun t => tv_sec t * NANO_TO_BASE + tv_nsec t in
  let s := timer_spec now i o in
  total (it_value s) = total now + i * MILLI_TO_NANO /\ 0 <= tv_nsec (it_value s) < NANO_TO_BASE /\
  total (it_interval s) = (if o then 0 else i * MILLI_TO_NANO) /\ 0 <= tv_nsec (it_interval s) < NANO_TO_BASE.
Proof.
  intros Hn Hi total s. unfold s, total, timer_spec. rewrite Z.quot_div_nonneg, Z.rem_mod_nonneg by (unfold MILLI_TO_BASE; lia).
  change MILLI_TO_NANO with 1000000. unfold NANO_TO_BASE, MILLI_TO_BASE in *.
  pose proof (Z.mod_pos_bound i 1000 ltac:(lia)). pose proof (Z.div_mod i 1000 ltac:(lia)).
  unfold u32. rewrite wrapU_small by lia. cbn [it_value it_interval].
  split; [|split; [|split]].
  - destruct (Z.leb_spec 1000000000 (tv_nsec now + i mod 1000 * 1000000)); cbn; [|lia].
    rewrite Z.rem_mod_nonneg by lia.
    pose proof (Z.mod_unique (tv_nsec now + i mod 1000 * 1000000) 1000000000 1 (tv_nsec now + i mod 1000 * 1000000 - 1000000000)). lia.
  - destruct (Z.leb_spec 1000000000 (tv_nsec now + i mod 1000 * 1000000)); cbn; [|lia].
    rewrite Z.rem_mod_nonneg by lia. by apply Z.mod_pos_bound.
  - destruct o; cbn; lia.
  - destruct o; cbn; lia.
Qed.

(** C29: Destroying a timer whose loop thread is not running closes every
    descriptor that it ever opened. *)
Theorem timer_closes_descriptors {K} `{TimerSysLaws K} (timeoutMs : Z) (k : K) (evs : list event) (w : world K) :
  (forall fd, fd ∈ open_fds k -> 0 <= fd) -> run (Timer_ctor timeoutMs k) evs = Some w ->
  match loop w with Idle | Ended => True | _ => False end ->
  exists w', Timer_dtor w = Some (tt, w') /\ open_fds (kernel (rs w')) = open_fds k.
Proof.
  intros HB Hrun Hl. pose proof (run_tinv _ _ _ _ (Timer_ctor_tinv timeoutMs k HB) Hrun) as Ht.
  assert (taskQue (rs w) = []) as Et by (pose proof (ti_loop _ _ Ht) as Hlo; unfold loop_ok in Hlo; by destruct (loop w)).
  pose proof (EventReactor_dtor_spec _ _ (gd_rinv _ _ (ti_good _ _ Ht)) Et) as ([] & r & E & Ek & _)%wp_elim.
  unfold Timer_dtor, reactor_. rewrite E. by eexists.
Qed.

(** ** A kernel with a script *)

(** The open descriptors, what the next calls of [epoll_wait] report, the
    settings of the timers and what is watched. *)
Record demo_sys := {
  used_fds : gset Z;
  script : list (list (Z * Z));
  settings : gmap Z itimerspec;
  watching : gmap (Z * Z) Z;
}.

Definition lowest_fd (X : gset Z) : Z := foldr Z.max 2 (elements X) + 1.
Definition with_fds (k : demo_sys) (X : gset Z) : demo_sys := {| used_fds := X; script := script k; settings := settings k; watching := watching k |}.
Definition with_watching (k : demo_sys) (m : gmap (Z * Z) Z) : demo_sys :=
  {| used_fds := used_fds k; script := script k; settings := settings k; watching := m |}.
Definition new_fd (k : demo_sys) : Z * demo_sys :=
  let fd := lowest_fd (used_fds k) in
  (fd, with_watching (with_fds k ({[fd]} ∪ used_fds k)) (filter (fun p => p.1.2 <> fd) (watching k))).
(** [EEXIST] is 17. *)
Definition demo_ctl (e op fd ev : Z) (k : demo_sys) : option Z * demo_sys :=
  if op =? EPOLL_CTL_DEL then (None, with_watching k (delete (e, fd) (watching k)))
  else if (op =? EPOLL_CTL_ADD) && bool_decide (is_Some (watching k !! (e, fd))) then (Some 17, k)
  else (None, with_watching k (<[(e, fd) := ev]> (watching k))).

#[export] Instance demo_timer_sys : TimerSys demo_sys := {
  epoll_create1 := new_fd;
  epoll_ctl := demo_ctl;
  epoll_wait e n t k :=
    match script k with
    | [] => (inl [], k)
    | r :: s => (inl r, {| used_fds := used_fds k; script := s; settings := settings k; watching := watching k |})
    end;
  close fd k := with_fds k (used_fds k ∖ {[fd]});
  timerfd_create := new_fd;
  timerfd_settime fd s k :=
    (true, {| used_fds := used_fds k; script := script k; settings := <[fd := s]> (settings k); watching := watching k |});
  clock_gettime k := Some {| tv_sec := 5; tv_nsec := 0 |};
  read8 fd k := ((8, 0), k);
}.

Lemma lowest_fd_fresh X : 0 <= lowest_fd X /\ lowest_fd X ∉ X.
Proof.
  assert (forall l, 2 <= foldr Z.max 2 l /\ Forall (fun x => x <= foldr Z.max 2 l) l) as Hl.
  { induction l as [|x l [IH1 IH2]]; cbn [foldr]; [done|]. split; [lia|]. constructor; [lia|].
    eapply Forall_impl; [exact IH2|]. cbn. intros y Hy. lia. }
  destruct (Hl (elements X)) as [H1 H2]. unfold lowest_fd. split; [lia|]. intros Hx. apply elem_of_elements in Hx.
  rewrite Forall_forall in H2. apply H2 in Hx. lia.
Qed.

#[export] Instance demo_timer_laws : TimerSysLaws demo_sys.
Proof.
  assert (forall k fd k', new_fd k = (fd, k') ->
    (fd = -1 /\ used_fds k' = used_fds k) \/ (0 <= fd /\ fd ∉ used_fds k /\ used_fds k' = {[fd]} ∪ used_fds k)) as Hnew.
  { intros k fd k' [= <- <-]. right. by destruct (lowest_fd_fresh (used_fds k)). }
  assert (forall k fd k', new_fd k = (fd, k') ->
    spares (fun k fd => settings k !! fd) (fun k e fd => watching k !! (e, fd)) fd k k' /\
    forall e, watching k' !! (e, fd) = None) as Hfresh.
  { intros k fd k' [= <- <-]. cbn. split; [split; [done|]|]; intros e; cbn.
    - intros f _ Hf. apply option_eq. intros ev. rewrite map_lookup_filter_Some. cbn. tauto.
    - apply map_lookup_filter_None. right. by intros ? _ []. }
  refine {| open_fds := used_fds; timer_setting k fd := settings k !! fd; interest k e fd := watching k !! (e, fd) |}; try done.
  - intros e op fd ev k. cbn. unfold demo_ctl. by repeat case_match.
  - intros e n t k. cbn. by destruct (script k).
  - intros k fd k' E. by apply Hfresh.
  - intros k fd k' E. destruct (Hfresh _ _ _ E). by split.
  - intros e op fd ev k r k'. cbn. unfold demo_ctl, spares. destruct (Z.eqb_spec op EPOLL_CTL_DEL) as [->|_].
    { intros [= <- <-]. cbn. split; [split; [done|]|done]. intros e' f _ Hf. rewrite lookup_delete_ne; [done|congruence]. }
    destruct (_ && _); intros [= <- <-]; cbn; (split; [split; [done|]|]).
    + done.
    + done.
    + intros e' f _ Hf. rewrite lookup_insert_ne; [done|congruence].
    + split; [done|]. intros _ _. apply lookup_insert_eq.
  - intros fd s k ok k' [= <- <-]. cbn. split; [split; [|done]|split; [done|]].
    + intros f Hf. apply lookup_insert_ne. congruence.
    + intros _. apply lookup_insert_eq.
  - intros e n t k f. cbn. by destruct (script k).
Defined.

Lemma demo_willing : willing demo_sys.
Proof.
  split; [intros k; cbn; apply lowest_fd_fresh|]. intros e fd ev k _ _ Hn. cbn in *. unfold demo_ctl. rewrite Hn. done.
Qed.

(** Descriptors 0 to 2 are open; the demultiplexer is 3, the first timer 4. *)
Definition timer_boot (s : list (list (Z * Z))) : demo_sys := 
  {| used_fds := {[0; 1; 2]}; script := s; settings := ∅; watching := ∅ |}.
Lemma timer_boot_nonneg s fd : fd ∈ open_fds (timer_boot s) -> 0 <= fd.
Proof. cbn. intros Hfd. assert (fd = 0 \/ fd = 1 \/ fd = 2) as [->|[->| ->]] by set_solver; lia. Qed.

(** A program that starts the loop and takes it [n] steps further. *)
Definition loops (n : nat) : list event := replicate n LoopStep.
Definition two_timers : list event := 
  [CRegister 7 100 true; CRegister 8 100 false; CSetup; CSetupThread; CSetup] ++ loops 4.

(** The state of a run that a computation has confirmed to be defined. *)
Definition state_of {K} (w0 : world K) (m : option (world K)) : world K := default w0 m.
Lemma state_of_run {K} (w0 : world K) (m : option (world K)) : bool_decide (is_Some m) = true -> m = Some (state_of w0 m).
Proof. intros [w ->]%bool_decide_eq_true. done. Qed.

Definition boot (s : list (list (Z * Z))) : world demo_sys := Timer_ctor 1000 (timer_boot s).
Definition after (s : list (list (Z * Z))) (evs : list event) : world demo_sys := state_of (boot s) (run (boot s) evs).
Definition one_expiry : list (list (Z * Z)) := [[(4, 1); (5, 1)]].

Lemma timer_keeps_its_promises_witness :
  run (boot one_expiry) two_timers = Some (after one_expiry two_timers) /\
  timerToEntries_ (timer (after one_expiry two_timers)) !! 2 = Some (new_entry 2 8 100 false 5) /\
  reg_ok (reg (after one_expiry two_timers)) /\
  interest (kernel (rs (after one_expiry two_timers))) 3 5 = Some 3.
Proof.
  assert (run (boot one_expiry) two_timers = Some (after one_expiry two_timers)) as E by (apply state_of_run; vm_compute; reflexivity).
  assert (timerToEntries_ (timer (after one_expiry two_timers)) !! 2 = Some (new_entry 2 8 100 false 5)) as Ee by (vm_compute; reflexivity).
  assert (CleanedUp ∉ log (after one_expiry two_timers)) as Hno.
  { assert (log (after one_expiry two_timers) = []) as -> by (vm_compute; reflexivity). apply not_elem_of_nil. }
  destruct (timer_keeps_its_promises 1000 (timer_boot one_expiry) two_timers _ (timer_boot_nonneg _) E) as (Hr & Hk & _).
  destruct (Hk Hno 2 _ Ee) as (_ & _ & Hw). split; [exact E|]. split; [exact Ee|]. split; [exact Hr|]. exact (Hw demo_willing).
Defined.

(** The one-shot timer expires while a client unregisters the other one. *)
Lemma expired_timer_is_served_witness : exists w',
  run (after one_expiry two_timers) ((LoopStep :: [CUnregister 2; LoopStep; LoopStep]) ++ [LoopStep]) = Some w' /\
  log w' = [Called (new_entry 1 7 100 true 4)] /\ timerToEntries_ (timer w') !! 1 = None.
Proof.
  assert (run (boot one_expiry) two_timers = Some (after one_expiry two_timers)) as E by (apply state_of_run; vm_compute; reflexivity).
  destruct (expired_timer_is_served 1000 (timer_boot one_expiry) two_timers (after one_expiry two_timers) 2 0 1 [(1, 1)]
    {| fd_ := 4; events_ := 1; readCallback_ := true; once_ := true; interval_ := 100; callback_ := Some OnTimerCallback |} 0
    (kernel (rs (after one_expiry two_timers))) (timer_boot_nonneg _) E) as (_ & _ & Hserved);
    [vm_compute; reflexivity|vm_compute; reflexivity|reflexivity|reflexivity|discriminate|reflexivity|].
  assert (is_Some (run (after one_expiry two_timers) ((LoopStep :: [CUnregister 2; LoopStep; LoopStep]) ++ [LoopStep]))) as [w' E']
    by (refine (bool_decide_eq_true_1 (is_Some _) _); vm_compute; reflexivity).
  exists w'. split; [exact E'|]. destruct (Hserved [CUnregister 2; LoopStep; LoopStep] w') as (_ & (l' & -> & _ & Hall) & Hent);
    [vm_compute; reflexivity|exact E'|]. split.
  - rewrite Hall; [vm_compute; reflexivity|vm_compute; reflexivity|]. intros u Hin.
    repeat (apply elem_of_cons in Hin as [[=]|Hin]). by apply elem_of_nil in Hin.
  - exact (Hent 1 (new_entry 1 7 100 true 4) ltac:(vm_compute; reflexivity)).
Defined.

(** The repeating timer goes; the expiry that was already reported runs the
    other one only. *)
Definition unregistered : list event := two_timers ++ [CUnregister 2].
Lemma unregistered_timer_is_silent_witness :
  log (after one_expiry (unregistered ++ loops 9)) = [Called (new_entry 1 7 100 true 4)] /\
  calls_of 2 (after one_expiry (unregistered ++ loops 9)) = calls_of 2 (after one_expiry unregistered).
Proof.
  assert (run (boot one_expiry) unregistered = Some (after one_expiry unregistered)) as E by (apply state_of_run; vm_compute; reflexivity).
  assert (run (after one_expiry unregistered) (loops 9) = Some (after one_expiry (unregistered ++ loops 9))) as E' by (vm_compute; reflexivity).
  split; [vm_compute; reflexivity|].
  apply (unregistered_timer_is_silent 1000 (timer_boot one_expiry) unregistered (loops 9) _ _ 2 (timer_boot_nonneg _) E).
  - vm_compute. reflexivity.
  - refine (proj1 (bool_decide_eq_true _) _). vm_compute. reflexivity.
  - exact E'.
  - intros evs1 ev evs2 w1 Hevs _. assert (ev ∈ loops 9) as Hin by (rewrite Hevs; apply elem_of_app; right; left).
    apply elem_of_replicate_inv in Hin as ->. intros [].
Defined.

Lemma Register_returns_new_id_witness : exists id w', Register 9 250 false (after one_expiry two_timers) = Some (id, w') /\
  (id =? TIMER_ERR_DEAL_FAILED) = false /\ 1 <= id < UINT32_MAX.
Proof.
  assert (run (boot one_expiry) two_timers = Some (after one_expiry two_timers)) as E by (apply state_of_run; vm_compute; reflexivity).
  destruct (Register_returns_new_id 1000 (timer_boot one_expiry) two_timers _ 9 250 false (timer_boot_nonneg _) E)
    as (id & w' & Er & Hid); [vm_compute; reflexivity|]. exists id, w'. split; [exact Er|].
  assert (id = 3) as -> by (vm_compute in Er; injection Er as <-; reflexivity). split; [reflexivity|]. exact (proj1 Hid).
Defined.

Lemma timer_closes_descriptors_witness : exists w', Timer_dtor (after [] [CRegister 7 100 true; CRegister 8 100 false]) = Some (tt, w') /\
  open_fds (kernel (rs w')) = {[0; 1; 2]}.
Proof.
  assert (run (boot []) [CRegister 7 100 true; CRegister 8 100 false] = Some (after [] [CRegister 7 100 true; CRegister 8 100 false])) as E
    by (apply state_of_run; vm_compute; reflexivity).
  exact (timer_closes_descriptors 1000 (timer_boot []) _ _ (timer_boot_nonneg _) E I).
Defined.

Lemma timer_spec_exact_witness : let s := timer_spec {| tv_sec := 5; tv_nsec := 999000000 |} 1500 false in
  it_value s = {| tv_sec := 7; tv_nsec := 499000000 |} /\
  tv_sec (it_value s) * NANO_TO_BASE + tv_nsec (it_value s) = 5999000000 + 1500 * MILLI_TO_NANO.
Proof.
  intros s. split; [vm_compute; reflexivity|].
  apply (timer_spec_exact {| tv_sec := 5; tv_nsec := 999000000 |} 1500 false); vm_compute; split; discriminate || reflexivity.
Defined.

(** ** What goes wrong *)

(** A repeating timer without an interval is a one-shot timer for the kernel. *)
Example zero_interval_fires_once now : it_interval (timer_spec now 0 false) = {| tv_sec := 0; tv_nsec := 0 |}.
Proof. reflexivity. Qed.

(** A timer that waits without a limit. [OnTimer] comes to an interval whose
    last entry has just been unregistered and leaves an empty list behind;
    [Shutdown] takes it for a registered timer and joins a thread that waits
    on no descriptor at all. *)
Definition hanging : list event :=
  [CRegister 7 100 false; CSetup; CSetupThread] ++ loops 4 ++ [CUnregister 1] ++ loops 4 ++
  [CShutdown true; CShutdownThread].
Example Shutdown_hangs : exists w, run (Timer_ctor (-1) (timer_boot [[(4, 1)]])) hanging = Some w /\
  loop w = Waiting /\ control w = Joining /\ timerToEntries_ (timer w) = ∅ /\ eventHandlers_ (demux (rs w)) = ∅.
Proof. eexists. split; [vm_compute; reflexivity|]. vm_compute. done. Qed.

(** A timer that is shut down and set up again. [CleanUp] has disarmed the
    timer descriptors, but a new repeating entry is given the one of its
    interval: it is registered and nothing watches its descriptor. *)
Definition restarted : list event :=
  [CRegister 7 100 false; CSetup; CSetupThread] ++ loops 2 ++ [CShutdown true; CShutdownThread] ++ loops 3 ++
  [CJoined; CSetup; CSetupThread] ++ loops 1 ++ [CRegister 8 100 false].
Example restart_is_deaf : exists w, run (boot []) restarted = Some w /\
  loop w = Looping /\ timerToEntries_ (timer w) !! 2 = Some (new_entry 2 8 100 false 4) /\ eventHandlers_ (demux (rs w)) !! 4 = None.
Proof. eexists. split; [vm_compute; reflexivity|]. vm_compute. done. Qed.

(** [Unregister] after the loop has ended puts the handler back into the map
    of the demultiplexer, where it stays: its descriptor is not closed. *)
Definition late_unregister : list event :=
  [CRegister 7 100 false; CSetup; CSetupThread] ++ loops 2 ++ [CShutdown true; CShutdownThread] ++ loops 3 ++ [CJoined; CUnregister 1].
Example late_Unregister_keeps_descriptor : exists w, run (boot []) late_unregister = Some w /\
  timerEventHandlers_ (reactor (rs w)) = [] /\ eventHandlers_ (demux (rs w)) !! 4 = Some 0 /\ bool_decide (4 ∈ used_fds (kernel (rs w))) = true.
Proof. eexists. split; [vm_compute; reflexivity|]. vm_compute. done. Qed.
