(* ===== verification/Thread.v ===== *)
(** * The thread class ([base/src/thread_ex.cpp])

    First the creation of a thread and what the new one does with its
    parameters; then the object with its clients and the thread it runs, as a
    transition system over [Monitor]: what a function does under [lock_] is
    one step. *)

From S2P Require Import Prelude Monitor.

(** ** Creation *)

(** [startRoutine] and [args] are pointers. *)
Record ThreadParam := { startRoutine : Z; args : Z; priority : Z; name : list Z }.

Definition MAX_THREAD_NAME_LEN : Z := 15.

(** What the code uses of the kernel: [pthread_create] with the stack size (0
    for the default one) and the argument of [Proxy] gives the result and the
    thread. *)
Class PThread (K : Type) := {
  pthread_create : Z -> Z -> K -> Z * Z * K;
  setpriority : Z -> K -> K;
  prctl_set_name : list Z -> K -> K;
}.

Section creation.
Context {K : Type} `{PThread K}.

(** The parameters on the heap, by address. *)
Record pthread_world := { heap : gmap Z ThreadParam; pk : K }.
Notation PM := (ST pthread_world).

Definition new_param (para : ThreadParam) : PM Z := fun w =>
  let t := above (dom (heap w)) in Some (t, {| heap := <[t := para]> (heap w); pk := pk w |}).
Definition on_kernel {A} (g : K -> A * K) : PM A := fun w => let '(a, k) := g (pk w) in Some (a, {| heap := heap w; pk := k |}).

(** The result and the new value of [*threadId]. *)
Definition CreatePThread (para : ThreadParam) (stackSize threadId : Z) : PM (bool * Z) :=
  t ← new_param para;
  '(result, thread) ← on_kernel (fun k => pthread_create stackSize t k);
  if negb (result =? 0) then mret (false, threadId) else mret (true, thread).

(** [ThreadParam::Proxy] up to the call of the start routine, which is the
    result with its argument; [None] for a null pointer. *)
Definition Proxy (t : option Z) : PM (option (Z * Z)) :=
  match t with
  | None => mret None
  | Some t =>
      para ← st_access (fun w => heap w !! t);
      st_put (fun w => {| heap := delete t (heap w); pk := pk w |});;
      on_kernel (fun k => (tt, setpriority (priority para) k));;
      (if bool_decide (name para = []) then mret tt
       else on_kernel (fun k => (tt, prctl_set_name (ztake MAX_THREAD_NAME_LEN (name para)) k)));;
      mret (Some (startRoutine para, args para))
  end.
End creation.

(** ** The object *)

Inductive ThreadStatus := OK | WOULD_BLOCK | INVALID_OPERATION | UNKNOWN_ERROR.

Definition INVALID_PTHREAD_T : Z := -1.

Record Thread := { thread_ : Z; status_ : ThreadStatus; exitPending_ : bool; running_ : bool }.

Definition Thread_ctor : Thread :=
  {| thread_ := INVALID_PTHREAD_T; status_ := OK; exitPending_ := false; running_ := false |}.

Definition set_exit (b : bool) (o : Thread) : Thread :=
  {| thread_ := thread_ o; status_ := status_ o; exitPending_ := b; running_ := running_ o |}.

(** What a client is about to do: [NotifyExitSync] reads [thread_] and then
    takes the lock. *)
Inductive client_op := OpStart | OpSync | OpSyncLocked | OpAsync.

(** The new thread: before [ReadyToWork], before [Run], and with the result of
    an iteration before the lock; [SelfWait] waits for itself. *)
Inductive worker := AtReady | AtRun | AtCheck (result : bool) | SelfWait.

(** [results] are the last results of the clients. *)
Record system := {
  obj : Thread;
  clients : gmap Z (tstate client_op unit);
  workers : gmap Z worker;
  results : gmap Z ThreadStatus;
}.

Definition start (tids : gset Z) : system :=
  {| obj := Thread_ctor; clients := gset_to_gmap Outside tids; workers := ∅; results := ∅ |}.

(** The client returns. *)
Definition finish (t : Z) (o : Thread) (ws : gmap Z worker) (r : ThreadStatus) (s : system) : system :=
  {| obj := o; clients := <[t := Outside]> (clients s); workers := ws; results := <[t := r]> (results s) |}.
Definition goes_on (t : Z) (o : Thread) (th : tstate client_op unit) (s : system) : system :=
  {| obj := o; clients := <[t := th]> (clients s); workers := workers s; results := results s |}.
Definition with_worker (w : Z) (st : worker) (s : system) : system :=
  {| obj := obj s; clients := clients s; workers := <[w := st]> (workers s); results := results s |}.

(** [new] is the thread [CreatePThread] made, if it did: one that no other
    thread is. *)
Definition Start (t : Z) (new : option Z) (s : system) : option system :=
  if running_ (obj s) then Some (finish t (obj s) (workers s) INVALID_OPERATION s)
  else
    match new with
    | Some w =>
        if bool_decide (w ∈ dom (clients s) ∪ dom (workers s)) || (w =? INVALID_PTHREAD_T) then None
        else Some (finish t {| thread_ := w; status_ := OK; exitPending_ := false; running_ := true |}
                     (<[w := AtReady]> (workers s)) OK s)
    | None =>
        Some (finish t {| thread_ := INVALID_PTHREAD_T; status_ := UNKNOWN_ERROR; exitPending_ := false; running_ := false |}
                (workers s) UNKNOWN_ERROR s)
    end.

(** [while (running_)], then the end of [NotifyExitSync]. *)
Definition sync_loop (t : Z) (o : Thread) (s : system) : system :=
  if running_ o then goes_on t o (Asleep tt OpSyncLocked) s
  else finish t (set_exit false o) (workers s) (status_ o) s.

Definition NotifyExitSync_test (t : Z) (s : system) : system :=
  if thread_ (obj s) =? t then finish t (obj s) (workers s) WOULD_BLOCK s
  else goes_on t (obj s) (Running OpSyncLocked) s.
Definition NotifyExitSync (t : Z) (s : system) : system := sync_loop t (set_exit true (obj s)) s.
Definition NotifyExitAsync (t : Z) (s : system) : system := goes_on t (set_exit true (obj s)) Outside s.

Definition IsExitPending (s : system) : bool := exitPending_ (obj s).
Definition IsRunning (s : system) : bool := running_ (obj s).
Definition GetThread (s : system) : Z := thread_ (obj s).

(** [ThreadStart] in three steps: [ReadyToWork], which the derived class may
    define, with the first test; [Run] returning; the test at the end of an
    iteration. *)
Definition first_test (ready : bool) (s : system) : worker :=
  if ready && negb (IsExitPending s) then AtRun else AtCheck false.

Definition end_test (w : Z) (result : bool) (s : system) : system :=
  if negb result || exitPending_ (obj s) then
    {| obj := {| thread_ := INVALID_PTHREAD_T; status_ := status_ (obj s); exitPending_ := true; running_ := false |};
       clients := notify_all tt (clients s); workers := delete w (workers s); results := results s |}
  else with_worker w AtRun s.

(** [NotifyExitSync] called from [Run]. *)
Definition self_sync (w : Z) (s : system) : system :=
  if thread_ (obj s) =? w then s else with_worker w SelfWait s.

Inductive event :=
  | Call (o : client_op)
  | Step (new : option Z)
  | Spurious
  | Ready (ready : bool)
  | RunReturns (result : bool)
  | EndTest
  | SelfSync.

Definition client_step (s : system) (t : Z) (e : event) : option system :=
  th ← clients s !! t;
  match e, th with
  | Call OpSyncLocked, _ => None
  | Call o, Outside => Some (goes_on t (obj s) (Running o) s)
  | Step new, Running OpStart => Start t new s
  | Step _, Running OpSync => Some (NotifyExitSync_test t s)
  | Step _, Running OpSyncLocked => Some (NotifyExitSync t s)
  | Step _, Running OpAsync => Some (NotifyExitAsync t s)
  | Step _, Woken _ _ => Some (sync_loop t (obj s) s)
  | Spurious, Asleep _ o => Some (goes_on t (obj s) (Woken tt o) s)
  | _, _ => None
  end.

Definition worker_step (s : system) (w : Z) (e : event) : option system :=
  st ← workers s !! w;
  match e, st with
  | Ready ready, AtReady => Some (with_worker w (first_test ready s) s)
  | RunReturns result, AtRun => Some (with_worker w (AtCheck result) s)
  | EndTest, AtCheck result => Some (end_test w result s)
  | SelfSync, AtRun => Some (self_sync w s)
  | _, _ => None
  end.

Definition step (s : system) (ev : Z * event) : option system :=
  let '(t, e) := ev in
  match client_step s t e with Some s' => Some s' | None => worker_step s t e end.

Definition run : system -> list (Z * event) -> option system := run_steps step.

(** ** The invariant *)

(** There is a worker exactly while [running_] is set, it is the thread
    [thread_] names, and nobody sleeps without one. *)
Record inv (s : system) : Prop := {
  inv_worker : if running_ (obj s)
    then exists st, workers s = {[thread_ (obj s) := st]} /\ st <> SelfWait
    else workers s = ∅;
  inv_apart : dom (clients s) ## dom (workers s);
  inv_asleep : sleepers tt (clients s) <> 0 -> running_ (obj s) = true;
}.

Lemma thread_start_inv tids : inv (start tids).
Proof.
  split; [done|cbn; set_solver|]. cbn. intros (t & o & Ht)%sleeper_exists. apply lookup_gset_to_gmap_Some in Ht as [_ ?]. done.
Qed.

Lemma insert_dom {V} (m : gmap Z V) t v x : m !! t = Some v -> dom (<[t := x]> m) = dom m.
Proof. intros Ht. apply set_eq. intros i. rewrite dom_insert, elem_of_union, elem_of_singleton. split; [intros [->|?]; [by eapply elem_of_dom_2|done]|by right]. Qed.

Lemma goes_on_inv s t o th th' : inv s -> clients s !! t = Some th -> running_ o = running_ (obj s) -> thread_ o = thread_ (obj s) ->
  (asleep tt th' <> 0 -> running_ o = true) -> inv (goes_on t o th' s).
Proof.
  intros [A B C] Ht Er Et Ha. split; cbn.
  - by rewrite Er, Et.
  - by rewrite (insert_dom _ _ _ _ Ht).
  - rewrite Er in *. intros Hs. destruct (set_counts tt (clients s) t th th' Ht) as [E _].
    destruct (running_ (obj s)); [done|]. destruct (Z.eq_dec (asleep tt th') 0) as [E0|E0]; [|by apply Ha].
    destruct (Z.eq_dec (sleepers tt (clients s)) 0) as [E1|E1]; [|by apply C]. rewrite E0, E1 in E.
    pose proof (asleep_nonneg tt th). pose proof (sleepers_nonneg tt (<[t := th']> (clients s))). lia.
Qed.

Lemma thread_finish_inv s t o th r : inv s -> clients s !! t = Some th -> running_ o = running_ (obj s) -> thread_ o = thread_ (obj s) ->
  inv (finish t o (workers s) r s).
Proof. intros Hi Ht Er Et. destruct (goes_on_inv s t o th Outside Hi Ht Er Et) as [A B C]; [done|]. by split. Qed.

Lemma sync_loop_inv s t o th : inv s -> clients s !! t = Some th -> running_ o = running_ (obj s) -> thread_ o = thread_ (obj s) ->
  inv (sync_loop t o s).
Proof.
  intros Hi Ht Er Et. unfold sync_loop. destruct (running_ o) eqn:E.
  - apply (goes_on_inv s t o th); [done|done|congruence|done|done].
  - apply (thread_finish_inv s t (set_exit false o) th); [done|done|cbn; congruence|done].
Qed.

Lemma client_step_inv s t e s' : inv s -> client_step s t e = Some s' -> inv s'.
Proof.
  intros Hi. unfold client_step. destruct (clients s !! t) as [th|] eqn:Ht; [cbn|done].
  destruct e as [o|new| | | | |]; try done.
  - destruct o, th as [o'|cv o'|cv o'|]; try done; intros [= <-]; by eapply goes_on_inv.
  - destruct th as [[]|cv o|cv o|]; try done; cbn.
    + unfold Start. destruct (running_ (obj s)) eqn:Er; [intros [= <-]; by eapply thread_finish_inv|].
      destruct Hi as [A B C]. rewrite Er in A, C.
      assert (sleepers tt (<[t := Outside]> (clients s)) <> 0 -> False) as Hs.
      { destruct (set_counts tt (clients s) t _ Outside Ht) as [-> _]. cbn.
        destruct (Z.eq_dec (sleepers tt (clients s)) 0); [lia|]. by specialize (C ltac:(done)). }
      destruct new as [w|].
      * case_bool_decide as Hw; [done|]. cbn [orb]. destruct (Z.eqb_spec w INVALID_PTHREAD_T); [done|]. intros [= <-].
        split; cbn; [|rewrite (insert_dom _ _ _ _ Ht), dom_insert; set_solver|done].
        exists AtReady. by rewrite A.
      * intros [= <-]. split; cbn; [done|by rewrite (insert_dom _ _ _ _ Ht)|done].
    + intros [= <-]. unfold NotifyExitSync_test. destruct (_ =? _); [by eapply thread_finish_inv|by eapply goes_on_inv].
    + intros [= <-]. unfold NotifyExitSync. by eapply sync_loop_inv.
    + intros [= <-]. unfold NotifyExitAsync. by eapply goes_on_inv.
    + intros [= <-]. by eapply sync_loop_inv.
  - destruct th as [o|cv o|cv o|]; try done. intros [= <-]. by eapply goes_on_inv.
Qed.

Lemma worker_step_inv s w e s' : inv s -> worker_step s w e = Some s' -> inv s'.
Proof.
  intros [A B C]. unfold worker_step. destruct (workers s !! w) as [st|] eqn:Hw; [cbn|done].
  destruct (running_ (obj s)) eqn:Er; [|by rewrite A, lookup_empty in Hw]. destruct A as (st' & Ew & Hst).
  rewrite Ew in Hw. apply lookup_singleton_Some in Hw as [E ->]. subst w.
  assert (forall st2, st2 <> SelfWait -> inv (with_worker (thread_ (obj s)) st2 s)) as Hgo.
  { intros st2 H2. split; cbn; rewrite ?Er; [exists st2; split; [|done]; by rewrite Ew, insert_singleton_eq| |done].
    rewrite Ew in *. rewrite insert_singleton_eq. set_solver. }
  destruct e; try done; destruct st; try done; intros [= <-].
  - apply Hgo. unfold first_test. by destruct (_ && _).
  - by apply Hgo.
  - unfold end_test. destruct (_ || _); [|by apply Hgo]. split; cbn.
    + rewrite Ew. apply delete_singleton_eq.
    + unfold notify_all. rewrite dom_fmap. set_solver.
    + intros Hs. pose proof (notify_all_counts tt (clients s) tt) as Hc. rewrite decide_True in Hc by done. destruct Hc as [Hc _]. lia.
  - unfold self_sync. rewrite Z.eqb_refl. by split; rewrite ?Er; [exists AtRun| |].
Qed.

Lemma thread_run_inv tids evs s : run (start tids) evs = Some s -> inv s.
Proof.
  apply (run_steps_inv _ inv); [|apply thread_start_inv]. intros s1 [t e] s2 Hi. unfold step.
  destruct (client_step s1 t e) as [s'|] eqn:E; [intros [= <-]; by eapply client_step_inv|by apply worker_step_inv].
Qed.

(** ** The theorems *)

(** The client [t] returned from [NotifyExitSync] in this step. *)
Definition returns_from_sync (s s' : system) (t : Z) : Prop :=
  (clients s !! t = Some (Running OpSyncLocked) \/ exists o, clients s !! t = Some (Woken tt o)) /\
  clients s' !! t = Some Outside.

(** A thread object runs one thread at a time, whatever its clients call
    concurrently: there is one exactly while [IsRunning] says so, and
    [GetThread] names it; calling [NotifyExitSync] from inside [Run] is
    refused and never waits for itself. *)
Theorem one_worker_at_a_time tids evs s : run (start tids) evs = Some s ->
  (IsRunning s = true /\ exists st, workers s = {[GetThread s := st]} /\ st <> SelfWait) \/
  (IsRunning s = false /\ workers s = ∅).
Proof.
  intros [A _ _]%thread_run_inv. unfold IsRunning, GetThread. destruct (running_ (obj s)); [left|right]; done.
Qed.

(** What is left of a worker once the exit is requested, and the steps it has
    made; a [NotifyExitSync] from inside [Run] is refused and does not count. *)
Definition rank (st : worker) : Z := match st with AtReady | AtRun => 2 | AtCheck _ => 1 | SelfWait => 0 end.
Definition acts (w : Z) (ev : Z * event) : bool :=
  (ev.1 =? w) && match ev.2 with Ready _ | RunReturns _ | EndTest => true | _ => false end.
Definition own_steps (w : Z) (evs : list (Z * event)) : Z := zlen (filter (fun ev => acts w ev = true) evs).

(** A state with a worker that has to exit. *)
Definition exiting (w : Z) (st : worker) (s : system) : Prop :=
  running_ (obj s) = true /\ exitPending_ (obj s) = true /\ thread_ (obj s) = w /\ workers s = {[w := st]}.

Lemma client_step_exiting w st s t e s' : exiting w st s -> client_step s t e = Some s' -> exiting w st s'.
Proof.
  intros (Hr & He & Ht & Hw). unfold client_step. destruct (clients s !! t) as [th|]; [cbn|done].
  destruct e as [o|new| | | | |], th as [[]|cv []|cv []|]; try done; try destruct o; try done;
    unfold Start, NotifyExitSync_test, NotifyExitSync, NotifyExitAsync, sync_loop; rewrite ?Hr; cbn [running_ set_exit]; rewrite ?Hr;
    repeat case_match; intros [= <-]; done.
Qed.

Lemma exiting_step w st s t e s' : inv s -> exiting w st s -> step s (t, e) = Some s' ->
  (exists st', exiting w st' s' /\ rank st' + (if acts w (t, e) then 1 else 0) <= rank st) \/
  ((t, e) = (w, EndTest) /\ workers s' = ∅ /\ sleepers tt (clients s') = 0).
Proof.
  intros [_ B _] Hx. pose proof Hx as (Hr & He & Ht & Hw). unfold step. destruct (client_step s t e) as [s1|] eqn:E.
  { intros [= <-]. left. exists st. split; [by eapply client_step_exiting|]. unfold acts. cbn. destruct (Z.eqb_spec t w) as [->|]; [|cbn; lia].
    exfalso. unfold client_step in E. destruct (clients s !! w) as [th|] eqn:Hc; [|done]. apply (B w); [by eapply elem_of_dom_2|]. rewrite Hw. set_solver. }
  unfold worker_step. rewrite Hw, lookup_singleton. destruct (decide (w = t)) as [<-|]; [|done]. cbn [mbind option_bind].
  unfold acts. cbn [fst snd]. rewrite Z.eqb_refl. cbn [andb].
  destruct e as [o|new| |ready|result| |], st as [| |r|]; try done; intros [= <-].
  - left. eexists. split; [split_and!; try done; cbn; by rewrite Hw, insert_singleton_eq|].
    unfold first_test, IsExitPending. rewrite He, andb_false_r. cbn. lia.
  - left. eexists. split; [split_and!; try done; cbn; by rewrite Hw, insert_singleton_eq|]. cbn. lia.
  - right. unfold end_test. rewrite He, orb_true_r. cbn [workers clients]. rewrite Hw, delete_singleton_eq. split_and!; try done.
    pose proof (notify_all_counts tt (clients s) tt) as Hc. rewrite decide_True in Hc by done. apply Hc.
  - left. exists AtRun. unfold self_sync. rewrite Ht, Z.eqb_refl. split; [done|lia].
Qed.

Lemma exiting_run w evs s st s' : inv s -> exiting w st s -> run s evs = Some s' ->
  (exists st', exiting w st' s' /\ rank st' + own_steps w evs <= rank st) \/
  (exists evs1 evs2 s1, evs = evs1 ++ (w, EndTest) :: evs2 /\ run s (evs1 ++ [(w, EndTest)]) = Some s1 /\
     own_steps w (evs1 ++ [(w, EndTest)]) <= 2 /\ workers s1 = ∅ /\ sleepers tt (clients s1) = 0).
Proof.
  assert (forall ev evs, own_steps w (ev :: evs) = (if acts w ev then 1 else 0) + own_steps w evs) as Hcons.
  { intros ev evs'. unfold own_steps. rewrite filter_cons. destruct (acts w ev); [rewrite decide_True, zlen_cons by done; lia|by rewrite decide_False]. }
  cut (inv s -> exiting w st s -> run s evs = Some s' ->
    (exists st', exiting w st' s' /\ rank st' + own_steps w evs <= rank st) \/
    (exists evs1 evs2 s1, evs = evs1 ++ (w, EndTest) :: evs2 /\ run s (evs1 ++ [(w, EndTest)]) = Some s1 /\
       own_steps w (evs1 ++ [(w, EndTest)]) <= rank st /\ workers s1 = ∅ /\ sleepers tt (clients s1) = 0)).
  { intros Hcut Hi Hx Hr. destruct (Hcut Hi Hx Hr) as [?|(e1 & e2 & s1 & ? & ? & ? & ?)]; [by left|right].
    exists e1, e2, s1. split_and!; try tauto. assert (rank st <= 2) by (destruct st; cbn; lia). lia. }
  revert s st. induction evs as [|[t e] evs IH]; intros s st Hi Hx; unfold run; cbn [run_steps].
  { intros [= <-]. left. exists st. split; [done|]. change (own_steps w []) with 0. lia. }
  destruct (step s (t, e)) as [s1|] eqn:E; [|done]. cbn [mbind option_bind]. intros Hr.
  assert (inv s1) as Hi1.
  { unfold step in E. destruct (client_step s t e) as [s2|] eqn:E2; [injection E as <-; by eapply client_step_inv|by eapply worker_step_inv]. }
  destruct (exiting_step w st s t e s1 Hi Hx E) as [(st1 & Hx1 & Hk)|(Ee & Hw & Hz)].
  - destruct (IH s1 st1 Hi1 Hx1 Hr) as [(st' & Hx' & Hk')|(e1 & e2 & s2 & -> & Hr2 & Hk' & ?)].
    + left. exists st'. split; [done|]. rewrite Hcons. lia.
    + right. exists ((t, e) :: e1), e2, s2. split; [done|]. split; [unfold run; cbn [app run_steps]; rewrite E; exact Hr2|].
      split; [cbn [app]; rewrite Hcons; lia|done].
  - right. rewrite Ee in *. exists [], evs, s1. split; [done|]. split; [unfold run; cbn [app run_steps]; by rewrite E|]. split_and!; try done.
    cbn [app]. rewrite Hcons. change (own_steps w []) with 0. unfold acts. cbn [fst snd]. rewrite Z.eqb_refl. cbn.
    destruct Hx as (_ & _ & _ & Hws). injection Ee as -> ->. unfold step in E.
    destruct st; cbn; try lia. exfalso. destruct Hi as [A _ _]. clear -A Hws. destruct (running_ (obj s)).
    + destruct A as (st & A & Hn). rewrite Hws in A. apply map_singleton_inj in A. naive_solver.
    + rewrite Hws in A. by apply map_non_empty_singleton in A.
Qed.

Lemma exiting_goes_on w st s : inv s -> exiting w st s -> exists e s', step s (w, e) = Some s' /\ acts w (w, e) = true.
Proof.
  intros [A B _] (Hr & He & Ht & Hw).
  assert (clients s !! w = None) as Hc by (apply not_elem_of_dom; intros Hc; apply (B w); [done|]; rewrite Hw; set_solver).
  rewrite Hr in A. destruct A as (st' & A & Hn). rewrite Hw in A. apply map_singleton_inj in A as [_ <-].
  unfold step, client_step, worker_step, acts. rewrite Hc, Hw, lookup_singleton_eq. cbn [mbind option_bind fst snd]. rewrite Z.eqb_refl.
  destruct st; [exists (Ready true)|exists (RunReturns true)|exists EndTest|done]; by eexists.
Qed.

(** C38: When [NotifyExitSync] returns there is no worker, so [Run] is not
    called any more. While a client waits in it there is a worker. As long as
    the exit request is pending, which it stays until that worker ends, however
    the threads interleave: the worker is never blocked, it is in its last
    iteration, at most two steps from its end whatever [Run] returns, and its
    end wakes every waiting client. (A client that was woken but has not got the
    lock back when another one calls [Start] waits on, for a new worker that
    nobody told to exit: see [restart_forgets_the_exit].) *)
Theorem NotifyExitSync_waits_for_the_worker tids evs s : run (start tids) evs = Some s ->
  (forall t ev s', step s (t, ev) = Some s' -> returns_from_sync s s' t -> workers s' = ∅ /\ IsRunning s' = false) /\
  (sleepers tt (clients s) <> 0 -> exists st, workers s !! GetThread s = Some st) /\
  (forall w evs' s', w ∈ dom (workers s) -> IsExitPending s = true -> run s evs' = Some s' ->
    (IsExitPending s' = true /\ own_steps w evs' <= 1 /\ exists e s'', step s' (w, e) = Some s'' /\ acts w (w, e) = true) \/
    (exists evs1 evs2 s1, evs' = evs1 ++ (w, EndTest) :: evs2 /\ run s (evs1 ++ [(w, EndTest)]) = Some s1 /\
       own_steps w (evs1 ++ [(w, EndTest)]) <= 2 /\ workers s1 = ∅ /\ sleepers tt (clients s1) = 0)).
Proof.
  intros Hrun. assert (Hi := thread_run_inv _ _ _ Hrun). assert (Hi' := Hi). destruct Hi' as [A B C]. split; [|split].
  - intros t ev s' Hs [Hth Hout].
    assert (exists o, sync_loop t o s = s' /\ running_ o = running_ (obj s)) as (o & <- & Er).
    { assert (workers s !! t = None) as Hw.
      { apply not_elem_of_dom; intros Hw. apply (B t); [|done]. destruct Hth as [E|[? E]]; by eapply elem_of_dom_2. }
      unfold step, client_step, worker_step in Hs. rewrite Hw in Hs. cbn in Hs.
      destruct Hth as [E|[o E]]; rewrite E in Hs; cbn in Hs; destruct ev as [[]|new| | | | |]; try done; injection Hs as <-.
      - by exists (set_exit true (obj s)).
      - by exists (obj s). }
    unfold sync_loop in *. destruct (running_ o) eqn:Eo; [cbn in Hout; by rewrite lookup_insert_eq in Hout|].
    rewrite <- Er in A. unfold IsRunning. done.
  - intros Hs. specialize (C Hs). rewrite C in A. destruct A as (st & -> & _). exists st. unfold GetThread. by rewrite lookup_singleton_eq.
  - intros w evs' s' Hw He Hr. destruct (running_ (obj s)) eqn:Er; [|rewrite A in Hw; set_solver]. destruct A as (st & Ew & Hn).
    assert (exiting w st s) as Hx by (rewrite Ew in Hw; apply elem_of_dom in Hw as [st' [E _]%lookup_singleton_Some]; by subst w).
    destruct (exiting_run w evs' s st s' Hi Hx Hr) as [(st' & Hx' & Hk)|?]; [left|by right].
    assert (inv s') as Hi2 by (apply (thread_run_inv tids (evs ++ evs')); unfold run in *; by rewrite run_steps_app, Hrun).
    split; [apply Hx'|]. split; [|by apply (exiting_goes_on w st')].
    destruct st; cbn in Hk; try done; destruct st'; cbn in Hk; try lia;
      exfalso; destruct Hi2 as [A2 _ _]; destruct Hx' as (Hr2 & _ & _ & Hw2); rewrite Hr2 in A2; destruct A2 as (? & A2 & ?);
      rewrite Hw2 in A2; apply map_singleton_inj in A2; naive_solver.
Qed.

(** Two clients and a worker: client 1 starts it, client 2 waits for its end. *)
Definition demo_thread_run : list (Z * event) :=
  [(1, Call OpStart); (1, Step (Some 7)); (7, Ready true); (7, SelfSync); (2, Call OpSync); (2, Step None); (2, Step None)].

Definition state_of (r : option system) : system := default (start ∅) r.

Lemma one_worker_at_a_time_witness :
  let s := state_of (run (start {[1; 2]}) demo_thread_run) in
  run (start {[1; 2]}) demo_thread_run = Some s /\
  ((IsRunning s = true /\ exists st, workers s = {[GetThread s := st]} /\ st <> SelfWait) \/
   (IsRunning s = false /\ workers s = ∅)).
Proof.
  split; [vm_compute; reflexivity|]. apply (one_worker_at_a_time {[1; 2]} demo_thread_run). vm_compute. reflexivity.
Defined.

(** A spurious wake-up and another start before the worker ends. *)
Definition demo_exit : list (Z * event) := [(2, Spurious); (7, RunReturns true); (2, Step None); (1, Call OpStart); (1, Step None); (7, EndTest)].

Lemma NotifyExitSync_waits_for_the_worker_witness :
  let s := state_of (run (start {[1; 2]}) demo_thread_run) in let s' := state_of (run s demo_exit) in
  IsExitPending s = true /\ sleepers tt (clients s) = 1 /\ run s demo_exit = Some s' /\
  ((IsExitPending s' = true /\ own_steps 7 demo_exit <= 1 /\ exists e s'', step s' (7, e) = Some s'' /\ acts 7 (7, e) = true) \/
   (exists evs1 evs2 s1, demo_exit = evs1 ++ (7, EndTest) :: evs2 /\ run s (evs1 ++ [(7, EndTest)]) = Some s1 /\
      own_steps 7 (evs1 ++ [(7, EndTest)]) <= 2 /\ workers s1 = ∅ /\ sleepers tt (clients s1) = 0)).
Proof.
  intros s s'. split; [vm_compute; reflexivity|]. split; [vm_compute; reflexivity|]. split; [vm_compute; reflexivity|].
  destruct (NotifyExitSync_waits_for_the_worker {[1; 2]} demo_thread_run s) as (_ & _ & H); [vm_compute; reflexivity|].
  apply H; [|vm_compute; reflexivity..]. apply elem_of_dom. exists AtRun. vm_compute. reflexivity.
Defined.

(** A restart before the woken client has the lock again: [Start] clears the
    request, so the client waits for a worker nobody told to exit. *)
Example restart_forgets_the_exit :
  let evs := demo_thread_run ++ [(7, RunReturns true); (7, EndTest); (1, Call OpStart); (1, Step (Some 8)); (2, Step None);
                                 (8, Ready true); (8, RunReturns true); (8, EndTest)] in
  let s := state_of (run (start {[1; 2]}) evs) in
  run (start {[1; 2]}) evs = Some s /\ clients s !! 2 = Some (Asleep tt OpSyncLocked) /\ IsExitPending s = false /\
  workers s = {[8 := AtRun]}.
Proof. split_and!; vm_compute; reflexivity. Qed.

(** A thread that ends by itself leaves the request set, though nobody waits. *)
Example pending_exit_of_nobody :
  let s := state_of (run (start {[1]}) [(1, Call OpStart); (1, Step (Some 7)); (7, Ready true); (7, RunReturns false); (7, EndTest)]) in
  IsExitPending s = true /\ IsRunning s = false /\ sleepers tt (clients s) = 0.
Proof. split_and!; vm_compute; reflexivity. Qed.

(** ** Parameters *)

Section parameters.
Context {K : Type} `{PThread K}.

(** When the creation works, [Proxy] finds the parameters and frees them; when
    it fails, they stay on the heap. *)
Lemma CreatePThread_spec para stackSize threadId (w : pthread_world (K := K)) :
  exists t ok thread w', CreatePThread para stackSize threadId w = Some ((ok, thread), w') /\
    heap w !! t = None /\ heap w' = <[t := para]> (heap w) /\
    (ok = false -> thread = threadId) /\
    exists w2, Proxy (Some t) w' = Some (Some (startRoutine para, args para), w2) /\ heap w2 = heap w.
Proof.
  set (t := above (dom (heap w))). destruct (above_fresh (dom (heap w))) as [Hf _]. apply not_elem_of_dom in Hf.
  unfold CreatePThread, new_param, on_kernel, mbind, st_bind. fold t. cbn.
  destruct (pthread_create stackSize t (pk w)) as [[result thread] k'].
  assert (forall k, exists w2, Proxy (Some t) {| heap := <[t := para]> (heap w); pk := k |} = Some (Some (startRoutine para, args para), w2) /\
    heap w2 = heap w) as Hp.
  { intros k. unfold Proxy, st_access, st_put, on_kernel, mbind, st_bind. cbn. rewrite lookup_insert_eq.
    case_bool_decide; eexists; (split; [reflexivity|]); cbn; by apply delete_insert_id. }
  destruct (Z.eqb_spec result 0); cbn; do 4 eexists; (split; [reflexivity|]); (split; [exact Hf|]); (split; [reflexivity|]);
    (split; [done|]); apply Hp.
Qed.
End parameters.

#[export] Instance demo_pthread : PThread unit := {
  pthread_create stack t k := (11, 0, k); setpriority _ k := k; prctl_set_name _ k := k }.

(** A creation that fails leaks the parameters. *)
Example CreatePThread_leaks :
  match CreatePThread {| startRoutine := 1; args := 2; priority := 0; name := [] |} 0 5 {| heap := ∅; pk := tt |} with
  | Some (r, w') => r = (false, 5) /\ size (heap w') = 1%nat
  | None => False
  end.
Proof. vm_compute. done. Qed.
