(* ===== verification/UniqueFd.v ===== *)
(** * Owned file descriptors ([base/include/unique_fd.h])

    [UniqueFdAddDeletor<Deleter>] objects live in a store; the template
    parameter [Deleter] is a class, and [UniqueFd] is the instance with
    [DefaultDeleter]. A program is a sequence of constructions, moves,
    releases and destructions. *)

From S2P Require Import Prelude.

(** The template parameter: [static void Close(int fd)], on the state the
    deleter changes. *)
Class Deleter (K : Type) := Close : Z -> K -> K.

(** [close], for [DefaultDeleter]. *)
Class Unistd (K : Type) := unistd_close : Z -> K -> K.

Definition DefaultDeleter_Close {K} `{Unistd K} (fd : Z) (k : K) : K := if 0 <=? fd then unistd_close fd k else k.
Definition DefaultDeleter {K} `{Unistd K} : Deleter K := DefaultDeleter_Close.

(** The objects by address, each with its [fd_]. *)
Record fd_world (K : Type) := { fds : gmap Z Z; fd_kernel : K }.
Arguments fds {K} _.
Arguments fd_kernel {K} _.

Section unique_fd.
Context {K : Type} `{Deleter K}.
Notation FM := (ST (fd_world K)).

Definition fd_of (o : Z) : FM Z := st_access (fun w => fds w !! o).
Definition set_fd_of (o fd : Z) : FM unit := st_put (fun w => {| fds := <[o := fd]> (fds w); fd_kernel := fd_kernel w |}).
Definition forget (o : Z) : FM unit := st_put (fun w => {| fds := delete o (fds w); fd_kernel := fd_kernel w |}).
(** A constructor runs on storage that holds no object. *)
Definition fresh (o : Z) : FM unit := st_access (fun w => if fds w !! o is Some _ then None else Some tt).
Definition deleter_close (fd : Z) : FM unit := st_put (fun w => {| fds := fds w; fd_kernel := Close fd (fd_kernel w) |}).

Definition UniqueFd_ctor (o value : Z) : FM unit := fresh o;; set_fd_of o value.
Definition UniqueFd_default_ctor (o : Z) : FM unit := fresh o;; set_fd_of o (-1).

Definition Reset (o newValue : Z) : FM unit :=
  fd ← fd_of o;
  (if 0 <=? fd then deleter_close fd else mret tt);;
  set_fd_of o newValue.

Definition UniqueFd_dtor (o : Z) : FM unit := Reset o (-1);; forget o.

Definition Release (o : Z) : FM Z :=
  tmp ← fd_of o;
  set_fd_of o (-1);;
  mret tmp.

Definition Get (o : Z) : FM Z := fd_of o.

Definition move_ctor (o rhs : Z) : FM unit :=
  fresh o;;
  rhsfd ← Release rhs;
  set_fd_of o rhsfd.

Definition move_assign (o rhs : Z) : FM unit :=
  rhsfd ← Release rhs;
  Reset o rhsfd.

(** The comparisons with an [int] on the right, then on the left. *)
Definition op_eq (o rhs : Z) : FM bool := fd ← fd_of o; mret (fd =? rhs).
Definition op_ne (o rhs : Z) : FM bool := fd ← fd_of o; mret (negb (fd =? rhs)).
Definition op_ge (o rhs : Z) : FM bool := fd ← fd_of o; mret (rhs <=? fd).
Definition op_gt (o rhs : Z) : FM bool := fd ← fd_of o; mret (rhs <? fd).
Definition op_le (o rhs : Z) : FM bool := fd ← fd_of o; mret (fd <=? rhs).
Definition op_lt (o rhs : Z) : FM bool := fd ← fd_of o; mret (fd <? rhs).
Definition int_eq (lhs o : Z) : FM bool := fd ← fd_of o; mret (lhs =? fd).
Definition int_ne (lhs o : Z) : FM bool := fd ← fd_of o; mret (negb (lhs =? fd)).
Definition int_ge (lhs o : Z) : FM bool := fd ← fd_of o; mret (fd <=? lhs).
Definition int_gt (lhs o : Z) : FM bool := fd ← fd_of o; mret (fd <? lhs).
Definition int_le (lhs o : Z) : FM bool := fd ← fd_of o; mret (lhs <=? fd).
Definition int_lt (lhs o : Z) : FM bool := fd ← fd_of o; mret (lhs <? fd).
End unique_fd.

(** ** Programs *)

Inductive fd_op :=
  | Construct (o value : Z)
  | Construct_default (o : Z)
  | Destroy (o : Z)
  | Take (o : Z)               (** [Release], the result kept by the caller *)
  | Construct_move (o rhs : Z)
  | Assign_move (o rhs : Z).

(** What a program passed in and what it took out, besides the objects. *)
Record fd_run (K : Type) := { objs : fd_world K; given : list Z; taken : list Z }.
Arguments objs {K} _.
Arguments given {K} _.
Arguments taken {K} _.

Section programs.
Context {K : Type} `{Deleter K}.

Definition fd_exec (op : fd_op) : ST (fd_world K) (list Z) :=
  match op with
  | Construct o value => UniqueFd_ctor o value;; mret []
  | Construct_default o => UniqueFd_default_ctor o;; mret []
  | Destroy o => UniqueFd_dtor o;; mret []
  | Take o => fd ← Release o; mret [fd]
  | Construct_move o rhs => move_ctor o rhs;; mret []
  | Assign_move o rhs => move_assign o rhs;; mret []
  end.

Definition op_gives (op : fd_op) : list Z := if op is Construct _ value then [value] else [].

Definition fd_step (r : fd_run K) (op : fd_op) : option (fd_run K) :=
  '(out, w) ← fd_exec op (objs r);
  Some {| objs := w; given := op_gives op ++ given r; taken := out ++ taken r |}.

Definition fd_start (k : K) : fd_run K :=
  {| objs := {| fds := ∅; fd_kernel := k |}; given := []; taken := [] |}.

Definition run_fds (k : K) (ops : list fd_op) : option (fd_run K) := run_steps fd_step (fd_start k) ops.
End programs.

(** ** The deleter's calls

    A deleter that records its calls. *)
Definition log_deleter : Deleter (list Z) := fun fd l => fd :: l.

(** The kernel after the recorded calls, the last one first. *)
Definition replay {K} `{Deleter K} (k : K) (log : list Z) : K := foldr Close k log.

Definition valid (l : list Z) : list Z := filter (fun fd => 0 <= fd) l.
(** The descriptors the objects manage. *)
Definition owned (m : gmap Z Z) : list Z := valid (snd <$> map_to_list m).

Lemma valid_app l k : valid (l ++ k) = valid l ++ valid k.
Proof. apply filter_app. Qed.

#[export] Instance valid_perm : Proper ((≡ₚ) ==> (≡ₚ)) valid.
Proof. intros l k E. unfold valid. by rewrite E. Qed.

Lemma owned_insert_new m o fd : m !! o = None -> owned (<[o := fd]> m) ≡ₚ valid [fd] ++ owned m.
Proof. intros E. unfold owned. rewrite map_to_list_insert by done. by rewrite <- valid_app. Qed.

Lemma owned_lookup m o fd : m !! o = Some fd -> owned m ≡ₚ valid [fd] ++ owned (delete o m).
Proof.
  intros E. rewrite <- (insert_delete_id m o fd E) at 1. apply owned_insert_new, lookup_delete_eq.
Qed.

Lemma owned_insert m o fd : owned (<[o := fd]> m) ≡ₚ valid [fd] ++ owned (delete o m).
Proof. rewrite <- insert_delete_eq. apply owned_insert_new, lookup_delete_eq. Qed.

Lemma valid_minus1 : valid [-1] = [].
Proof. done. Qed.

(** What the objects manage and what the deleter was given. *)
Definition held (w : fd_world (list Z)) : list Z := owned (fds w) ++ fd_kernel w.

(** ** The operations over the recording deleter *)

Section recorded.
#[local] Existing Instance log_deleter.
Implicit Types w : fd_world (list Z).

Lemma construct_held o v w : fds w !! o = None ->
  held {| fds := <[o := v]> (fds w); fd_kernel := fd_kernel w |} ≡ₚ valid [v] ++ held w.
Proof. intros E. unfold held. cbn. by rewrite owned_insert_new, <- (assoc_L (++)). Qed.

Lemma Release_held o w fd w' : Release o w = Some (fd, w') -> held w ≡ₚ valid [fd] ++ held w'.
Proof.
  unfold Release, fd_of, st_access, held, mbind, st_bind. destruct (fds w !! o) as [fd0|] eqn:E; [|done].
  intros [= <- <-]. cbn [fds fd_kernel].
  rewrite (owned_lookup _ _ _ E), owned_insert, valid_minus1. by rewrite <- (assoc_L (++)).
Qed.

Lemma Reset_held o v w w' : Reset o v w = Some (tt, w') -> held w' ≡ₚ valid [v] ++ held w /\ fds w' !! o = Some v.
Proof.
  unfold Reset, fd_of, st_access, held, mbind, st_bind. destruct (fds w !! o) as [fd|] eqn:E; [|done].
  destruct (Z.leb_spec 0 fd) as [Hfd|Hfd]; intros [= <-]; cbn [fds fd_kernel]; (split; [|by rewrite lookup_insert_eq]);
    rewrite owned_insert, (owned_lookup _ _ _ E), <- !(assoc_L (++)); apply Permutation_app_head.
  - unfold valid. rewrite filter_cons_True by done. rewrite filter_nil. unfold Close, log_deleter.
    by rewrite <- Permutation_middle.
  - unfold valid. rewrite filter_cons_False by lia. done.
Qed.

Lemma fresh_ok o w a w' : fresh o w = Some (a, w') -> w' = w /\ fds w !! o = None.
Proof. unfold fresh, st_access. destruct (fds w !! o) eqn:E; [done|]. by intros [= _ <-]. Qed.

Lemma forget_held o w : fds w !! o = Some (-1) ->
  held {| fds := delete o (fds w); fd_kernel := fd_kernel w |} ≡ₚ held w.
Proof. intros E. unfold held. cbn. by rewrite (owned_lookup _ _ _ E), valid_minus1. Qed.

(** Every operation moves descriptors between the caller, the objects and the deleter. *)
Lemma fd_exec_held op w out w' :
  fd_exec op w = Some (out, w') -> valid out ++ held w' ≡ₚ valid (op_gives op) ++ held w.
Proof.
  intros E. destruct op as [o v|o|o|o|o rhs|o rhs]; cbn [fd_exec op_gives] in *.
  - apply st_bind_Some in E as ([] & w1 & E & [= <- <-]).
    apply st_bind_Some in E as ([] & w2 & (-> & Ho)%fresh_ok & [= <-]). by apply construct_held.
  - apply st_bind_Some in E as ([] & w1 & E & [= <- <-]).
    apply st_bind_Some in E as ([] & w2 & (-> & Ho)%fresh_ok & [= <-]). by apply (construct_held o (-1)).
  - apply st_bind_Some in E as ([] & w1 & E & [= <- <-]).
    apply st_bind_Some in E as ([] & w2 & (Hr & Ho)%Reset_held & [= <-]). cbn.
    by rewrite (forget_held _ _ Ho), Hr.
  - apply st_bind_Some in E as (fd & w1 & E%Release_held & [= <- <-]). by rewrite E.
  - apply st_bind_Some in E as ([] & w1 & E & [= <- <-]).
    apply st_bind_Some in E as ([] & w2 & (-> & Ho)%fresh_ok & E).
    apply st_bind_Some in E as (fd & w3 & E & [= <-]). pose proof (Release_held _ _ _ _ E) as Hh. rewrite Hh. cbn.
    apply (construct_held o fd). clear Hh. revert E. unfold Release, fd_of, st_access, mbind, st_bind.
    destruct (fds w !! rhs) eqn:Er; [|done]. intros [= _ <-]. cbn. by rewrite lookup_insert_ne by congruence.
  - apply st_bind_Some in E as ([] & w1 & E & [= <- <-]).
    apply st_bind_Some in E as (fd & w2 & ->%Release_held & (E & _)%Reset_held). done.
Qed.

Lemma run_fds_held ops r : run_fds [] ops = Some r -> valid (taken r) ++ held (objs r) ≡ₚ valid (given r).
Proof.
  apply (run_steps_inv _ (fun r => valid (taken r) ++ held (objs r) ≡ₚ valid (given r))); [|done].
  intros s op s' Hs. unfold fd_step. destruct (fd_exec op (objs s)) as [[out w]|] eqn:E; [|done].
  intros [= <-]. cbn. apply fd_exec_held in E. rewrite !valid_app, <- Hs, (assoc_L (++)).
  rewrite (Permutation_app_comm (valid out)), <- (assoc_L (++)), E.
  by rewrite !(assoc_L (++)), (Permutation_app_comm (valid (taken s))).
Qed.
End recorded.

(** ** Any deleter

    The program over a deleter [Close] is the program over the recording one,
    followed by the recorded calls. *)
Section replayed.
Context {K : Type} `{Deleter K} (k : K).

Definition embed (w : fd_world (list Z)) : fd_world K := {| fds := fds w; fd_kernel := replay k (fd_kernel w) |}.

Lemma fd_exec_replay op w :
  fd_exec op (embed w) = prod_map id embed <$> fd_exec (H := log_deleter) op w.
Proof.
  destruct w as [m log]. destruct op as [o v|o|o|o|o rhs|o rhs]; cbn [fd_exec];
    unfold UniqueFd_ctor, UniqueFd_default_ctor, UniqueFd_dtor, move_ctor, move_assign, Reset, Release, forget, fresh,
      fd_of, set_fd_of, deleter_close, st_access, st_put, mbind, st_bind, mret, st_ret, embed; cbn;
    repeat match goal with
    | |- context [match ?m !! ?i with _ => _ end] => destruct (m !! i) eqn:?; cbn
    | |- context [if ?b then _ else _] => destruct b eqn:?; cbn
    end; done.
Qed.

Lemma run_fds_replay ops r :
  run_fds k ops = Some r ->
  exists rl, run_fds (H := log_deleter) [] ops = Some rl /\ objs r = embed (objs rl) /\ given r = given rl /\ taken r = taken rl.
Proof.
  unfold run_fds.
  assert (forall s sl, objs s = embed (objs sl) -> given s = given sl -> taken s = taken sl ->
    run_steps fd_step s ops = Some r ->
    exists rl, run_steps (fd_step (H := log_deleter)) sl ops = Some rl /\ objs r = embed (objs rl) /\
               given r = given rl /\ taken r = taken rl) as Hsim.
  { induction ops as [|op ops IH]; intros s sl Ho Hg Ht; [intros [= <-]; by exists sl|].
    intros (s1 & E1 & Hr)%run_steps_cons. unfold fd_step in E1. rewrite Ho, fd_exec_replay in E1.
    destruct (fd_exec (H := log_deleter) op (objs sl)) as [[out w]|] eqn:E; [|done]. injection E1 as <-.
    set (sl1 := {| objs := w; given := op_gives op ++ given sl; taken := out ++ taken sl |}).
    pose proof (fun A B C => IH _ sl1 A B C Hr) as Hi. destruct Hi as (rl & Hrl & Hrest); [cbn; congruence..|].
    exists rl. split; [|done]. cbn [run_steps]. assert (fd_step (H := log_deleter) sl op = Some sl1) as ->; [|done].
    unfold fd_step. by rewrite E. }
  apply Hsim; done.
Qed.
End replayed.

(** C35: whatever a program does with its objects, and whatever the deleter is,
    a descriptor handed to a constructor is at any time in exactly one place:
    managed by one object, released to the caller, or passed to [Close]. The
    deleter is called on nothing else, so no descriptor is closed twice and
    none is lost, self-assignment included. *)
Theorem each_descriptor_has_one_owner {K} `{Deleter K} (k : K) ops r :
  run_fds k ops = Some r ->
  exists log, fd_kernel (objs r) = replay k log /\
    owned (fds (objs r)) ++ valid (taken r) ++ log ≡ₚ valid (given r).
Proof.
  intros (rl & Hrl%run_fds_held & -> & -> & ->)%run_fds_replay. exists (fd_kernel (objs rl)). split; [done|].
  rewrite <- Hrl. cbn. unfold held. rewrite !(assoc_L (++)). apply Permutation_app_tail, Permutation_app_comm.
Qed.

(** A kernel that keeps a set of open descriptors. *)
#[export] Instance demo_unistd : Unistd (list Z) := fun fd l => filter (fun x => x <> fd) l.

Definition demo_ops : list fd_op :=
  [Construct 1 3; Construct 2 4; Construct 3 5; Construct_default 4; Assign_move 4 1; Assign_move 2 2; Assign_move 2 3;
   Take 4; Destroy 2; Destroy 1; Construct_move 7 3].

(** 3 is taken back, 4 and 5 are closed: 4 when its object takes over 5 (moving an object to itself keeps it). *)
Lemma each_descriptor_has_one_owner_witness :
  exists r, run_fds (H := DefaultDeleter) [3; 4; 5] demo_ops = Some r /\ fd_kernel (objs r) = [3] /\
    exists log, fd_kernel (objs r) = replay (H := DefaultDeleter) [3; 4; 5] log /\
      owned (fds (objs r)) ++ valid (taken r) ++ log ≡ₚ valid (given r).
Proof.
  eexists. split; [vm_compute; reflexivity|]. split; [reflexivity|].
  apply (each_descriptor_has_one_owner (H := DefaultDeleter) [3; 4; 5] demo_ops). vm_compute; reflexivity.
Defined.

(** [Deleter::Close] only sees descriptors that are not negative, so
    [DefaultDeleter] passes each of its calls on to [close]. *)
Lemma DefaultDeleter_closes {K} `{Unistd K} (k : K) log :
  Forall (fun fd => 0 <= fd) log -> replay (H := DefaultDeleter) k log = foldr unistd_close k log.
Proof.
  induction 1 as [|fd log Hfd Hl IH]; [done|].
  change (DefaultDeleter_Close fd (replay (H := DefaultDeleter) k log) = unistd_close fd (foldr unistd_close k log)).
  rewrite IH. unfold DefaultDeleter_Close. by destruct (Z.leb_spec 0 fd); [|lia].
Qed.

(** An object on the left or on the right of a comparison: the two operators agree. *)
Lemma comparisons_agree {K} o v (w : fd_world K) :
  op_eq o v w = int_eq v o w /\ op_ne o v w = int_ne v o w /\ op_ge o v w = int_le v o w /\
  op_gt o v w = int_lt v o w /\ op_le o v w = int_ge v o w /\ op_lt o v w = int_gt v o w.
Proof.
  unfold op_eq, int_eq, op_ne, int_ne, mbind, st_bind, fd_of, st_access.
  destruct (fds w !! o) as [fd|] eqn:E; [rewrite (Z.eqb_sym v fd)|]; repeat split.
Qed.
