(* ===== verification/Ashmem.v ===== *)
(** * Anonymous shared memory ([base/src/ashmem.cpp])

    An object and the kernel with the ashmem driver. A null pointer is [None];
    a fault or a signed overflow is [None] in [ST]. The kernel's operations
    stand for the calls the code wraps in [TEMP_FAILURE_RETRY], which is to
    call again while a signal interrupts. *)

From S2P Require Import Prelude Parcel.

(** The requests of [ioctl] on the device. *)
Inductive request :=
  | ASHMEM_SET_NAME (buf : list Z)
  | ASHMEM_SET_SIZE (size : Z)
  | ASHMEM_SET_PROT_MASK (prot : Z)
  | ASHMEM_GET_SIZE
  | ASHMEM_GET_PROT_MASK.

Definition ASHMEM_NAME_LEN : Z := 256.
Definition PROT_READ : Z := 1.
Definition PROT_WRITE : Z := 2.

(** What the code uses of the kernel. *)
Class AshmemOS (K : Type) := {
  open_device : K -> Z * K;                          (** [open("/dev/ashmem", O_RDWR | O_CLOEXEC)] *)
  fstat : Z -> K -> option (Z * Z);                  (** [st_mode] and [st_rdev], [None] when the call fails *)
  ioctl : Z -> request -> K -> Z * K;
  mmap_shared : Z -> Z -> Z -> K -> option Z * K;    (** length, protection, descriptor; from offset 0 *)
  munmap : Z -> Z -> K -> K;
  close : Z -> K -> K;
  memory : Z -> Z -> K -> list Z;                    (** the bytes at an address, whether the process may read them or not *)
  peek : Z -> Z -> K -> option (list Z);             (** a load of the process, [None] when it faults *)
  poke : Z -> list Z -> K -> option K;               (** a store, [None] when it faults *)
}.

(** [strcpy_s] of the bounds-checking library: a destination of [destMax]
    bytes and a string give the error code and the destination afterwards. *)
Class SecurecStr := strcpy_s : list Z -> Z -> list Z -> Z * list Z.

(** [S_ISCHR(m)] *)
Definition S_ISCHR (m : Z) : bool := Z.land m 0xF000 =? 0x2000.

Record Ashmem := {
  memoryFd_ : Z;
  memorySize_ : Z;
  flag_ : Z;
  startAddr_ : option Z;
}.

Definition Ashmem_ctor (fd size : Z) : Ashmem := {| memoryFd_ := fd; memorySize_ := size; flag_ := 0; startAddr_ := None |}.

Section ashmem.
Context {K : Type} `{AshmemOS K} `{Securec} `{SecurecStr}.

(** ** The free functions *)

Notation KM := (ST K).
Definition sys_close (fd : Z) : KM unit := st_put (close fd).

Definition AshmemOpenLocked : KM Z :=
  fd ← st_call open_device;
  if fd <? 0 then mret fd
  else
    st ← st_get (fstat fd);
    match st with
    | None => sys_close fd;; mret (-1)
    | Some (st_mode, st_rdev) =>
        if negb (S_ISCHR st_mode) || (st_rdev =? 0) then sys_close fd;; mret (-1) else mret fd
    end.

(** Under [g_ashmemLock]. *)
Definition AshmemOpen : KM Z := AshmemOpenLocked.

Definition AshmemCreate (name : option (list Z)) (size : Z) : KM Z :=
  fd ← AshmemOpen;
  if fd <? 0 then mret fd
  else
    named ← match name with
            | None => mret EOK
            | Some name =>
                let '(e, buf) := strcpy_s (replicate (Z.to_nat ASHMEM_NAME_LEN) 0) ASHMEM_NAME_LEN name in
                if negb (e =? EOK) then sys_close fd;; mret (-1)
                else
                  ret ← st_call (ioctl fd (ASHMEM_SET_NAME buf));
                  if ret <? 0 then sys_close fd;; mret ret else mret EOK
            end;
    if named <? 0 then mret named
    else
      ret ← st_call (ioctl fd (ASHMEM_SET_SIZE size));
      if ret <? 0 then sys_close fd;; mret ret else mret fd.

Definition AshmemSetProt (fd prot : Z) : KM Z := st_call (ioctl fd (ASHMEM_SET_PROT_MASK prot)).
Definition AshmemGetSize (fd : Z) : KM Z := st_call (ioctl fd ASHMEM_GET_SIZE).

Definition CreateAshmem (name : option (list Z)) (size : Z) : KM (option Ashmem) :=
  if bool_decide (name = None) || (size <=? 0) then mret None
  else
    fd ← AshmemCreate name size;
    if fd <? 0 then mret None else mret (Some (Ashmem_ctor fd size)).

(** ** The object *)

Record ash_world := { ash : Ashmem; os : K }.
Notation AM := (ST ash_world).

Definition fld {A} (g : Ashmem -> A) : AM A := st_get (fun w => g (ash w)).
Definition upd (g : Ashmem -> Ashmem) : AM unit := st_put (fun w => {| ash := g (ash w); os := os w |}).
Definition lift {A} (m : KM A) : AM A := fun w =>
  match m (os w) with Some (a, k) => Some (a, {| ash := ash w; os := k |}) | None => None end.

Definition GetAshmemFd : AM Z := fld memoryFd_.

Definition SetProtection (protectionType : Z) : AM bool :=
  fd ← fld memoryFd_;
  result ← lift (AshmemSetProt fd protectionType);
  mret (0 <=? result).

Definition GetProtection : AM Z :=
  fd ← fld memoryFd_;
  lift (st_call (ioctl fd ASHMEM_GET_PROT_MASK)).

Definition GetAshmemSize : AM Z :=
  fd ← fld memoryFd_;
  lift (AshmemGetSize fd).

Definition CloseAshmem : AM unit :=
  fd ← fld memoryFd_;
  (if 0 <? fd
   then lift (sys_close fd);;
        upd (fun a => {| memoryFd_ := -1; memorySize_ := memorySize_ a; flag_ := flag_ a; startAddr_ := startAddr_ a |})
   else mret tt);;
  upd (fun a => {| memoryFd_ := memoryFd_ a; memorySize_ := 0; flag_ := 0; startAddr_ := None |}).

Definition MapAshmem (mapType : Z) : AM bool :=
  a ← fld id;
  startAddr ← lift (st_call (mmap_shared (u64 (memorySize_ a)) mapType (memoryFd_ a)));
  match startAddr with
  | None => mret false
  | Some p =>
      upd (fun a => {| memoryFd_ := memoryFd_ a; memorySize_ := memorySize_ a; flag_ := mapType; startAddr_ := Some p |});;
      mret true
  end.

Definition MapReadAndWriteAshmem : AM bool := MapAshmem (Z.lor PROT_READ PROT_WRITE).
Definition MapReadOnlyAshmem : AM bool := MapAshmem PROT_READ.

Definition UnmapAshmem : AM unit :=
  a ← fld id;
  (if startAddr_ a is Some p then lift (st_put (munmap p (u64 (memorySize_ a)))) else mret tt);;
  upd (fun a => {| memoryFd_ := memoryFd_ a; memorySize_ := memorySize_ a; flag_ := 0; startAddr_ := None |}).

(** The destructor. *)
Definition Ashmem_dtor : AM unit := UnmapAshmem;; CloseAshmem.

(** [a + b] on [int32_t]: an overflow is undefined. *)
Definition add_i32 (a b : Z) : AM Z := st_access (fun _ => if i32 (a + b) =? a + b then Some (a + b) else None).

(** [size], [offset] and [cmd] are [int32_t] values. *)
Definition CheckValid (size offset cmd : Z) : AM bool :=
  a ← fld id;
  if bool_decide (startAddr_ a = None) then mret false
  else if (size <? 0) || (memorySize_ a <? size) || (offset <? 0) || (memorySize_ a <? offset) then mret false
  else
    end_ ← add_i32 offset size;
    if memorySize_ a <? end_ then mret false
    else
      prot ← GetProtection;
      if (Z.land (u32 prot) (u32 cmd) =? 0) || (Z.land (u32 (flag_ a)) (u32 cmd) =? 0) then mret false
      else mret true.

(** A pointer the code computes with. *)
Definition start_addr : AM Z := st_access (fun w => startAddr_ (ash w)).

(** [memcpy_s] into the memory of the process. *)
Definition memcpy_to (dest destMax : Z) (src : list Z) (count : Z) : AM Z :=
  old ← st_get (fun w => memory dest destMax (os w));
  let '(e, new) := memcpy_s old destMax src count in
  lift (fun k => (fun k => (tt, k)) <$> poke dest new k);;
  mret e.

(** [data] is the [size] bytes the pointer designates. *)
Definition WriteToAshmem (data : option (list Z)) (size offset : Z) : AM bool :=
  match data with
  | None => mret false
  | Some data =>
      ok ← CheckValid size offset PROT_WRITE;
      if negb ok then mret false
      else
        tmpData ← start_addr;
        memorySize ← fld memorySize_;
        ret ← memcpy_to (tmpData + offset) (memorySize - offset) data size;
        mret (ret =? EOK)
  end.

Definition ReadFromAshmem (size offset : Z) : AM (option Z) :=
  ok ← CheckValid size offset PROT_READ;
  if negb ok then mret None
  else
    p ← start_addr;
    mret (Some (p + offset)).

(** ** The interface for Rust ([UTILS_CXX_RUST]) *)

Definition CreateAshmemStd (name : option (list Z)) (size : Z) : KM (option Ashmem) :=
  if bool_decide (name = None) || (size <=? 0) then mret None
  else
    fd ← AshmemCreate name size;
    if fd <? 0 then mret None else mret (Some (Ashmem_ctor fd size)).
End ashmem.
Arguments ash_world : clear implicits.
