(* ===== verification/AshmemProps.v ===== *)
(** * What shared memory keeps

    The kernel's mappings and descriptors, the invariant of an object, and the
    theorems about the regions it creates, maps, reads and writes. At the end a
    kernel that satisfies the laws: the theorems are applied to it, and the
    boundary cases of the object are run on it. *)

From S2P Require Import Prelude Parcel ParcelInv Ashmem.

(** [prot] lets the process do [cmd]. *)
Definition permits (prot cmd : Z) : Prop := Z.land (u32 prot) (u32 cmd) <> 0.
#[export] Instance permits_dec p c : Decision (permits p c).
Proof. unfold permits. apply _. Defined.

(** What the kernel documents: [maps] gives the mappings of the process by
    their start, each with length and protection, [descs] its open descriptors
    and [prot_mask] the protection of a region. A mapping is read, or written,
    without a fault if its protection says so; one store changes no other byte
    of the mapping it goes through. *)
Class AshmemLaws (K : Type) `{AshmemOS K} := {
  maps : K -> gmap Z (Z * Z);
  descs : K -> gset Z;
  prot_mask : Z -> K -> Z;
  open_device_spec k fd k' : open_device k = (fd, k') -> maps k' = maps k /\
    (fd < 0 /\ descs k' = descs k \/ 0 <= fd /\ fd ∉ descs k /\ descs k' = {[fd]} ∪ descs k);
  ioctl_frame fd r k : maps (ioctl fd r k).2 = maps k /\ descs (ioctl fd r k).2 = descs k;
  ioctl_get_prot fd k : ioctl fd ASHMEM_GET_PROT_MASK k = (prot_mask fd k, k);
  close_spec fd k : maps (close fd k) = maps k /\ descs (close fd k) = descs k ∖ {[fd]};
  mmap_none n prot fd k k' : mmap_shared n prot fd k = (None, k') -> maps k' = maps k /\ descs k' = descs k;
  mmap_some n prot fd k p k' : mmap_shared n prot fd k = (Some p, k') ->
    0 < n /\ maps k !! p = None /\ maps k' = <[p := (n, prot)]> (maps k) /\ descs k' = descs k;
  munmap_spec p n prot k : maps k !! p = Some (n, prot) ->
    maps (munmap p n k) = delete p (maps k) /\ descs (munmap p n k) = descs k;
  memory_zlen p n prot a m k : maps k !! p = Some (n, prot) -> p <= a -> 0 <= m -> a + m <= p + n -> zlen (memory a m k) = m;
  memory_sub p n prot a m i j k : maps k !! p = Some (n, prot) -> p <= a -> a + m <= p + n -> 0 <= i -> 0 <= j -> i + j <= m ->
    memory (a + i) j k = ztake j (zdrop i (memory a m k));
  peek_mapped p n prot a m k : maps k !! p = Some (n, prot) -> permits prot PROT_READ -> p <= a -> 0 <= m -> a + m <= p + n ->
    peek a m k = Some (memory a m k);
  poke_mapped p n prot a bs k : maps k !! p = Some (n, prot) -> permits prot PROT_WRITE -> p <= a -> a + zlen bs <= p + n ->
    exists k', poke a bs k = Some k' /\ maps k' = maps k /\ descs k' = descs k /\
      (forall fd, prot_mask fd k' = prot_mask fd k) /\
      memory a (zlen bs) k' = bs /\
      forall c j, p <= c -> 0 <= j -> c + j <= p + n -> c + j <= a \/ a + zlen bs <= c -> memory c j k' = memory c j k;
}.

Section ashmem_inv.
Context {K : Type} `{AshmemLaws K} `{SecurecOk} `{SecurecStr}.
Notation world := (ash_world K).
Implicit Types w : world.

(** ** Stepping *)

Lemma wp_fld {A} (g : Ashmem -> A) (Q : A -> world -> Prop) w : Q (g (ash w)) w -> wp (fld g) Q w.
Proof. done. Qed.
Lemma wp_upd_ash (g : Ashmem -> Ashmem) (Q : unit -> world -> Prop) w :
  Q tt {| ash := g (ash w); os := os w |} -> wp (upd g) Q w.
Proof. done. Qed.
Lemma wp_lift {A} (m : ST K A) (Q : A -> world -> Prop) w :
  wp m (fun a k => Q a {| ash := ash w; os := k |}) (os w) -> wp (lift m) Q w.
Proof. unfold wp, lift. by destruct (m (os w)) as [[a k]|]. Qed.
End ashmem_inv.

(** [ams] steps through a function of the object. *)
Ltac ams :=
  wps;
  repeat (match goal with
          | |- wp (fld _) _ _ => apply wp_fld
          | |- wp (upd _) _ _ => apply wp_upd_ash
          | |- wp (lift _) _ _ => apply wp_lift
          | |- wp (sys_close _) _ _ => apply wp_put
          end; wps);
  cbn [ash os id memoryFd_ memorySize_ flag_ startAddr_].

Section create.
Context {K : Type} `{AshmemLaws K} `{SecurecOk} `{SecurecStr}.

(** ** Creating a region *)

(** What a call that may open a descriptor leaves behind. *)
Definition opened (k k' : K) (fd : Z) : Prop :=
  maps k' = maps k /\
  if fd <? 0 then descs k' = descs k else fd ∉ descs k /\ descs k' = {[fd]} ∪ descs k.

Lemma close_opened k k' fd : 0 <= fd -> opened k k' fd -> forall e, e < 0 -> opened k (close fd k') e.
Proof.
  intros Hfd [Hm Hd] e He. unfold opened in *. destruct (Z.ltb_spec fd 0); [lia|]. destruct (Z.ltb_spec e 0); [|lia].
  destruct Hd as [Hnew Hd]. destruct (close_spec fd k') as [Em Ed]. rewrite Em, Ed, Hd. split; [done|]. set_solver.
Qed.

Lemma AshmemOpen_spec k : wp AshmemOpen (fun fd k' => opened k k' fd) k.
Proof.
  unfold AshmemOpen, AshmemOpenLocked. wps. apply wp_st_call. intros fd k' E. wps.
  destruct (open_device_spec _ _ _ E) as [Em Ed].
  assert (opened k k' fd) as Ho.
  { split; [done|]. destruct (Z.ltb_spec fd 0); destruct Ed as [[? ?]|(? & ? & ?)]; try lia; done. }
  destruct (Z.ltb_spec fd 0); wps; [done|].
  destruct (fstat fd k') as [[st_mode st_rdev]|]; [destruct (_ || _)|]; wps; try done;
    unfold sys_close; wps; by apply (close_opened _ _ fd).
Qed.

Lemma ioctl_opened k k1 fd r ret k2 : opened k k1 fd -> ioctl fd r k1 = (ret, k2) -> opened k k2 fd.
Proof. intros [Hm Hd] E. destruct (ioctl_frame fd r k1) as [Em Ed]. rewrite E in *. cbn in *. split; congruence || by rewrite Ed. Qed.

Lemma AshmemCreate_spec name size k : wp (AshmemCreate name size) (fun fd k' => opened k k' fd) k.
Proof.
  unfold AshmemCreate. wps. eapply wp_mono; [apply AshmemOpen_spec|]. cbn beta. intros fd k1 Ho.
  destruct (Z.ltb_spec fd 0) as [Hfd|Hfd]; wps; [done|].
  assert (forall k2, opened k k2 fd -> wp (ret ← st_call (ioctl fd (ASHMEM_SET_SIZE size));
    if ret <? 0 then sys_close fd;; mret ret else mret fd) (fun fd k' => opened k k' fd) k2) as Hsize.
  { intros k2 Ho2. wps. apply wp_st_call. intros ret k3 E3. wps. pose proof (ioctl_opened _ _ _ _ _ _ Ho2 E3) as Ho3.
    destruct (Z.ltb_spec ret 0); wps; [unfold sys_close; wps; by apply (close_opened _ _ fd)|done]. }
  destruct name as [name|]; wps; [|by apply Hsize].
  destruct (strcpy_s _ _ _) as [e buf]. destruct (e =? EOK); wps.
  - apply wp_st_call. intros ret k2 E2. wps. pose proof (ioctl_opened _ _ _ _ _ _ Ho E2) as Ho2.
    destruct (Z.ltb_spec ret 0) as [Hr|Hr]; wps; [|by apply Hsize].
    unfold sys_close. wps. destruct (Z.ltb_spec ret 0); [|lia]. wps. by apply (close_opened _ _ fd).
  - unfold sys_close. wps. by apply (close_opened _ _ fd).
Qed.
End create.

Section objects.
Context {K : Type} `{AshmemLaws K} `{SecurecOk} `{SecurecStr}.
Notation world := (ash_world K).
Implicit Types w : world.

(** ** Checking an access *)

(** Bytes [offset] to [offset + size] of the mapped region, for [cmd]. *)
Definition valid_access w (size offset cmd : Z) : Prop :=
  is_Some (startAddr_ (ash w)) /\ 0 <= size /\ 0 <= offset /\ offset + size <= memorySize_ (ash w) /\
  permits (prot_mask (memoryFd_ (ash w)) (os w)) cmd /\ permits (flag_ (ash w)) cmd.

Lemma GetProtection_eq w : GetProtection w = Some (prot_mask (memoryFd_ (ash w)) (os w), w).
Proof. unfold GetProtection, mbind, st_bind, fld, st_get, lift, st_call. rewrite ioctl_get_prot. by destruct w. Qed.

(** The guards of the code are the valid accesses, unless the sum of an offset
    and a size that are both within the region is beyond [INT32_MAX]. *)
Lemma CheckValid_spec w size offset cmd :
  memorySize_ (ash w) < 2 ^ 30 \/ offset + size <= memorySize_ (ash w) <= INT32_MAX ->
  exists b, CheckValid size offset cmd w = Some (b, w) /\ (b = true <-> valid_access w size offset cmd).
Proof.
  intros Hsize. unfold valid_access. enough (wp (CheckValid size offset cmd) (fun b w' => w' = w /\
    (b = true <-> valid_access w size offset cmd)) w) as (b & w' & E & -> & Hb)%wp_elim by by exists b.
  unfold CheckValid, valid_access, permits. ams. case_bool_decide as Es; ams; [rewrite Es; by split; [|split; [|intros [[] ?]]]|].
  apply not_eq_None_Some in Es. destruct (_ || _) eqn:Eg; ams.
  { split; [done|]. split; [done|]. intros (_ & ? & ? & ? & _). repeat (apply orb_true_iff in Eg as [Eg|Eg]); zb; lia. }
  zb. apply (wp_access _ (offset + size)).
  { unfold i32. rewrite wrapS_small by (unfold INT32_MAX in *; lia). by rewrite Z.eqb_refl. }
  destruct (Z.ltb_spec (memorySize_ (ash w)) (offset + size)); ams; [split; [done|]; split; [done|lia]|].
  eapply wp_run; [apply GetProtection_eq|]. ams.
  destruct (Z.eqb_spec (Z.land (u32 (prot_mask (memoryFd_ (ash w)) (os w))) (u32 cmd)) 0) as [E|E]; cbn.
  { split; [done|]. split; [done|]. intros (_ & _ & _ & _ & ? & _). done. }
  destruct (Z.eqb_spec (Z.land (u32 (flag_ (ash w))) (u32 cmd)) 0) as [E'|E']; cbn; (split; [done|]); (split; [|try done]).
  - done.
  - intros (_ & _ & _ & _ & _ & ?). done.
  - intros _. split_and!; first [done|lia].
Qed.

(** ** The invariant of an object

    [B] are the mappings of the others. *)
Record ok (B : gmap Z (Z * Z)) w : Prop := {
  ok_size : memorySize_ (ash w) < 2 ^ 30;
  ok_others : B ⊆ maps (os w);
  ok_mapped : forall p, startAddr_ (ash w) = Some p ->
    maps (os w) !! p = Some (u64 (memorySize_ (ash w)), flag_ (ash w)) /\ B !! p = None;
}.

Lemma ok_same B w a k :
  ok B w -> maps k = maps (os w) -> memorySize_ a = memorySize_ (ash w) -> flag_ a = flag_ (ash w) ->
  startAddr_ a = startAddr_ (ash w) -> ok B {| ash := a; os := k |}.
Proof. intros [Hs Hb Hm] Ek Es Ef Ep. split; cbn; rewrite ?Ek, ?Es, ?Ef, ?Ep; done. Qed.

Lemma call_ok {A} B w (g : K -> A * K) : ok B w -> (forall k, maps (g k).2 = maps k) ->
  wp (lift (st_call g)) (fun _ w' => ok B w') w.
Proof.
  intros Ho Hg. ams. apply wp_st_call. intros a k' E. apply (ok_same _ w); try done. specialize (Hg (os w)). by rewrite E in Hg.
Qed.

Lemma Map_ok B w mapType : ok B w -> wp (MapAshmem mapType) (fun _ w' => ok B w') w.
Proof.
  intros Ho. unfold MapAshmem. ams. apply wp_st_call. intros [p|] k' E; ams.
  - destruct (mmap_some _ _ _ _ _ _ E) as (Hn & Hp & Em & _). destruct Ho as [Hs Hb _].
    assert (B !! p = None) as HB by by eapply lookup_weaken_None.
    split; cbn; [done| |].
    + rewrite Em. by apply insert_subseteq_r.
    + intros p' [= <-]. rewrite Em, lookup_insert_eq. done.
  - destruct (mmap_none _ _ _ _ _ E) as [Em _]. by apply (ok_same _ w).
Qed.

Lemma Unmap_ok B w : ok B w -> wp UnmapAshmem (fun _ w' => ok B w' /\ startAddr_ (ash w') = None) w.
Proof.
  intros [Hs Hb Hm]. unfold UnmapAshmem. ams. destruct (startAddr_ (ash w)) as [p|] eqn:Ep; ams.
  - destruct (Hm p eq_refl) as [Hp HB]. destruct (munmap_spec _ _ _ _ Hp) as [Em _]. split; [|done].
    split; cbn; [done| |done]. rewrite Em. apply map_subseteq_spec. intros i x Hi. rewrite lookup_delete_ne by congruence.
    by eapply lookup_weaken.
  - split; [|done]. by split.
Qed.

Lemma Close_ok B w : ok B w -> wp CloseAshmem (fun _ w' => ok B w') w.
Proof.
  intros [Hs Hb Hm]. unfold CloseAshmem. ams.
  destruct (Z.ltb_spec 0 (memoryFd_ (ash w))); ams; [unfold sys_close; ams|]; (split; cbn; [lia| |done]); [|done].
  by rewrite (proj1 (close_spec _ _)).
Qed.

(** The destination of a checked write is inside the mapping. *)
Lemma memcpy_to_spec w n prot p offset destMax (src : list Z) count :
  maps (os w) !! p = Some (n, prot) -> permits prot PROT_WRITE -> 0 <= offset -> 0 <= destMax -> offset + destMax <= n ->
  exists old e new k', memory (p + offset) destMax (os w) = old /\ memcpy_s old destMax src count = (e, new) /\
    zlen old = destMax /\ zlen new = destMax /\ poke (p + offset) new (os w) = Some k' /\
    memcpy_to (p + offset) destMax src count w = Some (e, {| ash := ash w; os := k' |}).
Proof.
  intros Hp Hw Ho Hd Hn. set (old := memory (p + offset) destMax (os w)).
  assert (zlen old = destMax) as Ho' by (by apply (memory_zlen p n prot); [|lia..]).
  destruct (memcpy_s old destMax src count) as [e new] eqn:Em. pose proof (memcpy_s_zlen _ _ _ _ _ _ Em Ho') as Hn'.
  destruct (poke_mapped p n prot (p + offset) new (os w)) as (k' & Ek & _); [done|done|lia|lia|].
  exists old, e, new, k'. split_and!; try done.
  unfold memcpy_to, mbind, st_bind, st_get. fold old. rewrite Em. unfold lift. by rewrite Ek.
Qed.

Lemma Write_ok B w data size offset : ok B w -> (forall d, data = Some d -> zlen d = size) ->
  wp (WriteToAshmem data size offset) (fun _ w' => ok B w') w.
Proof.
  intros Ho Hd. unfold WriteToAshmem. destruct data as [d|]; ams; [|done].
  destruct (CheckValid_spec w size offset PROT_WRITE) as (b & E & Hb); [left; apply Ho|].
  eapply wp_run; [apply E|]. ams. destruct b; ams; [|done].
  destruct Hb as [([p Hp] & Hs & Hoff & Hsum & _ & Hf) _]; [done|]. destruct (ok_mapped _ _ Ho p Hp) as [Hm HB].
  apply (wp_access _ p); [done|]. ams. pose proof (ok_size _ _ Ho).
  assert (u64 (memorySize_ (ash w)) = memorySize_ (ash w)) as Eu by (apply wrapU_small; lia).
  destruct (memcpy_to_spec w (u64 (memorySize_ (ash w))) (flag_ (ash w)) p offset (memorySize_ (ash w) - offset) d size)
    as (old & e & new & k' & _ & _ & _ & Hz & Ek & E'); [done|done|lia|lia|lia|].
  eapply wp_run; [apply E'|]. ams. apply (ok_same _ w); try done.
  destruct (poke_mapped p _ _ (p + offset) new (os w) Hm Hf) as (k2 & Ek2 & Em2 & _); [lia|lia|]. rewrite Ek in Ek2.
  by injection Ek2 as <-.
Qed.

Lemma Read_ok B w size offset : ok B w ->
  wp (ReadFromAshmem size offset) (fun r w' => ok B w' /\ forall q, r = Some q ->
    exists bs, peek q size (os w') = Some bs /\ zlen bs = size) w.
Proof.
  intros Ho. unfold ReadFromAshmem. ams.
  destruct (CheckValid_spec w size offset PROT_READ) as (b & E & Hb); [left; apply Ho|].
  eapply wp_run; [apply E|]. ams. destruct b; ams; [|done].
  destruct Hb as [([p Hp] & Hs & Hoff & Hsum & _ & Hf) _]; [done|]. destruct (ok_mapped _ _ Ho p Hp) as [Hm HB].
  apply (wp_access _ p); [done|]. ams. split; [done|]. intros q [= <-]. pose proof (ok_size _ _ Ho).
  assert (u64 (memorySize_ (ash w)) = memorySize_ (ash w)) as Eu by (apply wrapU_small; lia).
  rewrite (peek_mapped _ _ _ (p + offset) size (os w) Hm Hf) by lia. eexists. split; [done|].
  by apply (memory_zlen _ _ _ _ _ _ Hm); lia.
Qed.

(** ** Programs of a client *)

Inductive ash_op :=
  | DoMap (mapType : Z) | DoMapReadWrite | DoMapReadOnly | DoUnmap | DoClose
  | DoSetProtection (prot : Z) | DoGetProtection | DoGetSize
  | DoWrite (data : option (list Z)) (size offset : Z)
  | DoRead (size offset : Z).

(** [data] points to [size] bytes. *)
Definition well_formed (o : ash_op) : Prop :=
  if o is DoWrite (Some d) size _ then zlen d = size else True.

(** A client that reads what it asked for. *)
Definition load (q : option Z) (size : Z) : ST world unit :=
  if q is Some q then st_access (fun w => peek q size (os w));; mret tt else mret tt.

Definition ash_exec (o : ash_op) : ST world unit :=
  match o with
  | DoMap mapType => MapAshmem mapType;; mret tt
  | DoMapReadWrite => MapReadAndWriteAshmem;; mret tt
  | DoMapReadOnly => MapReadOnlyAshmem;; mret tt
  | DoUnmap => UnmapAshmem
  | DoClose => CloseAshmem
  | DoSetProtection prot => SetProtection prot;; mret tt
  | DoGetProtection => GetProtection;; mret tt
  | DoGetSize => GetAshmemSize;; mret tt
  | DoWrite data size offset => WriteToAshmem data size offset;; mret tt
  | DoRead size offset => q ← ReadFromAshmem size offset; load q size
  end.
Fixpoint ash_use (ops : list ash_op) : ST world unit :=
  match ops with [] => mret tt | o :: ops => ash_exec o;; ash_use ops end.

Lemma ash_exec_ok B o w : ok B w -> well_formed o -> wp (ash_exec o) (fun _ w' => ok B w') w.
Proof.
  intros Ho Hf.
  assert (forall {A} (m : ST world A), wp m (fun _ w' => ok B w') w -> wp (m;; mret tt) (fun _ w' => ok B w') w) as Hm.
  { intros A m Hw. ams. eapply wp_mono; [exact Hw|]. cbn beta. intros a w' Hw'. by ams. }
  destruct o as [t| | | | |prot| | |data size offset|size offset]; cbn [ash_exec].
  - by apply Hm, Map_ok.
  - by apply Hm, Map_ok.
  - by apply Hm, Map_ok.
  - eapply wp_mono; [by apply (Unmap_ok B)|]. by intros a w' [? _].
  - by apply Close_ok.
  - apply Hm. unfold SetProtection, AshmemSetProt. ams. apply wp_st_call. intros a k' E. ams. apply (ok_same _ w); try done.
    destruct (ioctl_frame (memoryFd_ (ash w)) (ASHMEM_SET_PROT_MASK prot) (os w)) as [Em _]. by rewrite E in Em.
  - apply Hm. eapply wp_run; [apply GetProtection_eq|]. done.
  - apply Hm. unfold GetAshmemSize, AshmemGetSize. ams. apply wp_st_call. intros a k' E. ams. apply (ok_same _ w); try done.
    destruct (ioctl_frame (memoryFd_ (ash w)) ASHMEM_GET_SIZE (os w)) as [Em _]. by rewrite E in Em.
  - apply Hm, Write_ok; [done|]. intros d ->. exact Hf.
  - ams. eapply wp_mono; [by apply (Read_ok B)|]. cbn beta. intros [q|] w' [Ho' Hq]; unfold load; ams; [|done].
    destruct (Hq q eq_refl) as (bs & Eb & _). eapply wp_access; [exact Eb|]. by ams.
Qed.

Lemma ash_use_ok B ops w : ok B w -> Forall well_formed ops -> wp (ash_use ops) (fun _ w' => ok B w') w.
Proof.
  intros Ho Hf. revert w Ho. induction Hf as [|o ops Hf _ IH]; intros w Ho; cbn [ash_use]; ams; [done|].
  eapply wp_mono; [by apply ash_exec_ok|]. cbn beta. intros _ w1 Ho1. by apply IH.
Qed.

Lemma dtor_ok B w : ok B w -> wp Ashmem_dtor (fun _ w' => ok B w') w.
Proof.
  intros Ho. unfold Ashmem_dtor. ams. eapply wp_mono; [by apply (Unmap_ok B)|]. cbn beta. intros _ w' [Ho' _]. by apply Close_ok.
Qed.
End objects.

(** ** The theorems *)

Section theorems.
Context {K : Type} `{AshmemLaws K} `{SecurecOk} `{SecurecStr}.
Notation world := (ash_world K).
Implicit Types w : world.

(** C34: A client of a region smaller than 1 GiB that calls the methods in any
    order, with any arguments and any outcome in the kernel, reads and writes
    mapped memory only, and reads it only where the mapping has [PROT_READ] and
    writes it only where it has [PROT_WRITE]: no access faults and no check
    overflows. The mappings of the others stay, and the one the object points
    to is its own, with the size and the protection the object keeps. At any
    time an access is let through exactly when it lies within the mapped region
    and both the mapping and the mask of the region permit it. *)
Theorem ashmem_accesses_are_mapped (fd size : Z) (k : K) (ops : list ash_op) :
  size < 2 ^ 30 -> Forall well_formed ops ->
  exists w, ash_use ops {| ash := Ashmem_ctor fd size; os := k |} = Some (tt, w) /\ ok (maps k) w /\
    (forall n offset cmd, exists b, CheckValid n offset cmd w = Some (b, w) /\ (b = true <-> valid_access w n offset cmd)) /\
    exists w', Ashmem_dtor w = Some (tt, w') /\ maps k ⊆ maps (os w') /\ startAddr_ (ash w') = None.
Proof.
  intros Hs Hf. assert (ok (maps k) {| ash := Ashmem_ctor fd size; os := k |}) as Ho by (by split).
  pose proof (ash_use_ok _ ops _ Ho Hf) as Hu. apply wp_elim in Hu as ([] & w & E & Hw). exists w. split; [done|]. split; [done|].
  split; [intros n offset cmd; apply CheckValid_spec; left; apply Hw|].
  enough (wp Ashmem_dtor (fun _ w' => maps k ⊆ maps (os w') /\ startAddr_ (ash w') = None) w) as ([] & w' & E' & Hw')%wp_elim
    by by exists w'.
  unfold Ashmem_dtor. ams. eapply wp_mono; [by apply (Unmap_ok (maps k))|]. cbn beta. intros _ w1 [Ho1 _].
  unfold CloseAshmem. ams. destruct (0 <? memoryFd_ (ash w1)); ams; [unfold sys_close; ams|]; (split; [|done]);
    [rewrite (proj1 (close_spec _ _))|]; apply Ho1.
Qed.

(** What [WriteToAshmem] stores, [ReadFromAshmem] finds at the same place:
    in a mapped region, within its bounds and with both permissions, the write
    succeeds, the read returns its address, the bytes there are those written,
    and no other byte of the region changed. *)
Theorem written_bytes_are_read_back w p size offset data :
  startAddr_ (ash w) = Some p -> maps (os w) !! p = Some (memorySize_ (ash w), flag_ (ash w)) ->
  memorySize_ (ash w) <= INT32_MAX -> 0 <= offset -> 0 < size -> offset + size <= memorySize_ (ash w) -> zlen data = size ->
  (forall cmd, cmd = PROT_READ \/ cmd = PROT_WRITE ->
    permits (flag_ (ash w)) cmd /\ permits (prot_mask (memoryFd_ (ash w)) (os w)) cmd) ->
  exists w1, WriteToAshmem (Some data) size offset w = Some (true, w1) /\
    ReadFromAshmem size offset w1 = Some (Some (p + offset), w1) /\
    peek (p + offset) size (os w1) = Some data /\
    forall c j, p <= c -> 0 <= j -> c + j <= p + memorySize_ (ash w) -> c + j <= p + offset \/ p + offset + size <= c ->
      peek c j (os w1) = peek c j (os w).
Proof.
  intros Hp Hm Hmax Ho Hs Hsum Hz Hperm.
  destruct (Hperm PROT_READ (or_introl eq_refl)) as [Hfr Hpr]. destruct (Hperm PROT_WRITE (or_intror eq_refl)) as [Hfw Hpw].
  destruct (CheckValid_spec w size offset PROT_WRITE) as (b & E & Hb); [lia|].
  rewrite (proj2 Hb) in E by (split_and!; first [done|lia]). clear Hb b.
  destruct (memcpy_to_spec w _ _ p offset (memorySize_ (ash w) - offset) data size Hm Hfw)
    as (old & e & new & k' & Eo & Em & Hzo & Hzn & Ek & E'); [lia..|].
  destruct (poke_mapped p _ _ (p + offset) new (os w) Hm Hfw) as (k2 & Ek2 & Em2 & _ & Epm & Epk & Efr); [lia|lia|].
  rewrite Ek in Ek2. injection Ek2 as <-. clear Ek. rename Em2 into Em2'.
  assert (maps k' !! p = Some (memorySize_ (ash w), flag_ (ash w))) as Hm' by by rewrite Em2'.
  assert (e = EOK) as ->.
  { pose proof (memcpy_s_copies old (memorySize_ (ash w) - offset) data size) as Hc. rewrite Em in Hc.
    apply Hc; unfold SECUREC_MEM_MAX_LEN, INT32_MAX in *; lia. }
  destruct (memcpy_s_eok _ _ _ _ _ Em Hzo) as [_ Hnew]. specialize (Hnew Hz).
  set (w1 := {| ash := ash w; os := k' |}) in *. exists w1.
  assert (WriteToAshmem (Some data) size offset w = Some (true, w1)) as EW.
  { unfold WriteToAshmem. rewrite (st_bind_eq _ _ _ _ _ E). cbn [negb].
    rewrite (st_bind_eq start_addr _ w p w) by (unfold start_addr, st_access; by rewrite Hp).
    rewrite (st_bind_eq (fld memorySize_) _ w (memorySize_ (ash w)) w) by done. by rewrite (st_bind_eq _ _ _ _ _ E'). }
  destruct (CheckValid_spec w1 size offset PROT_READ) as (b & ER & Hb); [cbn; lia|].
  rewrite (proj2 Hb) in ER by (split_and!; cbn; try done; try lia; by rewrite Epm). clear Hb b.
  assert (ReadFromAshmem size offset w1 = Some (Some (p + offset), w1)) as Er.
  { unfold ReadFromAshmem. rewrite (st_bind_eq _ _ _ _ _ ER). cbn [negb].
    by rewrite (st_bind_eq start_addr _ w1 p w1) by (unfold start_addr, st_access; cbn; by rewrite Hp). }
  split; [done|]. split; [done|]. cbn [os w1].
  assert (forall i j, 0 <= i -> 0 <= j -> i + j <= memorySize_ (ash w) - offset ->
    peek (p + offset + i) j k' = Some (ztake j (zdrop i new)) /\
    peek (p + offset + i) j (os w) = Some (ztake j (zdrop i old))) as Hpk.
  { intros i j Hi Hj Hij. rewrite (peek_mapped _ _ _ _ _ k' Hm' Hfr), (peek_mapped _ _ _ _ _ (os w) Hm Hfr) by lia.
    rewrite (memory_sub _ _ _ _ (zlen new) _ _ k' Hm'), Epk by lia. split; [done|].
    rewrite (memory_sub _ _ _ _ (memorySize_ (ash w) - offset) _ _ (os w) Hm), Eo by lia. done. }
  split.
  - destruct (Hpk 0 size) as [Hk _]; [lia..|]. rewrite Z.add_0_r in Hk. rewrite Hk, zdrop_0 by lia. f_equal.
    rewrite Hnew, <- Hz. apply ztake_app_exact.
  - intros c j Hc Hj Hcj [Hl|Hr]; [rewrite (peek_mapped _ _ _ _ _ k' Hm' Hfr), (peek_mapped _ _ _ _ _ (os w) Hm Hfr) by lia; f_equal; apply Efr; lia|]. destruct (Hpk (c - (p + offset)) j) as [Hk1 Hk2]; [lia..|].
    replace (p + offset + (c - (p + offset))) with c in * by lia. rewrite Hk1, Hk2. do 2 f_equal.
    rewrite Hnew, zdrop_app_r by lia. rewrite Hz, zdrop_zdrop by lia. f_equal. lia.
Qed.

(** Creating a region opens one new descriptor, which the object gets, or
    none: whatever step fails - the device, its [stat], the name, the size -
    the descriptor is closed again. *)
Theorem CreateAshmem_keeps_no_descriptor (name : option (list Z)) (size : Z) (k : K) :
  exists r k', CreateAshmem name size k = Some (r, k') /\ maps k' = maps k /\
    match r with
    | None => descs k' = descs k
    | Some a => a = Ashmem_ctor (memoryFd_ a) size /\ 0 < size /\ 0 <= memoryFd_ a /\ memoryFd_ a ∉ descs k /\
                descs k' = {[memoryFd_ a]} ∪ descs k
    end.
Proof.
  apply wp_elim. unfold CreateAshmem. case_bool_decide; cbn [orb]; [by wps|]. destruct (Z.leb_spec size 0); wps; [done|].
  eapply wp_mono; [apply AshmemCreate_spec|]. cbn beta. intros fd k' [Em Ed].
  destruct (Z.ltb_spec fd 0); wps; [done|]. split; [done|]. cbn. destruct Ed as [Hn Ed]. done.
Qed.
End theorems.

(** ** A kernel with shared memory *)

Record ash_kernel := { kmaps : gmap Z (Z * Z); kfds : gset Z; kmask : gmap Z Z; kmem : gmap Z Z }.

Definition covered (k : ash_kernel) (a m : Z) (needs : Z -> Prop) : Prop :=
  Exists (fun pm => pm.1 <= a /\ a + m <= pm.1 + pm.2.1 /\ needs pm.2.2) (map_to_list (kmaps k)).
#[export] Instance covered_dec k a m needs `{forall x, Decision (needs x)} : Decision (covered k a m needs).
Proof. unfold covered. apply _. Defined.

Fixpoint put_bytes (a : Z) (bs : list Z) (m : gmap Z Z) : gmap Z Z :=
  match bs with [] => m | b :: bs => <[a := b]> (put_bytes (a + 1) bs m) end.
Definition get_bytes (m : gmap Z Z) (a n : Z) : list Z := (fun i => default 0 (m !! i)) <$> seqZ a n.

#[export] Instance demo_ashmem : AshmemOS ash_kernel := {
  open_device k := let fd := above (kfds k) in
    (fd, {| kmaps := kmaps k; kfds := {[fd]} ∪ kfds k; kmask := kmask k; kmem := kmem k |});
  fstat _ _ := Some (0x2000, 10);
  ioctl fd r k := match r with
    | ASHMEM_SET_PROT_MASK prot =>
        (0, {| kmaps := kmaps k; kfds := kfds k; kmask := <[fd := prot]> (kmask k); kmem := kmem k |})
    | ASHMEM_GET_PROT_MASK => (default 7 (kmask k !! fd), k)
    | _ => (0, k)
    end;
  mmap_shared n prot fd k :=
    if decide (0 < n < 2 ^ 40) then
      let p := 2 ^ 40 * above (dom (kmaps k)) in
      if kmaps k !! p is Some _ then (None, k)
      else (Some p, {| kmaps := <[p := (n, prot)]> (kmaps k); kfds := kfds k; kmask := kmask k; kmem := kmem k |})
    else (None, k);
  munmap p n k :=
    if kmaps k !! p is Some (n', _)
    then if decide (n = n') then {| kmaps := delete p (kmaps k); kfds := kfds k; kmask := kmask k; kmem := kmem k |} else k
    else k;
  close fd k := {| kmaps := kmaps k; kfds := kfds k ∖ {[fd]}; kmask := kmask k; kmem := kmem k |};
  memory a m k := get_bytes (kmem k) a m;
  peek a m k := if decide (0 <= m /\ covered k a m (fun prot => permits prot PROT_READ)) then Some (get_bytes (kmem k) a m) else None;
  poke a bs k :=
    if decide (covered k a (zlen bs) (fun prot => permits prot PROT_WRITE))
    then Some {| kmaps := kmaps k; kfds := kfds k; kmask := kmask k; kmem := put_bytes a bs (kmem k) |} else None;
}.

(** The name with its terminating zero, if it fits. *)
#[export] Instance demo_strcpy_s : SecurecStr := fun dest destMax src =>
  if zlen src <? destMax then (EOK, src ++ zdrop (zlen src) dest) else (34, 0 :: zdrop 1 dest).

Lemma put_bytes_frame a bs m i : i < a \/ a + zlen bs <= i -> put_bytes a bs m !! i = m !! i.
Proof.
  revert a. induction bs as [|b bs IH]; intros a Hi; [done|]. rewrite zlen_cons in Hi. cbn. pose proof (zlen_nonneg bs).
  rewrite lookup_insert_ne by lia. apply IH. lia.
Qed.

Lemma get_bytes_ext m m' a n : (forall i, a <= i < a + n -> m !! i = m' !! i) -> get_bytes m a n = get_bytes m' a n.
Proof.
  intros Hm. unfold get_bytes. apply list_fmap_ext. intros j i Hj%list_elem_of_lookup_2%elem_of_seqZ. by rewrite Hm.
Qed.

Lemma get_put_bytes a bs m : get_bytes (put_bytes a bs m) a (zlen bs) = bs.
Proof.
  revert a. induction bs as [|b bs IH]; intros a; [done|]. pose proof (zlen_nonneg bs). unfold get_bytes.
  rewrite zlen_cons, seqZ_cons by lia. cbn [put_bytes]. rewrite fmap_cons, lookup_insert_eq. cbn [default]. f_equal.
  rewrite <- (IH (a + 1)) at 2. replace (Z.pred (1 + zlen bs)) with (zlen bs) by lia.
  replace (Z.succ a) with (a + 1) by lia.
  apply (get_bytes_ext _ _ (a + 1)). intros i Hi. rewrite lookup_insert_ne by lia. done.
Qed.

Lemma get_bytes_app m a n j : 0 <= n -> 0 <= j -> get_bytes m a (n + j) = get_bytes m a n ++ get_bytes m (a + n) j.
Proof. intros. unfold get_bytes. by rewrite seqZ_app, fmap_app. Qed.
Lemma zlen_get_bytes m a n : 0 <= n -> zlen (get_bytes m a n) = n.
Proof. intros. unfold get_bytes, zlen. rewrite length_fmap, length_seqZ. lia. Qed.

Lemma covered_mapped k p n prot a m (needs : Z -> Prop) :
  kmaps k !! p = Some (n, prot) -> p <= a -> a + m <= p + n -> needs prot -> covered k a m needs.
Proof.
  intros Hp Ha Hm Hn. unfold covered. apply Exists_exists. exists (p, (n, prot)). split; [by apply elem_of_map_to_list|done].
Qed.

#[export] Instance demo_ashmem_laws : AshmemLaws ash_kernel.
Proof.
  refine {| maps := kmaps; descs := kfds; prot_mask fd k := default 7 (kmask k !! fd) |}.
  - intros k fd k' [= <- <-]. split; [done|]. right. destruct (above_fresh (kfds k)). done.
  - intros fd [] k; done.
  - done.
  - done.
  - intros n prot fd k k'. cbn. case_decide; [|by intros [= <-]]. destruct (kmaps k !! _); [by intros [= <-]|done].
  - intros n prot fd k p k'. cbn. case_decide; [|done]. destruct (kmaps k !! _) eqn:E; [done|]. intros [= <- <-].
    split_and!; try done. lia.
  - intros p n prot k Hp. cbn. rewrite Hp. by rewrite decide_True.
  - intros p n prot a m k _ _ Hm _. by apply zlen_get_bytes.
  - intros p n prot a m i j k _ _ _ Hi Hj Hij. cbn. replace m with (i + (j + (m - i - j))) by lia. rewrite !get_bytes_app by lia.
    rewrite zdrop_app_r by (rewrite zlen_get_bytes; lia). rewrite zlen_get_bytes by done. rewrite zdrop_0 by lia.
    rewrite ztake_app_l by (rewrite zlen_get_bytes; lia). rewrite ztake_ge; [done|]. rewrite zlen_get_bytes; lia.
  - intros p n prot a m k Hp Hr Ha Hm Hn. cbn. by rewrite decide_True by (split; [done|]; by eapply covered_mapped).
  - intros p n prot a bs k Hp Hw Ha Hn. cbn. rewrite decide_True by by eapply covered_mapped.
    eexists. split; [done|]. cbn. split_and!; try done.
    + apply get_put_bytes.
    + intros c j Hc Hj Hcj Hd. apply get_bytes_ext. intros i Hi. apply put_bytes_frame. lia.
Defined.

(** ** Runs *)

Definition demo_kernel_start : ash_kernel := {| kmaps := {[8 := (64, 3)]}; kfds := {[0; 1; 2]}; kmask := ∅; kmem := ∅ |}.
Definition demo_object (size : Z) : ash_world ash_kernel := {| ash := Ashmem_ctor 3 size; os := demo_kernel_start |}.

Definition demo_ash_ops : list ash_op :=
  [DoRead 1 0; DoMap 0; DoRead 1 0; DoUnmap; DoMapReadOnly; DoWrite (Some [7; 8]) 2 0; DoUnmap; DoMapReadWrite; DoWrite (Some [7; 8]) 2 62; DoRead 64 0;
   DoRead 2 63; DoWrite None 5 0; DoSetProtection 1; DoGetProtection; DoWrite (Some [9]) 1 0; DoGetSize; DoClose; DoRead 0 0].

Lemma ashmem_accesses_are_mapped_witness :
  64 < 2 ^ 30 /\ Forall well_formed demo_ash_ops /\
  exists w, ash_use demo_ash_ops (demo_object 64) = Some (tt, w) /\ ok (maps demo_kernel_start) w /\
  (forall n offset cmd, exists b, CheckValid n offset cmd w = Some (b, w) /\ (b = true <-> valid_access w n offset cmd)) /\
  exists w', Ashmem_dtor w = Some (tt, w') /\ maps demo_kernel_start ⊆ maps (os w') /\ startAddr_ (ash w') = None.
Proof.
  assert (64 < 2 ^ 30) as Hs by lia. assert (Forall well_formed demo_ash_ops) as Hf by (repeat constructor).
  split; [exact Hs|]. split; [exact Hf|].
  exact (ashmem_accesses_are_mapped 3 64 demo_kernel_start demo_ash_ops Hs Hf).
Defined.

(** A region of eight bytes at 4096. *)
Definition demo_mapped : ash_world ash_kernel :=
  {| ash := {| memoryFd_ := 3; memorySize_ := 8; flag_ := 3; startAddr_ := Some 4096 |};
     os := {| kmaps := {[4096 := (8, 3)]}; kfds := {[3]}; kmask := ∅; kmem := ∅ |} |}.

Lemma written_bytes_are_read_back_witness :
  exists w1, WriteToAshmem (Some [1; 2; 3]) 3 5 demo_mapped = Some (true, w1) /\
  ReadFromAshmem 3 5 w1 = Some (Some 4101, w1) /\ peek 4101 3 (os w1) = Some [1; 2; 3] /\
  forall c j, 4096 <= c -> 0 <= j -> c + j <= 4096 + 8 -> c + j <= 4101 \/ 4104 <= c ->
      peek c j (os w1) = peek c j (os demo_mapped).
Proof.
  apply (written_bytes_are_read_back demo_mapped 4096 3 5 [1; 2; 3]); try reflexivity; try (cbn; lia); [vm_compute; done|].
  intros cmd [->| ->]; split; vm_compute; done.
Defined.

(** ** Boundary cases *)

Definition state_of_ash (r : option (unit * ash_world ash_kernel)) : ash_world ash_kernel :=
  match r with Some (_, w) => w | None => demo_object 0 end.

(** In a region of 2 GiB less one byte the sum in [CheckValid] overflows an
    [int32_t] for arguments that are each within the region. *)
Example CheckValid_overflows :
  exists w, ash_use [DoMapReadWrite] (demo_object INT32_MAX) = Some (tt, w) /\
  CheckValid (2 ^ 30) (2 ^ 30) PROT_READ w = None.
Proof. eexists. split; [vm_compute; reflexivity|]. vm_compute. reflexivity. Qed.

(** Mapping twice loses the first mapping: the destructor unmaps one of the two. *)
Example MapAshmem_twice_leaks :
  exists w w', ash_use [DoMapReadWrite; DoMapReadOnly] (demo_object 64) = Some (tt, w) /\
  Ashmem_dtor w = Some (tt, w') /\ size (maps (os w')) = S (size (maps demo_kernel_start)).
Proof. do 2 eexists. split; [vm_compute; reflexivity|]. split; vm_compute; reflexivity. Qed.

(** [CloseAshmem] forgets the address and the size, so nothing unmaps the region any more. *)
Example CloseAshmem_keeps_the_mapping :
  exists w w', ash_use [DoMapReadWrite; DoClose; DoUnmap] (demo_object 64) = Some (tt, w) /\
  Ashmem_dtor w = Some (tt, w') /\ size (maps (os w')) = S (size (maps demo_kernel_start)) /\ memoryFd_ (ash w) = -1.
Proof. do 2 eexists. split; [vm_compute; reflexivity|]. split_and!; vm_compute; reflexivity. Qed.

(** A region on descriptor 0 is not closed by its destructor. *)
Example CloseAshmem_skips_0 :
  exists w', Ashmem_dtor {| ash := Ashmem_ctor 0 64; os := demo_kernel_start |} = Some (tt, w') /\ bool_decide (0 ∈ descs (os w')) = true.
Proof. eexists. split; vm_compute; reflexivity. Qed.

(** The kernel refusing to tell the protection counts as every permission. *)
Example failed_ioctl_permits : Z.land (u32 (-1)) (u32 PROT_WRITE) = PROT_WRITE.
Proof. reflexivity. Qed.
