(* ===== verification/DirectoryEx.v ===== *)
(** * Directories ([base/src/directory_ex.cpp])

    Paths are lists of bytes. The kernel and the directory streams of the C
    library are a parameter; loops that end when a stream ends carry fuel, and
    [None] is an exhausted fuel. *)

From S2P Require Import Prelude StringEx.

(** A directory entry as [readdir] gives it: the name, and whether [d_type] is [DT_DIR]. *)
Record dirent := { d_name : list Z; d_is_dir : bool }.

Record file_stat := { st_mode : Z; st_nlink : Z; st_dev : Z; st_ino : Z; st_size : Z; st_blocks : Z }.

(** What the code uses of the kernel. A stream ([DIR]) and a descriptor are numbers. *)
Class DirOS (K : Type) := {
  access : list Z -> K -> bool;                    (** [access(path, F_OK) == 0] *)
  mkdir : list Z -> Z -> K -> Z * K;               (** with a mode; 0 or [errno] *)
  remove : list Z -> K -> bool * K;
  chmod : list Z -> Z -> K -> bool * K;
  realpath : list Z -> K -> option (list Z);
  readlink : list Z -> K -> option (list Z);
  stat : list Z -> K -> option file_stat;
  lstat : list Z -> K -> option file_stat;
  open_path : list Z -> Z -> K -> Z * K;           (** [open], with flags *)
  opendir : list Z -> K -> option Z * K;
  fdopendir : Z -> K -> option Z * K;
  dirfd : Z -> K -> Z;
  readdir : Z -> K -> option dirent * K;
  closedir : Z -> K -> K;
  close : Z -> K -> K;
  openat : Z -> list Z -> Z -> K -> Z * K;         (** with flags, like the next two *)
  fstatat : Z -> list Z -> Z -> K -> option file_stat;
  faccessat : Z -> list Z -> Z -> K -> bool;       (** [F_OK] *)
  unlinkat : Z -> list Z -> bool -> K -> bool * K; (** with [AT_REMOVEDIR] or not *)
}.

(** Linux. *)
Definition O_RDONLY : Z := 0.
Definition O_DIRECTORY : Z := 0x10000.
Definition O_NOFOLLOW : Z := 0x20000.
Definition O_CLOEXEC : Z := 0x80000.
Definition AT_FDCWD : Z := -100.
Definition AT_SYMLINK_NOFOLLOW : Z := 0x100.
(** The flags of every [open] and [openat]. *)
Definition dir_flags : Z := Z.lor O_RDONLY (Z.lor O_DIRECTORY (Z.lor O_NOFOLLOW O_CLOEXEC)).

(** ** Paths *)

Definition SLASH : Z := 47.
Definition DOT : Z := 46.
Definition PATH_MAX : Z := 4096.
Definition EEXIST : Z := 17.
Definition npos : Z := SIZE_MAX.

(** [s.rfind(c)] for one character. *)
Fixpoint rfind_at (c : Z) (s : list Z) (i : Z) : Z :=
  match s with
  | [] => npos
  | a :: s' => let r := rfind_at c s' (i + 1) in if negb (r =? npos) then r else if a =? c then i else npos
  end.
Definition rfind (c : Z) (s : list Z) : Z := rfind_at c s 0.

(** A character array read as a string. *)
Fixpoint c_string (buf : list Z) : list Z :=
  match buf with [] => [] | c :: buf => if c =? 0 then [] else c :: c_string buf end.

Definition ExtractFilePath (fileFullName : list Z) : list Z :=
  substr fileFullName 0 (u64 (rfind SLASH fileFullName + 1)).

Definition ExtractFileName (fileFullName : list Z) : list Z :=
  substr fileFullName (u64 (rfind SLASH fileFullName + 1)) (zlen fileFullName).

Definition ExtractFileExt (fileName : list Z) : list Z :=
  let pos := rfind DOT fileName in
  if pos =? npos then [] else substr fileName (u64 (pos + 1)) (zlen fileName).

Definition ExcludeTrailingPathDelimiter (path : list Z) : list Z :=
  if negb (rfind SLASH path =? u64 (zlen path - 1)) then path
  else if negb (is_empty path) then substr path 0 (u64 (i32 (zlen path) - 1))
  else path.

Definition IncludeTrailingPathDelimiter (path : list Z) : list Z :=
  if is_empty path then [SLASH]
  else if negb (rfind SLASH path =? u64 (zlen path - 1)) then path ++ [SLASH]
  else path.

(** Compiled for iOS and for Windows only. *)
Inductive platform := IOS_PLATFORM | WIN32.
Definition TransformFileName (os : platform) (fileName : list Z) : list Z :=
  let suffix := match os with WIN32 => [100; 108; 108] | IOS_PLATFORM => [100; 121; 108; 105; 98] end in
  match find fileName [DOT] 0 with
  | None => fileName ++ DOT :: suffix
  | Some pos => substr fileName 0 (u64 (pos + 1)) ++ suffix
  end.

Definition is_dots (name : list Z) : bool := bool_decide (name = [DOT]) || bool_decide (name = [DOT; DOT]).

Definition S_ISDIR (m : Z) : bool := Z.land m 0xF000 =? 0x4000.

Section directory.
Context {K : Type} `{DirOS K}.
Notation DM := (ST K).
Definition out_of_fuel {A} : DM A := fun _ => None.
Definition do_close (fd : Z) : DM unit := st_put (close fd).
Definition do_closedir (dir : Z) : DM unit := st_put (closedir dir).

Definition proc_self_exe : list Z := [47; 112; 114; 111; 99; 47; 115; 101; 108; 102; 47; 101; 120; 101].

Definition GetCurrentProcFullFileName : DM (list Z) :=
  link ← st_get (readlink proc_self_exe);
  match link with
  | None => mret []
  | Some procFile => if PATH_MAX <? zlen procFile then mret [] else mret (c_string procFile)
  end.

Definition GetCurrentProcPath : DM (list Z) :=
  name ← GetCurrentProcFullFileName;
  mret (ExtractFilePath name).

(** ** Listing *)

(** [openat] and [fdopendir] on an entry of an open directory. *)
Definition open_sub (currentFd : Z) (name : list Z) : DM (option Z) :=
  subFd ← st_call (openat currentFd name dir_flags);
  if subFd <? 0 then mret None
  else
    subDir ← st_call (fdopendir subFd);
    match subDir with
    | None => do_close subFd;; mret None
    | Some subDir => mret (Some subDir)
    end.

(** The path without its last component. *)
Definition parent_path (currentPath : list Z) : list Z :=
  let pos := rfind SLASH currentPath in
  if negb (pos =? npos) then ztake pos currentPath else currentPath.

Fixpoint GetDirFiles_loop (fuel : nat) (traverseStack : list Z) (currentPath : list Z) (files : list (list Z))
    : DM (list (list Z)) :=
  match fuel with
  | O => out_of_fuel
  | S fuel =>
      match traverseStack with
      | [] => mret files
      | topNode :: rest =>
          ptr ← st_call (readdir topNode);
          match ptr with
          | None =>
              do_closedir topNode;;
              GetDirFiles_loop fuel rest (parent_path currentPath) files
          | Some ptr =>
              let name := d_name ptr in
              if is_dots name then GetDirFiles_loop fuel traverseStack currentPath files
              else if d_is_dir ptr then
                currentFd ← st_get (dirfd topNode);
                if currentFd <? 0 then GetDirFiles_loop fuel traverseStack currentPath files
                else
                  sub ← open_sub currentFd name;
                  match sub with
                  | None => GetDirFiles_loop fuel traverseStack currentPath files
                  | Some subDir =>
                      GetDirFiles_loop fuel (subDir :: traverseStack) (IncludeTrailingPathDelimiter currentPath ++ name) files
                  end
              else
                GetDirFiles_loop fuel traverseStack currentPath (files ++ [IncludeTrailingPathDelimiter currentPath ++ name])
          end
      end
  end.

Definition GetDirFiles (fuel : nat) (path : list Z) (files : list (list Z)) : DM (list (list Z)) :=
  dir ← st_call (opendir path);
  match dir with
  | None => mret files
  | Some dir => GetDirFiles_loop fuel [dir] (ExcludeTrailingPathDelimiter path) files
  end.

Definition IsEmptyFolder (fuel : nat) (path : list Z) : DM bool :=
  files ← GetDirFiles fuel path [];
  mret (bool_decide (files = [])).

Fixpoint sum_sizes (files : list (list Z)) (totalSize : Z) : DM Z :=
  match files with
  | [] => mret totalSize
  | file :: files =>
      st ← st_get (stat file);
      sum_sizes files (match st with Some st => u64 (totalSize + u64 (st_size st)) | None => totalSize end)
  end.

Definition GetFolderSize (fuel : nat) (path : list Z) : DM Z :=
  files ← GetDirFiles fuel path [];
  sum_sizes files 0.

(** ** Disk usage *)

Definition STAT_BLOCK_SIZE : Z := 512.

Definition GetDiskUsageSize (st : file_stat) : Z :=
  if st_blocks st <=? 0 then 0 else u64 (u64 (st_blocks st) * STAT_BLOCK_SIZE).

(** The variables [addDiskUsage] captures. *)
Record usage := { visited : gset (Z * Z); totalSize : Z }.

Definition addDiskUsage (st : file_stat) (u : usage) : bool * usage :=
  let add v := (true, {| visited := v; totalSize := u64 (totalSize u + GetDiskUsageSize st) |}) in
  if negb (S_ISDIR (st_mode st)) && (1 <? st_nlink st) then
    let fileId := (st_dev st, st_ino st) in
    if bool_decide (fileId ∈ visited u) then (false, u) else add ({[fileId]} ∪ visited u)
  else add (visited u).

Fixpoint TraverseDirectoryDiskUsage_loop (fuel : nat) (traverseStack : list Z) (u : usage) : DM Z :=
  match fuel with
  | O => out_of_fuel
  | S fuel =>
      match traverseStack with
      | [] => mret (totalSize u)
      | topNode :: rest =>
          ptr ← st_call (readdir topNode);
          match ptr with
          | None => do_closedir topNode;; TraverseDirectoryDiskUsage_loop fuel rest u
          | Some ptr =>
              let name := d_name ptr in
              if is_dots name then TraverseDirectoryDiskUsage_loop fuel traverseStack u
              else
                currentFd ← st_get (dirfd topNode);
                if currentFd <? 0 then TraverseDirectoryDiskUsage_loop fuel traverseStack u
                else
                  entryStat ← st_get (fstatat currentFd name AT_SYMLINK_NOFOLLOW);
                  match entryStat with
                  | None => TraverseDirectoryDiskUsage_loop fuel traverseStack u
                  | Some entryStat =>
                      let '(added, u) := addDiskUsage entryStat u in
                      if negb added || negb (S_ISDIR (st_mode entryStat)) then TraverseDirectoryDiskUsage_loop fuel traverseStack u
                      else
                        sub ← open_sub currentFd name;
                        match sub with
                        | None => TraverseDirectoryDiskUsage_loop fuel traverseStack u
                        | Some subDir => TraverseDirectoryDiskUsage_loop fuel (subDir :: traverseStack) u
                        end
                  end
          end
      end
  end.

Definition TraverseDirectoryDiskUsage (fuel : nat) (rootDir : Z) (rootStat : file_stat) : DM Z :=
  TraverseDirectoryDiskUsage_loop fuel [rootDir] (addDiskUsage rootStat {| visited := ∅; totalSize := 0 |}).2.

Definition GetFolderDiskUsage (fuel : nat) (path : list Z) : DM Z :=
  statbuf ← st_get (lstat path);
  match statbuf with
  | None => mret 0
  | Some statbuf =>
      if negb (S_ISDIR (st_mode statbuf)) then mret (GetDiskUsageSize statbuf)
      else
        rootFd ← st_call (open_path path dir_flags);
        if rootFd <? 0 then mret 0
        else
          rootDir ← st_call (fdopendir rootFd);
          match rootDir with
          | None => do_close rootFd;; mret 0
          | Some rootDir => TraverseDirectoryDiskUsage fuel rootDir statbuf
          end
  end.

(** ** Creating *)

Definition DIR_MODE : Z := 0x1ed.   (** [S_IRWXU | S_IRGRP | S_IXGRP | S_IROTH | S_IXOTH] *)

(** The body of the [do] loop: [None] goes on, [Some b] returns [b]. *)
Definition create_one (subPath : list Z) : DM (option bool) :=
  there ← st_get (access subPath);
  if (there : bool) then mret None
  else
    errno ← st_call (mkdir subPath DIR_MODE);
    if negb (errno =? 0) && negb (errno =? EEXIST) then mret (Some false) else mret None.

(** [index] is the position of the last delimiter; the loop ends after the
    whole path. *)
Fixpoint ForceCreateDirectory_loop (fuel : nat) (path : list Z) (index : Z) : DM bool :=
  match fuel with
  | O => out_of_fuel
  | S fuel =>
      let next := find path [SLASH] (index + 1) in
      r ← create_one (match next with None => path | Some index => substr path 0 index end);
      match r with
      | Some b => mret b
      | None =>
          match next with
          | None => st_get (access path)
          | Some index => ForceCreateDirectory_loop fuel path index
          end
      end
  end.

Definition ForceCreateDirectory (path : list Z) : DM bool := ForceCreateDirectory_loop (S (length path)) path 0.

(** ** Removing *)

Record DirectoryNode := { dir : Z; nodeFd : Z; name : list Z }.

(** The variables of the traversal. *)
Record walk := { w_ret : bool; traversStack : list Z; removeStack : list DirectoryNode }.

Definition fail_walk (w : walk) : walk :=
  {| w_ret := false; traversStack := traversStack w; removeStack := removeStack w |}.
Definition push_walk (node : DirectoryNode) (w : walk) : walk :=
  {| w_ret := w_ret w; traversStack := dir node :: traversStack w; removeStack := node :: removeStack w |}.

(** Deleting an entry that is not a directory. *)
Definition remove_entry (currentFd : Z) (entry : list Z) : DM bool :=
  there ← st_get (faccessat currentFd entry AT_SYMLINK_NOFOLLOW);
  if (there : bool) then st_call (unlinkat currentFd entry false) else mret false.

(** The loop over one directory. A [strcpy_s] of the name into the node's
    array of 256 does not fail, [d_name] being as long. *)
Fixpoint remove_entries (fuel : nat) (currentDir currentFd : Z) (w : walk) : DM walk :=
  match fuel with
  | O => out_of_fuel
  | S fuel =>
      ptr ← st_call (readdir currentDir);
      match ptr with
      | None => mret w
      | Some ptr =>
          if is_dots (d_name ptr) then remove_entries fuel currentDir currentFd w
          else if d_is_dir ptr then
            sub ← open_sub currentFd (d_name ptr);
            match sub with
            | None => remove_entries fuel currentDir currentFd (fail_walk w)
            | Some subDir =>
                remove_entries fuel currentDir currentFd (push_walk {| dir := subDir; nodeFd := currentFd; name := d_name ptr |} w)
            end
          else
            ok ← remove_entry currentFd (d_name ptr);
            if (ok : bool) then remove_entries fuel currentDir currentFd w else mret (fail_walk w)
      end
  end.

Fixpoint remove_walk (fuel : nat) (w : walk) : DM walk :=
  match fuel with
  | O => out_of_fuel
  | S fuel' =>
      match traversStack w with
      | [] => mret w
      | currentDir :: rest =>
          let w := {| w_ret := w_ret w; traversStack := rest; removeStack := removeStack w |} in
          currentFd ← st_get (dirfd currentDir);
          if currentFd <? 0 then remove_walk fuel' (fail_walk w)
          else w ← remove_entries fuel currentDir currentFd w; remove_walk fuel' w
      end
  end.

Fixpoint remove_nodes (nodes : list DirectoryNode) : DM unit :=
  match nodes with
  | [] => mret tt
  | node :: nodes =>
      do_closedir (dir node);;
      st_call (unlinkat (nodeFd node) (name node) true);;
      remove_nodes nodes
  end.

(** Whether a path names something, be it a link that leads nowhere. *)
Definition lexists (path : list Z) : K -> bool := faccessat AT_FDCWD path AT_SYMLINK_NOFOLLOW.

(** Both functions end with the root. *)
Definition remove_root (path : list Z) : DM bool :=
  there ← st_get (lexists path);
  removed ← (if (there : bool) then st_call (remove path) else mret true);
  if negb removed then mret false
  else there ← st_get (lexists path); mret (negb there).

Definition ForceRemoveDirectory (fuel : nat) (path : list Z) : DM bool :=
  d ← st_call (opendir path);
  match d with
  | None => mret false
  | Some d =>
      w ← remove_walk fuel {| w_ret := true; traversStack := [d]; removeStack := [] |};
      remove_nodes (removeStack w);;
      do_closedir d;;
      remove_root path
  end.

(** [ForceRemoveDirectoryInternal] from the loop on. *)
Fixpoint ForceRemoveDirectoryInternal_loop (fuel : nat) (d rootFd : Z) (ret : bool) : DM bool :=
  match fuel with
  | O => out_of_fuel
  | S fuel =>
      ptr ← st_call (readdir d);
      match ptr with
      | None => mret ret
      | Some ptr =>
          if is_dots (d_name ptr) then ForceRemoveDirectoryInternal_loop fuel d rootFd ret
          else if d_is_dir ptr then
            sub ← open_sub rootFd (d_name ptr);
            match sub with
            | None => ForceRemoveDirectoryInternal_loop fuel d rootFd false
            | Some subDir =>
                subFd ← st_get (dirfd subDir);
                ret ← (if subFd <? 0 then mret false else ForceRemoveDirectoryInternal_loop fuel subDir subFd true);
                do_closedir subDir;;
                ok ← st_call (unlinkat rootFd (d_name ptr) true);
                ForceRemoveDirectoryInternal_loop fuel d rootFd (if (ok : bool) then ret else false)
            end
          else
            ok ← remove_entry rootFd (d_name ptr);
            if (ok : bool) then ForceRemoveDirectoryInternal_loop fuel d rootFd ret else mret false
      end
  end.

Definition ForceRemoveDirectoryInternal (fuel : nat) (d : Z) : DM bool :=
  rootFd ← st_get (dirfd d);
  if rootFd <? 0 then mret false else ForceRemoveDirectoryInternal_loop fuel d rootFd true.

Definition ForceRemoveDirectoryBMS (fuel : nat) (path : list Z) : DM bool :=
  d ← st_call (opendir path);
  match d with
  | None => mret false
  | Some d =>
      ForceRemoveDirectoryInternal fuel d;;
      do_closedir d;;
      remove_root path
  end.

Definition RemoveFile (fileName : list Z) : DM bool :=
  there ← st_get (access fileName);
  if (there : bool) then st_call (remove fileName) else mret true.

(** ** Permissions *)

Definition ChangeMode (fileName : list Z) (mode : Z) : DM bool := st_call (chmod fileName mode).

Definition ChangeModeFile (fileName : list Z) (mode : Z) : DM bool :=
  there ← st_get (access fileName);
  if (there : bool) then ChangeMode fileName mode else mret false.

(** [ChangeMode] where there is something. *)
Definition change_if_there (path : list Z) (mode : Z) : DM bool :=
  there ← st_get (access path);
  if (there : bool) then ChangeMode path mode else mret true.

(** The loop over the directory and what follows it. *)
Fixpoint ChangeModeDirectory_loop (fuel : nat) (path : list Z) (mode : Z) (d : Z) (ret : bool) : DM bool :=
  match fuel with
  | O => out_of_fuel
  | S fuel =>
      ptr ← st_call (readdir d);
      match ptr with
      | None =>
          do_closedir d;;
          ok ← change_if_there (ExcludeTrailingPathDelimiter path) mode;
          mret (if (ok : bool) then ret else false)
      | Some ptr =>
          if is_dots (d_name ptr) then ChangeModeDirectory_loop fuel path mode d ret
          else
            let subPath := IncludeTrailingPathDelimiter path ++ d_name ptr in
            if d_is_dir ptr then
              sub ← st_call (opendir subPath);
              ret ← match sub with
                    | None => mret false
                    | Some sub => ChangeModeDirectory_loop fuel subPath mode sub true
                    end;
              ChangeModeDirectory_loop fuel path mode d ret
            else
              ok ← change_if_there subPath mode;
              if (ok : bool) then ChangeModeDirectory_loop fuel path mode d ret else do_closedir d;; mret false
      end
  end.

Definition ChangeModeDirectory (fuel : nat) (path : list Z) (mode : Z) : DM bool :=
  d ← st_call (opendir path);
  match d with
  | None => mret false
  | Some d => ChangeModeDirectory_loop fuel path mode d true
  end.

(** ** Real paths *)

(** The result and the new value of [realPath]. *)
Definition PathToRealPath (path realPath : list Z) : DM (bool * list Z) :=
  if is_empty path then mret (false, realPath)
  else if PATH_MAX <=? zlen path then mret (false, realPath)
  else
    tmpPath ← st_get (realpath path);
    match tmpPath with
    | None => mret (false, realPath)
    | Some tmpPath =>
        there ← st_get (access (c_string tmpPath));
        mret (there, c_string tmpPath)
    end.
End directory.
