(* ===== verification/DirectoryInv.v ===== *)
(** * Paths and the file system

    The functions on paths; then what the kernel promises [DirectoryEx]: the
    directories by inode, the open descriptors and streams, and what each call
    does to them. *)

From S2P Require Import Prelude StringEx StringInv DirectoryEx.

(** ** Paths *)

Lemma snoc_cases {A} (l : list A) : l = [] \/ exists q x, l = q ++ [x].
Proof. induction l as [|x q _] using rev_ind; [by left|right; by exists q, x]. Qed.

Lemma rfind_none c s : c ∉ s -> rfind c s = npos.
Proof.
  unfold rfind. generalize 0 as i. induction s as [|a s IH]; intros i Hc; [done|]. cbn.
  rewrite IH by (intros ?; apply Hc; by right). change (npos =? npos) with true. cbn.
  destruct (Z.eqb_spec a c) as [E|]; [|done]. subst a. destruct Hc. by left.
Qed.

Lemma rfind_app c a b : c ∉ b -> zlen a < npos -> rfind c (a ++ c :: b) = zlen a.
Proof.
  intros Hc Ha. unfold rfind. enough (forall i, 0 <= i -> i + zlen a < npos -> rfind_at c (a ++ c :: b) i = i + zlen a) as He
    by (rewrite (He 0); lia).
  clear Ha. induction a as [|x a IH]; intros i Hi Hn.
  - cbn. change (zlen []) with 0 in *. assert (rfind_at c b (i + 1) = npos) as ->.
    { generalize (i + 1) as j. clear -Hc. induction b as [|y b IH]; intros j; [done|]. cbn.
      rewrite IH by (intros ?; apply Hc; by right). change (npos =? npos) with true. cbn.
      destruct (Z.eqb_spec y c) as [E|]; [|done]. subst y. destruct Hc. by left. }
    change (npos =? npos) with true. cbn. rewrite Z.eqb_refl. lia.
  - rewrite zlen_cons in Hn. pose proof (zlen_nonneg a). cbn. rewrite (IH (i + 1)) by lia. rewrite zlen_cons.
    destruct (Z.eqb_spec (i + 1 + zlen a) npos); [lia|]. cbn. lia.
Qed.

(** A string without a character, or one cut at its last one. *)
Lemma last_cut (c : Z) (s : list Z) : c ∉ s \/ exists a b, s = a ++ c :: b /\ c ∉ b.
Proof.
  induction s as [|x s [IH|(a & b & -> & Hb)]]; [left; apply not_elem_of_nil| |].
  - destruct (decide (x = c)) as [->|Hx]; [right; by exists [], s|]. left. rewrite elem_of_cons. naive_solver.
  - right. by exists (x :: a), b.
Qed.

Lemma u64_npos : u64 (npos + 1) = 0.
Proof. reflexivity. Qed.
Lemma u64_id n : 0 <= n < 2 ^ 64 -> u64 n = n.
Proof. apply wrapU_small. Qed.

(** The directory part and the file part of a path. *)
Lemma Extract_split a b : SLASH ∉ b -> zlen a < 2 ^ 63 ->
  ExtractFilePath (a ++ SLASH :: b) = a ++ [SLASH] /\ ExtractFileName (a ++ SLASH :: b) = b.
Proof.
  intros Hb Ha. pose proof (zlen_nonneg a). pose proof (zlen_nonneg b). unfold ExtractFilePath, ExtractFileName, substr.
  rewrite rfind_app by (unfold npos, SIZE_MAX; lia || done). rewrite u64_id by lia. split.
  - rewrite zdrop_0 by lia. replace (zlen a + 1) with (zlen (a ++ [SLASH])) by (rewrite zlen_app; done).
    rewrite (cons_middle SLASH a b), (assoc_L (++)). apply ztake_app_exact.
  - rewrite zdrop_app_r by lia. replace (zlen a + 1 - zlen a) with 1 by lia. change (zdrop 1 (SLASH :: b)) with b.
    apply ztake_ge. rewrite zlen_app, zlen_cons. lia.
Qed.

Lemma Extract_plain b : SLASH ∉ b -> ExtractFilePath b = [] /\ ExtractFileName b = b.
Proof.
  intros Hb. unfold ExtractFilePath, ExtractFileName, substr. rewrite rfind_none by done. rewrite u64_npos. split.
  - by apply ztake_0.
  - rewrite zdrop_0 by lia. by apply ztake_ge.
Qed.

(** The test both delimiter functions make. *)
Lemma ends_in_slash p : zlen p < 2 ^ 63 ->
  (rfind SLASH p =? u64 (zlen p - 1)) = true <-> p = [] \/ exists q, p = q ++ [SLASH].
Proof.
  intros Hp. destruct (last_cut SLASH p) as [Hn|(a & b & -> & Hb)].
  - rewrite rfind_none by done. split.
    + intros E%Z.eqb_eq. left. apply zlen_nil_inv. pose proof (zlen_nonneg p).
      destruct (Z.leb_spec (zlen p) 0); [done|]. rewrite u64_id in E by lia. unfold npos, SIZE_MAX in E. lia.
    + intros [->|(q & ->)]; [reflexivity|]. destruct Hn. apply elem_of_app. right. by left.
  - rewrite zlen_app, zlen_cons in *. pose proof (zlen_nonneg a). pose proof (zlen_nonneg b).
    rewrite rfind_app by (unfold npos, SIZE_MAX; lia || done). rewrite u64_id by lia. rewrite Z.eqb_eq. split.
    + intros E. right. exists a. rewrite (zlen_nil_inv b); [done|lia].
    + intros [E|(q & E)]; [by destruct a|]. destruct b as [|y b]; [change (zlen []) with 0; lia|].
      destruct (snoc_cases (y :: b)) as [->|(b' & z & Eb)]; [change (zlen []) with 0; lia|]. rewrite Eb in *.
      exfalso. apply (f_equal last) in E. rewrite last_snoc in E.
      replace (a ++ SLASH :: b' ++ [z]) with ((a ++ SLASH :: b') ++ [z]) in E by by rewrite <- (assoc_L (++)).
      rewrite last_snoc in E. injection E as ->. destruct Hb. apply elem_of_app. right. by left.
Qed.

Lemma Include_cases p : zlen p < 2 ^ 63 ->
  IncludeTrailingPathDelimiter p = if decide (last p = Some SLASH) then p else p ++ [SLASH].
Proof.
  intros Hp. unfold IncludeTrailingPathDelimiter. destruct (is_empty p) eqn:Ee.
  - apply is_empty_true in Ee as ->. done.
  - pose proof (ends_in_slash p Hp) as He. assert (p <> []) as Hne by (by intros ->).
    destruct (rfind SLASH p =? _); cbn.
    + destruct (proj1 He eq_refl) as [?|(q & ->)]; [done|]. by rewrite last_snoc, decide_True.
    + rewrite decide_False; [done|]. intros (q & ->)%last_Some. enough (false = true) by done. apply He. right. by exists q.
Qed.

Lemma Exclude_cases p : zlen p < 2 ^ 31 ->
  ExcludeTrailingPathDelimiter p = match last p with Some 47 => removelast p | _ => p end.
Proof.
  intros Hp. unfold ExcludeTrailingPathDelimiter. pose proof (ends_in_slash p ltac:(lia)) as He.
  destruct (snoc_cases p) as [->|(q & x & ->)]; [reflexivity|]. rewrite last_snoc, removelast_last.
  destruct (decide (x = SLASH)) as [->|Hx].
  - rewrite (proj2 He) by (right; by exists q). cbn [negb].
    rewrite is_empty_false by (by destruct q). cbn [negb]. unfold substr.
    rewrite zlen_app in *. change (zlen [SLASH]) with 1 in *. pose proof (zlen_nonneg q).
    rewrite zdrop_0 by lia. unfold i32. rewrite wrapS_small by lia. rewrite u64_id by lia.
    replace (zlen q + 1 - 1) with (zlen q) by lia. apply ztake_app_exact.
  - destruct (rfind SLASH (q ++ [x]) =? _) eqn:E; cbn [negb].
    + destruct (proj1 He eq_refl) as [?|(q' & Eq)]; [by destruct q|]. by apply app_inj_tail in Eq as [_ ->].
    + destruct x as [|p|p]; try done. unfold SLASH in Hx. repeat (destruct p; try done).
Qed.

Lemma parent_path_app p n : SLASH ∉ n -> zlen p < 2 ^ 63 -> parent_path (p ++ SLASH :: n) = p.
Proof.
  intros Hn Hp. unfold parent_path. rewrite rfind_app by (unfold npos, SIZE_MAX; lia || done).
  destruct (Z.eqb_spec (zlen p) npos) as [E|]; [unfold npos, SIZE_MAX in E; lia|]. cbn. apply ztake_app_exact.
Qed.

(** ** The file system *)

(** What a name in a directory stands for: the inode of a directory, or of
    something else; a symbolic link is something else, wherever it leads. *)
Inductive entry := EFile (ino : Z) | EDir (ino : Z).
Notation listing := (list (list Z * entry)).
Definition is_dir (e : entry) : bool := if e is EDir _ then true else false.
Definition ino_of (e : entry) : Z := match e with EFile i | EDir i => i end.

(** How an observer of the kernel sees it. *)
Class DirView (K : Type) := {
  dirs : K -> gmap Z listing;              (** the entries of each directory *)
  handles : K -> gmap Z Z;                 (** the directory behind an open descriptor *)
  streams : K -> gmap Z (Z * listing);     (** the descriptor of a stream and what it has left to read *)
  resolve : K -> list Z -> option Z;       (** the directory a path names *)
  located : K -> list Z -> option (Z * list Z);  (** the directory that holds the last name of a path *)
  openable : K -> Z -> bool;               (** the process may open the directory *)
  attr : K -> Z -> file_stat;              (** the attributes of an inode *)
  naming : Type;
  names : K -> naming;                     (** what else the meaning of a path depends on, like the working directory *)
}.

(** The directories and attributes are as before. *)
Definition kept {K} `{DirView K} (k k' : K) : Prop :=
  dirs k' = dirs k /\ openable k' = openable k /\ attr k' = attr k /\ names k' = names k.
Definition same {K} `{DirView K} (k k' : K) : Prop :=
  kept k k' /\ handles k' = handles k /\ streams k' = streams k.

(** The listing without a name. *)
Definition drop_name (n : list Z) (es : listing) : listing := filter (fun e => e.1 <> n) es.
(** Only "." and "..". *)
Definition empty_listing (es : listing) : Prop := Forall (fun e => is_dots e.1 = true) es.

(** What the calls do, however they end. [readdir] may give any name and any
    type. Through a descriptor a call reaches the entries of its directory
    only, but [openat] without [O_NOFOLLOW] may end in any directory; a
    directory is only removed when it is empty. *)
Class DirLaws (K : Type) `{DirOS K} `{DirView K} := {
  opendir_spec p k : match opendir p k with
    | (None, k') => same k k'
    | (Some d, k') => exists fd i es, resolve k p = Some i /\ dirs k !! i = Some es /\ 0 <= fd /\
        handles k !! fd = None /\ streams k !! d = None /\
        kept k k' /\ handles k' = <[fd := i]> (handles k) /\ streams k' = <[d := (fd, es)]> (streams k)
    end;
  dirfd_spec d fd r k : streams k !! d = Some (fd, r) -> dirfd d k = fd \/ dirfd d k < 0;
  readdir_spec d fd r k : streams k !! d = Some (fd, r) -> match readdir d k with
    | (None, k') => same k k'
    | (Some ptr, k') => SLASH ∉ d_name ptr /\ kept k k' /\ handles k' = handles k /\
        exists r', streams k' = <[d := (fd, r')]> (streams k)
    end;
  openat_spec fd n fl i k : handles k !! fd = Some i -> SLASH ∉ n -> Z.land fl O_DIRECTORY <> 0 -> let '(fd', k') := openat fd n fl k in
    if fd' <? 0 then same k k'
    else exists j, handles k !! fd' = None /\ kept k k' /\ handles k' = <[fd' := j]> (handles k) /\ streams k' = streams k /\
      (Z.land fl O_NOFOLLOW <> 0 -> exists es, dirs k !! i = Some es /\ (n, EDir j) ∈ es);
  fdopendir_spec fd i k : handles k !! fd = Some i -> match fdopendir fd k with
    | (None, k') => same k k'
    | (Some d, k') => streams k !! d = None /\ kept k k' /\ handles k' = handles k /\
        streams k' = <[d := (fd, default [] (dirs k !! i))]> (streams k)
    end;
  close_spec fd k : kept k (close fd k) /\ handles (close fd k) = delete fd (handles k) /\ streams (close fd k) = streams k;
  closedir_spec d fd r k : streams k !! d = Some (fd, r) ->
    kept k (closedir d k) /\ handles (closedir d k) = delete fd (handles k) /\ streams (closedir d k) = delete d (streams k);
  unlinkat_spec fd n rd i k : handles k !! fd = Some i -> SLASH ∉ n -> match unlinkat fd n rd k with
    | (false, k') => same k k'
    | (true, k') => (openable k' = openable k /\ names k' = names k) /\ handles k' = handles k /\ streams k' = streams k /\ is_dots n = false /\
        exists es e, dirs k !! i = Some es /\ (n, e) ∈ es /\ is_dir e = rd /\
          dirs k' = (if e is EDir j then delete j else id) (<[i := drop_name n es]> (dirs k)) /\
          (if e is EDir j then exists js, dirs k !! j = Some js /\ empty_listing js else True)
    end;
  remove_spec p k : match remove p k with
    | (false, k') => same k k'
    | (true, k') => handles k' = handles k /\ streams k' = streams k /\
        exists i n es e, located k p = Some (i, n) /\ dirs k !! i = Some es /\ (n, e) ∈ es /\
          dirs k' = (if e is EDir j then delete j else id) (<[i := drop_name n es]> (dirs k)) /\
          (if e is EDir j then resolve k p = Some j /\ exists js, dirs k !! j = Some js /\ empty_listing js else True)
    end;
}.

(** What holds besides as long as the process has the permissions and stays
    below the limits: names are unique, not empty and without a slash, a stream gives the
    entries of its directory in order with their type and then ends, and an
    openable directory can be opened. *)
Class DirReliable (K : Type) `{DirLaws K} := {
  listing_ok k i es : dirs k !! i = Some es -> NoDup es.*1 /\ Forall (fun n => n <> [] /\ SLASH ∉ n) es.*1;
  opendir_works p i k : resolve k p = Some i -> openable k i = true -> is_Some (dirs k !! i) -> is_Some (opendir p k).1;
  dirfd_works d fd r k : streams k !! d = Some (fd, r) -> dirfd d k = fd;
  readdir_works d fd r k : streams k !! d = Some (fd, r) -> match r with
    | [] => readdir d k = (None, k)
    | (n, e) :: r' => exists k', readdir d k = (Some {| d_name := n; d_is_dir := is_dir e |}, k') /\
        kept k k' /\ handles k' = handles k /\ streams k' = <[d := (fd, r')]> (streams k)
    end;
  openat_works fd n fl i es j k : handles k !! fd = Some i -> dirs k !! i = Some es -> (n, EDir j) ∈ es ->
    exists fd' k', openat fd n fl k = (fd', k') /\ (if openable k j then 0 <= fd' else fd' < 0);
  handle_nonneg fd i k : handles k !! fd = Some i -> 0 <= fd;
  fdopendir_works fd i k : handles k !! fd = Some i -> is_Some (fdopendir fd k).1;
  fstatat_works fd n i es e k : handles k !! fd = Some i -> dirs k !! i = Some es -> (n, e) ∈ es ->
    fstatat fd n AT_SYMLINK_NOFOLLOW k = Some (attr k (ino_of e)) /\ S_ISDIR (st_mode (attr k (ino_of e))) = is_dir e;
}.

(** What holds besides as long as the process may also change the directories:
    an entry that is there is found and can be removed, a directory when it is
    empty; [remove] works on a path, after which the path names nothing. *)
Class DirRemovable (K : Type) `{DirReliable K} := {
  faccessat_works fd n i es e k : handles k !! fd = Some i -> dirs k !! i = Some es -> (n, e) ∈ es ->
    faccessat fd n AT_SYMLINK_NOFOLLOW k = true;
  unlinkat_works fd n i es e k : handles k !! fd = Some i -> dirs k !! i = Some es -> (n, e) ∈ es -> is_dots n = false ->
    (if e is EDir j then exists js, dirs k !! j = Some js /\ empty_listing js else True) ->
    (unlinkat fd n (is_dir e) k).1 = true;
  remove_works p i n es j js k : located k p = Some (i, n) -> resolve k p = Some j ->
    dirs k !! i = Some es -> (n, EDir j) ∈ es -> dirs k !! j = Some js -> empty_listing js ->
    lexists p k = true /\ (remove p k).1 = true /\ lexists p (remove p k).2 = false;
}.

Section kept.
Context {K : Type} `{DirView K}.

Lemma kept_refl (k : K) : kept k k.
Proof. done. Qed.
Lemma kept_trans (k1 k2 k3 : K) : kept k1 k2 -> kept k2 k3 -> kept k1 k3.
Proof. intros (A & B & C & D) (E & F & G & I). split_and!; congruence. Qed.
Lemma same_tree_refl (k : K) : same k k.
Proof. done. Qed.
Lemma same_trans (k1 k2 k3 : K) : same k1 k2 -> same k2 k3 -> same k1 k3.
Proof. intros (A & B & C) (D & E & F). split; [by eapply kept_trans|]. split; congruence. Qed.
End kept.
