(* ===== verification/DirectoryWalk.v ===== *)
(** * Walking through a tree of directories

    A tree as a forest: the entries of a directory, the first one with what is
    below it and then its siblings. [represents] ties it to the file system;
    the two read-only walks are computed from it. *)

From S2P Require Import Prelude StringEx StringInv DirectoryEx DirectoryInv.

Inductive forest :=
  | FNil
  | FDots (n : list Z) (i : Z) (next : forest)             (** "." or ".." *)
  | FFile (n : list Z) (i : Z) (next : forest)
  | FClosed (n : list Z) (i : Z) (next : forest)           (** a directory that cannot be opened *)
  | FDir (n : list Z) (i : Z) (sub next : forest).

Section forests.
Context {K : Type} `{DirView K}.

Fixpoint represents (k : K) (f : forest) (es : listing) : Prop :=
  match f with
  | FNil => es = []
  | FDots n i next => is_dots n = true /\ exists e r, es = (n, e) :: r /\ represents k next r
  | FFile n i next => is_dots n = false /\ exists r, es = (n, EFile i) :: r /\ represents k next r
  | FClosed n i next => is_dots n = false /\ openable k i = false /\ exists r, es = (n, EDir i) :: r /\ represents k next r
  | FDir n i sub next => is_dots n = false /\ openable k i = true /\
      exists r js, es = (n, EDir i) :: r /\ represents k next r /\ dirs k !! i = Some js /\ represents k sub js
  end.

Lemma represents_kept k k' f es : kept k k' -> represents k f es -> represents k' f es.
Proof.
  intros (Ed & Eo & _). revert es. induction f as [|n i f IH|n i f IH|n i f IH|n i s IHs f IH]; intros es; cbn; rewrite ?Ed, ?Eo; naive_solver.
Qed.

(** ** What the walks compute *)

(** The files below a directory whose path is [p] and a slash. *)
Fixpoint files_of (p : list Z) (f : forest) : list (list Z) :=
  match f with
  | FNil => []
  | FDots _ _ next | FClosed _ _ next => files_of p next
  | FFile n _ next => (p ++ SLASH :: n) :: files_of p next
  | FDir n _ sub next => files_of (p ++ SLASH :: n) sub ++ files_of p next
  end.

(** The inodes, in the order of the walk. *)
Fixpoint inodes (f : forest) : list Z :=
  match f with
  | FNil => []
  | FDots _ _ next => inodes next
  | FFile _ i next | FClosed _ i next => i :: inodes next
  | FDir _ i sub next => i :: inodes sub ++ inodes next
  end.

(** The calls of [readdir] a walk makes. *)
Fixpoint cost (f : forest) : nat :=
  match f with
  | FNil => 1
  | FDots _ _ next | FFile _ _ next | FClosed _ _ next => S (cost next)
  | FDir _ _ sub next => S (cost sub + cost next)
  end%nat.

(** No path in it reaches [2^31] bytes. *)
Fixpoint short (len : Z) (f : forest) : Prop :=
  match f with
  | FNil => len < 2 ^ 31
  | FDots _ _ next | FFile _ _ next | FClosed _ _ next => short len next
  | FDir n _ sub next => short (len + 1 + zlen n) sub /\ short len next
  end.

Lemma short_len len f : short len f -> len < 2 ^ 31.
Proof. induction f; cbn; naive_solver. Qed.
End forests.

(** ** A step of a walk *)

Section steps.
Context {K : Type} `{DirReliable K}.
Implicit Types k : K.

(** The stream [d] reads the directory [i], of which [r] is left. *)
Definition reading k (d fd i : Z) (r : listing) : Prop :=
  streams k !! d = Some (fd, r) /\ handles k !! fd = Some i /\ exists es, dirs k !! i = Some es /\ r `suffix_of` es.

(** As before, but for the place where the stream [d] is. *)
Definition advanced d fd r k k' : Prop :=
  kept k k' /\ handles k' = handles k /\ streams k' = <[d := (fd, r)]> (streams k).

Lemma readdir_step k d fd i n e r :
  reading k d fd i ((n, e) :: r) -> exists k', readdir d k = (Some {| d_name := n; d_is_dir := is_dir e |}, k') /\
    advanced d fd r k k' /\ reading k' d fd i r.
Proof.
  intros (Es & Eh & es & Ee & Hs). pose proof (readdir_works _ _ _ _ Es) as Hr. cbn in Hr. destruct Hr as (k' & Er & Hk & Ehk & Esk).
  exists k'. split; [done|]. split; [done|]. split; [by rewrite Esk, lookup_insert_eq|]. split; [by rewrite Ehk|].
  exists es. destruct Hk as (-> & _). split; [done|]. destruct Hs as [l ->]. exists (l ++ [(n, e)]). by rewrite <- (assoc_L (++)).
Qed.

Lemma readdir_end k d fd i : reading k d fd i [] -> readdir d k = (None, k).
Proof. intros (Es & _). apply (readdir_works _ _ _ _ Es). Qed.

Lemma reading_in k d fd i n e r :
  reading k d fd i ((n, e) :: r) -> exists es, dirs k !! i = Some es /\ (n, e) ∈ es /\ n <> [] /\ SLASH ∉ n.
Proof.
  intros (_ & _ & es & Ee & l & ->). exists (l ++ (n, e) :: r). split; [done|]. split; [set_solver|].
  destruct (listing_ok _ _ _ Ee) as [_ Hf]. rewrite Forall_fmap, Forall_forall in Hf. apply (Hf (n, e)). set_solver.
Qed.

(** Opening a subdirectory: one new descriptor with one new stream. *)
Lemma open_sub_works k fd i es n j js :
  handles k !! fd = Some i -> dirs k !! i = Some es -> (n, EDir j) ∈ es -> SLASH ∉ n -> dirs k !! j = Some js ->
  openable k j = true ->
  exists sub sfd k', open_sub fd n k = Some (Some sub, k') /\ kept k k' /\ handles k !! sfd = None /\ streams k !! sub = None /\
    handles k' = <[sfd := j]> (handles k) /\ streams k' = <[sub := (sfd, js)]> (streams k) /\ reading k' sub sfd j js.
Proof.
  intros Eh Ee Hin Hn Ej Ho. destruct (openat_works fd n dir_flags i es j k Eh Ee Hin) as (sfd & k1 & E1 & Hsfd). rewrite Ho in Hsfd.
  pose proof (openat_spec fd n dir_flags i k Eh Hn ltac:(done)) as Hs. rewrite E1 in Hs. destruct (Z.ltb_spec sfd 0); [lia|].
  destruct Hs as (j' & Hf & Hk1 & Eh1 & Es1 & Hent). destruct (Hent ltac:(done)) as (es' & Ee' & Hin').
  assert (j' = j) as ->.
  { simplify_eq. destruct (listing_ok _ _ _ Ee) as [Hnd _].
    apply list_elem_of_lookup in Hin as [a Ha], Hin' as [b Hb].
    assert (a = b) as ->; [|congruence]. eapply NoDup_lookup; [exact Hnd|rewrite list_lookup_fmap, Ha|rewrite list_lookup_fmap, Hb]; done. }
  assert (handles k1 !! sfd = Some j) as Eh1' by by rewrite Eh1, lookup_insert_eq.
  destruct (fdopendir_works sfd j k1 Eh1') as [sub Esub]. pose proof (fdopendir_spec sfd j k1 Eh1') as Hd.
  destruct (fdopendir sfd k1) as [x k2] eqn:E2. cbn in Esub. subst x. destruct Hd as (Hfs & Hk2 & Eh2 & Es2).
  assert (Hk1' := Hk1). destruct Hk1' as (Ed1 & _). rewrite Ed1 in Es2.
  rewrite (Ej : dirs k !! j = Some (js : list (list Z * entry))) in Es2. cbn in Es2.
  exists sub, sfd, k2. split.
  { unfold open_sub, mbind, st_bind, st_call. rewrite E1. cbn. destruct (Z.ltb_spec sfd 0); [lia|]. by rewrite E2. }
  split; [by eapply kept_trans|]. split; [done|]. split; [by rewrite <- Es1|]. split; [by rewrite Eh2|].
  split; [by rewrite Es2, Es1|]. split; [by rewrite Es2, lookup_insert_eq|]. split; [by rewrite Eh2|].
  exists js. destruct Hk2 as (-> & _). split; [by rewrite Ed1|done].
Qed.

Lemma open_sub_closed k fd i es n j :
  handles k !! fd = Some i -> dirs k !! i = Some es -> (n, EDir j) ∈ es -> SLASH ∉ n -> openable k j = false ->
  exists k', open_sub fd n k = Some (None, k') /\ same k k'.
Proof.
  intros Eh Ee Hin Hn Ho. destruct (openat_works fd n dir_flags i es j k Eh Ee Hin) as (sfd & k1 & E1 & Hsfd). rewrite Ho in Hsfd.
  pose proof (openat_spec fd n dir_flags i k Eh Hn ltac:(done)) as Hs. rewrite E1 in Hs. destruct (Z.ltb_spec sfd 0) as [Hlt|]; [|lia].
  exists k1. split; [|done]. unfold open_sub, mbind, st_bind, st_call. rewrite E1. by destruct (Z.ltb_spec sfd 0); [|lia].
Qed.

(** Closing a stream that was opened on the way undoes the opening. *)
Lemma closedir_undoes k k1 k2 d fd i r :
  handles k !! fd = None -> streams k !! d = None ->
  kept k k1 -> handles k1 = <[fd := i]> (handles k) -> streams k1 = <[d := (fd, r)]> (streams k) ->
  advanced d fd [] k1 k2 -> same k (closedir d k2).
Proof.
  intros Hf Hd Hk Eh Es (Hk' & Eh' & Es').
  assert (streams k2 !! d = Some (fd, [])) as Hs by by rewrite Es', lookup_insert_eq.
  destruct (closedir_spec _ _ _ _ Hs) as (Hk2 & Eh2 & Es2). split; [by eapply kept_trans, kept_trans|].
  rewrite Eh2, Es2, Eh', Eh, Es', Es. split; [by apply delete_insert_id|].
  rewrite insert_insert_eq. by apply delete_insert_id.
Qed.
End steps.

(** ** Listing *)

Section listing.
Context {K : Type} `{DirReliable K}.
Implicit Types k : K.

Lemma advanced_trans d fd r r' k k1 k2 : advanced d fd r k k1 -> advanced d fd r' k1 k2 -> advanced d fd r' k k2.
Proof.
  intros (A & B & C) (D & E & F). split; [by eapply kept_trans|]. split; [congruence|]. by rewrite F, C, insert_insert_eq.
Qed.
Lemma advanced_same d fd r k k1 k2 : advanced d fd r k k1 -> same k1 k2 -> advanced d fd r k k2.
Proof. intros (A & B & C) (D & E & F). split; [by eapply kept_trans|]. split; congruence. Qed.
Lemma reading_same k k' d fd i r : same k k' -> reading k d fd i r -> reading k' d fd i r.
Proof. intros ((A & _) & B & C). unfold reading. by rewrite A, B, C. Qed.
Lemma reading_nonneg k d fd i r : reading k d fd i r -> 0 <= fd.
Proof. intros (_ & Hh & _). by eapply handle_nonneg. Qed.

Lemma Include_plain p : last p <> Some SLASH -> zlen p < 2 ^ 63 -> IncludeTrailingPathDelimiter p = p ++ [SLASH].
Proof. intros Hl Hp. by rewrite Include_cases, decide_False by done. Qed.

Lemma last_below p n : n <> [] -> SLASH ∉ n -> last (p ++ SLASH :: n) <> Some SLASH.
Proof.
  intros Hn Hs. destruct (snoc_cases n) as [->|(q & x & ->)]; [done|]. rewrite app_comm_cons, (assoc_L (++)), last_snoc.
  intros [= ->]. apply Hs. apply elem_of_app. right. by left.
Qed.

Lemma GetDirFiles_loop_spec f : forall k d fd i r p rest files fuel,
  reading k d fd i r -> represents k f r -> last p <> Some SLASH -> short (zlen p) f ->
  exists k', advanced d fd [] k k' /\
    GetDirFiles_loop (cost f + fuel) (d :: rest) p files k =
    GetDirFiles_loop fuel rest (parent_path p) (files ++ files_of p f) (closedir d k').
Proof.
  induction f as [|n j f IH|n j f IH|n j f IH|n j s IHs f IH]; intros k d fd i r p rest files fuel Hr Hf Hp Hl;
    pose proof (short_len _ _ Hl) as Hlen; cbn [represents] in Hf.
  - subst r. exists k. split; [split_and!; [done|done|]; symmetry; apply insert_id, Hr|]. cbn.
    run_call (readdir_end _ _ _ _ Hr). by rewrite app_nil_r.
  - destruct Hf as (Hd & e & r' & -> & Hf). destruct (readdir_step _ _ _ _ _ _ _ Hr) as (k1 & E1 & Ha & Hr1).
    apply (represents_kept k k1) in Hf; [|apply Ha]. destruct (IH k1 d fd i r' p rest files fuel) as (k' & Ha' & E'); [done..|].
    exists k'. split; [by eapply advanced_trans|]. cbn [cost Nat.add GetDirFiles_loop]. run_call E1.
    cbn [d_name]. by rewrite Hd.
  - destruct Hf as (Hd & r' & -> & Hf). destruct (readdir_step _ _ _ _ _ _ _ Hr) as (k1 & E1 & Ha & Hr1).
    apply (represents_kept k k1) in Hf; [|apply Ha].
    destruct (IH k1 d fd i r' p rest (files ++ [p ++ SLASH :: n]) fuel) as (k' & Ha' & E'); [done..|].
    exists k'. split; [by eapply advanced_trans|]. cbn [cost Nat.add GetDirFiles_loop]. run_call E1.
    cbn [d_name d_is_dir is_dir]. rewrite Hd. rewrite Include_plain, <- (assoc_L (++)) by (done || lia). cbn [app].
    rewrite E'. cbn [files_of]. by rewrite <- (assoc_L (++)).
  - destruct Hf as (Hd & Ho & r' & -> & Hf). destruct (readdir_step _ _ _ _ _ _ _ Hr) as (k1 & E1 & Ha & Hr1).
    destruct (reading_in _ _ _ _ _ _ _ Hr) as (es & Ee & Hin & Hne & Hns).
    assert (Ha1 := Ha). destruct Ha1 as ((Ed1 & Eo1 & _) & Eh1 & _).
    destruct (open_sub_closed k1 fd i es n j) as (k2 & E2 & Hs2); [apply Hr1|by rewrite Ed1|done|done|by rewrite Eo1|].
    apply (represents_kept k k2) in Hf; [|eapply kept_trans; [apply Ha|apply Hs2]].
    destruct (IH k2 d fd i r' p rest files fuel) as (k' & Ha' & E'); [by eapply reading_same|done..|].
    exists k'. split; [eapply advanced_trans; [by eapply advanced_same|done]|].
    cbn [cost Nat.add GetDirFiles_loop]. run_call E1.
    cbn [d_name d_is_dir is_dir]. rewrite Hd. run_get (dirfd_works _ _ _ _ (proj1 Hr1)).
    pose proof (reading_nonneg _ _ _ _ _ Hr). destruct (Z.ltb_spec fd 0); [lia|]. by rewrite (st_bind_eq _ _ _ _ _ E2).
  - destruct Hf as (Hd & Ho & r' & js & -> & Hf & Ej & Hsub). destruct Hl as [Hls Hl].
    destruct (readdir_step _ _ _ _ _ _ _ Hr) as (k1 & E1 & Ha & Hr1).
    destruct (reading_in _ _ _ _ _ _ _ Hr) as (es & Ee & Hin & Hne & Hns).
    assert (Ha1 := Ha). destruct Ha1 as ((Ed1 & Eo1 & _) & Eh1 & _).
    destruct (open_sub_works k1 fd i es n j js) as (sub & sfd & k2 & E2 & Hk2 & Hf2 & Hs2 & Eh2 & Es2 & Hr2);
      [apply Hr1|by rewrite Ed1|done|done|by rewrite Ed1|by rewrite Eo1|].
    assert (kept k k2) as Hk by (eapply kept_trans; [apply Ha|exact Hk2]).
    replace (zlen p + 1 + zlen n) with (zlen (p ++ SLASH :: n)) in Hls by (rewrite zlen_app, zlen_cons; lia).
    destruct (IHs k2 sub sfd j js (p ++ SLASH :: n) (d :: rest) files (cost f + fuel)%nat) as (k3 & Ha3 & E3);
      [done|by eapply represents_kept|by apply last_below|done|].
    assert (same k1 (closedir sub k3)) as Hsame by by eapply closedir_undoes.
    destruct (IH (closedir sub k3) d fd i r' p rest (files ++ files_of (p ++ SLASH :: n) s) fuel) as (k' & Ha' & E');
      [by eapply reading_same|eapply (represents_kept k); [eapply kept_trans; [apply Ha|apply Hsame]|done]|done..|].
    exists k'. split; [eapply advanced_trans; [by eapply advanced_same|done]|].
    cbn [cost]. replace (S (cost s + cost f) + fuel)%nat with (S (cost s + (cost f + fuel))) by lia. cbn [GetDirFiles_loop].
    run_call E1.
    cbn [d_name d_is_dir is_dir]. rewrite Hd. run_get (dirfd_works _ _ _ _ (proj1 Hr1)).
    pose proof (reading_nonneg _ _ _ _ _ Hr). destruct (Z.ltb_spec fd 0); [lia|]. rewrite (st_bind_eq _ _ _ _ _ E2).
    rewrite Include_plain, <- (assoc_L (++)) by (done || lia). cbn [app]. rewrite E3, parent_path_app by (done || lia).
    rewrite E'. cbn [files_of]. by rewrite <- (assoc_L (++)).
Qed.
End listing.

(** ** Disk usage *)

Definition count_inode {K} `{DirView K} (k : K) (u : usage) (i : Z) : usage := (addDiskUsage (attr k i) u).2.

Section usage.
Context {K : Type} `{DirReliable K}.
Implicit Types k : K.

Lemma addDiskUsage_dir st u : S_ISDIR (st_mode st) = true -> exists u', addDiskUsage st u = (true, u').
Proof. intros E. unfold addDiskUsage. rewrite E. by eexists. Qed.

Lemma count_inode_kept k k' u i : kept k k' -> count_inode k' u i = count_inode k u i.
Proof. intros (_ & _ & E & _). unfold count_inode. by rewrite E. Qed.
Lemma foldl_count_kept k k' l u : kept k k' -> foldl (count_inode k') u l = foldl (count_inode k) u l.
Proof. intros Hk. revert u. induction l as [|i l IH]; intros u; [done|]. cbn. by rewrite (count_inode_kept k), IH. Qed.

(** The attributes of the entry that was just read. *)
Lemma fstatat_step k k1 d fd i n e r :
  reading k d fd i ((n, e) :: r) -> advanced d fd r k k1 ->
  fstatat fd n AT_SYMLINK_NOFOLLOW k1 = Some (attr k (ino_of e)) /\ S_ISDIR (st_mode (attr k (ino_of e))) = is_dir e.
Proof.
  intros Hr ((Ed1 & _ & Ea1 & _) & Eh1 & _). destruct (reading_in _ _ _ _ _ _ _ Hr) as (es & Ee & Hin & _).
  rewrite <- Ea1. apply (fstatat_works fd n i es e k1); [rewrite Eh1; apply Hr|by rewrite Ed1|done].
Qed.

Lemma Traverse_loop_spec f : forall k d fd i r rest u fuel,
  reading k d fd i r -> represents k f r ->
  exists k', advanced d fd [] k k' /\
    TraverseDirectoryDiskUsage_loop (cost f + fuel) (d :: rest) u k =
    TraverseDirectoryDiskUsage_loop fuel rest (foldl (count_inode k) u (inodes f)) (closedir d k').
Proof.
  induction f as [|n j f IH|n j f IH|n j f IH|n j s IHs f IH]; intros k d fd i r rest u fuel Hr Hf;
    cbn [represents] in Hf.
  - subst r. exists k. split; [split_and!; [done|done|]; symmetry; apply insert_id, Hr|]. cbn.
    by run_call (readdir_end _ _ _ _ Hr).
  - destruct Hf as (Hd & e & r' & -> & Hf). destruct (readdir_step _ _ _ _ _ _ _ Hr) as (k1 & E1 & Ha & Hr1).
    apply (represents_kept k k1) in Hf; [|apply Ha]. destruct (IH k1 d fd i r' rest u fuel) as (k' & Ha' & E'); [done..|].
    exists k'. split; [by eapply advanced_trans|]. cbn [cost Nat.add TraverseDirectoryDiskUsage_loop]. run_call E1.
    cbn [d_name]. rewrite Hd, E'. by rewrite (foldl_count_kept k) by apply Ha.
  - destruct Hf as (Hd & r' & -> & Hf). destruct (readdir_step _ _ _ _ _ _ _ Hr) as (k1 & E1 & Ha & Hr1).
    destruct (fstatat_step _ _ _ _ _ _ _ _ Hr Ha) as [Est Edir].
    apply (represents_kept k k1) in Hf; [|apply Ha].
    destruct (IH k1 d fd i r' rest (count_inode k u j) fuel) as (k' & Ha' & E'); [done..|].
    exists k'. split; [by eapply advanced_trans|]. cbn [cost Nat.add TraverseDirectoryDiskUsage_loop]. run_call E1.
    cbn [d_name]. rewrite Hd. run_get (dirfd_works _ _ _ _ (proj1 Hr1)).
    pose proof (reading_nonneg _ _ _ _ _ Hr). destruct (Z.ltb_spec fd 0); [lia|]. run_get Est.
    cbn [inodes foldl ino_of is_dir] in *. rewrite <- (foldl_count_kept k k1) by apply Ha. rewrite <- E'. unfold count_inode.
    destruct (addDiskUsage _ _) as [added u'] eqn:Eu. rewrite Edir, orb_true_r. done.
  - destruct Hf as (Hd & Ho & r' & -> & Hf). destruct (readdir_step _ _ _ _ _ _ _ Hr) as (k1 & E1 & Ha & Hr1).
    destruct (fstatat_step _ _ _ _ _ _ _ _ Hr Ha) as [Est Edir].
    destruct (reading_in _ _ _ _ _ _ _ Hr) as (es & Ee & Hin & Hne & Hns).
    assert (Ha1 := Ha). destruct Ha1 as ((Ed1 & Eo1 & _) & Eh1 & _).
    destruct (open_sub_closed k1 fd i es n j) as (k2 & E2 & Hs2); [apply Hr1|by rewrite Ed1|done|done|by rewrite Eo1|].
    assert (kept k k2) as Hk by (eapply kept_trans; [apply Ha|apply Hs2]).
    apply (represents_kept k k2) in Hf; [|done].
    destruct (IH k2 d fd i r' rest (count_inode k u j) fuel) as (k' & Ha' & E'); [by eapply reading_same|done..|].
    exists k'. split; [eapply advanced_trans; [by eapply advanced_same|done]|].
    cbn [cost Nat.add TraverseDirectoryDiskUsage_loop]. run_call E1. cbn [d_name]. rewrite Hd. run_get (dirfd_works _ _ _ _ (proj1 Hr1)).
    pose proof (reading_nonneg _ _ _ _ _ Hr). destruct (Z.ltb_spec fd 0); [lia|]. run_get Est.
    cbn [inodes foldl ino_of is_dir] in *. rewrite <- (foldl_count_kept k k2) by done. rewrite <- E'. unfold count_inode.
    destruct (addDiskUsage_dir _ u Edir) as [u' ->]. rewrite Edir. cbn [negb orb snd]. by rewrite (st_bind_eq _ _ _ _ _ E2).
  - destruct Hf as (Hd & Ho & r' & js & -> & Hf & Ej & Hsub).
    destruct (readdir_step _ _ _ _ _ _ _ Hr) as (k1 & E1 & Ha & Hr1).
    destruct (fstatat_step _ _ _ _ _ _ _ _ Hr Ha) as [Est Edir].
    destruct (reading_in _ _ _ _ _ _ _ Hr) as (es & Ee & Hin & Hne & Hns).
    assert (Ha1 := Ha). destruct Ha1 as ((Ed1 & Eo1 & _) & Eh1 & _).
    destruct (open_sub_works k1 fd i es n j js) as (sub & sfd & k2 & E2 & Hk2 & Hf2 & Hs2 & Eh2 & Es2 & Hr2);
      [apply Hr1|by rewrite Ed1|done|done|by rewrite Ed1|by rewrite Eo1|].
    assert (kept k k2) as Hk by (eapply kept_trans; [apply Ha|exact Hk2]).
    destruct (IHs k2 sub sfd j js (d :: rest) (count_inode k u j) (cost f + fuel)%nat) as (k3 & Ha3 & E3);
      [done|by eapply represents_kept|].
    assert (same k1 (closedir sub k3)) as Hsame by by eapply closedir_undoes.
    assert (kept k (closedir sub k3)) as Hk4 by (eapply kept_trans; [apply Ha|apply Hsame]).
    destruct (IH (closedir sub k3) d fd i r' rest (foldl (count_inode k) (count_inode k u j) (inodes s)) fuel) as (k' & Ha' & E');
      [by eapply reading_same|by eapply (represents_kept k)|].
    exists k'. split; [eapply advanced_trans; [by eapply advanced_same|done]|].
    cbn [cost]. replace (S (cost s + cost f) + fuel)%nat with (S (cost s + (cost f + fuel))) by lia.
    cbn [TraverseDirectoryDiskUsage_loop]. run_call E1. cbn [d_name]. rewrite Hd. run_get (dirfd_works _ _ _ _ (proj1 Hr1)).
    pose proof (reading_nonneg _ _ _ _ _ Hr). destruct (Z.ltb_spec fd 0); [lia|]. run_get Est.
    cbn [inodes foldl ino_of is_dir] in *. rewrite foldl_app.
    rewrite (foldl_count_kept k k2) in E3 by done. rewrite (foldl_count_kept k (closedir sub k3)) in E' by done.
    rewrite <- E', <- E3. unfold count_inode.
    destruct (addDiskUsage_dir _ u Edir) as [u' ->]. rewrite Edir. cbn [negb orb snd]. by rewrite (st_bind_eq _ _ _ _ _ E2).
Qed.

(** ** Counting every inode once *)

(** A file that may have several names. *)
Definition hard_linked (st : file_stat) : bool := negb (S_ISDIR (st_mode st)) && (1 <? st_nlink st).
Definition file_id (st : file_stat) : Z * Z := (st_dev st, st_ino st).
Definition total (k : K) (l : list Z) : Z := foldr Z.add 0 ((fun i => GetDiskUsageSize (attr k i)) <$> l).

(** [u] is the result of counting the inodes [m]. *)
Definition counted k (m : list Z) (u : usage) : Prop :=
  NoDup m /\ totalSize u = u64 (total k m) /\
  forall id, id ∈ visited u <-> exists i, i ∈ m /\ hard_linked (attr k i) = true /\ file_id (attr k i) = id.

Lemma count_inode_spec k m u i :
  counted k m u -> (hard_linked (attr k i) = false -> i ∉ m) ->
  (forall j, j ∈ m -> file_id (attr k j) = file_id (attr k i) -> j = i) ->
  counted k (if decide (i ∈ m) then m else i :: m) (count_inode k u i).
Proof.
  intros (Hnd & Ht & Hv) Hone Hid. unfold count_inode, addDiskUsage. fold (hard_linked (attr k i)). fold (file_id (attr k i)).
  assert (u64 (totalSize u + GetDiskUsageSize (attr k i)) = u64 (total k (i :: m))) as Et.
  { rewrite Ht. cbn. unfold u64, wrapU. rewrite Zplus_mod_idemp_l. f_equal. unfold total. lia. }
  destruct (hard_linked (attr k i)) eqn:Eh.
  - case_bool_decide as Hin.
    + apply Hv in Hin as (j & Hj & _ & Ej). assert (j = i) as -> by by apply Hid. rewrite decide_True by done. done.
    + rewrite decide_False; [|intros Hm; apply Hin, Hv; by exists i]. split; [constructor; [|done]|split; [exact Et|]].
      * intros Hm. apply Hin, Hv. by exists i.
      * intros id. cbn. rewrite elem_of_union, elem_of_singleton, Hv. split.
        -- intros [->|(j & Hj & Hh & Hi)]; [exists i; by split; [left|]|exists j; by split; [right|]].
        -- intros (j & [->|Hj]%elem_of_cons & Hh & Hi); [by left|right; by exists j].
  - specialize (Hone eq_refl). rewrite decide_False by done. split; [by constructor|split; [exact Et|]].
    intros id. cbn. rewrite Hv. split.
    + intros (j & Hj & Hh & Hi). exists j. by split; [right|].
    + intros (j & [->|Hj]%elem_of_cons & Hh & Hi); [congruence|by exists j].
Qed.

Lemma count_all k l m u :
  counted k m u -> (forall i j, i ∈ m ++ l -> j ∈ m ++ l -> file_id (attr k i) = file_id (attr k j) -> i = j) ->
  NoDup (filter (fun i => hard_linked (attr k i) = false) (m ++ l)) ->
  exists m', counted k m' (foldl (count_inode k) u l) /\ forall i, i ∈ m' <-> i ∈ m ++ l.
Proof.
  revert m u. induction l as [|i l IH]; intros m u Hc Hid Hnd; [exists m; split; [done|intros i; by rewrite app_nil_r]|].
  cbn [foldl]. assert (hard_linked (attr k i) = false -> i ∉ m) as Hone.
  { intros Eh Hm. rewrite filter_app, filter_cons_True in Hnd by done. apply NoDup_app in Hnd as (_ & Hd & _).
    apply (Hd i); [by apply list_elem_of_filter|by left]. }
  pose proof (count_inode_spec k m u i Hc Hone) as Hc'.
  assert (forall j, j ∈ m -> file_id (attr k j) = file_id (attr k i) -> j = i) as Hid' by (intros j Hj; apply Hid; set_solver).
  specialize (Hc' Hid'). case_decide as Hm.
  - destruct (IH m _ Hc') as (m' & Hm' & Hel); [intros a b Ha Hb; apply Hid; set_solver| |].
    + rewrite filter_app in *. rewrite filter_cons_False in Hnd; [done|]. intros Eh. by apply (Hone Eh).
    + exists m'. split; [done|]. intros j. rewrite Hel. set_solver.
  - destruct (IH (i :: m) _ Hc') as (m' & Hm' & Hel); [intros a b Ha Hb; apply Hid; set_solver| |].
    + eapply NoDup_Permutation_proper; [|exact Hnd]. apply filter_Permutation. cbn. by rewrite Permutation_middle.
    + exists m'. split; [done|]. intros j. rewrite Hel. set_solver.
Qed.
End usage.
