(* ===== verification/DirectoryRemove.v ===== *)
(** * Removing a directory, whatever fails

    [inv own k]: compared with the state [k0] before the call, the open
    streams and descriptors are those of before and the pairs [own], each in a
    directory below the root [r], and nothing changed but entries that went
    away below [r]. *)

From S2P Require Import Prelude StringEx DirectoryEx DirectoryInv.

Section removing.
Context {K : Type} `{DirLaws K} (k0 : K) (r : Z).
Implicit Types k : K.
Implicit Types own : list (Z * Z).

Definition child k (i j : Z) : Prop := exists es n, dirs k !! i = Some es /\ (n, EDir j) ∈ es /\ is_dots n = false.
(** The directories below the root, and itself. *)
Definition below (i : Z) : Prop := rtc (child k0) r i.

Record shrunk k : Prop := {
  shrunk_sub : forall i es, dirs k !! i = Some es -> exists es0, dirs k0 !! i = Some es0 /\ es ⊆ es0;
  shrunk_out : forall i, ~ below i -> dirs k !! i = dirs k0 !! i;
}.

Record opened own k : Prop := {
  opened_nodup : NoDup own.*1 /\ NoDup own.*2;
  opened_own : forall d fd, (d, fd) ∈ own ->
    (exists l, streams k !! d = Some (fd, l)) /\ (exists i, handles k !! fd = Some i /\ below i) /\
    streams k0 !! d = None /\ handles k0 !! fd = None;
  opened_streams : forall d, d ∉ own.*1 -> streams k !! d = streams k0 !! d;
  opened_handles : forall fd, fd ∉ own.*2 -> handles k !! fd = handles k0 !! fd;
}.

Definition inv own k : Prop := shrunk k /\ opened own k.

Lemma shrunk_start : shrunk k0.
Proof. split; [|done]. intros i es E. by exists es. Qed.

Lemma shrunk_dirs k k' : dirs k' = dirs k -> shrunk k -> shrunk k'.
Proof. intros E [A B]. split; by rewrite E. Qed.

Lemma inv_start : inv [] k0.
Proof. split; [apply shrunk_start|]. split; [split; constructor|by intros d fd ?%elem_of_nil|done|done]. Qed.

Lemma inv_same own k k' : same k k' -> inv own k -> inv own k'.
Proof.
  intros ((Ed & _) & Eh & Es) [Hs Ho]. split; [by eapply shrunk_dirs|]. destruct Ho as [A B C D].
  split; rewrite ?Eh, ?Es; done.
Qed.

(** A directory below and an entry in it: the entry is below too. *)
Lemma below_child k i es n j :
  shrunk k -> below i -> dirs k !! i = Some es -> (n, EDir j) ∈ es -> is_dots n = false -> below j.
Proof.
  intros Hs Hi Ee Hin Hd. destruct (shrunk_sub _ Hs _ _ Ee) as (es0 & E0 & Hsub).
  eapply rtc_r; [exact Hi|]. exists es0, n. auto.
Qed.

Lemma inv_own own k d fd : inv own k -> (d, fd) ∈ own ->
  exists l i, streams k !! d = Some (fd, l) /\ handles k !! fd = Some i /\ below i.
Proof. intros [_ Ho] Hin. destruct (opened_own _ _ Ho _ _ Hin) as ((l & El) & (i & Ei & Hi) & _). by exists l, i. Qed.

Lemma inv_fd own k fd : inv own k -> fd ∈ own.*2 -> exists i, handles k !! fd = Some i /\ below i.
Proof.
  intros Hi ([d fd'] & -> & Hin)%list_elem_of_fmap. destruct (inv_own _ _ _ _ Hi Hin) as (l & i & _ & E & Hb). by exists i.
Qed.

(** ** The calls *)

Lemma readdir_safe own k d fd : inv own k -> (d, fd) ∈ own ->
  wp (st_call (readdir d)) (fun ptr k' => inv own k' /\ (forall p, ptr = Some p -> SLASH ∉ d_name p)) k.
Proof.
  intros Hi Hin. apply wp_st_call. intros ptr k' E. destruct (inv_own _ _ _ _ Hi Hin) as (l & i & Es & Eh & Hb).
  pose proof (readdir_spec _ _ _ _ Es) as Hr. rewrite E in Hr. destruct ptr as [p|]; [|split; [by eapply inv_same|done]].
  destruct Hr as (Hn & (Ed & _) & Ehk & l' & Esk). split; [|by intros p' [= <-]]. destruct Hi as [Hs [A B C D]].
  split; [by eapply shrunk_dirs|]. split; [done| | |by rewrite Ehk].
  - intros d' fd' Hin'. rewrite Ehk. destruct (B _ _ Hin') as ((l2 & El2) & B2). split; [|done]. rewrite Esk.
    destruct (decide (d' = d)) as [->|Hne]; [|rewrite lookup_insert_ne by done; by exists l2].
    rewrite lookup_insert_eq. exists l'. congruence.
  - intros d' Hd'. rewrite Esk, lookup_insert_ne; [by apply C|]. intros <-. apply Hd'. apply list_elem_of_fmap. by exists (d, fd).
Qed.

Lemma opened_add own k k' d sfd j l :
  opened own k -> streams k !! d = None -> handles k !! sfd = None -> below j ->
  handles k' = <[sfd := j]> (handles k) -> streams k' = <[d := (sfd, l)]> (streams k) ->
  opened ((d, sfd) :: own) k'.
Proof.
  intros [[A1 A2] B C D] Hd Hf Hj Eh Es.
  assert (d ∉ own.*1) as Hd1 by (intros ([d' fd] & -> & Hin)%list_elem_of_fmap; destruct (B _ _ Hin) as ((? & ?) & _); cbn in *; congruence).
  assert (sfd ∉ own.*2) as Hf1 by (intros ([d' fd] & -> & Hin)%list_elem_of_fmap; destruct (B _ _ Hin) as (_ & (? & ? & _) & _); cbn in *; congruence).
  split; cbn.
  - split; by constructor.
  - intros d' fd' [[= -> ->]|Hin]%elem_of_cons.
    + rewrite Es, Eh, !lookup_insert_eq, <- C, <- D by done. split_and!; [by exists l|by exists j|done|done].
    + rewrite Es, Eh, !lookup_insert_ne; [by apply B| |]; intros <-; [apply Hf1|apply Hd1]; apply list_elem_of_fmap; by eexists (_, _).
  - intros d' [Hne Hd']%not_elem_of_cons. rewrite Es, lookup_insert_ne by done. by apply C.
  - intros f' [Hne Hf']%not_elem_of_cons. rewrite Eh, lookup_insert_ne by done. by apply D.
Qed.

Lemma open_sub_safe own k fd n : inv own k -> fd ∈ own.*2 -> SLASH ∉ n -> is_dots n = false ->
  wp (open_sub fd n) (fun sub k' => match sub with
    | None => inv own k'
    | Some d => exists sfd, inv ((d, sfd) :: own) k'
    end) k.
Proof.
  intros Hi Hfd Hn Hd. unfold open_sub. wps. apply wp_st_call. intros sfd k1 E1.
  destruct (inv_fd _ _ _ Hi Hfd) as (i & Eh & Hb). pose proof (openat_spec fd n dir_flags i k Eh Hn ltac:(done)) as Ho. rewrite E1 in Ho.
  destruct (sfd <? 0); wps; [by eapply inv_same|].
  destruct Ho as (j & Hf & (Ed1 & _) & Eh1 & Es1 & Hent). destruct (Hent ltac:(done)) as (es & Ee & Hin). destruct Hi as [Hs Hop].
  assert (below j) as Hj by by eapply below_child.
  apply wp_st_call. intros sub k2 E2. wps.
  assert (handles k1 !! sfd = Some j) as Eh1' by by rewrite Eh1, lookup_insert_eq.
  pose proof (fdopendir_spec sfd j k1 Eh1') as Hfd2. rewrite E2 in Hfd2. destruct sub as [sub|]; wps.
  - destruct Hfd2 as (Hfs & (Ed2 & _) & Eh2 & Es2). exists sfd. split; [eapply shrunk_dirs; [|exact Hs]; congruence|].
    eapply (opened_add own k k2 sub sfd j); [done|by rewrite <- Es1|done|done|congruence|by rewrite Es2, Es1].
  - unfold do_close. wps. destruct (close_spec sfd k2) as ((Ed3 & _) & Eh3 & Es3).
    destruct Hfd2 as ((Ed2 & _) & Eh2 & Es2). split; [eapply shrunk_dirs; [|exact Hs]; congruence|].
    destruct Hop as [A B C D]. rewrite Eh2, Eh1, delete_insert_id in Eh3 by done. split; [done| | |].
    + intros d' fd' Hin'. rewrite Eh3, Es3, Es2, Es1. by apply B.
    + intros d' Hd'. rewrite Es3, Es2, Es1. by apply C.
    + intros f' Hf'. rewrite Eh3. by apply D.
Qed.

Lemma shrunk_unlink k k' i n es e :
  shrunk k -> below i -> dirs k !! i = Some es -> (n, e) ∈ es -> is_dots n = false ->
  dirs k' = (if e is EDir j then delete j else id) (<[i := drop_name n es]> (dirs k)) -> shrunk k'.
Proof.
  intros Hs Hi Ee Hin Hd Ed.
  assert (forall x xs, <[i := drop_name n es]> (dirs k) !! x = Some xs -> exists es0, dirs k0 !! x = Some es0 /\ xs ⊆ es0) as Hins.
  { intros x xs. destruct (decide (x = i)) as [->|Hx].
    - rewrite lookup_insert_eq. intros [= <-]. destruct (shrunk_sub _ Hs _ _ Ee) as (es0 & E0 & Hsub). exists es0. split; [done|].
      unfold drop_name. intros y [_ Hy]%list_elem_of_filter. by apply Hsub.
    - rewrite lookup_insert_ne by done. apply Hs. }
  split; intros x.
  - intros xs. rewrite Ed. destruct e as [j|j]; [apply Hins|]. intros [_ E]%lookup_delete_Some. by apply Hins.
  - intros Hx. rewrite Ed. assert (x <> i) by (by intros ->).
    destruct e as [j|j]; [|rewrite lookup_delete_ne by (intros <-; apply Hx; by eapply below_child)];
      unfold id; rewrite lookup_insert_ne by done; by apply Hs.
Qed.

Lemma unlinkat_safe own k fd n rd : inv own k -> fd ∈ own.*2 -> SLASH ∉ n ->
  wp (st_call (unlinkat fd n rd)) (fun _ k' => inv own k') k.
Proof.
  intros Hi Hfd Hn. apply wp_st_call. intros ok k' E. destruct (inv_fd _ _ _ Hi Hfd) as (i & Eh & Hb).
  pose proof (unlinkat_spec fd n rd i k Eh Hn) as Hu. rewrite E in Hu. destruct ok; [|by eapply inv_same].
  destruct Hu as (_ & Ehk & Esk & Hd & es & e & Ee & Hin & _ & Ed & _). destruct Hi as [Hs [A B C D]].
  split; [by eapply shrunk_unlink|]. split; rewrite ?Ehk, ?Esk; done.
Qed.

Lemma remove_entry_safe own k fd n : inv own k -> fd ∈ own.*2 -> SLASH ∉ n ->
  wp (remove_entry fd n) (fun _ k' => inv own k') k.
Proof. intros Hi Hfd Hn. unfold remove_entry. wps. destruct (faccessat fd n AT_SYMLINK_NOFOLLOW k); wps; [by apply unlinkat_safe|done]. Qed.

Lemma closedir_safe own k d fd : inv ((d, fd) :: own) k -> inv own (closedir d k).
Proof.
  intros [Hs [[A1 A2] B C D]]. destruct (B d fd) as ((l & El) & _ & N1 & N2); [by left|].
  destruct (closedir_spec _ _ _ _ El) as ((Ed & _) & Eh & Es). split; [by eapply shrunk_dirs|].
  rewrite fmap_cons, NoDup_cons in A1, A2. destruct A1 as [Hd A1], A2 as [Hf A2]. cbn [fst snd] in Hd, Hf. split; [done| | |].
  - intros d' fd' Hin. rewrite Es, Eh, !lookup_delete_ne; [apply B; by right|intros <-..];
      first [by apply Hf, list_elem_of_fmap; eexists (_, _)|by apply Hd, list_elem_of_fmap; eexists (_, _)].
  - intros d' Hd'. rewrite Es. destruct (decide (d = d')) as [<-|Hne]; [by rewrite lookup_delete_eq|].
    rewrite lookup_delete_ne by done. apply C. apply not_elem_of_cons. done.
  - intros f' Hf'. rewrite Eh. destruct (decide (fd = f')) as [<-|Hne]; [by rewrite lookup_delete_eq|].
    rewrite lookup_delete_ne by done. apply D. apply not_elem_of_cons. done.
Qed.
End removing.

(** ** Loops *)

Section loops.
Context {K : Type} `{DirLaws K} (k0 : K) (r : Z).
Implicit Types k : K.
Implicit Types own : list (Z * Z).
Notation inv := (inv k0 r).

(** The nodes to remove, the newest first, and the streams that are open: the
    node's own, then that of an older one whose descriptor the node uses. *)
Fixpoint stacked (root : Z * Z) (nodes : list DirectoryNode) (own : list (Z * Z)) : Prop :=
  match nodes, own with
  | [], _ => own = [root]
  | node :: nodes, (d, fd) :: own => d = dir node /\ nodeFd node ∈ own.*2 /\ SLASH ∉ name node /\ stacked root nodes own
  | _, [] => False
  end.

Definition walk_ok root k (w : walk) : Prop :=
  exists own, inv own k /\ stacked root (removeStack w) own /\ Forall (fun d => d ∈ own.*1) (traversStack w).

Lemma remove_entries_safe fuel root k w d fd own :
  inv own k -> stacked root (removeStack w) own -> Forall (fun d => d ∈ own.*1) (traversStack w) -> (d, fd) ∈ own ->
  wlp (remove_entries fuel d fd w) (fun w' k' => walk_ok root k' w') k.
Proof.
  revert k w own. induction fuel as [|fuel IH]; intros k w own Hi Hst Ht Hin; [done|]. cbn [remove_entries].
  eapply wlp_step; [by eapply readdir_safe|]. cbn beta. intros ptr k1 (Hi1 & Hn).
  assert (fd ∈ own.*2) as Hfd by (apply list_elem_of_fmap; by exists (d, fd)).
  destruct ptr as [ptr|]; [|apply wlp_ret; by exists own]. specialize (Hn ptr eq_refl).
  destruct (is_dots (d_name ptr)) eqn:Ed; [by apply (IH k1 w own)|]. destruct (d_is_dir ptr).
  - eapply wlp_step; [by apply (open_sub_safe k0 r own)|]. cbn beta. intros [sub|] k2.
    + intros (sfd & Hi2). apply (IH k2 _ ((sub, sfd) :: own)); [done|by split_and!| |by right].
      constructor; [by left|]. eapply Forall_impl; [exact Ht|]. cbn. intros x Hx. by right.
    + intros Hi2. by apply (IH k2 (fail_walk w) own).
  - eapply wlp_step; [by apply (remove_entry_safe k0 r own)|]. cbn beta. intros ok k2 Hi2.
    destruct ok; [by apply (IH k2 w own)|]. apply wlp_ret. by exists own.
Qed.

Lemma remove_walk_safe fuel root k w : walk_ok root k w ->
  wlp (remove_walk fuel w) (fun w' k' => walk_ok root k' w') k.
Proof.
  revert k w. induction fuel as [|fuel IH]; intros k w (own & Hi & Hst & Ht); [done|]. cbn [remove_walk].
  destruct (traversStack w) as [|d rest] eqn:Et; [apply wlp_ret; exists own; by rewrite Et|].
  apply Forall_cons in Ht as [Hd Ht]. apply wlp_get.
  set (w1 := {| w_ret := w_ret w; traversStack := rest; removeStack := removeStack w |}).
  destruct (Z.ltb_spec (dirfd d k) 0) as [Hlt|Hge]; [apply IH; by exists own|].
  apply list_elem_of_fmap in Hd as ([d' fd] & -> & Hin). destruct (inv_own _ _ _ _ _ _ Hi Hin) as (l & i & Es & _).
  destruct (dirfd_spec _ _ _ _ Es) as [E|]; [|cbn in *; lia]. cbn [fst] in *. rewrite E.
  apply wlp_bind. eapply wlp_mono; [by apply (remove_entries_safe (S fuel) root k w1 d' fd own)|]. cbn beta. intros w2 k2 Hw2. by apply IH.
Qed.

Lemma remove_nodes_safe root nodes k own : inv own k -> stacked root nodes own ->
  wp (remove_nodes nodes) (fun _ k' => inv [root] k') k.
Proof.
  revert k own. induction nodes as [|node nodes IH]; intros k own Hi Hst; cbn [remove_nodes].
  - cbn in Hst. by subst own.
  - destruct own as [|[d fd] own]; [done|]. cbn in Hst. destruct Hst as (-> & Hfd & Hn & Hst).
    unfold do_closedir. wps. apply closedir_safe in Hi.
    eapply wp_mono; [by apply (unlinkat_safe k0 r own)|]. cbn beta. intros _ k1 Hi1. wps. by apply (IH k1 own).
Qed.

Lemma internal_loop_safe fuel : forall k own d fd ret, inv own k -> (d, fd) ∈ own ->
  wlp (ForceRemoveDirectoryInternal_loop fuel d fd ret) (fun _ k' => inv own k') k.
Proof.
  induction fuel as [|fuel IH]; intros k own d fd ret Hi Hin; [done|]. cbn [ForceRemoveDirectoryInternal_loop].
  eapply wlp_step; [by eapply readdir_safe|]. cbn beta. intros ptr k1 (Hi1 & Hn).
  assert (fd ∈ own.*2) as Hfd by (apply list_elem_of_fmap; by exists (d, fd)).
  destruct ptr as [ptr|]; [|done]. specialize (Hn ptr eq_refl).
  destruct (is_dots (d_name ptr)) eqn:Ed; [by apply IH|]. destruct (d_is_dir ptr).
  - eapply wlp_step; [by apply (open_sub_safe k0 r own)|]. cbn beta. intros [sub|] k2; [|intros Hi2; by apply IH].
    intros (sfd & Hi2). apply wlp_get.
    assert (wlp (if dirfd sub k2 <? 0 then mret false else ForceRemoveDirectoryInternal_loop fuel sub (dirfd sub k2) true)
      (fun _ k' => inv ((sub, sfd) :: own) k') k2) as Hsub.
    { destruct (Z.ltb_spec (dirfd sub k2) 0); [done|].
      destruct (inv_own _ _ _ _ sub sfd Hi2) as (l & i & Es & _); [by left|].
      destruct (dirfd_spec _ _ _ _ Es) as [->|]; [|lia]. apply IH; [done|by left]. }
    apply wlp_bind. eapply wlp_mono; [exact Hsub|]. cbn beta. intros ret' k3 Hi3. apply wlp_put.
    apply closedir_safe in Hi3. eapply wlp_step; [by apply (unlinkat_safe k0 r own)|]. cbn beta. intros ok k4 Hi4. by apply IH.
  - eapply wlp_step; [by apply (remove_entry_safe k0 r own)|]. cbn beta. intros ok k2 Hi2. destruct ok; [by apply IH|done].
Qed.

Lemma opendir_safe path k d k' : opendir path k = (Some d, k') -> resolve k path = Some r -> k = k0 ->
  exists fd, inv [(d, fd)] k'.
Proof.
  intros E Hres ->. pose proof (opendir_spec path k0) as Ho. rewrite E in Ho.
  destruct Ho as (fd & i & es & Er & Ee & Hfd & Hf & Hs & (Ed & _) & Eh & Es). simplify_eq.
  exists fd. split; [eapply shrunk_dirs; [exact Ed|apply shrunk_start]|].
  eapply (opened_add _ _ [] k0); [|done|done|apply rtc_refl|done|done]. apply inv_start.
Qed.
End loops.
