(* ===== verification/DirectoryEmpty.v ===== *)
(** * Removing a directory that nothing protects

    The two loops of [ForceRemoveDirectory] against the tree they remove: the
    first one leaves every directory with its subdirectories only, and lists
    these so that each comes before the directory that holds it; so the second
    one finds every directory empty. *)

From S2P Require Import Prelude StringEx DirectoryEx DirectoryInv DirectoryWalk DirectoryRemove.

(** The directories of a forest, and that it has none that cannot be opened. *)
Fixpoint dinos (f : forest) : list Z :=
  match f with
  | FNil => []
  | FDots _ _ next | FFile _ _ next | FClosed _ _ next => dinos next
  | FDir _ i sub next => i :: dinos sub ++ dinos next
  end.
Fixpoint all_open (f : forest) : Prop :=
  match f with
  | FNil => True
  | FDots _ _ next | FFile _ _ next => all_open next
  | FClosed _ _ _ => False
  | FDir _ _ sub next => all_open sub /\ all_open next
  end.

(** A directory that was opened: its stream, descriptor and inode, its name and
    the descriptor and inode of the one that holds it. *)
Record gnode := { g_dir : Z; g_fd : Z; g_ino : Z; g_name : list Z; g_pfd : Z; g_parent : Z }.
Definition node_of (g : gnode) : DirectoryNode := {| dir := g_dir g; nodeFd := g_pfd g; name := g_name g |}.

(** A directory still to be read. *)
Record pend := { p_dir : Z; p_fd : Z; p_ino : Z; p_forest : forest }.
Definition dinos_all (T : list pend) : list Z := T ≫= (fun p => dinos (p_forest p)).

Section emptying.
Context {K : Type} `{DirRemovable K} (k0 : K) (r : Z) (root : Z * Z) (f0 : forest).
Implicit Types k : K.
Implicit Types L : list gnode.

Definition own (L : list gnode) : list (Z * Z) := ((fun g => (g_dir g, g_fd g)) <$> L) ++ [root].

(** What is left in the directory [i] is dots and directories of [L1]. *)
Definition good k L1 (i : Z) : Prop := forall es n e, dirs k !! i = Some es -> (n, e) ∈ es ->
  is_dots n = true \/ exists g, g ∈ L1 /\ e = EDir (g_ino g) /\ g_parent g = i /\ g_name g = n.

(** The nodes before the one of the directory [i]; all of them for the root. *)
Fixpoint newer L (i : Z) : list gnode :=
  match L with [] => [] | g :: L => if decide (g_ino g = i) then [] else g :: newer L i end.

Definition linked k L (g : gnode) : Prop :=
  g_parent g ∈ r :: (g_ino <$> L) /\ is_Some (dirs k !! g_ino g) /\ handles k !! g_fd g = Some (g_ino g) /\ handles k !! g_pfd g = Some (g_parent g) /\ is_dots (g_name g) = false /\
  exists es, dirs k !! g_parent g = Some es /\ (g_name g, EDir (g_ino g)) ∈ es.

Definition waiting k L (p : pend) : Prop :=
  (p_dir p, p_fd p) ∈ own L /\ p_ino p ∈ r :: (g_ino <$> L) /\ handles k !! p_fd p = Some (p_ino p) /\ all_open (p_forest p) /\
  exists es, dirs k !! p_ino p = Some es /\ streams k !! p_dir p = Some (p_fd p, es) /\ represents k (p_forest p) es.

(** [P] are the directories being read or still to be read, [ds] the
    directories below them that are not open yet. *)
Record tinv k (P : list Z) (ds : list Z) L : Prop := {
  t_inv : inv k0 r (own L) k;
  t_stacked : stacked root (node_of <$> L) (own L);
  t_root : handles k !! root.2 = Some r;
  t_linked : Forall (linked k L) L;
  t_rootdir : is_Some (dirs k !! r);
  t_settled : forall i, i ∈ r :: (g_ino <$> L) -> i ∈ P \/ good k (newer L i) i;
  t_perm : r :: (g_ino <$> L) ++ ds ≡ₚ r :: dinos f0;
  t_names : names k = names k0;
  t_out : forall x, x ∉ r :: dinos f0 -> dirs k !! x = dirs k0 !! x;
}.

Hypothesis (Hnodup : NoDup (r :: dinos f0)).

Lemma t_nodup k P ds L : tinv k P ds L -> NoDup (r :: (g_ino <$> L) ++ ds).
Proof. intros Ht. by rewrite (t_perm _ _ _ _ Ht). Qed.

Lemma represents_ext k k' f es :
  openable k' = openable k -> (forall x, x ∈ dinos f -> dirs k' !! x = dirs k !! x) -> represents k f es -> represents k' f es.
Proof.
  intros Eo. revert es. induction f as [|n i f IH|n i f IH|n i f IH|n i s IHs f IH]; intros es Hd; cbn; rewrite ?Eo; try naive_solver.
  cbn in Hd. intros (A & B & l & js & -> & C & D & E). split; [done|]. split; [done|]. exists l, js. split; [done|].
  split; [apply IH; [|done]; set_solver|]. split; [rewrite Hd; [done|by left]|]. apply IHs; [|done]. set_solver.
Qed.

Lemma waiting_ext k k' L p :
  openable k' = openable k -> handles k' = handles k -> streams k' !! p_dir p = streams k !! p_dir p ->
  (forall x, x ∈ p_ino p :: dinos (p_forest p) -> dirs k' !! x = dirs k !! x) -> waiting k L p -> waiting k' L p.
Proof.
  intros Eo Eh Es Ed (A & B & C & D & es & E & F & G). split; [done|]. split; [done|]. split; [by rewrite Eh|]. split; [done|].
  exists es. rewrite Es. split; [rewrite Ed; [done|by left]|]. split; [done|].
  eapply represents_ext; [done| |done]. intros x Hx. apply Ed. by right.
Qed.

Lemma good_ext k k' L1 i : dirs k' !! i = dirs k !! i -> good k L1 i -> good k' L1 i.
Proof. intros E Hg es n e. rewrite E. apply Hg. Qed.
Lemma good_more k L1 L2 i : good k L1 i -> (forall g, g ∈ L1 -> g ∈ L2) -> good k L2 i.
Proof. intros Hg Hs es n e E Hin. destruct (Hg es n e E Hin) as [?|(g & Hg' & ?)]; [by left|right; exists g; auto]. Qed.
Lemma good_drop k k' L1 i es n :
  dirs k !! i = Some es -> dirs k' !! i = Some (drop_name n es) -> good k L1 i -> good k' L1 i.
Proof. intros E E' Hg es' m e E2 Hin. simplify_eq. apply list_elem_of_filter in Hin as [_ Hin]. eauto. Qed.

(** The directory being read: [l] is left in the stream, and the entry [x] was
    read but not dealt with. *)
Definition current k L (c : pend) (l x : listing) : Prop :=
  (p_dir c, p_fd c) ∈ own L /\ p_ino c ∈ r :: (g_ino <$> L) /\ all_open (p_forest c) /\
  reading k (p_dir c) (p_fd c) (p_ino c) l /\ represents k (p_forest c) l /\
  forall es n e, dirs k !! p_ino c = Some es -> (n, e) ∈ es ->
    (n, e) ∈ x ++ l \/ is_dots n = true \/ exists g, g ∈ newer L (p_ino c) /\ e = EDir (g_ino g) /\ g_parent g = p_ino c /\ g_name g = n.

Record at_work k (c : pend) (l x : listing) (ds : list Z) (T : list pend) L : Prop := {
  w_tinv : tinv k (p_ino c :: (p_ino <$> T)) (ds ++ dinos (p_forest c) ++ dinos_all T) L;
  w_current : current k L c l x;
  w_waiting : Forall (waiting k L) T;
  w_inos : NoDup (p_ino c :: (p_ino <$> T));
  w_dirs : NoDup (p_dir c :: (p_dir <$> T));
}.

Lemma tinv_frame k k' P ds L :
  kept k k' -> handles k' = handles k -> inv k0 r (own L) k' -> tinv k P ds L -> tinv k' P ds L.
Proof.
  intros (Ed & Eo & _ & Enm) Eh Hi [A B C D R E G N I]. split; try done.
  - by rewrite Eh.
  - eapply Forall_impl; [exact D|]. unfold linked. intros g. by rewrite Eh, !Ed.
  - by rewrite Ed.
  - intros i Hin. destruct (E i Hin) as [?|Hg]; [by left|right]. eapply good_ext; [|exact Hg]. by rewrite Ed.
  - by rewrite Enm.
  - by rewrite Ed.
Qed.

Definition with_forest (c : pend) (f : forest) : pend :=
  {| p_dir := p_dir c; p_fd := p_fd c; p_ino := p_ino c; p_forest := f |}.

(** Reading the next entry. *)
Lemma read_one k c n e l T L f ds :
  at_work k c ((n, e) :: l) [] [] T L -> all_open f -> represents k f l -> ds ++ dinos f = dinos (p_forest c) ->
  exists k1, readdir (p_dir c) k = (Some {| d_name := n; d_is_dir := is_dir e |}, k1) /\ kept k k1 /\
    at_work k1 (with_forest c f) l [(n, e)] ds T L.
Proof.
  intros [Ht (Hown & Hino & Ho & Hr & Hf & Hc) HT Hn Hn2] Hof Hrf Eds.
  destruct (readdir_step _ _ _ _ _ _ _ Hr) as (k1 & E1 & (Hk & Eh & Es) & Hr1). exists k1. split; [done|]. split; [done|].
  assert (inv k0 r (own L) k1) as Hi1.
  { eapply (wp_eval (st_call (readdir (p_dir c))) (fun _ k' => inv k0 r (own L) k') k); [eapply wp_mono; [eapply readdir_safe; [apply Ht|exact Hown]|by intros a s' [? _]]|].
    by apply st_call_eq. }
  assert (Hk' := Hk). destruct Hk' as (Ed & Eo & _). split; try done.
  - cbn. rewrite app_assoc, Eds. cbn in Ht. by eapply tinv_frame.
  - split; [done|]. split; [done|]. split; [done|]. split; [done|]. split; [by eapply represents_kept|]. cbn. rewrite Ed. exact Hc.
  - apply Forall_forall. intros p Hp. rewrite Forall_forall in HT. pose proof (HT p Hp) as Hw. eapply waiting_ext; [done|done| |by intros; rewrite Ed|exact Hw].
    rewrite Es. apply lookup_insert_ne. apply NoDup_cons in Hn2 as [Hn2 _]. intros E. apply Hn2. rewrite E.
    by apply list_elem_of_fmap_2.
Qed.

Lemma done_dots k c n e l T L : is_dots n = true -> at_work k c l [(n, e)] [] T L -> at_work k c l [] [] T L.
Proof.
  intros Hd [Ht (A & B & C & D & E & F) HT Hn Hn2]. split; try done. split_and!; try done.
  intros es m e' Ee Hin. destruct (F es m e' Ee Hin) as [[[= -> ->]|?]%elem_of_cons|[?|?]]; auto.
Qed.

Lemma NoDup_assoc {B} (es : list (list Z * B)) n x y : NoDup es.*1 -> (n, x) ∈ es -> (n, y) ∈ es -> x = y.
Proof.
  intros Hnd [a Ha]%list_elem_of_lookup [b Hb]%list_elem_of_lookup.
  assert (a = b) as ->; [|congruence]. eapply NoDup_lookup; [exact Hnd|rewrite list_lookup_fmap, Ha|rewrite list_lookup_fmap, Hb]; done.
Qed.

(** Deleting the file that was read. *)
Lemma done_file k c n j l T L : is_dots n = false -> at_work k c l [(n, EFile j)] [] T L ->
  (exists es, dirs k !! p_ino c = Some es /\ (n, EFile j) :: l `suffix_of` es) ->
  exists k', remove_entry (p_fd c) n k = Some (true, k') /\ at_work k' c l [] [] T L.
Proof.
  intros Hd [Ht (Hown & Hino & Ho & Hr & Hf & Hc) HT Hn Hn2] (es & Ee & Hsuf).
  assert (Hr' := Hr). destruct Hr' as (Es & Eh & es' & Ee' & _). assert (es' = es) as -> by congruence. clear Ee'.
  destruct (listing_ok _ _ _ Ee) as [Hnd Hnames].
  assert ((n, EFile j) ∈ es) as Hin by (destruct Hsuf as [q ->]; apply elem_of_app; right; by left).
  assert (SLASH ∉ n) as Hs by (rewrite Forall_fmap, Forall_forall in Hnames; by apply (Hnames (n, EFile j))).
  pose proof (faccessat_works _ _ _ _ _ _ Eh Ee Hin) as Ef.
  pose proof (unlinkat_works _ n _ _ (EFile j) _ Eh Ee Hin Hd I) as Eu. cbn in Eu.
  destruct (unlinkat (p_fd c) n false k) as [b k'] eqn:EU. cbn in Eu. subst b.
  pose proof (unlinkat_spec _ n false _ _ Eh Hs) as Hu. rewrite EU in Hu.
  destruct Hu as ((Eo & Enm) & Eh' & Es' & _ & es1 & e1 & Ee1 & Hin1 & _ & Ed' & _). assert (es1 = es) as -> by congruence.
  rewrite (NoDup_assoc _ _ _ _ Hnd Hin1 Hin) in Ed'. unfold id in Ed'. clear Hin1 e1.
  exists k'. split; [unfold remove_entry; run_get Ef; by apply st_call_eq|].
  assert (inv k0 r (own L) k') as Hi'.
  { eapply (wp_eval (st_call (unlinkat (p_fd c) n false)) (fun _ k' => inv k0 r (own L) k') k); [apply (unlinkat_safe k0 r (own L)); [apply Ht| |done]|by apply st_call_eq].
    apply list_elem_of_fmap. by exists (p_dir c, p_fd c). }
  assert (forall x, x ∉ [p_ino c] -> dirs k' !! x = dirs k !! x) as Edx.
  { intros x Hx. rewrite Ed', lookup_insert_ne; [done|]. intros E. apply Hx. rewrite E. by left. }
  assert (dirs k' !! p_ino c = Some (drop_name n es)) as Edc by by rewrite Ed', lookup_insert_eq.
  assert (Hap : forall x, x ∈ r :: (g_ino <$> L) -> x ∉ dinos (p_forest c) ++ dinos_all T).
  { intros x Hx. pose proof (t_nodup _ _ _ _ Ht) as Hn'. rewrite app_comm_cons in Hn'. apply NoDup_app in Hn' as (_ & Hd' & _).
    intros Hx'. by apply (Hd' x Hx), Hx'. }
  assert (forall x, x ∈ dinos (p_forest c) ++ dinos_all T -> dirs k' !! x = dirs k !! x) as Edf.
  { intros x Hx. apply Edx. intros ->%list_elem_of_singleton. by apply (Hap _ Hino). }
  split; try done.
  - destruct Ht as [A B C D R E G N I']. split; try done.
    + by rewrite Eh'.
    + eapply Forall_impl; [exact D|]. intros g (P1 & P2 & D1 & D2 & D3 & es2 & D4 & D5). split; [done|].
      split; [destruct (decide (g_ino g = p_ino c)) as [Eg|Eg]; [by rewrite Eg, Edc|rewrite Edx; [done|by intros ?%list_elem_of_singleton]]|].
      split; [by rewrite Eh'|]. split; [by rewrite Eh'|].
      split; [done|]. destruct (decide (g_parent g = p_ino c)) as [Eg|Eg].
      * exists (drop_name n es). rewrite Eg. split; [done|]. rewrite Eg, Ee in D4. injection D4 as <-. apply list_elem_of_filter. split; [|done].
        cbn. intros En. rewrite En in D5. by pose proof (NoDup_assoc _ _ _ _ Hnd D5 Hin).
      * exists es2. rewrite Edx; [done|]. by intros ?%list_elem_of_singleton.
    + destruct (decide (r = p_ino c)) as [Eg|Eg]; [by rewrite Eg, Edc|rewrite Edx; [done|by intros ?%list_elem_of_singleton]].
    + intros i Hi. destruct (E i Hi) as [?|Hg]; [by left|]. destruct (decide (i = p_ino c)) as [Eg|Eg]; [left; rewrite Eg; by left|].
      right. eapply good_ext; [|exact Hg]. apply Edx. by intros ?%list_elem_of_singleton.
    + by rewrite Enm.
    + intros x Hx. rewrite Edx; [by apply I'|]. intros ->%list_elem_of_singleton. apply Hx. rewrite <- G, app_comm_cons. apply elem_of_app. by left.
  - split; [done|]. split; [done|]. split; [done|]. split; [|split].
    + split; [by rewrite Es'|]. split; [by rewrite Eh'|]. exists (drop_name n es). split; [done|]. destruct Hsuf as [q ->].
      exists (drop_name n q). unfold drop_name. rewrite filter_app, filter_cons_False by naive_solver. f_equal. apply filter_all.
      rewrite fmap_app, fmap_cons in Hnd. apply NoDup_app in Hnd as (_ & _ & Hnd). apply NoDup_cons in Hnd as [Hnd _].
      apply Forall_forall. intros [m e] Hme Em. cbn in Em, Hnd. subst m. apply Hnd. by apply (list_elem_of_fmap_2 fst l (n, e)).
    + eapply represents_ext; [done| |done]. intros x Hx. apply Edf. apply elem_of_app. by left.
    + intros es2 m e. rewrite Edc. intros [= <-] [Hm Hme]%list_elem_of_filter. cbn in Hm.
      destruct (Hc es m e Ee Hme) as [[[= ? ?]|?]%elem_of_cons|[?|?]]; auto.
  - apply Forall_forall. intros p Hp. rewrite Forall_forall in HT. pose proof (HT p Hp) as Hw. eapply waiting_ext; [done|done|by rewrite Es'| |exact Hw].
    intros x [->|Hx]%elem_of_cons.
    + apply Edx. intros E%list_elem_of_singleton. apply NoDup_cons in Hn as [Hn _]. apply Hn. rewrite <- E. by apply list_elem_of_fmap_2.
    + apply Edf. apply elem_of_app. right. unfold dinos_all. apply list_elem_of_bind. by exists p.
Qed.

(** Opening the subdirectory that was read. *)
Lemma done_dir k c n j js s l T L : is_dots n = false -> at_work k c l [(n, EDir j)] (j :: dinos s) T L ->
  (exists es, dirs k !! p_ino c = Some es /\ (n, EDir j) :: l `suffix_of` es) ->
  dirs k !! j = Some js -> openable k j = true -> represents k s js -> all_open s ->
  exists sub sfd k', open_sub (p_fd c) n k = Some (Some sub, k') /\
    at_work k' c l [] [] ({| p_dir := sub; p_fd := sfd; p_ino := j; p_forest := s |} :: T)
      ({| g_dir := sub; g_fd := sfd; g_ino := j; g_name := n; g_pfd := p_fd c; g_parent := p_ino c |} :: L).
Proof.
  intros Hd [Ht (Hown & Hino & Ho & Hr & Hf & Hc) HT Hn Hn2] (es & Ee & Hsuf) Ej Hoj Hs Hos.
  assert (Hr' := Hr). destruct Hr' as (Es & Eh & es' & Ee' & _). assert (es' = es) as -> by congruence. clear Ee'.
  destruct (listing_ok _ _ _ Ee) as [Hnd Hnames].
  assert ((n, EDir j) ∈ es) as Hin by (destruct Hsuf as [q ->]; apply elem_of_app; right; by left).
  assert (SLASH ∉ n) as Hsl by (rewrite Forall_fmap, Forall_forall in Hnames; by apply (Hnames (n, EDir j))).
  destruct (open_sub_works k (p_fd c) (p_ino c) es n j js) as (sub & sfd & k' & E & Hk & Hnf & Hns & Eh' & Es' & Hrs); try done.
  exists sub, sfd, k'. split; [done|]. assert (Hk' := Hk). destruct Hk' as (Ed & Eo & _ & Enm).
  set (G := {| g_dir := sub; g_fd := sfd; g_ino := j; g_name := n; g_pfd := p_fd c; g_parent := p_ino c |}).
  assert (streams k' !! sub = Some (sfd, js)) as Esub by by rewrite Es', lookup_insert_eq.
  assert (inv k0 r (own (G :: L)) k') as Hi'.
  { assert (p_fd c ∈ (own L).*2) as Hfd by (apply list_elem_of_fmap; by exists (p_dir c, p_fd c)).
    destruct (wp_eval (open_sub (p_fd c) n) (fun sub k' => match sub with
      | None => inv k0 r (own L) k' | Some d => exists sfd, inv k0 r ((d, sfd) :: own L) k' end) k (Some sub) k') as (sfd' & Hi);
      [by apply open_sub_safe; first [apply Ht|done]|done|].
    destruct (inv_own _ _ _ _ sub sfd' Hi) as (l' & i' & El' & _); [by left|]. rewrite Esub in El'. injection El' as <- _. done. }
  assert (Hsub : forall x, x ∈ (own L).*1 -> x <> sub).
  { intros x ([d fd] & -> & Hin')%list_elem_of_fmap <-. destruct (inv_own _ _ _ _ d fd (t_inv _ _ _ _ Ht) Hin') as (l' & i' & El' & _).
    cbn in *. congruence. }
  assert (Hsfd : forall x i, handles k !! x = Some i -> handles k' !! x = Some i).
  { intros x i E1. rewrite Eh', lookup_insert_ne; [done|]. intros <-. congruence. }
  pose proof (t_nodup _ _ _ _ Ht) as Hnod. cbn [app] in Hnod.
  assert (j ∉ r :: (g_ino <$> L)) as Hj.
  { intros Hj. rewrite app_comm_cons in Hnod. apply NoDup_app in Hnod as (_ & Hd' & _). apply (Hd' j Hj). by left. }
  assert (Hcj : p_ino c <> j) by (intros E1; by rewrite E1 in Hino).
  assert (Hmono : forall x, x ∈ r :: (g_ino <$> L) -> x ∈ r :: (g_ino <$> G :: L)).
  { intros x [->|Hx]%elem_of_cons; [by left|]. by right; right. }
  assert (Hnew : forall i, i ∈ r :: (g_ino <$> L) -> newer (G :: L) i = G :: newer L i).
  { intros i Hi. cbn. rewrite decide_False; [done|]. by intros ->. }
  split.
  - destruct Ht as [A B C D R F P N O]. split; cbn [fmap list_fmap app g_ino G] in *.
    + done.
    + split; [done|]. split; [|by split]. apply list_elem_of_fmap. by exists (p_dir c, p_fd c).
    + by apply Hsfd.
    + constructor.
      * split; [by apply Hmono|]. split; [change (is_Some (dirs k' !! j)); by rewrite Ed, Ej|].
        split; [cbn; by rewrite Eh', lookup_insert_eq|]. split; [by apply Hsfd|]. split; [done|]. exists es. by rewrite Ed.
      * eapply Forall_impl; [exact D|]. intros g (P1 & P2 & D1 & D2 & D3 & D4). split; [by apply Hmono|]. split; [by rewrite Ed|].
        split; [by apply Hsfd|]. split; [by apply Hsfd|]. by rewrite Ed.
    + by rewrite Ed.
    + intros i Hi. destruct (decide (i = j)) as [->|Hij]; [left; right; by left|].
      assert (i ∈ r :: (g_ino <$> L)) as Hi2 by (apply elem_of_cons in Hi as [->|[->|Hi]%elem_of_cons]; [by left|done|by right]).
      destruct (F i Hi2) as [Hp|Hg]; [left; apply elem_of_cons in Hp as [->|Hp]; [by left|by right; right]|]. right.
      rewrite Hnew by done. eapply good_more; [eapply good_ext; [|exact Hg]; by rewrite Ed|]. intros g ?. by right.
    + rewrite <- P. apply perm_skip.
      change (j :: (g_ino <$> L) ++ dinos (p_forest c) ++ dinos s ++ dinos_all T ≡ₚ
              (g_ino <$> L) ++ j :: dinos s ++ dinos (p_forest c) ++ dinos_all T).
      rewrite <- Permutation_middle. apply perm_skip, Permutation_app_head. rewrite !(assoc_L (++)).
      apply Permutation_app_tail, Permutation_app_comm.
    + by rewrite Enm.
    + intros x Hx. rewrite Ed. by apply O.
  - split; [cbn; by right|]. split; [by apply Hmono|]. split; [done|].
    split; [|split; [by eapply represents_kept|]].
    + split; [rewrite Es', lookup_insert_ne; [done|]; intros E1; apply (Hsub (p_dir c)); [|done]; apply list_elem_of_fmap; by exists (p_dir c, p_fd c)|].
      split; [by apply Hsfd|]. exists es. rewrite Ed. split; [done|]. destruct Hsuf as [q ->]. exists (q ++ [(n, EDir j)]). by rewrite <- app_assoc.
    + intros es2 m e. rewrite Ed, Hnew by done. intros Ee2 Hme. destruct (Hc es2 m e Ee2 Hme) as [[[= -> ->]|?]%elem_of_cons|[?|(g & ? & ?)]]; auto.
      * right. right. exists G. by split; [left|].
      * right. right. exists g. by split; [right|].
  - constructor.
    + split; [by left|]. split; [by right; left|]. split; [cbn; by rewrite Eh', lookup_insert_eq|]. split; [done|].
      exists js. rewrite Ed. split; [done|]. split; [done|]. by eapply represents_kept.
    + eapply Forall_impl; [exact HT|]. intros p (A & B & C & D & ps & F & P & Q).
      split; [by right|]. split; [by apply Hmono|].
      split; [by apply Hsfd|]. split; [done|]. exists ps. rewrite Ed. split; [done|]. split; [|by eapply represents_kept].
      rewrite Es', lookup_insert_ne; [done|]. intros E1. apply (Hsub (p_dir p)); [|done]. apply list_elem_of_fmap. by exists (p_dir p, p_fd p).
  - cbn. apply NoDup_cons in Hn as [Hn Hn']. constructor; [by apply not_elem_of_cons|]. constructor; [|done].
    intros (p & Ep & Hp)%list_elem_of_fmap. rewrite Forall_forall in HT. destruct (HT p Hp) as (_ & Hpi & _). by rewrite <- Ep in Hpi.
  - cbn. assert (forall p, p ∈ T -> p_dir p <> sub) as Hps.
    { intros p Hp. rewrite Forall_forall in HT. destruct (HT p Hp) as (Hpo & _). apply Hsub, list_elem_of_fmap. by exists (p_dir p, p_fd p). }
    apply NoDup_cons in Hn2 as [Hn2 Hn2']. constructor; [apply not_elem_of_cons; split; [|done]|].
    + apply Hsub, list_elem_of_fmap. by exists (p_dir c, p_fd c).
    + constructor; [|done]. intros (p & Ep & Hp)%list_elem_of_fmap. by apply (Hps p Hp).
Qed.

(** The stream has ended. *)
Lemma done_reading k c T L : at_work k c [] [] [] T L -> tinv k (p_ino <$> T) (dinos (p_forest c) ++ dinos_all T) L.
Proof.
  intros [Ht (Hown & Hino & Ho & Hr & Hf & Hc) HT Hn Hn2]. destruct Ht as [A B C D R F P N O]. split; try done.
  intros i Hi. destruct (F i Hi) as [[->|?]%elem_of_cons|?]; [|by left|by right]. right. intros es n e Ee Hin.
  destruct (Hc es n e Ee Hin) as [[]%elem_of_nil|?]. done.
Qed.

(** ** The first loop *)

Definition cost_all (T : list pend) : nat := sum_list_with (fun p => cost (p_forest p)) T.

(** Between two directories. *)
Record between k (T : list pend) L (w : walk) : Prop := {
  b_travers : traversStack w = p_dir <$> T;
  b_remove : removeStack w = node_of <$> L;
  b_tinv : tinv k (p_ino <$> T) (dinos_all T) L;
  b_waiting : Forall (waiting k L) T;
  b_inos : NoDup (p_ino <$> T);
  b_dirs : NoDup (p_dir <$> T);
}.

Lemma remove_entries_spec f : forall fuel k c l T L w,
  p_forest c = f -> at_work k c l [] [] T L -> traversStack w = p_dir <$> T -> removeStack w = node_of <$> L -> (cost f <= fuel)%nat ->
  exists w' k' T' L', remove_entries fuel (p_dir c) (p_fd c) w k = Some (w', k') /\ between k' T' L' w' /\
    (cost_all T' < cost f + cost_all T)%nat.
Proof.
  induction f as [|n j f IH|n j f IH|n j f IH|n j s IHs f IH]; intros fuel k c l T L w Hcf Hw Ht1 Ht2 Hfuel;
    destruct (w_current _ _ _ _ _ _ _ Hw) as (Hown & Hino & Ho & Hr & Hf & _); rewrite Hcf in Ho, Hf; cbn [represents all_open] in Ho, Hf;
    (destruct fuel as [|fuel]; [cbn in Hfuel; lia|]); cbn [remove_entries].
  - subst l. exists w, k, T, L. run_call (readdir_end _ _ _ _ Hr). split; [done|]. split; [|cbn; lia].
    pose proof (done_reading _ _ _ _ Hw) as Hd. rewrite Hcf in Hd. split; try done; try apply Hw.
    + pose proof (w_inos _ _ _ _ _ _ _ Hw) as Hn. by apply NoDup_cons in Hn as [_ Hn].
    + pose proof (w_dirs _ _ _ _ _ _ _ Hw) as Hn. by apply NoDup_cons in Hn as [_ Hn].
  - destruct Hf as (Hd & e & l' & -> & Hf).
    destruct (read_one k c n e l' T L f [] Hw Ho Hf) as (k1 & E1 & Hk1 & Hw1); [by rewrite Hcf|].
    apply done_dots in Hw1; [|done]. run_call E1. cbn [d_name]. rewrite Hd.
    destruct (IH fuel k1 (with_forest c f) l' T L w eq_refl Hw1 Ht1 Ht2) as (w' & k' & T' & L' & E & Hb & Hc); [cbn in Hfuel; lia|].
    exists w', k', T', L'. split; [exact E|]. split; [done|cbn; lia].
  - destruct Hf as (Hd & l' & -> & Hf). destruct Hr as (_ & _ & es & Ee & Hsuf).
    destruct (read_one k c n (EFile j) l' T L f [] Hw Ho Hf) as (k1 & E1 & Hk1 & Hw1); [by rewrite Hcf|].
    destruct (done_file k1 (with_forest c f) n j l' T L Hd Hw1) as (k2 & E2 & Hw2); [exists es; cbn; by rewrite (proj1 Hk1)|].
    run_call E1. cbn [d_name d_is_dir is_dir]. rewrite Hd. cbn [with_forest p_fd] in E2. rewrite (st_bind_eq _ _ _ _ _ E2).
    destruct (IH fuel k2 (with_forest c f) l' T L w eq_refl Hw2 Ht1 Ht2) as (w' & k' & T' & L' & E & Hb & Hc); [cbn in Hfuel; lia|].
    exists w', k', T', L'. split; [exact E|]. split; [done|cbn; lia].
  - done.
  - destruct Hf as (Hd & Hoj & l' & js & -> & Hf & Ej & Hs). destruct Ho as [Hos Ho]. destruct Hr as (_ & _ & es & Ee & Hsuf).
    destruct (read_one k c n (EDir j) l' T L f (j :: dinos s) Hw Ho Hf) as (k1 & E1 & Hk1 & Hw1); [by rewrite Hcf|].
    assert (Hk1' := Hk1). destruct Hk1' as (Ed1 & Eo1 & _).
    destruct (done_dir k1 (with_forest c f) n j js s l' T L Hd Hw1) as (sub & sfd & k2 & E2 & Hw2);
      [exists es; cbn; by rewrite Ed1|by rewrite Ed1|by rewrite Eo1|by eapply represents_kept|done|].
    run_call E1. cbn [d_name d_is_dir is_dir]. rewrite Hd. cbn [with_forest p_fd p_ino] in E2, Hw2. rewrite (st_bind_eq _ _ _ _ _ E2).
    destruct (IH fuel k2 (with_forest c f) l' _ _ (push_walk {| dir := sub; nodeFd := p_fd c; name := n |} w) eq_refl Hw2)
      as (w' & k' & T' & L' & E & Hb & Hc); [cbn; by rewrite Ht1|cbn; by rewrite Ht2|cbn in Hfuel; lia|].
    exists w', k', T', L'. split; [exact E|]. split; [done|]. unfold cost_all in *. cbn in *. lia.
Qed.

Lemma remove_walk_spec fuel : forall k T L w, between k T L w -> (cost_all T < fuel)%nat ->
  exists w' k' L', remove_walk fuel w k = Some (w', k') /\ removeStack w' = node_of <$> L' /\ tinv k' [] [] L'.
Proof.
  induction fuel as [|fuel IH]; intros k T L w [Ht1 Ht2 Hi HT Hn Hn2] Hfuel; [lia|]. cbn [remove_walk]. rewrite Ht1.
  destruct T as [|p T]; [by exists w, k, L|]. cbn [fmap list_fmap] in *.
  apply Forall_cons in HT as [(Hown & Hino & Hh & Ho & es & Ee & Es & Hf) HT].
  run_get (dirfd_works _ _ _ _ Es). pose proof (handle_nonneg _ _ _ Hh). destruct (Z.ltb_spec (p_fd p) 0); [lia|].
  cbn [cost_all sum_list_with] in Hfuel. fold (cost_all T) in Hfuel.
  assert (at_work k p es [] [] T L) as Hw.
  { split; [exact Hi| |done|done|done]. split; [done|]. split; [done|]. split; [done|]. split; [|split; [done|]].
    - split; [done|]. split; [done|]. by exists es.
    - intros es' n e E Hin. left. cbn. congruence. }
  destruct (remove_entries_spec _ (S fuel) k p es T L {| w_ret := w_ret w; traversStack := p_dir <$> T; removeStack := removeStack w |} eq_refl Hw)
    as (w1 & k1 & T1 & L1 & E1 & Hb & Hc); [done|done|lia|].
  rewrite (st_bind_eq _ _ _ _ _ E1). apply (IH _ T1 L1); [done|lia].
Qed.

(** ** The second loop *)

(** The directories of [L] are left, each with the older ones only. *)
Record shrinking k L : Prop := {
  n_inv : inv k0 r (own L) k;
  n_stacked : stacked root (node_of <$> L) (own L);
  n_root : is_Some (dirs k !! r);
  n_linked : Forall (linked k L) L;
  n_settled : forall i, i ∈ r :: (g_ino <$> L) -> good k (newer L i) i;
  n_nodup : NoDup (r :: (g_ino <$> L));
  n_incl : forall x, x ∈ g_ino <$> L -> x ∈ dinos f0;
  n_gone : forall x, x ∈ dinos f0 -> x ∉ g_ino <$> L -> dirs k !! x = None;
  n_names : names k = names k0;
  n_out : forall x, x ∉ r :: dinos f0 -> dirs k !! x = dirs k0 !! x;
}.

Lemma shrinking_start k L : tinv k [] [] L -> shrinking k L.
Proof.
  intros Ht. pose proof (t_nodup _ _ _ _ Ht) as Hn. destruct Ht as [A B C D R E G N I]. rewrite app_nil_r in *. split; try done.
  - intros i Hi. destruct (E i Hi) as [[]%elem_of_nil|?]; done.
  - intros x Hx. apply Permutation_cons_inv in G. by rewrite <- G.
  - intros x Hx Hx2. apply Permutation_cons_inv in G. by rewrite <- G in Hx.
Qed.

Lemma newer_own g L : newer (g :: L) (g_ino g) = [].
Proof. cbn. by rewrite decide_True. Qed.
Lemma newer_other g L i : g_ino g <> i -> newer (g :: L) i = g :: newer L i.
Proof. intros Hi. cbn. by rewrite decide_False. Qed.

Lemma good_nil k i js : good k [] i -> dirs k !! i = Some js -> empty_listing js.
Proof.
  intros Hg E. apply Forall_forall. intros [n e] Hin. destruct (Hg js n e E Hin) as [?|(g & []%elem_of_nil & _)]; done.
Qed.

(** Closing and removing the newest directory. *)
Lemma remove_node k g L : shrinking k (g :: L) ->
  exists k', unlinkat (g_pfd g) (g_name g) true (closedir (g_dir g) k) = (true, k') /\ shrinking k' L.
Proof.
  intros [Hi Hst Hroot Hl Hset Hnd Hincl Hgone Hnames0 Hout]. apply Forall_cons in Hl as [(P1 & (js & Ej) & H1' & H2' & Hd & es & Ee & Hin) Hl].
  change (own (g :: L)) with ((g_dir g, g_fd g) :: own L) in *. pose proof (proj2 (opened_nodup _ _ _ _ (proj2 Hi))) as Hfds.
  cbn in Hst. destruct Hst as (_ & Hpfd & Hsl & Hst). rewrite fmap_cons, NoDup_cons in Hfds. destruct Hfds as [Hfd Hfds]. cbn [snd] in Hfd.
  destruct (inv_own _ _ _ _ (g_dir g) (g_fd g) Hi) as (l & i & Es & _); [by left|].
  pose proof (closedir_safe _ _ _ _ _ _ Hi) as Hi1. destruct (closedir_spec _ _ _ _ Es) as ((Ed & Eo & _ & Enm1) & Eh & _).
  set (k1 := closedir (g_dir g) k) in *.
  assert (Hh : forall x j, x ∈ (own L).*2 -> handles k !! x = Some j -> handles k1 !! x = Some j).
  { intros x j Hx Ex. rewrite Eh, lookup_delete_ne; [done|]. by intros <-. }
  assert (g_ino g <> r /\ g_ino g ∉ g_ino <$> L /\ NoDup (r :: (g_ino <$> L))) as (Hgr & HgL & Hnd').
  { cbn in Hnd. apply NoDup_cons in Hnd as [Hr Hnd]. apply not_elem_of_cons in Hr as [Hr Hr']. apply NoDup_cons in Hnd as [Hg Hnd].
    split; [done|]. split; [done|]. by constructor. }
  pose proof (Hset (g_ino g)) as Hempty. rewrite newer_own in Hempty.
  assert (empty_listing js) as Hjs by (eapply good_nil; [apply Hempty; right; by left|done]).
  assert (Hpg : g_parent g <> g_ino g).
  { intros E. rewrite E in Ee. assert (js = es) as -> by congruence. unfold empty_listing in Hjs. rewrite Forall_forall in Hjs.
    specialize (Hjs _ Hin). cbn in Hjs. congruence. }
  assert (handles k1 !! g_pfd g = Some (g_parent g)) as Hp1 by by apply Hh.
  assert (dirs k1 !! g_parent g = Some es) as Ee1 by by rewrite Ed.
  pose proof (unlinkat_works _ (g_name g) _ _ (EDir (g_ino g)) _ Hp1 Ee1 Hin Hd) as Hu. cbn in Hu.
  specialize (Hu ltac:(exists js; split; [by rewrite Ed|done])).
  destruct (unlinkat (g_pfd g) (g_name g) true k1) as [b k2] eqn:EU. cbn in Hu. subst b. exists k2. split; [done|].
  pose proof (unlinkat_spec _ (g_name g) true _ _ Hp1 Hsl) as Hu. rewrite EU in Hu.
  destruct Hu as ((_ & Enm2) & Eh2 & _ & _ & es1 & e1 & Ee' & Hin1 & _ & Ed2 & _). assert (es1 = es) as -> by congruence.
  destruct (listing_ok _ _ _ Ee) as [Hnames _]. rewrite (NoDup_assoc _ _ _ _ Hnames Hin1 Hin) in Ed2. clear Hin1 e1. rewrite Ed in Ed2.
  assert (inv k0 r (own L) k2) as Hi2.
  { eapply (wp_eval (st_call (unlinkat (g_pfd g) (g_name g) true)) (fun _ k' => inv k0 r (own L) k') k1);
      [by apply (unlinkat_safe k0 r (own L))|by apply st_call_eq]. }
  assert (Edx : forall x, x <> g_ino g -> x <> g_parent g -> dirs k2 !! x = dirs k !! x).
  { intros x Hx1 Hx2. rewrite Ed2, lookup_delete_ne, lookup_insert_ne; done. }
  assert (Edp : dirs k2 !! g_parent g = Some (drop_name (g_name g) es)).
  { rewrite Ed2, lookup_delete_ne, lookup_insert_eq; done. }
  assert (Hpin : g_parent g ∈ r :: (g_ino <$> L)).
  { cbn in P1. apply elem_of_cons in P1 as [->|[?|?]%elem_of_cons]; [by left|done|by right]. }
  assert (Hsome : forall x, x <> g_ino g -> is_Some (dirs k !! x) -> is_Some (dirs k2 !! x)).
  { intros x Hx Hs. destruct (decide (x = g_parent g)) as [->|Hxp]; [by rewrite Edp|by rewrite Edx]. }
  split; try done.
  - by apply Hsome.
  - rewrite Forall_forall in Hl |- *. intros g2 Hg2. destruct (Hl g2 Hg2) as (Q1 & Q2 & Q3 & Q4 & Q5 & es2 & Q6 & Q7).
    assert (g_ino g2 <> g_ino g) as Hne by (intros E; apply HgL; rewrite <- E; by apply list_elem_of_fmap_2).
    assert (g_parent g2 <> g_ino g) as Hne2.
    { intros E. rewrite E in Q6. assert (js = es2) as -> by congruence. unfold empty_listing in Hjs. rewrite Forall_forall in Hjs.
      specialize (Hjs _ Q7). cbn in Hjs. congruence. }
    split; [cbn in Q1; apply elem_of_cons in Q1 as [->|[?|?]%elem_of_cons]; [by left|done|by right]|].
    split; [by apply Hsome|]. rewrite Eh2. split; [|split; [|split; [done|]]].
    + apply Hh; [|done]. unfold own. rewrite fmap_app. apply elem_of_app. left. rewrite <- list_fmap_compose.
      by apply (list_elem_of_fmap_2 (fun g => g_fd g) L g2).
    + apply Hh; [|done]. clear -Hst Hg2. revert Hg2 Hst. induction L as [|g L IH]; [by intros ?%elem_of_nil|].
      change (own (g :: L)) with ((g_dir g, g_fd g) :: own L). cbn. intros [->|Hg2]%elem_of_cons (_ & Hpf & _ & Hst); [by right|right; by apply IH].
    + destruct (decide (g_parent g2 = g_parent g)) as [E|E].
      * exists (drop_name (g_name g) es). rewrite E. split; [done|]. rewrite E in Q6. assert (es2 = es) as -> by congruence.
        apply list_elem_of_filter. split; [|done]. cbn. intros En. rewrite En in Q7.
        pose proof (NoDup_assoc _ _ _ _ Hnames Q7 Hin) as [= Ei]. done.
      * exists es2. by rewrite Edx.
  - clear i Es. intros i Hir. assert (i <> g_ino g) as Hig by (by intros ->; apply elem_of_cons in Hir as [?|?]).
    assert (i ∈ r :: (g_ino <$> g :: L)) as Hir' by (apply elem_of_cons in Hir as [->|?]; [by left|by right; right]).
    pose proof (Hset i Hir') as Hg. rewrite newer_other in Hg by done. intros es2 m e Ei Hm.
    destruct (decide (i = g_parent g)) as [->|Hip].
    + rewrite Edp in Ei. injection Ei as <-. apply list_elem_of_filter in Hm as [Hmn Hm]. cbn in Hmn.
      destruct (Hg es m e Ee Hm) as [?|(g' & [->|Hg']%elem_of_cons & -> & Hgp & Hgn)]; [by left|congruence|]. right. by exists g'.
    + rewrite Edx in Ei by done.
      destruct (Hg es2 m e Ei Hm) as [?|(g' & [->|Hg']%elem_of_cons & -> & Hgp & Hgn)]; [by left|congruence|]. right. by exists g'.
  - intros x Hx. apply Hincl. by right.
  - intros x Hx Hx2. destruct (decide (x = g_ino g)) as [->|Hxg]; [by rewrite Ed2, lookup_delete_eq|].
    assert (x <> g_parent g) as Hxp.
    { intros ->. apply elem_of_cons in Hpin as [E|?]; [|done]. rewrite E in Hx. by apply NoDup_cons in Hnodup as [? _]. }
    rewrite Edx by done. apply Hgone; [done|]. cbn. by apply not_elem_of_cons.
  - by rewrite Enm2, Enm1.
  - intros x Hx. rewrite Edx; [by apply Hout| |].
    + intros ->. apply Hx. right. apply Hincl. by left.
    + intros ->. apply Hx. apply elem_of_cons in Hpin as [->|Hp]; [by left|right]. apply Hincl. by right.
Qed.

Lemma remove_nodes_spec L : forall k, shrinking k L -> exists k', remove_nodes (node_of <$> L) k = Some (tt, k') /\ shrinking k' [].
Proof.
  induction L as [|g L IH]; intros k Hk; [by exists k|]. destruct (remove_node _ _ _ Hk) as (k1 & E & Hk1).
  destruct (IH k1 Hk1) as (k' & E' & Hk'). exists k'. split; [|done]. rewrite fmap_cons. cbn [remove_nodes node_of dir nodeFd name].
  unfold do_closedir. rewrite (st_bind_eq (st_put _) _ k tt (closedir (g_dir g) k)) by done. by run_call E.
Qed.
End emptying.
