(* ===== verification/DirectoryProps.v ===== *)
(** * What the directory functions do

    The theorems about listing, disk usage, creation and removal. *)

From S2P Require Import Prelude StringEx StringInv DirectoryEx DirectoryInv DirectoryWalk DirectoryRemove DirectoryEmpty.

(** ** Paths *)

(** A path is its directory part followed by its file part; the file part
    has no delimiter and the directory part is empty or ends in one. Adding
    the delimiter to a path without one and taking it away again gives the
    path back, and adding it twice is adding it once. *)
Theorem path_splits (p : list Z) : zlen p < 2 ^ 31 - 1 ->
  ExtractFilePath p ++ ExtractFileName p = p /\ SLASH ∉ ExtractFileName p /\
  (ExtractFilePath p = [] \/ last (ExtractFilePath p) = Some SLASH) /\
  last (IncludeTrailingPathDelimiter p) = Some SLASH /\
  IncludeTrailingPathDelimiter (IncludeTrailingPathDelimiter p) = IncludeTrailingPathDelimiter p /\
  (last p <> Some SLASH -> ExcludeTrailingPathDelimiter (IncludeTrailingPathDelimiter p) = p).
Proof.
  intros Hp. pose proof (Include_cases p ltac:(lia)) as Ei.
  assert (zlen (IncludeTrailingPathDelimiter p) < 2 ^ 31) as Hi.
  { rewrite Ei. case_decide; [lia|]. rewrite zlen_app. change (zlen [SLASH]) with 1. lia. }
  assert (last (IncludeTrailingPathDelimiter p) = Some SLASH) as Hl.
  { rewrite Ei. case_decide; [done|]. apply last_snoc. }
  enough ((ExtractFilePath p ++ ExtractFileName p = p /\ SLASH ∉ ExtractFileName p /\
    (ExtractFilePath p = [] \/ last (ExtractFilePath p) = Some SLASH)) /\
    IncludeTrailingPathDelimiter (IncludeTrailingPathDelimiter p) = IncludeTrailingPathDelimiter p /\
    (last p <> Some SLASH -> ExcludeTrailingPathDelimiter (IncludeTrailingPathDelimiter p) = p)) by tauto.
  split; [|split].
  - destruct (last_cut SLASH p) as [Hn|(a & b & -> & Hb)].
    + destruct (Extract_plain _ Hn) as [-> ->]. split_and!; [done|done|by left].
    + rewrite zlen_app in Hp. pose proof (zlen_nonneg (SLASH :: b)). destruct (Extract_split a b Hb ltac:(lia)) as [-> ->].
      split_and!; [by rewrite <- (assoc_L (++))|done|right; apply last_snoc].
  - rewrite (Include_cases (IncludeTrailingPathDelimiter p)) by lia. by rewrite decide_True.
  - intros Hn. rewrite Exclude_cases by done. rewrite Hl. cbn. rewrite Ei, decide_False by done. apply removelast_last.
Qed.

Lemma path_splits_witness :
  let p := [47; 97; 47; 98; 46; 99] in
  ExtractFilePath p ++ ExtractFileName p = p /\ ExtractFilePath p = [47; 97; 47] /\ ExtractFileExt p = [99].
Proof.
  assert (zlen [47; 97; 47; 98; 46; 99] < 2 ^ 31 - 1) as Hp by (vm_compute; reflexivity).
  split; [exact (proj1 (path_splits _ Hp))|]. split; reflexivity.
Defined.

(** A character that is not in the front part is found behind it, or not at all. *)
Lemma find_char c a b : c ∉ a -> find a [c] 0 = None /\ find (a ++ c :: b) [c] 0 = Some (zlen a).
Proof.
  intros Ha. unfold find. pose proof (zlen_nonneg a). pose proof (zlen_nonneg (a ++ c :: b)).
  rewrite !(proj2 (Z.ltb_ge _ 0)), !zdrop_0 by lia.
  enough (forall i, find_from [c] a i = None /\ find_from [c] (a ++ c :: b) i = Some (i + zlen a)) as He by apply (He 0).
  induction a as [|x a IH]; intros i; cbn.
  - rewrite Z.eqb_refl. change (zlen []) with 0. by rewrite Z.add_0_r.
  - apply not_elem_of_cons in Ha as [Hx Ha]. rewrite (proj2 (Z.eqb_neq c x)) by done. cbn. rewrite zlen_cons.
    destruct (IH Ha (zlen_nonneg _) (zlen_nonneg _) (i + 1)) as [-> ->]. split; [done|]. f_equal. lia.
Qed.

(** The name up to its first dot, not its last, with the suffix of the platform. *)
Theorem TransformFileName_replaces os (a b : list Z) : DOT ∉ a -> zlen a < 2 ^ 63 ->
  exists suffix, TransformFileName os a = a ++ DOT :: suffix /\ TransformFileName os (a ++ DOT :: b) = a ++ DOT :: suffix.
Proof.
  intros Ha Hl. exists (match os with WIN32 => [100; 108; 108] | IOS_PLATFORM => [100; 121; 108; 105; 98] end).
  unfold TransformFileName. destruct (find_char DOT a b Ha) as [-> ->]. split; [done|]. pose proof (zlen_nonneg a).
  rewrite u64_id by lia. unfold substr. rewrite zdrop_0 by lia. replace (zlen a + 1) with (zlen (a ++ [DOT])) by (rewrite zlen_app; done).
  rewrite (cons_middle DOT a b), (assoc_L (++)), ztake_app_exact. by rewrite <- (assoc_L (++)).
Qed.

Lemma TransformFileName_replaces_witness :
  exists suffix, TransformFileName WIN32 [97] = [97] ++ DOT :: suffix /\ TransformFileName WIN32 ([97] ++ DOT :: [115; 111]) = [97] ++ DOT :: suffix.
Proof. apply (TransformFileName_replaces WIN32 [97] [115; 111]); [apply (bool_decide_unpack _); vm_compute; exact I|vm_compute; reflexivity]. Defined.

(** ** Listing and disk usage *)

Section walks.
Context {K : Type} `{DirReliable K}.

Lemma opendir_reads path i es (k : K) :
  resolve k path = Some i -> openable k i = true -> dirs k !! i = Some es ->
  exists d fd k', opendir path k = (Some d, k') /\ kept k k' /\ handles k !! fd = None /\ streams k !! d = None /\
    handles k' = <[fd := i]> (handles k) /\ streams k' = <[d := (fd, es)]> (streams k) /\ reading k' d fd i es.
Proof.
  intros Hres Hop Ee. destruct (opendir_works path i k Hres Hop ltac:(by rewrite Ee)) as [d Ed].
  pose proof (opendir_spec path k) as Ho. destruct (opendir path k) as [x k'] eqn:E. cbn in Ed. subst x.
  destruct Ho as (fd & i' & es' & Hres' & Ee' & Hfd & Hnh & Hns & Hk & Eh & Es). simplify_eq.
  exists d, fd, k'. split_and!; try done. assert (Hk' := Hk). destruct Hk' as (Edk & _).
  split; [by rewrite Es, lookup_insert_eq|]. split; [by rewrite Eh, lookup_insert_eq|]. exists es. by rewrite Edk.
Qed.

(** C32: [GetDirFiles] lists exactly the files of the tree below the path, in
    the order of a recursive walk, each under the path that leads to it, after
    the names the vector had; it ends when as many entries were read as the
    tree has, closes every stream it opened and changes nothing. *)
Theorem GetDirFiles_lists_the_tree (path : list Z) i es f (k : K) fuel files :
  resolve k path = Some i -> openable k i = true -> dirs k !! i = Some es -> represents k f es ->
  let p := ExcludeTrailingPathDelimiter path in
  last p <> Some SLASH -> short (zlen p) f -> (cost f < fuel)%nat ->
  exists k', GetDirFiles fuel path files k = Some (files ++ files_of p f, k') /\ same k k'.
Proof.
  intros Hres Hop Ee Hf p Hp Hl Hfuel. destruct (opendir_reads _ _ _ _ Hres Hop Ee) as (d & fd & k1 & E1 & Hk1 & Hnh & Hns & Eh & Es & Hr).
  destruct (GetDirFiles_loop_spec f k1 d fd i es p [] files (fuel - cost f)) as (k2 & Ha & E2); [done|by eapply represents_kept|done|done|].
  exists (closedir d k2). split; [|by eapply closedir_undoes]. unfold GetDirFiles. run_call E1. fold p.
  replace fuel with (cost f + (fuel - cost f))%nat at 1 by lia. rewrite E2. by destruct (fuel - cost f)%nat eqn:?; [lia|].
Qed.

(** [GetFolderDiskUsage] counts every inode of the tree once, however many
    names it has: the result is the sum of the blocks of the root, of the
    directories and of the files, modulo 2^64. It needs that device and inode
    number tell the files apart, and that a file with one link has one name. *)
Theorem GetFolderDiskUsage_counts_once (path : list Z) i es f (k : K) rootFd k1 fuel :
  lstat path k = Some (attr k i) -> S_ISDIR (st_mode (attr k i)) = true ->
  open_path path dir_flags k = (rootFd, k1) -> 0 <= rootFd -> kept k k1 -> handles k !! rootFd = None ->
  handles k1 = <[rootFd := i]> (handles k) -> streams k1 = streams k ->
  dirs k !! i = Some es -> represents k f es ->
  (forall a b, a ∈ i :: inodes f -> b ∈ i :: inodes f -> file_id (attr k a) = file_id (attr k b) -> a = b) ->
  NoDup (filter (fun a => hard_linked (attr k a) = false) (i :: inodes f)) -> (cost f < fuel)%nat ->
  exists l k', GetFolderDiskUsage fuel path k = Some (u64 (total k l), k') /\ same k k' /\
    NoDup l /\ forall a, a ∈ l <-> a ∈ i :: inodes f.
Proof.
  intros Est Edir E1 Hfd Hk1 Hnh Eh1 Es1 Ee Hf Hid Hnd Hfuel. assert (Hk1' := Hk1). destruct Hk1' as (Ed1 & _).
  assert (handles k1 !! rootFd = Some i) as Eh1' by by rewrite Eh1, lookup_insert_eq.
  destruct (fdopendir_works rootFd i k1 Eh1') as [d Ed]. pose proof (fdopendir_spec rootFd i k1 Eh1') as Hd.
  destruct (fdopendir rootFd k1) as [x k2] eqn:E2. cbn in Ed. subst x. destruct Hd as (Hns & Hk2 & Eh2 & Es2).
  assert (Hk2' := Hk2). destruct Hk2' as (Ed2 & _). rewrite Ed1, Ee in Es2. cbn in Es2.
  assert (kept k k2) as Hk by by eapply kept_trans.
  assert (reading k2 d rootFd i es) as Hr.
  { split; [by rewrite Es2, lookup_insert_eq|]. split; [by rewrite Eh2|]. exists es. by rewrite Ed2, Ed1. }
  set (u0 := {| visited := ∅; totalSize := 0 |} : usage).
  destruct (Traverse_loop_spec f k2 d rootFd i es [] (count_inode k u0 i) (fuel - cost f)) as (k3 & Ha & E3); [done|by eapply represents_kept|].
  destruct (count_all k (i :: inodes f) [] u0) as (l & (Hl1 & Hl2 & _) & Hl3);
    [|exact Hid|exact Hnd|].
  { split; [constructor|]. split; [done|]. intros id. split; [by intros ?%elem_of_empty|]. by intros (x & []%elem_of_nil & _). }
  exists l, (closedir d k3). split; [|split; [|done]].
  - unfold GetFolderDiskUsage. run_get Est. rewrite Edir. cbn [negb]. run_call E1. destruct (Z.ltb_spec rootFd 0); [lia|]. run_call E2.
    change (TraverseDirectoryDiskUsage fuel d (attr k i)) with (TraverseDirectoryDiskUsage_loop fuel [d] (count_inode k u0 i)).
    replace fuel with (cost f + (fuel - cost f))%nat at 1 by lia. rewrite E3.
    destruct (fuel - cost f)%nat eqn:?; [lia|]. cbn. rewrite (foldl_count_kept k k2) by done. by rewrite <- Hl2.
  - eapply (closedir_undoes k k2 k3 d rootFd i es); [done|by rewrite <- Es1|done|congruence|by rewrite Es2, Es1|done].
Qed.
End walks.

(** ** Creation *)

(** The prefixes of a path that end before a delimiter, the first character
    apart, and the path. *)
Fixpoint prefixes_from (pre rest : list Z) : list (list Z) :=
  match rest with
  | [] => [pre]
  | c :: rest => if c =? SLASH then pre :: prefixes_from (pre ++ [c]) rest else prefixes_from (pre ++ [c]) rest
  end.
Definition prefixes (path : list Z) : list (list Z) :=
  match path with [] => [[]] | c :: rest => prefixes_from [c] rest end.

Lemma prefixes_cut rest pre :
  match find_from [SLASH] rest 0 with
  | None => prefixes_from pre rest = [pre ++ rest]
  | Some p => 0 <= p < zlen rest /\
      prefixes_from pre rest = (pre ++ ztake p rest) :: prefixes_from (pre ++ ztake (p + 1) rest) (zdrop (p + 1) rest)
  end.
Proof.
  revert pre. induction rest as [|c rest IH]; intros pre; cbn [find_from starts_with]; [by rewrite app_nil_r|].
  rewrite andb_true_r. rewrite zlen_cons. pose proof (zlen_nonneg rest). cbn [prefixes_from].
  rewrite (Z.eqb_sym c SLASH). destruct (Z.eqb_spec SLASH c) as [<-|Hc].
  - split; [lia|]. rewrite ztake_0, app_nil_r by lia. done.
  - specialize (IH (pre ++ [c])). rewrite (find_from_shift [SLASH] rest 0 1 : find_from [SLASH] rest (0 + 1) = _).
    destruct (find_from [SLASH] rest 0) as [p|]; cbn.
    + destruct IH as [Hp IH]. split; [lia|]. rewrite IH.
      assert (forall n, 0 <= n -> ztake (1 + n) (c :: rest) = c :: ztake n rest /\ zdrop (1 + n) (c :: rest) = zdrop n rest) as Hn.
      { intros n Hn. unfold ztake, zdrop. by replace (Z.to_nat (1 + n)) with (S (Z.to_nat n)) by lia. }
      destruct (Hn p) as [-> _]; [lia|]. replace (1 + p + 1) with (1 + (p + 1)) by lia. destruct (Hn (p + 1)) as [-> ->]; [lia|].
      by rewrite <- !(assoc_L (++)).
    + by rewrite IH, <- (assoc_L (++)).
Qed.

Section creation.
Context {K : Type} `{DirOS K}.

(** The loop over the prefixes: each in turn, up to the first that cannot be
    created. *)
Fixpoint create_all (ps : list (list Z)) (path : list Z) : ST K bool :=
  match ps with
  | [] => st_get (access path)
  | p :: ps => r ← create_one p; match r with Some b => mret b | None => create_all ps path end
  end.

Lemma st_bind_ext {A B} (m : ST K A) (f g : A -> ST K B) k : (forall a k', f a k' = g a k') -> (m ≫= f) k = (m ≫= g) k.
Proof. intros Hf. unfold mbind, st_bind. destruct (m k) as [[a k']|]; [apply Hf|done]. Qed.

Lemma ForceCreateDirectory_loop_spec fuel : forall pre rest k, (length rest < fuel)%nat ->
  ForceCreateDirectory_loop fuel (pre ++ rest) (zlen pre - 1) k = create_all (prefixes_from pre rest) (pre ++ rest) k.
Proof.
  induction fuel as [|fuel IH]; intros pre rest k Hfuel; [lia|]. cbn [ForceCreateDirectory_loop].
  replace (zlen pre - 1 + 1) with (zlen pre) by lia. rewrite find_app. unfold find. pose proof (zlen_nonneg rest). pose proof (zlen_nonneg pre).
  destruct (Z.ltb_spec (zlen rest) 0); [lia|]. rewrite zdrop_0 by lia. pose proof (prefixes_cut rest pre) as Hc.
  destruct (find_from [SLASH] rest 0) as [p|]; cbn [fmap option_fmap option_map].
  - destruct Hc as [Hp ->]. cbn [create_all]. unfold substr. rewrite zdrop_0 by lia. rewrite ztake_app_r by lia.
    replace (zlen pre + p - zlen pre) with p by lia. apply st_bind_ext. intros [b|] k'; [done|].
    assert (zlen (ztake (p + 1) rest) = p + 1) as Hz by (apply zlen_take; lia).
    specialize (IH (pre ++ ztake (p + 1) rest) (zdrop (p + 1) rest) k').
    rewrite zlen_app, Hz, <- (assoc_L (++)), ztake_drop in IH. replace (zlen pre + (p + 1) - 1) with (zlen pre + p) in IH by lia.
    apply IH. unfold zdrop. rewrite length_drop. unfold zlen in *. lia.
  - rewrite Hc. cbn [create_all]. apply st_bind_ext. by intros [b|] k'.
Qed.

(** [mkdir -p]: what is asked of the kernel for the rest of the prefixes, and
    how it ends. The mode is rwxr-xr-x. *)
Inductive mkdir_p (path : list Z) : list (list Z) -> K -> bool -> K -> Prop :=
| mkdir_p_end k : mkdir_p path [] k (access path k) k
| mkdir_p_there p ps k b k' :
    access p k = true -> mkdir_p path ps k b k' -> mkdir_p path (p :: ps) k b k'
| mkdir_p_made p ps k k1 b k' :
    access p k = false -> mkdir p 493 k = (0, k1) -> mkdir_p path ps k1 b k' -> mkdir_p path (p :: ps) k b k'
| mkdir_p_overtaken p ps k k1 b k' :
    access p k = false -> mkdir p 493 k = (EEXIST, k1) -> mkdir_p path ps k1 b k' -> mkdir_p path (p :: ps) k b k'
| mkdir_p_refused p ps k e k1 :
    access p k = false -> mkdir p 493 k = (e, k1) -> e <> 0 -> e <> EEXIST -> mkdir_p path (p :: ps) k false k1.

Lemma create_all_mkdir_p ps path k : exists b k', create_all ps path k = Some (b, k') /\ mkdir_p path ps k b k'.
Proof.
  revert k. induction ps as [|p ps IH]; intros k; [by do 2 eexists; split; [|constructor]|].
  cbn [create_all]. unfold create_one, mbind, st_bind, st_get, st_call, mret, st_ret.
  destruct (access p k) eqn:Ea.
  - destruct (IH k) as (b & k' & E & Hm). exists b, k'. split; [exact E|]. by constructor.
  - change DIR_MODE with 493. destruct (mkdir p 493 k) as [e k1] eqn:Em.
    destruct (IH k1) as (b & k' & E & Hm). destruct (Z.eqb_spec e 0) as [->|He]; [exists b, k'; split; [exact E|]; by eapply mkdir_p_made|].
    destruct (Z.eqb_spec e EEXIST) as [->|He2]; [exists b, k'; split; [exact E|]; by eapply mkdir_p_overtaken|].
    exists false, k1. split; [done|]. by eapply mkdir_p_refused.
Qed.

Lemma mkdir_p_true path ps k k' : mkdir_p path ps k true k' -> access path k' = true.
Proof. intros Hm. remember true as b eqn:Eb. induction Hm; subst; auto; done. Qed.

(** C33: [ForceCreateDirectory] ends, and it is [mkdir -p]: it goes through the
    prefixes of the path that end at a delimiter, shortest first, and then the
    path. One that exists is passed over, another is made with the mode
    rwxr-xr-x; that somebody else has made it by then is no failure, but any
    other error ends the loop with [false]. Otherwise the result is whether the
    path exists in the end. *)
Theorem ForceCreateDirectory_is_mkdir_p (path : list Z) (k : K) :
  exists b k', ForceCreateDirectory path k = Some (b, k') /\ mkdir_p path (prefixes path) k b k' /\
    (b = true -> access path k' = true).
Proof.
  assert (ForceCreateDirectory path k = create_all (prefixes path) path k) as E.
  { unfold ForceCreateDirectory. destruct path as [|c rest].
    - cbn. apply st_bind_ext. by intros [b|] k'.
    - apply (ForceCreateDirectory_loop_spec _ [c] rest). cbn. lia. }
  rewrite E. destruct (create_all_mkdir_p (prefixes path) path k) as (b & k' & E' & Hm). exists b, k'.
  split; [done|]. split; [done|]. intros ->. by eapply mkdir_p_true.
Qed.
End creation.

(** ** Removal *)

Section removal.
Context {K : Type} `{DirLaws K}.

(** C30: Whatever fails while the content of a directory is removed, nothing is
    touched outside of it: only the directory [r] that the path leads to and
    the directories below it lose entries, and every stream and descriptor the
    function opened is closed again. A directory counts as below only through
    entries that are directories: one that a symbolic link leads to is outside,
    even when [readdir] has called the link a directory. The path itself may be
    a link, which [opendir] follows. This is the state before the path itself
    is removed. *)
Theorem removal_stays_below_the_root fuel (path : list Z) r (k : K) d k1 :
  resolve k path = Some r -> opendir path k = (Some d, k1) ->
  let cleared k' := handles k' = handles k /\ streams k' = streams k /\ shrunk k r k' in
  wlp (w ← remove_walk fuel {| w_ret := true; traversStack := [d]; removeStack := [] |};
       remove_nodes (removeStack w);; do_closedir d) (fun _ k' => cleared k') k1 /\
  wlp (ForceRemoveDirectoryInternal fuel d;; do_closedir d) (fun _ k' => cleared k') k1.
Proof.
  intros Hres E cleared. destruct (opendir_safe k r path k d k1 E Hres eq_refl) as (fd & Hi).
  assert (forall k', inv k r [(d, fd)] k' -> cleared (closedir d k')) as Hclose.
  { intros k' Hi'. apply closedir_safe in Hi' as [Hs [_ _ C D]]. split; [|split; [|done]]; apply map_eq; intros x; [apply D|apply C]; by apply not_elem_of_nil. }
  split.
  - apply wlp_bind. eapply wlp_mono.
    { eapply (remove_walk_safe k r fuel (d, fd) k1). exists [(d, fd)]. split; [done|]. split; [done|]. repeat constructor. }
    cbn beta. intros w k2 (own & Hi2 & Hst & _). eapply wlp_step; [by eapply remove_nodes_safe|]. cbn beta. intros _ k3 Hi3.
    unfold do_closedir. apply Hclose. done.
  - unfold ForceRemoveDirectoryInternal. apply wlp_bind. apply wlp_get.
    destruct (inv_own _ _ _ _ d fd Hi) as (l & i & Es & _); [by left|].
    assert (wlp (if dirfd d k1 <? 0 then mret false else ForceRemoveDirectoryInternal_loop fuel d (dirfd d k1) true)
      (fun _ k' => inv k r [(d, fd)] k') k1) as Hw.
    { destruct (Z.ltb_spec (dirfd d k1) 0); [done|]. destruct (dirfd_spec _ _ _ _ Es) as [->|]; [|lia].
      apply internal_loop_safe; [done|by left]. }
    eapply wlp_mono; [exact Hw|]. cbn beta. intros b k2 Hi2. unfold do_closedir. by apply Hclose.
Qed.
End removal.

Section emptying.
Context {K : Type} `{DirRemovable K}.

(** The path leads to the directory from outside of it, through the name [n]
    in the directory [i]. *)
Definition leads_to (k : K) (path : list Z) (r i : Z) (n : list Z) (f : forest) : Prop :=
  i ∉ r :: dinos f /\
  forall k', names k' = names k -> (forall x, x ∉ r :: dinos f -> dirs k' !! x = dirs k !! x) -> is_Some (dirs k' !! r) ->
    located k' path = Some (i, n) /\ resolve k' path = Some r.

(** The root is open and the traversal is about to begin. *)
Lemma removal_starts (path : list Z) r es f (k : K) :
  resolve k path = Some r -> openable k r = true -> dirs k !! r = Some es -> represents k f es -> all_open f -> NoDup (r :: dinos f) ->
  exists d fd k1, opendir path k = (Some d, k1) /\ names k1 = names k /\
    between k r (d, fd) f k1 [{| p_dir := d; p_fd := fd; p_ino := r; p_forest := f |}] []
      {| w_ret := true; traversStack := [d]; removeStack := [] |}.
Proof.
  intros Hres Hop Ee Hf Ho Hnd.
  destruct (opendir_reads _ _ _ _ Hres Hop Ee) as (d & fd & k1 & E1 & Hk1 & Hnh & Hns & Eh1 & Es1 & Hr).
  destruct (opendir_safe k r path k d k1 E1 Hres eq_refl) as (fd' & Hinv).
  assert (fd' = fd) as ->.
  { destruct (inv_own _ _ _ _ d fd' Hinv) as (l & ? & El & _); [by left|]. rewrite Es1, lookup_insert_eq in El. by injection El. }
  assert (Hk1' := Hk1). destruct Hk1' as (Ed1 & _ & _ & Enm1).
  exists d, fd, k1. split; [exact E1|]. split; [exact Enm1|].
  split; [done|done| | |apply NoDup_singleton|apply NoDup_singleton].
  - split; try done.
    + cbn. by rewrite Eh1, lookup_insert_eq.
    + by rewrite Ed1, Ee.
    + intros x Hx%list_elem_of_singleton. subst x. left. by left.
    + cbn. by rewrite app_nil_r.
    + intros x Hx. by rewrite Ed1.
  - constructor; [|constructor]. split; [by left|]. split; [by left|]. split; [cbn; by rewrite Eh1, lookup_insert_eq|]. split; [done|].
    exists es. rewrite Ed1, Es1, lookup_insert_eq. split; [done|]. split; [done|]. by eapply represents_kept.
Qed.

(** C31: [ForceRemoveDirectory] removes the whole tree when nothing fails: it
    ends and returns [true], every directory of the tree is gone and the name
    with it, everything else is as before, and no stream stays open. *)
Theorem ForceRemoveDirectory_removes_the_tree (path : list Z) r es f i n ps (k : K) fuel :
  openable k r = true -> dirs k !! r = Some es -> represents k f es -> all_open f -> NoDup (r :: dinos f) ->
  leads_to k path r i n f -> dirs k !! i = Some ps -> (n, EDir r) ∈ ps -> (cost f < fuel)%nat ->
  exists k', ForceRemoveDirectory fuel path k = Some (true, k') /\
    handles k' = handles k /\ streams k' = streams k /\
    forall x, dirs k' !! x = if decide (x ∈ r :: dinos f) then None else if decide (x = i) then Some (drop_name n ps) else dirs k !! x.
Proof.
  intros Hop Ee Hf Ho Hnd (Hi & Hpath) Eps Hin Hfuel.
  assert (resolve k path = Some r) as Hres by (apply Hpath; [done|done|by rewrite Ee]).
  destruct (removal_starts path r es f k Hres Hop Ee Hf Ho Hnd) as (d & fd & k1 & E1 & Enm1 & Hb).
  destruct (remove_walk_spec k r (d, fd) f Hnd fuel k1 _ [] _ Hb) as (w & k2 & L & E2 & Ew & Ht); [cbn; lia|].
  destruct (remove_nodes_spec k r (d, fd) f Hnd L k2) as (k3 & E3 & Hs); [by apply shrinking_start|].
  destruct Hs as [Hi3 _ (js & Ej) _ Hset _ _ Hgone Hnm3 Hout].
  assert (empty_listing js) as Hjs.
  { apply (good_nil k3 r js); [|done]. specialize (Hset r ltac:(by left)). exact Hset. }
  destruct (inv_own _ _ _ _ d fd Hi3) as (l3 & i3 & Es3 & _); [by left|].
  destruct (closedir_spec _ _ _ _ Es3) as ((Ed4 & _ & _ & Enm4) & _). pose proof (closedir_safe _ _ _ _ _ _ Hi3) as [_ [_ _ Hs4 Hh4]].
  set (k4 := closedir d k3) in *.
  destruct (Hpath k4) as [Hloc Hres4]; [by rewrite Enm4|intros x Hx; rewrite Ed4; by apply Hout|by rewrite Ed4, Ej|].
  assert (dirs k4 !! i = Some ps) as Eps4 by (rewrite Ed4, Hout; done). assert (dirs k4 !! r = Some js) as Ej4 by by rewrite Ed4.
  destruct (remove_works path i n ps r js k4 Hloc Hres4 Eps4 Hin Ej4 Hjs) as (Hl1 & Hrm & Hl2).
  pose proof (remove_spec path k4) as Hrs. destruct (remove path k4) as [b k5] eqn:E5. cbn in Hrm, Hl2. subst b.
  destruct Hrs as (Eh5 & Es5 & i' & n' & es' & e & Hloc' & Ee' & Hin' & Ed5 & _). simplify_eq.
  destruct (listing_ok _ _ _ Eps) as [Hnames _]. rewrite (NoDup_assoc _ _ _ _ Hnames Hin' Hin) in Ed5.
  exists k5. split; [|split; [|split]].
  - unfold ForceRemoveDirectory. run_call E1. rewrite (st_bind_eq _ _ _ _ _ E2). rewrite Ew, (st_bind_eq _ _ _ _ _ E3).
    rewrite (st_bind_eq (do_closedir d) _ k3 tt k4) by done. unfold remove_root. run_get Hl1. cbn iota.
    run_call E5. cbn [negb]. by run_get Hl2.
  - rewrite Eh5. apply map_eq. intros x. apply Hh4. by apply not_elem_of_nil.
  - rewrite Es5. apply map_eq. intros x. apply Hs4. by apply not_elem_of_nil.
  - intros x. rewrite Ed5. case_decide as Hx.
    + destruct (decide (x = r)) as [->|Hxr]; [by rewrite lookup_delete_eq|]. rewrite lookup_delete_ne by done.
      rewrite lookup_insert_ne by (by intros ->). rewrite Ed4. apply Hgone; [|by apply not_elem_of_nil].
      by apply elem_of_cons in Hx as [?|?].
    + rewrite lookup_delete_ne by (intros <-; apply Hx; by left). case_decide as Hxi; [subst x; by rewrite lookup_insert_eq|].
      rewrite lookup_insert_ne by done. rewrite Ed4. by apply Hout.
Qed.
End emptying.
