(* ===== verification/DirectoryDemo.v ===== *)
(** * A small file system

    It satisfies the laws; the theorems of [DirectoryProps] are applied to it
    here, and the corner cases of the functions are run on it. *)

From S2P Require Import Prelude StringEx DirectoryEx DirectoryInv DirectoryWalk DirectoryRemove DirectoryEmpty DirectoryProps.

(** Inodes of directories are not negative, those of files are; [kclosed] are
    the directories that may not be opened, [kfixed] the paths whose mode may
    not be changed; a path is known by the directory and the name it ends with. *)
Record disk := {
  kdirs : gmap Z listing;
  khandles : gmap Z Z;
  kstreams : gmap Z (Z * listing);
  kclosed : gset Z;
  klinks : gmap Z Z;
  kpaths : gmap (list Z) (Z * list Z);
  kfixed : gset (list Z);
}.

Definition valid_entry (e : list Z * entry) : Prop :=
  e.1 <> [] /\ SLASH ∉ e.1 /\ (match e.2 with EDir j => 0 <= j | EFile j => j < 0 end).
#[export] Instance valid_entry_dec e : Decision (valid_entry e).
Proof. unfold valid_entry. destruct e as [n [j|j]]; apply _. Defined.
#[export] Instance entry_eq_dec : EqDecision entry.
Proof. solve_decision. Defined.
Definition valid_listing (es : listing) : Prop := NoDup es.*1 /\ Forall valid_entry es.
#[export] Instance valid_listing_dec es : Decision (valid_listing es).
Proof. unfold valid_listing. apply _. Defined.

Definition vdirs (k : disk) : gmap Z listing := filter (fun kv => valid_listing kv.2) (kdirs k).
Definition vhandles (k : disk) : gmap Z Z := filter (fun kv => 0 <= kv.1) (khandles k).
Definition vstreams (k : disk) : gmap Z (Z * listing) := filter (fun kv => Forall valid_entry kv.2.2) (kstreams k).

Definition with_dirs (m : gmap Z listing) (k : disk) : disk :=
  {| kdirs := m; khandles := khandles k; kstreams := kstreams k; kclosed := kclosed k; klinks := klinks k;
     kpaths := kpaths k; kfixed := kfixed k |}.
Definition with_handles (m : gmap Z Z) (k : disk) : disk :=
  {| kdirs := kdirs k; khandles := m; kstreams := kstreams k; kclosed := kclosed k; klinks := klinks k;
     kpaths := kpaths k; kfixed := kfixed k |}.
Definition with_streams (m : gmap Z (Z * listing)) (k : disk) : disk :=
  {| kdirs := kdirs k; khandles := khandles k; kstreams := m; kclosed := kclosed k; klinks := klinks k;
     kpaths := kpaths k; kfixed := kfixed k |}.

Fixpoint assoc (n : list Z) (es : listing) : option entry :=
  match es with [] => None | (m, e) :: es => if decide (m = n) then Some e else assoc n es end.

Definition kattr (k : disk) (i : Z) : file_stat :=
  {| st_mode := if 0 <=? i then 0x41ed else 0x81a4; st_nlink := default 1 (klinks k !! i); st_dev := 1; st_ino := i;
     st_size := 100; st_blocks := 8 |}.

Definition lookup_path (p : list Z) (k : disk) : option entry :=
  '(i, n) ← kpaths k !! p; es ← vdirs k !! i; assoc n es.

#[export] Instance demo_view : DirView disk := {
  dirs := vdirs;
  handles := vhandles;
  streams := vstreams;
  resolve k p := match lookup_path p k with Some (EDir j) => Some j | _ => None end;
  located k p := kpaths k !! p;
  openable k i := bool_decide (i ∉ kclosed k);
  attr := kattr;
  names := kpaths;
}.

Definition can_unlink (e : entry) (k : disk) : bool :=
  match e with
  | EFile _ => true
  | EDir j => if vdirs k !! j is Some js then bool_decide (Forall (fun e => is_dots e.1 = true) js) else false
  end.

Definition unlink_entry (i : Z) (n : list Z) (es : listing) (e : entry) (k : disk) : disk :=
  with_dirs ((if e is EDir j then delete j else id) (<[i := drop_name n es]> (vdirs k))) k.

Definition demo_remove (p : list Z) (k : disk) : bool * disk :=
  match kpaths k !! p with
  | Some (i, n) =>
      match vdirs k !! i with
      | Some es =>
          match assoc n es with
          | Some e => if can_unlink e k then (true, unlink_entry i n es e k) else (false, k)
          | None => (false, k)
          end
      | None => (false, k)
      end
  | None => (false, k)
  end.

Definition demo_unlinkat (fd : Z) (n : list Z) (rd : bool) (k : disk) : bool * disk :=
  match vhandles k !! fd with
  | Some i =>
      match vdirs k !! i with
      | Some es =>
          match assoc n es with
          | Some e => if bool_decide (is_dir e = rd) && negb (is_dots n) && can_unlink e k
                      then (true, unlink_entry i n es e k) else (false, k)
          | None => (false, k)
          end
      | None => (false, k)
      end
  | None => (false, k)
  end.

(** The entry of a name in an open directory. *)
Definition lookup_at (fd : Z) (n : list Z) (k : disk) : option entry :=
  i ← vhandles k !! fd; es ← vdirs k !! i; assoc n es.

Definition demo_open (i : Z) (k : disk) : Z * disk :=
  if bool_decide (i ∉ kclosed k) then let fd := above (dom (vhandles k)) in (fd, with_handles (<[fd := i]> (vhandles k)) k)
  else (-1, k).

Definition demo_fdopendir (fd : Z) (k : disk) : option Z * disk :=
  match vhandles k !! fd with
  | Some i => let d := above (dom (vstreams k)) in
              (Some d, with_streams (<[d := (fd, default [] (vdirs k !! i))]> (vstreams k)) k)
  | None => (None, k)
  end.

#[export] Instance demo_dir_os : DirOS disk := {
  access p k := if lookup_path p k is Some _ then true else false;
  mkdir p mode k := match kpaths k !! p with
    | Some (i, n) =>
        match vdirs k !! i with
        | Some es => let j := above (dom (vdirs k)) in
            if assoc n es is Some _ then (EEXIST, k)
            else (0, with_dirs (<[j := [([DOT], EDir j); ([DOT; DOT], EDir i)]]> (<[i := es ++ [(n, EDir j)]]> (vdirs k))) k)
        | None => (2, k)
        end
    | None => (2, k)
    end;
  remove := demo_remove;
  chmod p mode k := (bool_decide (p ∉ kfixed k), k);
  realpath p k := if lookup_path p k is Some _ then Some p else None;
  readlink _ _ := None;
  stat p k := (fun e => kattr k (ino_of e)) <$> lookup_path p k;
  lstat p k := (fun e => kattr k (ino_of e)) <$> lookup_path p k;
  open_path p fl k := if lookup_path p k is Some (EDir i) then demo_open i k else (-1, k);
  opendir p k := match lookup_path p k with
    | Some (EDir i) =>
        if vdirs k !! i is Some _ then
          let '(fd, k1) := demo_open i k in if fd <? 0 then (None, k) else demo_fdopendir fd k1
        else (None, k)
    | _ => (None, k)
    end;
  fdopendir := demo_fdopendir;
  dirfd d k := if vstreams k !! d is Some (fd, _) then fd else -1;
  readdir d k := match vstreams k !! d with
    | Some (fd, (n, e) :: r) =>
        (Some {| d_name := n; d_is_dir := is_dir e |}, with_streams (<[d := (fd, r)]> (vstreams k)) k)
    | _ => (None, k)
    end;
  closedir d k := match vstreams k !! d with
    | Some (fd, _) => with_streams (delete d (vstreams k)) (with_handles (delete fd (vhandles k)) k)
    | None => k
    end;
  close fd k := with_handles (delete fd (vhandles k)) k;
  openat fd n fl k := if lookup_at fd n k is Some (EDir j) then demo_open j k else (-1, k);
  fstatat fd n fl k := (fun e => kattr k (ino_of e)) <$> lookup_at fd n k;
  faccessat fd n fl k := if (if fd =? AT_FDCWD then lookup_path n k else lookup_at fd n k) is Some _ then true else false;
  unlinkat := demo_unlinkat;
}.

(** ** The laws *)

Lemma vdirs_with m k : map_Forall (fun _ es => valid_listing es) m -> vdirs (with_dirs m k) = m.
Proof.
  intros Hm. unfold vdirs. cbn. apply map_eq. intros i. destruct (m !! i) as [es|] eqn:E.
  - apply map_lookup_filter_Some. split; [done|]. cbn. by apply (Hm i).
  - apply map_lookup_filter_None. by left.
Qed.
Lemma vdirs_valid k : map_Forall (fun _ es => valid_listing es) (vdirs k).
Proof. intros i es [_ E]%map_lookup_filter_Some. exact E. Qed.
Lemma vhandles_with m k : map_Forall (fun fd _ => 0 <= fd) m -> vhandles (with_handles m k) = m.
Proof.
  intros Hm. unfold vhandles. cbn. apply map_eq. intros i. destruct (m !! i) as [x|] eqn:E.
  - apply map_lookup_filter_Some. split; [done|]. cbn. by apply (Hm i x).
  - apply map_lookup_filter_None. by left.
Qed.
Lemma vhandles_valid k : map_Forall (fun fd _ => 0 <= fd) (vhandles k).
Proof. intros i x [_ E]%map_lookup_filter_Some. exact E. Qed.
Lemma vstreams_with m k : map_Forall (fun _ x => Forall valid_entry x.2) m -> vstreams (with_streams m k) = m.
Proof.
  intros Hm. unfold vstreams. cbn. apply map_eq. intros i. destruct (m !! i) as [x|] eqn:E.
  - apply map_lookup_filter_Some. split; [done|]. cbn. by apply (Hm i x).
  - apply map_lookup_filter_None. by left.
Qed.
Lemma vstreams_valid k : map_Forall (fun _ x => Forall valid_entry x.2) (vstreams k).
Proof. intros i x [_ E]%map_lookup_filter_Some. exact E. Qed.

Lemma valid_drop n es : valid_listing es -> valid_listing (drop_name n es).
Proof.
  intros [Hn Hf]. split; [|rewrite Forall_forall in Hf |- *; intros e [_ He]%list_elem_of_filter; by apply Hf].
  clear Hf. unfold drop_name. induction es as [|e es IH]; [done|]. apply NoDup_cons in Hn as [He Hn].
  destruct (decide (e.1 = n)); [rewrite filter_cons_False by naive_solver; by apply IH|]. rewrite filter_cons_True by done.
  constructor; [|by apply IH]. intros (x & Ex & [_ Hx]%list_elem_of_filter)%list_elem_of_fmap. apply He. rewrite Ex.
  by apply list_elem_of_fmap_2.
Qed.

Lemma assoc_in n es e : assoc n es = Some e -> (n, e) ∈ es.
Proof.
  induction es as [|[m e'] es IH]; [done|]. cbn. case_decide as E; [subst m; intros [= ->]; by left|]. intros ?. right. by apply IH.
Qed.
Lemma in_assoc n es e : NoDup es.*1 -> (n, e) ∈ es -> assoc n es = Some e.
Proof.
  induction es as [|[m e'] es IH]; [by intros _ ?%elem_of_nil|]. cbn. intros [Hm Hnd]%NoDup_cons [[= -> ->]|Hin]%elem_of_cons.
  - by rewrite decide_True.
  - rewrite decide_False; [by apply IH|]. intros ->. apply Hm. apply (list_elem_of_fmap_2 fst es (n, e)). done.
Qed.
Lemma assoc_drop n es : assoc n (drop_name n es) = None.
Proof.
  induction es as [|[m e] es IH]; [done|]. unfold drop_name in *. destruct (decide (m = n)) as [->|Hne].
  - rewrite filter_cons_False by naive_solver. done.
  - rewrite filter_cons_True by done. cbn. by rewrite decide_False.
Qed.

Lemma unlink_valid i n es e k : vdirs k !! i = Some es ->
  map_Forall (fun _ es => valid_listing es) ((if e is EDir j then delete j else id) (<[i := drop_name n es]> (vdirs k))).
Proof.
  intros E. assert (map_Forall (fun _ es => valid_listing es) (<[i := drop_name n es]> (vdirs k))) as Hm.
  { apply map_Forall_insert_2; [|apply vdirs_valid]. apply valid_drop, (vdirs_valid k i es E). }
  destruct e as [j|j]; [done|]. by apply map_Forall_delete.
Qed.

Lemma demo_open_spec i k : let '(fd, k') := demo_open i k in
  if bool_decide (i ∉ kclosed k) then 0 <= fd /\ handles k !! fd = None /\ kept k k' /\ handles k' = <[fd := i]> (handles k) /\ streams k' = streams k
  else fd = -1 /\ k' = k.
Proof.
  unfold demo_open. case_bool_decide; [|done]. destruct (above_fresh (dom (vhandles k))) as [Hf Hp].
  split; [done|]. split; [by apply not_elem_of_dom|]. split; [done|]. split; [|done]. apply vhandles_with.
  apply map_Forall_insert_2; [done|apply vhandles_valid].
Qed.

Lemma demo_fdopendir_spec fd i k : handles k !! fd = Some i ->
  exists d k', demo_fdopendir fd k = (Some d, k') /\ streams k !! d = None /\ kept k k' /\ handles k' = handles k /\
    streams k' = <[d := (fd, default [] (dirs k !! i))]> (streams k).
Proof.
  intros E. unfold demo_fdopendir. cbn in E. rewrite E. destruct (above_fresh (dom (vstreams k))) as [Hf _].
  do 2 eexists. split; [reflexivity|]. split; [by apply not_elem_of_dom|]. split; [done|]. split; [done|]. apply vstreams_with.
  apply map_Forall_insert_2; [|apply vstreams_valid]. cbn. destruct (vdirs k !! i) as [es|] eqn:Ei; [|constructor].
  apply (vdirs_valid k i es Ei).
Qed.

Lemma kept_with_streams m k : kept k (with_streams m k).
Proof. done. Qed.

#[export] Instance demo_dir_laws : DirLaws disk.
Proof.
  split.
  - intros p k. cbn. destruct (lookup_path p k) as [[j|j]|] eqn:El; [apply same_tree_refl| |apply same_tree_refl].
    destruct (vdirs k !! j) as [es|] eqn:Ej; [|apply same_tree_refl]. pose proof (demo_open_spec j k) as Ho.
    destruct (demo_open j k) as [fd k1]. case_bool_decide; [|destruct Ho as [-> ->]; apply same_tree_refl].
    destruct Ho as (Hfd & Hf & Hk1 & Eh & Es). destruct (Z.ltb_spec fd 0); [lia|].
    assert (handles k1 !! fd = Some j) as Eh1 by by rewrite Eh, lookup_insert_eq.
    destruct (demo_fdopendir_spec fd j k1 Eh1) as (d & k2 & -> & Hs & Hk2 & Eh2 & Es2).
    assert (Hk1' := Hk1). destruct Hk1' as (Ed1 & _). rewrite Ed1, Es in Es2. rewrite Es in Hs.
    cbn in Es2. rewrite Ej in Es2.
    exists fd, j, es. split_and!; try done; [by eapply kept_trans|exact (eq_trans Eh2 Eh)].
  - intros d fd r k E. left. cbn in *. by rewrite E.
  - intros d fd r k E. cbn in *. rewrite E. destruct r as [|[n e] r]; [apply same_tree_refl|].
    pose proof (vstreams_valid k d _ E) as Hv. cbn in Hv. apply Forall_cons in Hv as [(_ & Hn & _) Hv]. split; [done|]. split; [done|].
    split; [done|]. exists r. apply vstreams_with. apply map_Forall_insert_2; [done|apply vstreams_valid].
  - intros fd n fl i k E Hn _. cbn in *. unfold lookup_at. rewrite E. cbn. destruct (vdirs k !! i) as [es|] eqn:Ei; cbn; [|apply same_tree_refl].
    destruct (assoc n es) as [[j|j]|] eqn:Ea; [apply same_tree_refl| |apply same_tree_refl].
    pose proof (demo_open_spec j k) as Ho. destruct (demo_open j k) as [fd' k']. case_bool_decide.
    + destruct Ho as (Hfd & Hf & Hk1 & Eh & Es). destruct (Z.ltb_spec fd' 0); [lia|]. exists j. split_and!; try done. intros _.
      exists es. split; [done|]. by apply assoc_in.
    + destruct Ho as [-> ->]. apply same_tree_refl.
  - intros fd i k E. destruct (demo_fdopendir_spec fd i k E) as (d & k' & Ed & H). cbn [fdopendir demo_dir_os]. by rewrite Ed.
  - intros fd k. split; [done|]. split; [|done]. apply vhandles_with. by apply map_Forall_delete, vhandles_valid.
  - intros d fd r k E. cbn in *. rewrite E. split; [done|]. split.
    + apply vhandles_with. by apply map_Forall_delete, vhandles_valid.
    + apply vstreams_with. by apply map_Forall_delete, vstreams_valid.
  - intros fd n rd i k E Hn. cbn in *. unfold demo_unlinkat. rewrite E. destruct (vdirs k !! i) as [es|] eqn:Ei; [|apply same_tree_refl].
    destruct (assoc n es) as [e|] eqn:Ea; [|apply same_tree_refl]. case_bool_decide as Hrd; cbn [andb]; [|apply same_tree_refl].
    destruct (is_dots n) eqn:Hd; cbn [andb negb]; [apply same_tree_refl|]. destruct (can_unlink e k) eqn:Ec; [|apply same_tree_refl].
    split_and!; try done. exists es, e. split_and!; try done; [by apply assoc_in|by apply vdirs_with, unlink_valid|].
    destruct e as [j|j]; [done|]. cbn in Ec. destruct (vdirs k !! j) as [js|]; [|done]. exists js. split; [done|].
    by apply bool_decide_eq_true in Ec.
  - intros p k. cbn. unfold demo_remove. destruct (kpaths k !! p) as [[i n]|] eqn:Ep; [|apply same_tree_refl].
    destruct (vdirs k !! i) as [es|] eqn:Ei; [|apply same_tree_refl]. destruct (assoc n es) as [e|] eqn:Ea; [|apply same_tree_refl].
    destruct (can_unlink e k) eqn:Ec; [|apply same_tree_refl]. split; [done|]. split; [done|]. exists i, n, es, e.
    split_and!; try done; [by apply assoc_in|by apply vdirs_with, unlink_valid|].
    destruct e as [j|j]; [done|]. cbn in Ec. destruct (vdirs k !! j) as [js|] eqn:Ej; [|done].
    split; [unfold lookup_path; rewrite Ep; cbn; rewrite Ei; cbn; by rewrite Ea|]. exists js. split; [done|]. by apply bool_decide_eq_true in Ec.
Qed.

#[export] Instance demo_dir_reliable : DirReliable disk.
Proof.
  split.
  - intros k i es E. destruct (vdirs_valid k i es E) as [Hn Hf]. split; [done|]. apply Forall_fmap. eapply Forall_impl; [exact Hf|].
    intros [n e] (A & B & _). done.
  - intros p i k Er Ho [es Ee]. cbn in *. destruct (lookup_path p k) as [[j|j]|]; [done| |done]. injection Er as ->.
    rewrite Ee. pose proof (demo_open_spec i k) as Hop. destruct (demo_open i k) as [fd k1]. rewrite Ho in Hop.
    destruct Hop as (Hfd & Hf & Hk1 & Eh & Es). destruct (Z.ltb_spec fd 0); [lia|].
    assert (handles k1 !! fd = Some i) as Eh1 by by rewrite Eh, lookup_insert_eq.
    destruct (demo_fdopendir_spec fd i k1 Eh1) as (d & k2 & -> & _). done.
  - intros d fd r k E. cbn in *. by rewrite E.
  - intros d fd r k E. cbn in *. rewrite E. destruct r as [|[n e] r]; [done|]. eexists. split; [done|]. split; [done|]. split; [done|].
    apply vstreams_with. apply map_Forall_insert_2; [|apply vstreams_valid]. pose proof (vstreams_valid k d _ E) as Hv.
    cbn in *. by apply Forall_cons in Hv as [_ Hv].
  - intros fd n fl i es j k Eh Ee Hin. cbn in *. unfold lookup_at. rewrite Eh. cbn. rewrite Ee. cbn.
    rewrite (in_assoc n es (EDir j)); [|apply (vdirs_valid k i es Ee)|done].
    pose proof (demo_open_spec j k) as Ho. destruct (demo_open j k) as [fd' k']. exists fd', k'. split; [done|].
    destruct (bool_decide _); [apply Ho|]. destruct Ho as [-> _]. lia.
  - intros fd i k E. apply (vhandles_valid k fd i E).
  - intros fd i k E. destruct (demo_fdopendir_spec fd i k E) as (d & k' & Ed & _). cbn [fdopendir demo_dir_os]. by rewrite Ed.
  - intros fd n i es e k Eh Ee Hin. cbn in *. unfold lookup_at. rewrite Eh. cbn. rewrite Ee. cbn.
    destruct (vdirs_valid k i es Ee) as [Hn Hf]. rewrite (in_assoc n es e) by done. split; [done|].
    rewrite Forall_forall in Hf. destruct (Hf _ Hin) as (_ & _ & He). destruct e as [j|j]; cbn in *; unfold kattr; cbn;
      destruct (Z.leb_spec 0 j); try lia; done.
Qed.

#[export] Instance demo_dir_removable : DirRemovable disk.
Proof.
  split.
  - intros fd n i es e k Eh Ee Hin. cbn in *. destruct (Z.eqb_spec fd AT_FDCWD) as [->|_]; [pose proof (vhandles_valid k _ i Eh) as Hv; cbn in Hv; unfold AT_FDCWD in Hv; lia|].
    unfold lookup_at. rewrite Eh. cbn. rewrite Ee. cbn.
    by rewrite (in_assoc n es e); [|apply (vdirs_valid k i es Ee)|].
  - intros fd n i es e k Eh Ee Hin Hd He. cbn in *. unfold demo_unlinkat. rewrite Eh, Ee.
    rewrite (in_assoc n es e); [|apply (vdirs_valid k i es Ee)|done]. rewrite bool_decide_true by done. rewrite Hd. cbn [andb negb].
    assert (can_unlink e k = true) as ->; [|done]. destruct e as [j|j]; [done|]. destruct He as (js & Ej & Hjs). cbn. rewrite Ej.
    by apply bool_decide_eq_true.
  - intros p i n es j js k Hl Hr Ee Hin Ej Hjs. cbn in *.
    assert (assoc n es = Some (EDir j)) as Ea by (apply in_assoc; [apply (vdirs_valid k i es Ee)|done]).
    assert (lookup_path p k = Some (EDir j)) as Elp by (unfold lookup_path; rewrite Hl; cbn; rewrite Ee; done).
    rewrite Elp. unfold demo_remove. rewrite Hl, Ee, Ea. cbn [can_unlink]. rewrite Ej, bool_decide_true by done. split; [done|]. split; [done|].
    cbn [snd]. unfold lookup_path. cbn [kpaths unlink_entry with_dirs]. rewrite Hl. cbn [mbind option_bind].
    unfold unlink_entry. rewrite vdirs_with by by apply (unlink_valid i n es (EDir j)).
    destruct (decide (i = j)) as [->|Hij]; [by rewrite lookup_delete_eq|].
    rewrite lookup_delete_ne, lookup_insert_eq by done. cbn. by rewrite assoc_drop.
Qed.

(** ** A tree

    "/d" holds the files "f", "g" and a second name "h" of the first one, and
    "s" with the empty directory "e" and the file "x"; "/c" holds the
    directories "a", which is closed to the process, and "b". *)

Definition dots (i j : Z) : listing := [([DOT], EDir i); ([DOT; DOT], EDir j)].

Definition demo_disk : disk :=
  {| kdirs := list_to_map [
       (1, dots 1 1 ++ [([100], EDir 2); ([99], EDir 5)]);
       (2, dots 2 1 ++ [([102], EFile (-1)); ([115], EDir 3); ([103], EFile (-2)); ([104], EFile (-1))]);
       (3, dots 3 2 ++ [([101], EDir 4); ([120], EFile (-3))]);
       (4, dots 4 3);
       (5, dots 5 1 ++ [([97], EDir 6); ([98], EDir 7)]);
       (6, dots 6 5); (7, dots 7 5)];
     khandles := {[0 := 1]}; kstreams := ∅; kclosed := {[6]}; klinks := {[-1 := 2]};
     kpaths := list_to_map [
       ([47; 100], (1, [100])); ([47; 100; 47; 102], (2, [102])); ([47; 100; 47; 103], (2, [103])); ([47; 100; 47; 115], (2, [115]));
       ([47; 99], (1, [99])); ([47; 99; 47; 97], (5, [97])); ([47; 99; 47; 98], (5, [98]));
       ([47; 110], (1, [110])); ([47; 110; 47; 109], (8, [109]))];
     kfixed := ∅ |}.

Definition path_d : list Z := [47; 100].
Definition path_c : list Z := [47; 99].

Definition fdots (i j : Z) (f : forest) : forest := FDots [DOT] i (FDots [DOT; DOT] j f).
Definition forest_d : forest :=
  fdots 2 1 (FFile [102] (-1) (FDir [115] 3
    (fdots 3 2 (FDir [101] 4 (fdots 4 3 FNil) (FFile [120] (-3) FNil)))
    (FFile [103] (-2) (FFile [104] (-1) FNil)))).

Definition listing_of (i : Z) : listing := default [] (dirs demo_disk !! i).

Ltac show_forest := repeat match goal with
  | |- _ /\ _ => split
  | |- exists _, _ => eexists
  | |- _ = _ => vm_compute; reflexivity
  | |- True => exact I
  end.

Lemma forest_d_represents : represents demo_disk forest_d (listing_of 2).
Proof. cbn [represents forest_d fdots]. show_forest. Qed.

Lemma GetDirFiles_lists_the_tree_witness :
  exists k', GetDirFiles 17 path_d [[1]] demo_disk =
    Some ([[1]; [47; 100; 47; 102]; [47; 100; 47; 115; 47; 120]; [47; 100; 47; 103]; [47; 100; 47; 104]], k') /\ same demo_disk k'.
Proof.
  apply (GetDirFiles_lists_the_tree path_d 2 (listing_of 2) forest_d demo_disk 17 [[1]]).
  - vm_compute. reflexivity.
  - vm_compute. reflexivity.
  - vm_compute. reflexivity.
  - exact forest_d_represents.
  - vm_compute. congruence.
  - vm_compute. repeat split.
  - vm_compute. lia.
Defined.

Definition opened_d : Z * disk := open_path path_d dir_flags demo_disk.

(** The two names of "f" are counted once: three files and three directories. *)
Lemma GetFolderDiskUsage_counts_once_witness :
  exists l k', GetFolderDiskUsage 17 path_d demo_disk = Some (u64 (total demo_disk l), k') /\ same demo_disk k' /\
    NoDup l /\ forall a, a ∈ l <-> a ∈ [2; -1; 3; 4; -3; -2; -1].
Proof.
  apply (GetFolderDiskUsage_counts_once path_d 2 (listing_of 2) forest_d demo_disk opened_d.1 opened_d.2 17).
  - vm_compute. reflexivity.
  - vm_compute. reflexivity.
  - vm_compute. reflexivity.
  - vm_compute. congruence.
  - vm_compute. split_and!; reflexivity.
  - vm_compute. reflexivity.
  - vm_compute. reflexivity.
  - vm_compute. reflexivity.
  - vm_compute. reflexivity.
  - exact forest_d_represents.
  - intros a b _ _ [= E]. exact E.
  - refine (proj1 (bool_decide_eq_true _) _). vm_compute. reflexivity.
  - vm_compute. lia.
Defined.

Definition run_of {A} (r : option (A * disk)) : disk := match r with Some (_, k) => k | None => demo_disk end.

Example demo_usage : (fst <$> GetFolderDiskUsage 17 path_d demo_disk) = Some (6 * (8 * 512)).
Proof. vm_compute. reflexivity. Qed.

Lemma removal_stays_below_the_root_witness :
  let k1 := snd (opendir path_c demo_disk) in
  let d := default 0 (fst (opendir path_c demo_disk)) in
  let cleared k' := handles k' = handles demo_disk /\ streams k' = streams demo_disk /\ shrunk demo_disk 5 k' in
  wlp (w ← remove_walk 9 {| w_ret := true; traversStack := [d]; removeStack := [] |};
       remove_nodes (removeStack w);; do_closedir d) (fun _ k' => cleared k') k1 /\
  wlp (ForceRemoveDirectoryInternal 9 d;; do_closedir d) (fun _ k' => cleared k') k1.
Proof.
  apply (removal_stays_below_the_root 9 path_c 5 demo_disk); vm_compute; reflexivity.
Defined.

Lemma demo_leads_to : leads_to demo_disk path_d 2 1 [100] forest_d.
Proof.
  split; [refine (proj1 (bool_decide_eq_true _) _); vm_compute; reflexivity|]. intros k' Hn Hk' _.
  assert (kpaths k' = kpaths demo_disk) as En by exact Hn.
  assert (vdirs k' !! 1 = vdirs demo_disk !! 1) as E1.
  { apply (Hk' 1). refine (proj1 (bool_decide_eq_true _) _). vm_compute. reflexivity. }
  cbn [located resolve demo_view]. unfold lookup_path. rewrite En.
  change (kpaths demo_disk !! path_d) with (Some (1, [100])). cbn [mbind option_bind]. rewrite E1. split; reflexivity.
Qed.

Lemma ForceRemoveDirectory_removes_the_tree_witness :
  exists k', ForceRemoveDirectory 17 path_d demo_disk = Some (true, k') /\
    handles k' = handles demo_disk /\ streams k' = streams demo_disk /\
    forall x, dirs k' !! x = if decide (x ∈ [2; 3; 4]) then None
      else if decide (x = 1) then Some (drop_name [100] (listing_of 1)) else dirs demo_disk !! x.
Proof.
  apply (ForceRemoveDirectory_removes_the_tree path_d 2 (listing_of 2) forest_d 1 [100] (listing_of 1) demo_disk 17).
  - vm_compute. reflexivity.
  - vm_compute. reflexivity.
  - exact forest_d_represents.
  - vm_compute. repeat split.
  - refine (proj1 (bool_decide_eq_true _) _). vm_compute. reflexivity.
  - exact demo_leads_to.
  - vm_compute. reflexivity.
  - refine (proj1 (bool_decide_eq_true _) _). vm_compute. reflexivity.
  - vm_compute. lia.
Defined.

(** ** Corner cases *)

(** A directory with empty directories in it counts as empty. *)
Example IsEmptyFolder_ignores_directories : (fst <$> IsEmptyFolder 9 path_c demo_disk) = Some true.
Proof. vm_compute. reflexivity. Qed.

(** "/c/a" cannot be opened, so its mode is not changed; the success of "/c/b" hides it. *)
Example ChangeModeDirectory_hides_a_failure :
  (fst <$> ChangeModeDirectory 9 (path_c ++ [47; 97]) 0x1c0 demo_disk) = Some false /\
  (fst <$> ChangeModeDirectory 9 path_c 0x1c0 demo_disk) = Some true.
Proof. split; vm_compute; reflexivity. Qed.

(** A directory that cannot be opened keeps its parent; the rest goes. *)
Example ForceRemoveDirectory_partial :
  match ForceRemoveDirectory 9 path_c demo_disk with
  | Some (b, k') => b = false /\ dirs k' !! 5 = Some (dots 5 1 ++ [([97], EDir 6)]) /\ streams k' = ∅
  | None => False
  end.
Proof. vm_compute. split_and!; reflexivity. Qed.

(** "/n/m" is created with its parent, and is there the second time. *)
Example ForceCreateDirectory_run :
  let path := [47; 110; 47; 109] in
  let r := ForceCreateDirectory path demo_disk in
  (fst <$> r) = Some true /\ access path (run_of r) = true /\ (fst <$> ForceCreateDirectory path (run_of r)) = Some true.
Proof. vm_compute. split_and!; reflexivity. Qed.
