(* ===== verification/FileEx.v ===== *)
(** * Reading and writing files ([base/src/file_ex.cpp])

    The kernel is a parameter. A stream of the C++ or C library is its
    descriptor; reading is the loop around [read], and what is written goes
    through a buffer that is flushed when it is full, on [flush] and when the
    stream is closed. Loops that end with the file carry fuel, and [None] is an
    exhausted fuel. A function that fills a [content] argument returns its
    result and the new content. *)

From S2P Require Import Prelude StringEx DirectoryEx.

Class FileOS (K : Type) := {
  open_in : list Z -> K -> option Z * K;             (** for reading *)
  open_out : list Z -> bool -> K -> option Z * K;    (** created, and truncated or appended to *)
  seek_end : Z -> K -> Z * K;                        (** [lseek(fd, 0, SEEK_END)], -1 when it fails *)
  seek_set : Z -> K -> Z * K;                        (** [lseek(fd, 0, SEEK_SET)] *)
  read : Z -> Z -> K -> option (list Z) * K;         (** at most that many bytes, [None] when it fails *)
  write : Z -> list Z -> K -> Z * K;                 (** how many bytes, -1 when it fails *)
  close_file : Z -> K -> K;
  BUFSIZ : Z;                                        (** the buffer of a stream *)
}.

Definition MAX_FILE_LENGTH : Z := 32 * 1024 * 1024.

Section file.
Context {K : Type} `{DirOS K} `{FileOS K}.
Notation FM := (ST K).

Definition fclose (fd : Z) : FM unit := st_put (close_file fd).

(** ** Streams *)

(** The rest of a stream, and at most [n] bytes of it. *)
Fixpoint read_rest (fuel : nat) (fd : Z) : FM (list Z) :=
  match fuel with
  | O => out_of_fuel
  | S fuel =>
      chunk ← st_call (read fd BUFSIZ);
      match chunk with
      | None | Some [] => mret []
      | Some bs => rest ← read_rest fuel fd; mret (bs ++ rest)
      end
  end.

Fixpoint read_upto (fuel : nat) (fd n : Z) : FM (list Z) :=
  match fuel with
  | O => out_of_fuel
  | S fuel =>
      if n <=? 0 then mret []
      else
        chunk ← st_call (read fd n);
        match chunk with
        | None | Some [] => mret []
        | Some bs => rest ← read_upto fuel fd (n - zlen bs); mret (bs ++ rest)
        end
  end.

(** The loop around [write]. *)
Fixpoint write_all (fuel : nat) (fd : Z) (bs : list Z) : FM bool :=
  match fuel with
  | O => mret (is_empty bs)
  | S fuel =>
      if is_empty bs then mret true
      else
        n ← st_call (write fd bs);
        if n <=? 0 then mret false else write_all fuel fd (zdrop n bs)
  end.
Definition flush (fd : Z) (bs : list Z) : FM bool := write_all (length bs) fd bs.

(** [ostream::write] on a fresh stream: whether it failed, and what is left in the buffer. *)
Definition stream_write (fd : Z) (bs : list Z) : FM (bool * list Z) :=
  if zlen bs <? BUFSIZ then mret (true, bs) else ok ← flush fd bs; mret (ok, []).
(** The destructor of a stream that was written to. *)
Definition close_stream (fd : Z) (buffered : list Z) : FM unit := flush fd buffered;; fclose fd.

(** [content.resize(n)] *)
Definition resize (content : list Z) (n : Z) : list Z :=
  ztake n content ++ replicate (Z.to_nat n - length content) 0.

(** ** Reading *)

Definition LoadStringFromFile (fuel : nat) (filePath content : list Z) : FM (bool * list Z) :=
  file ← st_call (open_in filePath);
  match file with
  | None => mret (false, content)
  | Some file =>
      fileLength ← st_call (seek_end file);
      if MAX_FILE_LENGTH <? fileLength then fclose file;; mret (false, content)
      else
        (if 0 <=? fileLength then st_call (seek_set file);; mret tt else mret tt);;   (** a failed stream does not seek *)
        content ← read_rest fuel file;
        fclose file;;
        mret (true, content)
  end.

Definition proc_self_fd : list Z := [47; 112; 114; 111; 99; 47; 115; 101; 108; 102; 47; 102; 100; 47].

Definition GetFileNameByFd (fd : Z) : FM (list Z) :=
  if fd <=? 0 then mret []
  else
    link ← st_get (readlink (proc_self_fd ++ ToString_int fd));
    match link with
    | None => mret []
    | Some fileName => if PATH_MAX <? zlen fileName then mret [] else mret (c_string fileName)
    end.

Definition LoadStringFromFdToFile (fuel : nat) (fd : Z) (content : list Z) : FM (bool * list Z) :=
  fileName ← GetFileNameByFd fd;
  if is_empty fileName then mret (false, content) else LoadStringFromFile fuel fileName content.

Definition LoadStringFromFd (fuel : nat) (fd : Z) (content : list Z) : FM (bool * list Z) :=
  if fd <=? 0 then mret (false, content)
  else
    fileLength ← st_call (seek_end fd);
    if MAX_FILE_LENGTH <? fileLength then mret (false, content)
    else if fileLength <? 0 then LoadStringFromFdToFile fuel fd content
    else if fileLength =? 0 then mret (true, content)
    else
      let content := resize content fileLength in
      loc ← st_call (seek_set fd);
      if loc =? -1 then mret (false, content)
      else
        r ← st_call (read fd fileLength);
        match r with
        | None => mret (false, content)
        | Some bs => mret (zlen bs =? fileLength, bs ++ zdrop (zlen bs) content)
        end.

(** [fgetc]: the character, [EOF] being 255 as a [char], and whether [feof] holds then. *)
Definition fgetc (fd : Z) : FM (Z * bool) :=
  r ← st_call (read fd 1);
  mret (match r with
        | Some (c :: _) => (c, false)
        | Some [] => (255, true)
        | None => (255, false)
        end).

Fixpoint LoadBufferFromNodeFile_loop (fuel : nat) (fp : Z) (ch : Z) (eof : bool) (byteCount : Z) (content : list Z)
    : FM (bool * list Z) :=
  match fuel with
  | O => out_of_fuel
  | S fuel =>
      if eof then fclose fp;; mret (true, content)
      else if MAX_FILE_LENGTH <? byteCount then fclose fp;; mret (false, [])
      else
        '(ch', eof) ← fgetc fp;
        LoadBufferFromNodeFile_loop fuel fp ch' eof (byteCount + 1) (content ++ [ch])
  end.

Definition LoadBufferFromNodeFile (fuel : nat) (filePath content : list Z) : FM (bool * list Z) :=
  '(ok, realPath) ← PathToRealPath filePath [];
  if negb ok then mret (false, content)
  else
    fp ← st_call (open_in realPath);
    match fp with
    | None => mret (false, content)
    | Some fp =>
        '(ch, eof) ← fgetc fp;
        LoadBufferFromNodeFile_loop fuel fp ch eof 1 content
    end.

Definition LoadBufferFromFile (fuel : nat) (filePath content : list Z) : FM (bool * list Z) :=
  file ← st_call (open_in filePath);
  match file with
  | None => mret (false, content)
  | Some file =>
      fileLength ← st_call (seek_end file);
      if MAX_FILE_LENGTH <? fileLength then fclose file;; mret (false, content)
      else if fileLength <? 0 then r ← LoadBufferFromNodeFile fuel filePath content; fclose file;; mret r
      else if fileLength =? 0 then fclose file;; mret (true, [])
      else
        loc ← st_call (seek_set file);
        if loc =? -1 then fclose file;; mret (false, content)
        else
          let content := resize content fileLength in
          bs ← read_upto fuel file fileLength;
          fclose file;;
          mret (true, bs ++ zdrop (zlen bs) content)
  end.

(** ** Writing *)

Definition SaveStringToFile (filePath content : list Z) (truncated : bool) : FM bool :=
  if is_empty content then mret true
  else
    file ← st_call (open_out filePath truncated);
    match file with
    | None => mret false
    | Some file =>
        '(ok, buffered) ← stream_write file content;
        close_stream file buffered;;
        mret ok
    end.

Definition SaveStringToFd (fd : Z) (content : list Z) : FM bool :=
  if fd <=? 0 then mret false
  else if is_empty content then mret true
  else
    len ← st_call (write fd content);
    if len <? 0 then mret false
    else if negb (len =? zlen content) then mret false
    else mret true.

Definition SaveBufferToFile (filePath content : list Z) (truncated : bool) : FM bool :=
  if is_empty content then mret true
  else
    file ← st_call (open_out filePath truncated);
    match file with
    | None => mret false
    | Some file =>
        '(ok, buffered) ← stream_write file content;
        (if (ok : bool) then flush file buffered;; mret tt else mret tt);;
        fclose file;;
        mret true
    end.

Definition FileExists (fileName : list Z) : FM bool := st_get (access fileName).

(** ** Searching *)

Definition StringExistsInFile (fuel : nat) (fileName subStr : list Z) (caseSensitive : bool) : FM bool :=
  if is_empty subStr then mret false
  else
    '(ok, str) ← LoadStringFromFile fuel fileName [];
    if negb ok then mret false
    else if caseSensitive then mret (bool_decide (is_Some (find str subStr 0)))
    else mret (bool_decide (is_Some (find (tolower <$> str) (tolower <$> subStr) 0))).

(** [position] and [count]; [count] is an [int]. *)
Fixpoint CountStrInStr_loop (fuel : nat) (str subStr : list Z) (position count : Z) : option Z :=
  match fuel with
  | O => None
  | S fuel =>
      match find str subStr position with
      | None => Some count
      | Some position => CountStrInStr_loop fuel str subStr (position + zlen subStr) (i32 (count + 1))
      end
  end.

Definition CountStrInStr (str subStr : list Z) : option Z :=
  if is_empty subStr then Some 0 else CountStrInStr_loop (S (length str)) str subStr 0 0.

Definition CountStrInFile (fuel : nat) (fileName subStr : list Z) (caseSensitive : bool) : FM Z :=
  if is_empty subStr then mret (-1)
  else
    '(ok, str) ← LoadStringFromFile fuel fileName [];
    if negb ok then mret (-1)
    else if caseSensitive then st_access (fun _ => CountStrInStr str subStr)
    else st_access (fun _ => CountStrInStr (tolower <$> str) (tolower <$> subStr)).
End file.
