(* ===== verification/FileProps.v ===== *)
(** * What is saved and what is loaded

    At the end a disk that satisfies the laws: the theorems are applied to it,
    and the corner cases of the functions are run on it. *)

From S2P Require Import Prelude StringEx StringInv DirectoryEx FileEx.

(** What the kernel promises for regular files: [files] are their contents by
    path, [readers] and [writers] the open descriptors with the position of a
    reader; a writer writes at the end. A read or a write may do less than it
    was asked for, but something as long as there is something to read, or
    [room] on the disk. *)
Class FileLaws (K : Type) `{FileOS K} := {
  files : K -> gmap (list Z) (list Z);
  readers : K -> gmap Z (list Z * Z);
  writers : K -> gmap Z (list Z);
  may_write : K -> list Z -> Prop;
  room : K -> Z -> Prop;
  bufsiz_pos : 0 < BUFSIZ;
  open_in_spec p bs k : files k !! p = Some bs ->
    exists fd k', open_in p k = (Some fd, k') /\ files k' = files k /\ readers k' !! fd = Some (p, 0);
  seek_end_spec fd p pos bs k : readers k !! fd = Some (p, pos) -> files k !! p = Some bs ->
    exists k', seek_end fd k = (zlen bs, k') /\ files k' = files k /\ readers k' !! fd = Some (p, zlen bs);
  seek_set_spec fd p pos bs k : readers k !! fd = Some (p, pos) -> files k !! p = Some bs ->
    exists k', seek_set fd k = (0, k') /\ files k' = files k /\ readers k' !! fd = Some (p, 0);
  read_spec fd p pos bs n k : readers k !! fd = Some (p, pos) -> files k !! p = Some bs -> 0 <= pos <= zlen bs -> 0 < n ->
    exists m k', read fd n k = (Some (ztake m (zdrop pos bs)), k') /\ 0 <= m <= n /\ m <= zlen bs - pos /\
      (pos < zlen bs -> 0 < m) /\ files k' = files k /\ readers k' !! fd = Some (p, pos + m);
  close_file_spec fd k : files (close_file fd k) = files k;
  open_out_spec p trunc k : may_write k p -> exists fd k', open_out p trunc k = (Some fd, k') /\ writers k' !! fd = Some p /\
    files k' = <[p := if trunc then [] else default [] (files k !! p)]> (files k) /\ forall n, room k n -> room k' n;
  write_spec fd p old bs k : writers k !! fd = Some p -> files k !! p = Some old -> bs <> [] -> room k (zlen bs) ->
    exists n k', write fd bs k = (n, k') /\ 0 < n <= zlen bs /\ files k' = <[p := old ++ ztake n bs]> (files k) /\
      writers k' !! fd = Some p /\ room k' (zlen bs - n);
}.

Section streams.
Context {K : Type} `{DirOS K} `{FileLaws K}.
Implicit Types k : K.

Lemma ztake_nonempty {A} (l : list A) m : 0 < m -> m <= zlen l -> exists x t, ztake m l = x :: t.
Proof.
  intros Hm Hl. destruct (ztake m l) as [|x t] eqn:E; [|by exists x, t].
  pose proof (zlen_take m l ltac:(lia)) as Hz. rewrite E in Hz. change (zlen []) with 0 in Hz. lia.
Qed.

Lemma read_rest_spec fuel : forall fd p pos bs k,
  readers k !! fd = Some (p, pos) -> files k !! p = Some bs -> 0 <= pos <= zlen bs -> zlen bs - pos < Z.of_nat fuel ->
  exists k', read_rest fuel fd k = Some (zdrop pos bs, k') /\ files k' = files k.
Proof.
  induction fuel as [|fuel IH]; intros fd p pos bs k Hr Hf Hp Hfuel; [lia|]. cbn [read_rest].
  destruct (read_spec fd p pos bs BUFSIZ k Hr Hf Hp bufsiz_pos) as (m & k1 & E & Hm & Hm2 & Hm3 & Ef & Er). run_call E.
  destruct (Z.eqb_spec pos (zlen bs)) as [->|Hne].
  - rewrite ztake_0 by lia. exists k1. by rewrite zdrop_ge by lia.
  - destruct (ztake_nonempty (zdrop pos bs) m) as (x & t & Ext); [lia|rewrite zlen_drop; lia|]. rewrite Ext.
    destruct (IH fd p (pos + m) bs k1) as (k' & E' & Ef'); [done|by rewrite Ef|lia|lia|].
    exists k'. rewrite (st_bind_eq _ _ _ _ _ E'). rewrite <- Ext. split; [|congruence].
    unfold mret, st_ret. do 2 f_equal. rewrite <- (zdrop_zdrop m pos) by lia. apply ztake_drop.
Qed.

Lemma read_upto_spec fuel : forall fd p pos bs k,
  readers k !! fd = Some (p, pos) -> files k !! p = Some bs -> 0 <= pos <= zlen bs -> zlen bs - pos < Z.of_nat fuel ->
  exists k', read_upto fuel fd (zlen bs - pos) k = Some (zdrop pos bs, k') /\ files k' = files k.
Proof.
  induction fuel as [|fuel IH]; intros fd p pos bs k Hr Hf Hp Hfuel; [lia|]. cbn [read_upto].
  destruct (Z.leb_spec (zlen bs - pos) 0); [exists k; by rewrite zdrop_ge by lia|].
  destruct (read_spec fd p pos bs (zlen bs - pos) k Hr Hf Hp ltac:(lia)) as (m & k1 & E & Hm & Hm2 & Hm3 & Ef & Er). run_call E.
  destruct (ztake_nonempty (zdrop pos bs) m) as (x & t & Ext); [lia|rewrite zlen_drop; lia|].
  assert (zlen (ztake m (zdrop pos bs)) = m) as Hz by (apply zlen_take; rewrite zlen_drop; lia).
  rewrite Ext in *. rewrite Hz. replace (zlen bs - pos - m) with (zlen bs - (pos + m)) by lia.
  destruct (IH fd p (pos + m) bs k1) as (k' & E' & Ef'); [done|by rewrite Ef|lia|lia|].
  exists k'. rewrite (st_bind_eq _ _ _ _ _ E'). rewrite <- Ext. split; [|congruence].
  unfold mret, st_ret. do 2 f_equal. rewrite <- (zdrop_zdrop m pos) by lia. apply ztake_drop.
Qed.

Lemma write_all_spec fuel : forall fd p old bs k,
  writers k !! fd = Some p -> files k !! p = Some old -> room k (zlen bs) -> zlen bs <= Z.of_nat fuel ->
  exists k', write_all fuel fd bs k = Some (true, k') /\ files k' = <[p := old ++ bs]> (files k).
Proof.
  assert (forall fuel fd p old k, files k !! p = Some old ->
    exists k', write_all fuel fd [] k = Some (true, k') /\ files k' = <[p := old ++ []]> (files k)) as Hnil.
  { intros fuel' fd p old k Hf. exists k. split; [by destruct fuel'|]. by rewrite app_nil_r, insert_id. }
  induction fuel as [|fuel IH]; intros fd p old bs k Hw Hf Hroom Hfuel.
  - rewrite (zlen_nil_inv bs) by lia. by apply Hnil.
  - destruct (decide (bs = [])) as [->|Hne]; [by apply Hnil|]. cbn [write_all]. rewrite is_empty_false by done.
    destruct (write_spec fd p old bs k Hw Hf Hne Hroom) as (n & k1 & E & Hn & Ef & Ew & Hr). run_call E.
    destruct (Z.leb_spec n 0); [lia|].
    destruct (IH fd p (old ++ ztake n bs) (zdrop n bs) k1) as (k' & E' & Ef'); [done|by rewrite Ef, lookup_insert_eq| | |].
    + by rewrite zlen_drop by lia.
    + rewrite zlen_drop by lia. lia.
    + exists k'. split; [done|]. by rewrite Ef', Ef, insert_insert_eq, <- (assoc_L (++)), ztake_drop.
Qed.

Lemma flush_spec fd p old bs k :
  writers k !! fd = Some p -> files k !! p = Some old -> room k (zlen bs) ->
  exists k', flush fd bs k = Some (true, k') /\ files k' = <[p := old ++ bs]> (files k).
Proof. intros. apply (write_all_spec (length bs)); try done. Qed.

(** ** Saving and loading *)

(** What saving makes of the old content. *)
Definition saved k p (c : list Z) (truncated : bool) : list Z :=
  (if truncated then [] else default [] (files k !! p)) ++ c.

Lemma stream_write_spec fd p old bs k :
  writers k !! fd = Some p -> files k !! p = Some old -> room k (zlen bs) ->
  exists buffered k1, stream_write fd bs k = Some ((true, buffered), k1) /\
    exists k2, flush fd buffered k1 = Some (true, k2) /\ files k2 = <[p := old ++ bs]> (files k).
Proof.
  intros Hw Hf Hr. destruct (flush_spec fd p old bs k Hw Hf Hr) as (k' & E & Ef). unfold stream_write.
  destruct (zlen bs <? BUFSIZ); [exists bs, k; split; [done|by exists k']|]. rewrite (st_bind_eq _ _ _ _ _ E).
  exists [], k'. split; [done|]. exists k'. done.
Qed.

Lemma SaveString_spec p c truncated k : c <> [] -> may_write k p -> room k (zlen c) ->
  exists k', SaveStringToFile p c truncated k = Some (true, k') /\ files k' = <[p := saved k p c truncated]> (files k).
Proof.
  intros Hc Hp Hr. unfold SaveStringToFile. rewrite is_empty_false by done.
  destruct (open_out_spec p truncated k Hp) as (fd & k1 & E1 & Hw & Ef & Hroom). run_call E1.
  destruct (stream_write_spec fd p (if truncated then [] else default [] (files k !! p)) c k1) as (buf & k2 & E2 & k3 & E3 & Ef3);
    [done|by rewrite Ef, lookup_insert_eq|by apply Hroom|].
  rewrite (st_bind_eq _ _ _ _ _ E2). unfold close_stream. exists (close_file fd k3). split.
  - rewrite (st_bind_eq _ _ k2 tt (close_file fd k3)); [done|]. by rewrite (st_bind_eq _ _ _ _ _ E3).
  - by rewrite close_file_spec, Ef3, Ef, insert_insert_eq.
Qed.

Lemma SaveBuffer_spec p c truncated k : c <> [] -> may_write k p -> room k (zlen c) ->
  exists k', SaveBufferToFile p c truncated k = Some (true, k') /\ files k' = <[p := saved k p c truncated]> (files k).
Proof.
  intros Hc Hp Hr. unfold SaveBufferToFile. rewrite is_empty_false by done.
  destruct (open_out_spec p truncated k Hp) as (fd & k1 & E1 & Hw & Ef & Hroom). run_call E1.
  destruct (stream_write_spec fd p (if truncated then [] else default [] (files k !! p)) c k1) as (buf & k2 & E2 & k3 & E3 & Ef3);
    [done|by rewrite Ef, lookup_insert_eq|by apply Hroom|].
  rewrite (st_bind_eq _ _ _ _ _ E2). exists (close_file fd k3). split.
  - rewrite (st_bind_eq _ _ k2 tt k3) by by rewrite (st_bind_eq _ _ _ _ _ E3). done.
  - by rewrite close_file_spec, Ef3, Ef, insert_insert_eq.
Qed.

Lemma LoadString_spec p bs x k fuel : files k !! p = Some bs -> zlen bs <= MAX_FILE_LENGTH -> zlen bs < Z.of_nat fuel ->
  exists k', LoadStringFromFile fuel p x k = Some ((true, bs), k').
Proof.
  intros Hf Hmax Hfuel. pose proof (zlen_nonneg bs). unfold LoadStringFromFile.
  destruct (open_in_spec p bs k Hf) as (fd & k1 & E1 & Ef1 & Er1). run_call E1. rewrite <- Ef1 in Hf.
  destruct (seek_end_spec _ _ _ _ _ Er1 Hf) as (k2 & E2 & Ef2 & Er2). run_call E2. rewrite <- Ef2 in Hf.
  destruct (Z.ltb_spec MAX_FILE_LENGTH (zlen bs)); [lia|]. destruct (Z.leb_spec 0 (zlen bs)); [|lia].
  destruct (seek_set_spec _ _ _ _ _ Er2 Hf) as (k3 & E3 & Ef3 & Er3). rewrite <- Ef3 in Hf.
  rewrite (st_bind_eq _ _ k2 tt k3) by by run_call E3.
  destruct (read_rest_spec fuel fd p 0 bs k3) as (k4 & E4 & Ef4); [done|done|lia|lia|]. rewrite (st_bind_eq _ _ _ _ _ E4).
  rewrite zdrop_0 by lia. by eexists.
Qed.

Lemma LoadBuffer_spec p bs x k fuel : files k !! p = Some bs -> zlen bs <= MAX_FILE_LENGTH -> zlen bs < Z.of_nat fuel ->
  exists k', LoadBufferFromFile fuel p x k = Some ((true, bs), k').
Proof.
  intros Hf Hmax Hfuel. pose proof (zlen_nonneg bs). unfold LoadBufferFromFile.
  destruct (open_in_spec p bs k Hf) as (fd & k1 & E1 & Ef1 & Er1). run_call E1. rewrite <- Ef1 in Hf.
  destruct (seek_end_spec _ _ _ _ _ Er1 Hf) as (k2 & E2 & Ef2 & Er2). run_call E2. rewrite <- Ef2 in Hf.
  destruct (Z.ltb_spec MAX_FILE_LENGTH (zlen bs)); [lia|]. destruct (Z.ltb_spec (zlen bs) 0); [lia|].
  destruct (Z.eqb_spec (zlen bs) 0); [rewrite (zlen_nil_inv bs) by lia; by eexists|].
  destruct (seek_set_spec _ _ _ _ _ Er2 Hf) as (k3 & E3 & Ef3 & Er3). rewrite <- Ef3 in Hf. run_call E3.
  change (0 =? -1) with false. cbn iota.
  destruct (read_upto_spec fuel fd p 0 bs k3) as (k4 & E4 & Ef4); [done|done|lia|lia|]. rewrite Z.sub_0_r in E4.
  rewrite (st_bind_eq _ _ _ _ _ E4). rewrite (zdrop_0 0 bs) by lia.
  rewrite zdrop_ge; [rewrite app_nil_r; by eexists|].
  unfold resize, zlen. rewrite length_app, length_replicate. unfold ztake. rewrite length_take. lia.
Qed.
End streams.

(** ** Searching *)

(** Positions of occurrences of [sub] from [from] on that do not overlap. *)
Fixpoint disjoint_at (sub s : list Z) (from : Z) (ps : list Z) : Prop :=
  match ps with
  | [] => True
  | p :: ps => from <= p /\ occurs_at sub s p /\ disjoint_at sub s (p + zlen sub) ps
  end.

Lemma disjoint_from sub s from from' ps : from <= from' -> disjoint_at sub s from' ps -> disjoint_at sub s from ps.
Proof. destruct ps as [|p ps]; [done|]. cbn. intros ? (? & ? & ?). split; [lia|done]. Qed.

Lemma occurs_len sub s p : 0 <= p -> sub <> [] -> occurs_at sub s p -> p + zlen sub <= zlen s.
Proof.
  intros Hp Hs Ho. unfold occurs_at in Ho. apply starts_with_app in Ho as [rest Hr].
  assert (0 < zlen sub) by (destruct sub; [done|rewrite zlen_cons; pose proof (zlen_nonneg sub); lia]).
  destruct (Z.leb_spec p (zlen s)) as [Hle|Hgt].
  - apply (f_equal zlen) in Hr. rewrite zlen_drop, zlen_app in Hr by lia. pose proof (zlen_nonneg rest). lia.
  - rewrite zdrop_ge in Hr by lia. by destruct sub.
Qed.

(** A search from [pos] finds the first occurrence from there. *)
Lemma find_first s sub pos : 0 <= pos <= zlen s ->
  match find s sub pos with
  | Some p => pos <= p /\ occurs_at sub s p /\ forall q, pos <= q < p -> ~ occurs_at sub s q
  | None => forall q, pos <= q <= zlen s -> ~ occurs_at sub s q
  end.
Proof.
  intros Hpos. unfold find. destruct (Z.ltb_spec (zlen s) pos); [lia|].
  assert (forall q, pos <= q -> occurs_at sub (zdrop pos s) (q - pos) <-> occurs_at sub s q) as Ho.
  { intros q Hq. unfold occurs_at. rewrite zdrop_zdrop by lia. by replace (pos + (q - pos)) with q by lia. }
  destruct (find_from sub (zdrop pos s) pos) as [p|] eqn:E.
  - apply find_from_Some in E as (Hp & Hocc & _ & Hn). split; [done|]. split; [by apply Ho|].
    intros q Hq. rewrite <- Ho by lia. apply Hn. lia.
  - intros q Hq. rewrite <- Ho by lia. eapply find_from_None; [done|]. rewrite zlen_drop by lia. lia.
Qed.

Lemma CountStrInStr_loop_spec fuel : forall str sub pos count,
  sub <> [] -> 0 <= pos <= zlen str -> 0 <= count <= pos -> zlen str < 2 ^ 31 -> zlen str - pos < Z.of_nat fuel ->
  exists ps, CountStrInStr_loop fuel str sub pos count = Some (count + zlen ps) /\ disjoint_at sub str pos ps /\
    forall qs, disjoint_at sub str pos qs -> zlen qs <= zlen ps.
Proof.
  induction fuel as [|fuel IH]; intros str sub pos count Hsub Hpos Hcount Hmax Hfuel; [lia|]. cbn [CountStrInStr_loop].
  assert (0 < zlen sub) as Hs by (destruct sub; [done|rewrite zlen_cons; pose proof (zlen_nonneg sub); lia]).
  pose proof (find_first str sub pos Hpos) as Hf. destruct (find str sub pos) as [p|].
  - destruct Hf as (Hp & Ho & Hfirst). pose proof (occurs_len sub str p ltac:(lia) Hsub Ho).
    unfold i32. rewrite wrapS_small by lia.
    destruct (IH str sub (p + zlen sub) (count + 1)) as (ps & E & Hps & Hmaxs); [done|lia..|].
    exists (p :: ps). rewrite zlen_cons. split; [rewrite E; f_equal; lia|]. split; [done|].
    intros [|q qs]; [change (zlen []) with 0; pose proof (zlen_nonneg ps); lia|]. cbn. intros (Hq & Hoq & Hqs).
    rewrite zlen_cons. destruct (Z.ltb_spec q p) as [Hqp|Hqp]; [by destruct (Hfirst q)|].
    pose proof (Hmaxs qs) as Hle. specialize (Hle ltac:(eapply disjoint_from; [|exact Hqs]; lia)). lia.
  - exists []. change (zlen []) with 0. rewrite Z.add_0_r. split; [done|]. split; [done|].
    intros [|q qs]; [done|]. cbn. intros (Hq & Hoq & _). destruct (Hf q); [|done].
    pose proof (occurs_len sub str q ltac:(lia) Hsub Hoq). lia.
Qed.

(** C36: [CountStrInStr] ends, and its result is the largest number of
    occurrences of [subStr] that do not overlap: searching from the left and
    skipping each occurrence found is optimal. *)
Theorem CountStrInStr_is_maximal (str subStr : list Z) : subStr <> [] -> zlen str < 2 ^ 31 ->
  exists n ps, CountStrInStr str subStr = Some n /\ n = zlen ps /\ disjoint_at subStr str 0 ps /\
    forall qs, disjoint_at subStr str 0 qs -> zlen qs <= n.
Proof.
  intros Hs Hmax. unfold CountStrInStr. rewrite is_empty_false by done. pose proof (zlen_nonneg str).
  destruct (CountStrInStr_loop_spec (S (length str)) str subStr 0 0) as (ps & E & Hps & Hm); [done|lia|lia|done|unfold zlen; lia|].
  exists (zlen ps), ps. rewrite E. done.
Qed.

Lemma CountStrInStr_is_maximal_witness :
  exists n ps, CountStrInStr [97; 97; 97; 98; 97; 97; 97] [97; 97] = Some n /\ n = zlen ps /\
    disjoint_at [97; 97] [97; 97; 97; 98; 97; 97; 97] 0 ps /\
    forall qs, disjoint_at [97; 97] [97; 97; 97; 98; 97; 97; 97] 0 qs -> zlen qs <= n.
Proof. apply (CountStrInStr_is_maximal [97; 97; 97; 98; 97; 97; 97] [97; 97]); [done|vm_compute; reflexivity]. Defined.

Example count_run : CountStrInStr [97; 97; 97; 98; 97; 97; 97] [97; 97] = Some 2.
Proof. reflexivity. Qed.

Lemma find_is_Some s sub : is_Some (find s sub 0) <-> exists pre post, s = pre ++ sub ++ post.
Proof.
  pose proof (zlen_nonneg s). pose proof (find_first s sub 0 ltac:(lia)) as Hf. destruct (find s sub 0) as [p|].
  - split; [|by eexists]. intros _. destruct Hf as (Hp & Ho & _). unfold occurs_at in Ho. apply starts_with_app in Ho as [rest Hr].
    exists (ztake p s), rest. by rewrite <- Hr, ztake_drop.
  - split; [by intros []|]. intros (pre & post & ->). destruct (Hf (zlen pre)).
    + rewrite !zlen_app. pose proof (zlen_nonneg pre). pose proof (zlen_nonneg sub). pose proof (zlen_nonneg post). lia.
    + unfold occurs_at. rewrite zdrop_app_exact. apply starts_with_app. by exists post.
Qed.

Section contents.
Context {K : Type} `{DirOS K} `{FileLaws K}.
Implicit Types k : K.

(** A file above the limit is refused, and the result keeps what it held. *)
Lemma LoadString_too_long p bs x k fuel : files k !! p = Some bs -> MAX_FILE_LENGTH < zlen bs ->
  exists k', LoadStringFromFile fuel p x k = Some ((false, x), k').
Proof.
  intros Hf Hmax. unfold LoadStringFromFile.
  destruct (open_in_spec p bs k Hf) as (fd & k1 & E1 & Ef1 & Er1). run_call E1. rewrite <- Ef1 in Hf.
  destruct (seek_end_spec _ _ _ _ _ Er1 Hf) as (k2 & E2 & Ef2 & Er2). run_call E2.
  destruct (Z.ltb_spec MAX_FILE_LENGTH (zlen bs)); [by eexists|lia].
Qed.

Lemma LoadBuffer_too_long p bs x k fuel : files k !! p = Some bs -> MAX_FILE_LENGTH < zlen bs ->
  exists k', LoadBufferFromFile fuel p x k = Some ((false, x), k').
Proof.
  intros Hf Hmax. unfold LoadBufferFromFile.
  destruct (open_in_spec p bs k Hf) as (fd & k1 & E1 & Ef1 & Er1). run_call E1. rewrite <- Ef1 in Hf.
  destruct (seek_end_spec _ _ _ _ _ Er1 Hf) as (k2 & E2 & Ef2 & Er2). run_call E2.
  destruct (Z.ltb_spec MAX_FILE_LENGTH (zlen bs)); [by eexists|lia].
Qed.

(** The file after a call that saves [c]: one that saves nothing does not even
    open it. *)
Definition file_after k p (c : list Z) (truncated : bool) : option (list Z) :=
  if bool_decide (c = []) then files k !! p else Some (saved k p c truncated).

Lemma SaveString_after p c truncated k bs : (c <> [] -> may_write k p /\ room k (zlen c)) ->
  file_after k p c truncated = Some bs -> exists k1, SaveStringToFile p c truncated k = Some (true, k1) /\ files k1 !! p = Some bs.
Proof.
  unfold file_after. intros Hw. case_bool_decide as Hc; [subst c; intros Hf; by exists k|]. intros [= <-]. destruct (Hw Hc) as [Hp Hr].
  destruct (SaveString_spec p c truncated k Hc Hp Hr) as (k1 & E1 & Ef). exists k1. by rewrite Ef, lookup_insert_eq.
Qed.

Lemma SaveBuffer_after p c truncated k bs : (c <> [] -> may_write k p /\ room k (zlen c)) ->
  file_after k p c truncated = Some bs -> exists k1, SaveBufferToFile p c truncated k = Some (true, k1) /\ files k1 !! p = Some bs.
Proof.
  unfold file_after. intros Hw. case_bool_decide as Hc; [subst c; intros Hf; by exists k|]. intros [= <-]. destruct (Hw Hc) as [Hp Hr].
  destruct (SaveBuffer_spec p c truncated k Hc Hp Hr) as (k1 & E1 & Ef). exists k1. by rewrite Ef, lookup_insert_eq.
Qed.

(** C37: What is saved can be loaded: with room on the disk, saving a string or a
    buffer reports success, and loading the file then gives the saved content,
    after the old content if the file was not truncated, whatever the result held
    before. Saving an empty string or buffer reports success too but leaves the
    file as it was, truncated or not, so that loading gives the old content. A
    file that has become longer than 32 MiB is not loaded: the call returns
    false and the result keeps what it held. *)
Theorem saved_content_is_loaded p c truncated x k fuel bs :
  (c <> [] -> may_write k p /\ room k (zlen c)) -> file_after k p c truncated = Some bs -> zlen bs < Z.of_nat fuel ->
  let loaded := if zlen bs <=? MAX_FILE_LENGTH then (true, bs) else (false, x) in
  (exists k1 k2, SaveStringToFile p c truncated k = Some (true, k1) /\ LoadStringFromFile fuel p x k1 = Some (loaded, k2)) /\
  (exists k1 k2, SaveBufferToFile p c truncated k = Some (true, k1) /\ LoadBufferFromFile fuel p x k1 = Some (loaded, k2)).
Proof.
  intros Hw Hf Hfuel loaded. unfold loaded. split.
  - destruct (SaveString_after p c truncated k bs Hw Hf) as (k1 & E1 & Ef). destruct (Z.leb_spec (zlen bs) MAX_FILE_LENGTH).
    + destruct (LoadString_spec p bs x k1 fuel) as (k2 & E2); [done..|]. by exists k1, k2.
    + destruct (LoadString_too_long p bs x k1 fuel) as (k2 & E2); [done..|]. by exists k1, k2.
  - destruct (SaveBuffer_after p c truncated k bs Hw Hf) as (k1 & E1 & Ef). destruct (Z.leb_spec (zlen bs) MAX_FILE_LENGTH).
    + destruct (LoadBuffer_spec p bs x k1 fuel) as (k2 & E2); [done..|]. by exists k1, k2.
    + destruct (LoadBuffer_too_long p bs x k1 fuel) as (k2 & E2); [done..|]. by exists k1, k2.
Qed.

(** The search in a file is the search in its content. *)
Lemma StringExistsInFile_spec p bs sub k fuel : sub <> [] ->
  files k !! p = Some bs -> zlen bs <= MAX_FILE_LENGTH -> zlen bs < Z.of_nat fuel ->
  exists b k', StringExistsInFile fuel p sub true k = Some (b, k') /\ (b = true <-> exists pre post, bs = pre ++ sub ++ post).
Proof.
  intros Hs Hf Hmax Hfuel. unfold StringExistsInFile. rewrite is_empty_false by done.
  destruct (LoadString_spec p bs [] k fuel Hf Hmax Hfuel) as (k' & E). rewrite (st_bind_eq _ _ _ _ _ E). cbn [negb].
  exists (bool_decide (is_Some (find bs sub 0))), k'. split; [done|]. rewrite bool_decide_eq_true. apply find_is_Some.
Qed.

(** Reading a node byte by byte ends at the length limit if not before, even
    where [feof] never holds. *)
Lemma node_loop_ends fuel : forall k fp ch eof count content, MAX_FILE_LENGTH - count + 2 <= Z.of_nat fuel -> (0 < fuel)%nat ->
  is_Some (LoadBufferFromNodeFile_loop fuel fp ch eof count content k).
Proof.
  induction fuel as [|fuel IH]; intros k fp ch eof count content Hf Hp; [lia|]. cbn [LoadBufferFromNodeFile_loop].
  destruct eof; [by eexists|]. destruct (Z.ltb_spec MAX_FILE_LENGTH count); [by eexists|].
  unfold mbind, st_bind. unfold fgetc at 1, mbind, st_bind, st_call. destruct (read fp 1 k) as [r k'].
  cbn [mret st_ret]. destruct (match r with None => _ | Some _ => _ end) as [c e]. apply IH; lia.
Qed.
End contents.

(** ** A disk with files *)

(** [kroom] bytes are free; the paths [knodes] are nodes that cannot seek. *)
Record fdisk := {
  kfiles : gmap (list Z) (list Z);
  kreaders : gmap Z (list Z * Z);
  kwriters : gmap Z (list Z);
  kroom : Z;
  knodes : gset (list Z);
}.

Definition set_reader (fd : Z) (p : list Z) (pos : Z) (k : fdisk) : fdisk :=
  {| kfiles := kfiles k; kreaders := <[fd := (p, pos)]> (kreaders k); kwriters := kwriters k; kroom := kroom k; knodes := knodes k |}.
Definition set_files (m : gmap (list Z) (list Z)) (room : Z) (k : fdisk) : fdisk :=
  {| kfiles := m; kreaders := kreaders k; kwriters := kwriters k; kroom := room; knodes := knodes k |}.
Definition set_writer (fd : Z) (p : list Z) (k : fdisk) : fdisk :=
  {| kfiles := kfiles k; kreaders := kreaders k; kwriters := <[fd := p]> (kwriters k); kroom := kroom k; knodes := knodes k |}.

Definition seek_to (fd : Z) (f : list Z -> Z) (k : fdisk) : Z * fdisk :=
  match kreaders k !! fd with
  | Some (p, _) =>
      match kfiles k !! p with
      | Some bs => if decide (p ∈ knodes k) then (-1, k) else (f bs, set_reader fd p (f bs) k)
      | None => (-1, k)
      end
  | None => (-1, k)
  end.

#[export] Instance demo_file_os : FileOS fdisk := {
  open_in p k := if kfiles k !! p is Some _
    then let fd := above (dom (kreaders k)) in (Some fd, set_reader fd p 0 k) else (None, k);
  open_out p trunc k := let fd := above (dom (kwriters k)) in
    (Some fd, set_writer fd p (set_files (<[p := if trunc then [] else default [] (kfiles k !! p)]> (kfiles k)) (kroom k) k));
  seek_end fd k := seek_to fd zlen k;
  seek_set fd k := seek_to fd (fun _ => 0) k;
  read fd n k := match kreaders k !! fd with
    | Some (p, pos) =>
        match kfiles k !! p with
        | Some bs => let m := Z.min n (zlen bs - pos) in (Some (ztake m (zdrop pos bs)), set_reader fd p (pos + m) k)
        | None => (None, k)
        end
    | None => (None, k)
    end;
  write fd bs k := match kwriters k !! fd with
    | Some p =>
        match kfiles k !! p with
        | Some old => let n := Z.min (zlen bs) (Z.min 3 (kroom k)) in   (** three bytes at a time *)
            if n <=? 0 then (-1, k) else (n, set_files (<[p := old ++ ztake n bs]> (kfiles k)) (kroom k - n) k)
        | None => (-1, k)
        end
    | None => (-1, k)
    end;
  close_file _ k := k;
  BUFSIZ := 4;
}.

(** Only the paths matter here. *)
#[export] Instance demo_paths : DirOS fdisk := {
  access p k := bool_decide (p ∈ dom (kfiles k));
  mkdir _ _ k := (1, k); remove p k := (false, k); chmod _ _ k := (false, k);
  realpath p k := if kfiles k !! p is Some _ then Some p else None;
  readlink _ _ := None; stat _ _ := None; lstat _ _ := None; open_path _ _ k := (-1, k); opendir _ k := (None, k);
  fdopendir _ k := (None, k); dirfd _ _ := -1; readdir _ k := (None, k); closedir _ k := k; DirectoryEx.close _ k := k;
  openat _ _ _ k := (-1, k); fstatat _ _ _ _ := None; faccessat _ _ _ _ := false; unlinkat _ _ _ k := (false, k);
}.

(** The regular files. *)
Definition regular (k : fdisk) : gmap (list Z) (list Z) := filter (fun kv => kv.1 ∉ knodes k) (kfiles k).

Lemma regular_Some k p bs : regular k !! p = Some bs <-> kfiles k !! p = Some bs /\ p ∉ knodes k.
Proof. unfold regular. by rewrite map_lookup_filter_Some. Qed.

Lemma regular_insert m room k p bs : p ∉ knodes k ->
  regular (set_files (<[p := bs]> m) room k) = <[p := bs]> (filter (fun kv => kv.1 ∉ knodes k) m).
Proof. intros Hp. unfold regular. cbn. by rewrite map_filter_insert_True. Qed.

Lemma seek_to_spec fd p pos bs f k : kreaders k !! fd = Some (p, pos) -> regular k !! p = Some bs ->
  seek_to fd f k = (f bs, set_reader fd p (f bs) k).
Proof. intros Hr [Hf Hn]%regular_Some. unfold seek_to. rewrite Hr, Hf. by rewrite decide_False. Qed.

#[export] Instance demo_file_laws : FileLaws fdisk.
Proof.
  refine {| files := regular; readers := kreaders; writers k := filter (fun kv => kv.2 ∉ knodes k) (kwriters k);
            may_write k p := p ∉ knodes k; room k n := n <= kroom k |}.
  - done.
  - intros p bs k [Hf Hn]%regular_Some. cbn. rewrite Hf. do 2 eexists. split; [done|]. split; [done|]. cbn. by rewrite lookup_insert_eq.
  - intros fd p pos bs k Hr Hf. exists (set_reader fd p (zlen bs) k). split; [by apply (seek_to_spec fd p pos bs)|]. split; [done|].
    cbn. by rewrite lookup_insert_eq.
  - intros fd p pos bs k Hr Hf. exists (set_reader fd p 0 k). split; [by apply (seek_to_spec fd p pos bs)|]. split; [done|].
    cbn. by rewrite lookup_insert_eq.
  - intros fd p pos bs n k Hr [Hf Hn]%regular_Some Hp Hpos. cbn. rewrite Hr, Hf. do 2 eexists. split; [done|].
    split; [lia|]. split; [lia|]. split; [lia|]. split; [done|]. cbn. by rewrite lookup_insert_eq.
  - done.
  - intros p trunc k Hp. do 2 eexists. split; [done|]. split; [|split; [|done]].
    + cbn. apply map_lookup_filter_Some. rewrite lookup_insert_eq. done.
    + change (regular (set_files (<[p := if trunc then [] else default [] (kfiles k !! p)]> (kfiles k)) (kroom k) k) =
              <[p := if trunc then [] else default [] (regular k !! p)]> (regular k)).
      rewrite regular_insert by done. f_equal. destruct trunc; [done|]. unfold regular.
      destruct (kfiles k !! p) as [bs|] eqn:E; cbn.
      * by rewrite (proj2 (map_lookup_filter_Some _ _ _ _) (conj E Hp)).
      * by rewrite (proj2 (map_lookup_filter_None _ _ _)) by by left.
  - intros fd p old bs k Hw [Hf Hn]%regular_Some Hne Hroom.
    assert (Hw' := Hw). apply map_lookup_filter_Some in Hw' as [Hw' _]. cbn. rewrite Hw', Hf.
    assert (0 < zlen bs) by (destruct bs; [done|rewrite zlen_cons; pose proof (zlen_nonneg bs); lia]).
    destruct (Z.leb_spec (Z.min (zlen bs) (Z.min 3 (kroom k))) 0); [lia|]. do 2 eexists. split; [done|]. split; [lia|].
    split; [by rewrite regular_insert|]. split; [exact Hw|]. cbn. lia.
Defined.

(** ** Runs *)

Definition path_f : list Z := [47; 102].
Definition path_n : list Z := [47; 110].
Definition demo_fdisk : fdisk :=
  {| kfiles := list_to_map [(path_f, [1; 2]); (path_n, [7; 8]); ([47; 101], [])]; kreaders := {[5 := ([47; 101], 0)]};
     kwriters := ∅; kroom := 100; knodes := {[path_n]} |}.

Lemma saved_content_is_loaded_witness :
  ((exists k1 k2, SaveStringToFile path_f [3; 4; 5; 6; 7] false demo_fdisk = Some (true, k1) /\
     LoadStringFromFile 9 path_f [9] k1 = Some ((true, [1; 2; 3; 4; 5; 6; 7]), k2)) /\
   (exists k1 k2, SaveBufferToFile path_f [3; 4; 5; 6; 7] false demo_fdisk = Some (true, k1) /\
     LoadBufferFromFile 9 path_f [9] k1 = Some ((true, [1; 2; 3; 4; 5; 6; 7]), k2))) /\
  (exists k1 k2, SaveStringToFile path_f [] true demo_fdisk = Some (true, k1) /\
     LoadStringFromFile 9 path_f [9] k1 = Some ((true, [1; 2]), k2)).
Proof.
  split.
  - apply (saved_content_is_loaded path_f [3; 4; 5; 6; 7] false [9] demo_fdisk 9 [1; 2; 3; 4; 5; 6; 7]).
    + intros _. split; [refine (proj1 (bool_decide_eq_true (path_f ∉ knodes demo_fdisk)) _); vm_compute; reflexivity|vm_compute; congruence].
    + vm_compute. reflexivity.
    + vm_compute. reflexivity.
  - apply (saved_content_is_loaded path_f [] true [9] demo_fdisk 9 [1; 2]); [done|vm_compute; reflexivity|vm_compute; reflexivity].
Defined.

(** Loading the empty file from its descriptor reports success and keeps what the string held. *)
Example LoadStringFromFd_keeps_content : (fst <$> LoadStringFromFd 9 5 [1; 2; 3] demo_fdisk) = Some (true, [1; 2; 3]).
Proof. vm_compute. reflexivity. Qed.

(** The content of a node is appended to the buffer; that of a file replaces it. *)
Example LoadBuffer_appends_a_node :
  (fst <$> LoadBufferFromFile 9 path_n [9] demo_fdisk) = Some (true, [9; 7; 8]) /\
  (fst <$> LoadBufferFromFile 9 path_f [9] demo_fdisk) = Some (true, [1; 2]).
Proof. split; vm_compute; reflexivity. Qed.

(** On a full disk a short content is lost when the stream is closed or flushed; both functions report success. *)
Definition full_disk : fdisk := set_files (kfiles demo_fdisk) 0 demo_fdisk.
Example full_disk_goes_unnoticed :
  (fst <$> SaveStringToFile path_f [3; 4; 5] true full_disk) = Some true /\
  (fst <$> SaveBufferToFile path_f [3; 4; 5; 6; 7] true full_disk) = Some true /\
  ('(_, k) ← SaveBufferToFile path_f [3; 4; 5; 6; 7] true full_disk; files k !! path_f) = Some [].
Proof. split_and!; vm_compute; reflexivity. Qed.
