(* ===== verification/SafeQueue.v ===== *)
(** * Queues and stacks with a lock ([base/include/safe_queue.h])

    [SafeQueueInner] keeps a deque and takes [mutex_] for the whole of each
    operation, so what threads do concurrently is a sequence of operations.
    Its virtual methods are a class, [SafeQueue] and [SafeStack] are its
    instances. *)

From S2P Require Import Prelude.

(** [DoPop] writes through its reference argument. *)
Class QueueMethods (T : Type) := {
  DoPush : T -> list T -> list T;
  DoPop : T -> list T -> bool * T * list T;
}.

Definition SafeQueue_DoPush {T} (pt : T) (deque_ : list T) : list T := deque_ ++ [pt].
Definition SafeQueue_DoPop {T} (pt : T) (deque_ : list T) : bool * T * list T :=
  match deque_ with
  | x :: rest => (true, x, rest)
  | [] => (false, pt, deque_)
  end.
Definition SafeQueue {T} : QueueMethods T := {| DoPush := SafeQueue_DoPush; DoPop := SafeQueue_DoPop |}.

Definition SafeStack_DoPush {T} (pt : T) (deque_ : list T) : list T := deque_ ++ [pt].
Definition SafeStack_DoPop {T} (pt : T) (deque_ : list T) : bool * T * list T :=
  match last deque_ with
  | Some x => (true, x, take (length deque_ - 1) deque_)
  | None => (false, pt, deque_)
  end.
Definition SafeStack {T} : QueueMethods T := {| DoPush := SafeStack_DoPush; DoPop := SafeStack_DoPop |}.

Section operations.
Context {T : Type} `{EqDecision T} `{QueueMethods T}.

(** The loop of [Erase]: the element it stops at goes. *)
Fixpoint Erase (object : T) (deque_ : list T) : list T :=
  match deque_ with
  | [] => []
  | x :: rest => if decide (x = object) then rest else x :: Erase object rest
  end.

Definition Empty (deque_ : list T) : bool := bool_decide (deque_ = []).
Definition Push (pt : T) (deque_ : list T) : list T := DoPush pt deque_.
Definition Clear (deque_ : list T) : list T := if Empty deque_ then deque_ else [].
Definition Size (deque_ : list T) : Z := i32 (zlen deque_).
Definition Pop (pt : T) (deque_ : list T) : bool * T * list T := DoPop pt deque_.

Inductive queue_op := OpPush (pt : T) | OpPop (pt : T) | OpErase (object : T) | OpClear | OpSize | OpEmpty.
Inductive answer := Popped (ok : bool) (pt : T) | IntIs (n : Z) | BoolIs (b : bool) | Done.

Definition apply_op (op : queue_op) (deque_ : list T) : answer * list T :=
  match op with
  | OpPush pt => (Done, Push pt deque_)
  | OpPop pt => let '(ok, v, d) := Pop pt deque_ in (Popped ok v, d)
  | OpErase object => (Done, Erase object deque_)
  | OpClear => (Done, Clear deque_)
  | OpSize => (IntIs (Size deque_), deque_)
  | OpEmpty => (BoolIs (Empty deque_), deque_)
  end.

(** The operations in the order they took the lock, with their answers. *)
Fixpoint run_ops (ops : list queue_op) (deque_ : list T) : list answer * list T :=
  match ops with
  | [] => ([], deque_)
  | op :: ops =>
      let '(a, d) := apply_op op deque_ in
      let '(r, d') := run_ops ops d in (a :: r, d')
  end.

Lemma run_ops_app ops1 ops2 d :
  run_ops (ops1 ++ ops2) d = let '(r, d1) := run_ops ops1 d in let '(r', d2) := run_ops ops2 d1 in (r ++ r', d2).
Proof.
  revert d. induction ops1 as [|op ops1 IH]; intros d; cbn; [by destruct (run_ops ops2 d)|].
  destruct (apply_op op d) as [a d1]. rewrite IH. destruct (run_ops ops1 d1) as [r d2]. by destruct (run_ops ops2 d2).
Qed.

(** What went in, and what came out by [Pop]. *)
Definition pushed (ops : list queue_op) : list T := ops ≫= fun op => if op is OpPush x then [x] else [].
Definition popped (r : list answer) : list T := r ≫= fun a => if a is Popped true x then [x] else [].
(** Nothing is dropped. *)
Definition keeps (op : queue_op) : bool := match op with OpErase _ | OpClear => false | _ => true end.

Lemma Erase_sublist x d : Erase x d `sublist_of` d.
Proof. induction d as [|y d IH]; cbn; [done|]. case_decide; by constructor. Qed.

Lemma Erase_spec x d :
  (x ∉ d /\ Erase x d = d) \/ exists d1 d2, d = d1 ++ x :: d2 /\ x ∉ d1 /\ Erase x d = d1 ++ d2.
Proof.
  induction d as [|y d IH]; cbn; [left; split; [apply not_elem_of_nil|done]|]. case_decide as Hy.
  - subst. right. exists [], d. split_and!; [done|apply not_elem_of_nil|done].
  - destruct IH as [[Hx E]|(d1 & d2 & -> & Hx & E)]; rewrite ?E.
    + left. split; [set_solver|done].
    + right. exists (y :: d1), d2. split_and!; [done|set_solver|done].
Qed.

Lemma Clear_nil d : Clear d = [].
Proof. unfold Clear, Empty. by case_bool_decide. Qed.
End operations.

Arguments queue_op : clear implicits.
Arguments answer : clear implicits.

(** ** First in, first out *)

Section fifo.
Context {T : Type} `{EqDecision T}.
#[local] Existing Instance SafeQueue.
Implicit Types (d : list T) (ops : list (queue_op T)).

Lemma pop_order op d :
  let '(a, d1) := apply_op op d in
  popped [a] ++ d1 `sublist_of` d ++ pushed [op] /\ (keeps op = true -> popped [a] ++ d1 = d ++ pushed [op]).
Proof.
  destruct op as [pt|pt|x| | |]; cbn; rewrite ?app_nil_r.
  - done.
  - destruct d as [|y d]; cbn; done.
  - split; [apply Erase_sublist|done].
  - rewrite Clear_nil. split; [apply sublist_nil_l|done].
  - done.
  - done.
Qed.

Lemma pushed_cons op ops : pushed (op :: ops) = pushed [op] ++ pushed ops.
Proof. unfold pushed. cbn. by rewrite app_nil_r. Qed.
Lemma popped_cons (a : answer T) r : popped (a :: r) = popped [a] ++ popped r.
Proof. unfold popped. cbn. by rewrite app_nil_r. Qed.

(** A [SafeQueue] is first in, first out, whatever the threads do: what
    [Pop] gave, followed by what the queue holds, is what was pushed, in the
    order it was pushed, with nothing twice and nothing made up; without
    [Erase] and [Clear] nothing is missing either. *)
Theorem SafeQueue_is_fifo ops d :
  let '(r, d') := run_ops ops d in
  popped r ++ d' `sublist_of` d ++ pushed ops /\
  (forallb keeps ops = true -> popped r ++ d' = d ++ pushed ops).
Proof.
  revert d. induction ops as [|op ops IH]; intros d; cbn [run_ops]; [by rewrite app_nil_r|].
  pose proof (pop_order op d) as Hp. destruct (apply_op op d) as [a d1]. specialize (IH d1).
  destruct (run_ops ops d1) as [r d'], Hp as [Hs1 He1], IH as [Hs2 He2].
  rewrite popped_cons, pushed_cons, <- !app_assoc. split.
  - transitivity (popped [a] ++ d1 ++ pushed ops); [by apply sublist_app|]. rewrite !app_assoc. by apply sublist_app.
  - cbn [forallb]. intros [H1 H2]%andb_true_iff. by rewrite He2, app_assoc, He1, <- app_assoc.
Qed.
End fifo.

(** ** Last in, first out *)

Section lifo.
Context {T : Type} `{EqDecision T}.
#[local] Existing Instance SafeStack.
Implicit Types (d : list T) (ops : list (queue_op T)).

(** Every push has its pop. *)
Inductive balanced : list (queue_op T) -> Prop :=
  | balanced_nil : balanced []
  | balanced_app ops1 ops2 : balanced ops1 -> balanced ops2 -> balanced (ops1 ++ ops2)
  | balanced_size : balanced [OpSize]
  | balanced_empty : balanced [OpEmpty]
  | balanced_pair x pt ops : balanced ops -> balanced (OpPush x :: ops ++ [OpPop pt]).

Lemma pop_last x pt d : SafeStack_DoPop pt (d ++ [x]) = (true, x, d).
Proof.
  unfold SafeStack_DoPop. rewrite last_snoc, length_app, take_app_le by (cbn; lia).
  rewrite take_ge; [done|]. cbn. lia.
Qed.

Lemma stack_pair x pt ops d : (exists r, run_ops ops (d ++ [x]) = (r, d ++ [x])) ->
  exists r, run_ops (OpPush x :: ops ++ [OpPop pt]) d = (Done :: r ++ [Popped true x], d).
Proof.
  intros [r E]. exists r. cbn. unfold SafeStack_DoPush. rewrite run_ops_app, E. cbn. by rewrite pop_last.
Qed.

Lemma balanced_restores ops d : balanced ops -> exists r, run_ops ops d = (r, d).
Proof.
  intros Hb. revert d. induction Hb as [|ops1 ops2 _ IH1 _ IH2| | |x pt ops _ IH]; intros d; [by eexists| |by eexists|by eexists|].
  - destruct (IH1 d) as [r1 E1], (IH2 d) as [r2 E2]. exists (r1 ++ r2). by rewrite run_ops_app, E1, E2.
  - destruct (stack_pair x pt ops d (IH _)) as [r E]. by eexists.
Qed.

(** A [SafeStack] is last in, first out: a [Pop] after a [Push] and pushes
    that were popped again gives what that [Push] put, and leaves the stack as
    it was before. *)
Lemma SafeStack_is_lifo x pt ops d : balanced ops ->
  exists r, run_ops (OpPush x :: ops ++ [OpPop pt]) d = (Done :: r ++ [Popped true x], d).
Proof. intros Hb. by apply stack_pair, balanced_restores. Qed.

Lemma empty_stack_pops_nothing (pt : T) : run_ops [OpPop pt] [] = ([Popped false pt], []).
Proof. done. Qed.
End lifo.

(** ** Concrete runs *)

#[local] Existing Instance SafeQueue.

Definition demo_queue_ops : list (queue_op Z) := [OpPush 1; OpPush 2; OpPop 0; OpPush 3; OpSize; OpPop 0].

Lemma SafeQueue_is_fifo_witness :
  run_ops demo_queue_ops [] = ([Done; Done; Popped true 1; Done; IntIs 2; Popped true 2], [3]) /\
  forallb keeps demo_queue_ops = true /\ [1; 2] ++ [3] = [] ++ pushed demo_queue_ops.
Proof.
  split; [vm_compute; reflexivity|]. split; [vm_compute; reflexivity|].
  destruct (SafeQueue_is_fifo demo_queue_ops []) as [_ He]. apply He. vm_compute. reflexivity.
Defined.
