(* ===== verification/SafeMap.v ===== *)
(** * Maps with a lock ([base/include/safe_map.h])

    Every member function takes [mutex_] for its whole body, except the copy:
    [operator=] takes the lock of the right side for [Clone] and then its own.
    The objects are addresses in a store; a program is the sequence of the
    critical sections of its threads, in which another thread may come between
    the two of a copy. *)

From stdpp Require Import sorting.
From S2P Require Import Prelude.

(** [V()]. *)
Class ValueInit (V : Type) := value_init : V.
#[export] Instance Z_value_init : ValueInit Z := 0.

Section safe_map.
Context {K V : Type} `{Countable K} (le : relation K) `{!RelDecision le, !ValueInit V}.
(** [std::map<K, V>]: [le k k'] when [k'] is not less than [k]; the
    order only shows in the iteration. *)
Notation map_t := (gmap K V).
Implicit Types m : map_t.

(** [map_[key]]: a missing key gets a value-initialized [V]. *)
Definition subscript (key : K) m : V * map_t :=
  match m !! key with
  | Some v => (v, m)
  | None => (value_init, <[key := value_init]> m)
  end.
(** [map_.insert]: false when the key is there. *)
Definition map_insert (key : K) (value : V) m : bool * map_t :=
  match m !! key with
  | Some _ => (false, m)
  | None => (true, <[key := value]> m)
  end.

Definition ReadVal (key : K) m : V * map_t := subscript key m.

(** The callbacks change what they refer to and a state of their own. *)
Definition ChangeValueByLambda {W} (key : K) (callback : V -> W -> V * W) m (w : W) : map_t * W :=
  let '(v, m) := subscript key m in
  let '(v', w') := callback v w in (<[key := v']> m, w').

Definition Size m : Z := i32 (Z.of_nat (size m)).
Definition IsEmpty m : bool := bool_decide (m = ∅).
Definition Insert (key : K) (value : V) m : bool * map_t := map_insert key value m.

Definition EnsureInsert (key : K) (value : V) m : map_t :=
  let '(ret, m) := map_insert key value m in
  if negb ret then (map_insert key value (delete key m)).2 else m.

(** The result and [value]. *)
Definition Find (key : K) (value : V) m : bool * V :=
  match m !! key with
  | Some v => (true, v)
  | None => (false, value)
  end.

Definition FindOldAndSetNew (key : K) (oldValue newValue : V) m : bool * V * map_t :=
  if decide (0 < size m)%nat then
    match m !! key with
    | Some v => (true, v, (map_insert key newValue (delete key m)).2)
    | None => (false, oldValue, m)
    end
  else (false, oldValue, m).

Definition Erase (key : K) m : map_t := delete key m.
Definition Clear m : map_t := ∅.

(** The keys from [begin] to [end]. *)
Definition keys m : list K := merge_sort le (elements (dom m)).

Fixpoint Iterate_loop {W} (ks : list K) (callback : K -> V -> W -> V * W) m (w : W) : map_t * W :=
  match ks with
  | [] => (m, w)
  | k :: ks =>
      match m !! k with
      | Some v => let '(v', w') := callback k v w in Iterate_loop ks callback (<[k := v']> m) w'
      | None => Iterate_loop ks callback m w
      end
  end.
Definition Iterate {W} (callback : K -> V -> W -> V * W) m (w : W) : map_t * W :=
  if IsEmpty m then (m, w) else Iterate_loop (keys m) callback m w.

Definition Clone m : map_t := m.

(** ** Every operation is the one of a finite map *)

Lemma insert_after_delete key value m : (map_insert key value (delete key m)).2 = <[key := value]> m.
Proof. unfold map_insert. rewrite lookup_delete_eq. cbn. apply insert_delete_eq. Qed.

Lemma EnsureInsert_spec key value m : EnsureInsert key value m = <[key := value]> m.
Proof.
  unfold EnsureInsert, map_insert at 1. destruct (m !! key); cbn; [|done]. apply insert_after_delete.
Qed.

Lemma FindOldAndSetNew_spec key oldValue newValue m :
  FindOldAndSetNew key oldValue newValue m =
    match m !! key with
    | Some v => (true, v, <[key := newValue]> m)
    | None => (false, oldValue, m)
    end.
Proof.
  unfold FindOldAndSetNew. case_decide as Hs.
  - destruct (m !! key); [|done]. by rewrite insert_after_delete.
  - assert (m = ∅) as -> by (apply map_size_empty_iff; lia). by rewrite lookup_empty.
Qed.

Lemma ReadVal_spec key m : ReadVal key m = (default value_init (m !! key), <[key := default value_init (m !! key)]> m).
Proof. unfold ReadVal, subscript. destruct (m !! key) as [v|] eqn:E; cbn; [by rewrite insert_id|done]. Qed.

Lemma ChangeValueByLambda_spec {W} key (callback : V -> W -> V * W) m w :
  ChangeValueByLambda key callback m w =
    let '(v', w') := callback (default value_init (m !! key)) w in (<[key := v']> m, w').
Proof.
  unfold ChangeValueByLambda, subscript. destruct (m !! key) as [v|]; cbn; destruct (callback _ w) as [v' w']; [done|].
  by rewrite insert_insert_eq.
Qed.

(** ** Iteration *)

Lemma keys_perm m : keys m ≡ₚ elements (dom m).
Proof. apply merge_sort_Permutation. Qed.
Lemma keys_NoDup m : NoDup (keys m).
Proof. rewrite keys_perm. apply NoDup_elements. Qed.
Lemma elem_of_keys m k : k ∈ keys m <-> is_Some (m !! k).
Proof. rewrite keys_perm, elem_of_elements, elem_of_dom. done. Qed.

(** The visits, in order: each key with its value, and what the callback made
    of them. *)
Fixpoint visits {W} (callback : K -> V -> W -> V * W) (kvs : list (K * V)) (w : W) : list (K * V) * W :=
  match kvs with
  | [] => ([], w)
  | (k, v) :: kvs =>
      let '(v', w') := callback k v w in
      let '(r, w'') := visits callback kvs w' in ((k, v') :: r, w'')
  end.

Lemma visits_keys {W} (callback : K -> V -> W -> V * W) kvs w : (visits callback kvs w).1.*1 = kvs.*1.
Proof.
  revert w. induction kvs as [|[k v] kvs IH]; intros w; [done|]. cbn. destruct (callback k v w) as [v' w'].
  specialize (IH w'). destruct (visits callback kvs w') as [r w'']. cbn in *. by rewrite IH.
Qed.

Lemma Iterate_loop_spec {W} (callback : K -> V -> W -> V * W) kvs m w :
  NoDup kvs.*1 -> (forall k v, (k, v) ∈ kvs -> m !! k = Some v) ->
  Iterate_loop kvs.*1 callback m w =
    let '(r, w') := visits callback kvs w in (list_to_map r ∪ m, w').
Proof.
  revert m w. induction kvs as [|[k v] kvs IH]; intros m w Hnd Hm; cbn.
  - by rewrite (left_id_L ∅ (∪)).
  - rewrite (Hm k v) by (by left). destruct (callback k v w) as [v' w']. apply NoDup_cons in Hnd as [Hk Hnd].
    assert (forall i x, (i, x) ∈ kvs -> i <> k) as Hne.
    { intros i x Hi ->. apply Hk. apply list_elem_of_fmap. by exists (k, x). }
    rewrite IH; [|done|].
    + pose proof (visits_keys callback kvs w') as Hv. destruct (visits callback kvs w') as [r w'']. cbn in *.
      f_equal. rewrite <- insert_union_r; [by rewrite insert_union_l|].
      apply not_elem_of_list_to_map_1. by rewrite Hv.
    + intros i x Hi. rewrite lookup_insert_ne; [apply Hm; by right|]. intros <-. by eapply Hne.
Qed.

Lemma visits_ext {W} (callback : K -> V -> W -> V * W) kvs w r w' m :
  visits callback kvs w = (r, w') -> (forall k, is_Some (m !! k) -> k ∈ kvs.*1) -> list_to_map r ∪ m = list_to_map r.
Proof.
  intros E Hm. apply map_eq. intros i. rewrite lookup_union. destruct (list_to_map r !! i) as [x|] eqn:Ei.
  - by destruct (m !! i).
  - destruct (m !! i) as [v|] eqn:Em; [|done]. exfalso. apply not_elem_of_list_to_map_2 in Ei. apply Ei.
    pose proof (visits_keys callback kvs w) as Hv. rewrite E in Hv. cbn in Hv. rewrite Hv. apply Hm. by eexists.
Qed.

(** The entries in the order of the keys. *)
Definition entries m : list (K * V) := (fun k => (k, default value_init (m !! k))) <$> keys m.

Lemma entries_keys m : (entries m).*1 = keys m.
Proof. unfold entries. rewrite <- list_fmap_compose. apply list_fmap_id. Qed.
Lemma elem_of_entries m k v : (k, v) ∈ entries m <-> m !! k = Some v.
Proof.
  unfold entries. rewrite list_elem_of_fmap. split.
  - intros (k' & [= -> ->] & [x Hx]%elem_of_keys). by rewrite Hx.
  - intros E. exists k. rewrite E, elem_of_keys. split; [done|by eexists].
Qed.

(** [Iterate] calls the callback once for each entry of the map, in the
    order of the keys, each with the value it has then; the map that is left
    has the same keys, each with the value the callback gave it. *)
Theorem Iterate_visits_in_order `{!Transitive le, !Total le} {W} (callback : K -> V -> W -> V * W) m w :
  StronglySorted le (entries m).*1 /\ NoDup (entries m).*1 /\
  (forall k v, (k, v) ∈ entries m <-> m !! k = Some v) /\
  Iterate callback m w = (let '(r, w') := visits callback (entries m) w in (list_to_map r, w')) /\
  dom (Iterate callback m w).1 = dom m.
Proof.
  assert (Iterate callback m w = (let '(r, w') := visits callback (entries m) w in (list_to_map r, w'))) as E.
  { unfold Iterate, IsEmpty. case_bool_decide as Em.
    - subst. unfold entries, keys. rewrite dom_empty_L, elements_empty. done.
    - rewrite <- entries_keys, Iterate_loop_spec.
      + destruct (visits callback (entries m) w) as [r w'] eqn:Ev. f_equal. eapply visits_ext; [done|].
        intros k. by rewrite entries_keys, elem_of_keys.
      + rewrite entries_keys. apply keys_NoDup.
      + intros k v. apply elem_of_entries. }
  split_and!; [| |apply elem_of_entries|exact E|].
  - rewrite entries_keys. apply (StronglySorted_merge_sort le).
  - rewrite entries_keys. apply keys_NoDup.
  - rewrite E. pose proof (visits_keys callback (entries m) w) as Hv. destruct (visits _ _ _) as [r w']. cbn in *.
    rewrite dom_list_to_map_L, Hv, entries_keys. apply set_eq. intros k. by rewrite elem_of_list_to_set, elem_of_keys, elem_of_dom.
Qed.
End safe_map.

(** ** Copies

    [pending] holds, for a thread between the two critical sections of
    [operator=], the object it assigns to and its [tmp]. *)

Section copies.
Context {K V : Type} `{Countable K}.

Record store := { maps : gmap Z (gmap K V); pending : gmap Z (Z * gmap K V) }.

Definition assign_begin (t dst src : Z) (s : store) : option store :=
  if dst =? src then Some s
  else m ← maps s !! src; Some {| maps := maps s; pending := <[t := (dst, Clone m)]> (pending s) |}.
Definition assign_end (t : Z) (s : store) : option store :=
  '(dst, m) ← pending s !! t;
  Some {| maps := <[dst := m]> (maps s); pending := delete t (pending s) |}.
(** The copy constructor, on new storage. *)
Definition copy_begin (t dst src : Z) (s : store) : option store :=
  match maps s !! dst with
  | Some _ => None
  | None => assign_begin t dst src {| maps := <[dst := ∅]> (maps s); pending := pending s |}
  end.
(** Any other operation, by its effect on the map. *)
Definition operate (o : Z) (f : gmap K V -> gmap K V) (s : store) : option store :=
  m ← maps s !! o; Some {| maps := <[o := f m]> (maps s); pending := pending s |}.

Inductive map_event :=
  | AssignBegin (t dst src : Z)
  | AssignEnd (t : Z)
  | CopyBegin (t dst src : Z)
  | Operate (o : Z) (f : gmap K V -> gmap K V).

Definition map_step (s : store) (e : map_event) : option store :=
  match e with
  | AssignBegin t dst src => assign_begin t dst src s
  | AssignEnd t => assign_end t s
  | CopyBegin t dst src => copy_begin t dst src s
  | Operate o f => operate o f s
  end.

(** The thread that makes the step, for a copy. *)
Definition of_thread (t : Z) (e : map_event) : bool :=
  match e with AssignBegin t' _ _ | AssignEnd t' | CopyBegin t' _ _ => t' =? t | Operate _ _ => false end.

Lemma pending_kept t evs s s' : forallb (fun e => negb (of_thread t e)) evs = true ->
  run_steps map_step s evs = Some s' -> pending s' !! t = pending s !! t.
Proof.
  revert s. induction evs as [|e evs IH]; intros s; [by intros _ [= <-]|].
  cbn [forallb]. intros [He Hevs]%andb_true_iff (s1 & E1 & Hr)%run_steps_cons. rewrite (IH s1) by done.
  assert (forall t' dst src s2 s3, (t' =? t) = false -> assign_begin t' dst src s2 = Some s3 -> pending s3 !! t = pending s2 !! t) as Hb.
  { intros t' dst src s2 s3 Hne. unfold assign_begin. destruct (dst =? src); [by intros [= ->]|]. destruct (maps s2 !! src); [|done].
    intros [= <-]. cbn. rewrite lookup_insert_ne; [done|]. lia. }
  destruct e as [t' dst src|t'|t' dst src|o f]; cbn in *.
  - apply negb_true_iff in He. by eapply Hb.
  - unfold assign_end in E1. destruct (pending s !! t') as [[dst m]|]; [|done]. injection E1 as <-. cbn.
    rewrite lookup_delete_ne; [done|]. lia.
  - unfold copy_begin in E1. destruct (maps s !! dst); [done|]. apply negb_true_iff in He. by rewrite (Hb _ _ _ _ _ He E1).
  - unfold operate in E1. destruct (maps s !! o); [|done]. by injection E1 as <-.
Qed.

(** A copy takes a snapshot: whatever the other threads do between its two
    critical sections, the object gets what the right side held at the first;
    two objects copied into each other never block and never mix. *)
Lemma copy_is_a_snapshot t dst src evs s s1 s2 s3 : dst <> src ->
  map_step s (AssignBegin t dst src) = Some s1 ->
  forallb (fun e => negb (of_thread t e)) evs = true -> run_steps map_step s1 evs = Some s2 ->
  map_step s2 (AssignEnd t) = Some s3 -> maps s3 !! dst = maps s !! src.
Proof.
  intros Hne E1 Hevs Hr. pose proof (pending_kept t evs s1 s2 Hevs Hr) as Hp. revert E1 Hp. cbn. unfold assign_begin, assign_end.
  destruct (Z.eqb_spec dst src); [done|]. destruct (maps s !! src) as [m|]; [|done]. intros [= <-]. cbn. rewrite lookup_insert_eq.
  intros ->. intros [= <-]. cbn. by rewrite lookup_insert_eq.
Qed.
End copies.

Definition demo_map : gmap Z Z := {[3 := 30; 1 := 10; 2 := 20]}.
(** A callback that doubles the values and notes the keys. *)
Definition demo_callback (k v : Z) (w : list Z) : Z * list Z := (2 * v, w ++ [k]).

Lemma Iterate_visits_in_order_witness :
  (entries Z.le demo_map).*1 = [1; 2; 3] /\
  Iterate Z.le demo_callback demo_map [] = ({[3 := 60; 1 := 20; 2 := 40]}, [1; 2; 3]) /\
  dom (Iterate Z.le demo_callback demo_map []).1 = dom demo_map.
Proof.
  split; [vm_compute; reflexivity|]. split; [vm_compute; reflexivity|].
  refine (proj2 (proj2 (proj2 (proj2 (Iterate_visits_in_order Z.le demo_callback demo_map []))))).
Defined.

(** The default that [ReadVal] inserts is seen by [Size] and [Find]. *)
Example ReadVal_grows_the_map : (ReadVal 7 demo_map).1 = 0 /\ Size (ReadVal 7 demo_map).2 = 4 /\ Find 7 1 (ReadVal 7 demo_map).2 = (true, 0).
Proof. split_and!; vm_compute; reflexivity. Qed.

(** Crossing copies may swap. *)
Example crossing_copies_swap :
  let s := {| maps := {[1 := ({[1 := 1]} : gmap Z Z); 2 := {[2 := 2]}]}; pending := ∅ |} in
  maps <$> run_steps map_step s [AssignBegin 10 1 2; AssignBegin 20 2 1; AssignEnd 10; AssignEnd 20] =
  Some {[1 := {[2 := 2]}; 2 := {[1 := 1]}]}.
Proof. vm_compute. reflexivity. Qed.
