(* ===== verification/Observer.v ===== *)
(** * Observers ([base/src/observer.cpp], [base/include/observer.h])

    One [Observable] and the threads that use it. An observer is a pointer, 0
    for null. [NotifyObservers] copies the set under [mutex_] and calls
    [Update] after releasing it, so the calls are steps of their own: any other
    operation, also one that an [Update] makes, may come between two of them. *)

From stdpp Require Import sorting.
From S2P Require Import Prelude.

(** [arrLocals]: for each thread the unfinished [NotifyObservers] calls, the
    innermost first, with the observers still to update. [updates]: the calls
    of [Update], the last first. *)
Record Observable := {
  obs : gset Z;
  changed_ : bool;
  arrLocals : gmap Z (list (list Z));
  updates : list (Z * Z);
}.

Definition Observable_ctor : Observable := {| obs := ∅; changed_ := false; arrLocals := ∅; updates := [] |}.

Definition with_obs (os : gset Z) (s : Observable) : Observable :=
  {| obs := os; changed_ := changed_ s; arrLocals := arrLocals s; updates := updates s |}.
Definition with_changed (b : bool) (s : Observable) : Observable :=
  {| obs := obs s; changed_ := b; arrLocals := arrLocals s; updates := updates s |}.

Definition AddObserver (o : Z) (s : Observable) : Observable :=
  if o =? 0 then s
  else if bool_decide (o ∈ obs s) then s
  else with_obs ({[o]} ∪ obs s) s.
Definition RemoveObserver (o : Z) (s : Observable) : Observable := with_obs (obs s ∖ {[o]}) s.
Definition RemoveAllObservers (s : Observable) : Observable := with_obs ∅ s.
Definition HasChanged (s : Observable) : bool := changed_ s.
Definition GetObserversCount (s : Observable) : Z := i32 (Z.of_nat (size (obs s))).
Definition SetChanged (s : Observable) : Observable := with_changed true s.
Definition ClearChanged (s : Observable) : Observable := with_changed false s.

(** The set in the order of [std::set]. *)
Definition snapshot (os : gset Z) : list Z := merge_sort Z.le (elements os).

Definition frames (t : Z) (s : Observable) : list (list Z) := default [] (arrLocals s !! t).
Definition with_frames (t : Z) (fs : list (list Z)) (s : Observable) : Observable :=
  {| obs := obs s; changed_ := changed_ s; arrLocals := <[t := fs]> (arrLocals s); updates := updates s |}.

(** [NotifyObservers]: the block that holds the lock; then one turn of the loop. *)
Definition NotifyObservers (t : Z) (s : Observable) : Observable :=
  if negb (HasChanged s) then s
  else ClearChanged (with_frames t (snapshot (obs s) :: frames t s) s).
Definition NotifyObservers_next (t : Z) (s : Observable) : option Observable :=
  match frames t s with
  | (o :: os) :: fs =>
      let s' := with_frames t (os :: fs) s in
      Some {| obs := obs s'; changed_ := changed_ s'; arrLocals := arrLocals s'; updates := (t, o) :: updates s' |}
  | [] :: fs => Some (with_frames t fs s)
  | [] => None
  end.

Inductive obs_event := EAdd (o : Z) | ERemove (o : Z) | ERemoveAll | ESet | EClear | ENotify | ENext.

#[export] Instance obs_event_eq_dec : EqDecision obs_event.
Proof. solve_decision. Defined.

Definition obs_step (s : Observable) (ev : Z * obs_event) : option Observable :=
  let '(t, e) := ev in
  match e with
  | EAdd o => Some (AddObserver o s)
  | ERemove o => Some (RemoveObserver o s)
  | ERemoveAll => Some (RemoveAllObservers s)
  | ESet => Some (SetChanged s)
  | EClear => Some (ClearChanged s)
  | ENotify => Some (NotifyObservers t s)
  | ENext => NotifyObservers_next t s
  end.

Definition run_obs : list (Z * obs_event) -> option Observable := run_steps obs_step Observable_ctor.

(** ** A change is notified once *)

Definition occurs (o : Z) (l : list Z) : Z := zlen (filter (fun x => x = o) l).
Definition updates_of (o : Z) (s : Observable) : Z := zlen (filter (fun u => u.2 = o) (updates s)).
Definition to_update (o : Z) (fss : list (list Z)) : Z := occurs o (concat fss).
Definition pending_of (o : Z) (s : Observable) : Z := msum (to_update o) (arrLocals s).
Definition changes (evs : list (Z * obs_event)) : Z := zlen (filter (fun e => e.2 = ESet) evs).

Lemma occurs_cons o x l : occurs o (x :: l) = (if decide (x = o) then 1 else 0) + occurs o l.
Proof. unfold occurs. rewrite filter_cons. case_decide; [by rewrite zlen_cons|done]. Qed.
Lemma occurs_app o l k : occurs o (l ++ k) = occurs o l + occurs o k.
Proof. unfold occurs. by rewrite filter_app, zlen_app. Qed.

Lemma occurs_snapshot o os : 0 <= occurs o (snapshot os) <= 1.
Proof.
  assert (NoDup (snapshot os)) as Hn by (unfold snapshot; rewrite merge_sort_Permutation; apply NoDup_elements).
  induction Hn as [|x l Hx Hn IH]; [done|]. rewrite occurs_cons. case_decide; [subst|lia].
  enough (occurs o l = 0) by lia. unfold occurs. rewrite filter_none; [done|].
  apply Forall_forall. intros y Hy ->. done.
Qed.

Lemma elem_of_snapshot o os : o ∈ snapshot os <-> o ∈ os.
Proof. unfold snapshot. by rewrite merge_sort_Permutation, elem_of_elements. Qed.

(** Changing the frames of one thread. *)
Lemma pending_frames o t fs s : pending_of o (with_frames t fs s) = pending_of o s - to_update o (frames t s) + to_update o fs.
Proof.
  unfold pending_of, frames. cbn. destruct (arrLocals s !! t) as [fs0|] eqn:E; cbn.
  - by apply msum_insert.
  - rewrite msum_insert_new by done. unfold to_update at 4. cbn. unfold occurs. cbn. change (zlen []) with 0. lia.
Qed.

Lemma obs_step_counts o s t e s' : obs_step s (t, e) = Some s' ->
  updates_of o s' + pending_of o s' + Z.b2z (changed_ s') <=
  updates_of o s + pending_of o s + Z.b2z (changed_ s) + (if decide (e = ESet) then 1 else 0).
Proof.
  destruct e; cbn; rewrite ?decide_False by done; try (intros [= <-]).
  - unfold AddObserver. destruct (_ =? _); [lia|]. case_bool_decide; [lia|]. change (pending_of o (with_obs _ s)) with (pending_of o s).
    change (updates_of o (with_obs _ s)) with (updates_of o s). cbn. lia.
  - change (pending_of o (RemoveObserver _ s)) with (pending_of o s). change (updates_of o (RemoveObserver _ s)) with (updates_of o s). cbn. lia.
  - change (pending_of o (RemoveAllObservers s)) with (pending_of o s). change (updates_of o (RemoveAllObservers s)) with (updates_of o s). cbn. lia.
  - change (pending_of o (SetChanged s)) with (pending_of o s). change (updates_of o (SetChanged s)) with (updates_of o s). cbn.
    rewrite decide_True by done. destruct (changed_ s); cbn; lia.
  - change (pending_of o (ClearChanged s)) with (pending_of o s). change (updates_of o (ClearChanged s)) with (updates_of o s).
    cbn. destruct (changed_ s); cbn; lia.
  - unfold NotifyObservers, HasChanged. destruct (changed_ s) eqn:Ec; cbn [negb]; [|rewrite Ec; lia].
    change (pending_of o (ClearChanged ?x)) with (pending_of o x). rewrite pending_frames.
    change (updates_of o (ClearChanged _)) with (updates_of o s). unfold to_update at 2. cbn [concat]. rewrite occurs_app.
    fold (to_update o (frames t s)). pose proof (occurs_snapshot o (obs s)). cbn. lia.
  - unfold NotifyObservers_next. destruct (frames t s) as [|[|x os] fs] eqn:Ef; [done| |]; intros [= <-].
    + rewrite pending_frames, Ef. change (updates_of o (with_frames _ _ s)) with (updates_of o s). cbn. unfold to_update. cbn. lia.
    + pose proof (pending_frames o t (os :: fs) s) as Hp. rewrite Ef in Hp. unfold pending_of in Hp |- *. cbn in Hp |- *.
      rewrite Hp. unfold updates_of. cbn [updates with_frames]. rewrite filter_cons. unfold to_update. cbn [concat app].
      rewrite occurs_cons. cbn [snd]. case_decide; rewrite ?zlen_cons; cbn; lia.
Qed.

(** C40: A change is notified at most once: however the threads' operations
    interleave, with nested notifications and observers that come and go, an
    observer is updated no more often than [SetChanged] was called, counting
    the updates under way and the change nobody has notified yet. *)
Theorem each_change_notifies_once evs s o : run_obs evs = Some s ->
  updates_of o s + pending_of o s + Z.b2z (changed_ s) <= changes evs.
Proof.
  unfold run_obs. enough (forall s0, run_steps obs_step s0 evs = Some s ->
    updates_of o s + pending_of o s + Z.b2z (changed_ s) <= updates_of o s0 + pending_of o s0 + Z.b2z (changed_ s0) + changes evs) as He.
  { intros Hr. specialize (He _ Hr). unfold pending_of in He at 2. cbn in He. rewrite msum_empty in He. exact He. }
  induction evs as [|[t e] evs IH]; intros s0.
  - intros [= <-]. unfold changes. cbn. change (zlen []) with 0. lia.
  - intros (s1 & E1 & Hr)%run_steps_cons. specialize (IH s1 Hr). pose proof (obs_step_counts o s0 t e s1 E1) as Hs.
    unfold changes. rewrite filter_cons. cbn [snd]. fold (changes evs). destruct (decide (e = ESet)); rewrite ?zlen_cons; unfold changes in IH; lia.
Qed.

(** ** Everybody is notified *)

(** The updates of a thread, the last first. *)
Definition updates_by (t : Z) (s : Observable) : list Z := (filter (fun u => u.1 = t) (updates s)).*2.

(** Steps of other threads leave the calls of [t] alone. *)
Lemma others_leave t s t' e s' : t' <> t -> obs_step s (t', e) = Some s' -> frames t s' = frames t s /\ updates_by t s' = updates_by t s.
Proof.
  intros Hne. assert (forall fs s0, frames t (with_frames t' fs s0) = frames t s0) as Hf.
  { intros fs s0. unfold frames. cbn. by rewrite lookup_insert_ne. }
  destruct e; cbn; try (intros [= <-]; done).
  - intros [= <-]. unfold AddObserver. destruct (_ =? _); [done|]. by case_bool_decide.
  - intros [= <-]. unfold NotifyObservers. destruct (HasChanged s); [cbn|done]. split; [apply Hf|done].
  - unfold NotifyObservers_next. destruct (frames t' s) as [|[|x os] fs]; [done| |]; intros [= <-].
    + split; [apply Hf|done].
    + split; [apply (Hf (os :: fs) s)|]. unfold updates_by. cbn [updates with_frames]. by rewrite filter_cons_False.
Qed.

(** The steps of [t] in [evs] are turns of the loop. *)
Definition loops (t : Z) (evs : list (Z * obs_event)) : Prop := Forall (fun e => e.1 = t -> e.2 = ENext) evs.

Lemma quiet_thread t evs s s' : run_steps obs_step s evs = Some s' -> zlen (filter (fun e => e.1 = t) evs) = 0 ->
  updates_by t s' = updates_by t s.
Proof.
  revert s. induction evs as [|[t' e] evs IH]; intros s; [by intros [= <-]|]. intros (s1 & E1 & Hr)%run_steps_cons Hz.
  rewrite filter_cons in Hz. cbn [fst] in Hz. case_decide as Ht.
  - rewrite zlen_cons in Hz. pose proof (zlen_nonneg (filter (fun e : Z * obs_event => e.1 = t) evs)). lia.
  - rewrite (IH s1) by done. by apply (others_leave t s t' e s1).
Qed.

Lemma loop_updates t evs os fs s s' : frames t s = os :: fs -> loops t evs -> run_steps obs_step s evs = Some s' ->
  frames t s' = fs -> zlen (filter (fun e => e.1 = t) evs) = zlen os + 1 -> updates_by t s' = rev os ++ updates_by t s.
Proof.
  revert os s. induction evs as [|[t' e] evs IH]; intros os s Hf Hl Hr He Hn.
  - cbn in Hn. change (zlen []) with 0 in Hn. pose proof (zlen_nonneg os). lia.
  - apply run_steps_cons in Hr as (s1 & E1 & Hr). apply Forall_cons in Hl as [Hl1 Hl]. rewrite filter_cons in Hn. cbn [fst] in *.
    destruct (decide (t' = t)) as [->|Hne].
    + cbn [snd] in Hl1. rewrite (Hl1 eq_refl) in E1. cbn in E1. unfold NotifyObservers_next in E1. rewrite Hf in E1. rewrite zlen_cons in Hn.
      assert (forall fs' s0, frames t (with_frames t fs' s0) = fs') as Hff by (intros; unfold frames; cbn; by rewrite lookup_insert_eq).
      destruct os as [|x os]; injection E1 as <-.
      * change (zlen []) with 0 in Hn. rewrite (quiet_thread t evs (with_frames t fs s) s'); [done|done|lia].
      * rewrite zlen_cons in Hn. etransitivity; [eapply (IH os); [|exact Hl|exact Hr|exact He|lia]; apply (Hff (os :: fs) s)|].
        unfold updates_by. cbn [updates with_frames]. rewrite filter_cons_True by done. cbn. by rewrite <- app_assoc.
    + destruct (others_leave t s t' e s1 Hne E1) as [Ef Eu]. rewrite <- Eu. apply (IH os s1); [by rewrite Ef|done|done|done|done].
Qed.

(** When [NotifyObservers] finds a change, it updates every observer of the
    set it copied, in its order, each once, whatever the other threads do
    before it returns. *)
Lemma NotifyObservers_updates_all t evs s s' : changed_ s = true -> loops t evs ->
  run_steps obs_step s ((t, ENotify) :: evs) = Some s' -> frames t s' = frames t s ->
  zlen (filter (fun e => e.1 = t) evs) = zlen (snapshot (obs s)) + 1 ->
  updates_by t s' = rev (snapshot (obs s)) ++ updates_by t s /\ forall o, o ∈ snapshot (obs s) <-> o ∈ obs s.
Proof.
  intros Hc Hl (s1 & E1 & Hr)%run_steps_cons Hf Hn. split; [|intros; apply elem_of_snapshot].
  cbn in E1. unfold NotifyObservers, HasChanged in E1. rewrite Hc in E1. cbn in E1. injection E1 as <-.
  refine (loop_updates t evs _ (frames t s) (ClearChanged (with_frames t (snapshot (obs s) :: frames t s) s)) s' _ Hl Hr Hf Hn).
  unfold frames. cbn. by rewrite lookup_insert_eq.
Qed.

(** ** Concrete runs *)

Definition demo_obs_run : list (Z * obs_event) :=
  [(1, EAdd 20); (1, EAdd 10); (1, EAdd 0); (1, EAdd 10); (1, ESet); (1, ENotify); (1, ENext); (2, ENotify); (2, ERemove 20); (1, ENext); (1, ENext)].

Definition obs_end (evs : list (Z * obs_event)) : Observable := default Observable_ctor (run_obs evs).

Lemma each_change_notifies_once_witness :
  run_obs demo_obs_run = Some (obs_end demo_obs_run) /\ updates (obs_end demo_obs_run) = [(1, 20); (1, 10)] /\
  updates_of 10 (obs_end demo_obs_run) + pending_of 10 (obs_end demo_obs_run) + Z.b2z (changed_ (obs_end demo_obs_run)) <= changes demo_obs_run.
Proof.
  split; [vm_compute; reflexivity|]. split; [vm_compute; reflexivity|]. apply each_change_notifies_once. vm_compute. reflexivity.
Defined.

(** The copy outlives the removal: [RemoveObserver] returned before the
    observer was updated. *)
Example removed_observer_is_updated :
  let evs := [(1, EAdd 10); (1, ESet); (1, ENotify); (2, ERemove 10); (1, ENext)] in
  obs (obs_end evs) = ∅ /\ updates (obs_end evs) = [(1, 10)].
Proof. split; vm_compute; reflexivity. Qed.

(** Two changes before a notification are one. *)
Example changes_merge :
  updates (obs_end [(1, EAdd 10); (1, ESet); (1, ESet); (1, ENotify); (1, ENext); (1, ENext); (1, ENotify)]) = [(1, 10)].
Proof. vm_compute. reflexivity. Qed.
