(* ===== verification/Singleton.v ===== *)
(** * Singletons ([base/include/singleton.h])

    The threads of a program that call [GetInstance] and [DestroyInstance], as
    a transition system: each access to [instance_] and each lock or unlock of
    [mutex_] is one step of one thread, and the steps interleave as they like.
    An object is a pointer, 0 for null. *)

From S2P Require Import Prelude.

(** ** [DelayedSingleton] *)

Module Delayed.

(** Where a thread is; [Store] holds [temp]. *)
Inductive pc :=
  | Idle
  | Load            (** [GetInstance]: the load without the lock *)
  | Lock            (** before the lock *)
  | Test            (** the load in the condition *)
  | New             (** before [new (std::nothrow) T] *)
  | Store (temp : Z)
  | Return          (** before the last load, which is the result *)
  | DestroyLock     (** [DestroyInstance]: before the lock *)
  | DestroyStore.

(** [created]: the objects made; [destroys]: the [DestroyInstance] calls that
    stored null; [failures]: the allocations that failed; [results]: what
    [GetInstance] returned, the last first. *)
Record state := {
  instance_ : Z;
  mutex_ : option Z;
  threads : gmap Z pc;
  created : gset Z;
  destroys : Z;
  failures : Z;
  results : list (Z * Z);
}.

Definition start (tids : gset Z) : state :=
  {| instance_ := 0; mutex_ := None; threads := gset_to_gmap Idle tids; created := ∅; destroys := 0; failures := 0; results := [] |}.

Definition goto (t : Z) (p : pc) (s : state) : state :=
  {| instance_ := instance_ s; mutex_ := mutex_ s; threads := <[t := p]> (threads s); created := created s;
     destroys := destroys s; failures := failures s; results := results s |}.
Definition set_mutex (m : option Z) (s : state) : state :=
  {| instance_ := instance_ s; mutex_ := m; threads := threads s; created := created s;
     destroys := destroys s; failures := failures s; results := results s |}.
Definition atomic_store (p : Z) (s : state) : state :=
  {| instance_ := p; mutex_ := mutex_ s; threads := threads s; created := created s;
     destroys := destroys s; failures := failures s; results := results s |}.
Definition returns (t p : Z) (s : state) : state :=
  {| instance_ := instance_ s; mutex_ := mutex_ s; threads := <[t := Idle]> (threads s); created := created s;
     destroys := destroys s; failures := failures s; results := (t, p) :: results s |}.

Definition acquire (t : Z) (p : pc) (s : state) : option state :=
  match mutex_ s with
  | None => Some (goto t p (set_mutex (Some t) s))
  | Some _ => None
  end.

(** [new (std::nothrow) T]: a new object, or null. *)
Definition nothrow_new (t obj : Z) (s : state) : option state :=
  if obj =? 0 then
    Some {| instance_ := instance_ s; mutex_ := mutex_ s; threads := <[t := Store 0]> (threads s); created := created s;
            destroys := destroys s; failures := failures s + 1; results := results s |}
  else if bool_decide (obj ∈ created s) then None
  else Some {| instance_ := instance_ s; mutex_ := mutex_ s; threads := <[t := Store obj]> (threads s);
               created := {[obj]} ∪ created s; destroys := destroys s; failures := failures s; results := results s |}.

Inductive event :=
  | CallGet
  | CallDestroy
  | Step (obj : Z).    (** [obj]: what an allocation in this step gives *)

Definition GetInstance_step (t : Z) (p : pc) (obj : Z) (s : state) : option state :=
  match p with
  | Load => if negb (instance_ s =? 0) then Some (returns t (instance_ s) s) else Some (goto t Lock s)
  | Lock => acquire t Test s
  | Test => if instance_ s =? 0 then Some (goto t New s) else Some (goto t Return s)
  | New => nothrow_new t obj s
  | Store temp => Some (goto t Return (atomic_store temp s))
  | Return => Some (returns t (instance_ s) (set_mutex None s))
  | _ => None
  end.

Definition DestroyInstance_step (t : Z) (p : pc) (s : state) : option state :=
  match p with
  | DestroyLock => acquire t DestroyStore s
  | DestroyStore =>
      Some {| instance_ := 0; mutex_ := None; threads := <[t := Idle]> (threads s); created := created s;
              destroys := destroys s + 1; failures := failures s; results := results s |}
  | _ => None
  end.

Definition step (s : state) (ev : Z * event) : option state :=
  let '(t, e) := ev in
  p ← threads s !! t;
  match e, p with
  | CallGet, Idle => Some (goto t Load s)
  | CallDestroy, Idle => Some (goto t DestroyLock s)
  | Step obj, (DestroyLock | DestroyStore) => DestroyInstance_step t p s
  | Step obj, _ => GetInstance_step t p obj s
  | _, _ => None
  end.

Definition run : state -> list (Z * event) -> option state := run_steps step.

(** *** The invariant *)

Definition critical (p : pc) : bool := match p with Test | New | Store _ | Return | DestroyStore => true | _ => false end.
(** An object that is about to be stored. *)
Definition in_store (p : pc) : Z := if p is Store temp then Z.b2z (negb (temp =? 0)) else 0.

Definition locked (s : state) : Prop := forall t p, threads s !! t = Some p -> (critical p = true <-> mutex_ s = Some t).
(** The owner of the lock and where it is. *)
Definition owner (s : state) (p : pc) : Prop :=
  match mutex_ s with Some t => threads s !! t = Some p | None => p = Idle end.

Record good (p : pc) (s : state) : Prop := {
  good_count : Z.of_nat (size (created s)) <= destroys s + Z.b2z (negb (instance_ s =? 0)) + in_store p;
  good_null : match p with New => instance_ s = 0 | Store temp => instance_ s = 0 /\ (temp = 0 -> 0 < failures s) | Return => instance_ s = 0 -> 0 < failures s | _ => True end;
  good_instance : instance_ s = 0 \/ instance_ s ∈ created s;
  good_temp : if p is Store temp then temp = 0 \/ temp ∈ created s else True;
  good_results : forall t q, (t, q) ∈ results s -> if decide (q = 0) then 0 < failures s else q ∈ created s;
  good_counts : 0 <= failures s /\ 0 <= destroys s;
}.

Definition inv (s : state) : Prop := locked s /\ exists p, owner s p /\ good p s.

Lemma singleton_start_inv tids : inv (start tids).
Proof.
  split; [intros t p [_ <-]%lookup_gset_to_gmap_Some; split; done|]. exists Idle. split; [done|]. split; cbn; try done.
  - by left.
  - by intros t q ?%elem_of_nil.
Qed.

(** The thread [t] moves from [p] to [p'] and the lock goes from [mutex_ s] to
    [mutex_ s']. *)
Lemma moves s s' t p p' : inv s -> threads s !! t = Some p -> threads s' = <[t := p']> (threads s) ->
  (if critical p' then mutex_ s' = (if critical p then mutex_ s else Some t) else if critical p then mutex_ s' = None else mutex_ s' = mutex_ s) ->
  (critical p = true \/ critical p' = false \/ mutex_ s = None) ->
  (forall q, good q s -> (critical p = true -> q = p) -> (mutex_ s = None -> q = Idle) ->
     good (if critical p' then p' else if critical p then Idle else q) s') ->
  inv s'.
Proof.
  intros [Hl (q & Ho & Hg)] Ht Et Em' Hfree Hgood. pose proof (Hl t p Ht) as Htp. unfold owner in Ho.
  assert (if critical p' then mutex_ s' = Some t else if critical p then mutex_ s' = None else mutex_ s' = mutex_ s) as Em.
  { destruct (critical p'); [|done]. rewrite Em'. destruct (critical p); [by apply Htp|done]. }
  clear Em'. split.
  - intros u r. rewrite Et. destruct (decide (u = t)) as [->|Hu].
    + rewrite lookup_insert_eq. intros [= <-]. destruct (critical p'); [done|]. split; [done|].
      destruct (critical p); rewrite Em; [done|]. by intros ?%Htp.
    + rewrite lookup_insert_ne by done. intros Hur. pose proof (Hl u r Hur) as Hur'.
      destruct (critical p'); [|destruct (critical p) eqn:Ep]; rewrite Em; [| |done].
      * destruct Hfree as [Hc|[?|E]]; [|done|rewrite E in Hur'; naive_solver]. apply Htp in Hc. rewrite Hc in Hur'. naive_solver.
      * rewrite (proj1 Htp eq_refl) in Hur'. naive_solver.
  - eexists. split; [|apply (Hgood q); [done| |]].
    + unfold owner. destruct (critical p'); [by rewrite Em, Et, lookup_insert_eq|]. destruct (critical p); rewrite Em; [done|].
      destruct (mutex_ s) as [u|]; [|done]. rewrite Et, lookup_insert_ne; [done|]. intros <-. by discriminate (proj2 Htp eq_refl).
    + intros Hc%Htp. rewrite Hc in Ho. congruence.
    + intros E. by rewrite E in Ho.
Qed.

Lemma singleton_step_inv s ev s' : inv s -> step s ev = Some s' -> inv s'.
Proof.
  intros Hi. destruct ev as [t e]. unfold step. destruct (threads s !! t) as [p|] eqn:Ht; [cbn|done].
  destruct e as [| |obj], p; try done; cbn [GetInstance_step DestroyInstance_step]; unfold acquire, nothrow_new; repeat case_match; try done; intros [= <-];
    (eapply (moves s _ t); [exact Hi|exact Ht|reflexivity|cbn; try done|cbn; auto|]); cbn; intros q Hg Hq Hn;
    try (specialize (Hq eq_refl); subst q); try (rewrite Hn in Hg by done); destruct Hg as [A B C D E F]; split; cbn in *.
  all: try done; try lia; try (by left).
  - intros u r [[= -> ->]|Hr]%elem_of_cons; [|by apply (E u)]. case_decide; [lia|]. by destruct C.
  - intros u r Hr%E. case_decide; [lia|done].
  - match goal with Hb : bool_decide _ = false |- _ => apply bool_decide_eq_false_1 in Hb end.
    rewrite size_union by set_solver. rewrite size_singleton. rewrite B in *. cbn in *. destruct (Z.eqb_spec obj 0); [done|]. cbn. lia.
  - right. set_solver.
  - intros u r Hr%E. case_decide; [done|set_solver].
  - destruct B as [B _]. rewrite B in A. cbn in A. lia.
  - intros u r [[= -> ->]|Hr]%elem_of_cons; [|by apply (E u)]. case_decide as Ez; [by apply B|]. by destruct C.
  - destruct (negb (instance_ s =? 0)); cbn in A; lia.
Qed.

Lemma singleton_run_inv tids evs s : run (start tids) evs = Some s -> inv s.
Proof. apply (run_steps_inv _ inv); [intros s1 ev s2; apply singleton_step_inv|apply singleton_start_inv]. Qed.

(** *** The theorems *)

(** C39: [DelayedSingleton] under any interleaving: at most one thread is past
    the lock; every object made beyond the first is paid by a
    [DestroyInstance], so that without one all [GetInstance] calls that
    return an object return the same; and [GetInstance] never returns null
    unless an allocation failed. *)
Theorem DelayedSingleton_is_a_singleton tids evs s : run (start tids) evs = Some s ->
  (forall t1 t2 p1 p2, threads s !! t1 = Some p1 -> threads s !! t2 = Some p2 -> critical p1 = true -> critical p2 = true -> t1 = t2) /\
  Z.of_nat (size (created s)) <= destroys s + 1 /\
  (destroys s = 0 -> forall t1 t2 p1 p2, (t1, p1) ∈ results s -> (t2, p2) ∈ results s -> p1 <> 0 -> p2 <> 0 -> p1 = p2) /\
  (failures s = 0 -> forall t p, (t, p) ∈ results s -> p <> 0).
Proof.
  intros [Hl (q & Ho & Hg)]%singleton_run_inv. destruct Hg as [A B C D E F].
  assert (Z.of_nat (size (created s)) <= destroys s + 1) as Hs.
  { destruct q; cbn in *; try (destruct (instance_ s =? 0); cbn in A; lia). destruct B as [B _]. rewrite B in A. cbn in A. destruct (temp =? 0); cbn in A; lia. }
  split_and!; [|exact Hs| |].
  - intros t1 t2 p1 p2 H1 H2 C1 C2. pose proof (proj1 (Hl t1 p1 H1) C1). pose proof (proj1 (Hl t2 p2 H2) C2). congruence.
  - intros Hd t1 t2 p1 p2 H1 H2 N1 N2. pose proof (E t1 p1 H1) as E1. pose proof (E t2 p2 H2) as E2.
    rewrite decide_False in E1 by done. rewrite decide_False in E2 by done. destruct (decide (p1 = p2)) as [|Hne]; [done|].
    assert (size ({[p1; p2]} : gset Z) <= size (created s))%nat as Hsz by (apply subseteq_size; set_solver).
    rewrite size_union in Hsz by set_solver. rewrite !size_singleton in Hsz. lia.
  - intros Hf t p Hr ->. specialize (E t 0 Hr). rewrite decide_True in E by done. lia.
Qed.

(** Nobody blocks for ever: a thread in a call can step, or the owner of the
    lock can. *)
Lemma DelayedSingleton_never_blocks tids evs s t p : run (start tids) evs = Some s -> threads s !! t = Some p -> p <> Idle ->
  exists u obj, is_Some (step s (u, Step obj)).
Proof.
  intros [Hl (q & Ho & Hg)]%singleton_run_inv Ht Hp. unfold owner in Ho. destruct (mutex_ s) as [u|] eqn:Em.
  - pose proof (proj2 (Hl u q Ho) Em) as Hc. exists u, (above (created s)). unfold step. rewrite Ho. cbn.
    destruct q; try done; cbn; try (eexists; reflexivity); [destruct (instance_ s =? 0); by eexists|].
    unfold nothrow_new. destruct (above_fresh (created s)) as [Hf _]. destruct (_ =? 0); [by eexists|].
    rewrite bool_decide_eq_false_2 by done. by eexists.
  - exists t, 0. unfold step. rewrite Ht. cbn.
    pose proof (Hl t p Ht) as Hc. rewrite Em in Hc. destruct p; cbn in *; try (by discriminate (proj1 Hc eq_refl)); try done; unfold acquire; rewrite ?Em.
    all: try (by eexists). destruct (negb _); by eexists.
Qed.
End Delayed.

(** ** [DelayedRefSingleton]

    The first test reads a plain pointer; its step reads what the last write
    left. *)

Module DelayedRef.

(** [New]: before [new T()], whose exception releases the lock. *)
Inductive pc := Idle | Load | Lock | Test | New | Unlock | Return.

Record ref_state := {
  instance_ : Z;
  mutex_ : option Z;
  threads : gmap Z pc;
  created : gset Z;
  results : list (Z * Z);
}.

Definition start (tids : gset Z) : ref_state :=
  {| instance_ := 0; mutex_ := None; threads := gset_to_gmap Idle tids; created := ∅; results := [] |}.

Definition move (t : Z) (p : pc) (m : option Z) (s : ref_state) : ref_state :=
  {| instance_ := instance_ s; mutex_ := m; threads := <[t := p]> (threads s); created := created s; results := results s |}.

(** A step of [GetInstance]; [obj] is what an allocation in it gives, 0 when
    it throws. [Return] dereferences [instance_]: [None] for a null pointer. *)
Definition GetInstance_ref_step (t : Z) (p : pc) (obj : Z) (s : ref_state) : option ref_state :=
  match p with
  | Idle => Some (move t Load (mutex_ s) s)
  | Load => Some (move t (if instance_ s =? 0 then Lock else Return) (mutex_ s) s)
  | Lock => if mutex_ s is Some _ then None else Some (move t Test (Some t) s)
  | Test => Some (move t (if instance_ s =? 0 then New else Unlock) (mutex_ s) s)
  | New =>
      if obj =? 0 then Some (move t Idle None s)
      else if bool_decide (obj ∈ created s) then None
      else Some {| instance_ := obj; mutex_ := mutex_ s; threads := <[t := Unlock]> (threads s);
                   created := {[obj]} ∪ created s; results := results s |}
  | Unlock => Some (move t Return None s)
  | Return =>
      if instance_ s =? 0 then None
      else Some {| instance_ := instance_ s; mutex_ := mutex_ s; threads := <[t := Idle]> (threads s);
                   created := created s; results := (t, instance_ s) :: results s |}
  end.

Definition step (s : ref_state) (ev : Z * Z) : option ref_state :=
  let '(t, obj) := ev in p ← threads s !! t; GetInstance_ref_step t p obj s.
Definition run : ref_state -> list (Z * Z) -> option ref_state := run_steps step.

Definition critical (p : pc) : bool := match p with Test | New | Unlock => true | _ => false end.

Record inv (s : ref_state) : Prop := {
  inv_lock : forall t p, threads s !! t = Some p -> critical p = true <-> mutex_ s = Some t;
  inv_null : forall t p, threads s !! t = Some p ->
    match p with New => instance_ s = 0 | Unlock | Return => instance_ s <> 0 | _ => True end;
  inv_created : created s = if instance_ s =? 0 then ∅ else {[instance_ s]};
  inv_results : forall t q, (t, q) ∈ results s -> q = instance_ s /\ q <> 0;
}.

Lemma ref_move_inv s t p p' m : inv s -> threads s !! t = Some p ->
  (critical p' = true <-> m = Some t) ->
  (m = mutex_ s \/ (mutex_ s = None /\ m = Some t) \/ (critical p = true /\ m = None)) ->
  match p' with New => instance_ s = 0 | Unlock | Return => instance_ s <> 0 | _ => True end ->
  inv (move t p' m s).
Proof.
  intros [A B C D] Ht Hp Hm Hn. split; cbn; [| |done|done].
  - intros u r. destruct (decide (u = t)) as [->|Hu]; [rewrite lookup_insert_eq; by intros [= <-]|].
    rewrite lookup_insert_ne by done. intros Hr. rewrite (A u r Hr). pose proof (A t p Ht).
    destruct Hm as [->|[[-> ->]|[Hc ->]]]; [done|naive_solver|]. rewrite (proj1 (A t p Ht) Hc). naive_solver.
  - intros u r. destruct (decide (u = t)) as [->|Hu]; [rewrite lookup_insert_eq; by intros [= <-]|].
    rewrite lookup_insert_ne by done. apply B.
Qed.

Lemma ref_step_inv s ev s' : inv s -> step s ev = Some s' -> inv s'.
Proof.
  intros Hi. destruct ev as [t obj]. unfold step. destruct (threads s !! t) as [p|] eqn:Ht; [cbn|done].
  assert (Hi' := Hi). destruct Hi' as [A B C D]. pose proof (A t p Ht) as Hl. pose proof (B t p Ht) as Hb.
  destruct p; cbn in *.
  - intros [= <-]. by eapply ref_move_inv; eauto.
  - intros [= <-]. destruct (Z.eqb_spec (instance_ s) 0); by eapply ref_move_inv; eauto.
  - destruct (mutex_ s) eqn:Em; [done|]. intros [= <-]. by eapply ref_move_inv; eauto.
  - intros [= <-]. destruct (Z.eqb_spec (instance_ s) 0); by eapply ref_move_inv; eauto.
  - destruct (Z.eqb_spec obj 0) as [|Ho]; [intros [= <-]; by eapply ref_move_inv; eauto|]. case_bool_decide; [done|]. intros [= <-].
    rewrite Hb in C. cbn in C. split; cbn.
    + intros u r. destruct (decide (u = t)) as [->|Hu]; [rewrite lookup_insert_eq; by intros [= <-]|]. rewrite lookup_insert_ne by done. apply A.
    + intros u r. destruct (decide (u = t)) as [->|Hu]; [rewrite lookup_insert_eq; by intros [= <-]|]. rewrite lookup_insert_ne by done.
      intros Hr. pose proof (A u r Hr) as Hu'. pose proof (B u r Hr) as Hbu. destruct r; try done.
      rewrite (proj1 Hl eq_refl) in Hu'. pose proof (proj1 Hu' eq_refl). congruence.
    + destruct (Z.eqb_spec obj 0); [done|]. rewrite C. set_solver.
    + intros u q Hr%D. naive_solver.
  - intros [= <-]. by eapply ref_move_inv; eauto.
  - destruct (Z.eqb_spec (instance_ s) 0); [done|]. intros [= <-]. destruct (ref_move_inv s t Return Idle (mutex_ s) Hi Ht) as [A' B' C' D']; [|by left|done|].
    { split; [done|]. by intros ?%Hl. }
    split; [exact A'|exact B'|exact C'|]. cbn. intros u q [[= -> ->]|Hr]%elem_of_cons; [done|by apply (D u)].
Qed.

(** [DelayedRefSingleton] makes at most one object; every [GetInstance] that
    returns gives that one and never dereferences null. *)
Lemma DelayedRefSingleton_is_unique tids evs s : run (start tids) evs = Some s ->
  (size (created s) <= 1)%nat /\
  (forall t q, (t, q) ∈ results s -> created s = {[q]}) /\
  (forall t, threads s !! t = Some Return -> is_Some (step s (t, 0))).
Proof.
  intros Hr. assert (inv s) as [A B C D].
  { revert Hr. apply (run_steps_inv _ inv); [intros s1 ev s2; apply ref_step_inv|]. split; cbn.
    - intros t p [_ <-]%lookup_gset_to_gmap_Some. split; done.
    - intros t p [_ <-]%lookup_gset_to_gmap_Some. done.
    - done.
    - by intros t q ?%elem_of_nil. }
  split_and!.
  - rewrite C. destruct (_ =? _); [rewrite size_empty|rewrite size_singleton]; lia.
  - intros t q [-> Hn]%D. rewrite C. by destruct (Z.eqb_spec (instance_ s) 0).
  - intros t Ht. pose proof (B t _ Ht) as Hn. cbn in Hn. unfold step. rewrite Ht. cbn.
    destruct (Z.eqb_spec (instance_ s) 0); [done|by eexists].
Qed.
End DelayedRef.

(** ** Concrete runs *)

(** Threads 1 and 2 find no instance; 2 waits for the lock and then finds
    what 1 made; 3 destroys it and 1 makes another. *)
Definition demo_singleton_run : list (Z * Delayed.event) :=
  let st t obj := (t, Delayed.Step obj) in
  [(1, Delayed.CallGet); (2, Delayed.CallGet); st 1 0; st 2 0; st 1 0; st 1 0; st 1 100; st 1 0; st 1 0; st 2 0; st 2 0; st 2 0;
   (3, Delayed.CallDestroy); st 3 0; st 3 0; (1, Delayed.CallGet); st 1 0; st 1 0; st 1 0; st 1 200; st 1 0; st 1 0].

Definition singleton_end : Delayed.state :=
  default (Delayed.start ∅) (Delayed.run (Delayed.start {[1; 2; 3]}) demo_singleton_run).

Lemma DelayedSingleton_is_a_singleton_witness :
  Delayed.run (Delayed.start {[1; 2; 3]}) demo_singleton_run = Some singleton_end /\
  Delayed.results singleton_end = [(1, 200); (2, 100); (1, 100)] /\ Delayed.destroys singleton_end = 1 /\
  Z.of_nat (size (Delayed.created singleton_end)) <= Delayed.destroys singleton_end + 1.
Proof.
  split; [vm_compute; reflexivity|]. split; [vm_compute; reflexivity|]. split; [vm_compute; reflexivity|].
  refine (proj1 (proj2 (Delayed.DelayedSingleton_is_a_singleton {[1; 2; 3]} demo_singleton_run singleton_end _))).
  vm_compute. reflexivity.
Defined.
