(* ===== verification/DateTime.v ===== *)
(** * Dates and clocks ([base/src/datetime_ex.cpp], [base/include/datetime_ex.h])

    The arithmetic on times is 64-bit signed: [chk64] is undefined outside of
    it. The clocks and the calendar of the C library are parameters. *)

From S2P Require Import Prelude.

Definition chk64 (z : Z) : option Z := if bool_decide (- 2 ^ 63 <= z < 2 ^ 63) then Some z else None.

Definition SEC_TO_NANOSEC : Z := 1000000000.
Definition SEC_TO_MICROSEC : Z := 1000000.
Definition SEC_TO_MILLISEC : Z := 1000.
Definition MILLISEC_TO_NANOSEC : Z := 1000000.
Definition MICROSEC_TO_NANOSEC : Z := 1000.
Definition SECONDS_PER_HOUR : Z := 3600.
Definition SECONDS_PER_DAY : Z := 86400.

Definition SecToNanosec (sec : Z) : option Z := chk64 (sec * SEC_TO_NANOSEC).
Definition MillisecToNanosec (millise : Z) : option Z := chk64 (millise * MILLISEC_TO_NANOSEC).
Definition MicrosecToNanosec (microsec : Z) : option Z := chk64 (microsec * MICROSEC_TO_NANOSEC).
Definition NanosecToSec (nanosec : Z) : Z := Z.quot nanosec SEC_TO_NANOSEC.
Definition NanosecToMillisec (nanosec : Z) : Z := Z.quot nanosec MILLISEC_TO_NANOSEC.
Definition NanosecToMicrosec (nanosec : Z) : Z := Z.quot nanosec MICROSEC_TO_NANOSEC.

(** [struct tm] and the C library: [mktime] gives -1 for a time it cannot
    represent, the other two a null pointer. *)
Class Calendar (tm : Type) := {
  mktime : tm -> Z;
  localtime_r : Z -> option tm;
  gmtime_r : Z -> option tm;
}.

(** [system_clock]: its ticks per second and what it shows; the monotonic
    clock's [tv_sec] and [tv_nsec]. *)
Record clocks := { ticks_per_sec : Z; system_now : Z; tv_sec : Z; tv_nsec : Z }.

Section datetime.
Context {tm : Type} `{Calendar tm}.
Implicit Types (c : clocks) (t : tm).

Definition to_time_t c (tp : Z) : Z := Z.quot tp (ticks_per_sec c).
Definition from_time_t c (t : Z) : option Z := chk64 (t * ticks_per_sec c).
(** [time_point_cast] to a period of [s] seconds. *)
Definition time_point_cast c (s tp : Z) : Z := Z.quot tp (s * ticks_per_sec c).

Definition GetSecondsSince1970ToNow c : Z := time_point_cast c 1 (system_now c).

Definition GetSecondsSince1970ToPointTime c (inputTm : tm) : option Z :=
  let inputTime := mktime inputTm in
  if inputTime =? -1 then Some (-1)
  else pointTime ← from_time_t c inputTime; Some (time_point_cast c 1 pointTime).

Definition GetSecondsBetween c (inputTm1 inputTm2 : tm) : option Z :=
  second1 ← GetSecondsSince1970ToPointTime c inputTm1;
  second2 ← GetSecondsSince1970ToPointTime c inputTm2;
  if (second1 =? -1) || (second2 =? -1) then Some (-1)
  else if second2 <=? second1 then chk64 (second1 - second2) else chk64 (second2 - second1).

Definition GetDaysSince1970ToNow c : Z := time_point_cast c SECONDS_PER_DAY (system_now c).

(** The result and [*curTime]; [None] for a null pointer. *)
Definition GetSystemCurrentTime c (curTime : option tm) : bool * option tm :=
  match curTime with
  | None => (false, None)
  | Some t0 =>
      match localtime_r (to_time_t c (system_now c)) with
      | Some t => (true, Some t)
      | None => (false, Some t0)
      end
  end.

(** The result and [timezone]. *)
Definition GetLocalTimeZone c (timezone : Z) : option (bool * Z) :=
  let t := to_time_t c (system_now c) in
  match localtime_r t, gmtime_r t with
  | Some curTime1, Some curTime2 =>
      let t1 := mktime curTime1 in
      let t2 := mktime curTime2 in
      if (t1 =? -1) || (t2 =? -1) then Some (false, timezone)
      else d ← chk64 (t1 - t2); Some (true, Z.quot (i32 d) SECONDS_PER_HOUR)
  | _, _ => Some (false, timezone)
  end.

Definition GetMicroTickCount c : option Z :=
  us ← chk64 (tv_sec c * SEC_TO_MICROSEC);
  chk64 (us + Z.quot (tv_nsec c) MICROSEC_TO_NANOSEC).
Definition GetTickCount c : option Z := us ← GetMicroTickCount c; Some (Z.quot us SEC_TO_MILLISEC).

(** ** What they compute *)

Lemma chk64_ok z : - 2 ^ 63 <= z < 2 ^ 63 -> chk64 z = Some z.
Proof. intros. unfold chk64. by rewrite bool_decide_eq_true_2. Qed.
Lemma chk64_Some z r : chk64 z = Some r -> r = z /\ - 2 ^ 63 <= z < 2 ^ 63.
Proof. unfold chk64. case_bool_decide; [|done]. by intros [= <-]. Qed.

(** To nanoseconds and back. *)
Lemma to_nanosec_and_back n s : 
  (SecToNanosec s = Some n -> NanosecToSec n = s) /\ (MillisecToNanosec s = Some n -> NanosecToMillisec n = s) /\
  (MicrosecToNanosec s = Some n -> NanosecToMicrosec n = s).
Proof. split_and!; intros [-> _]%chk64_Some; by apply Z.quot_mul. Qed.

Lemma point_time_spec c t : 0 < ticks_per_sec c -> - 2 ^ 63 <= mktime t * ticks_per_sec c < 2 ^ 63 ->
  GetSecondsSince1970ToPointTime c t = Some (mktime t).
Proof.
  intros Hc Hr. unfold GetSecondsSince1970ToPointTime, from_time_t, time_point_cast. destruct (Z.eqb_spec (mktime t) (-1)) as [->|]; [done|].
  rewrite chk64_ok by done. cbn [mbind option_bind]. by rewrite Z.mul_1_l, Z.quot_mul by lia.
Qed.

(** The seconds between two times are their distance, in whatever order they
    are given; -1 when either is not a time. *)
Lemma GetSecondsBetween_is_the_distance c t1 t2 : 2 <= ticks_per_sec c ->
  - 2 ^ 63 <= mktime t1 * ticks_per_sec c < 2 ^ 63 -> - 2 ^ 63 <= mktime t2 * ticks_per_sec c < 2 ^ 63 ->
  GetSecondsBetween c t1 t2 =
    Some (if (mktime t1 =? -1) || (mktime t2 =? -1) then -1 else Z.abs (mktime t1 - mktime t2)) /\
  GetSecondsBetween c t1 t2 = GetSecondsBetween c t2 t1.
Proof.
  intros Hc H1 H2.
  assert (forall u1 u2, - 2 ^ 63 <= mktime u1 * ticks_per_sec c < 2 ^ 63 -> - 2 ^ 63 <= mktime u2 * ticks_per_sec c < 2 ^ 63 ->
    GetSecondsBetween c u1 u2 = Some (if (mktime u1 =? -1) || (mktime u2 =? -1) then -1 else Z.abs (mktime u1 - mktime u2))) as He.
  { intros u1 u2 Hu1 Hu2. unfold GetSecondsBetween. rewrite !point_time_spec by (done || lia). cbn [mbind option_bind].
    assert (- 2 ^ 62 <= mktime u1 < 2 ^ 62 /\ - 2 ^ 62 <= mktime u2 < 2 ^ 62) as [? ?] by nia.
    destruct (_ || _); [done|]. destruct (Z.leb_spec (mktime u2) (mktime u1)); rewrite chk64_ok by lia; f_equal; lia. }
  rewrite !He by done. split; [done|]. f_equal. rewrite orb_comm. destruct (_ || _); [done|]. lia.
Qed.

(** The tick counts follow the clock and never go back. *)
Lemma GetTickCount_monotone c c' n n' : GetTickCount c = Some n -> GetTickCount c' = Some n' ->
  0 <= tv_nsec c < SEC_TO_NANOSEC -> 0 <= tv_nsec c' < SEC_TO_NANOSEC -> 0 <= tv_sec c ->
  tv_sec c * SEC_TO_NANOSEC + tv_nsec c <= tv_sec c' * SEC_TO_NANOSEC + tv_nsec c' ->
  n <= n' /\ n = (tv_sec c * SEC_TO_NANOSEC + tv_nsec c) / MILLISEC_TO_NANOSEC.
Proof.
  intros Hn Hn' Hr Hr' H0 Hle.
  assert (forall c n, GetTickCount c = Some n -> 0 <= tv_nsec c < SEC_TO_NANOSEC -> 0 <= tv_sec c ->
    n = (tv_sec c * SEC_TO_NANOSEC + tv_nsec c) / MILLISEC_TO_NANOSEC) as Hv.
  { clear. intros c n. unfold GetTickCount, GetMicroTickCount. destruct (chk64 (tv_sec c * _)) as [a|] eqn:Ea; cbn; [|done].
    destruct (chk64 (a + _)) as [b|] eqn:Eb; cbn; [|done]. intros [= <-] Hr H0. apply chk64_Some in Ea as [-> _], Eb as [-> _].
    unfold SEC_TO_NANOSEC, SEC_TO_MICROSEC, MICROSEC_TO_NANOSEC, SEC_TO_MILLISEC, MILLISEC_TO_NANOSEC in *.
    rewrite (Z.quot_div_nonneg (tv_nsec c)), Z.quot_div_nonneg by (lia || (apply Z.add_nonneg_nonneg; [lia|]; apply Z.div_pos; lia)).
    change 1000000 with (1000 * 1000) at 2. rewrite <- Z.div_div by lia. f_equal.
    replace (tv_sec c * 1000000000 + tv_nsec c) with (tv_nsec c + (tv_sec c * 1000000) * 1000) by lia. rewrite Z.div_add by lia. lia. }
  rewrite (Hv c n), (Hv c' n') by (done || (unfold SEC_TO_NANOSEC in *; lia)). split; [|done]. by apply Z.div_le_mono.
Qed.

(** Where local time is [off] seconds ahead: the time zone is the whole hours
    of it, towards zero. *)
Lemma GetLocalTimeZone_is_the_offset c tz off :
  let now := to_time_t c (system_now c) in
  (exists l g, localtime_r now = Some l /\ gmtime_r now = Some g /\ mktime l = now /\ mktime g = now - off) ->
  now <> -1 -> now - off <> -1 -> - 2 ^ 31 <= off < 2 ^ 31 ->
  GetLocalTimeZone c tz = Some (true, Z.quot off SECONDS_PER_HOUR).
Proof.
  intros now (l & g & El & Eg & Hl & Hg) Hn Hn' Ho. unfold GetLocalTimeZone. fold now. rewrite El, Eg, Hl, Hg.
  destruct (Z.eqb_spec now (-1)), (Z.eqb_spec (now - off) (-1)); try done. cbn [orb].
  replace (now - (now - off)) with off by lia. rewrite chk64_ok by lia. cbn [mbind option_bind]. do 3 f_equal.
  apply wrapS_small; lia.
Qed.
End datetime.

(** ** A zone five hours and a half ahead *)

(** A time is its seconds on the local clock. *)
#[export] Instance demo_calendar : Calendar Z := {
  mktime t := t - 19800; localtime_r t := Some (t + 19800); gmtime_r t := Some t }.
Definition demo_clocks : clocks := {| ticks_per_sec := 1000000; system_now := 1700000000000000; tv_sec := 5; tv_nsec := 999999999 |}.

Example demo_times :
  GetLocalTimeZone demo_clocks 0 = Some (true, 5) /\ GetDaysSince1970ToNow demo_clocks = 19675 /\
  GetTickCount demo_clocks = Some 5999 /\ GetSecondsBetween demo_clocks 20000 119800 = Some 99800.
Proof. split_and!; vm_compute; reflexivity. Qed.

(** The second before 1970 is taken for an error. *)
Example the_last_second_of_1969 : GetSecondsBetween demo_clocks 19799 19801 = Some (-1).
Proof. vm_compute. reflexivity. Qed.
