(* ===== verification/RefRace.v ===== *)
(** * Reference counting under concurrency ([base/src/refbase.cpp])

    One object with its [RefCounter] and its [WeakRefCounter]s, used by any
    number of threads through [sptr] and [wptr] variables. Every access to an
    atomic of the counters is a step, so that the methods of [RefBase.v] and
    [SmartPtr.v], which run there without interference, interleave here in
    every way. [crash] marks an access to a counter, weak counter or object
    that has been deleted. The counters are [std::atomic<int>]s: 32-bit
    integers whose [fetch_add] and [fetch_sub] wrap around.

    Of the variables only the numbers count: [strong_refs] [sptr]s hold the
    object and [wptrs] [wptr]s each weak counter. A copy reads a variable that
    nobody may let go of before the copy is done; that is what the guards of
    [Drop] and [DropWeak] say. [CanPromote] is the default one. *)

From S2P Require Import Prelude.

Definition INITIAL_PRIMARY_VALUE : Z := 2 ^ 28.

Record counter := { atomicStrong_ : Z; atomicWeak_ : Z; atomicRefCount_ : Z; callback_ : bool }.

(** What becomes of a weak counter, with the thread that makes or deletes it. *)
Inductive life := Fresh (t : Z) | Live | Dying (t : Z).
Record weak_counter := { wrAtomicWeak_ : Z; wptrs : Z; phase : life }.

(** What follows a [DecWeakRefCount] of the counter, a destructor of the
    object or a [DecRefCount]: the return to the client, [delete this] of a
    weak counter, the end of that, the rest of [DecStrongRef]. *)
Inductive kont := KEnd | KDelete (w : Z) | KFree (w : Z) | KDecWeak.

(** The next access of a thread. [raw]: the client has nothing but the pointer
    [new] returned. *)
Inductive pc :=
  | Idle
  | Raw
  | Inc1 (raw : bool)        (** [IncStrongRef]: [atomicWeak_.fetch_add] *)
  | Inc2 (raw : bool)        (** [IncStrongRefCount]: the load *)
  | Inc3 (raw : bool)        (** its [fetch_add] *)
  | IncSub                   (** its [fetch_sub] of the initial value *)
  | Dec1                     (** [DecStrongRef]: the load *)
  | Dec2                     (** its [fetch_sub] *)
  | Dec3                     (** the last one: the callback *)
  | DW1 (k : kont)           (** [RefCounter::DecWeakRefCount]: the load *)
  | DW2 (k : kont)           (** its [fetch_sub] *)
  | DW3 (k : kont)           (** the last one *)
  | Del1 (k : kont)          (** [~RefBase]: [RemoveCallback] *)
  | Del2 (k : kont)          (** the load of [atomicWeak_] *)
  | Del3 (k : kont)          (** the load of [atomicStrong_] *)
  | DR1 (k : kont)           (** [DecRefCount]: the load *)
  | DR2 (k : kont)           (** its [fetch_sub] *)
  | NW1 (raw : bool)         (** [CreateWeakRef] *)
  | NW2 (w : Z) (raw : bool) (** [WeakRefCounter::IncWeakRefCount], new counter *)
  | NW3 (w : Z) (raw : bool) (** its call of [RefCounter::IncWeakRefCount] *)
  | CW (w : Z)               (** [WeakRefCounter::IncWeakRefCount], copied [wptr] *)
  | DC (w : Z)               (** [WeakRefCounter::DecWeakRefCount] *)
  | P1 (w : Z)               (** [AttemptIncStrongRef]: the load *)
  | P2 (w cur : Z)           (** its [IncWeakRefCount] *)
  | P3 (w cur : Z)           (** the exchange of the first loop *)
  | P4 (w : Z)               (** the load of the first loop *)
  | P5 (w cur : Z)           (** the exchange of the second loop *)
  | P6 (w : Z)               (** the load of the second loop *)
  | P7 (w : Z)               (** the [fetch_add] for an extended life time *)
  | PSub (w : Z)             (** the [fetch_sub] of the initial value *)
  | PGet (w : Z)             (** [GetRefPtr] after a promotion *)
  | Get (w : Z).             (** [wptr::GetRefPtr] *)

(** [rc] is [None] once deleted; [object]: it is not deleted. History:
    [never]: no strong reference was ever counted; [released]: the object's
    share of [atomicRefCount_] is gone. *)
Record world := {
  rc : option counter;
  object : bool;
  wrcs : gmap Z weak_counter;
  strong_refs : Z;
  threads : gmap Z pc;
  never : bool;
  released : bool;
  crashed : bool;
}.

(** After [new]: thread [t0] has the pointer. *)
Definition start (t0 : Z) (tids : gset Z) : world :=
  {| rc := Some {| atomicStrong_ := INITIAL_PRIMARY_VALUE; atomicWeak_ := 0; atomicRefCount_ := 1; callback_ := true |};
     object := true; wrcs := ∅; strong_refs := 0; threads := <[t0 := Raw]> (gset_to_gmap Idle tids);
     never := true; released := false; crashed := false |}.

(** ** Changes of the state *)

Definition goto (t : Z) (p : pc) (s : world) : world :=
  {| rc := rc s; object := object s; wrcs := wrcs s; strong_refs := strong_refs s; threads := <[t := p]> (threads s);
     never := never s; released := released s; crashed := crashed s |}.
Definition set_rc (c : option counter) (s : world) : world :=
  {| rc := c; object := object s; wrcs := wrcs s; strong_refs := strong_refs s; threads := threads s;
     never := never s; released := released s; crashed := crashed s |}.
Definition set_object (b : bool) (s : world) : world :=
  {| rc := rc s; object := b; wrcs := wrcs s; strong_refs := strong_refs s; threads := threads s;
     never := never s; released := released s; crashed := crashed s |}.
Definition set_wrcs (m : gmap Z weak_counter) (s : world) : world :=
  {| rc := rc s; object := object s; wrcs := m; strong_refs := strong_refs s; threads := threads s;
     never := never s; released := released s; crashed := crashed s |}.
Definition set_refs (n : Z) (s : world) : world :=
  {| rc := rc s; object := object s; wrcs := wrcs s; strong_refs := n; threads := threads s;
     never := never s; released := released s; crashed := crashed s |}.
Definition set_history (nv rel : bool) (s : world) : world :=
  {| rc := rc s; object := object s; wrcs := wrcs s; strong_refs := strong_refs s; threads := threads s;
     never := nv; released := rel; crashed := crashed s |}.
Definition crash (s : world) : world :=
  {| rc := rc s; object := object s; wrcs := wrcs s; strong_refs := strong_refs s; threads := threads s;
     never := never s; released := released s; crashed := true |}.

Definition add_strong (n : Z) (c : counter) : counter :=
  {| atomicStrong_ := i32 (atomicStrong_ c + n); atomicWeak_ := atomicWeak_ c; atomicRefCount_ := atomicRefCount_ c; callback_ := callback_ c |}.
Definition add_weak (n : Z) (c : counter) : counter :=
  {| atomicStrong_ := atomicStrong_ c; atomicWeak_ := i32 (atomicWeak_ c + n); atomicRefCount_ := atomicRefCount_ c; callback_ := callback_ c |}.
Definition add_ref (n : Z) (c : counter) : counter :=
  {| atomicStrong_ := atomicStrong_ c; atomicWeak_ := atomicWeak_ c; atomicRefCount_ := i32 (atomicRefCount_ c + n); callback_ := callback_ c |}.
Definition RemoveCallback (c : counter) : counter :=
  {| atomicStrong_ := atomicStrong_ c; atomicWeak_ := atomicWeak_ c; atomicRefCount_ := atomicRefCount_ c; callback_ := false |}.

Definition on_counter (s : world) (f : counter -> option world) : option world :=
  match rc s with Some c => f c | None => Some (crash s) end.
Definition on_object (s : world) (r : option world) : option world :=
  if object s then r else Some (crash s).
Definition on_wrc (s : world) (w : Z) (f : weak_counter -> option world) : option world :=
  match wrcs s !! w with Some x => f x | None => Some (crash s) end.

(** ** The methods *)

Definition finish (t : Z) (k : kont) (s : world) : option world :=
  match k with
  | KEnd => Some (goto t Idle s)
  | KDelete w => on_wrc s w (fun _ => Some (goto t (DR1 (KFree w)) s))
  | KFree w => on_wrc s w (fun _ => Some (goto t Idle (set_wrcs (delete w (wrcs s)) s)))
  | KDecWeak => Some (goto t (DW1 KEnd) s)
  end.

Definition IncStrongRef (t : Z) (p : pc) (s : world) : option world :=
  match p with
  | Inc1 raw => on_object s (on_counter s (fun c => Some (goto t (Inc2 raw) (set_rc (Some (add_weak 1 c)) s))))
  | Inc2 raw => on_object s (on_counter s (fun c =>
      if 0 <=? atomicStrong_ c then Some (goto t (Inc3 raw) s) else Some (goto t Idle s)))
  | Inc3 raw => on_object s (on_counter s (fun c =>
      let s' := set_history false (released s) (set_rc (Some (add_strong 1 c)) s) in
      if atomicStrong_ c =? INITIAL_PRIMARY_VALUE then Some (goto t IncSub s')
      else Some (goto t Idle (set_refs (strong_refs s + 1) s'))))
  | IncSub => on_counter s (fun c => on_object s    (* [OnFirstStrongRef] *)
      (Some (goto t Idle (set_refs (strong_refs s + 1) (set_rc (Some (add_strong (- INITIAL_PRIMARY_VALUE) c)) s)))))
  | _ => None
  end.

Definition DecStrongRef (ext : bool) (t : Z) (p : pc) (s : world) : option world :=
  match p with
  | Dec1 => on_object s (on_counter s (fun c =>
      let curCount := atomicStrong_ c in
      if (curCount =? INITIAL_PRIMARY_VALUE) || (curCount <=? 0) then Some (goto t (DW1 KEnd) s)
      else Some (goto t Dec2 s)))
  | Dec2 => on_counter s (fun c =>
      let s' := set_rc (Some (add_strong (-1) c)) s in
      if atomicStrong_ c =? 1 then Some (goto t Dec3 s') else Some (goto t (DW1 KEnd) s'))
  | Dec3 => on_object s (on_counter s (fun c =>     (* [OnLastStrongRef] *)
      if negb ext && callback_ c then Some (goto t (Del1 KDecWeak) (set_object false s)) else Some (goto t (DW1 KEnd) s)))
  | _ => None
  end.

Definition DecWeakRefCount (ext : bool) (t : Z) (p : pc) (s : world) : option world :=
  match p with
  | DW1 k => on_counter s (fun c =>
      if 0 <? atomicWeak_ c then Some (goto t (DW2 k) s) else finish t k s)
  | DW2 k => on_counter s (fun c =>
      let s' := set_rc (Some (add_weak (-1) c)) s in
      if negb (atomicWeak_ c =? 1) then finish t k s' else Some (goto t (DW3 k) s'))
  | DW3 k => on_counter s (fun c =>
      if ext || (atomicStrong_ c =? INITIAL_PRIMARY_VALUE) then
        if callback_ c then on_object s (Some (goto t (Del1 k) (set_object false s))) else finish t k s
      else Some (goto t (DR1 k) s))
  | _ => None
  end.

Definition RefBase_dtor (ext : bool) (t : Z) (p : pc) (s : world) : option world :=
  match p with
  | Del1 k => on_counter s (fun c => Some (goto t (if ext then Del2 k else Del3 k) (set_rc (Some (RemoveCallback c)) s)))
  | Del2 k => on_counter s (fun c => if atomicWeak_ c =? 0 then Some (goto t (DR1 k) s) else Some (goto t (Del3 k) s))
  | Del3 k => on_counter s (fun c => if atomicStrong_ c =? INITIAL_PRIMARY_VALUE then Some (goto t (DR1 k) s) else finish t k s)
  | _ => None
  end.

(** Only the share of a weak counter is not the object's. *)
Definition object_share (k : kont) : bool := if k is KFree _ then false else true.

Definition DecRefCount (t : Z) (p : pc) (s : world) : option world :=
  match p with
  | DR1 k => on_counter s (fun c => if 0 <? atomicRefCount_ c then Some (goto t (DR2 k) s) else finish t k s)
  | DR2 k => on_counter s (fun c =>
      let s' := set_history (never s) (object_share k || released s) s in
      finish t k (set_rc (if atomicRefCount_ c =? 1 then None else Some (add_ref (-1) c)) s'))
  | _ => None
  end.

(** [new] gives an address that no weak counter has. *)
Definition wptr_ctor (t : Z) (p : pc) (fresh : Z) (s : world) : option world :=
  match p with
  | NW1 raw => on_object s (on_counter s (fun c =>
      if wrcs s !! fresh is Some _ then None
      else Some (goto t (NW2 fresh raw) (set_wrcs (<[fresh := {| wrAtomicWeak_ := 0; wptrs := 0; phase := Fresh t |}]> (wrcs s))
                   (set_rc (Some (add_ref 1 c)) s)))))
  | NW2 w raw => on_wrc s w (fun x =>
      let x' := {| wrAtomicWeak_ := i32 (wrAtomicWeak_ x + 1); wptrs := wptrs x; phase := phase x |} in
      let s' := set_wrcs (<[w := x']> (wrcs s)) s in
      if wrAtomicWeak_ x =? 0 then Some (goto t (NW3 w raw) s')
      else Some (goto t Idle (set_wrcs (<[w := {| wrAtomicWeak_ := i32 (wrAtomicWeak_ x + 1); wptrs := wptrs x + 1; phase := phase x |}]> (wrcs s)) s)))
  | NW3 w raw => on_wrc s w (fun x => on_counter s (fun c =>
      Some (goto t Idle (set_wrcs (<[w := {| wrAtomicWeak_ := wrAtomicWeak_ x; wptrs := wptrs x + 1; phase := Live |}]> (wrcs s))
              (set_rc (Some (add_weak 1 c)) s)))))
  | CW w => on_wrc s w (fun x =>
      if wrAtomicWeak_ x =? 0 then
        Some (goto t (NW3 w false) (set_wrcs (<[w := {| wrAtomicWeak_ := i32 (wrAtomicWeak_ x + 1); wptrs := wptrs x; phase := phase x |}]> (wrcs s)) s))
      else Some (goto t Idle (set_wrcs (<[w := {| wrAtomicWeak_ := i32 (wrAtomicWeak_ x + 1); wptrs := wptrs x + 1; phase := phase x |}]> (wrcs s)) s)))
  | _ => None
  end.

Definition wptr_dtor (t : Z) (p : pc) (s : world) : option world :=
  match p with
  | DC w => on_wrc s w (fun x =>
      let n := wrAtomicWeak_ x in
      if n =? 1 then
        Some (goto t (DW1 (KDelete w)) (set_wrcs (<[w := {| wrAtomicWeak_ := i32 (n - 1); wptrs := wptrs x; phase := Dying t |}]> (wrcs s)) s))
      else Some (goto t Idle (set_wrcs (<[w := {| wrAtomicWeak_ := i32 (n - 1); wptrs := wptrs x; phase := phase x |}]> (wrcs s)) s)))
  | _ => None
  end.

(** Where [AttemptIncStrongRef] goes with [curCount], from its first loop on;
    from its second loop on; and from [ATTEMPT_SUCCESS] on. *)
Definition attempt_second (w cur : Z) : pc := if 0 <? cur then P5 w cur else DW1 KEnd.
Definition attempt_first (ext : bool) (w cur : Z) : pc :=
  if (0 <? cur) && negb (cur =? INITIAL_PRIMARY_VALUE) then P3 w cur
  else if (cur =? INITIAL_PRIMARY_VALUE) && negb ext then attempt_second w cur
  else if ext then P7 w
  else DW1 KEnd.
Definition attempt_success (ext : bool) (w cur : Z) : pc :=
  if cur =? INITIAL_PRIMARY_VALUE then PSub w
  else if (cur <? 0) || (negb ext && (cur =? 0)) then DW1 KEnd
  else PGet w.

(** [compare_exchange_weak], which may fail without a reason. *)
Definition exchange (ext : bool) (t w cur : Z) (retry : pc) (spurious : bool) (s : world) : option world :=
  on_counter s (fun c =>
    if (atomicStrong_ c =? cur) && negb spurious
    then Some (goto t (attempt_success ext w cur) (set_history false (released s) (set_rc (Some (add_strong 1 c)) s)))
    else Some (goto t retry s)).

Definition promote (ext : bool) (t : Z) (p : pc) (spurious : bool) (s : world) : option world :=
  match p with
  | P1 w => on_wrc s w (fun _ => on_counter s (fun c => Some (goto t (P2 w (atomicStrong_ c)) s)))
  | P2 w cur => on_counter s (fun c => Some (goto t (attempt_first ext w cur) (set_rc (Some (add_weak 1 c)) s)))
  | P3 w cur => exchange ext t w cur (P4 w) spurious s
  | P4 w => on_counter s (fun c => Some (goto t (attempt_first ext w (atomicStrong_ c)) s))
  | P5 w cur => exchange ext t w cur (P6 w) spurious s
  | P6 w => on_counter s (fun c => Some (goto t (attempt_second w (atomicStrong_ c)) s))
  | P7 w => on_object s (on_counter s (fun c =>     (* [canPromote_] *)
      Some (goto t (attempt_success ext w (atomicStrong_ c)) (set_history false (released s) (set_rc (Some (add_strong 1 c)) s)))))
  | PSub w => on_counter s (fun c => Some (goto t (PGet w) (set_rc (Some (add_strong (- INITIAL_PRIMARY_VALUE) c)) s)))
  | PGet w => on_wrc s w (fun _ => on_counter s (fun c =>
      Some (goto t Idle (if callback_ c then set_refs (strong_refs s + 1) s else s))))
  | Get w => on_wrc s w (fun _ => on_counter s (fun _ => Some (goto t Idle s)))
  | _ => None
  end.

Definition go (ext : bool) (t : Z) (p : pc) (spurious : bool) (fresh : Z) (s : world) : option world :=
  match p with
  | Idle | Raw => None
  | Inc1 _ | Inc2 _ | Inc3 _ | IncSub => IncStrongRef t p s
  | Dec1 | Dec2 | Dec3 => DecStrongRef ext t p s
  | DW1 _ | DW2 _ | DW3 _ => DecWeakRefCount ext t p s
  | Del1 _ | Del2 _ | Del3 _ => RefBase_dtor ext t p s
  | DR1 _ | DR2 _ => DecRefCount t p s
  | NW1 _ | NW2 _ _ | NW3 _ _ | CW _ => wptr_ctor t p fresh s
  | DC _ => wptr_dtor t p s
  | _ => promote ext t p spurious s
  end.

(** ** What clients may start *)

(** Threads that read an [sptr]; that read a [wptr] of [w]. *)
Definition borrows (p : pc) : Z :=
  match p with Inc1 false | Inc2 false | Inc3 false | NW1 false | NW2 _ false | NW3 _ false => 1 | _ => 0 end.
Definition borrows_weak (w : Z) (p : pc) : Z :=
  match p with
  | CW v | P1 v | P2 v _ | P3 v _ | P4 v | P5 v _ | P6 v | P7 v | PSub v | PGet v | Get v => if v =? w then 1 else 0
  | _ => 0
  end.
(** The references a program has: its [sptr]s, its [wptr]s and their weak
    counters, and one for every thread inside a method, which may be making one
    or giving one up (two for a weak counter and its first [wptr]). *)
Definition weight (p : pc) : Z := match p with Idle | Get _ => 0 | NW1 _ => 2 | _ => 1 end.
Definition s_wptrs (x : weak_counter) : Z := Z.max 0 (wptrs x) + 1.
Definition references (s : world) : Z := strong_refs s + msum weight (threads s) + msum s_wptrs (wrcs s).

Inductive client_op := FirstStrong | FirstWeak | Copy | Drop | NewWeak | CopyWeak (w : Z) | DropWeak (w : Z) | Promote (w : Z) | GetPtr (w : Z).

(** Clients start a method that makes a reference only while there are fewer
    references than the initial value, which is also what keeps the counters,
    32-bit integers that wrap around, from overflowing. *)
Definition has_room (s : world) : bool := references s + 2 <? INITIAL_PRIMARY_VALUE.

Definition start_op (t : Z) (p : pc) (op : client_op) (s : world) : option world :=
  match op, p with
  | FirstStrong, Raw => Some (goto t (Inc1 true) s)
  | FirstWeak, Raw => if has_room s then Some (goto t (NW1 true) s) else None
  | Copy, Idle => if (0 <? strong_refs s) && has_room s then Some (goto t (Inc1 false) s) else None
  | Drop, Idle =>
      if (0 <? strong_refs s) && ((1 <? strong_refs s) || (msum borrows (threads s) =? 0))
      then Some (goto t Dec1 (set_refs (strong_refs s - 1) s)) else None
  | NewWeak, Idle => if (0 <? strong_refs s) && has_room s then Some (goto t (NW1 false) s) else None
  | CopyWeak w, Idle => x ← wrcs s !! w; if (0 <? wptrs x) && has_room s then Some (goto t (CW w) s) else None
  | DropWeak w, Idle =>
      x ← wrcs s !! w;
      if (0 <? wptrs x) && ((1 <? wptrs x) || (msum (borrows_weak w) (threads s) =? 0))
      then Some (goto t (DC w) (set_wrcs (<[w := {| wrAtomicWeak_ := wrAtomicWeak_ x; wptrs := wptrs x - 1; phase := phase x |}]> (wrcs s)) s))
      else None
  | Promote w, Idle => x ← wrcs s !! w; if (0 <? wptrs x) && has_room s then Some (goto t (P1 w) s) else None
  | GetPtr w, Idle => x ← wrcs s !! w; if 0 <? wptrs x then Some (goto t (Get w) s) else None
  | _, _ => None
  end.

Inductive event := Begin (op : client_op) | Go (spurious : bool) (fresh : Z).

Definition step (ext : bool) (s : world) (ev : Z * event) : option world :=
  let '(t, e) := ev in
  p ← threads s !! t;
  match e with
  | Begin op => start_op t p op s
  | Go spurious fresh => go ext t p spurious fresh s
  end.

Definition run (ext : bool) : world -> list (Z * event) -> option world := run_steps (step ext).
