(* ===== verification/RefRaceInv.v ===== *)
(** * The invariant of concurrent reference counting

    What each counter holds is a sum: of the variables and of what every thread
    has counted and not yet uncounted. One token each says who deletes the
    object and who gives up its share of the counter. *)

From S2P Require Import Prelude RefRace.

Lemma msum_le {V} (f g : V -> Z) (m : gmap Z V) : (forall v, f v <= g v) -> msum f m <= msum g m.
Proof.
  intros Hfg. induction m as [|k v m Hk IH] using map_ind; [by rewrite !msum_empty|].
  rewrite !msum_insert_new by done. specialize (Hfg v). lia.
Qed.

(** ** What the threads have counted *)

(** A strong reference; a share of [atomicWeak_]; the initial value that is
    still to be subtracted. *)
Definition s_strong (p : pc) : Z := match p with IncSub | Dec1 | Dec2 | PSub _ | PGet _ => 1 | _ => 0 end.
Definition s_weak (p : pc) : Z :=
  match p with
  | Inc2 _ | Inc3 _ | IncSub | Dec1 | Dec2 | Dec3 | DW1 _ | DW2 _
  | Del1 KDecWeak | Del2 KDecWeak | Del3 KDecWeak | DR1 KDecWeak | DR2 KDecWeak
  | P3 _ _ | P4 _ | P5 _ _ | P6 _ | P7 _ | PSub _ | PGet _ => 1
  | _ => 0
  end.
Definition s_transit (p : pc) : Z := match p with IncSub | PSub _ => 1 | _ => 0 end.
(** The pointer of [new]; and its weak share. *)
Definition s_raw (p : pc) : Z :=
  match p with Raw | Inc1 true | Inc2 true | Inc3 true | NW1 true | NW2 _ true | NW3 _ true => 1 | _ => 0 end.
Definition s_raw_weak (p : pc) : Z := match p with Inc2 true | Inc3 true => 1 | _ => 0 end.
(** The thread that took the last weak share, before and after the deletion. *)
Definition s_last (p : pc) : Z :=
  match p with
  | DW3 _ => 1
  | Del1 k | Del2 k | Del3 k | DR1 k | DR2 k => match k with KEnd | KDelete _ => 1 | _ => 0 end
  | _ => 0
  end.
Definition s_last_early (p : pc) : Z := match p with DW3 _ => 1 | _ => 0 end.
(** The thread that took the last strong one. *)
Definition s_doom (p : pc) : Z := match p with Dec3 => 1 | _ => 0 end.
(** The [wptr]s of [w] that the threads have counted. *)
Definition s_wptr (w : Z) (p : pc) : Z := match p with NW3 v _ | DC v => if v =? w then 1 else 0 | _ => 0 end.
Definition s_live (x : weak_counter) : Z := if phase x is Live then 1 else 0.

Definition strongs (s : world) : Z := strong_refs s + msum s_strong (threads s).
Definition weaks (s : world) : Z := strong_refs s + msum s_weak (threads s) + msum s_live (wrcs s).
Definition transits (s : world) : Z := Z.b2z (never s) + msum s_transit (threads s).
Definition shares (s : world) : Z := Z.b2z (negb (released s)) + msum (fun _ => 1) (wrcs s).
Definition raws (s : world) : Z := msum s_raw (threads s).
Definition lasts (s : world) : Z := msum s_last (threads s).
Definition dooms (s : world) : Z := msum s_doom (threads s).

(** Where a thread may be with the weak counter [w] of its own. *)
Definition makes (w : Z) (p : pc) : bool := match p with NW2 v _ | NW3 v _ => v =? w | _ => false end.
Definition deletes (w : Z) (p : pc) : bool :=
  match p with
  | DW1 k | DW2 k | DW3 k | Del1 k | Del2 k | Del3 k | DR1 k | DR2 k =>
      match k with KDelete v | KFree v => v =? w | _ => false end
  | _ => false
  end.

Definition wrc_ok (s : world) (w : Z) (x : weak_counter) : Prop :=
  wrAtomicWeak_ x = wptrs x + msum (s_wptr w) (threads s) /\ 0 <= wptrs x /\
  (0 < msum (borrows_weak w) (threads s) -> 1 <= wptrs x) /\
  match phase x with
  | Live => 1 <= wrAtomicWeak_ x
  | Fresh t => wptrs x = 0 /\ exists p, threads s !! t = Some p /\ makes w p = true
  | Dying t => wrAtomicWeak_ x = 0 /\ exists p, threads s !! t = Some p /\ deletes w p = true
  end.

(** The weak counter that a thread uses exists; what else a thread relies on. *)
Definition pc_ok (ext : bool) (s : world) (t : Z) (p : pc) : Prop :=
  (forall w, makes w p = true -> exists x, wrcs s !! w = Some x /\ phase x = Fresh t /\ wrAtomicWeak_ x = s_wptr w p) /\
  (forall w, deletes w p = true -> exists x, wrcs s !! w = Some x /\ phase x = Dying t) /\
  (forall w, 0 < borrows_weak w p + s_wptr w p -> is_Some (wrcs s !! w)) /\
  match p with
  | DW1 k | DW2 k | DW3 k => match k with KEnd | KDelete _ => True | _ => False end
  | Del1 k | Del2 k | Del3 k =>
      object s = false /\ match k with KDecWeak => ext = false /\ never s = false | KFree _ => False | _ => ext = true \/ never s = true end /\
      match p with Del2 _ => ext = true | Del3 _ => ext = false | _ => True end
  | DR1 k | DR2 k => match k with KDecWeak => False | _ => True end
  | PSub _ | PGet _ | IncSub => never s = false
  | P5 _ cur => ext = false /\ 0 < cur
  | P3 _ cur => 0 < cur /\ cur <> INITIAL_PRIMARY_VALUE
  | P6 _ => ext = false
  | P7 _ => ext = true
  | _ => True
  end.

(** The sums and the tokens. *)
Record sums_ok (ext : bool) (s : world) : Prop := {
  ok_crash : crashed s = false;
  ok_counter : forall c, rc s = Some c ->
    atomicStrong_ c = strongs s + INITIAL_PRIMARY_VALUE * transits s /\ atomicWeak_ c = weaks s /\ atomicRefCount_ c = shares s /\
    (object s = true -> callback_ c = true) /\ 0 < shares s;
  ok_deleted : rc s = None -> shares s = 0;
  ok_token : (0 < weaks s \/ 0 < raws s -> lasts s = 0 /\ released s = false) /\
    (weaks s = 0 /\ raws s = 0 -> lasts s + Z.b2z (released s) = 1);
  ok_raw : 0 < raws s -> raws s = 1 /\ never s = true /\ weaks s = msum s_raw_weak (threads s);
  ok_never : never s = true -> strongs s = 0 /\ dooms s = 0;
  ok_transit : 0 <= transits s <= 1;
  ok_room : 0 <= strong_refs s /\ references s < INITIAL_PRIMARY_VALUE;
  ok_mortal : ext = false -> never s = false ->
    (0 < strongs s -> dooms s = 0 /\ object s = true) /\ (strongs s = 0 -> dooms s + Z.b2z (negb (object s)) = 1);
  ok_extended : ext = true \/ never s = true ->
    (0 < weaks s \/ 0 < raws s -> msum s_last_early (threads s) = 0 /\ object s = true) /\
    (weaks s = 0 /\ raws s = 0 -> msum s_last_early (threads s) + Z.b2z (negb (object s)) = 1);
  ok_borrow : 0 < msum borrows (threads s) -> 1 <= strong_refs s;
}.

Record inv (ext : bool) (s : world) : Prop := {
  inv_sums : sums_ok ext s;
  inv_wrcs : forall w x, wrcs s !! w = Some x -> wrc_ok s w x;
  inv_pcs : forall t p, threads s !! t = Some p -> pc_ok ext s t p;
}.

(** ** Sums over the threads *)

Lemma msum_gap {V} (f g : V -> Z) (m : gmap Z V) k v : (forall v, f v <= g v) -> m !! k = Some v -> g v - f v <= msum g m - msum f m.
Proof.
  intros Hfg Hk. rewrite (msum_delete f m k v Hk), (msum_delete g m k v Hk).
  pose proof (msum_le f g (delete k m) Hfg). lia.
Qed.

Lemma zero_msum {V} (m : gmap Z V) : msum (fun _ => 0) m = 0.
Proof. by apply msum_zero. Qed.

(** What every state has, whatever the threads do. *)
Lemma sums_ordered (m : gmap Z pc) :
  0 <= msum s_transit m /\ msum s_transit m <= msum s_strong m /\ msum s_strong m <= msum s_weak m /\
  msum s_weak m <= msum weight m /\ 0 <= msum s_raw_weak m /\ msum s_raw_weak m <= msum s_weak m /\
  msum s_raw_weak m <= msum s_raw m /\ 0 <= msum s_last_early m /\ msum s_last_early m <= msum s_last m /\
  0 <= msum s_doom m /\ msum s_doom m <= msum s_weak m /\ 0 <= msum borrows m.
Proof.
  split_and!; try (apply msum_nonneg; by intros []); try (apply msum_le; by intros []);
    try (apply msum_le; intros []; cbn; repeat case_match; lia); apply msum_nonneg; intros []; cbn; repeat case_match; lia.
Qed.

(** The same, for what the others hold besides the thread [t]. *)
Lemma sums_ordered_at (m : gmap Z pc) t p : m !! t = Some p ->
  s_transit p <= msum s_transit m /\ s_strong p - s_transit p <= msum s_strong m - msum s_transit m /\
  s_weak p - s_strong p <= msum s_weak m - msum s_strong m /\ weight p - s_weak p <= msum weight m - msum s_weak m /\
  s_raw_weak p <= msum s_raw_weak m /\ s_weak p - s_raw_weak p <= msum s_weak m - msum s_raw_weak m /\
  s_raw p - s_raw_weak p <= msum s_raw m - msum s_raw_weak m /\ s_last_early p <= msum s_last_early m /\
  s_last p - s_last_early p <= msum s_last m - msum s_last_early m /\ s_doom p <= msum s_doom m /\
  s_weak p - s_doom p <= msum s_weak m - msum s_doom m /\ borrows p <= msum borrows m.
Proof.
  intros Ht. split_and!; try (apply (msum_ge _ m t p); [|done]); try (apply (msum_gap _ _ m t p); [|done]);
    intros []; cbn; repeat case_match; lia.
Qed.

Lemma live_nonneg (m : gmap Z weak_counter) :
  0 <= msum s_live m /\ msum s_live m <= msum (fun _ => 1) m /\ msum (fun _ => 1) m <= msum s_wptrs m.
Proof.
  split_and!; [apply msum_nonneg|apply msum_le..]; intros x; unfold s_live, s_wptrs; try destruct (phase x); lia.
Qed.
Lemma live_at (m : gmap Z weak_counter) w x : m !! w = Some x ->
  s_live x <= msum s_live m /\ 1 <= msum (fun _ => 1) m /\ s_wptrs x <= msum s_wptrs m.
Proof.
  intros Hw. split_and!; [apply (msum_ge s_live m w x)|apply (msum_ge (fun _ => 1) m w x)|apply (msum_ge s_wptrs m w x)]; try done;
    intros y; unfold s_live, s_wptrs; try destruct (phase y); lia.
Qed.

(** ** What a step of one thread leaves alone *)

Lemma wrc_ok_frame s s' t p p' w x :
  threads s !! t = Some p -> threads s' = <[t := p']> (threads s) -> wrc_ok s w x ->
  s_wptr w p' = s_wptr w p -> (borrows_weak w p' <= borrows_weak w p \/ 1 <= wptrs x) ->
  (makes w p = true -> makes w p' = true) -> (deletes w p = true -> deletes w p' = true) -> wrc_ok s' w x.
Proof.
  intros Ht Et (A & B & C & D) Hs Hb Hm Hd. unfold wrc_ok. rewrite Et, !(msum_insert _ _ t p p' Ht).
  split; [lia|]. split; [done|]. split; [intros Hpos; destruct Hb; [apply C; lia|done]|].
  assert (forall u, (exists q, threads s !! u = Some q /\ makes w q = true) -> exists q, <[t := p']> (threads s) !! u = Some q /\ makes w q = true) as Hm'.
  { intros u (q & Hq & Hmq). destruct (decide (u = t)) as [->|Hu]; [|exists q; by rewrite lookup_insert_ne].
    exists p'. rewrite lookup_insert_eq. split; [done|]. apply Hm. congruence. }
  assert (forall u, (exists q, threads s !! u = Some q /\ deletes w q = true) -> exists q, <[t := p']> (threads s) !! u = Some q /\ deletes w q = true) as Hd'.
  { intros u (q & Hq & Hmq). destruct (decide (u = t)) as [->|Hu]; [|exists q; by rewrite lookup_insert_ne].
    exists p'. rewrite lookup_insert_eq. split; [done|]. apply Hd. congruence. }
  destruct (phase x); [|done|]; naive_solver.
Qed.

Lemma pcs_frame ext s s' t p p' :
  inv ext s -> threads s !! t = Some p -> threads s' = <[t := p']> (threads s) ->
  (forall u q w x, u <> t -> threads s !! u = Some q -> wrcs s !! w = Some x ->
     (phase x = Fresh u \/ phase x = Dying u -> wrcs s' !! w = Some x) /\
     (0 < borrows_weak w q + s_wptr w q -> is_Some (wrcs s' !! w))) ->
  (object s = false -> object s' = false) -> (never s = false -> never s' = false) -> (lasts s = 0 \/ never s' = never s) ->
  pc_ok ext s' t p' -> forall u q, threads s' !! u = Some q -> pc_ok ext s' u q.
Proof.
  intros [_ _ Hp] Ht Et HW Ho Hn Hl Hp' u q. rewrite Et. destruct (decide (u = t)) as [->|Hu]; [rewrite lookup_insert_eq; by intros [= <-]|].
  rewrite lookup_insert_ne by done. intros Hq. destruct (Hp u q Hq) as (A & B & C & D). split_and!.
  - intros w Hm. destruct (A w Hm) as (x & Hx & Hf & Hw). exists x. split; [|done]. apply (HW u q w x); auto.
  - intros w Hd. destruct (B w Hd) as (x & Hx & Hf). exists x. split; [|done]. apply (HW u q w x); auto.
  - intros w Hb. destruct (C w Hb) as [x Hx]. by apply (HW u q w x).
  - assert (s_last q <> 0 -> never s' = never s) as Hlast.
    { intros Hs. destruct Hl as [Hl|]; [|done]. pose proof (sums_ordered_at (threads s) u q Hq) as Hso.
      pose proof (sums_ordered (threads s)). unfold lasts in Hl. destruct q as [| | | | | | | | | | | |k|k|k|k|k| | | | | | | | | | | | | | |]; cbn in *; try destruct k; lia. }
    destruct q as [| | | | | | | | | | | |k|k|k|k|k| | | | | | | | | | | | | | |]; try done; try (by apply Hn); destruct D as (D1 & D2 & D3); split_and!; auto;
      destruct k; try done; try (split; [apply D2|apply Hn, D2]); rewrite Hlast by (cbn; lia); done.
Qed.

(** The weak counters stay. *)
Lemma quiet_access ext s s' t p p' :
  inv ext s -> threads s !! t = Some p -> threads s' = <[t := p']> (threads s) -> wrcs s' = wrcs s ->
  (forall w, s_wptr w p' = s_wptr w p /\
     (borrows_weak w p' <= borrows_weak w p \/ forall x, wrcs s !! w = Some x -> 1 <= wptrs x) /\
     (makes w p = true -> makes w p' = true) /\ (deletes w p = true -> deletes w p' = true)) ->
  (object s = false -> object s' = false) -> (never s = false -> never s' = false) -> (lasts s = 0 \/ never s' = never s) ->
  pc_ok ext s' t p' -> sums_ok ext s' -> inv ext s'.
Proof.
  intros Hi Ht Et Ew Hw Ho Hn Hl Hp Hs. split; [done| |].
  - intros w x Hx. rewrite Ew in Hx. destruct (Hw w) as (A & B & C & D).
    apply (wrc_ok_frame s s' t p p' w x Ht Et); auto; [by apply (inv_wrcs ext s Hi)|]. destruct B as [B|B]; [by left|right; by apply B].
  - apply (pcs_frame ext s s' t p p'); try done. intros u q w x _ _ Hx. rewrite Ew, Hx. split; [done|by eexists].
Qed.

(** The step changes the weak counter [w]. *)
Lemma wrc_step ext s s' t p p' w x x' :
  inv ext s -> threads s !! t = Some p -> threads s' = <[t := p']> (threads s) ->
  wrcs s' = <[w := x']> (wrcs s) -> wrcs s !! w = x ->
  (x = None \/ exists y, x = Some y /\ (phase y = Live \/ phase y = Fresh t)) ->
  (forall v, v <> w -> s_wptr v p' = s_wptr v p /\ borrows_weak v p' <= borrows_weak v p /\ makes v p = false /\ deletes v p = false) ->
  object s' = object s -> never s' = never s ->
  wrc_ok s' w x' -> pc_ok ext s' t p' -> sums_ok ext s' -> inv ext s'.
Proof.
  intros Hi Ht Et Ew Hx Hph Hv Ho Hn Hok Hp Hs. split; [done| |].
  - intros v y. rewrite Ew. destruct (decide (v = w)) as [->|Hne]; [rewrite lookup_insert_eq; by intros [= <-]|].
    rewrite lookup_insert_ne by done. intros Hy. destruct (Hv v Hne) as (A & B & C & D).
    apply (wrc_ok_frame s s' t p p' v y Ht Et); [by apply (inv_wrcs ext s Hi)|done|by left|congruence|congruence].
  - apply (pcs_frame ext s s' t p p'); try done; [|congruence|congruence|by right]. intros u q v y Hu _ Hy. rewrite Ew.
    destruct (decide (v = w)) as [->|Hne]; [rewrite lookup_insert_eq|by rewrite lookup_insert_ne by done; rewrite Hy].
    split; [|by eexists]. intros [E|E]; destruct Hph as [->|(y' & -> & [E'|E'])]; congruence.
Qed.

(** ** Nothing that is used has been deleted *)

(** The arithmetic of a state, with what thread [t] holds. *)
Ltac know_sums Hi Ht :=
  let H := fresh "Hsum" in
  pose proof (inv_sums _ _ Hi) as H; destruct H as [? ? ? [? ?] ? ? ? [? ?] ? ? ?];
  match type of Ht with threads ?s !! ?t = Some ?p =>
    pose proof (sums_ordered (threads s)); pose proof (sums_ordered_at (threads s) t p Ht); pose proof (live_nonneg (wrcs s))
  end.
Ltac open_sums := unfold strongs, weaks, transits, shares, raws, lasts, dooms, references in *; change INITIAL_PRIMARY_VALUE with 268435456 in *.

Lemma b2z_true : Z.b2z true = 1. Proof. done. Qed.
Lemma b2z_false : Z.b2z false = 0. Proof. done. Qed.
Ltac bools s := destruct (never s) eqn:?, (released s) eqn:?, (object s) eqn:?; cbn [negb] in *; rewrite ?b2z_true, ?b2z_false in *.

Lemma counter_used ext s t p : inv ext s -> threads s !! t = Some p ->
  0 < s_weak p + s_raw p + s_last p + borrows p \/ 0 < msum (fun _ => 1) (wrcs s) -> exists c, rc s = Some c.
Proof.
  intros Hi Ht Hp. know_sums Hi Ht. destruct (rc s) as [c|]; [by exists c|]. exfalso.
  assert (shares s = 0) by auto. open_sums. bools s; lia.
Qed.

Lemma object_used ext s t p : inv ext s -> threads s !! t = Some p ->
  0 < s_strong p + borrows p + s_raw p + s_doom p \/ (ext = true /\ 0 < s_weak p) -> object s = true.
Proof.
  intros Hi Ht Hp. know_sums Hi Ht. open_sums. destruct ext; bools s; try done; exfalso; lia.
Qed.

Lemma last_sees_object ext s t p : inv ext s -> threads s !! t = Some p -> s_last_early p = 1 -> ext = true \/ never s = true -> object s = true.
Proof.
  intros Hi Ht Hp He. know_sums Hi Ht. open_sums. destruct ext; bools s; try done; exfalso; lia.
Qed.

(** ** The counters do not wrap around *)

Lemma counters_small ext s c : inv ext s -> rc s = Some c ->
  0 <= atomicStrong_ c < 2 ^ 30 /\ 0 <= atomicWeak_ c < 2 ^ 30 /\ 0 <= atomicRefCount_ c < 2 ^ 30.
Proof.
  intros Hi Hc. destruct (ok_counter ext s (inv_sums ext s Hi) c Hc) as (-> & -> & -> & _). destruct (inv_sums ext s Hi) as [_ _ _ _ _ _ ? [? ?] _ _ _].
  pose proof (sums_ordered (threads s)). pose proof (live_nonneg (wrcs s)). open_sums. change (2 ^ 30) with 1073741824.
  destruct (negb (released s)); rewrite ?b2z_true, ?b2z_false; lia.
Qed.

Lemma wrc_small ext s w x : inv ext s -> wrcs s !! w = Some x -> 0 <= wrAtomicWeak_ x < 2 ^ 30.
Proof.
  intros Hi Hx. destruct (inv_wrcs ext s Hi w x Hx) as (-> & ? & _). pose proof (live_at _ w x Hx) as (_ & _ & Hl). unfold s_wptrs in Hl at 1.
  destruct (ok_room ext s (inv_sums ext s Hi)). assert (0 <= msum (s_wptr w) (threads s)) by (apply msum_nonneg; intros []; cbn; repeat case_match; lia).
  assert (msum (s_wptr w) (threads s) <= msum weight (threads s)) by (apply msum_le; intros []; cbn; repeat case_match; lia).
  unfold references in *. change INITIAL_PRIMARY_VALUE with 268435456 in *. change (2 ^ 30) with 1073741824. lia.
Qed.

Lemma i32_near a n : 0 <= a < 2 ^ 30 -> - 2 ^ 30 <= n <= 2 ^ 30 -> i32 (a + n) = a + n.
Proof. intros Ha Hn. apply wrapS_small; lia. Qed.

Lemma i32_pred a : 0 <= a < 2 ^ 30 -> i32 (a - 1) = a - 1.
Proof. intros Ha. apply (i32_near a (-1) Ha). lia. Qed.

(** A new value of a counter in the goal is the exact one. *)
Ltac unwrap :=
  repeat match goal with
  | H : 0 <= ?a < 2 ^ 30 |- context [i32 (?a + ?n)] => rewrite (i32_near a n H) by (by vm_compute)
  | H : 0 <= ?a < 2 ^ 30 |- context [i32 (?a - 1)] => rewrite (i32_pred a H)
  end.
Ltac counters_bounded Hi :=
  repeat match goal with
  | Hc : rc _ = Some ?c |- _ =>
      lazymatch goal with _ : 0 <= atomicStrong_ c < 2 ^ 30 |- _ => fail | _ => destruct (counters_small _ _ _ Hi Hc) as (? & ? & ?) end
  | Hx : wrcs _ !! _ = Some ?x |- _ =>
      lazymatch goal with _ : 0 <= wrAtomicWeak_ x < 2 ^ 30 |- _ => fail | _ => pose proof (wrc_small _ _ _ _ Hi Hx) end
  end.

(** ** Every access keeps the invariant *)

#[global] Arguments msum : simpl never.
#[global] Arguments INITIAL_PRIMARY_VALUE : simpl never.
#[global] Arguments strongs : simpl never.
#[global] Arguments i32 : simpl never.
#[global] Arguments s_wptrs : simpl never.
#[global] Arguments Z.add : simpl never.
#[global] Arguments Z.sub : simpl never.
#[global] Arguments Z.mul : simpl never.

(** The sums after the step of [t]: what is left of the invariant once its
    cases are fixed, then one claim after the other. *)
Ltac tidy := repeat match goal with
  | H : ?x = ?x -> _ |- _ => specialize (H eq_refl)
  | H : ?x = ?x \/ _ -> _ |- _ => specialize (H (or_introl eq_refl))
  | H : _ \/ ?x = ?x -> _ |- _ => specialize (H (or_intror eq_refl))
  | H : true = false -> _ |- _ => clear H
  | H : false = true -> _ |- _ => clear H
  | H : false = true \/ false = true -> _ |- _ => clear H
  end.
Ltac settle :=
  cbn; intros; repeat match goal with
  | H : Some _ = Some _ |- _ => injection H as <-; cbn; unwrap
  | |- _ /\ _ => split
  | |- _ -> _ => intro
  | Hok : forall c, rc _ = Some c -> _, Hc : rc _ = Some ?c |- _ => specialize (Hok c Hc); clear Hc
  end; first [done|lia|tauto|exfalso; lia].
Ltac new_sums Hi Ht :=
  counters_bounded Hi; know_sums Hi Ht;
  match goal with |- sums_ok ?ext ?s' =>
    match type of Ht with threads ?s !! ?t = Some ?p =>
      unfold strongs, weaks, transits, shares, raws, lasts, dooms, references in *; cbn in *;
      change INITIAL_PRIMARY_VALUE with 268435456 in *;
      destruct ext; bools s; tidy; try (exfalso; lia);
      split; cbn; unfold strongs, weaks, transits, shares, raws, lasts, dooms, references; cbn;
      rewrite ?(fun f p' => msum_insert f (threads s) t p p' Ht); cbn; change INITIAL_PRIMARY_VALUE with 268435456;
      repeat match goal with Hb : ?b s = _ |- _ => rewrite ?Hb; clear Hb end; cbn [negb Z.b2z]
    end
  end.

(** The facts about the counter and the object that an access needs. *)
Lemma counter_read ext s t p (f : counter -> option world) s' : inv ext s -> threads s !! t = Some p ->
  0 < s_weak p + s_raw p + s_last p + borrows p \/ 0 < msum (fun _ => 1) (wrcs s) -> on_counter s f = Some s' ->
  exists c, rc s = Some c /\ f c = Some s' /\ atomicStrong_ c = strongs s + INITIAL_PRIMARY_VALUE * transits s /\
    atomicWeak_ c = weaks s /\ atomicRefCount_ c = shares s /\ (object s = true -> callback_ c = true) /\ 0 < shares s.
Proof.
  intros Hi Ht Hp. destruct (counter_used ext s t p Hi Ht Hp) as [c Hc]. unfold on_counter. rewrite Hc. intros E.
  exists c. split; [done|]. split; [done|]. exact (ok_counter ext s (inv_sums ext s Hi) c Hc).
Qed.

Lemma last_zero ext s t p : inv ext s -> threads s !! t = Some p -> 0 < s_weak p + s_raw p + borrows p -> lasts s = 0.
Proof. intros Hi Ht Hp. know_sums Hi Ht. open_sums. lia. Qed.

Ltac quiet Hi Ht :=
  eapply (quiet_access _ _ _ _ _ _ Hi Ht);
    [reflexivity|reflexivity
    |let v := fresh "v" in intros v; cbn; split_and!; first [done|left; lia|idtac]
    |first [done|by cbn; intros ->|idtac]|first [done|by cbn; intros ->|idtac]
    |first [by right|left; apply (last_zero _ _ _ _ Hi Ht); cbn; lia|idtac]
    |split_and!; cbn; first [done|lia|idtac]
    |try (new_sums Hi Ht; settle)].

Lemma IncStrongRef_inv ext s t p s' : inv ext s -> threads s !! t = Some p -> IncStrongRef t p s = Some s' -> inv ext s'.
Proof.
  intros Hi Ht E. destruct p as [| |raw|raw|raw| | | | | | | | | | | | | | | | | | | | | | | | | | |]; try done; cbn in E; unfold on_object in E;
    try destruct raw; rewrite ?(object_used ext s t _ Hi Ht) in E by (cbn; lia);
    apply (counter_read ext s t _ _ _ Hi Ht) in E as (c & Hc & E & Hck); try (cbn; lia);
    rewrite ?(object_used ext s t _ Hi Ht) in E by (cbn; lia); repeat case_match; injection E as <-; quiet Hi Ht.
Qed.

Lemma doom_mortal ext s t p : inv ext s -> threads s !! t = Some p -> s_doom p = 1 -> never s = false.
Proof. intros Hi Ht Hp. know_sums Hi Ht. open_sums. bools s; try done; tidy; lia. Qed.

Lemma DecStrongRef_inv ext s t p s' : inv ext s -> threads s !! t = Some p -> DecStrongRef ext t p s = Some s' -> inv ext s'.
Proof.
  intros Hi Ht E. destruct p as [| |raw|raw|raw| | | | | | | | | | | | | | | | | | | | | | | | | | |]; try done; cbn in E; unfold on_object in E;
    rewrite ?(object_used ext s t _ Hi Ht) in E by (cbn; lia);
    apply (counter_read ext s t _ _ _ Hi Ht) in E as (c & Hc & E & Hck); try (cbn; lia).
  - repeat case_match; injection E as <-; quiet Hi Ht.
  - repeat case_match; injection E as <-; quiet Hi Ht.
  - pose proof (doom_mortal ext s t Dec3 Hi Ht eq_refl) as Hnv. pose proof (object_used ext s t Dec3 Hi Ht ltac:(cbn; lia)) as Hob.
    rewrite (proj1 (proj2 (proj2 (proj2 Hck))) Hob) in E. destruct ext; cbn in E; injection E as <-; quiet Hi Ht.
Qed.

(** After the deletion of the object, [DecWeakRefCount], [delete this]. *)
Lemma deletes_own ext s t p w : inv ext s -> threads s !! t = Some p -> deletes w p = true ->
  exists x, wrcs s !! w = Some x /\ phase x = Dying t /\ 0 < msum (fun _ => 1) (wrcs s).
Proof.
  intros Hi Ht Hd. destruct (inv_pcs ext s Hi t p Ht) as (_ & B & _). destruct (B w Hd) as (x & Hx & Hp).
  exists x. split; [done|]. split; [done|]. pose proof (live_at _ w x Hx). lia.
Qed.

(** The test of [atomicStrong_] by the thread that took the last weak share. *)
Lemma last_knows ext s t p c : inv ext s -> threads s !! t = Some p -> s_last p = 1 -> rc s = Some c ->
  (atomicStrong_ c =? INITIAL_PRIMARY_VALUE) = never s.
Proof.
  intros Hi Ht Hp Hc. destruct (ok_counter ext s (inv_sums ext s Hi) c Hc) as [-> _]. know_sums Hi Ht.
  open_sums. destruct (never s) eqn:?; cbn [Z.b2z] in *; lia.
Qed.

Lemma DecWeakRefCount_inv ext s t p s' : inv ext s -> threads s !! t = Some p -> DecWeakRefCount ext t p s = Some s' -> inv ext s'.
Proof.
  intros Hi Ht E. pose proof (inv_pcs ext s Hi t p Ht) as Hpc.
  destruct p as [| |?|?|?| | | | |k|k|k| | | | | | | | | | | | | | | | | | | |]; try done; cbn in E;
    destruct Hpc as (_ & Hd & _ & Hk); destruct k as [|w|w|]; try done; cbn in E;
    apply (counter_read ext s t _ _ _ Hi Ht) in E as (c & Hc & E & Hck); try (cbn; lia); cbn in E;
    try (destruct (deletes_own ext s t _ w Hi Ht) as (x & Hx & Hph & Hn); [cbn; apply Z.eqb_refl|]; unfold on_wrc in E; cbn in E; rewrite ?Hx in E).
  - repeat case_match; injection E as <-; quiet Hi Ht.
  - repeat case_match; injection E as <-; quiet Hi Ht.
  - repeat case_match; injection E as <-; quiet Hi Ht.
  - repeat case_match; injection E as <-; quiet Hi Ht.
  - rewrite (last_knows ext s t _ c Hi Ht eq_refl Hc) in E.
    destruct (ext || never s) eqn:Hen; [|injection E as <-; quiet Hi Ht].
    assert (ext = true \/ never s = true) as He by (destruct ext; auto).
    pose proof (last_sees_object ext s t _ Hi Ht eq_refl He) as Hob.
    rewrite (proj1 (proj2 (proj2 (proj2 Hck))) Hob) in E. unfold on_object in E. rewrite Hob in E. injection E as <-. quiet Hi Ht.
  - rewrite (last_knows ext s t _ c Hi Ht eq_refl Hc) in E.
    destruct (ext || never s) eqn:Hen; [|injection E as <-; quiet Hi Ht].
    assert (ext = true \/ never s = true) as He by (destruct ext; auto).
    pose proof (last_sees_object ext s t _ Hi Ht eq_refl He) as Hob.
    rewrite (proj1 (proj2 (proj2 (proj2 Hck))) Hob) in E. unfold on_object in E. rewrite Hob in E. injection E as <-. quiet Hi Ht.
Qed.
