(* ===== verification/RefRaceSteps.v ===== *)
(** * Concurrent deletion keeps the invariant

    The steps of [~RefBase], of [DecRefCount], and of the constructors and the
    destructor of a [wptr] with the weak counter of its own. *)

From S2P Require Import Prelude RefRace RefRaceInv.

(** ** [~RefBase] *)

Lemma last_alone ext s t p : inv ext s -> threads s !! t = Some p -> s_last p = 1 -> weaks s = 0.
Proof. intros Hi Ht Hp. know_sums Hi Ht. open_sums. lia. Qed.

Lemma mortal_gone ext s : inv ext s -> ext = false -> never s = false -> object s = false ->
  strongs s + INITIAL_PRIMARY_VALUE * transits s = 0.
Proof.
  intros Hi He Hnv Hob. destruct (inv_sums ext s Hi) as [_ _ _ _ _ _ _ [Hr _] Hm _ _].
  destruct (Hm He Hnv) as [Hm1 _]. pose proof (sums_ordered (threads s)). open_sums. rewrite Hnv, ?b2z_false in *.
  destruct (decide (0 < strong_refs s + msum s_strong (threads s))) as [Hp|]; [destruct (Hm1 Hp); congruence|lia].
Qed.

Lemma RefBase_dtor_inv ext s t p s' : inv ext s -> threads s !! t = Some p -> RefBase_dtor ext t p s = Some s' -> inv ext s'.
Proof.
  intros Hi Ht E. pose proof (inv_pcs ext s Hi t p Ht) as Hpc.
  destruct p as [| |?|?|?| | | | | | | |k|k|k| | | | | | | | | | | | | | | | |]; try done; cbn in E;
    destruct Hpc as (_ & Hd & _ & Hob & Hk & He); destruct k as [|w|w|]; try done;
    apply (counter_read ext s t _ _ _ Hi Ht) in E as (c & Hc & E & Hck); try (cbn; lia); cbn in E.
  - destruct ext; injection E as <-; quiet Hi Ht.
  - destruct ext; injection E as <-; quiet Hi Ht.
  - destruct ext; [by destruct Hk|]. injection E as <-; quiet Hi Ht. by destruct Hk.
  - rewrite (proj1 (proj2 Hck)) in E. rewrite (last_alone ext s t _ Hi Ht eq_refl) in E. injection E as <-; quiet Hi Ht.
  - rewrite (proj1 (proj2 Hck)) in E. rewrite (last_alone ext s t _ Hi Ht eq_refl) in E. injection E as <-; quiet Hi Ht.
  - destruct Hk; congruence.
  - rewrite (last_knows ext s t _ c Hi Ht eq_refl Hc) in E. destruct Hk as [|Hk]; [congruence|]. rewrite Hk in E. injection E as <-; quiet Hi Ht.
  - rewrite (last_knows ext s t _ c Hi Ht eq_refl Hc) in E. destruct Hk as [|Hk]; [congruence|]. rewrite Hk in E. injection E as <-; quiet Hi Ht.
  - rewrite (proj1 Hck), (mortal_gone ext s Hi) in E by tauto. injection E as <-; quiet Hi Ht.
Qed.

(** ** [DecRefCount] *)

(** Nobody else uses a weak counter that is being deleted. *)
Lemma dying_unused ext s w x t u q : inv ext s -> wrcs s !! w = Some x -> phase x = Dying t -> threads s !! u = Some q ->
  borrows_weak w q + s_wptr w q <= 0.
Proof.
  intros Hi Hx Hp Hq. destruct (inv_wrcs ext s Hi w x Hx) as (A & B & C & D). rewrite Hp in D.
  assert (forall p, 0 <= borrows_weak w p) as Hb by (intros []; cbn; repeat case_match; lia).
  assert (forall p, 0 <= s_wptr w p) as Hs by (intros []; cbn; repeat case_match; lia).
  pose proof (msum_ge (borrows_weak w) _ u q Hb Hq). pose proof (msum_ge (s_wptr w) _ u q Hs Hq).
  pose proof (msum_nonneg (s_wptr w) (threads s) Hs). lia.
Qed.

Lemma wrc_delete ext s s' t p p' w x :
  inv ext s -> threads s !! t = Some p -> threads s' = <[t := p']> (threads s) -> wrcs s' = delete w (wrcs s) ->
  wrcs s !! w = Some x -> phase x = Dying t ->
  (forall v, v <> w -> s_wptr v p' = s_wptr v p /\ borrows_weak v p' <= borrows_weak v p /\ makes v p = false /\ deletes v p = false) ->
  object s' = object s -> never s' = never s -> pc_ok ext s' t p' -> sums_ok ext s' -> inv ext s'.
Proof.
  intros Hi Ht Et Ew Hx Hph Hv Ho Hn Hp Hs. split; [done| |].
  - intros v y. rewrite Ew. intros [Hne Hy]%lookup_delete_Some. destruct (Hv v (not_eq_sym Hne)) as (A & B & C & D).
    apply (wrc_ok_frame s s' t p p' v y Ht Et); [by apply (inv_wrcs ext s Hi)|done|by left|congruence|congruence].
  - apply (pcs_frame ext s s' t p p'); try done; [|congruence|congruence|by right]. intros u q v y Hu Hq Hy. rewrite Ew.
    destruct (decide (v = w)) as [->|Hne]; [|rewrite lookup_delete_ne by done; rewrite Hy; split; [done|by eexists]].
    assert (y = x) as -> by congruence. pose proof (dying_unused ext s w x t u q Hi Hx Hph Hq).
    split; [intros [E|E]; congruence|lia].
Qed.

Lemma DecRefCount_inv ext s t p s' : inv ext s -> threads s !! t = Some p -> DecRefCount t p s = Some s' -> inv ext s'.
Proof.
  intros Hi Ht E. pose proof (inv_pcs ext s Hi t p Ht) as Hpc.
  destruct p as [| |?|?|?| | | | | | | | | | |k|k| | | | | | | | | | | | | | |]; try done; cbn in E;
    destruct Hpc as (_ & Hd & _ & Hk); destruct k as [|w|w|]; try done;
    try (destruct (deletes_own ext s t _ w Hi Ht) as (x & Hx & Hph & Hn); [cbn; apply Z.eqb_refl|]);
    apply (counter_read ext s t _ _ _ Hi Ht) in E as (c & Hc & E & Hck); try (cbn; lia); cbn in E;
    unfold on_wrc in E; cbn in E; rewrite ?Hx in E.
  - repeat case_match; [|lia]. injection E as <-; quiet Hi Ht.
  - repeat case_match; [|lia]. injection E as <-; quiet Hi Ht.
  - repeat case_match; [|lia]. injection E as <-; quiet Hi Ht.
  - repeat case_match; injection E as <-; quiet Hi Ht.
  - repeat case_match; injection E as <-; quiet Hi Ht.
  - pose proof (msum_delete s_live _ w x Hx) as Hl. pose proof (msum_delete (fun _ => 1) _ w x Hx) as Ho.
    pose proof (msum_delete s_wptrs _ w x Hx) as Hwp. unfold s_live in Hl at 2. unfold s_wptrs in Hwp at 2. rewrite Hph in Hl.
    repeat case_match; injection E as <-;
      (eapply (wrc_delete ext s _ t _ _ w x Hi Ht); [reflexivity|reflexivity|done|done| |done|done| |]);
      [|by split_and!|new_sums Hi Ht; settle| |by split_and!|new_sums Hi Ht; settle].
    all: intros v Hv; cbn; repeat split; lia.
Qed.

(** ** Who uses a weak counter *)

Lemma borrows_weak_nonneg w p : 0 <= borrows_weak w p.
Proof. destruct p; cbn; repeat case_match; lia. Qed.
Lemma s_wptr_nonneg w p : 0 <= s_wptr w p.
Proof. destruct p; cbn; repeat case_match; lia. Qed.

Lemma absent_unused ext s w : inv ext s -> wrcs s !! w = None -> msum (s_wptr w) (threads s) = 0 /\ msum (borrows_weak w) (threads s) = 0.
Proof.
  intros Hi Hw. split; apply msum_zero; intros t p Ht; destruct (inv_pcs ext s Hi t p Ht) as (_ & _ & C & _); specialize (C w); rewrite Hw in C;
    pose proof (borrows_weak_nonneg w p); pose proof (s_wptr_nonneg w p);
    destruct (decide (0 < borrows_weak w p + s_wptr w p)) as [Hp|]; [by destruct (C Hp)|lia|by destruct (C Hp)|lia].
Qed.

(** A thread that reads a [wptr] of [w], or has one to let go of. *)
Lemma wrc_used ext s t p w : inv ext s -> threads s !! t = Some p -> 0 < borrows_weak w p + s_wptr w p -> makes w p = false ->
  exists x, wrcs s !! w = Some x /\ phase x = Live /\ wrc_ok s w x /\ (0 < borrows_weak w p -> 1 <= wptrs x) /\
    0 < wrAtomicWeak_ x /\ 0 < msum (fun _ => 1) (wrcs s) /\ 1 <= msum s_live (wrcs s).
Proof.
  intros Hi Ht Hp Hm. destruct (inv_pcs ext s Hi t p Ht) as (_ & _ & C & _). destruct (C w Hp) as [x Hx]. exists x.
  pose proof (inv_wrcs ext s Hi w x Hx) as Hok. pose proof Hok as (A & B & Hb & D). pose proof (live_at _ w x Hx) as [Hl Ho].
  pose proof (msum_ge (borrows_weak w) _ t p (borrows_weak_nonneg w) Ht). pose proof (msum_ge (s_wptr w) _ t p (s_wptr_nonneg w) Ht).
  pose proof (msum_nonneg (s_wptr w) (threads s) (s_wptr_nonneg w)).
  pose proof (borrows_weak_nonneg w p). pose proof (s_wptr_nonneg w p).
  assert (0 < wrAtomicWeak_ x) as Hpos by (destruct (decide (0 < borrows_weak w p)); lia).
  assert (phase x = Live) as Hph.
  { destruct (phase x) as [u| |u]; [|done|lia]. exfalso. destruct D as (D & q & Hq & Hmq).
    destruct (decide (0 < borrows_weak w p)) as [?|Hnb]; [lia|].
    destruct (inv_pcs ext s Hi u q Hq) as (A' & _). destruct (A' w Hmq) as (y & Hy & _ & Ey). assert (y = x) as -> by congruence.
    assert (u <> t) as Hne by congruence. rewrite (msum_delete _ _ u q Hq) in A.
    pose proof (msum_ge (s_wptr w) (delete u (threads s)) t p (s_wptr_nonneg w)) as Hge. rewrite lookup_delete_ne in Hge by done. specialize (Hge Ht). lia. }
  unfold s_live in Hl at 1. rewrite Hph in Hl. split_and!; try done; lia.
Qed.

Lemma wrc_sums (m : gmap Z weak_counter) w x : m !! w = Some x -> forall x',
  msum s_live (<[w := x']> m) = msum s_live m - (if phase x is Live then 1 else 0) + (if phase x' is Live then 1 else 0) /\
  msum (fun _ => 1) (<[w := x']> m) = msum (fun _ => 1) m /\
  msum s_wptrs (<[w := x']> m) = msum s_wptrs m - Z.max 0 (wptrs x) + Z.max 0 (wptrs x').
Proof. intros Hx x'. rewrite !(msum_insert _ m w x x' Hx). unfold s_live, s_wptrs. split_and!; lia. Qed.

(** The conditions on the new value of a weak counter, and on the others. *)
Ltac others := let v := fresh "v" in let Hv := fresh "Hv" in
  intros v Hv; cbn; rewrite ?(proj2 (Z.eqb_neq _ _) (not_eq_sym Hv)); repeat split; lia.
Ltac new_wrc Hi Ht := counters_bounded Hi; unfold wrc_ok; cbn; unwrap; rewrite ?(fun f p' => msum_insert f _ _ _ p' Ht); cbn; rewrite ?Z.eqb_refl; cbn in *; rewrite ?Z.eqb_refl in *.

Ltac wrc_sums_ok Hi Ht Hl := new_sums Hi Ht; rewrite ?(fun x' => proj1 (Hl x')), ?(fun x' => proj1 (proj2 (Hl x'))), ?(fun x' => proj2 (proj2 (Hl x'))); cbn [phase wptrs]; settle.

(** [CreateWeakRef]. *)
Lemma CreateWeakRef_inv ext s t raw fresh s' : inv ext s -> threads s !! t = Some (NW1 raw) ->
  wptr_ctor t (NW1 raw) fresh s = Some s' -> inv ext s'.
Proof.
  intros Hi Ht E. cbn in E; unfold on_object in E. rewrite (object_used ext s t _ Hi Ht) in E by (destruct raw; cbn; lia).
  apply (counter_read ext s t _ _ _ Hi Ht) in E as (c & Hc & E & Hck); [|destruct raw; cbn; lia].
  destruct (wrcs s !! fresh) eqn:Hf; [done|]. injection E as <-. destruct (absent_unused ext s fresh Hi Hf) as [Hs0 Hb0].
  pose proof (msum_insert_new s_live (wrcs s) fresh {| wrAtomicWeak_ := 0; wptrs := 0; phase := Fresh t |} Hf) as Hl.
  pose proof (msum_insert_new (fun _ => 1) (wrcs s) fresh {| wrAtomicWeak_ := 0; wptrs := 0; phase := Fresh t |} Hf) as Ho.
  pose proof (msum_insert_new s_wptrs (wrcs s) fresh {| wrAtomicWeak_ := 0; wptrs := 0; phase := Fresh t |} Hf) as Hw. unfold s_wptrs in Hw at 2. cbn [wptrs] in Hw.
  unfold s_live in Hl at 2. cbn [phase] in Hl.
  eapply (wrc_step ext s _ t _ _ fresh _ _ Hi Ht); [reflexivity|reflexivity|done|by left|others|done|done| | |].
  - new_wrc Hi Ht. split_and!; try lia. exists (NW2 fresh raw). rewrite lookup_insert_eq. cbn. by rewrite Z.eqb_refl.
  - split_and!; cbn; try done. intros w <-%Z.eqb_eq. rewrite lookup_insert_eq. by eexists.
  - destruct raw; new_sums Hi Ht; settle.
Qed.

Lemma IncWeakRefCount_new_inv ext s t w raw fresh s' : inv ext s -> threads s !! t = Some (NW2 w raw) ->
  wptr_ctor t (NW2 w raw) fresh s = Some s' -> inv ext s'.
Proof.
  intros Hi Ht E. destruct (inv_pcs ext s Hi t _ Ht) as (A & _). destruct (A w (Z.eqb_refl w)) as (x & Hx & Hph & Hw). cbn in Hw, E.
  unfold on_wrc in E. rewrite Hx, Hw in E. change (i32 (0 + 1)) with 1 in E. cbn in E. injection E as <-. destruct (inv_wrcs ext s Hi w x Hx) as (Ha & Hb & Hc & Hd).
  rewrite Hph in Hd. pose proof (wrc_sums _ w x Hx) as Hl. rewrite Hph in *.
  eapply (wrc_step ext s _ t _ _ w _ _ Hi Ht); [reflexivity|reflexivity|done|right; exists x; by auto|others|done|done| | |].
  - new_wrc Hi Ht. split_and!; try lia. exists (NW3 w raw). rewrite lookup_insert_eq. cbn. by rewrite Z.eqb_refl.
  - split_and!; cbn; try done.
    + intros v <-%Z.eqb_eq. rewrite lookup_insert_eq, Z.eqb_refl. by eexists.
    + intros v. destruct (Z.eqb_spec w v) as [<-|]; [|done]. rewrite lookup_insert_eq. by eexists.
  - destruct raw; wrc_sums_ok Hi Ht Hl.
Qed.

Lemma counted_new_inv ext s t w raw fresh s' : inv ext s -> threads s !! t = Some (NW3 w raw) ->
  wptr_ctor t (NW3 w raw) fresh s = Some s' -> inv ext s'.
Proof.
  intros Hi Ht E. destruct (inv_pcs ext s Hi t _ Ht) as (A & _). destruct (A w (Z.eqb_refl w)) as (x & Hx & Hph & Hw). cbn in Hw, E.
  rewrite Z.eqb_refl in Hw. unfold on_wrc in E. rewrite Hx in E.
  apply (counter_read ext s t _ _ _ Hi Ht) in E as (c & Hc & E & Hck); [|right; pose proof (live_at _ w x Hx); lia].
  injection E as <-. destruct (inv_wrcs ext s Hi w x Hx) as (Ha & Hb & Hc' & Hd).
  rewrite Hph in Hd. pose proof (wrc_sums _ w x Hx) as Hl. rewrite Hph in *.
  eapply (wrc_step ext s _ t _ _ w _ _ Hi Ht); [reflexivity|reflexivity|done|right; exists x; by auto|others|done|done| | |].
  - new_wrc Hi Ht. split_and!; try lia.
  - split_and!; cbn; try done.
  - destruct raw; wrc_sums_ok Hi Ht Hl.
Qed.

Lemma IncWeakRefCount_copy_inv ext s t w fresh s' : inv ext s -> threads s !! t = Some (CW w) ->
  wptr_ctor t (CW w) fresh s = Some s' -> inv ext s'.
Proof.
  intros Hi Ht E. destruct (wrc_used ext s t _ w Hi Ht ltac:(cbn; rewrite Z.eqb_refl; lia) eq_refl) as (x & Hx & Hph & (Ha & Hb & Hc & Hd) & Hu & Hpos & _).
  cbn in E, Hu. rewrite Z.eqb_refl in Hu. unfold on_wrc in E. rewrite Hx, (proj2 (Z.eqb_neq _ 0)) in E by lia. injection E as <-.
  pose proof (wrc_sums _ w x Hx) as Hl. rewrite Hph in *.
  eapply (wrc_step ext s _ t _ _ w _ _ Hi Ht); [reflexivity|reflexivity|done|right; exists x; by auto|others|done|done| | |].
  - new_wrc Hi Ht. split_and!; lia.
  - split_and!; cbn; try done.
  - wrc_sums_ok Hi Ht Hl.
Qed.

Lemma wptr_ctor_inv ext s t p fresh s' : inv ext s -> threads s !! t = Some p -> wptr_ctor t p fresh s = Some s' -> inv ext s'.
Proof.
  intros Hi Ht E. destruct p; try done; eauto using CreateWeakRef_inv, IncWeakRefCount_new_inv, counted_new_inv, IncWeakRefCount_copy_inv.
Qed.

Lemma wptr_dtor_inv ext s t p s' : inv ext s -> threads s !! t = Some p -> wptr_dtor t p s = Some s' -> inv ext s'.
Proof.
  intros Hi Ht E. destruct p as [| |?|?|?| | | | | | | | | | | | | | | | |w| | | | | | | | | | ]; try done.
  destruct (wrc_used ext s t _ w Hi Ht ltac:(cbn; rewrite Z.eqb_refl; lia) eq_refl) as (x & Hx & Hph & (Ha & Hb & Hc & Hd) & _ & Hpos & Ho & Hl1).
  cbn in E. unfold on_wrc in E. rewrite Hx in E. pose proof (wrc_sums _ w x Hx) as Hl. rewrite Hph in *.
  pose proof (msum_nonneg (s_wptr w) (delete t (threads s)) (s_wptr_nonneg w)). rewrite (msum_delete _ _ t _ Ht) in Ha. cbn in Ha. rewrite Z.eqb_refl in Ha.
  destruct (Z.eqb_spec (wrAtomicWeak_ x) 1); injection E as <-; (eapply (wrc_step ext s _ t _ _ w _ _ Hi Ht);
    [reflexivity|reflexivity|done|right; exists x; by auto|others|done|done| | |]).
  - new_wrc Hi Ht. rewrite (msum_delete (s_wptr w) _ t _ Ht). cbn. rewrite Z.eqb_refl. split_and!; try lia.
    exists (DW1 (KDelete w)). rewrite lookup_insert_eq. cbn. by rewrite Z.eqb_refl.
  - split_and!; cbn; try done. intros v <-%Z.eqb_eq. rewrite lookup_insert_eq. by eexists.
  - wrc_sums_ok Hi Ht Hl.
  - new_wrc Hi Ht. rewrite (msum_delete (s_wptr w) _ t _ Ht). cbn. rewrite Z.eqb_refl. split_and!; lia.
  - split_and!; cbn; try done.
  - wrc_sums_ok Hi Ht Hl.
Qed.
