(* ===== verification/RefRacePromote.v ===== *)
(** * Concurrent promotion keeps the invariant

    The steps of [AttemptIncStrongRef], of [wptr::promote] after it and of
    [wptr::GetRefPtr]. *)

From S2P Require Import Prelude RefRace RefRaceInv RefRaceSteps.

(** Whoever holds a [wptr] of the object is not its creator any more. *)
Lemma wptr_not_raw ext s t p : inv ext s -> threads s !! t = Some p -> 1 <= msum s_live (wrcs s) ->
  raws s = 0 /\ lasts s = 0 /\ released s = false.
Proof. intros Hi Ht Hl. know_sums Hi Ht. open_sums. bools s; tidy; try lia; split_and!; lia. Qed.

(** What the value of [atomicStrong_] says. *)
Lemma strong_initial ext s t p c : inv ext s -> threads s !! t = Some p -> rc s = Some c ->
  (atomicStrong_ c =? INITIAL_PRIMARY_VALUE) = never s /\ 0 <= atomicStrong_ c /\
  (never s = false -> 0 < atomicStrong_ c -> 0 < strongs s).
Proof.
  intros Hi Ht Hc. destruct (ok_counter ext s (inv_sums ext s Hi) c Hc) as [-> _]. know_sums Hi Ht.
  open_sums. destruct (never s) eqn:?; cbn [Z.b2z] in *; tidy; lia.
Qed.

(** A step that leaves the weak counters alone, by a thread that reads a [wptr]
    of [w]. *)
Ltac promote_quiet Hi Ht Hx Hpc :=
  quiet Hi Ht; first [apply Hpc|done|let v := fresh "v" in intros v; match goal with |- context[?w =? _] => destruct (Z.eqb_spec w v) as [<-|]; [rewrite Hx; by eexists|done] end|left; case_match; lia|idtac].

Lemma exchange_inv ext s t p w cur retry sp s' : inv ext s -> threads s !! t = Some p ->
  (p = P3 w cur /\ retry = P4 w \/ p = P5 w cur /\ retry = P6 w) ->
  exchange ext t w cur retry sp s = Some s' -> inv ext s'.
Proof.
  intros Hi Ht Hp E. destruct (inv_pcs ext s Hi t p Ht) as (_ & _ & _ & Hpc).
  assert (0 < borrows_weak w p + s_wptr w p) as Hu by (destruct Hp as [[-> _]|[-> _]]; cbn; rewrite Z.eqb_refl; lia).
  assert (makes w p = false) as Hm by (destruct Hp as [[-> _]|[-> _]]; done).
  destruct (wrc_used ext s t _ w Hi Ht Hu Hm) as (x & Hx & Hph & _ & _ & _ & Ho & Hl1).
  destruct (wptr_not_raw ext s t p Hi Ht Hl1) as (Hr & Hl & Hrel).
  apply (counter_read ext s t _ _ _ Hi Ht) in E as (c & Hc & E & Hck); [|by right].
  destruct (strong_initial ext s t p c Hi Ht Hc) as (Hin & Hpos & Hst).
  destruct (Z.eqb_spec (atomicStrong_ c) cur) as [Hcur|]; cbn [andb] in E.
  - destruct sp; cbn [negb] in E.
    + injection E as <-. destruct Hp as [[-> ->]|[-> ->]]; promote_quiet Hi Ht Hx Hpc.
    + injection E as <-. subst cur. unfold attempt_success. rewrite Hin.
      destruct Hp as [[-> ->]|[-> ->]]; destruct (never s) eqn:Hnv.
      * destruct Hpc as [_ Hpc]. by apply Z.eqb_eq in Hin.
      * rewrite (proj2 (Z.ltb_ge _ 0)), (proj2 (Z.eqb_neq _ 0)), andb_false_r by lia. cbn [orb]. specialize (Hst eq_refl (proj1 Hpc)). promote_quiet Hi Ht Hx Hpc.
      * destruct Hpc as [Hext Hcpos]. promote_quiet Hi Ht Hx Hpc.
      * destruct Hpc as [Hext Hpc]. rewrite (proj2 (Z.ltb_ge _ 0)), (proj2 (Z.eqb_neq _ 0)), andb_false_r by lia. cbn [orb]. specialize (Hst eq_refl Hpc). promote_quiet Hi Ht Hx Hpc.
  - injection E as <-. destruct Hp as [[-> ->]|[-> ->]]; promote_quiet Hi Ht Hx Hpc.
Qed.

(** Where [curCount] sends the thread. *)
Variant attempts (ext : bool) (w cur : Z) : pc -> Prop :=
  | attempts_first : 0 < cur /\ cur <> INITIAL_PRIMARY_VALUE -> attempts ext w cur (P3 w cur)
  | attempts_second : ext = false /\ 0 < cur -> attempts ext w cur (P5 w cur)
  | attempts_extended : ext = true -> attempts ext w cur (P7 w)
  | attempts_fail : attempts ext w cur (DW1 KEnd).

Lemma attempt_first_spec ext w cur : attempts ext w cur (attempt_first ext w cur).
Proof.
  unfold attempt_first, attempt_second.
  destruct (Z.ltb_spec 0 cur) as [Hcp|Hcp], (Z.eqb_spec cur INITIAL_PRIMARY_VALUE) as [Hci|Hci], ext; cbn [andb negb];
    first [by constructor|by subst cur].
Qed.

Lemma promote_inv ext s t p sp s' : inv ext s -> threads s !! t = Some p -> promote ext t p sp s = Some s' -> inv ext s'.
Proof.
  intros Hi Ht E. destruct (inv_pcs ext s Hi t p Ht) as (_ & _ & _ & Hpc).
  assert (forall w, 0 < borrows_weak w p + s_wptr w p -> makes w p = false ->
    exists x, wrcs s !! w = Some x /\ 0 < msum (fun _ => 1) (wrcs s) /\ 1 <= msum s_live (wrcs s)) as Hu.
  { intros w Hb Hm. destruct (wrc_used ext s t p w Hi Ht Hb Hm) as (x & Hx & _ & _ & _ & _ & Ho & Hl). by exists x. }
  destruct p as [| |?|?|?| | | | | | | | | | | | | | | | | |w|w cur|w cur|w|w cur|w|w|w|w|w]; try done; cbn in E;
    destruct (Hu w) as (x & Hx & Ho & Hl1); try (cbn; rewrite ?Z.eqb_refl; first [done|lia]); clear Hu;
    destruct (wptr_not_raw ext s t _ Hi Ht Hl1) as (Hr & Hl & Hrel); unfold on_wrc in E; rewrite ?Hx in E.
  - apply (counter_read ext s t _ _ _ Hi Ht) in E as (c & Hc & E & Hck); [|by right]. injection E as <-. promote_quiet Hi Ht Hx Hpc.
  - apply (counter_read ext s t _ _ _ Hi Ht) in E as (c & Hc & E & Hck); [|by right]. injection E as <-.
    destruct (attempt_first_spec ext w cur) as [Ha|Ha|Ha|]; promote_quiet Hi Ht Hx Ha.
  - by apply (exchange_inv ext s t (P3 w cur) w cur (P4 w) sp s' Hi Ht); [left|].
  - apply (counter_read ext s t _ _ _ Hi Ht) in E as (c & Hc & E & Hck); [|by right]. injection E as <-.
    destruct (attempt_first_spec ext w (atomicStrong_ c)) as [Ha|Ha|Ha|]; promote_quiet Hi Ht Hx Ha.
  - by apply (exchange_inv ext s t (P5 w cur) w cur (P6 w) sp s' Hi Ht); [right|].
  - apply (counter_read ext s t _ _ _ Hi Ht) in E as (c & Hc & E & Hck); [|by right]. injection E as <-.
    unfold attempt_second. destruct (Z.ltb_spec 0 (atomicStrong_ c)) as [Hcp|Hcp]; promote_quiet Hi Ht Hx (conj Hpc Hcp).
  - unfold on_object in E. rewrite (object_used ext s t _ Hi Ht) in E by (right; split; [done|cbn; lia]).
    apply (counter_read ext s t _ _ _ Hi Ht) in E as (c & Hc & E & Hck); [|by right].
    destruct (strong_initial ext s t _ c Hi Ht Hc) as (Hin & Hpos & Hst). cbn in Hpc.
    unfold attempt_success in E. rewrite Hpc, Hin, (proj2 (Z.ltb_ge _ 0)) in E by lia. cbn [orb andb negb] in E.
    destruct (never s) eqn:Hnv; injection E as <-; promote_quiet Hi Ht Hx Hl.
  - apply (counter_read ext s t _ _ _ Hi Ht) in E as (c & Hc & E & Hck); [|by right]. injection E as <-. promote_quiet Hi Ht Hx Hpc.
  - apply (counter_read ext s t _ _ _ Hi Ht) in E as (c & Hc & E & Hck); [|by right].
    rewrite (proj1 (proj2 (proj2 (proj2 Hck)))) in E by (apply (object_used ext s t _ Hi Ht); cbn; lia). injection E as <-. promote_quiet Hi Ht Hx Hpc.
  - apply (counter_read ext s t _ _ _ Hi Ht) in E as (c & Hc & E & Hck); [|by right]. injection E as <-. promote_quiet Hi Ht Hx Hpc.
Qed.
