(* ===== verification/RefRaceProps.v ===== *)
(** * Concurrent references are safe

    The operations of clients keep the invariant too; the theorems about every
    schedule; and two schedules that are run. *)

From S2P Require Import Prelude RefRace RefRaceInv RefRaceSteps RefRacePromote.

(** ** Clients *)

Lemma held_live ext s w x : inv ext s -> wrcs s !! w = Some x -> 0 < wptrs x -> phase x = Live /\ 1 <= msum s_live (wrcs s).
Proof.
  intros Hi Hx Hp. destruct (inv_wrcs ext s Hi w x Hx) as (A & _ & _ & D). pose proof (live_at _ w x Hx) as [Hl _].
  pose proof (msum_nonneg (s_wptr w) (threads s) (s_wptr_nonneg w)). unfold s_live in Hl at 1. destruct (phase x); [lia|done|lia].
Qed.

(** A thread that starts to read a [wptr] of [w]. *)
Lemma read_wptr_inv ext s t p w x : inv ext s -> threads s !! t = Some Idle -> wrcs s !! w = Some x -> 0 < wptrs x ->
  (p = CW w \/ p = P1 w) /\ has_room s = true \/ p = Get w -> inv ext (goto t p s).
Proof.
  intros Hi Ht Hx Hw Hp. assert (forall v, 0 <= (if w =? v then 1 else 0) \/ True) as _ by auto.
  assert (forall v, (if w =? v then 1 else 0) <= 0 \/ forall y, wrcs s !! v = Some y -> 1 <= wptrs y) as Hb.
  { intros v. destruct (Z.eqb_spec w v) as [<-|]; [right; intros y Hy; assert (y = x) as -> by congruence; lia|by left]. }
  destruct Hp as [[[-> | ->] Hr]| ->]; try (unfold has_room, references in Hr; apply Z.ltb_lt in Hr); promote_quiet Hi Ht Hx Hb.
Qed.

Lemma start_op_inv ext s t p op s' : inv ext s -> threads s !! t = Some p -> start_op t p op s = Some s' -> inv ext s'.
Proof.
  intros Hi Ht E. destruct op as [| | | | |w|w|w|w], p; try done; cbn in E.
  - injection E as <-. quiet Hi Ht.
  - destruct (has_room s) eqn:Hr; [|done]. unfold has_room, references in Hr; apply Z.ltb_lt in Hr. injection E as <-. quiet Hi Ht.
  - destruct (Z.ltb_spec 0 (strong_refs s)); [|done]. destruct (has_room s) eqn:Hr; [|done].
    unfold has_room, references in Hr; apply Z.ltb_lt in Hr. injection E as <-. quiet Hi Ht.
  - destruct (Z.ltb_spec 0 (strong_refs s)); [|done].
    destruct ((1 <? strong_refs s) || (msum borrows (threads s) =? 0)) eqn:Hb; [|done].
    assert (1 < strong_refs s \/ msum borrows (threads s) = 0) as Hb' by lia. injection E as <-. quiet Hi Ht.
  - destruct (Z.ltb_spec 0 (strong_refs s)); [|done]. destruct (has_room s) eqn:Hr; [|done].
    unfold has_room, references in Hr; apply Z.ltb_lt in Hr. injection E as <-. quiet Hi Ht.
  - apply bind_Some in E as (x & Hx & E). destruct (Z.ltb_spec 0 (wptrs x)); [|done].
    destruct (has_room s) eqn:Hr; [|done]. injection E as <-. eauto 6 using read_wptr_inv.
  - apply bind_Some in E as (x & Hx & E). destruct (Z.ltb_spec 0 (wptrs x)) as [Hw|]; [|done].
    destruct ((1 <? wptrs x) || (msum (borrows_weak w) (threads s) =? 0)) eqn:Hb; [|done].
    assert (1 < wptrs x \/ msum (borrows_weak w) (threads s) = 0) as Hb' by lia. injection E as <-.
    destruct (held_live ext s w x Hi Hx Hw) as [Hph _]. destruct (inv_wrcs ext s Hi w x Hx) as (Ha & Hp & Hc & Hd).
    pose proof (wrc_sums _ w x Hx) as Hl. rewrite Hph in *.
    eapply (wrc_step ext s _ t _ _ w _ _ Hi Ht); [reflexivity|reflexivity|done|right; exists x; by auto|others|done|done| | |].
    + new_wrc Hi Ht. split_and!; lia.
    + split_and!; cbn; try done. intros v. destruct (Z.eqb_spec w v) as [<-|]; [|done]. rewrite lookup_insert_eq. by eexists.
    + wrc_sums_ok Hi Ht Hl.
  - apply bind_Some in E as (x & Hx & E). destruct (Z.ltb_spec 0 (wptrs x)); [|done].
    destruct (has_room s) eqn:Hr; [|done]. injection E as <-. eauto 6 using read_wptr_inv.
  - apply bind_Some in E as (x & Hx & E). destruct (Z.ltb_spec 0 (wptrs x)); [|done]. injection E as <-. eauto using read_wptr_inv.
Qed.

Lemma go_inv ext s t p sp fresh s' : inv ext s -> threads s !! t = Some p -> go ext t p sp fresh s = Some s' -> inv ext s'.
Proof.
  intros Hi Ht E. destruct p; cbn [go] in E; try done; lazymatch type of E with
    | IncStrongRef _ _ _ = _ => exact (IncStrongRef_inv _ _ _ _ _ Hi Ht E)
    | DecStrongRef _ _ _ _ = _ => exact (DecStrongRef_inv _ _ _ _ _ Hi Ht E)
    | DecWeakRefCount _ _ _ _ = _ => exact (DecWeakRefCount_inv _ _ _ _ _ Hi Ht E)
    | RefBase_dtor _ _ _ _ = _ => exact (RefBase_dtor_inv _ _ _ _ _ Hi Ht E)
    | DecRefCount _ _ _ = _ => exact (DecRefCount_inv _ _ _ _ _ Hi Ht E)
    | wptr_ctor _ _ _ _ = _ => exact (wptr_ctor_inv _ _ _ _ _ _ Hi Ht E)
    | wptr_dtor _ _ _ = _ => exact (wptr_dtor_inv _ _ _ _ _ Hi Ht E)
    | promote _ _ _ _ _ = _ => exact (promote_inv _ _ _ _ _ _ Hi Ht E)
    end.
Qed.

Lemma event_inv ext s ev s' : inv ext s -> step ext s ev = Some s' -> inv ext s'.
Proof.
  intros Hi E. destruct ev as [t [op|sp fresh]]; cbn in E; apply bind_Some in E as (p & Ht & E); eauto using start_op_inv, go_inv.
Qed.

Lemma start_inv ext t0 tids : inv ext (start t0 tids).
Proof.
  assert (forall f : pc -> Z, f Idle = 0 -> msum f (threads (start t0 tids)) = f Raw) as Hs.
  { intros f Hf. cbn. rewrite <- insert_delete_eq, msum_insert_new by apply lookup_delete_eq.
    rewrite msum_zero; [lia|]. intros t p [_ [_ <-]%lookup_gset_to_gmap_Some]%lookup_delete_Some. done. }
  split.
  - split; unfold strongs, weaks, transits, shares, raws, lasts, dooms, references; rewrite ?Hs by done; cbn; change INITIAL_PRIMARY_VALUE with 268435456;
      rewrite ?msum_empty; settle.
  - intros w x Hx. done.
  - intros t p. cbn. destruct (decide (t = t0)) as [->|Hne]; [rewrite lookup_insert_eq; by intros [= <-]|].
    rewrite lookup_insert_ne by done. intros [_ <-]%lookup_gset_to_gmap_Some. by split_and!.
Qed.

Lemma run_inv ext t0 tids evs s : run ext (start t0 tids) evs = Some s -> inv ext s.
Proof. apply (run_steps_inv (step ext) (inv ext)); [intros; by eapply event_inv|apply start_inv]. Qed.

(** ** What every schedule has *)

(** When nobody is in a method or holds anything, nothing is left. *)
Lemma nothing_left ext s : inv ext s -> (forall t p, threads s !! t = Some p -> p = Idle) -> strong_refs s = 0 ->
  (forall w x, wrcs s !! w = Some x -> wptrs x = 0) -> object s = false /\ rc s = None /\ wrcs s = ∅.
Proof.
  intros Hi Hidle Hr Hw. assert (forall f : pc -> Z, f Idle = 0 -> msum f (threads s) = 0) as Hz.
  { intros f Hf. apply msum_zero. intros t p Ht. by rewrite (Hidle t p Ht). }
  assert (wrcs s = ∅) as Hnone.
  { apply map_empty. intros w. destruct (wrcs s !! w) as [x|] eqn:Hx; [|done]. exfalso.
    destruct (inv_wrcs ext s Hi w x Hx) as (A & _ & _ & D). rewrite (Hw w x Hx), (Hz (s_wptr w)) in A by done.
    destruct (phase x); [destruct D as (_ & p & Hp & Hm)|lia|destruct D as (_ & p & Hp & Hm)]; by rewrite (Hidle _ p Hp) in Hm. }
  pose proof (inv_sums ext s Hi) as [_ Hc _ [_ Ht] _ Hn Htr _ Hm He _]. unfold strongs, weaks, shares, raws, lasts, dooms in *.
  rewrite Hnone, Hr, !Hz, !msum_empty in * by done. specialize (Ht (conj eq_refl eq_refl)).
  assert (released s = true) as Hrel by (destruct (released s); done). rewrite Hrel in Hc. cbn in Hc.
  assert (object s = false) as Hob.
  { destruct ext; [|destruct (never s) eqn:Hnv].
    - destruct (He (or_introl eq_refl)) as [_ He']. specialize (He' (conj eq_refl eq_refl)). by destruct (object s).
    - destruct (He (or_intror eq_refl)) as [_ He']. specialize (He' (conj eq_refl eq_refl)). by destruct (object s).
    - destruct (Hm eq_refl eq_refl) as [_ Hm']. specialize (Hm' eq_refl). by destruct (object s). }
  split_and!; try done. destruct (rc s) as [c|]; [|done]. destruct (Hc c eq_refl) as (_ & _ & _ & _ & Hp). lia.
Qed.

(** C3: However the threads interleave, no access is to a counter, a weak counter
    or an object that has been deleted and no 32-bit counter wraps around; the
    object lives as long as an [sptr] holds it, and with an extended life time
    as long as a [wptr] does; and once all references are gone all that was
    allocated is deleted. Clients are held to two rules: a method that makes a
    reference starts only while fewer than 2^28 - 2 references, weak ones
    included, and threads inside a method exist ([has_room]), and the last
    variable that another thread reads is not let go of ([start_op]).
    [CanPromote] is the default one. *)
Theorem concurrent_references_are_safe ext t0 tids evs s (Hrun : run ext (start t0 tids) evs = Some s) :
  crashed s = false /\
  (forall c, rc s = Some c -> 0 <= atomicStrong_ c < 2 ^ 30 /\ 0 <= atomicWeak_ c < 2 ^ 30 /\ 0 <= atomicRefCount_ c < 2 ^ 30) /\
  (forall w x, wrcs s !! w = Some x -> 0 <= wrAtomicWeak_ x < 2 ^ 30) /\
  (0 < strong_refs s -> object s = true) /\
  (forall w x, wrcs s !! w = Some x -> 0 < wptrs x -> is_Some (rc s) /\ (ext = true -> object s = true)) /\
  ((forall t p, threads s !! t = Some p -> p = Idle) -> strong_refs s = 0 -> (forall w x, wrcs s !! w = Some x -> wptrs x = 0) ->
    object s = false /\ rc s = None /\ wrcs s = ∅).
Proof.
  pose proof (run_inv ext t0 tids evs s Hrun) as Hi. pose proof (inv_sums ext s Hi) as Hs. destruct Hs as [? ? ? [? ?] ? ? ? [? ?] ? ? ?].
  pose proof (sums_ordered (threads s)) as Hso. pose proof (live_nonneg (wrcs s)) as Hl.
  split_and!; [done|intros c; by apply (counters_small ext)|intros w x; by apply (wrc_small ext)| | |by apply (nothing_left ext)].
  - intros Hp. open_sums. destruct ext; bools s; tidy; try done; exfalso; lia.
  - intros w x Hx Hp. destruct (held_live ext s w x Hi Hx Hp) as [_ Hl1]. split.
    + destruct (rc s); [by eexists|]. exfalso. open_sums. bools s; tidy; lia.
    + intros ->. open_sums. bools s; tidy; try done; exfalso; lia.
Qed.

(** A thread in a method always has a next access: nothing blocks. *)
Theorem references_never_block ext s t p sp : threads s !! t = Some p -> p <> Idle -> p <> Raw ->
  exists fresh s', step ext s (t, Go sp fresh) = Some s'.
Proof.
  intros Ht Hi Hr. assert (wrcs s !! above (dom (wrcs s)) = None) as Hnew by apply not_elem_of_dom, above_fresh.
  exists (above (dom (wrcs s))).
  cut (is_Some (go ext t p sp (above (dom (wrcs s))) s)); [intros [s' E]; exists s'; cbn; by rewrite Ht|].
  assert (forall k s', is_Some (finish t k s')) as Hf by (intros [] ?; cbn; unfold on_wrc; repeat case_match; eauto).
  destruct p; try done; cbn; unfold exchange, on_object, on_counter, on_wrc; rewrite ?Hnew; repeat case_match; eauto.
Qed.

(** ** Two schedules *)

Definition goes (t : Z) (n : nat) : list (Z * event) := replicate n (t, Go false 7).

(** Thread 1 makes an [sptr] and a [wptr] and drops the [sptr] while thread 2
    promotes a copy of the [wptr]; they let go of the rest afterwards. *)
Definition promoted_in_time : list (Z * event) :=
  (1, Begin FirstStrong) :: goes 1 4 ++ (1, Begin NewWeak) :: goes 1 3 ++
  (2, Begin (Promote 7)) :: goes 2 2 ++ (1, Begin Drop) :: goes 1 1 ++ goes 2 2 ++ goes 1 3 ++
  (2, Begin Drop) :: goes 2 7 ++ (1, Begin (DropWeak 7)) :: goes 1 8.

Definition outcome (s : world) : bool * bool * bool * Z := (crashed s, object s, if rc s is Some _ then true else false, zlen (map_to_list (wrcs s))).

Example promoted_in_time_result : outcome <$> run false (start 1 {[2]}) promoted_in_time = Some (false, false, false, 0).
Proof. vm_compute. reflexivity. Qed.

Lemma concurrent_references_are_safe_witness : exists s, run false (start 1 {[2]}) promoted_in_time = Some s /\ crashed s = false.
Proof.
  destruct (run false (start 1 {[2]}) promoted_in_time) as [s|] eqn:E; [|by vm_compute in E].
  exists s. split; [done|]. exact (proj1 (concurrent_references_are_safe false 1 {[2]} promoted_in_time s E)).
Defined.

Lemma references_never_block_witness : exists fresh s', step false (goto 1 (Inc1 true) (start 1 {[2]})) (1, Go false fresh) = Some s'.
Proof. apply (references_never_block false _ 1 (Inc1 true)); [reflexivity|discriminate|discriminate]. Defined.

(** A [wptr::GetRefPtr] reads [callback_] while [~RefBase] clears it in
    another thread: the next access of both is to that field, which is not
    atomic. *)
Definition get_while_deleting : list (Z * event) :=
  (1, Begin FirstStrong) :: goes 1 4 ++ (1, Begin NewWeak) :: goes 1 3 ++
  (1, Begin Drop) :: goes 1 3 ++ [(2, Begin (GetPtr 7))].

Example GetRefPtr_races_with_the_destructor :
  (fun s => (threads s !! 1, threads s !! 2)) <$> run false (start 1 {[2]}) get_while_deleting = Some (Some (Del1 KDecWeak), Some (Get 7)).
Proof. vm_compute. reflexivity. Qed.
