(* ===== verification/RefTracker.v ===== *)
(** * The debug tracker of the reference counters ([base/src/refbase.cpp])

    What the methods of [RefBase.v] do besides counting when the library is
    built with [DEBUG_REFBASE]: [DebugRefBase], at the start of a method,
    puts a record on a linked list that the destructor of the counter prints
    and deletes; with [PRINT_TRACK_AT_ONCE], [RefBaseDebugPrint] prints at once
    instead. Each critical section of [trackerMutex] is one function. *)

From S2P Require Import Prelude.

(** The macros of the build. *)
Class TrackConfig := { PRINT_TRACK_AT_ONCE : bool; TRACK_ALL : bool }.

Record RefTracker := { ptrID : Z; strongRefCnt : Z; weakRefCnt : Z; refCnt : Z; PID : Z; TID : Z; exTrace : option Z }.

(** What is printed: a record, a change of a counter in a log domain, the two
    lines around the records. *)
Inductive log_line :=
  | StartBacktrace
  | EndBacktrace
  | Trace (strong weak ref pid tid : Z)
  | Change (domain curCount : Z) (increments : bool).

(** The part of a [RefCounter] that tracks, the records on the heap and the log. *)
Record tracked := {
  enableTrack : bool;
  domainId_ : Z;
  refTracker : option Z;
  records : gmap Z RefTracker;
  printed : list log_line;
}.

Notation TM := (ST tracked).

Definition set_enable (b : bool) (d : Z) (s : tracked) : tracked :=
  {| enableTrack := b; domainId_ := d; refTracker := refTracker s; records := records s; printed := printed s |}.
Definition set_list (p : option Z) (m : gmap Z RefTracker) (s : tracked) : tracked :=
  {| enableTrack := enableTrack s; domainId_ := domainId_ s; refTracker := p; records := m; printed := printed s |}.
Definition put_line (l : log_line) (s : tracked) : tracked :=
  {| enableTrack := enableTrack s; domainId_ := domainId_ s; refTracker := refTracker s; records := records s; printed := printed s ++ [l] |}.

(** ** [RefTracker] *)

(** [new RefTracker(...)], at an address that is not in use. *)
Definition RefTracker_new (exTracker : option Z) (id strong weak ref pid tid : Z) : TM Z :=
  a ← st_get (fun s => above (dom (records s)));
  st_put (fun s => set_list (refTracker s) (<[a := {| ptrID := id; strongRefCnt := strong; weakRefCnt := weak; refCnt := ref;
                                                     PID := pid; TID := tid; exTrace := exTracker |}]> (records s)) s);;
  mret a.

Definition PrintTrace (this : Z) : TM unit :=
  r ← st_access (fun s => records s !! this);
  st_put (put_line (Trace (strongRefCnt r) (weakRefCnt r) (refCnt r) (PID r) (TID r))).

Definition PopTrace (this : Z) : TM (option Z) :=
  r ← st_access (fun s => records s !! this);
  PrintTrace this;;
  st_put (fun s => set_list (refTracker s) (delete this (records s)) s);;
  mret (exTrace r).

(** ** [RefCounter] *)

Section counter.
Context `{TrackConfig}.

(** The initial values of the members. *)
Definition untracked : tracked :=
  {| enableTrack := TRACK_ALL; domainId_ := 0xD003D00; refTracker := None; records := ∅; printed := [] |}.

Definition RefBaseDebugPrint (curCount : Z) (increments : bool) : TM unit :=
  on ← st_get enableTrack;
  d ← st_get domainId_;
  if PRINT_TRACK_AT_ONCE && on then st_put (put_line (Change d curCount increments)) else mret tt.

Definition EnableTrackerWithDomainId (domainId : Z) : TM unit :=
  if PRINT_TRACK_AT_ONCE then st_put (set_enable true domainId) else mret tt.

Definition EnableTracker : TM unit :=
  if negb TRACK_ALL && negb PRINT_TRACK_AT_ONCE then d ← st_get domainId_; st_put (set_enable true d) else mret tt.

Definition GetNewTrace (objectId strong weak ref pid tid : Z) : TM unit :=
  old ← st_get refTracker;
  newTracker ← RefTracker_new old objectId strong weak ref pid tid;
  st_put (fun s => set_list (Some newTracker) (records s) s).

Definition DebugRefBase (objectId strong weak ref pid tid : Z) : TM unit :=
  on ← st_get enableTrack;
  if on && negb PRINT_TRACK_AT_ONCE then GetNewTrace objectId strong weak ref pid tid else mret tt.

(** [while (refTracker)], with fuel. *)
Fixpoint PrintTracker_loop (fuel : nat) : TM unit :=
  p ← st_get refTracker;
  match p with
  | None => mret tt
  | Some a =>
    match fuel with
    | O => st_access (fun _ => None)
    | S fuel =>
      next ← PopTrace a;
      st_put (fun s => set_list next (records s) s);;
      PrintTracker_loop fuel
    end
  end.

Definition PrintTracker : TM unit :=
  p ← st_get refTracker;
  n ← st_get (fun s => size (records s));
  match p with
  | Some _ => st_put (put_line StartBacktrace);; PrintTracker_loop n;; st_put (put_line EndBacktrace)
  | None => mret tt
  end.

Definition RefCounter_dtor : TM unit :=
  on ← st_get enableTrack;
  if on && negb PRINT_TRACK_AT_ONCE then PrintTracker else mret tt.

(** What the methods of a counter call, in the order of their critical sections. *)
Inductive track_event :=
  | Method (objectId strong weak ref pid tid : Z)    (** the start of a method *)
  | Counted (curCount : Z) (increments : bool)       (** a change of a counter *)
  | Enable
  | EnableWith (domainId : Z).

Definition track (e : track_event) : TM unit :=
  match e with
  | Method o s w r p t => DebugRefBase o s w r p t
  | Counted c b => RefBaseDebugPrint c b
  | Enable => EnableTracker
  | EnableWith d => EnableTrackerWithDomainId d
  end.

(** The life of a counter. *)
Fixpoint track_all (es : list track_event) : TM unit :=
  match es with
  | [] => RefCounter_dtor
  | e :: es => track e;; track_all es
  end.

(** ** The list *)

Definition line_of (r : RefTracker) : log_line := Trace (strongRefCnt r) (weakRefCnt r) (refCnt r) (PID r) (TID r).

(** [linked m p rs]: from [p] the records [rs] are linked, and there are no others in [m]. *)
Inductive linked : gmap Z RefTracker -> option Z -> list log_line -> Prop :=
  | linked_nil : linked ∅ None []
  | linked_cons m a r ls : m !! a = None -> linked m (exTrace r) ls -> linked (<[a := r]> m) (Some a) (line_of r :: ls).

Lemma linked_size m p ls : linked m p ls -> length ls = size m.
Proof. induction 1 as [|m a r ls Ha Hl IH]; [done|]. rewrite map_size_insert_None by done. cbn. by rewrite IH. Qed.

Lemma linked_None m ls : linked m None ls -> m = ∅ /\ ls = [].
Proof. by inversion 1. Qed.

Definition list_of (s : tracked) (ls : list log_line) : Prop := linked (records s) (refTracker s) ls.

Lemma GetNewTrace_spec o st wk rf pd td s ls : list_of s ls ->
  wp (GetNewTrace o st wk rf pd td) (fun _ s' => list_of s' (Trace st wk rf pd td :: ls) /\
    enableTrack s' = enableTrack s /\ domainId_ s' = domainId_ s /\ printed s' = printed s) s.
Proof.
  intros Hl. unfold GetNewTrace, RefTracker_new. cbn. split; [|done]. unfold list_of in *. cbn.
  set (r := {| ptrID := o; strongRefCnt := st; weakRefCnt := wk; refCnt := rf; PID := pd; TID := td; exTrace := refTracker s |}).
  apply (linked_cons (records s) _ r ls); [|done]. apply not_elem_of_dom, above_fresh.
Qed.

(** The loop prints every record, the newest first, and deletes it; as much
    fuel as there are records is enough. *)
Lemma PrintTracker_loop_spec n s ls : list_of s ls -> n = length ls ->
  wp (PrintTracker_loop n) (fun _ s' => refTracker s' = None /\ records s' = ∅ /\ printed s' = printed s ++ ls) s.
Proof.
  revert s ls. induction n as [|n IH]; intros s ls Hl Hn; unfold list_of in Hl; inversion Hl as [E1 E2 E3|m a r ls' Ha Hl' E1 E2 E3]; subst ls; try done.
  - unfold PrintTracker_loop. apply wp_bind, wp_get. rewrite <- E2. apply wp_ret. rewrite app_nil_r. done.
  - cbn [PrintTracker_loop]. apply wp_bind, wp_get. rewrite <- E2. unfold PopTrace, PrintTrace.
    assert (records s !! a = Some r) as Hr by (rewrite <- E1; apply lookup_insert_eq).
    apply wp_bind. apply wp_bind, (wp_access _ r); [done|]. apply wp_bind, wp_bind, (wp_access _ r); [done|]. apply wp_put.
    apply wp_bind, wp_put, wp_ret. apply wp_bind, wp_put. cbn.
    eapply wp_mono; [apply (IH _ ls')|]; [unfold list_of; cbn; rewrite <- E1, delete_insert_id by done; done|by cbn in Hn; lia|].
    intros _ s' (P1 & P2 & P3). split_and!; [done|done|]. rewrite P3. cbn. by rewrite <- app_assoc.
Qed.

(** ** The life of a counter *)

(** The lines the events give rise to, in their order, with what [Enable] and
    [EnableWith] have set. *)
Fixpoint reported (on : bool) (d : Z) (es : list track_event) : list log_line :=
  match es with
  | [] => []
  | Method _ s w r p t :: es => (if on && negb PRINT_TRACK_AT_ONCE then [Trace s w r p t] else []) ++ reported on d es
  | Counted c b :: es => (if PRINT_TRACK_AT_ONCE && on then [Change d c b] else []) ++ reported on d es
  | Enable :: es => reported (on || negb TRACK_ALL && negb PRINT_TRACK_AT_ONCE) d es
  | EnableWith d' :: es => if PRINT_TRACK_AT_ONCE then reported true d' es else reported on d es
  end.

(** What the destructor adds to the records [ls], the newest first. *)
Definition backtrace (ls : list log_line) : list log_line :=
  match ls with [] => [] | _ => [StartBacktrace] ++ ls ++ [EndBacktrace] end.

Lemma RefCounter_dtor_spec s ls : list_of s ls -> (ls <> [] -> enableTrack s = true /\ PRINT_TRACK_AT_ONCE = false) ->
  wp RefCounter_dtor (fun _ s' => records s' = ∅ /\ printed s' = printed s ++ backtrace ls) s.
Proof.
  intros Hl Hon. unfold RefCounter_dtor. apply wp_bind, wp_get. destruct (decide (ls = [])) as [->|Hne].
  - unfold list_of in Hl. inversion Hl as [E1 E2 E3|]. cbn. rewrite app_nil_r.
    case_match; [|by apply wp_ret]. unfold PrintTracker. apply wp_bind, wp_get, wp_bind, wp_get. rewrite <- E2. by apply wp_ret.
  - destruct (Hon Hne) as [-> ->]. cbn [andb negb]. unfold PrintTracker. apply wp_bind, wp_get, wp_bind, wp_get.
    rewrite <- (linked_size _ _ _ Hl). destruct (refTracker s) as [a|] eqn:Ea; [|unfold list_of in Hl; rewrite Ea in Hl; by apply linked_None in Hl as [_ ?]].
    apply wp_bind, wp_put, wp_bind. eapply wp_mono; [apply (PrintTracker_loop_spec _ _ ls); [exact Hl|done]|].
    intros _ s' (P1 & P2 & P3). apply wp_put. split; [exact P2|]. cbn. rewrite P3. cbn. destruct ls; [done|]. by rewrite <- !app_assoc.
Qed.

Lemma track_all_spec es s ls : list_of s ls -> (ls <> [] -> enableTrack s = true /\ PRINT_TRACK_AT_ONCE = false) ->
  wp (track_all es) (fun _ s' => records s' = ∅ /\ printed s' = printed s ++
    let out := reported (enableTrack s) (domainId_ s) es in
    if PRINT_TRACK_AT_ONCE then out else backtrace (rev out ++ ls)) s.
Proof.
  revert s ls. induction es as [|e es IH]; intros s ls Hl Hon.
  { eapply wp_mono; [by apply (RefCounter_dtor_spec s ls)|]. intros _ s' [P1 P2]. split; [done|]. rewrite P2. cbn.
    destruct PRINT_TRACK_AT_ONCE eqn:Hat; [|done]. destruct ls; [done|]. by destruct (Hon ltac:(done)). }
  cbn [track_all]. apply wp_bind. destruct e as [o st wk rf pd td|c b| |d]; cbn [track reported].
  - unfold DebugRefBase. apply wp_bind, wp_get. destruct (enableTrack s && negb PRINT_TRACK_AT_ONCE) eqn:Hb; [|by apply IH].
    apply andb_true_iff in Hb as [He Hat%negb_true_iff]. rewrite He, Hat in *.
    eapply wp_mono; [by apply GetNewTrace_spec|]. intros _ s' (P1 & P2 & P3 & P4).
    eapply wp_mono; [apply (IH s' _ P1); by rewrite P2|]. intros _ s'' [Q1 Q2]. split; [done|].
    rewrite Q2, P2, P3, P4, He. cbn. by rewrite <- app_assoc.
  - unfold RefBaseDebugPrint. apply wp_bind, wp_get, wp_bind, wp_get. destruct (PRINT_TRACK_AT_ONCE && enableTrack s) eqn:Hb; [|by apply IH].
    apply andb_true_iff in Hb as [Hat He]. apply wp_put. eapply wp_mono; [by apply (IH _ ls)|]. intros _ s'' [Q1 Q2]. split; [done|].
    rewrite Q2, Hat. cbn. by rewrite <- app_assoc.
  - unfold EnableTracker. destruct (negb TRACK_ALL && negb PRINT_TRACK_AT_ONCE) eqn:Hb; [|rewrite orb_false_r; by apply IH].
    rewrite orb_true_r. apply wp_bind, wp_get, wp_put. by apply (IH (set_enable true _ s) ls Hl); [intros Hne; destruct (Hon Hne)|..].
  - unfold EnableTrackerWithDomainId. destruct PRINT_TRACK_AT_ONCE eqn:Hat; [|by apply IH].
    apply wp_put. eapply wp_mono; [apply (IH (set_enable true d s) ls Hl)|done]. intros Hne. by destruct (Hon Hne).
Qed.

(** Tracking changes nothing but the log: every life of a counter is free of
    undefined behaviour, ends with all records deleted, and prints each of
    them once, the newest first; or each change at once, in its log domain. *)
Theorem tracker_prints_and_frees (es : list track_event) : exists s', track_all es untracked = Some (tt, s') /\
  records s' = ∅ /\ printed s' = if PRINT_TRACK_AT_ONCE then reported TRACK_ALL 0xD003D00 es else backtrace (rev (reported TRACK_ALL 0xD003D00 es)).
Proof.
  pose proof (track_all_spec es untracked [] linked_nil ltac:(done)) as Hw. apply wp_elim in Hw as ([] & s' & E & P1 & P2).
  exists s'. split; [done|]. split; [done|]. rewrite P2. cbn. by rewrite app_nil_r.
Qed.
End counter.

(** With [PRINT_TRACK_AT_ONCE] the documented way to switch tracking on,
    [EnableTracker], has no effect. *)
Example EnableTracker_prints_nothing :
  option_map (fun r => printed r.2) (track_all (H := {| PRINT_TRACK_AT_ONCE := true; TRACK_ALL := false |}) [Enable; Counted 1 true] (untracked (H := {| PRINT_TRACK_AT_ONCE := true; TRACK_ALL := false |}))) = Some [].
Proof. reflexivity. Qed.

Example trace_of_two_calls :
  option_map (fun r => printed r.2) (track_all (H := {| PRINT_TRACK_AT_ONCE := false; TRACK_ALL := false |})
    [Method 1 0 0 1 7 7; Enable; Method 1 1 1 1 7 7; Method 2 2 2 1 7 8] (untracked (H := {| PRINT_TRACK_AT_ONCE := false; TRACK_ALL := false |}))) =
  Some [StartBacktrace; Trace 2 2 1 7 8; Trace 1 1 1 7 7; EndBacktrace].
Proof. reflexivity. Qed.
