(* ===== verification/SmartCast.v ===== *)
(** * Pointers to related classes, comparisons and dereferences ([refbase.h])

    [SmartPtr.v] has pointers to one class, for which a pointer is the object.
    Here a pointer variable has a class, and a pointer is the address of the
    part of that class in the object: the [RefBase] of an object that [p]
    points to as a [T] is at [p + base T], where [base] is the layout the
    compiler chooses. A conversion of an [O*] to a [T*] moves the address; one
    that goes through [void*] does not. *)

From S2P Require Import Prelude RefBase RefInv SmartPtr SmartInv.
Open Scope Z_scope.

Class Layout := base : Z -> Z.

Section casts.
Context `{RefConfig} `{Layout}.

(** [static_cast<T *>] of an [O *]. *)
Definition upcast (O T p : Z) : Z := p + base O - base T.
Definition part_of (T : Z) (p : Z) : Z := p + base T.

(** ** [sptr<T>] from [sptr<O>] *)

Definition sptr_copy_from (T O this other : Z) : SM unit :=
  p ← get_sptr other;
  let refs := upcast O T <$> p in
  set_sptr this refs;;
  if_some (part_of T <$> refs) IncStrongRef.

Definition sptr_assign_from (T O this other : Z) : SM unit :=
  p ← get_sptr other;
  let otherRef := upcast O T <$> p in
  if_some (part_of T <$> otherRef) IncStrongRef;;
  refs ← get_sptr this;
  if_some (part_of T <$> refs) DecStrongRef;;
  set_sptr this otherRef.

(** ** [wptr<T>] from [wptr<O>], [sptr<O>] and [O*] *)

(** [CreateWeakRef] on a [C *], which it stores as a [void *]. *)
Definition weak_from (C : Z) (p : option Z) : SM (option Z) :=
  match p with
  | Some p =>
    r ← lift (CreateWeakRef (part_of C p) (Some p));
    if_some r WeakRefCounter_IncWeakRefCount;;
    mret r
  | None => mret None
  end.

Definition wptr_copy_from (this other : Z) : SM unit :=
  refs ← get_wptr other;
  set_wptr this refs;;
  if_some refs WeakRefCounter_IncWeakRefCount.

Definition wptr_of_sptr_from (O this other : Z) : SM unit :=
  p ← get_sptr other;
  r ← weak_from O p;
  set_wptr this r.

(** The pointer is reinterpreted, and the method called on the result. *)
Definition wptr_assign_raw_from (T this : Z) (other : option Z) : SM unit :=
  newWeakRef ← weak_from T other;
  wptr_replace this newWeakRef.

Definition wptr_assign_from (this other : Z) : SM unit :=
  refs ← get_wptr other;
  if_some refs WeakRefCounter_IncWeakRefCount;;
  refs' ← get_wptr this;
  if_some refs' WeakRefCounter_DecWeakRefCount;;
  refs'' ← get_wptr other;
  set_wptr this refs''.

Definition wptr_assign_sptr_from (O this other : Z) : SM unit :=
  p ← get_sptr other;
  newWeakRef ← weak_from O p;
  wptr_replace this newWeakRef.

(** ** Comparisons and dereferences *)

Definition sptr_equals_sptr (this other : Z) : SM bool :=
  a ← get_sptr this; b ← get_sptr other; mret (bool_decide (a = b)).
Definition sptr_differs (this : Z) (other : option Z) : SM bool := b ← sptr_equals this other; mret (negb b).
Definition sptr_differs_sptr (this other : Z) : SM bool := b ← sptr_equals_sptr this other; mret (negb b).
Definition sptr_differs_wptr (this other : Z) : SM bool := b ← sptr_equals_wptr this other; mret (negb b).
Definition sptr_bool (this : Z) : SM bool := p ← get_sptr this; mret (bool_decide (is_Some p)).
(** [operator*] and [operator->]: undefined for null. *)
Definition sptr_deref (this : Z) : SM Z := p ← get_sptr this; lift (deref p).

Definition wptr_equals_wptr (this other : Z) : SM bool :=
  a ← wptr_GetRefPtr this; b ← wptr_GetRefPtr other; mret (bool_decide (a = b)).
Definition wptr_equals_sptr (this other : Z) : SM bool :=
  a ← wptr_GetRefPtr this; b ← get_sptr other; mret (bool_decide (a = b)).
Definition wptr_differs (this : Z) (other : option Z) : SM bool := b ← wptr_equals this other; mret (negb b).
Definition wptr_differs_wptr (this other : Z) : SM bool := b ← wptr_equals_wptr this other; mret (negb b).
Definition wptr_differs_sptr (this other : Z) : SM bool := b ← wptr_equals_sptr this other; mret (negb b).
Definition wptr_deref (this : Z) : SM Z := p ← wptr_GetRefPtr this; lift (deref p).
(** [operator->] and [GetWeakRefCount] do not test the weak counter. *)
Definition wptr_arrow (this : Z) : SM (option Z) :=
  refs ← get_wptr this; w ← lift (deref refs); lift (WeakRefCounter_GetRefPtr w).
Definition wptr_GetWeakRefCount (this : Z) : SM Z :=
  refs ← get_wptr this; w ← lift (deref refs); lift (WeakRefCounter_GetWeakRefCount w).

(** ** What the conversions of [sptr]s keep *)

(** The objects that the variables hold, [cls] giving their classes: the
    state of [SmartPtr.v]. *)
Definition objects_of (cls : Z -> Z) (w : World) : World :=
  mkWorld (heap w) (map_imap (fun k p => Some (option_map (part_of (cls k)) p)) (sptrs w)) (wptrs w).

Lemma objects_of_sptr cls w k p : sptrs w !! k = Some p -> sptrs (objects_of cls w) !! k = Some (part_of (cls k) <$> p).
Proof. intros Hk. cbn. by rewrite map_lookup_imap, Hk. Qed.

Lemma objects_of_set cls h m wp k p :
  objects_of cls (mkWorld h (<[k := p]> m) wp) = mkWorld h (<[k := part_of (cls k) <$> p]> (sptrs (objects_of cls (mkWorld h m wp)))) wp.
Proof. unfold objects_of. cbn. f_equal. by rewrite map_imap_insert. Qed.

Lemma part_upcast O T (p : option Z) : part_of T <$> (upcast O T <$> p) = part_of O <$> p.
Proof. destruct p; [|done]. cbn. f_equal. unfold part_of, upcast. lia. Qed.

Lemma if_some_heap p (f : Z -> HM unit) w :
  if_some p f w = match (match p with Some a => f a (heap w) | None => Some (tt, heap w) end) with
                  | Some (_, h) => Some (tt, mkWorld h (sptrs w) (wptrs w)) | None => None end.
Proof. destruct p as [a|]; cbn; [|by destruct w]. unfold lift. by destruct (f a (heap w)) as [[[] h]|]. Qed.

Lemma copy_from_refines cls this other w :
  is_Some (sptrs w !! other) ->
  (fun r => objects_of cls r.2) <$> sptr_copy_from (cls this) (cls other) this other w =
    snd <$> sptr_copy this other (objects_of cls w).
Proof.
  intros [p Hp]. pose proof (objects_of_sptr cls w other p Hp) as Hp'.
  unfold sptr_copy_from, sptr_copy, get_sptr, set_sptr, mbind, sm_bind. rewrite Hp, Hp'.
  rewrite !if_some_heap, part_upcast. cbn [heap sptrs wptrs objects_of].
  destruct (match part_of (cls other) <$> p with Some _ => _ | None => _ end) as [[[] h]|]; [|done].
  cbn [fmap option_fmap option_map snd]. f_equal. by rewrite objects_of_set, part_upcast.
Qed.

Lemma assign_from_refines cls this other w :
  is_Some (sptrs w !! other) -> is_Some (sptrs w !! this) ->
  (fun r => objects_of cls r.2) <$> sptr_assign_from (cls this) (cls other) this other w =
    snd <$> sptr_assign this other (objects_of cls w).
Proof.
  intros [p Hp] [q Hq]. pose proof (objects_of_sptr cls w other p Hp) as Hp'. pose proof (objects_of_sptr cls w this q Hq) as Hq'.
  unfold sptr_assign_from, sptr_assign, get_sptr, set_sptr, mbind, sm_bind. rewrite Hp, Hp'.
  rewrite !if_some_heap, part_upcast. cbn [heap sptrs wptrs objects_of].
  destruct (match part_of (cls other) <$> p with Some _ => _ | None => _ end) as [[[] h]|]; [|done].
  cbn [sptrs]. cbn [sptrs objects_of] in Hq'. rewrite Hq, Hq', !if_some_heap. cbn [heap sptrs wptrs].
  destruct (match part_of (cls this) <$> q with Some _ => _ | None => _ end) as [[[] h']|]; [|done].
  cbn [fmap option_fmap option_map snd]. f_equal. by rewrite objects_of_set, part_upcast.
Qed.

(** ** Programs whose variables have different classes *)

(** The operations that create and release a pointer, on an [sptr<T>]: the
    methods of [RefBase] are called on the part of it that is the [RefBase]. *)
Definition MakeSptr_at (T this : Z) : SM unit :=
  o ← lift RefBase_ctor;
  set_sptr this (Some (o - base T));;
  lift (IncStrongRef (part_of T (o - base T))).

Definition sptr_clear_at (T this : Z) : SM unit :=
  refs ← get_sptr this;
  match refs with
  | Some p => lift (DecStrongRef (part_of T p));; set_sptr this None
  | None => mret tt
  end.

Definition sptr_dtor_at (T this : Z) : SM unit :=
  refs ← get_sptr this;
  if_some (part_of T <$> refs) DecStrongRef;;
  end_sptr this.

(** A variable [k] is an [sptr] of class [cls k]; copies and assignments are
    the converting ones. *)
Inductive tstmt := TNull (k : Z) | TMake (k : Z) | TCopy (k j : Z) | TAssign (k j : Z) | TClear (k : Z) | TEnd (k : Z).

Definition plain_of (s : tstmt) : stmt :=
  match s with
  | TNull k => SNull k | TMake k => SMake k | TCopy k j => SCopy k j
  | TAssign k j => SAssign k j | TClear k => SClear k | TEnd k => SEnd k
  end.

Definition exec_at (cls : Z -> Z) (s : tstmt) : SM unit :=
  match s with
  | TNull k => sptr_default k
  | TMake k => MakeSptr_at (cls k) k
  | TCopy k j => sptr_copy_from (cls k) (cls j) k j
  | TAssign k j => sptr_assign_from (cls k) (cls j) k j
  | TClear k => sptr_clear_at (cls k) k
  | TEnd k => sptr_dtor_at (cls k) k
  end.

Fixpoint exec_typed (cls : Z -> Z) (p : list tstmt) : SM unit :=
  match p with
  | [] => mret tt
  | s :: p' => fun w => if legal (plain_of s) w then (exec_at cls s;; exec_typed cls p') w else exec_typed cls p' w
  end.

Lemma legal_objects cls s w : legal (plain_of s) (objects_of cls w) = legal (plain_of s) w.
Proof.
  assert (forall k, bool_decide (is_Some (sptrs (objects_of cls w) !! k)) = bool_decide (is_Some (sptrs w !! k))) as Hk.
  { intros k. apply bool_decide_ext. cbn. rewrite map_lookup_imap. destruct (sptrs w !! k); cbn; split; intros [? ?]; eauto; done. }
  destruct s; cbn [plain_of legal]; by rewrite ?Hk.
Qed.

Lemma exec_at_refines cls s w : legal (plain_of s) w = true ->
  (fun r => objects_of cls r.2) <$> exec_at cls s w = snd <$> exec (plain_of s) (objects_of cls w).
Proof.
  intros Hl. destruct s as [k|k|k j|k j|k|k]; cbn [plain_of legal exec_at exec] in *;
    try apply andb_true_iff in Hl as [Hl Hl']; repeat match goal with E : bool_decide _ = true |- _ => apply bool_decide_eq_true in E end.
  - unfold sptr_default, set_sptr. cbn [fmap option_fmap option_map snd]. f_equal. apply objects_of_set.
  - unfold MakeSptr_at, MakeSptr, mbind, sm_bind, lift, set_sptr. cbn [heap objects_of].
    destruct (RefBase_ctor (heap w)) as [[o h]|]; [|done]. cbn [heap sptrs wptrs].
    assert (part_of (cls k) (o - base (cls k)) = o) as -> by (unfold part_of; lia).
    destruct (IncStrongRef o h) as [[[] h']|]; [|done]. cbn [fmap option_fmap option_map snd]. f_equal.
    rewrite objects_of_set. cbn [fmap option_fmap option_map]. unfold part_of. by rewrite Z.sub_simpl_r.
  - by apply copy_from_refines.
  - by apply assign_from_refines.
  - destruct Hl as [p Hp]. pose proof (objects_of_sptr cls w k p Hp) as Hp'.
    unfold sptr_clear_at, sptr_clear, get_sptr, mbind, sm_bind. rewrite Hp, Hp'. destruct p as [p|]; [|done].
    cbn [fmap option_fmap option_map]. unfold lift. cbn [heap objects_of].
    destruct (DecStrongRef (part_of (cls k) p) (heap w)) as [[[] h]|]; [|done].
    unfold set_sptr. cbn [fmap option_fmap option_map snd]. f_equal. apply objects_of_set.
  - destruct Hl as [p Hp]. pose proof (objects_of_sptr cls w k p Hp) as Hp'.
    unfold sptr_dtor_at, sptr_dtor, get_sptr, mbind, sm_bind. rewrite Hp, Hp', !if_some_heap. cbn [heap objects_of].
    destruct (match part_of (cls k) <$> p with Some _ => _ | None => _ end) as [[[] h]|]; [|done].
    unfold end_sptr. cbn [fmap option_fmap option_map snd sptrs wptrs heap]. f_equal. unfold objects_of. cbn. f_equal.
    apply map_eq. intros j. rewrite map_lookup_imap. destruct (decide (j = k)) as [->|Hj];
      [by rewrite !lookup_delete_eq|by rewrite !lookup_delete_ne, map_lookup_imap by done].
Qed.

Lemma exec_typed_refines cls p w :
  (fun r => objects_of cls r.2) <$> exec_typed cls p w = snd <$> exec_all (plain_of <$> p) (objects_of cls w).
Proof.
  revert w. induction p as [|s p IH]; intros w; [done|]. cbn [exec_typed exec_all fmap list_fmap]. rewrite legal_objects.
  destruct (legal (plain_of s) w) eqn:Hl; [|apply IH]. pose proof (exec_at_refines cls s w Hl) as E.
  unfold mbind, sm_bind. destruct (exec_at cls s w) as [[[] w1]|], (exec (plain_of s) (objects_of cls w)) as [[[] w2]|];
    cbn in E; try done. injection E as <-. apply IH.
Qed.

(** C7: Programs over [sptr]s of related classes, whose copies and assignments are
    the converting ones, do to the objects what the plain programs of
    [SmartPtr.v] do, whatever the layout of the classes, from every state. So
    they are as safe: a program of less than 2^25 statements never touches a
    deleted object, every counter then holds the number of pointers that exist
    and none dangles (the platform's promotion does not refuse, as in C2). *)
Theorem sptr_conversions_refine cls (p : list tstmt) :
  (forall w, (fun r => objects_of cls r.2) <$> exec_typed cls p w = snd <$> exec_all (plain_of <$> p) (objects_of cls w)) /\
  (can_promote -> 2 * zlen p < MAX_REFS -> exists w, exec_typed cls p empty_world = Some (tt, w) /\
     counts_agree (objects_of cls w) /\ no_dangling (objects_of cls w)).
Proof.
  split; [apply exec_typed_refines|]. intros Hcan Hp.
  destruct (exec_all_steps Hcan (plain_of <$> p) 0 empty_world) as (w & E & Hw);
    [by apply empty_winv|unfold zlen in *; rewrite length_fmap; lia|].
  pose proof (exec_typed_refines cls p empty_world) as Er. change (objects_of cls empty_world) with empty_world in Er.
  rewrite E in Er. destruct (exec_typed cls p empty_world) as [[[] w']|]; [|done]. cbn in Er. injection Er as <-.
  exists w'. split_and!; [done|by eapply winv_counts|by eapply winv_no_dangling].
Qed.

(** ** What a [wptr] remembers *)

(** A [wptr<T>] made from an [sptr<O>] gives back the address of the [O], for
    a [T] the right one only if the layout puts both at the same address. *)
Theorem converted_wptr_address O T this other w p c rc
  (Hp : sptrs w !! other = Some (Some p)) (Ho : objects (heap w) !! part_of O p = Some (Some c)) (Hc : counters (heap w) !! c = Some rc)
  (Hw : 0 <= atomicWeak_ rc < 2 ^ 30) (Hr : 0 < atomicRefCount_ rc < 2 ^ 30) (Hcb : is_Some (callback_ rc)) :
  exists w', wptr_of_sptr_from O this other w = Some (tt, w') /\
    (exists w'', wptr_GetRefPtr this w' = Some (Some p, w'')) /\
    (p = upcast O T p <-> base O = base T).
Proof.
  set (w1 := mkWorld (with_new_weak (heap w) c p rc) (sptrs w) (<[this := Some (next_address (heap w))]> (wptrs w))).
  exists w1. split_and!; [|exists w1|unfold upcast; lia].
  - unfold wptr_of_sptr_from. rewrite (sm_bind_eq _ _ _ _ _ (get_sptr_eq w other _ Hp)). unfold weak_from.
    pose proof (new_wptr_at_eq (heap w) (part_of O p) p c rc Ho Hc Hw Hr) as E. revert E.
    unfold new_wptr_at, mbind, hm_bind, sm_bind, lift, set_wptr. destruct (CreateWeakRef (part_of O p) (Some p) (heap w)) as [[[v|] h1]|]; try done.
    unfold if_some, lift. simpl. destruct (WeakRefCounter_IncWeakRefCount v h1) as [[[] h2]|]; [|done].
    unfold mret, hm_ret, sm_ret. by intros [= -> ->].
  - unfold wptr_GetRefPtr. assert (wptrs w1 !! this = Some (Some (next_address (heap w)))) as Hv by apply lookup_insert_eq.
    rewrite (sm_bind_eq _ _ _ _ _ (get_wptr_eq w1 this _ Hv)).
    assert (weaks (heap w1) !! next_address (heap w) = Some (mkWeakRefCounter 1 (Some c) (Some p))) as Hk by apply lookup_insert_eq.
    assert (counters (heap w1) !! c = Some (watched rc)) as Hc1 by apply lookup_insert_eq.
    assert (WeakRefCounter_GetRefPtr (next_address (heap w)) (heap w1) = Some (Some p, heap w1)) as E.
    { unfold WeakRefCounter_GetRefPtr. rewrite (hm_bind_eq _ _ _ _ _ (load_weak_eq _ _ _ Hk)). cbn [cookie_ refCounter_].
      rewrite (hm_bind_eq (deref (Some c)) _ _ c (heap w1)) by done. rewrite (hm_bind_eq _ _ _ _ _ (valid_eq _ _ _ Hc1)).
      cbn [watched set_weak set_ref callback_]. by rewrite bool_decide_eq_true_2. }
    rewrite (lift_eq _ w1 _ _ E). by destruct w1.
Qed.
End casts.

(** ** An object with two bases *)

(** Class 1 begins at its [RefBase]; class 2 derives from another class first
    and has it 16 bytes further on. *)
#[local] Instance two_bases : Layout := fun c => if c =? 2 then 16 else 0.
#[local] Instance plain : RefConfig := {| OHOS_PLATFORM := true; CanPromote := fun _ => true |}.

(** [sptr] 1 is an [sptr] of class 2 that holds the only object. *)
Definition one_object : World :=
  match (o ← lift RefBase_ctor; set_sptr 1 (Some (o - 16));; lift (IncStrongRef o)) empty_world with
  | Some (_, w) => w
  | None => empty_world
  end.
Definition class_of (k : Z) : Z := if k =? 1 then 2 else 1.

Definition demo_classes : list tstmt := [TMake 1; TCopy 5 1; TMake 6; TAssign 6 5; TEnd 1; TClear 5; TAssign 5 6; TEnd 6].

Lemma sptr_conversions_refine_witness : exists w,
  exec_typed class_of demo_classes empty_world = Some (tt, w) /\
  counts_agree (objects_of class_of w) /\ no_dangling (objects_of class_of w).
Proof.
  refine (proj2 (sptr_conversions_refine class_of demo_classes) _ _); [intros E o; reflexivity|by vm_compute].
Defined.

(** The pointer that is left is an [sptr] of class 1 to the object that was
    made as one of class 2; the other object is gone. *)
Example demo_classes_result :
  (fun r => (sptrs r.2 !! 5, size (objects (heap r.2)))) <$> exec_typed class_of demo_classes empty_world = Some (Some (Some 1), 1%nat).
Proof. vm_compute. reflexivity. Qed.

Lemma converted_wptr_address_witness : exists w', wptr_of_sptr_from 2 7 1 one_object = Some (tt, w') /\ exists w'', wptr_GetRefPtr 7 w' = Some (Some (-15), w'').
Proof.
  destruct (converted_wptr_address 2 1 7 1 one_object (-15) 2 (mkRefCounter 1 1 1 0 0 (Some 1) (Some 1))) as (w' & E & G & _);
    [vm_compute; reflexivity|vm_compute; reflexivity|vm_compute; reflexivity|cbn; lia|cbn; lia|by eexists|].
  by exists w'.
Defined.

(** The [wptr] of class 1 gives -15, the address of the part of class 2; the
    [sptr] of class 1 gives 1, where the part of class 1 is. *)
Example wptr_conversion_miscasts :
  (fst <$> (wptr_of_sptr_from 2 7 1;; wptr_GetRefPtr 7) one_object, fst <$> (sptr_copy_from 1 2 5 1;; get_sptr 5) one_object) =
  (Some (Some (-15)), Some (Some 1)).
Proof. vm_compute. reflexivity. Qed.

(** The assignment of an [O *] calls [CreateWeakRef] at that address. *)
Example wptr_assignment_calls_elsewhere :
  (wptr_default 7;; p ← get_sptr 1; wptr_assign_raw_from 1 7 p) one_object = None.
Proof. vm_compute. reflexivity. Qed.

(** [GetWeakRefCount] and [operator->] of a null [wptr] dereference null. *)
Example null_wptr_has_no_count : (wptr_default 7;; wptr_GetWeakRefCount 7) one_object = None /\ (wptr_default 7;; wptr_arrow 7) one_object = None.
Proof. split; vm_compute; reflexivity. Qed.
