(* ===== verification/RustWrappers.v ===== *)
(** * The functions for Rust ([base/src/directory_ex.cpp], [base/src/file_ex.cpp])

    With [UTILS_CXX_RUST] the functions on paths and files get a version on
    [rust::String], a string of another library that is always valid UTF-8: a
    [std::string] that is not makes the conversion throw, which ends the
    program as no caller can catch it. A [rust::vec<char>] is a list of bytes. *)

From S2P Require Import Prelude StringEx StringInv DirectoryEx DirectoryInv DirectoryDemo FileEx FileProps.

(** The conversion to [rust::String]. *)
Class RustString := valid_utf8 : list Z -> bool.

(** Valid UTF-8 can be cut at any ASCII character. *)
Class RustStringLaws `{RustString} := {
  valid_nil : valid_utf8 [] = true;
  valid_cut a c b : 0 <= c < 128 -> valid_utf8 (a ++ c :: b) = valid_utf8 a && valid_utf8 b;
}.

Inductive outcome (A : Type) := Returns (a : A) | Throws.
Arguments Returns {A} a.
Arguments Throws {A}.

Section wrappers.
Context {K : Type} `{DirOS K} `{FileOS K} `{RustString}.
Notation FM := (ST K).

Definition to_rust (s : list Z) : outcome (list Z) := if valid_utf8 s then Returns s else Throws.

(** ** Paths *)

Definition RustExtractFilePath (fileFullName : list Z) : outcome (list Z) := to_rust (ExtractFilePath fileFullName).
Definition RustExtractFileName (fileFullName : list Z) : outcome (list Z) := to_rust (ExtractFileName fileFullName).
Definition RustExtractFileExt (fileName : list Z) : outcome (list Z) := to_rust (ExtractFileExt fileName).
Definition RustExcludeTrailingPathDelimiter (path : list Z) : outcome (list Z) := to_rust (ExcludeTrailingPathDelimiter path).
Definition RustIncludeTrailingPathDelimiter (path : list Z) : outcome (list Z) := to_rust (IncludeTrailingPathDelimiter path).

Definition RustGetCurrentProcFullFileName : FM (outcome (list Z)) := s ← GetCurrentProcFullFileName; mret (to_rust s).
Definition RustGetCurrentProcPath : FM (outcome (list Z)) := s ← GetCurrentProcPath; mret (to_rust s).

(** The result and the new [realPath]. *)
Definition RustPathToRealPath (path realPath : list Z) : FM (outcome (bool * list Z)) :=
  '(ok, tmpResolved) ← PathToRealPath path [];
  mret (if (ok : bool) then if valid_utf8 tmpResolved then Returns (true, tmpResolved) else Throws else Returns (false, realPath)).

(** The new [files]: what [GetDirFiles] makes of a copy is appended. *)
Definition RustGetDirFiles (fuel : nat) (path : list Z) (files : list (list Z)) : FM (outcome (list (list Z))) :=
  tmpFiles ← GetDirFiles fuel path files;
  mret (if forallb valid_utf8 tmpFiles then Returns (files ++ tmpFiles) else Throws).

(** ** Files *)

Definition RustLoadStringFromFile (fuel : nat) (filePath content : list Z) : FM (outcome (bool * list Z)) :=
  '(ok, tmpContent) ← LoadStringFromFile fuel filePath content;
  mret (if (ok : bool) then if valid_utf8 tmpContent then Returns (true, tmpContent) else Throws else Returns (false, content)).

Definition RustLoadStringFromFd (fuel : nat) (fd : Z) (content : list Z) : FM (outcome (bool * list Z)) :=
  '(ok, tmpContent) ← LoadStringFromFd fuel fd content;
  mret (if (ok : bool) then if valid_utf8 tmpContent then Returns (true, tmpContent) else Throws else Returns (false, content)).

Definition RustLoadBufferFromFile (fuel : nat) (filePath content : list Z) : FM (bool * list Z) :=
  '(ok, tmpContent) ← LoadBufferFromFile fuel filePath content;
  mret (if (ok : bool) then (true, content ++ tmpContent) else (false, content)).

Definition RustSaveBufferToFile (filePath content : list Z) (truncated : bool) : FM bool := SaveBufferToFile filePath content truncated.
Definition RustSaveStringToFile (filePath content : list Z) (truncated : bool) : FM bool := SaveStringToFile filePath content truncated.
Definition RustSaveStringToFd (fd : Z) (content : list Z) : FM bool := SaveStringToFd fd content.
Definition RustFileExists (fileName : list Z) : FM bool := FileExists fileName.
Definition RustStringExistsInFile (fuel : nat) (fileName subStr : list Z) (caseSensitive : bool) : FM bool :=
  StringExistsInFile fuel fileName subStr caseSensitive.
Definition RustCountStrInFile (fuel : nat) (fileName subStr : list Z) (caseSensitive : bool) : FM Z :=
  CountStrInFile fuel fileName subStr caseSensitive.

(** ** What they do *)

Context `{!RustStringLaws}.

Lemma valid_prefix a c b : 0 <= c < 128 -> valid_utf8 (a ++ c :: b) = true -> valid_utf8 a = true /\ valid_utf8 b = true.
Proof. intros Hc. rewrite valid_cut by done. apply andb_true_iff. Qed.
Lemma valid_snoc a c : 0 <= c < 128 -> valid_utf8 (a ++ [c]) = valid_utf8 a.
Proof. intros Hc. by rewrite valid_cut, valid_nil, andb_true_r. Qed.

(** The functions on paths cut at ['/'] and ['.'] only: none of them throws. *)
Theorem path_wrappers_return p (Hp : zlen p < 2 ^ 31 - 1) (Hv : valid_utf8 p = true) :
  RustExtractFilePath p = Returns (ExtractFilePath p) /\
  RustExtractFileName p = Returns (ExtractFileName p) /\
  RustExtractFileExt p = Returns (ExtractFileExt p) /\
  RustExcludeTrailingPathDelimiter p = Returns (ExcludeTrailingPathDelimiter p) /\
  RustIncludeTrailingPathDelimiter p = Returns (IncludeTrailingPathDelimiter p).
Proof.
  unfold RustExtractFilePath, RustExtractFileName, RustExtractFileExt, RustExcludeTrailingPathDelimiter, RustIncludeTrailingPathDelimiter, to_rust.
  enough (valid_utf8 (ExtractFilePath p) = true /\ valid_utf8 (ExtractFileName p) = true /\ valid_utf8 (ExtractFileExt p) = true /\
    valid_utf8 (ExcludeTrailingPathDelimiter p) = true /\ valid_utf8 (IncludeTrailingPathDelimiter p) = true) as (-> & -> & -> & -> & ->) by done.
  assert (valid_utf8 (ExtractFilePath p) = true /\ valid_utf8 (ExtractFileName p) = true) as [HP HN].
  { destruct (last_cut SLASH p) as [Hn|(a & b & -> & Hb)]; [destruct (Extract_plain _ Hn) as [-> ->]; by rewrite valid_nil|].
    rewrite zlen_app in Hp. pose proof (zlen_nonneg (SLASH :: b)). destruct (Extract_split a b Hb ltac:(lia)) as [-> ->].
    apply valid_prefix in Hv as [Ha Hv]; [|by unfold SLASH]. by rewrite valid_snoc by by unfold SLASH. }
  split_and!; try done.
  - unfold ExtractFileExt. destruct (last_cut DOT p) as [Hn|(a & b & -> & Hb)]; [by rewrite rfind_none, Z.eqb_refl, valid_nil by done|].
    rewrite zlen_app, zlen_cons in Hp. pose proof (zlen_nonneg b). pose proof (zlen_nonneg a).
    rewrite rfind_app by (done || unfold npos, SIZE_MAX; lia). rewrite (proj2 (Z.eqb_neq _ _)) by (unfold npos, SIZE_MAX; lia).
    rewrite u64_id by lia. unfold substr. apply valid_prefix in Hv as [Ha Hv]; [|by unfold DOT].
    rewrite zdrop_app_r by lia. replace (zlen a + 1 - zlen a) with 1 by lia. change (zdrop 1 (DOT :: b)) with b.
    by rewrite ztake_ge by (rewrite zlen_app, zlen_cons; lia).
  - rewrite Exclude_cases by lia. destruct (snoc_cases p) as [->|(q & x & ->)]; [done|]. rewrite last_snoc, removelast_last.
    destruct (decide (x = SLASH)) as [->|Hx]; [by rewrite valid_snoc in Hv|].
    destruct x as [|x|x]; try done. unfold SLASH in Hx. repeat (destruct x; try done).
  - rewrite Include_cases by lia. case_decide; [done|]. by rewrite valid_snoc.
Qed.

(** ** Lists of files *)

Lemma GetDirFiles_loop_prefix pre fuel : forall stack p files k,
  GetDirFiles_loop fuel stack p (pre ++ files) k = (fun r => (pre ++ r.1, r.2)) <$> GetDirFiles_loop fuel stack p files k.
Proof.
  induction fuel as [|fuel IH]; intros stack p files k; [done|]. cbn [GetDirFiles_loop]. destruct stack as [|top rest]; [done|].
  unfold mbind, st_bind, st_call at 1. unfold st_call at 1. destruct (readdir top k) as [[e|] k1].
  - destruct (is_dots (d_name e)); [apply IH|]. destruct (d_is_dir e); [|by rewrite <- app_assoc, IH].
    cbn [st_get]. destruct (dirfd top k1 <? 0); [apply IH|]. destruct (open_sub _ _ k1) as [[[sub|] k2]|]; [apply IH|apply IH|done].
  - cbn [do_closedir st_put]. apply IH.
Qed.

Lemma GetDirFiles_prefix pre fuel path files k :
  GetDirFiles fuel path (pre ++ files) k = (fun r => (pre ++ r.1, r.2)) <$> GetDirFiles fuel path files k.
Proof.
  unfold GetDirFiles, mbind, st_bind, st_call. destruct (opendir path k) as [[d|] k1]; [apply GetDirFiles_loop_prefix|done].
Qed.

(** What a [Vec] held is in it twice afterwards, before the files found: the
    wrapper hands a copy of it to [GetDirFiles], which appends, and appends
    all of the result. *)
Theorem RustGetDirFiles_repeats fuel path files k found k'
  (Hfound : GetDirFiles fuel path [] k = Some (found, k')) (Hf : forallb valid_utf8 files = true) (Hv : forallb valid_utf8 found = true) :
  RustGetDirFiles fuel path files k = Some (Returns (files ++ files ++ found), k').
Proof.
  unfold RustGetDirFiles. pose proof (GetDirFiles_prefix files fuel path [] k) as E. rewrite app_nil_r, Hfound in E.
  rewrite (st_bind_eq _ _ _ _ _ E). cbn [fst]. by rewrite forallb_app, Hf, Hv.
Qed.
End wrappers.

(** ** Files *)

Section contents.
Context {K : Type} `{DirOS K} `{FileLaws K} `{RustStringLaws}.
Implicit Types k : K.

(** What Rust saves it can load; loading a buffer appends it to what the
    vector held, while loading a string replaces it. *)
Theorem rust_content_is_loaded p c truncated x k fuel
  (Hc : c <> []) (Hp : may_write k p) (Hr : room k (zlen c)) (Hmax : zlen (saved k p c truncated) <= MAX_FILE_LENGTH)
  (Hfuel : zlen (saved k p c truncated) < Z.of_nat fuel) :
  (valid_utf8 (saved k p c truncated) = true -> exists k1 k2, RustSaveStringToFile p c truncated k = Some (true, k1) /\
    RustLoadStringFromFile fuel p x k1 = Some (Returns (true, saved k p c truncated), k2)) /\
  (exists k1 k2, RustSaveBufferToFile p c truncated k = Some (true, k1) /\
    RustLoadBufferFromFile fuel p x k1 = Some ((true, x ++ saved k p c truncated), k2)).
Proof.
  split.
  - intros Hv. destruct (SaveString_spec p c truncated k Hc Hp Hr) as (k1 & E1 & Ef).
    destruct (LoadString_spec p (saved k p c truncated) x k1 fuel) as (k2 & E2); [by rewrite Ef, lookup_insert_eq|done..|].
    exists k1, k2. split; [done|]. unfold RustLoadStringFromFile. rewrite (st_bind_eq _ _ _ _ _ E2). by rewrite Hv.
  - destruct (SaveBuffer_spec p c truncated k Hc Hp Hr) as (k1 & E1 & Ef).
    destruct (LoadBuffer_spec p (saved k p c truncated) x k1 fuel) as (k2 & E2); [by rewrite Ef, lookup_insert_eq|done..|].
    exists k1, k2. split; [done|]. unfold RustLoadBufferFromFile. by rewrite (st_bind_eq _ _ _ _ _ E2).
Qed.
End contents.

(** ** Strings of ASCII characters *)

#[local] Instance ascii : RustString := forallb (fun c => (0 <=? c) && (c <? 128)).
#[local] Instance ascii_laws : RustStringLaws.
Proof.
  split; [done|]. intros a c b Hc. unfold valid_utf8, ascii. rewrite forallb_app. cbn.
  destruct (Z.leb_spec 0 c), (Z.ltb_spec c 128); try lia. done.
Defined.

Lemma path_wrappers_return_witness : RustExtractFileName [47; 97; 47; 98] = Returns [98].
Proof. exact (proj1 (proj2 (path_wrappers_return [47; 97; 47; 98] eq_refl eq_refl))). Defined.

Lemma rust_content_is_loaded_witness :
  exists k1 k2, RustSaveStringToFile path_f [65; 66] true demo_fdisk = Some (true, k1) /\
    RustLoadStringFromFile 9 path_f [9] k1 = Some (Returns (true, [65; 66]), k2).
Proof.
  assert (path_f ∉ knodes demo_fdisk) as Hpath by (refine (proj1 (bool_decide_eq_true _) _); vm_compute; reflexivity).
  destruct (proj1 (rust_content_is_loaded path_f [65; 66] true [9] demo_fdisk 9 ltac:(done) Hpath
    ltac:(vm_compute; congruence) ltac:(vm_compute; congruence) ltac:(vm_compute; reflexivity)) eq_refl) as (k1 & k2 & E1 & E2).
  by exists k1, k2.
Defined.

(** The tree of [DirectoryDemo]: the one name the vector held is there twice. *)
Lemma RustGetDirFiles_repeats_witness : exists k', RustGetDirFiles 17 path_d [[1]] demo_disk =
  Some (Returns ([[1]] ++ [[1]] ++ [[47; 100; 47; 102]; [47; 100; 47; 115; 47; 120]; [47; 100; 47; 103]; [47; 100; 47; 104]]), k').
Proof.
  destruct (GetDirFiles 17 path_d [] demo_disk) as [[found k']|] eqn:E; [|by vm_compute in E]. exists k'.
  assert (found = [[47; 100; 47; 102]; [47; 100; 47; 115; 47; 120]; [47; 100; 47; 103]; [47; 100; 47; 104]]) as ->
    by (vm_compute in E; congruence).
  exact (RustGetDirFiles_repeats 17 path_d [[1]] demo_disk _ k' E eq_refl eq_refl).
Defined.

(** A file that is not valid UTF-8 ends the program that loads it as a string. *)
Definition binary_disk : fdisk := set_files (<[path_f := [200; 65]]> (kfiles demo_fdisk)) 100 demo_fdisk.
Example RustLoadStringFromFile_throws : (fst <$> RustLoadStringFromFile 9 path_f [] binary_disk) = Some Throws.
Proof. vm_compute. reflexivity. Qed.

(** Loading a buffer into a vector that is not empty keeps what it held. *)
Example RustLoadBuffer_appends : (fst <$> RustLoadBufferFromFile 9 path_f [9] demo_fdisk) = Some (true, [9; 1; 2]).
Proof. vm_compute. reflexivity. Qed.
